(* ===== verification/_CoqProject ===== *)
-Q . S2P
Prelude.v
CircularQueue.v
ConnPool.v
Client.v
ClientOps.v
CityHash.v
GoStd.v
GoTime.v
Regexp.v
SqlLex.v
FormatValue.v
Bind.v
QueryParams.v
ChUrl.v
Strconv.v
Wire.v
ProtoPackets.v
HttpErrors.v
HttpStream.v
QueryContext.v
HttpRequest.v
Options.v
Block.v
HttpBatch.v
HttpConn.v
Process.v
Rows.v
StructMap.v
StdDriver.v
Transport.v
Statement.v
HttpSession.v
LowCardinality.v
Enum.v
Column.v
ColumnLaws.v
ColumnLeaf.v
ColumnCell.v
ColumnTime.v
ColumnBig.v
ColumnAddr.v
ColumnScan.v
ColumnGeo.v
ColumnQBit.v
OrderedMap.v
ColumnType.v
ColumnOther.v
ColumnVariant.v
ColumnDynamic.v
JsonPaths.v
ColumnJSON.v
BlockColumns.v
DictColumns.v
Batch.v
BatchBlocks.v
