(* ===== verification/Prelude.v ===== *)
(** * clickhouse-go: a verification library

    clickhouse-go is the Go driver of the ClickHouse database.  An application opens a
    client from options or from a DSN text; the client keeps a pool of connections, binds
    arguments into query texts, speaks the native protocol (packets, blocks of columns,
    a checksum over compressed frames) or HTTP, collects rows for an INSERT in batches and
    reads the blocks of an answer as rows.  The same client is offered to database/sql.

    ** How the parts fit together, and where they are

    - Connections.  [Options.v] reads [clickhouse_options.go]: DSN text to options, over
      the URL parser of [ChUrl.v] ([lib/churl]) and the number and duration parsers of
      [Strconv.v].  [CircularQueue.v] ([internal/circular]) is the ring buffer of
      [ConnPool.v] ([conn_pool.go]), the pool under [Client.v] ([clickhouse.go]: dial,
      acquire, release, Close); [ClientOps.v] are the operations of [clickhouse.go] that
      take a connection and give it back.  [Transport.v] is [conn.go], [conn_handshake.go]
      and [conn_send_query.go]: the handshake, the query and the data packets;
      [Statement.v] puts options, binding, sending and reading together as the operations
      of a connection ([dial], [conn_exec.go], [conn_async_insert.go], [conn_query.go]),
      with the deadlines of the socket and a context that may end, where the [select] of
      the reading may pick either side, and [ext/ext.go].
      [StdDriver.v] is [clickhouse_std.go], the driver of database/sql.
    - Queries.  [SqlLex.v] is the scanner of quotes and comments, [FormatValue.v] the text
      of a value, [Bind.v] ([bind.go]) the three styles of placeholders, [QueryParams.v]
      ([query_parameters.go]) the server-side parameters, [QueryContext.v] ([context.go])
      the options that travel in a context.
    - Wire.  [Wire.v] are the primitives, [ProtoPackets.v] ([lib/proto]) the packets,
      [CityHash.v] ([lib/cityhash102]) the checksum, [Block.v] ([lib/proto/block.go]) the
      blocks, [Process.v] ([conn_process.go]) the loop that reads the server's packets,
      [Rows.v] ([clickhouse_rows.go]) the rows of an answer, [StructMap.v]
      ([struct_map.go], [scan.go]) structs as rows, [Batch.v] ([conn_batch.go]) the INSERT
      side, which [BatchBlocks.v] instantiates with the driver's own blocks.
    - HTTP.  [HttpRequest.v] is the URL and the headers of a request, [HttpConn.v] the
      operations ([conn_http*.go]), the goroutine behind the rows of a query as steps
      against its two channels, [HttpStream.v] the search for exceptions in a raw
      answer, [HttpErrors.v] the parsers of exception texts over the regular expressions
      of [Regexp.v], [HttpBatch.v] ([conn_http_batch.go]) inserts; [HttpSession.v] opens a connection and makes the
      requests with external tables.
    - Columns ([lib/column]).  [Column.v] is the column interface and the columns built
      from other columns, [ColumnLaws.v] their contract; [ColumnLeaf.v] are the numbers,
      booleans and strings, [ColumnCell.v] what columns of fixed-width cells share,
      [ColumnTime.v] dates and times over [GoTime.v], [ColumnBig.v] wide integers and
      decimals, [ColumnAddr.v] UUIDs and addresses, [ColumnGeo.v] geometries,
      [ColumnQBit.v] vectors, [OrderedMap.v] the ordered maps for Map columns;
      [LowCardinality.v] and [Enum.v] are the dictionary and enumeration columns,
      [DictColumns.v] dictionaries of the driver's columns.
      [ColumnType.v] and [ColumnOther.v] are the parser of type texts; [ColumnVariant.v],
      [ColumnDynamic.v], [JsonPaths.v] and [ColumnJSON.v] the columns whose rows have
      types of their own; [ColumnScan.v] reads rows of tuples and arrays into maps, structs,
      slices and [any] by reflection; [BlockColumns.v] puts the columns into the blocks of [Block.v].
    - [GoStd.v], [GoTime.v], [Regexp.v] and [Strconv.v] hold the parts of Go's standard
      library the code uses.

    ** How the code is modelled

    A function of the source is a function here, with the state it changes as an argument
    and as a result.  Errors are values of [result]; an index out of range, a nil
    dereference, a failing type assertion and a recursion without end are [None]; the loops
    that read packets say with an error of their own ([PEFuel]) that they ran out of fuel.
    Integers are [Z] with the wrap-around of their width written out; texts and byte
    slices are lists of bytes; Go maps are [gmap]s, or lists of entries where the order of
    a walk matters, and then the walk is an argument.  Schedules of goroutines and
    channels, clocks, random numbers, the server and the network are arguments too
    (streams of outcomes, or the steps of a relation), so that the theorems hold for all
    of them.

    Components meet in interfaces.  [Wire] with [WireLaws] is the buffer and the reader of
    ch-go; [ColumnOps] with [CodecLaws] is what a block asks of columns, [BlockOps] with
    [BlockLaws] what a batch asks of blocks, discharged for the blocks of the driver by
    [driver_laws], [IndexLaws] what a dictionary asks of its column, discharged by
    [driver_index]; the record [Interface] with the class [Laws]
    is the Go interface of columns with its contract, which every composite column
    discharges from the contracts of its parts.

    ** What is taken from elsewhere

    Code outside the repository is a parameter with its documented behaviour as
    hypotheses, and each has an instance for which these hold: the wire primitives
    ([leb]), the cells of times ([ChTime]), decimals ([Decimals]), byte orders of
    addresses and the parser of UUIDs ([ChAddr]), the vector of points ([PointVec]) and
    of bits ([ColQBit]), the compressor of frames, [strconv.FormatFloat],
    [time.LoadLocation], [slices.SortFunc], conversions between floats and integers.

    ** What the theorems show

    - Nothing is lost on the wire: [Query_roundtrip], [Block_roundtrip], [insert_select]
      (a table goes through an INSERT and comes back from a SELECT, for the types of the
      grammar of type texts), [sendData_frames], [dial_negotiates]; [statement_delivered]
      follows a statement from the call to the packet the server reads and back to the
      answer, [tables_in_request] its tables over HTTP.
    - Values survive their columns: [dates_survive], [instants_survive],
      [wide_numbers_survive], [geometries_survive], [dictionary_roundtrip],
      [enum_rows_typed], [variant_survives], [dynamic_survives], [json_survives],
      [json_rows_by_path] (a JSON column refines a table of paths),
      [nested_map_roundtrip], [struct_rows_roundtrip], [type_text_roundtrip].
    - Texts of the user stay texts: [formatValue_shielded], [bindPositional_spec],
      [bind_marks_spec] against a reference lexer of SQL; [Parse_dsn], [ParseDSN_options].
    - Answers are complete and end: [query_delivers], [std_result_sets],
      [process_terminates], [stream_stops_at_block], [exception_block_recovered],
      [http_rows_end]; [statement_aftermath] says what is left behind when
      they are not; [scan_into_any] and [scan_into_struct] what a variable is given.
    - Rows of an INSERT reach the server once: [rows_delivered_once], [batch_discipline],
      [http_batch_once], [std_commit_sends].
    - Connections are neither lost nor shared: [client_accounting],
      [operations_give_back], [http_releases_once], [queue_refines_fifo];
      [options_are_private] and [request_precedence] for options;
      [CityHash128_total_local] for the bounds of the hash.

    Lemmas at the end of the files, named after what goes wrong, evaluate the code on
    inputs where it does not do what it is meant to; they say where the hypotheses of the
    theorems are needed.

    ** Fuel and bounds

    Loops over bytes or packets take the length of their input as fuel, which is enough as
    every turn takes at least one byte; where a theorem speaks of a result, that the fuel
    suffices is part of it ([process_terminates], [query_delivers]).  The goroutine of
    [HttpConn.v] needs no fuel: [work] bounds its steps.  [Column] takes the depth of brackets of a type text, [uvarint] ten
    bytes, [dec_rev] the number of binary digits.  [fillMap] of [JsonPaths.v] has no bound:
    [leading_dot_recurses] shows that the code does not end there.  Lengths on the wire are
    below 2^63, as a Go length is.

    ** Not modelled

    - [ScanRow] of the plain columns into variables of other types, and of Map columns;
      the type BFloat16 of [column_gen.go].  [lib/column/object_json.go] is commented out
      as a whole.
    - JSON and text forms of [lib/chcol] ([MarshalJSON] and the like), which are calls of
      encoding/json.
    - [context.Context] beyond its being done and its deadline, TLS, the compressors, the
      writer of forms and the http.Transport: library calls.
    - Log messages ([logger.go]), [String] methods, the interfaces of [lib/driver], the
      re-exports of [chcol.go], code generators, release tooling, examples and tests. *)

From Stdlib Require Export ZArith Lia.
From Stdlib.Strings Require Export Byte.
From stdpp Require Export base list strings gmap fin_maps.

#[global] Set Default Goal Selector "!".
#[global] Unset Printing Records.
#[global] Set Warnings "-clear-no-such-hyp".

(** ** Results: a Go function that returns [(value, error)]

    [Err e] stands for a non-nil error; the value returned beside it is not
    observable by a caller that follows the language's convention.  A runtime
    panic is a different outcome: operations that can panic (an index out of
    range, a slice bound out of range) live in [option], [None] being the
    panic. *)

Inductive result (E A : Type) : Type :=
| Ok (a : A)
| Err (e : E).
Arguments Ok {E A} a.
Arguments Err {E A} e.

#[global] Instance result_ret {E} : MRet (result E) := fun A a => Ok a.
#[global] Instance result_bind {E} : MBind (result E) :=
  fun A B f m => match m with Ok a => f a | Err e => Err e end.
#[global] Instance result_fmap {E} : FMap (result E) :=
  fun A B f m => match m with Ok a => Ok (f a) | Err e => Err e end.

#[global] Instance result_eq_dec {E A} `{EqDecision E, EqDecision A} : EqDecision (result E A).
Proof. solve_decision. Defined.

Lemma Ok_inj {E A} (a b : A) : @Ok E A a = Ok b → a = b.
Proof. congruence. Qed.

Definition is_ok {E A} (r : result E A) : bool :=
  match r with Ok _ => true | Err _ => false end.

Definition map_err {E F A} (f : E → F) (r : result E A) : result F A :=
  match r with Ok a => Ok a | Err e => Err (f e) end.

(** ** Bytes and byte strings

    A Go [string] or [[]byte] is a list of bytes; [str] writes a literal. *)

Abbreviation gostring := (list byte).

Definition str (s : string) : gostring := String.list_byte_of_string s.
Arguments str s%_string_scope.

#[global] Instance byte_eq_dec : EqDecision byte := Byte.byte_eq_dec.

#[global] Program Instance byte_countable : Countable byte :=
  inj_countable Byte.to_N Byte.of_N Byte.of_to_N.

#[global] Instance byte_inhabited : Inhabited byte := populate x00.

(** The numeric value of a byte, and the byte of a number modulo 256. *)
Definition bz (b : byte) : Z := Z.of_N (Byte.to_N b).

Definition zb (z : Z) : byte :=
  match Byte.of_N (Z.to_N (z mod 256)) with Some b => b | None => x00 end.

Lemma bz_range b : (0 ≤ bz b < 256)%Z.
Proof. unfold bz. pose proof (Byte.to_N_bounded b). lia. Qed.

Lemma zb_bz b : zb (bz b) = b.
Proof.
  unfold zb. rewrite Z.mod_small by apply bz_range.
  unfold bz. by rewrite N2Z.id, Byte.of_to_N.
Qed.

Lemma bz_zb z : bz (zb z) = (z mod 256)%Z.
Proof.
  unfold zb, bz. pose proof (Z.mod_pos_bound z 256 eq_refl) as Hb.
  destruct (Byte.of_N (Z.to_N (z mod 256))) as [b|] eqn:E.
  - apply Byte.to_of_N in E. rewrite E, Z2N.id; lia.
  - apply Byte.of_N_None_iff in E. lia.
Qed.

Lemma bz_inj b c : bz b = bz c → b = c.
Proof. intros H. by rewrite <- (zb_bz b), <- (zb_bz c), H. Qed.

(** Byte comparisons as the source writes them ([c == 'x'], [lo <= c && c <= hi]). *)
Definition beq (b c : byte) : bool := Byte.eqb b c.

Definition in_range (lo hi b : byte) : bool := ((bz lo <=? bz b) && (bz b <=? bz hi))%Z.

Lemma beq_spec b c : reflect (b = c) (beq b c).
Proof.
  unfold beq. destruct (Byte.eqb b c) eqn:E; constructor.
  - by apply Byte.byte_dec_bl.
  - intros ->. rewrite Byte.byte_dec_lb in E; done.
Qed.

Lemma beq_refl b : beq b b = true.
Proof. by destruct (beq_spec b b). Qed.

Lemma beq_ne b c : b ≠ c → beq b c = false.
Proof. by destruct (beq_spec b c). Qed.

Lemma beq_true b c : beq b c = true ↔ b = c.
Proof. by destruct (beq_spec b c). Qed.

(** ** Slices: indexing and slicing with the language's bounds checks *)

(** [s[n:]] panics when [n > len(s)]. *)
Definition slice_from {A} (s : list A) (n : nat) : option (list A) :=
  if decide (n ≤ length s) then Some (drop n s) else None.

(** [s[a:b]] panics unless [a <= b <= len(s)] (for a string; for a slice the
    upper bound is the capacity, which the model takes to be the length). *)
Definition slice {A} (s : list A) (a b : nat) : option (list A) :=
  if decide (a ≤ b ∧ b ≤ length s) then Some (take (b - a) (drop a s)) else None.

(** [s[i] = v] panics when [i >= len(s)]. *)
Definition set_index {A} (s : list A) (i : nat) (v : A) : option (list A) :=
  if decide (i < length s) then Some (<[i := v]> s) else None.

Lemma slice_from_Some {A} (s : list A) n : n ≤ length s → slice_from s n = Some (drop n s).
Proof. intros. unfold slice_from. by rewrite decide_True. Qed.

Lemma slice_Some {A} (s : list A) a b :
  a ≤ b → b ≤ length s → slice s a b = Some (take (b - a) (drop a s)).
Proof. intros. unfold slice. by rewrite decide_True. Qed.

Lemma set_index_Some {A} (s : list A) i v : i < length s → set_index s i v = Some (<[i := v]> s).
Proof. intros. unfold set_index. by rewrite decide_True. Qed.

(** ** Machine integers *)

Definition u8 (z : Z) : Z := (z mod 2 ^ 8)%Z.
Definition u16 (z : Z) : Z := (z mod 2 ^ 16)%Z.
Definition u32 (z : Z) : Z := (z mod 2 ^ 32)%Z.
Definition u64 (z : Z) : Z := (z mod 2 ^ 64)%Z.

(** Two's complement wrap-around at width [w]. *)
Definition swrap (w z : Z) : Z := ((z + 2 ^ (w - 1)) mod 2 ^ w - 2 ^ (w - 1))%Z.
Definition i8 : Z → Z := swrap 8.
Definition i16 : Z → Z := swrap 16.
Definition i32 : Z → Z := swrap 32.
Definition i64 : Z → Z := swrap 64.

Lemma u64_range z : (0 ≤ u64 z < 2 ^ 64)%Z.
Proof. apply Z.mod_pos_bound. lia. Qed.

Lemma u32_range z : (0 ≤ u32 z < 2 ^ 32)%Z.
Proof. apply Z.mod_pos_bound. lia. Qed.

Lemma u64_small z : (0 ≤ z < 2 ^ 64)%Z → u64 z = z.
Proof. apply Z.mod_small. Qed.

Lemma u32_small z : (0 ≤ z < 2 ^ 32)%Z → u32 z = z.
Proof. apply Z.mod_small. Qed.

Lemma u64_idem z : u64 (u64 z) = u64 z.
Proof. apply u64_small, u64_range. Qed.

Lemma swrap_small w z :
  (0 < w)%Z → (- 2 ^ (w - 1) ≤ z < 2 ^ (w - 1))%Z → swrap w z = z.
Proof.
  intros Hw Hz. unfold swrap.
  replace (2 ^ w)%Z with (2 * 2 ^ (w - 1))%Z.
  - rewrite Z.mod_small; lia.
  - rewrite <- Z.pow_succ_r by lia. f_equal; lia.
Qed.

Lemma i32_small z : (- 2 ^ 31 ≤ z < 2 ^ 31)%Z → i32 z = z.
Proof. intros H. by apply swrap_small. Qed.

Lemma i64_small z : (- 2 ^ 63 ≤ z < 2 ^ 63)%Z → i64 z = z.
Proof. intros H. by apply swrap_small. Qed.

Lemma swrap_range w z : (0 < w)%Z → (- 2 ^ (w - 1) ≤ swrap w z < 2 ^ (w - 1))%Z.
Proof.
  intros Hw. unfold swrap.
  assert (2 ^ w = 2 * 2 ^ (w - 1))%Z as Hp.
  { rewrite <- Z.pow_succ_r by lia. f_equal; lia. }
  pose proof (Z.mod_pos_bound (z + 2 ^ (w - 1)) (2 ^ w)) as Hm.
  pose proof (Z.pow_pos_nonneg 2 (w - 1)). lia.
Qed.

(** ** Little-endian integers ([encoding/binary]) *)

Fixpoint le_put (n : nat) (z : Z) : gostring :=
  match n with
  | O => []
  | S n => zb z :: le_put n (z / 256)%Z
  end.

Fixpoint le_get (bs : gostring) : Z :=
  match bs with
  | [] => 0%Z
  | b :: bs => (bz b + 256 * le_get bs)%Z
  end.

Lemma length_le_put n z : length (le_put n z) = n.
Proof. revert z; induction n; intros z; simpl; auto. Qed.

Lemma le_get_range bs : (0 ≤ le_get bs < 256 ^ Z.of_nat (length bs))%Z.
Proof.
  induction bs as [|b bs IH]; [simpl; lia|].
  cbn [le_get length]. rewrite Nat2Z.inj_succ, Z.pow_succ_r by lia.
  pose proof (bz_range b). lia.
Qed.

Lemma le_get_put n z : le_get (le_put n z) = (z mod 256 ^ Z.of_nat n)%Z.
Proof.
  revert z; induction n as [|n IH]; intros z; cbn [le_put le_get].
  - by rewrite Z.mod_1_r.
  - rewrite IH, bz_zb, Nat2Z.inj_succ, Z.pow_succ_r by lia.
    rewrite Z.rem_mul_r; lia.
Qed.

Lemma le_put_get bs : le_put (length bs) (le_get bs) = bs.
Proof.
  induction bs as [|b bs IH]; [done|]. cbn [length le_get le_put].
  pose proof (bz_range b) as Hb. f_equal.
  - apply bz_inj. rewrite bz_zb, (Z.mul_comm 256), Z.mod_add by lia.
    by rewrite Z.mod_small by lia.
  - rewrite (Z.mul_comm 256), Z.div_add by lia.
    by rewrite Z.div_small by lia.
Qed.

Lemma le_put_mod n z : le_put n (z mod 256 ^ Z.of_nat n) = le_put n z.
Proof. rewrite <- le_get_put. rewrite <- (length_le_put n z) at 1. apply le_put_get. Qed.

(** ** Shared tactics *)

(** Case analysis on the [if]s and [match]es of the goal, closing what becomes absurd. *)
Ltac cases :=
  repeat (case_match; simplify_eq/=; try done).

Ltac byte_cases c := destruct c; vm_compute; try done.

(** ** Hints shared by the components *)

Create HintDb gomodel.
Create Rewrite HintDb gomodel.
#[export] Hint Rewrite @length_app @length_map @length_take @length_drop
  @length_replicate @length_insert length_le_put : gomodel.
#[export] Hint Resolve bz_range u64_range u32_range : gomodel.
