(* ===== verification/CircularQueue.v ===== *)
(** * The bounded FIFO ring buffer ([internal/circular/queue.go])

    [Queue] is the struct; every method is a definition of the same name
    ([Queue_next] for the unexported [next]).  Methods that index the backing
    array live in [option]: [None] is the runtime's index-out-of-range panic.
    The iterators returned by [all], [DeleteFunc] and [Clear] are their
    callback loops: the callbacks ([yield], [shouldRemove]) are functions that
    pass an arbitrary state [S] along, so that a callback may read a clock,
    close a connection or stop the iteration.

    [queue_rep q xs] is the representation relation to the abstract queue: a
    list of at most [Cap] elements.  It also says that every slot outside the
    live window holds the zero value, i.e. that a removed element is not kept
    reachable by the buffer. *)

From S2P Require Import Prelude.

Section Queue.
Context {T : Type} (zero : T).

Record Queue := mkQueue {
  q_data : list T;
  q_head : nat;
  q_tail : nat;
  q_len : nat;
}.

Definition New (capacity : nat) : Queue := mkQueue (replicate capacity zero) 0 0 0.

Definition Len (q : Queue) : nat := q_len q.
Definition Cap (q : Queue) : nat := length (q_data q).
Definition IsFull (q : Queue) : bool := q_len q =? length (q_data q).
Definition IsEmpty (q : Queue) : bool := q_len q =? 0.

Definition Queue_next (q : Queue) (index : nat) : nat :=
  let index := S index in
  if length (q_data q) <=? index then 0 else index.

Definition Push (q : Queue) (value : T) : option (Queue * bool) :=
  if IsFull q then Some (q, false)
  else
    data ← set_index (q_data q) (q_tail q) value;
    Some (mkQueue data (q_head q) (Queue_next q (q_tail q)) (S (q_len q)), true).

Definition Pull (q : Queue) : option (Queue * (T * bool)) :=
  if IsEmpty q then Some (q, (zero, false))
  else
    value ← q_data q !! q_head q;
    data ← set_index (q_data q) (q_head q) zero;
    Some (mkQueue data (Queue_next q (q_head q)) (q_tail q) (q_len q - 1), (value, true)).

(** The loop of [all]: [n] iterations are left, [idx] is the loop index. *)
Fixpoint all_loop {S : Type} (q : Queue) (yield : S → nat → T → S * bool)
    (n idx current : nat) (s : S) : option S :=
  match n with
  | O => Some s
  | Datatypes.S n =>
      value ← q_data q !! current;
      let '(s, continue) := yield s idx value in
      if continue then all_loop q yield n (Datatypes.S idx) (Queue_next q current) s
      else Some s
  end.

Definition all {S : Type} (q : Queue) (yield : S → nat → T → S * bool) (s : S) : option S :=
  if IsEmpty q then Some s else all_loop q yield (q_len q) 0 (q_head q) s.

(** The mutable locals of the loops of [DeleteFunc] and [Clear]. *)
Record dloop (S : Type) := mkDloop {
  d_data : list T;
  d_newTail : nat;
  d_current : nat;
  d_stop : bool;
  d_newLen : nat;
  d_state : S;
}.
Arguments mkDloop {S}.
Arguments d_data {S}.
Arguments d_newTail {S}.
Arguments d_current {S}.
Arguments d_stop {S}.
Arguments d_newLen {S}.
Arguments d_state {S}.

(** "move it to newTail if needed" *)
Definition DeleteFunc_move (data : list T) (current newTail : nat) (value : T) : option (list T) :=
  if decide (current ≠ newTail) then
    data ← set_index data newTail value;
    set_index data current zero
  else Some data.

Definition DeleteFunc_body {S : Type} (q : Queue) (shouldRemove : S → T → S * bool)
    (yield : S → T → S * bool) (l : dloop S) : option (dloop S) :=
  value ← d_data l !! d_current l;
  let '(s, remove) := shouldRemove (d_state l) value in
  if negb remove then
    data ← DeleteFunc_move (d_data l) (d_current l) (d_newTail l) value;
    Some (mkDloop data (Queue_next q (d_newTail l)) (Queue_next q (d_current l))
            (d_stop l) (Datatypes.S (d_newLen l)) s)
  else
    data ← set_index (d_data l) (d_current l) zero;
    let '(s, stop) := if d_stop l then (s, true)
                      else let '(s, continue) := yield s value in (s, negb continue) in
    Some (mkDloop data (d_newTail l) (Queue_next q (d_current l)) stop (d_newLen l) s).

Fixpoint DeleteFunc_loop {S : Type} (q : Queue) (shouldRemove : S → T → S * bool)
    (yield : S → T → S * bool) (n : nat) (l : dloop S) : option (dloop S) :=
  match n with
  | O => Some l
  | Datatypes.S n => l ← DeleteFunc_body q shouldRemove yield l; DeleteFunc_loop q shouldRemove yield n l
  end.

Definition DeleteFunc {S : Type} (q : Queue) (shouldRemove : S → T → S * bool)
    (yield : S → T → S * bool) (s : S) : option (Queue * S) :=
  if IsEmpty q then Some (q, s)
  else
    l ← DeleteFunc_loop q shouldRemove yield (q_len q)
          (mkDloop (q_data q) (q_head q) (q_head q) false 0 s);
    Some (mkQueue (d_data l) (q_head q) (d_newTail l) (d_newLen l), d_state l).

(** [Clear] has no [newTail] and [newLen]: those two fields of [dloop] do not change in it. *)
Definition Clear_body {S : Type} (q : Queue) (yield : S → T → S * bool)
    (l : dloop S) : option (dloop S) :=
  value ← d_data l !! d_current l;
  data ← set_index (d_data l) (d_current l) zero;
  let '(s, stop) := if d_stop l then (d_state l, true)
                    else let '(s, continue) := yield (d_state l) value in (s, negb continue) in
  Some (mkDloop data (d_newTail l) (Queue_next q (d_current l)) stop (d_newLen l) s).

Fixpoint Clear_loop {S : Type} (q : Queue) (yield : S → T → S * bool)
    (n : nat) (l : dloop S) : option (dloop S) :=
  match n with
  | O => Some l
  | Datatypes.S n => l ← Clear_body q yield l; Clear_loop q yield n l
  end.

Definition Clear {S : Type} (q : Queue) (yield : S → T → S * bool) (s : S) : option (Queue * S) :=
  if IsEmpty q then Some (q, s)
  else
    l ← Clear_loop q yield (q_len q) (mkDloop (q_data q) (q_head q) (q_head q) false 0 s);
    Some (mkQueue (d_data l) 0 0 0, d_state l).

(** ** The abstract queue *)

(** The backing array read from the head around to it. *)
Definition rotation (data : list T) (head : nat) : list T := drop head data ++ take head data.

Record queue_rep (q : Queue) (xs : list T) : Prop := {
  qr_head : q_head q < Cap q ∨ (Cap q = 0 ∧ q_head q = 0);
  qr_tail : q_tail q = (q_head q + length xs) mod Cap q;
  qr_len : q_len q = length xs;
  qr_data : rotation (q_data q) (q_head q) = xs ++ replicate (Cap q - length xs) zero;
}.

(** What [DeleteFunc] does to the abstract queue: the elements kept, and the
    callback state after each element was tested and each removed element was
    yielded, until a [yield] asks to stop (removal goes on, yielding does not). *)
Fixpoint delete_spec {S : Type} (shouldRemove : S → T → S * bool) (yield : S → T → S * bool)
    (xs : list T) (stop : bool) (s : S) : list T * S :=
  match xs with
  | [] => ([], s)
  | x :: xs =>
      let '(s, remove) := shouldRemove s x in
      if negb remove then
        let '(ks, s) := delete_spec shouldRemove yield xs stop s in (x :: ks, s)
      else
        let '(s, stop) := if stop then (s, true)
                          else let '(s, continue) := yield s x in (s, negb continue) in
        delete_spec shouldRemove yield xs stop s
  end.

(** The callback state after an iterator yielded [xs]. *)
Fixpoint yield_spec {S : Type} (yield : S → T → S * bool) (xs : list T) (stop : bool) (s : S) : S :=
  match xs with
  | [] => s
  | x :: xs =>
      let '(s, stop) := if stop then (s, true)
                        else let '(s, continue) := yield s x in (s, negb continue) in
      yield_spec yield xs stop s
  end.

(** ** Rotations *)

Lemma length_rotation data h : h ≤ length data → length (rotation data h) = length data.
Proof. intros. unfold rotation. autorewrite with gomodel. lia. Qed.

Lemma rotation_lookup data h i :
  h < length data → i < length data →
  rotation data h !! i = data !! ((h + i) mod length data).
Proof.
  intros Hh Hi. unfold rotation.
  destruct (decide (h + i < length data)) as [Hlt|Hge].
  - rewrite Nat.mod_small by lia.
    rewrite lookup_app_l by (autorewrite with gomodel; lia). by rewrite lookup_drop.
  - replace (h + i) with ((h + i - length data) + 1 * length data) by lia.
    rewrite Nat.Div0.mod_add, Nat.mod_small by lia.
    rewrite lookup_app_r by (autorewrite with gomodel; lia).
    autorewrite with gomodel. rewrite lookup_take_lt by lia. f_equal. lia.
Qed.

Lemma ring_index_inj c h i j :
  i < c → j < c → (h + i) mod c = (h + j) mod c → i = j.
Proof.
  intros Hi Hj Heq.
  pose proof (Nat.div_mod_eq (h + i) c) as Ei. pose proof (Nat.div_mod_eq (h + j) c) as Ej.
  rewrite Heq in Ei. revert Ei Ej.
  generalize ((h + i) / c) as a, ((h + j) / c) as b, ((h + j) mod c) as r. intros a b r Ei Ej.
  destruct (Nat.lt_trichotomy a b) as [?|[->|?]]; [|lia|]; exfalso.
  - assert (c * (a + 1) ≤ c * b) by (apply Nat.mul_le_mono_l; lia). lia.
  - assert (c * (b + 1) ≤ c * a) by (apply Nat.mul_le_mono_l; lia). lia.
Qed.

Lemma rotation_insert data h i v :
  h < length data → i < length data →
  rotation (<[(h + i) mod length data := v]> data) h = <[i := v]> (rotation data h).
Proof.
  intros Hh Hi. apply list_eq. intros j.
  destruct (decide (j < length data)) as [Hj|Hj].
  - rewrite rotation_lookup by (autorewrite with gomodel; lia). autorewrite with gomodel.
    assert ((h + i) mod length data < length data) by (apply Nat.mod_upper_bound; lia).
    destruct (decide (i = j)) as [->|Hij].
    + rewrite !list_lookup_insert_eq; [done | rewrite length_rotation; lia | lia].
    + rewrite !list_lookup_insert_ne; [by rewrite rotation_lookup | done |].
      contradict Hij. by eapply ring_index_inj.
  - rewrite !lookup_ge_None_2; [done | |];
      rewrite ?length_insert, length_rotation; rewrite ?length_insert; lia.
Qed.

Lemma Queue_next_mod q h i :
  h < Cap q → Queue_next q ((h + i) mod Cap q) = (h + Datatypes.S i) mod Cap q.
Proof.
  unfold Queue_next, Cap. intros Hh. set (c := length (q_data q)) in *.
  pose proof (Nat.mod_upper_bound (h + i) c) as Hb.
  replace (h + Datatypes.S i) with (h + i + 1) by lia.
  rewrite <- (Nat.Div0.add_mod_idemp_l (h + i) 1), Nat.add_1_r.
  case_match eqn:E.
  - apply Nat.leb_le in E. replace (Datatypes.S ((h + i) mod c)) with c by lia.
    by rewrite Nat.Div0.mod_same.
  - apply Nat.leb_gt in E. symmetry. apply Nat.mod_small. lia.
Qed.

Lemma rotation_next q data h x r :
  length data = Cap q → h < Cap q → rotation data h = x :: r →
  rotation data (Queue_next q h) = r ++ [x].
Proof.
  unfold rotation, Queue_next, Cap. intros Hl Hh Hr. rewrite <- Hl in *.
  destruct (lookup_lt_is_Some_2 data h Hh) as [y Hy].
  rewrite (drop_S _ y) in Hr by done. simplify_eq/=.
  case_match eqn:E; apply Nat.leb_le in E || apply Nat.leb_gt in E.
  - rewrite drop_0, take_0, app_nil_r, (drop_ge data (Datatypes.S h)) by lia. simpl.
    rewrite <- (take_S_r _ _ x) by done. rewrite take_ge by lia. done.
  - rewrite (take_S_r _ _ x) by done. by rewrite app_assoc.
Qed.

Lemma rotation_zero data h n :
  rotation data h = replicate n zero → data = replicate (length data) zero.
Proof.
  intros H. symmetry. apply replicate_as_Forall. split; [done|].
  rewrite <- (take_drop h data). symmetry in H. apply replicate_as_Forall in H as [_ H].
  unfold rotation in H. apply Forall_app in H. apply Forall_app. tauto.
Qed.

(** Writing a ring slot is writing the rotated list. *)
Lemma set_index_ring data h i v :
  h < length data → i < length data →
  ∃ data', set_index data ((h + i) mod length data) v = Some data' ∧
    length data' = length data ∧ rotation data' h = <[i := v]> (rotation data h).
Proof.
  intros Hh Hi. eexists. split; [apply set_index_Some, Nat.mod_upper_bound; lia|].
  split; [by autorewrite with gomodel | by apply rotation_insert].
Qed.

(** ** The representation relation *)

Lemma New_rep capacity : queue_rep (New capacity) [].
Proof.
  split; simpl.
  - unfold Cap; simpl. autorewrite with gomodel. lia.
  - unfold Cap; simpl. autorewrite with gomodel. by rewrite Nat.Div0.mod_0_l.
  - done.
  - unfold rotation, Cap; simpl. autorewrite with gomodel.
    by rewrite drop_0, take_0, app_nil_r, Nat.sub_0_r.
Qed.

Lemma rep_length q xs : queue_rep q xs → length xs ≤ Cap q.
Proof.
  intros [Hh _ _ Hd]. apply (f_equal length) in Hd.
  rewrite length_rotation in Hd by (unfold Cap in *; lia).
  autorewrite with gomodel in Hd. unfold Cap in *. lia.
Qed.

Lemma queue_rep_inj q xs ys : queue_rep q xs → queue_rep q ys → xs = ys.
Proof.
  intros [_ _ Hn1 Hd1] [_ _ Hn2 Hd2]. rewrite Hd1 in Hd2. by apply app_inj_1 in Hd2 as [? _]; [|lia].
Qed.

(** The slot of the [i]-th element, and the slots behind the last one. *)
Lemma rep_lookup q xs i x :
  queue_rep q xs → xs !! i = Some x → q_data q !! ((q_head q + i) mod Cap q) = Some x.
Proof.
  intros Hr Hi. pose proof (rep_length _ _ Hr) as Hl. destruct Hr as [Hh _ _ Hd].
  apply lookup_lt_Some in Hi as Hlt.
  unfold Cap in *. rewrite <- rotation_lookup by lia. rewrite Hd. by apply lookup_app_l_Some.
Qed.

Lemma Push_rep q xs v :
  queue_rep q xs →
  (length xs = Cap q ∧ Push q v = Some (q, false)) ∨
  (length xs < Cap q ∧ ∃ q', Push q v = Some (q', true) ∧ queue_rep q' (xs ++ [v]) ∧ Cap q' = Cap q).
Proof.
  intros Hr. pose proof (rep_length _ _ Hr) as Hl. destruct Hr as [Hh Ht Hn Hd].
  unfold Push, IsFull. rewrite Hn. fold (Cap q).
  destruct (Nat.eqb_spec (length xs) (Cap q)) as [E|E]; [by left|]. right. split; [lia|].
  unfold Cap in *.
  destruct (set_index_ring (q_data q) (q_head q) (length xs) v)
    as (data' & Hs & Hlen & Hrot); [lia..|].
  rewrite Ht, Hs; simpl. eexists. split; [done|]. split; [split; unfold Cap; simpl|].
  - rewrite Hlen. lia.
  - autorewrite with gomodel; simpl.
    rewrite Hlen, Nat.add_1_r. apply (Queue_next_mod q). unfold Cap; lia.
  - autorewrite with gomodel; simpl; lia.
  - rewrite Hrot, Hd. autorewrite with gomodel; simpl. rewrite Hlen.
    replace (length (q_data q) - length xs)
      with (Datatypes.S (length (q_data q) - (length xs + 1))) by lia.
    simpl. rewrite <- (Nat.add_0_r (length xs)) at 1. rewrite insert_app_r. simpl.
    by rewrite <- app_assoc.
  - simpl. done.
Qed.

Lemma Pull_rep q xs :
  queue_rep q xs →
  (xs = [] ∧ Pull q = Some (q, (zero, false))) ∨
  (∃ x xs' q', xs = x :: xs' ∧ Pull q = Some (q', (x, true)) ∧ queue_rep q' xs' ∧ Cap q' = Cap q).
Proof.
  intros Hr. pose proof (rep_length _ _ Hr) as Hl. unfold Pull, IsEmpty.
  destruct xs as [|x xs]; [left; destruct Hr as [_ _ -> _]; by simpl|].
  right. exists x, xs.
  pose proof (rep_lookup _ _ 0 x Hr eq_refl) as Hx. destruct Hr as [Hh Ht Hn Hd].
  simpl in Hl. assert (q_head q < Cap q) as Hlt by lia.
  rewrite Nat.add_0_r, Nat.mod_small in Hx by done. unfold Cap in *.
  rewrite Hn; cbn [length Nat.eqb]. rewrite Hx. cbn [mbind option_bind].
  rewrite set_index_Some by done. cbn [mbind option_bind].
  pose proof (rotation_insert (q_data q) (q_head q) 0 zero Hlt ltac:(lia)) as Hrot.
  rewrite Nat.add_0_r, Nat.mod_small, Hd in Hrot by done. simpl in Hrot.
  apply (rotation_next q) in Hrot; [|unfold Cap; by autorewrite with gomodel|done].
  eexists. split_and!; [done..| |unfold Cap; simpl; by autorewrite with gomodel].
  pose proof (Queue_next_mod q (q_head q) 0 Hlt) as Hnx. unfold Cap in Hnx.
  rewrite Nat.add_0_r, Nat.mod_small in Hnx by done.
  split; unfold Cap; simpl; autorewrite with gomodel.
  - rewrite Hnx. left. apply Nat.mod_upper_bound. lia.
  - rewrite Ht, Hnx. cbn [length]. rewrite Nat.Div0.add_mod_idemp_l. f_equal; lia.
  - lia.
  - rewrite Hrot, <- app_assoc. f_equal.
    replace (length (q_data q) - length xs)
      with (Datatypes.S (length (q_data q) - Datatypes.S (length xs))) by lia.
    by rewrite replicate_S_end.
Qed.

(** ** The loops of [DeleteFunc] and [Clear] *)

Lemma insert_gap ks g x R :
  0 < g → <[length ks + g := zero]> (<[length ks := x]> (ks ++ replicate g zero ++ x :: R)) =
  ks ++ x :: replicate g zero ++ R.
Proof.
  intros Hg. destruct g as [|g]; [lia|]. simpl.
  rewrite <- (Nat.add_0_r (length ks)) at 2. rewrite !insert_app_r. simpl. f_equal. f_equal.
  rewrite <- (length_replicate g zero) at 1. rewrite <- (Nat.add_0_r (length _)), insert_app_r. simpl.
  change (zero :: replicate g zero ++ R) with ((zero :: replicate g zero) ++ R).
  change (zero :: replicate g zero) with (replicate (Datatypes.S g) zero).
  by rewrite replicate_S_end, <- app_assoc.
Qed.

Lemma insert_zero_gap ks g x R :
  <[length ks + g := zero]> (ks ++ replicate g zero ++ x :: R) =
  ks ++ replicate (Datatypes.S g) zero ++ R.
Proof.
  rewrite insert_app_r. f_equal. rewrite <- (length_replicate g zero) at 1.
  rewrite <- (Nat.add_0_r (length _)), insert_app_r. simpl.
  change (zero :: replicate g zero ++ R) with (replicate (Datatypes.S g) zero ++ R).
  by rewrite replicate_S_end, <- app_assoc.
Qed.

(** Loop invariant of [DeleteFunc]: after some iterations the ring, read from
    the head, is the kept elements, a gap of zeroes, the elements still to
    visit and the zeroes behind them. *)
Record delete_inv {S : Type} (q : Queue) (ks xs : list T) (g : nat) (l : dloop S) : Prop := {
  di_len : length (d_data l) = Cap q;
  di_rot : ∃ z, rotation (d_data l) (q_head q) = ks ++ replicate g zero ++ xs ++ replicate z zero;
  di_newTail : d_newTail l = (q_head q + length ks) mod Cap q;
  di_current : d_current l = (q_head q + (length ks + g)) mod Cap q;
  di_newLen : d_newLen l = length ks;
}.

Lemma delete_inv_lookup {S : Type} q ks x xs g (l : dloop S) :
  q_head q < Cap q → delete_inv q ks (x :: xs) g l →
  d_data l !! d_current l = Some x ∧ length ks + g < Cap q.
Proof.
  intros Hh [Hl [z Hr] _ Hc _].
  assert (length ks + g < Cap q) as Hb.
  { apply (f_equal length) in Hr. rewrite length_rotation in Hr by lia.
    autorewrite with gomodel in Hr. simpl in Hr. autorewrite with gomodel in Hr. lia. }
  split; [|done]. rewrite Hc, <- Hl, <- rotation_lookup by lia. rewrite Hr.
  rewrite lookup_app_r by lia. rewrite lookup_app_r by (autorewrite with gomodel; lia).
  autorewrite with gomodel. by replace (length ks + g - length ks - g) with 0 by lia.
Qed.

(** Moving a kept element into the gap. *)
Lemma DeleteFunc_move_rep data h ks g x R :
  h < length data → length ks + g < length data →
  rotation data h = ks ++ replicate g zero ++ x :: R →
  ∃ data', DeleteFunc_move data ((h + (length ks + g)) mod length data)
             ((h + length ks) mod length data) x = Some data' ∧
    length data' = length data ∧ rotation data' h = (ks ++ [x]) ++ replicate g zero ++ R.
Proof.
  intros Hh Hb Hr. unfold DeleteFunc_move. rewrite <- app_assoc; simpl.
  destruct (decide (g = 0)) as [->|Hg].
  - rewrite Nat.add_0_r, decide_False by naive_solver. eexists. split_and!; [done..|].
    rewrite Hr. by simpl.
  - rewrite decide_True.
    2:{ intros E. apply ring_index_inj in E; lia. }
    destruct (set_index_ring data h (length ks) x) as (d1 & Hs1 & Hl1 & Hr1); [lia..|].
    rewrite Hs1; cbn [mbind option_bind]. rewrite <- Hl1.
    destruct (set_index_ring d1 h (length ks + g) zero) as (d2 & Hs2 & Hl2 & Hr2); [lia..|].
    rewrite Hs2. eexists. split_and!; [done|lia|].
    rewrite Hr2, Hr1, Hr. by apply insert_gap; lia.
Qed.

Lemma DeleteFunc_body_rep {S : Type} q shouldRemove yield ks x xs g (l : dloop S) :
  q_head q < Cap q → delete_inv q ks (x :: xs) g l →
  let '(s, remove) := shouldRemove (d_state l) x in
  let '(s', stop) := if d_stop l then (s, true)
                     else let '(s', continue) := yield s x in (s', negb continue) in
  ∃ l', DeleteFunc_body q shouldRemove yield l = Some l' ∧
    if negb remove then delete_inv q (ks ++ [x]) xs g l' ∧ d_stop l' = d_stop l ∧ d_state l' = s
    else delete_inv q ks xs (Datatypes.S g) l' ∧ d_stop l' = stop ∧ d_state l' = s'.
Proof.
  intros Hh Hi. destruct (delete_inv_lookup _ _ _ _ _ _ Hh Hi) as [Hx Hb].
  destruct Hi as [Hl [z Hr] Ht Hc Hn]. unfold DeleteFunc_body. rewrite Hx; cbn [mbind option_bind].
  destruct (shouldRemove (d_state l) x) as [s remove].
  destruct (if d_stop l then _ else _) as [s' stop] eqn:Es.
  rewrite Hc, <- Hl in *. destruct remove; cbn [negb].
  - destruct (set_index_ring (d_data l) (q_head q) (length ks + g) zero)
      as (data' & Hs & Hlen & Hrot); [lia..|].
    rewrite Hs; cbn [mbind option_bind]. eexists. split; [done|].
    split; [|done]. split; simpl.
    + by rewrite Hlen.
    + exists z. rewrite Hrot, Hr. apply insert_zero_gap.
    + by rewrite Ht, Hl.
    + rewrite Hl, (Queue_next_mod q) by lia. f_equal; lia.
    + done.
  - destruct (DeleteFunc_move_rep (d_data l) (q_head q) ks g x (xs ++ replicate z zero))
      as (data' & Hm & Hlen & Hrot); [lia..|done|].
    rewrite Ht, Hm.
    cbn [mbind option_bind]. eexists. split; [done|]. split; [|done]. split; simpl.
    + lia.
    + by exists z.
    + rewrite Hl, (Queue_next_mod q) by lia. f_equal. autorewrite with gomodel; simpl; lia.
    + rewrite Hl, (Queue_next_mod q) by lia. f_equal. autorewrite with gomodel; simpl; lia.
    + autorewrite with gomodel; simpl; lia.
Qed.

Lemma DeleteFunc_loop_rep {S : Type} q shouldRemove yield xs ks g (l : dloop S) kept s' :
  q_head q < Cap q → delete_inv q ks xs g l →
  delete_spec shouldRemove yield xs (d_stop l) (d_state l) = (kept, s') →
  ∃ l' g', DeleteFunc_loop q shouldRemove yield (length xs) l = Some l' ∧
    delete_inv q (ks ++ kept) [] g' l' ∧ d_state l' = s'.
Proof.
  intros Hh. revert ks g l kept. induction xs as [|x xs IH]; intros ks g l kept Hi; simpl.
  { intros [= <- <-]. exists l, g. by rewrite app_nil_r. }
  pose proof (DeleteFunc_body_rep _ shouldRemove yield _ _ _ _ _ Hh Hi) as Hb.
  destruct (shouldRemove (d_state l) x) as [s remove].
  destruct (if d_stop l then _ else _) as [s1 stop].
  destruct Hb as (l1 & -> & Hb). cbn [mbind option_bind].
  destruct remove; simpl in *; destruct Hb as (Hi1 & Hstop & Hst); rewrite <- Hstop, <- Hst.
  - intros Hspec. by eapply IH.
  - destruct (delete_spec _ _ xs _ _) as [ks' s2] eqn:Hspec. intros [= <- ->].
    destruct (IH _ _ _ _ Hi1 Hspec) as (l' & g' & Hl & Hi' & Hs). exists l', g'.
    by rewrite <- app_assoc in Hi'.
Qed.

Lemma DeleteFunc_rep {S : Type} q xs shouldRemove yield (s : S) kept s' :
  queue_rep q xs → delete_spec shouldRemove yield xs false s = (kept, s') →
  ∃ q', DeleteFunc q shouldRemove yield s = Some (q', s') ∧ queue_rep q' kept ∧ Cap q' = Cap q.
Proof.
  intros Hr Hspec. pose proof (rep_length _ _ Hr) as Hl. unfold DeleteFunc, IsEmpty.
  destruct xs as [|x xs].
  { simplify_eq/=. exists q. by rewrite (qr_len _ _ Hr). }
  rewrite (qr_len _ _ Hr). cbn [length Nat.eqb]. simpl in Hl.
  destruct Hr as [Hh Ht Hn Hd]. assert (q_head q < Cap q) as Hlt by lia.
  destruct (DeleteFunc_loop_rep q shouldRemove yield (x :: xs) [] 0
    (mkDloop (q_data q) (q_head q) (q_head q) false 0 s) kept s')
    as (l' & g' & Hrun & [Hlen [z Hrot] Htail _ Hnl] & Hs); [done| |done|].
  { split; simpl; rewrite ?Nat.add_0_r, ?Nat.mod_small by done; try done. by eexists. }
  change (Datatypes.S (length xs)) with (length (x :: xs)). rewrite Hrun; simpl.
  exists (mkQueue (d_data l') (q_head q) (d_newTail l') (d_newLen l')).
  rewrite Hs. split_and!; [done| |done].
  simpl in Hrot, Htail, Hnl. split; unfold Cap in *; simpl; rewrite ?Hlen; try done.
  rewrite Hrot. f_equal. rewrite <- replicate_add. f_equal.
  apply (f_equal length) in Hrot. rewrite length_rotation in Hrot by lia.
  autorewrite with gomodel in Hrot. lia.
Qed.

Lemma Clear_loop_rep {S : Type} q yield xs g (l : dloop S) :
  q_head q < Cap q → delete_inv q [] xs g l →
  ∃ l' g', Clear_loop q yield (length xs) l = Some l' ∧ delete_inv q [] [] g' l' ∧
    d_state l' = yield_spec yield xs (d_stop l) (d_state l).
Proof.
  intros Hh. revert g l. induction xs as [|x xs IH]; intros g l Hi; simpl; [by exists l, g|].
  pose proof (DeleteFunc_body_rep q (fun s _ => (s, true)) yield _ _ _ _ _ Hh Hi) as Hb.
  cbn beta iota zeta in Hb. destruct (if d_stop l then _ else _) as [s1 stop] eqn:E. destruct Hb as (l1 & Hb & Hi1 & Hstop & Hst).
  assert (Clear_body q yield l = Some l1) as ->.
  { rewrite <- Hb. unfold Clear_body, DeleteFunc_body. by destruct (d_data l !! d_current l). }
  cbn [mbind option_bind]. rewrite <- Hstop, <- Hst. by eapply IH.
Qed.

Lemma Clear_rep {S : Type} q xs yield (s : S) :
  queue_rep q xs →
  ∃ q', Clear q yield s = Some (q', yield_spec yield xs false s) ∧ queue_rep q' [] ∧ Cap q' = Cap q.
Proof.
  intros Hr. pose proof (rep_length _ _ Hr) as Hl. unfold Clear, IsEmpty.
  destruct xs as [|x xs]; [exists q; by rewrite (qr_len _ _ Hr)|].
  rewrite (qr_len _ _ Hr). cbn [length Nat.eqb]. simpl in Hl.
  destruct Hr as [Hh Ht Hn Hd]. assert (q_head q < Cap q) as Hlt by lia.
  destruct (Clear_loop_rep q yield (x :: xs) 0
    (mkDloop (q_data q) (q_head q) (q_head q) false 0 s)) as (l' & g' & Hrun & Hi & Hs); [done| |].
  { split; simpl; rewrite ?Nat.add_0_r, ?Nat.mod_small by done; try done. by eexists. }
  change (Datatypes.S (length xs)) with (length (x :: xs)).
  rewrite Hrun; simpl. rewrite Hs. exists (mkQueue (d_data l') 0 0 0). split_and!; [done| |apply Hi].
  destruct Hi as [Hlen [z Hrot] _ _ _]. simpl in Hrot. rewrite <- replicate_add in Hrot.
  apply rotation_zero in Hrot. rewrite Hrot, Hlen. apply New_rep.
Qed.

(** ** [all] *)

(** The callback state after [all] yielded [xs], whose first element has index [idx]. *)
Fixpoint all_spec {S : Type} (yield : S → nat → T → S * bool) (xs : list T) (idx : nat) (s : S) : S :=
  match xs with
  | [] => s
  | x :: xs => let '(s, continue) := yield s idx x in
               if continue then all_spec yield xs (Datatypes.S idx) s else s
  end.

Lemma all_loop_rep {S : Type} q xs yield ys i (s : S) :
  queue_rep q xs → drop i xs = ys →
  all_loop q yield (length ys) i ((q_head q + i) mod Cap q) s = Some (all_spec yield ys i s).
Proof.
  intros Hr. revert i s. induction ys as [|y ys IH]; intros i s Hi; simpl; [done|].
  assert (xs !! i = Some y) as Hy by (rewrite <- (Nat.add_0_r i), <- lookup_drop, Hi; done).
  rewrite (rep_lookup _ _ _ _ Hr Hy); cbn [mbind option_bind].
  destruct (yield s i y) as [s' []]; [|done].
  rewrite Queue_next_mod.
  - apply IH. rewrite (drop_S _ y) in Hi by done. by simplify_eq.
  - apply lookup_lt_Some in Hy. pose proof (rep_length _ _ Hr). destruct (qr_head _ _ Hr); lia.
Qed.

Lemma all_rep {S : Type} q xs yield (s : S) :
  queue_rep q xs → all q yield s = Some (all_spec yield xs 0 s).
Proof.
  intros Hr. unfold all, IsEmpty. rewrite (qr_len _ _ Hr).
  destruct xs as [|x xs]; [done|]. cbn [length Nat.eqb].
  rewrite <- (all_loop_rep q _ yield (x :: xs) 0 s Hr eq_refl). f_equal.
  rewrite Nat.add_0_r. symmetry. apply Nat.mod_small.
  pose proof (rep_length _ _ Hr). simpl in *. destruct (qr_head _ _ Hr); lia.
Qed.

(** ** Traces of operations

    A client's view: a sequence of method calls and what each returned.  A
    client of [DeleteFunc] and [Clear] ranges over the iterator and breaks
    after it saw [S k] elements; a client of [all] collects every element. *)

Inductive qop :=
| OPush (v : T)
| OPull
| ODeleteFunc (p : T → bool) (k : nat)
| OClear (k : nat)
| OAll.

Inductive qout :=
| RPush (ok : bool)
| RPull (v : T) (ok : bool)
| RSeq (vs : list T).

Definition collect (k : nat) (acc : list T) (v : T) : list T * bool := (acc ++ [v], length acc <? k).
Definition pure_pred {S : Type} (p : T → bool) (s : S) (v : T) : S * bool := (s, p v).
Definition collect_all (acc : list T) (idx : nat) (v : T) : list T * bool := (acc ++ [v], true).

Definition queue_step (q : Queue) (op : qop) : option (Queue * qout) :=
  match op with
  | OPush v => '(q, ok) ← Push q v; Some (q, RPush ok)
  | OPull => '(q, (v, ok)) ← Pull q; Some (q, RPull v ok)
  | ODeleteFunc p k => '(q, vs) ← DeleteFunc q (pure_pred p) (collect k) []; Some (q, RSeq vs)
  | OClear k => '(q, vs) ← Clear q (collect k) []; Some (q, RSeq vs)
  | OAll => vs ← all q collect_all []; Some (q, RSeq vs)
  end.

Fixpoint queue_run (q : Queue) (ops : list qop) : option (Queue * list qout) :=
  match ops with
  | [] => Some (q, [])
  | op :: ops =>
      '(q, r) ← queue_step q op;
      '(q, rs) ← queue_run q ops;
      Some (q, r :: rs)
  end.

(** The specification: a FIFO list that rejects pushes beyond its capacity. *)
Definition fifo_step (capacity : nat) (xs : list T) (op : qop) : list T * qout :=
  match op with
  | OPush v => if length xs =? capacity then (xs, RPush false) else (xs ++ [v], RPush true)
  | OPull => match xs with [] => ([], RPull zero false) | x :: xs => (xs, RPull x true) end
  | ODeleteFunc p k => (List.filter (fun x => negb (p x)) xs, RSeq (take (S k) (List.filter p xs)))
  | OClear k => ([], RSeq (take (S k) xs))
  | OAll => (xs, RSeq xs)
  end.

Fixpoint fifo_run (capacity : nat) (xs : list T) (ops : list qop) : list T * list qout :=
  match ops with
  | [] => (xs, [])
  | op :: ops =>
      let '(xs, r) := fifo_step capacity xs op in
      let '(xs, rs) := fifo_run capacity xs ops in
      (xs, r :: rs)
  end.

Lemma yield_spec_stop {S : Type} (yield : S → T → S * bool) xs s : yield_spec yield xs true s = s.
Proof. induction xs; simpl; auto. Qed.

Lemma yield_spec_collect k xs acc :
  length acc ≤ k → yield_spec (collect k) xs false acc = acc ++ take (S (k - length acc)) xs.
Proof.
  revert acc. induction xs as [|x xs IH]; intros acc Hk; simpl; [by rewrite app_nil_r|].
  destruct (Nat.ltb_spec (length acc) k) as [Hlt|Hge]; simpl.
  - rewrite IH by (autorewrite with gomodel; simpl; lia). autorewrite with gomodel; simpl.
    rewrite <- app_assoc; simpl. by replace (k - length acc) with (S (k - (length acc + 1))) by lia.
  - rewrite yield_spec_stop. replace (k - length acc) with 0 by lia. by rewrite take_0.
Qed.

Lemma delete_spec_pure {S : Type} p (yield : S → T → S * bool) xs stop s :
  delete_spec (pure_pred p) yield xs stop s =
  (List.filter (fun x => negb (p x)) xs, yield_spec yield (List.filter p xs) stop s).
Proof.
  revert stop s. induction xs as [|x xs IH]; intros stop s; simpl; [done|].
  destruct (p x); simpl.
  - destruct (if stop then _ else _). apply IH.
  - by rewrite IH.
Qed.

Lemma all_spec_collect xs idx acc : all_spec collect_all xs idx acc = acc ++ xs.
Proof.
  revert idx acc. induction xs as [|x xs IH]; intros idx acc; simpl; [by rewrite app_nil_r|].
  by rewrite IH, <- app_assoc.
Qed.

Lemma queue_step_fifo q xs op :
  queue_rep q xs →
  let '(xs', r) := fifo_step (Cap q) xs op in
  ∃ q', queue_step q op = Some (q', r) ∧ queue_rep q' xs' ∧ Cap q' = Cap q.
Proof.
  intros Hr. destruct op as [v| |p k|k|]; simpl.
  - destruct (Push_rep q xs v Hr) as [[-> ->]|(Hl & q' & -> & Hr' & Hc)].
    + rewrite Nat.eqb_refl. eauto.
    + destruct (Nat.eqb_spec (length xs) (Cap q)); [lia|]. eauto.
  - destruct (Pull_rep q xs Hr) as [[-> ->]|(x & xs' & q' & -> & -> & Hr' & Hc)]; eauto.
  - destruct (DeleteFunc_rep q xs (pure_pred p) (collect k) [] _ _ Hr (delete_spec_pure _ _ _ _ _))
      as (q' & -> & Hr' & Hc).
    exists q'. rewrite yield_spec_collect by (simpl; lia). rewrite Nat.sub_0_r. eauto.
  - destruct (Clear_rep q xs (collect k) [] Hr) as (q' & -> & Hr' & Hc).
    exists q'. rewrite yield_spec_collect by (simpl; lia). rewrite Nat.sub_0_r. eauto.
  - rewrite (all_rep q xs collect_all [] Hr), all_spec_collect. eauto.
Qed.

Lemma queue_run_fifo q xs ops :
  queue_rep q xs →
  let '(xs', rs) := fifo_run (Cap q) xs ops in
  ∃ q', queue_run q ops = Some (q', rs) ∧ queue_rep q' xs'.
Proof.
  revert q xs. induction ops as [|op ops IH]; intros q xs Hr; simpl; [eauto|].
  pose proof (queue_step_fifo q xs op Hr) as Hs.
  destruct (fifo_step (Cap q) xs op) as [xs1 r]. destruct Hs as (q1 & -> & Hr1 & Hc).
  specialize (IH q1 xs1 Hr1). rewrite Hc in IH.
  destruct (fifo_run (Cap q) xs1 ops) as [xs2 rs]. destruct IH as (q2 & Hrun & Hr2).
  exists q2. simpl. by rewrite Hrun.
Qed.

(** C27: the circular queue refines a bounded FIFO list.  From [New capacity],
    any sequence of [Push], [Pull], [DeleteFunc], [Clear] and [all] runs
    without an index-out-of-range panic, returns exactly what the FIFO list of
    that capacity returns, and ends in a ring that represents the list, with
    the zero value in every slot outside the live window. *)
Theorem queue_refines_fifo (capacity : nat) (ops : list qop) :
  ∃ q, queue_run (New capacity) ops = Some (q, snd (fifo_run capacity [] ops)) ∧
       queue_rep q (fst (fifo_run capacity [] ops)).
Proof.
  pose proof (queue_run_fifo (New capacity) [] ops (New_rep capacity)) as H.
  unfold Cap in H; simpl in H. rewrite length_replicate in H.
  by destruct (fifo_run capacity [] ops).
Qed.

End Queue.

Arguments mkQueue {T}.
Arguments q_data {T}.
Arguments q_head {T}.
Arguments q_tail {T}.
Arguments q_len {T}.
