(* ===== verification/ConnPool.v ===== *)
(** * The idle-connection pool ([conn_pool.go])

    [connPool] is the struct without its goroutine plumbing: the circular
    queue of idle connections, the [finished] channel as a flag, and
    [maxConnLifetime].  A connection is a handle (its [connID]; the zero value
    of the interface type is the handle 0, which no connection has) into the
    store [w_conns] of the world, where the pool's operations change it
    ([close]).  The wall clock is part of the world: [w_clock] gives what the
    successive calls of [time.Now] return, and theorems hold for every clock.

    Every method runs under the pool's mutex, so that it is one transition;
    what [Put] does before it takes the lock reads only the connection its
    caller owns.  The rendezvous of [Close] with the draining goroutine, which
    is not one transition, is the step relation of Module [CloseRace]. *)

From S2P Require Import Prelude CircularQueue.

Record conn := mkConn {
  c_connectedAt : Z;
  c_closed : bool;
  c_released : bool;
  c_checkErr : bool;  (** what [connCheck] finds on the socket *)
  c_buffered : bool;  (** a write buffer is kept from the last query *)
}.

Record world := mkWorld {
  w_conns : gmap nat conn;
  w_clock : nat → Z;
  w_reads : nat;
}.

Definition conn_default : conn := mkConn 0 true true true false.

Definition get_conn (w : world) (c : nat) : conn := default conn_default (w_conns w !! c).

Definition set_conn (w : world) (c : nat) (k : conn) : world :=
  mkWorld (<[c := k]> (w_conns w)) (w_clock w) (w_reads w).

(** [time.Now()] *)
Definition Now (w : world) : Z * world :=
  (w_clock w (w_reads w), mkWorld (w_conns w) (w_clock w) (S (w_reads w))).

(** [connect.close]: the flag makes it idempotent; it drops the buffer. *)
Definition conn_close (w : world) (c : nat) : world :=
  let k := get_conn w c in
  if c_closed k then w
  else set_conn w c (mkConn (c_connectedAt k) true (c_released k) (c_checkErr k) false).

Inductive health_error := HealthClosed | HealthLifetime | HealthCheckFailed.

(** [connect.healthCheck] *)
Definition healthCheck (ConnMaxLifetime : Z) (w : world) (c : nat) : option health_error * world :=
  let k := get_conn w c in
  if c_closed k then (Some HealthClosed, w)
  else
    let '(now, w) := Now w in
    if (ConnMaxLifetime <=? now - c_connectedAt k)%Z then (Some HealthLifetime, w)
    else if c_checkErr k then (Some HealthCheckFailed, w)
    else (None, w).

Inductive pool_error := ErrConnectionClosed | errQueueEmpty | ErrContext.

Record connPool := mkPool {
  p_conns : Queue (T := nat);
  p_finished : bool;
  p_maxConnLifetime : Z;
}.

Definition newConnPool (lifetime : Z) (capacity : nat) : connPool :=
  mkPool (New 0 capacity) false lifetime.

Definition pool_Len (p : connPool) : nat := Len (p_conns p).
Definition pool_Cap (p : connPool) : nat := Cap (p_conns p).

Definition pool_closed (p : connPool) : bool := p_finished p.

Definition expires (p : connPool) (w : world) (c : nat) : Z :=
  (c_connectedAt (get_conn w c) + p_maxConnLifetime p)%Z.

Definition isExpired (p : connPool) (w : world) (c : nat) : world * bool :=
  let '(now, w) := Now w in (w, negb (now <? expires p w c)%Z).

Definition with_conns (p : connPool) (q : Queue) : connPool :=
  mkPool q (p_finished p) (p_maxConnLifetime p).

(** The loop of [Get].  [ctx i] says whether the context is cancelled at the
    [i]-th test; [fuel] bounds the iterations, one pull each. *)
Fixpoint Get_loop (fuel : nat) (p : connPool) (w : world) (ctx : nat → bool) (i : nat)
    : option (connPool * world * result pool_error nat) :=
  match fuel with
  | O => None
  | S fuel =>
      if ctx i then Some (p, w, Err ErrContext)
      else
        '(q, (c, ok)) ← Pull 0 (p_conns p);
        let p := with_conns p q in
        if negb ok then Some (p, w, Err errQueueEmpty)
        else
          let '(w, expired) := isExpired p w c in
          if negb expired then Some (p, w, Ok c)
          else Get_loop fuel p (conn_close w c) ctx (S i)
  end.

Definition Get (p : connPool) (w : world) (ctx : nat → bool)
    : option (connPool * world * result pool_error nat) :=
  if pool_closed p then Some (p, w, Err ErrConnectionClosed)
  else Get_loop (S (pool_Len p)) p w ctx 0.

Definition Put (ConnMaxLifetime : Z) (p : connPool) (w : world) (c : nat)
    : option (connPool * world) :=
  let '(w, expired) := isExpired p w c in
  if expired then Some (p, conn_close w c)
  else
    let '(err, w) := healthCheck ConnMaxLifetime w c in
    match err with
    | Some _ => Some (p, conn_close w c)
    | None =>
        if pool_closed p then Some (p, w)
        else
          '(q, pushed) ← Push (p_conns p) c;
          if negb pushed then Some (with_conns p q, conn_close w c)
          else Some (with_conns p q, w)
    end.

(** The body of the two [range] loops of [drainPool]. *)
Definition close_yield (w : world) (c : nat) : world * bool := (conn_close w c, true).

Definition drainPool (p : connPool) (w : world) : option (connPool * world) :=
  if pool_closed p then
    '(q, w) ← Clear 0 (p_conns p) close_yield w;
    Some (with_conns p q, w)
  else
    '(q, w) ← DeleteFunc 0 (p_conns p) (isExpired p) close_yield w;
    Some (with_conns p q, w).

(** [Close], with the rendezvous that closes [finished] as one step. *)
Definition pool_Close (p : connPool) (w : world) : option (connPool * world) :=
  if pool_closed p then Some (p, w)
  else drainPool (mkPool (p_conns p) true (p_maxConnLifetime p)) w.

(** ** The pool as a list of idle connections *)

Definition pool_rep (p : connPool) (xs : list nat) : Prop := queue_rep 0 (p_conns p) xs.

(** [p'] is [p] with other idle connections. *)
Definition same_pool (p p' : connPool) : Prop :=
  p_finished p' = p_finished p ∧ p_maxConnLifetime p' = p_maxConnLifetime p ∧ pool_Cap p' = pool_Cap p.

Definition mark_closed (k : conn) : conn :=
  if c_closed k then k else mkConn (c_connectedAt k) true (c_released k) (c_checkErr k) false.

(** The world changed only by closing the connections [cs]. *)
Record only_closed (cs : list nat) (w w' : world) : Prop := {
  oc_conns : ∀ d, w_conns w' !! d =
    if decide (d ∈ cs) then mark_closed <$> w_conns w !! d else w_conns w !! d;
  oc_clock : w_clock w' = w_clock w;
}.

(** [c] is expired when its age is tested with the [k]-th reading of the clock. *)
Definition expired_at (p : connPool) (w : world) (c k : nat) : bool :=
  negb (w_clock w k <? expires p w c)%Z.

Definition tick (w : world) : world := mkWorld (w_conns w) (w_clock w) (S (w_reads w)).

Lemma isExpired_eq p w c : isExpired p w c = (tick w, expired_at p w c (w_reads w)).
Proof. done. Qed.

Lemma mark_closed_idem k : mark_closed (mark_closed k) = mark_closed k.
Proof. unfold mark_closed. by destruct (c_closed k) eqn:E; simpl; rewrite ?E. Qed.

Lemma mark_closed_fields k :
  c_connectedAt (mark_closed k) = c_connectedAt k ∧ c_released (mark_closed k) = c_released k ∧
  c_closed (mark_closed k) = true.
Proof. unfold mark_closed. by destruct (c_closed k) eqn:E. Qed.

Lemma conn_close_lookup w c d :
  w_conns (conn_close w c) !! d =
    if decide (d = c) then mark_closed <$> w_conns w !! d else w_conns w !! d.
Proof.
  unfold conn_close, get_conn. destruct (w_conns w !! c) as [k|] eqn:E; simpl.
  - destruct (c_closed k) eqn:Ec; simpl; case_decide; subst; rewrite ?E; simpl; try done.
    + unfold mark_closed. by rewrite Ec.
    + rewrite lookup_insert_eq. unfold mark_closed. by rewrite Ec.
    + by rewrite lookup_insert_ne.
  - case_decide; [|done]. by subst; rewrite E.
Qed.

Lemma conn_close_reads w c : w_clock (conn_close w c) = w_clock w ∧ w_reads (conn_close w c) = w_reads w.
Proof. unfold conn_close. by destruct (c_closed _). Qed.

Lemma only_closed_nil w w' : w_conns w' = w_conns w → w_clock w' = w_clock w → only_closed [] w w'.
Proof. intros H1 H2. split; [|done]. intros d. by rewrite H1. Qed.

Lemma only_closed_refl w : only_closed [] w w.
Proof. by apply only_closed_nil. Qed.

Lemma only_closed_cons c cs w w' :
  only_closed cs (conn_close (tick w) c) w' → only_closed (c :: cs) w w'.
Proof.
  intros [H1 H2]. split; [intros d|].
  - rewrite H1, conn_close_lookup; simpl. clear H1 H2.
    rewrite (decide_ext (d ∈ c :: cs) (d = c ∨ d ∈ cs)) by (by rewrite elem_of_cons).
    destruct (decide (d = c)), (decide (d ∈ cs)), (decide (d = c ∨ d ∈ cs)); try tauto.
    all: destruct (w_conns w !! d); simpl; by rewrite ?mark_closed_idem.
  - rewrite H2. apply (proj1 (conn_close_reads (tick w) c)).
Qed.

(** Closing a connection does not change anyone's expiry. *)
Lemma expired_at_close p w c d k : expired_at p (conn_close (tick w) c) d k = expired_at p w d k.
Proof.
  unfold expired_at, expires, get_conn. rewrite (proj1 (conn_close_reads _ _)). simpl. do 3 f_equal.
  rewrite conn_close_lookup; simpl. case_decide; [|done].
  destruct (w_conns w !! d); [|done]. apply mark_closed_fields.
Qed.

Lemma w_reads_close w c : w_reads (conn_close (tick w) c) = S (w_reads w).
Proof. by rewrite (proj2 (conn_close_reads _ _)). Qed.

#[local] Hint Rewrite expired_at_close w_reads_close : gomodel.

(** What [Get] did: it visited [pre], found each expired and closed it, and
    stopped where [r] says. *)
Definition Get_post (p : connPool) (w : world) (ctx : nat → bool) (i : nat) (xs pre : list nat)
    (p' : connPool) (w' : world) (r : result pool_error nat) : Prop :=
  same_pool p p' ∧ only_closed pre w w' ∧
  (∀ j c, pre !! j = Some c → expired_at p w c (w_reads w + j) = true) ∧
  (∀ j, j < length pre → ctx (i + j) = false) ∧
  match r with
  | Ok c => ∃ post, xs = pre ++ c :: post ∧ pool_rep p' post ∧
              expired_at p w c (w_reads w + length pre) = false
  | Err errQueueEmpty => xs = pre ∧ pool_rep p' [] ∧ ctx (i + length pre) = false
  | Err ErrContext => ∃ post, xs = pre ++ post ∧ pool_rep p' post ∧ ctx (i + length pre) = true
  | Err ErrConnectionClosed => False
  end.

Lemma Get_post_cons p p1 w ctx i c xs pre p' w' r :
  same_pool p p1 → ctx i = false → expired_at p w c (w_reads w) = true →
  Get_post p1 (conn_close (tick w) c) ctx (S i) xs pre p' w' r →
  Get_post p w ctx i (c :: xs) (c :: pre) p' w' r.
Proof.
  intros (Hs1 & Hs2 & Hs3) Hc He ((Hp1 & Hp2 & Hp3) & Hw & Hpre & Hctx & Hr).
  assert (∀ d k, expired_at p1 (conn_close (tick w) c) d k = expired_at p w d k) as Hex.
  { intros d k. rewrite expired_at_close. unfold expired_at, expires. by rewrite Hs2. }
  split_and!.
  - unfold same_pool. by rewrite Hp1, Hp2, Hp3.
  - by apply only_closed_cons.
  - intros [|j] d Hd; simplify_eq/=; [by rewrite Nat.add_0_r|].
    specialize (Hpre j d Hd). rewrite Hex, w_reads_close in Hpre. by rewrite Nat.add_succ_r.
  - intros [|j] Hj; [by rewrite Nat.add_0_r|]. rewrite Nat.add_succ_r. apply (Hctx j). simpl in Hj; lia.
  - cbn [length]. rewrite !Nat.add_succ_r. destruct r as [d|[| |]].
    + destruct Hr as (post & -> & Hrep & Hd). exists post. split_and!; [done..|].
      by rewrite Hex, w_reads_close in Hd.
    + done.
    + destruct Hr as (-> & Hrep & Hd). done.
    + destruct Hr as (post & -> & Hrep & Hd). by exists post.
Qed.

Lemma Get_loop_rep xs fuel p w ctx i :
  pool_rep p xs → length xs < fuel →
  ∃ pre p' w' r, Get_loop fuel p w ctx i = Some (p', w', r) ∧ Get_post p w ctx i xs pre p' w' r.
Proof.
  revert xs p w i. induction fuel as [|fuel IH]; intros xs p w i Hp Hf; [lia|]. cbn [Get_loop].
  destruct (ctx i) eqn:Hc.
  { exists [], p, w, (Err ErrContext). split; [done|].
    refine (conj _ (conj _ (conj _ (conj _ _)))); [done|apply only_closed_refl|done|simpl; lia|].
    exists xs. by rewrite Nat.add_0_r. }
  destruct (Pull_rep 0 _ _ Hp) as [[-> ->]|(c & xs' & q' & -> & -> & Hq & Hcap)];
    cbn [mbind option_bind negb].
  { exists [], (with_conns p (p_conns p)), w, (Err errQueueEmpty). split; [done|].
    refine (conj _ (conj _ (conj _ (conj _ _)))); [done|apply only_closed_refl|done|simpl; lia|].
    by rewrite Nat.add_0_r. }
  set (p1 := with_conns p q'). assert (same_pool p p1) as Hsame by done. simpl in Hf.
  rewrite isExpired_eq. destruct (expired_at p1 w c (w_reads w)) eqn:He; cbn [negb].
  - destruct (IH xs' p1 (conn_close (tick w) c) (S i) Hq ltac:(lia)) as (pre & p' & w' & r & -> & Hpost).
    exists (c :: pre), p', w', r. split; [done|]. by eapply Get_post_cons.
  - exists [], p1, (tick w), (Ok c). split; [done|].
    refine (conj _ (conj _ (conj _ (conj _ _)))); [done|by apply only_closed_nil|done|simpl; lia|].
    exists xs'. by rewrite Nat.add_0_r.
Qed.

(** [Get] on an open pool always returns, never panics, and hands out the
    first idle connection (in FIFO order) that is not expired when its age is
    tested: the ones before it were expired when tested and are now closed,
    the ones behind it stay in the pool, and no other connection changes.  It
    reports an empty queue only when every idle connection was expired (all
    are closed), and a cancelled context only at a test that found it
    cancelled, keeping the connections not yet visited. *)
Theorem Get_first_unexpired (p : connPool) (w : world) (ctx : nat → bool) (xs : list nat)
    (Hrep : pool_rep p xs) (Hopen : pool_closed p = false) :
  ∃ pre p' w' r, Get p w ctx = Some (p', w', r) ∧ Get_post p w ctx 0 xs pre p' w' r.
Proof.
  unfold Get. rewrite Hopen. apply Get_loop_rep; [done|].
  unfold pool_Len, Len. rewrite (qr_len _ _ _ Hrep). lia.
Qed.

(** ** [Put], [drainPool] and [Close] on the list *)

(** What [Put] does with connection [c]: [Some true] returns it to the pool,
    [Some false] closes it, [None] drops it. *)
Definition Put_fate (ConnMaxLifetime : Z) (p : connPool) (w : world) (xs : list nat) (c : nat)
    : option bool :=
  let '(w, expired) := isExpired p w c in
  if expired then Some false
  else match fst (healthCheck ConnMaxLifetime w c) with
       | Some _ => Some false
       | None => if pool_closed p then None
                 else Some (negb (length xs =? pool_Cap p))
       end.

Lemma healthCheck_world life w c :
  ∃ w', snd (healthCheck life w c) = w' ∧ w_conns w' = w_conns w ∧ w_clock w' = w_clock w.
Proof.
  unfold healthCheck. destruct (c_closed _); simpl; [eauto|].
  destruct (_ <=? _)%Z; simpl; [eauto|]. destruct (c_checkErr _); simpl; eauto.
Qed.

Lemma only_closed_one c w w0 :
  w_conns w0 = w_conns w → w_clock w0 = w_clock w → only_closed [c] w (conn_close w0 c).
Proof.
  intros H1 H2. split; [|by rewrite (proj1 (conn_close_reads _ _))].
  intros d. rewrite conn_close_lookup, H1.
  by rewrite (decide_ext (d ∈ [c]) (d = c)) by apply list_elem_of_singleton.
Qed.

Lemma Put_rep life p w xs c :
  pool_rep p xs →
  ∃ p' w', Put life p w c = Some (p', w') ∧ same_pool p p' ∧
    match Put_fate life p w xs c with
    | Some true => pool_rep p' (xs ++ [c]) ∧ only_closed [] w w'
    | Some false => pool_rep p' xs ∧ only_closed [c] w w'
    | None => pool_rep p' xs ∧ only_closed [] w w' ∧ pool_closed p = true
    end.
Proof.
  intros Hp. unfold Put, Put_fate. rewrite isExpired_eq.
  destruct (expired_at p w c (w_reads w)).
  { exists p, (conn_close (tick w) c). do 3 (split; [done|]); by apply only_closed_one. }
  destruct (healthCheck_world life (tick w) c) as (w1 & Hw1 & Hc1 & Hk1).
  destruct (healthCheck life (tick w) c) as [err w1'] eqn:E. simpl in Hw1. subst w1'. cbn [fst].
  destruct err; [exists p, (conn_close w1 c); do 3 (split; [done|]); by apply only_closed_one|].
  destruct (pool_closed p) eqn:Hcl; [exists p, w1; do 3 (split; [done|]); split; [by apply only_closed_nil|done]|].
  destruct (Push_rep 0 _ _ c Hp) as [[Hl ->]|(Hl & q' & -> & Hq & Hcap)]; cbn [mbind option_bind negb].
  - unfold pool_Cap. rewrite Hl, Nat.eqb_refl; simpl.
    exists (with_conns p (p_conns p)), (conn_close w1 c).
    do 3 (split; [done|]). by apply only_closed_one.
  - unfold pool_Cap. destruct (Nat.eqb_spec (length xs) (Cap (p_conns p))); [lia|]; simpl.
    exists (with_conns p q'), w1. do 3 (split; [done|]); by apply only_closed_nil.
Qed.

Lemma only_closed_app cs1 cs2 w w1 w2 :
  only_closed cs1 w w1 → only_closed cs2 w1 w2 → only_closed (cs1 ++ cs2) w w2.
Proof.
  intros [H1 K1] [H2 K2]. split; [|congruence]. intros d. rewrite H2, H1. clear.
  rewrite (decide_ext (d ∈ cs1 ++ cs2) (d ∈ cs1 ∨ d ∈ cs2)) by apply elem_of_app.
  destruct (decide (d ∈ cs1)), (decide (d ∈ cs2)), (decide (d ∈ cs1 ∨ d ∈ cs2)); try tauto.
  all: destruct (w_conns w !! d); simpl; by rewrite ?mark_closed_idem.
Qed.

(** The idle connections a drain starting at clock reading [k] keeps, and those it closes. *)
Fixpoint drain_keep (p : connPool) (w : world) (xs : list nat) (k : nat) : list nat :=
  match xs with
  | [] => []
  | x :: xs => if expired_at p w x k then drain_keep p w xs (S k) else x :: drain_keep p w xs (S k)
  end.

Fixpoint drain_drop (p : connPool) (w : world) (xs : list nat) (k : nat) : list nat :=
  match xs with
  | [] => []
  | x :: xs => if expired_at p w x k then x :: drain_drop p w xs (S k) else drain_drop p w xs (S k)
  end.

Lemma drain_ext p w1 w2 xs k :
  (∀ c j, expired_at p w1 c j = expired_at p w2 c j) →
  drain_keep p w1 xs k = drain_keep p w2 xs k ∧ drain_drop p w1 xs k = drain_drop p w2 xs k.
Proof.
  intros H. revert k. induction xs as [|x xs IH]; intros k; simpl; [done|].
  rewrite H. destruct (IH (S k)) as [-> ->]. by destruct (expired_at p w2 x k).
Qed.

Lemma drain_delete_spec p xs w :
  ∃ w', delete_spec (isExpired p) close_yield xs false w = (drain_keep p w xs (w_reads w), w') ∧
    only_closed (drain_drop p w xs (w_reads w)) w w'.
Proof.
  revert w. induction xs as [|x xs IH]; intros w; cbn [delete_spec drain_keep drain_drop].
  { exists w. split; [done|apply only_closed_refl]. }
  rewrite isExpired_eq. destruct (expired_at p w x (w_reads w)) eqn:E; cbn [negb].
  - cbn [close_yield negb]. destruct (IH (conn_close (tick w) x)) as (w' & -> & Hw').
    rewrite w_reads_close in *.
    destruct (drain_ext p (conn_close (tick w) x) w xs (S (w_reads w))) as [-> Hd];
      [intros; apply expired_at_close|].
    rewrite Hd in Hw'. exists w'. split; [done|]. by apply only_closed_cons.
  - destruct (IH (tick w)) as (w' & Hspec & Hw').
    destruct (drain_ext p (tick w) w xs (S (w_reads w))) as [Hk Hd]; [done|].
    simpl in Hspec, Hw'. rewrite Hspec, Hk. exists w'. split; [done|]. rewrite Hd in Hw'.
    apply (only_closed_app [] _ w (tick w)); [by apply only_closed_nil|done].
Qed.

Lemma close_yield_spec xs w : only_closed xs w (yield_spec close_yield xs false w).
Proof.
  revert w. induction xs as [|x xs IH]; intros w; simpl; [apply only_closed_refl|].
  apply (only_closed_app [x] xs w (conn_close w x)); [by apply only_closed_one|apply IH].
Qed.

Lemma drainPool_open_rep p w xs :
  pool_rep p xs → pool_closed p = false →
  ∃ p' w', drainPool p w = Some (p', w') ∧ same_pool p p' ∧
    pool_rep p' (drain_keep p w xs (w_reads w)) ∧ only_closed (drain_drop p w xs (w_reads w)) w w'.
Proof.
  intros Hp Hc. unfold drainPool. rewrite Hc.
  destruct (drain_delete_spec p xs w) as (w' & Hspec & Hw').
  destruct (DeleteFunc_rep 0 _ _ _ _ _ _ _ Hp Hspec) as (q' & -> & Hq & Hcap). simpl.
  by exists (with_conns p q'), w'.
Qed.

Lemma drainPool_closed_rep p w xs :
  pool_rep p xs → pool_closed p = true →
  ∃ p' w', drainPool p w = Some (p', w') ∧ same_pool p p' ∧ pool_rep p' [] ∧ only_closed xs w w'.
Proof.
  intros Hp Hc. unfold drainPool. rewrite Hc.
  destruct (Clear_rep 0 _ _ close_yield w Hp) as (q' & -> & Hq & Hcap). simpl.
  exists (with_conns p q'), (yield_spec close_yield xs false w).
  do 3 (split; [done|]). apply close_yield_spec.
Qed.

Lemma pool_Close_rep p w xs :
  pool_rep p xs → pool_closed p = false →
  ∃ p' w', pool_Close p w = Some (p', w') ∧ pool_closed p' = true ∧
    p_maxConnLifetime p' = p_maxConnLifetime p ∧ pool_Cap p' = pool_Cap p ∧
    pool_rep p' [] ∧ only_closed xs w w'.
Proof.
  intros Hp Hc. unfold pool_Close. rewrite Hc.
  destruct (drainPool_closed_rep (mkPool (p_conns p) true (p_maxConnLifetime p)) w xs)
    as (p' & w' & -> & (H1 & H2 & H3) & Hq & Hw); [done..|].
  by exists p', w'.
Qed.

(** A tick of the draining goroutine on an open pool closes exactly the
    idle connections whose age test found them expired and keeps the others
    in FIFO order, for every clock; on no input does it panic. *)
Theorem drainPool_closes_exactly_the_expired (p : connPool) (w : world) (xs : list nat)
    (Hrep : pool_rep p xs) (Hopen : pool_closed p = false) :
  ∃ p' w', drainPool p w = Some (p', w') ∧ same_pool p p' ∧
    pool_rep p' (drain_keep p w xs (w_reads w)) ∧
    only_closed (drain_drop p w xs (w_reads w)) w w'.
Proof. by apply drainPool_open_rep. Qed.

(** [Close] leaves no idle connection open: every connection that was in
    the pool is closed, no other one changes, and the closed pool answers
    [Get] with [ErrConnectionClosed], ignores a second [Close] and takes no
    connection back. *)
Theorem pool_Close_drains (p : connPool) (w : world) (xs : list nat)
    (Hrep : pool_rep p xs) (Hopen : pool_closed p = false) :
  ∃ p' w', pool_Close p w = Some (p', w') ∧ pool_rep p' [] ∧ only_closed xs w w' ∧
    (∀ w1 ctx, Get p' w1 ctx = Some (p', w1, Err ErrConnectionClosed)) ∧
    (∀ w1, pool_Close p' w1 = Some (p', w1)) ∧
    (∀ life w1 c, ∃ p'' w2, Put life p' w1 c = Some (p'', w2) ∧ pool_rep p'' []).
Proof.
  destruct (pool_Close_rep p w xs Hrep Hopen) as (p' & w' & H1 & H2 & H3 & H4 & H5 & H6).
  exists p', w'. split_and!; [done..| | |].
  - intros. unfold Get. by rewrite H2.
  - intros. unfold pool_Close. by rewrite H2.
  - intros life w1 c. destruct (Put_rep life p' w1 [] c H5) as (p'' & w2 & Hput & _ & Hf).
    exists p'', w2. split; [done|]. unfold Put_fate in Hf. rewrite isExpired_eq, H2 in Hf.
    destruct (expired_at _ _ _ _); [by destruct Hf|].
    destruct (fst _); by destruct Hf.
Qed.

(** [Put] on a closed pool drops a healthy connection without closing it:
    it is not in the pool, nothing closes it, and the caller has given it up.
    ([clickhouse.release] tests [ch.closed] first, but [clickhouse.Close] sets
    that flag only after [idle.Close] returned, so that the window exists.) *)
Theorem Put_on_closed_pool_leaks (life : Z) (p : connPool) (w : world) (xs : list nat) (c : nat)
    (Hrep : pool_rep p xs) (Hclosed : pool_closed p = true)
    (Hfresh : expired_at p w c (w_reads w) = false)
    (Hhealthy : fst (healthCheck life (tick w) c) = None) :
  ∃ p' w', Put life p w c = Some (p', w') ∧ pool_rep p' xs ∧ only_closed [] w w'.
Proof.
  destruct (Put_rep life p w xs c Hrep) as (p' & w' & Hput & _ & Hf).
  unfold Put_fate in Hf. rewrite isExpired_eq, Hfresh, Hhealthy, Hclosed in Hf.
  exists p', w'. by destruct Hf as (? & ? & _).
Qed.

(** ** A concrete pool: capacity 3, lifetime 10, connection 1 old and 2 young at time 100 *)

Definition demo_conns : gmap nat conn :=
  <[1 := mkConn 0 false true false false]> (<[2 := mkConn 95 false true false false]>
    (<[3 := mkConn 97 false true false false]> ∅)).
Definition demo_world : world := mkWorld demo_conns (fun _ => 100%Z) 0.
Definition demo_pool : connPool := mkPool (mkQueue [2; 0; 1] 2 1 2) false 10.
Definition demo_pool_closed : connPool := mkPool (New 0 3) true 10.

Lemma demo_pool_rep : pool_rep demo_pool [1; 2].
Proof. split; vm_compute; auto; lia. Defined.

Lemma Get_first_unexpired_witness :
  ∃ pre p' w' r, Get demo_pool demo_world (fun _ => false) = Some (p', w', r) ∧
    Get_post demo_pool demo_world (fun _ => false) 0 [1; 2] pre p' w' r.
Proof. apply (Get_first_unexpired demo_pool demo_world _ [1; 2] demo_pool_rep). reflexivity. Defined.

Example Get_demo :
  ∃ p' w', Get demo_pool demo_world (fun _ => false) = Some (p', w', Ok 2) ∧ pool_Len p' = 0 ∧
    c_closed (get_conn w' 1) = true ∧ c_closed (get_conn w' 2) = false.
Proof. eexists _, _. split; [vm_compute; reflexivity|]. by vm_compute. Qed.

Lemma drainPool_closes_exactly_the_expired_witness :
  ∃ p' w', drainPool demo_pool demo_world = Some (p', w') ∧ same_pool demo_pool p' ∧
    pool_rep p' [2] ∧ only_closed [1] demo_world w'.
Proof.
  apply (drainPool_closes_exactly_the_expired demo_pool demo_world [1; 2] demo_pool_rep).
  reflexivity.
Defined.

Lemma pool_Close_drains_witness :
  ∃ p' w', pool_Close demo_pool demo_world = Some (p', w') ∧ pool_rep p' [] ∧
    only_closed [1; 2] demo_world w' ∧
    (∀ w1 ctx, Get p' w1 ctx = Some (p', w1, Err ErrConnectionClosed)) ∧
    (∀ w1, pool_Close p' w1 = Some (p', w1)) ∧
    (∀ life w1 c, ∃ p'' w2, Put life p' w1 c = Some (p'', w2) ∧ pool_rep p'' []).
Proof. apply (pool_Close_drains demo_pool demo_world [1; 2] demo_pool_rep). reflexivity. Defined.

Lemma Put_on_closed_pool_leaks_witness :
  ∃ p' w', Put 10 demo_pool_closed demo_world 3 = Some (p', w') ∧ pool_rep p' [] ∧
    only_closed [] demo_world w'.
Proof.
  apply (Put_on_closed_pool_leaks 10 demo_pool_closed demo_world [] 3).
  - exact (New_rep 0 3).
  - reflexivity.
  - reflexivity.
  - reflexivity.
Defined.

(** ** The rendezvous of [Close] with the draining goroutine

    [Close] takes the mutex, closes [finish] and waits for [finished] while it
    holds the mutex; [runDrainPool] selects between the ticker and [finish],
    and takes the mutex after it received a tick. *)
Module CloseRace.

Inductive closer_pc := CStart | CLocked | CWaiting | CReturned.
Inductive drainer_pc := DSelect | DGotTick | DDraining | DExited.
Inductive owner := OCloser | ODrainer.

Record state := mkState {
  s_closer : closer_pc;
  s_drainer : drainer_pc;
  s_mu : option owner;
  s_finish : bool;
  s_finished : bool;
  s_tick : bool;
}.

Definition init : state := mkState CStart DSelect None false false false.

Inductive step : state → state → Prop :=
| TickFires c d mu f fd :
    step (mkState c d mu f fd false) (mkState c d mu f fd true)
| CloserLocks d f fd t :
    step (mkState CStart d None f fd t) (mkState CLocked d (Some OCloser) f fd t)
| CloserAlreadyClosed d mu f t :
    step (mkState CLocked d mu f true t) (mkState CReturned d None f true t)
| CloserSignals d mu f t :
    step (mkState CLocked d mu f false t) (mkState CWaiting d mu true false t)
| CloserDrains d mu f t :
    step (mkState CWaiting d mu f true t) (mkState CReturned d None f true t)
| DrainerTakesTick c mu f fd :
    step (mkState c DSelect mu f fd true) (mkState c DGotTick mu f fd false)
| DrainerLocks c f fd t :
    step (mkState c DGotTick None f fd t) (mkState c DDraining (Some ODrainer) f fd t)
| DrainerUnlocks c mu f fd t :
    step (mkState c DDraining mu f fd t) (mkState c DSelect None f fd t)
| DrainerFinishes c mu fd t :
    step (mkState c DSelect mu true fd t) (mkState c DExited mu true true t).

Definition reachable : state → Prop := rtc step init.

(** The stuck states: [Close] waits for the goroutine, the goroutine for the mutex. *)
Definition deadlocked (s : state) : Prop :=
  s_closer s = CWaiting ∧ s_drainer s = DGotTick ∧ s_mu s = Some OCloser ∧ s_finished s = false.

Lemma deadlocked_forever s s' : deadlocked s → rtc step s s' → deadlocked s'.
Proof.
  intros Hd Hs. induction Hs as [s|s s1 s' Hstep _ IH]; [done|]. apply IH. clear IH.
  destruct Hd as (H1 & H2 & H3 & H4). destruct Hstep; simplify_eq/=; done.
Qed.

(** [Close] can deadlock.  A state is reachable in which it has closed
    [finish] and waits for [finished] holding the mutex, while the draining
    goroutine has received a tick and waits for that mutex; from there no
    execution ever lets [Close] return. *)
Theorem Close_can_deadlock :
  ∃ s, reachable s ∧ ∀ s', rtc step s s' → s_closer s' = CWaiting ∧ s_drainer s' = DGotTick.
Proof.
  exists (mkState CWaiting DGotTick (Some OCloser) true false false). split.
  - eapply rtc_l; [apply TickFires|]. eapply rtc_l; [apply DrainerTakesTick|].
    eapply rtc_l; [apply CloserLocks|]. eapply rtc_l; [apply CloserSignals|]. apply rtc_refl.
  - intros s' Hs. apply deadlocked_forever in Hs; [|done]. by destruct Hs as (? & ? & _).
Qed.

(** The mutex excludes: at most one of the two is inside, and [finished] is
    closed only by the goroutine's exit. *)
Definition race_inv (s : state) : Prop :=
  (s_mu s = Some OCloser ↔ s_closer s = CLocked ∨ s_closer s = CWaiting) ∧
  (s_mu s = Some ODrainer ↔ s_drainer s = DDraining) ∧
  (s_finished s = true ↔ s_drainer s = DExited) ∧
  (s_closer s = CReturned → s_drainer s = DExited).

Lemma race_inv_step s s' : race_inv s → step s s' → race_inv s'.
Proof.
  intros (H1 & H2 & H3 & H4) Hstep. unfold race_inv. destruct Hstep; simpl in *; naive_solver.
Qed.

(** When [Close] does return, the draining goroutine has exited, and at no
    time are [Close] and a drain inside the mutex together. *)
Theorem Close_returns_after_drainer_exit (s : state) (Hr : reachable s) :
  (s_closer s = CReturned → s_drainer s = DExited ∧ s_finished s = true) ∧
  ~ (s_closer s = CWaiting ∧ s_drainer s = DDraining).
Proof.
  assert (race_inv s) as (H1 & H2 & H3 & H4).
  { unfold reachable in Hr. remember init as s0 eqn:E. assert (race_inv s0) as Hi.
    - subst. unfold race_inv; simpl. naive_solver.
    - clear E. induction Hr; eauto using race_inv_step. }
  split; [naive_solver|]. intros [Hc Hd].
  assert (s_mu s = Some OCloser) by tauto. assert (s_mu s = Some ODrainer) by tauto. congruence.
Qed.

Lemma Close_returns_after_drainer_exit_witness :
  reachable (mkState CReturned DExited None true true false) ∧
  s_finished (mkState CReturned DExited None true true false) = true.
Proof.
  assert (reachable (mkState CReturned DExited None true true false)) as Hr.
  { eapply rtc_l; [apply CloserLocks|]. eapply rtc_l; [apply CloserSignals|].
    eapply rtc_l; [apply DrainerFinishes|]. eapply rtc_l; [apply CloserDrains|]. apply rtc_refl. }
  split; [exact Hr|]. apply (Close_returns_after_drainer_exit _ Hr). reflexivity.
Defined.

End CloseRace.
