(* ===== verification/Client.v ===== *)
(** * The client: dialling, acquiring and releasing connections ([clickhouse.go])

    [clickhouse] is the struct behind [Open]: the idle pool of [ConnPool], the
    [open] channel as the number of tokens in it, its capacity [MaxOpenConns],
    the [connID] counter and the closing flags.  [acquire] and [release] are
    the functions every query goes through; what comes from outside (the
    context, the dialler, the random source, which ready case [select] takes)
    is an argument.  [client_step] interleaves them with the pool's draining
    goroutine, [Close] and the holders' use of their connections, and
    [client_inv] is the invariant of every reachable state. *)

From S2P Require Import Prelude CircularQueue ConnPool.

(** ** Dialling *)

Inductive ConnOpenStrategy := ConnOpenInOrder | ConnOpenRoundRobin | ConnOpenRandom.

Inductive dial_error := EDialFailed (why : gostring) | ErrAcquireConnNoAddress.

(** The index [DefaultDialStrategy] tries at iteration [i]; [rnd i] is what
    [rand.Int()] returns there.  Machine [int]s wrap, [%] truncates. *)
Definition dial_index (strategy : ConnOpenStrategy) (connID : Z) (rnd : nat → Z) (i n : nat) : Z :=
  match strategy with
  | ConnOpenInOrder => Z.of_nat i
  | ConnOpenRoundRobin => Z.rem (i64 (connID + Z.of_nat i)) (Z.of_nat n)
  | ConnOpenRandom => Z.rem (i64 (rnd i + Z.of_nat i)) (Z.of_nat n)
  end.

Definition go_index {A} (l : list A) (i : Z) : option A :=
  if (i <? 0)%Z then None else l !! Z.to_nat i.

Fixpoint dial_loop {R : Type} (strategy : ConnOpenStrategy) (connID : Z) (rnd : nat → Z)
    (addrs : list gostring) (dial : gostring → result dial_error R)
    (todo i : nat) (err : option dial_error) : option (result dial_error R) :=
  match todo with
  | O => Some (Err (default ErrAcquireConnNoAddress err))
  | S todo =>
      addr ← go_index addrs (dial_index strategy connID rnd i (length addrs));
      match dial addr with
      | Ok r => Some (Ok r)
      | Err e => dial_loop strategy connID rnd addrs dial todo (S i) (Some e)
      end
  end.

Definition DefaultDialStrategy {R : Type} (strategy : ConnOpenStrategy) (connID : Z) (rnd : nat → Z)
    (addrs : list gostring) (dial : gostring → result dial_error R) : option (result dial_error R) :=
  dial_loop strategy connID rnd addrs dial (length addrs) 0 None.

(** The specification: try the addresses of [order] one after the other. *)
Fixpoint first_ok {R : Type} (order : list gostring) (dial : gostring → result dial_error R)
    (err : option dial_error) : result dial_error R :=
  match order with
  | [] => Err (default ErrAcquireConnNoAddress err)
  | a :: order => match dial a with Ok r => Ok r | Err e => first_ok order dial (Some e) end
  end.

(** ** The client *)

Record options := mkOptions {
  o_ConnMaxLifetime : Z;
  o_MaxOpenConns : nat;
  o_MaxIdleConns : nat;
  o_FreeBufOnConnRelease : bool;
  o_ConnOpenStrategy : ConnOpenStrategy;
  o_Addr : list gostring;
}.

Record clickhouse := mkClient {
  ch_opt : options;
  ch_connID : nat;
  ch_idle : connPool;
  ch_open : nat;
  ch_closeOnce : bool;
  ch_closed : bool;
}.

Definition Open (o : options) : clickhouse :=
  mkClient o 0 (newConnPool (o_ConnMaxLifetime o) (o_MaxIdleConns o)) 0 false false.

Definition with_idle (ch : clickhouse) (p : connPool) : clickhouse :=
  mkClient (ch_opt ch) (ch_connID ch) p (ch_open ch) (ch_closeOnce ch) (ch_closed ch).
Definition with_open (ch : clickhouse) (n : nat) : clickhouse :=
  mkClient (ch_opt ch) (ch_connID ch) (ch_idle ch) n (ch_closeOnce ch) (ch_closed ch).
Definition with_connID (ch : clickhouse) (n : nat) : clickhouse :=
  mkClient (ch_opt ch) n (ch_idle ch) (ch_open ch) (ch_closeOnce ch) (ch_closed ch).

(** [select { case <-ch.open: default: }] *)
Definition drop_token (ch : clickhouse) : clickhouse := with_open ch (ch_open ch - 1).

Inductive client_error := EPool (e : pool_error) | EDial (e : dial_error) | ECanceled.

(** What one call of [acquire] meets outside the client. *)
Record acquire_env := mkEnv {
  e_done : bool;                 (** the context is done at the first test *)
  e_token : bool;                (** [select] takes the token, not [ctx.Done] *)
  e_ctx : nat → bool;            (** the context at the tests inside [Get] *)
  e_dialCtx : bool;              (** the context is done when [dial] starts *)
  e_rnd : nat → Z;
  e_dial : gostring → result dial_error Z;  (** the dialler: the time it connected at *)
}.

Definition setReleased (w : world) (c : nat) (b : bool) : world :=
  let k := get_conn w c in
  set_conn w c (mkConn (c_connectedAt k) (c_closed k) b (c_checkErr k) (c_buffered k)).

Definition freeBuffer (w : world) (c : nat) : world :=
  let k := get_conn w c in
  set_conn w c (mkConn (c_connectedAt k) (c_closed k) (c_released k) (c_checkErr k) false).

(** [clickhouse.dial]: a new connection is open, not released and healthy. *)
Definition client_dial (ch : clickhouse) (w : world) (env : acquire_env)
    : option (clickhouse * world * result client_error nat) :=
  if e_dialCtx env then Some (ch, w, Err ECanceled)
  else
    let c := S (ch_connID ch) in
    let ch := with_connID ch c in
    r ← DefaultDialStrategy (o_ConnOpenStrategy (ch_opt ch)) (Z.of_nat c) (e_rnd env)
          (o_Addr (ch_opt ch)) (e_dial env);
    match r with
    | Ok at_ => Some (ch, set_conn w c (mkConn at_ false false false false), Ok c)
    | Err e => Some (ch, w, Err (EDial e))
    end.

Definition dial_or_drop (ch : clickhouse) (w : world) (env : acquire_env)
    : option (clickhouse * world * result client_error nat) :=
  '(ch, w, r) ← client_dial ch w env;
  match r with
  | Ok c => Some (ch, w, Ok c)
  | Err e => Some (drop_token ch, w, Err e)
  end.

(** [None]: the call blocks on a full [open] channel, or panics. *)
Definition acquire (ch : clickhouse) (w : world) (env : acquire_env)
    : option (clickhouse * world * result client_error nat) :=
  if ch_closed ch then Some (ch, w, Err (EPool ErrConnectionClosed))
  else if e_done env then Some (ch, w, Err ECanceled)
  else if negb (e_token env) then Some (ch, w, Err ECanceled)
  else if ch_open ch <? o_MaxOpenConns (ch_opt ch) then
    let ch := with_open ch (S (ch_open ch)) in
    '(p, w, r) ← Get (ch_idle ch) w (e_ctx env);
    let ch := with_idle ch p in
    match r with
    | Err errQueueEmpty => dial_or_drop ch w env
    | Err e => Some (drop_token ch, w, Err (EPool e))
    | Ok c =>
        let '(bad, w) := healthCheck (o_ConnMaxLifetime (ch_opt ch)) w c in
        match bad with
        | None => Some (ch, setReleased w c false, Ok c)
        | Some _ => dial_or_drop ch (conn_close w c) env
        end
    end
  else None.

(** [err] says whether the holder gives the connection back with an error. *)
Definition release (ch : clickhouse) (w : world) (c : nat) (err : bool)
    : option (clickhouse * world) :=
  if c_released (get_conn w c) then Some (ch, w)
  else
    let w := setReleased w c true in
    let ch := drop_token ch in
    if err then Some (ch, conn_close w c)
    else
      let '(now, w) := Now w in
      if (o_ConnMaxLifetime (ch_opt ch) <=? now - c_connectedAt (get_conn w c))%Z
      then Some (ch, conn_close w c)
      else
        let w := if o_FreeBufOnConnRelease (ch_opt ch) then freeBuffer w c else w in
        if ch_closed ch then Some (ch, conn_close w c)
        else
          '(p, w) ← Put (o_ConnMaxLifetime (ch_opt ch)) (ch_idle ch) w c;
          Some (with_idle ch p, w).

(** The two effects of [Close], run once: [idle.Close()], then the flag. *)
Definition Close_idle (ch : clickhouse) (w : world) : option (clickhouse * world) :=
  if ch_closeOnce ch then Some (ch, w)
  else
    '(p, w) ← pool_Close (ch_idle ch) w;
    Some (mkClient (ch_opt ch) (ch_connID ch) p (ch_open ch) true (ch_closed ch), w).

Definition Close_flag (ch : clickhouse) : clickhouse :=
  mkClient (ch_opt ch) (ch_connID ch) (ch_idle ch) (ch_open ch) (ch_closeOnce ch) true.

Record stats := mkStats { st_Open : nat; st_MaxOpenConns : nat; st_Idle : nat; st_MaxIdleConns : nat }.

Definition Stats (ch : clickhouse) : stats :=
  mkStats (ch_open ch) (o_MaxOpenConns (ch_opt ch)) (pool_Len (ch_idle ch)) (pool_Cap (ch_idle ch)).

(** ** Dialling visits every address *)

Lemma dial_loop_order {R : Type} strategy connID rnd addrs (dial : gostring → result dial_error R)
    order i0 err :
  (∀ i, i < length order →
     go_index addrs (dial_index strategy connID rnd (i0 + i) (length addrs)) = order !! i) →
  dial_loop strategy connID rnd addrs dial (length order) i0 err = Some (first_ok order dial err).
Proof.
  revert i0 err. induction order as [|a order IH]; intros i0 err Hi; simpl; [done|].
  pose proof (Hi 0 ltac:(simpl; lia)) as H0. rewrite Nat.add_0_r in H0. rewrite H0; simpl.
  destruct (dial a) as [r|e]; [done|]. apply IH. intros i Hlt.
  replace (S i0 + i) with (i0 + S i) by lia. rewrite Hi; [done|simpl; lia].
Qed.

Lemma round_robin_index connID n i :
  (0 ≤ connID)%Z → (connID + Z.of_nat i < 2 ^ 63)%Z → 0 < n →
  Z.rem (i64 (connID + Z.of_nat i)) (Z.of_nat n) =
  Z.of_nat ((Z.to_nat connID mod n + i) mod n).
Proof.
  intros H0 H1 Hn. unfold i64. rewrite swrap_small by lia.
  rewrite Z.rem_mod_nonneg by lia. rewrite Nat.Div0.add_mod_idemp_l, Nat2Z.inj_mod, Nat2Z.inj_add.
  by rewrite Z2Nat.id by lia.
Qed.

Lemma go_index_of_nat {A} (l : list A) (i : nat) : go_index l (Z.of_nat i) = l !! i.
Proof. unfold go_index. rewrite (proj2 (Z.ltb_ge _ _)) by lia. by rewrite Nat2Z.id. Qed.

(** With the in-order and the round-robin strategy, [DefaultDialStrategy]
    never panics, tries every configured address exactly once, in an order
    that is the configured one or a rotation of it, returns the first
    connection that opens, and fails only after every address failed. *)
Theorem DefaultDialStrategy_tries_all {R : Type} (strategy : ConnOpenStrategy) (connID : Z)
    (rnd : nat → Z) (addrs : list gostring) (dial : gostring → result dial_error R)
    (Hs : strategy ≠ ConnOpenRandom)
    (H0 : (0 ≤ connID)%Z) (H1 : (connID + Z.of_nat (length addrs) < 2 ^ 63)%Z) :
  ∃ order, Permutation order addrs ∧
    DefaultDialStrategy strategy connID rnd addrs dial = Some (first_ok order dial None).
Proof.
  destruct (decide (addrs = [])) as [->|Hne]; [by exists []|].
  assert (0 < length addrs) as Hn by (destruct addrs; simpl; [done|lia]).
  destruct strategy; [| |done].
  - exists addrs. split; [done|]. apply dial_loop_order. intros i Hi. apply go_index_of_nat.
  - set (k := Z.to_nat connID mod length addrs).
    assert (k < length addrs) as Hk by (apply Nat.mod_upper_bound; lia).
    exists (rotation addrs k). split.
    + unfold rotation. rewrite <- (take_drop k addrs) at 3. apply Permutation_app_comm.
    + unfold DefaultDialStrategy. rewrite <- (length_rotation addrs k) at 1 by lia.
      apply dial_loop_order. intros i Hi. rewrite length_rotation in Hi by lia.
      rewrite rotation_lookup by lia. simpl. rewrite round_robin_index by lia.
      by rewrite go_index_of_nat.
Qed.

Lemma DefaultDialStrategy_tries_all_witness :
  ∃ order, Permutation order [str "a:9000"; str "b:9000"] ∧
    DefaultDialStrategy ConnOpenRoundRobin 7 (fun _ => 0%Z) [str "a:9000"; str "b:9000"]
      (fun a => if decide (a = str "b:9000") then Ok 1 else Err (EDialFailed (str "refused")))
    = Some (first_ok order
        (fun a => if decide (a = str "b:9000") then Ok 1 else Err (EDialFailed (str "refused"))) None).
Proof. apply DefaultDialStrategy_tries_all; [discriminate | lia | simpl; lia]. Defined.

(** The random strategy draws a new number at every iteration instead of
    one starting point, so that it may try one address twice and another
    never: with two addresses of which the second accepts, there are draws
    for which dialling fails. *)
Theorem random_strategy_skips_addresses :
  ∃ (rnd : nat → Z) (dial : gostring → result dial_error nat) (good bad : gostring),
    (∀ i, (0 ≤ rnd i < 2 ^ 63)%Z) ∧ dial good = Ok 1 ∧
    DefaultDialStrategy ConnOpenRandom 1 rnd [bad; good] dial =
      Some (Err (EDialFailed (str "refused"))).
Proof.
  exists (fun i => Z.of_nat (Nat.min i 1)),
    (fun a => if decide (a = str "good:9000") then Ok 1 else Err (EDialFailed (str "refused"))),
    (str "good:9000"), (str "bad:9000").
  split; [intros i; lia|]. split; by vm_compute.
Qed.

(** ** The invariant of the client *)

(** A state of the client with its connections, and the connections that are
    checked out: handed out by [acquire] and not given back. *)
Record cstate := mkCstate { cs_ch : clickhouse; cs_w : world; cs_out : gset nat }.

(** The idle connections [xs] are distinct, open and released. *)
Definition idle_ok (w : world) (xs : list nat) : Prop :=
  NoDup xs ∧
  ∀ c, c ∈ xs → ∃ k, w_conns w !! c = Some k ∧ c_released k = true ∧ c_closed k = false.

(** The checked-out connections are the ones whose released flag is off. *)
Definition out_ok (w : world) (out : gset nat) : Prop :=
  ∀ c, c ∈ out ↔ ∃ k, w_conns w !! c = Some k ∧ c_released k = false.

(** Connection numbers were given out by the counter. *)
Definition ids_ok (w : world) (n : nat) : Prop := ∀ c, is_Some (w_conns w !! c) → c ≤ n.

Record conns_inv (p : connPool) (w : world) (out : gset nat) (n : nat) : Prop := {
  cn_idle : ∃ xs, pool_rep p xs ∧ idle_ok w xs ∧ (pool_closed p = true → xs = []);
  cn_out : out_ok w out;
  cn_ids : ids_ok w n;
}.

Record client_inv (s : cstate) : Prop := {
  ci_conns : conns_inv (ch_idle (cs_ch s)) (cs_w s) (cs_out s) (ch_connID (cs_ch s));
  ci_open : ch_open (cs_ch s) = size (cs_out s);
  ci_max : ch_open (cs_ch s) ≤ o_MaxOpenConns (ch_opt (cs_ch s));
}.

(** The interleavings: a call of [acquire] or [release] runs to its end, a
    holder changes the state of a connection it holds (it breaks, it is
    closed, it keeps a buffer), the goroutine of the pool drains, [Close] runs. *)
Inductive client_step : cstate → cstate → Prop :=
| SAcquire ch w out env ch' w' c :
    acquire ch w env = Some (ch', w', Ok c) →
    client_step (mkCstate ch w out) (mkCstate ch' w' ({[c]} ∪ out))
| SAcquireFails ch w out env ch' w' e :
    acquire ch w env = Some (ch', w', Err e) →
    client_step (mkCstate ch w out) (mkCstate ch' w' out)
| SRelease ch w out c err ch' w' :
    release ch w c err = Some (ch', w') →
    client_step (mkCstate ch w out) (mkCstate ch' w' (out ∖ {[c]}))
| SUse ch w out c k k' :
    c ∈ out → w_conns w !! c = Some k →
    c_connectedAt k' = c_connectedAt k → c_released k' = c_released k →
    client_step (mkCstate ch w out) (mkCstate ch (set_conn w c k') out)
| SDrain ch w out p' w' :
    drainPool (ch_idle ch) w = Some (p', w') →
    client_step (mkCstate ch w out) (mkCstate (with_idle ch p') w' out)
| SCloseIdle ch w out ch' w' :
    Close_idle ch w = Some (ch', w') →
    client_step (mkCstate ch w out) (mkCstate ch' w' out)
| SCloseFlag ch w out :
    ch_closeOnce ch = true →
    client_step (mkCstate ch w out) (mkCstate (Close_flag ch) w out).

Definition client_init (o : options) (clock : nat → Z) : cstate :=
  mkCstate (Open o) (mkWorld ∅ clock 0) ∅.

Definition client_reachable (o : options) (clock : nat → Z) : cstate → Prop :=
  rtc client_step (client_init o clock).

(** ** The invariant is preserved *)

Lemma only_closed_out_ok cs w w' out : only_closed cs w w' → out_ok w out → out_ok w' out.
Proof.
  intros [Hc _] Ho c. rewrite (Ho c), Hc. case_decide; [|done].
  destruct (w_conns w !! c) as [k|]; simpl.
  - pose proof (mark_closed_fields k) as (_ & Hr & _). split.
    + intros (k' & [= <-] & Hk). exists (mark_closed k). by rewrite Hr.
    + intros (k' & [= <-] & Hk). exists k. by rewrite <- Hr.
  - split; intros (k' & ? & _); discriminate.
Qed.

Lemma only_closed_ids_ok cs w w' n : only_closed cs w w' → ids_ok w n → ids_ok w' n.
Proof.
  intros [Hc _] Hi c. rewrite Hc. case_decide; rewrite ?fmap_is_Some; apply Hi.
Qed.

Lemma only_closed_idle_ok cs w w' xs :
  only_closed cs w w' → idle_ok w xs → (∀ c, c ∈ xs → c ∉ cs) → idle_ok w' xs.
Proof.
  intros [Hc _] [Hn Hx] Hd. split; [done|]. intros c Hin. rewrite Hc, decide_False by auto. auto.
Qed.

(** Closing idle connections that leave the pool. *)
Lemma conns_inv_shrink p w out n p' w' xs ys cs :
  conns_inv p w out n → pool_rep p xs → only_closed cs w w' →
  pool_rep p' ys → sublist ys xs → (∀ c, c ∈ ys → c ∉ cs) →
  (pool_closed p' = true → ys = []) → conns_inv p' w' out n.
Proof.
  intros [(xs0 & Hp & Hi & _) Ho Hid] Hpx Hcl Hp' Hsub Hd Hfin.
  assert (xs0 = xs) as -> by (by eapply queue_rep_inj).
  split; [|by eapply only_closed_out_ok|by eapply only_closed_ids_ok].
  exists ys. split; [done|]. split; [|done]. eapply only_closed_idle_ok; [done| |done].
  destruct Hi as [Hn Hx]. split; [by eapply sublist_NoDup|].
  intros c Hc. apply Hx. by eapply elem_of_sublist.
Qed.

Lemma conns_inv_world p w w' out n :
  w_conns w' = w_conns w → conns_inv p w out n → conns_inv p w' out n.
Proof. intros E [Hi Ho Hd]. split; unfold idle_ok, out_ok, ids_ok in *; by rewrite E. Qed.

(** A connection outside the pool may change its fields. *)
Lemma conns_inv_set p w out out' n c k xs :
  conns_inv p w out n → pool_rep p xs → c ∉ xs → is_Some (w_conns w !! c) →
  out' = (if c_released k then out ∖ {[c]} else {[c]} ∪ out) →
  conns_inv p (set_conn w c k) out' n.
Proof.
  intros [(xs0 & Hp & [Hn Hx] & Hf) Ho Hid] Hpx Hc Hs ->.
  assert (xs0 = xs) as -> by (by eapply queue_rep_inj). split.
  - exists xs. split; [done|]. split; [|done]. split; [done|]. intros d Hd; simpl.
    rewrite lookup_insert_ne by congruence. auto.
  - intros d; simpl. destruct (decide (d = c)) as [->|Hne].
    + rewrite lookup_insert_eq. destruct (c_released k) eqn:E.
      * split; [set_solver|]. intros (k0 & [= <-] & ?). congruence.
      * split; [eauto|set_solver].
    + rewrite lookup_insert_ne by done. rewrite <- (Ho d). clear -Hne.
      destruct (c_released k); set_solver.
  - intros d; simpl. destruct (decide (d = c)) as [->|Hne]; [auto|].
    rewrite lookup_insert_ne by done. auto.
Qed.

Lemma conns_inv_close p w out n c xs :
  conns_inv p w out n → pool_rep p xs → c ∉ xs → conns_inv p (conn_close w c) out n.
Proof.
  intros Hi Hp Hc. destruct (cn_idle _ _ _ _ Hi) as (xs0 & Hp0 & _ & Hf).
  assert (xs0 = xs) as -> by (by eapply queue_rep_inj).
  eapply conns_inv_shrink; [done..|by apply only_closed_one|done|done| |done].
  intros d Hd. rewrite list_elem_of_singleton. congruence.
Qed.

(** [Get] hands out an idle connection and takes it out of the pool. *)
Lemma Get_conns_inv p w out n ctx p' w' r :
  conns_inv p w out n → Get p w ctx = Some (p', w', r) →
  conns_inv p' w' out n ∧ p_finished p' = p_finished p ∧
  match r with
  | Ok c => ∃ k xs, w_conns w' !! c = Some k ∧ c_released k = true ∧ pool_rep p' xs ∧ c ∉ xs
  | Err _ => True
  end.
Proof.
  intros Hi Hg. destruct (pool_closed p) eqn:Hc.
  { unfold Get in Hg. rewrite Hc in Hg. by simplify_eq. }
  destruct (cn_idle _ _ _ _ Hi) as (xs & Hp & [Hn Hx] & Hf).
  destruct (Get_loop_rep xs (S (pool_Len p)) p w ctx 0 Hp) as (pre & p1 & w1 & r1 & Hrun & Hpost).
  { unfold pool_Len, Len. rewrite (qr_len _ _ _ Hp). lia. }
  unfold Get in Hg. rewrite Hc, Hrun in Hg. simplify_eq.
  destruct Hpost as ((Hs1 & Hs2 & Hs3) & Hcl & _ & _ & Hr). unfold pool_closed in *.
  assert (∀ ys, xs = pre ++ ys → ∀ c, c ∈ ys → c ∉ pre) as Hdis.
  { intros ys -> c H1 H2. apply NoDup_app in Hn as (_ & Hn & _). by eapply Hn. }
  assert (∀ ys zs, xs = pre ++ ys → sublist zs ys → pool_rep p' zs → conns_inv p' w' out n) as Hinv.
  { intros ys zs E Hsub Hrep. eapply conns_inv_shrink; [done..| | |unfold pool_closed; intros; congruence].
    - subst xs. by apply sublist_inserts_l.
    - intros c Hz. eapply Hdis; [done|]. by eapply elem_of_sublist. }
  destruct r as [c|[| |]].
  - destruct Hr as (post & E & Hrep & _).
    split; [eapply Hinv; [done| |done]; by apply sublist_cons|]. split; [done|].
    assert (c ∉ pre) as Hnp by (eapply Hdis; [done|set_solver]).
    destruct (Hx c) as (k & Hk & Hr1 & _); [subst; set_solver|].
    exists k, post. split; [by rewrite (oc_conns _ _ _ Hcl), decide_False|].
    split_and!; [done..|]. subst xs. apply NoDup_app in Hn as (_ & _ & Hn). by inversion Hn.
  - done.
  - destruct Hr as (E & Hrep & _). split; [|done]. eapply (Hinv [] []); [by rewrite app_nil_r|done..].
  - destruct Hr as (post & E & Hrep & _). split; [|done]. by eapply Hinv.
Qed.

Lemma conns_inv_mono p w out n m : n ≤ m → conns_inv p w out n → conns_inv p w out m.
Proof. intros Hm [Hi Ho Hid]. split; [done..|]. intros c Hc. specialize (Hid c Hc). lia. Qed.

Lemma conns_inv_new p w out n k :
  conns_inv p w out n → c_released k = false →
  (S n ∉ out) ∧ conns_inv p (set_conn w (S n) k) ({[S n]} ∪ out) (S n).
Proof.
  intros [(xs & Hp & [Hn Hx] & Hf) Ho Hid] Hk.
  assert (w_conns w !! S n = None) as Hnone.
  { destruct (w_conns w !! S n) as [k0|] eqn:E; [|done]. specialize (Hid (S n) ltac:(by eexists)). lia. }
  split; [intros Hin; apply Ho in Hin as (? & ? & _); congruence|]. split.
  - exists xs. split; [done|]. split; [|done]. split; [done|]. intros d Hd; simpl.
    destruct (Hx d Hd) as (kd & Hkd & ?). rewrite lookup_insert_ne by congruence. eauto.
  - intros d; simpl. destruct (decide (d = S n)) as [->|Hne].
    + rewrite lookup_insert_eq. split; [eauto|set_solver].
    + rewrite lookup_insert_ne by done. rewrite <- (Ho d). clear -Hne. set_solver.
  - intros d; simpl. destruct (decide (d = S n)) as [->|Hne]; [lia|].
    rewrite lookup_insert_ne by done. intros Hd. specialize (Hid d Hd). lia.
Qed.

(** The outcome of [dial_or_drop] started with [m] tokens. *)
Lemma dial_or_drop_inv ch w out env ch' w' r :
  conns_inv (ch_idle ch) w out (ch_connID ch) → dial_or_drop ch w env = Some (ch', w', r) →
  ch_opt ch' = ch_opt ch ∧
  match r with
  | Ok c => (c ∉ out) ∧ conns_inv (ch_idle ch') w' ({[c]} ∪ out) (ch_connID ch') ∧ ch_open ch' = ch_open ch
  | Err _ => conns_inv (ch_idle ch') w' out (ch_connID ch') ∧ ch_open ch' = ch_open ch - 1
  end.
Proof.
  intros Hi. unfold dial_or_drop, client_dial.
  destruct (e_dialCtx env); cbn [mbind option_bind]; [intros; by simplify_eq|].
  destruct (DefaultDialStrategy _ _ _ _ _) as [[at_|e]|]; cbn [mbind option_bind]; intros; simplify_eq.
  - split; [done|]. destruct (conns_inv_new _ _ _ _ (mkConn at_ false false false false) Hi eq_refl).
    done.
  - split; [done|]. split; [|done]. simpl. eapply conns_inv_mono; [|done]. simpl; lia.
Qed.

Lemma acquire_inv ch w out env ch' w' r :
  client_inv (mkCstate ch w out) → acquire ch w env = Some (ch', w', r) →
  match r with
  | Ok c => (c ∉ out) ∧ client_inv (mkCstate ch' w' ({[c]} ∪ out))
  | Err _ => client_inv (mkCstate ch' w' out)
  end.
Proof.
  intros [Hc Ho Hm]. simpl in *. unfold acquire.
  destruct (ch_closed ch); [intros; by simplify_eq|].
  destruct (e_done env); [intros; by simplify_eq|].
  destruct (negb (e_token env)); [intros; by simplify_eq|].
  destruct (Nat.ltb_spec (ch_open ch) (o_MaxOpenConns (ch_opt ch))) as [Hlt|?]; [|done].
  destruct (Get _ w (e_ctx env)) as [[[p1 w1] r1]|] eqn:Hg; cbn [mbind option_bind]; [|done].
  apply (Get_conns_inv _ _ _ _ _ _ _ _ Hc) in Hg as (Hc1 & _ & Hr1).
  set (ch1 := with_idle (with_open ch (S (ch_open ch))) p1).
  assert (∀ w2, conns_inv p1 w2 out (ch_connID ch) →
    dial_or_drop ch1 w2 env = Some (ch', w', r) →
    match r with
    | Ok c => (c ∉ out) ∧ client_inv (mkCstate ch' w' ({[c]} ∪ out))
    | Err _ => client_inv (mkCstate ch' w' out)
    end) as Hdial.
  { intros w2 Hc2 Hd. apply (dial_or_drop_inv ch1 w2 out) in Hd as [Hopt Hd]; [|done].
    destruct r as [c|e]; simpl in *.
    - destruct Hd as (Hn & Hc' & Hop). split; [done|]. split; simpl; [done| |rewrite Hopt; simpl; lia].
      rewrite Hop, size_union, size_singleton by set_solver. lia.
    - destruct Hd as (Hc' & Hop). split; simpl; [done|lia|rewrite Hopt; simpl; lia]. }
  destruct r1 as [c|e].
  - destruct Hr1 as (k & xs & Hk & Hrel & Hp & Hnin).
    destruct (healthCheck_world (o_ConnMaxLifetime (ch_opt ch1)) w1 c) as (w2 & Hw2 & E2 & _).
    destruct (healthCheck _ w1 c) as [bad w2']. simpl in Hw2. subst w2'.
    apply (conns_inv_world _ _ w2) in Hc1; [|done]. destruct bad.
    + apply Hdial. by eapply conns_inv_close.
    + intros; simplify_eq.
      assert (get_conn w2 c = k) as Hgk by (unfold get_conn; by rewrite E2, Hk).
      assert (c ∉ out) as Hno.
      { intros Hin. apply (cn_out _ _ _ _ Hc1) in Hin as (k' & Hk' & ?). rewrite E2 in Hk'. congruence. }
      split; [done|]. split; simpl; [|rewrite Ho, size_union, size_singleton by set_solver; lia|lia].
      eapply conns_inv_set; [done..| |done]. rewrite E2. by eexists.
  - destruct e; try apply (Hdial _ Hc1); intros; simplify_eq; split; simpl; done || lia.
Qed.

(** [Put] of a connection that is neither idle nor checked out. *)
Lemma Put_conns_inv life p w out n c p' w' :
  conns_inv p w out n → (∃ k, w_conns w !! c = Some k ∧ c_released k = true) →
  (∀ xs, pool_rep p xs → c ∉ xs) → Put life p w c = Some (p', w') → conns_inv p' w' out n.
Proof.
  intros Hi (k & Hk & Hr) Hnin Hput.
  destruct (cn_idle _ _ _ _ Hi) as (xs & Hp & Hok & Hf). specialize (Hnin xs Hp).
  destruct (Put_rep life p w xs c Hp) as (p1 & w1 & Hput' & (Hs1 & _ & _) & Hfate).
  rewrite Hput' in Hput. simplify_eq. unfold pool_closed in *.
  destruct (Put_fate life p w xs c) as [[]|] eqn:Hpf.
  - destruct Hfate as [Hp' Hcl]. split; [|by eapply only_closed_out_ok; [|apply Hi]
      |by eapply only_closed_ids_ok; [|apply Hi]].
    exists (xs ++ [c]). split; [done|]. unfold Put_fate in Hpf. rewrite isExpired_eq in Hpf.
    destruct (expired_at _ _ _ _); [done|].
    destruct (fst (healthCheck _ _ _)) eqn:Hh; [done|]. unfold pool_closed in Hpf.
    destruct (p_finished p) eqn:Hfin; [done|]. split; [|unfold pool_closed; congruence].
    eapply only_closed_idle_ok; [done| |set_solver]. destruct Hok as [Hn Hx]. split.
    + apply NoDup_app. split; [done|]. split; [set_solver|apply NoDup_singleton].
    + intros d Hd. apply elem_of_app in Hd as [Hd|Hd%list_elem_of_singleton]; [auto|]. subst d.
      exists k. split_and!; [done..|]. unfold healthCheck, get_conn in Hh; simpl in Hh.
      rewrite Hk in Hh; simpl in Hh. by destruct (c_closed k).
  - destruct Hfate as [Hp' Hcl]. eapply conns_inv_shrink; [done..| |unfold pool_closed].
    + intros d Hd. rewrite list_elem_of_singleton. congruence.
    + rewrite Hs1. done.
  - destruct Hfate as (Hp' & Hcl & _). eapply conns_inv_shrink; [done..|set_solver|].
    unfold pool_closed. by rewrite Hs1.
Qed.

Lemma out_not_idle p w out n c xs : conns_inv p w out n → c ∈ out → pool_rep p xs → c ∉ xs.
Proof.
  intros [(xs0 & Hp & [_ Hx] & _) Ho _] Hin Hpx Hcx.
  rewrite (queue_rep_inj _ _ _ _ Hpx Hp) in Hcx.
  apply Ho in Hin as (k & ? & ?). destruct (Hx c Hcx) as (k' & ? & ? & _). congruence.
Qed.

(** Turning the released flag of a checked-out connection on. *)
Lemma conns_inv_release p w out n c k b :
  conns_inv p w out n → c ∈ out → w_conns w !! c = Some k →
  conns_inv p (set_conn w c (mkConn (c_connectedAt k) (c_closed k) true (c_checkErr k) b))
    (out ∖ {[c]}) n.
Proof.
  intros Hi Hin Hk. destruct (cn_idle _ _ _ _ Hi) as (xs & Hp & _).
  eapply conns_inv_set; [done..| |by eexists|done]. by eapply out_not_idle.
Qed.

(** Once the flag is on, the token is given back, and the rest of [release] ends
    in a state whose connections satisfy the invariant without [c]. *)
Lemma release_finish ch w out c p2 w2 :
  client_inv (mkCstate ch w out) → c ∈ out → conns_inv p2 w2 (out ∖ {[c]}) (ch_connID ch) →
  client_inv (mkCstate (with_idle (drop_token ch) p2) w2 (out ∖ {[c]})).
Proof.
  intros [_ Ho Hm] Hin H2. simpl in *. split; simpl; [done| |lia].
  rewrite size_difference, size_singleton by set_solver. lia.
Qed.

Lemma release_noop w out c :
  out_ok w out → c_released (get_conn w c) = true → out ∖ {[c]} = out.
Proof.
  intros Ho Hrel. apply set_eq. intros d.
  destruct (decide (d = c)) as [->|]; [|set_solver]. split; [set_solver|].
  intros Hin. apply Ho in Hin as (k & Hk & ?). unfold get_conn in Hrel.
  rewrite Hk in Hrel. simpl in Hrel. congruence.
Qed.

Lemma release_inv ch w out c err ch' w' :
  client_inv (mkCstate ch w out) → release ch w c err = Some (ch', w') →
  client_inv (mkCstate ch' w' (out ∖ {[c]})).
Proof.
  intros Hinv. pose proof (ci_conns _ Hinv) as Hc. simpl in Hc. unfold release.
  destruct (c_released (get_conn w c)) eqn:Hrel.
  { intros; simplify_eq. by rewrite (release_noop w') by (done || apply Hc). }
  unfold get_conn in Hrel. destruct (w_conns w !! c) as [k|] eqn:Hk; [|done]. simpl in Hrel.
  assert (c ∈ out) as Hin by (apply (cn_out _ _ _ _ Hc); eauto).
  assert (∀ xs, pool_rep (ch_idle ch) xs → c ∉ xs) as Hnx by (intros; by eapply out_not_idle).
  destruct (cn_idle _ _ _ _ Hc) as (xs & Hp & _).
  assert (setReleased w c true = set_conn w c
    (mkConn (c_connectedAt k) (c_closed k) true (c_checkErr k) (c_buffered k))) as ->.
  { unfold setReleased, get_conn. by rewrite Hk. }
  pose proof (λ b, conns_inv_release _ _ _ _ c k b Hc Hin Hk) as Hset.
  assert (∀ w2, conns_inv (ch_idle ch) w2 (out ∖ {[c]}) (ch_connID ch) →
     client_inv (mkCstate (drop_token ch) (conn_close w2 c) (out ∖ {[c]}))) as Hclose.
  { intros w2 H2. apply (release_finish ch w out c (ch_idle ch)); [done..|].
    eapply conns_inv_close; eauto. }
  destruct err; [intros; simplify_eq; by apply Hclose|]. cbn [Now].
  destruct (_ <=? _)%Z.
  { intros; simplify_eq. apply Hclose. by eapply conns_inv_world; [|apply (Hset (c_buffered k))]. }
  set (w2 := if o_FreeBufOnConnRelease _ then _ else _).
  assert (∃ b, w_conns w2 !! c = Some (mkConn (c_connectedAt k) (c_closed k) true (c_checkErr k) b) ∧
    conns_inv (ch_idle ch) w2 (out ∖ {[c]}) (ch_connID ch)) as (b & Hk2 & H2).
  { subst w2. destruct (o_FreeBufOnConnRelease _); [exists false|exists (c_buffered k)].
    - unfold freeBuffer, get_conn; simpl. rewrite !lookup_insert_eq; simpl. split; [done|].
      eapply conns_inv_world; [|apply (Hset false)]. simpl. by rewrite insert_insert_eq.
    - simpl. rewrite lookup_insert_eq. split; [done|].
      by eapply conns_inv_world; [|apply (Hset (c_buffered k))]. }
  clearbody w2. simpl. destruct (ch_closed ch); [intros; simplify_eq; by apply Hclose|].
  destruct (Put _ _ w2 c) as [[p3 w3]|] eqn:Hput; simpl; intros; simplify_eq.
  eapply (release_finish ch w); [done..|]. eapply Put_conns_inv; [done|by eexists|done|done].
Qed.

Lemma drain_sublist p w xs k : sublist (drain_keep p w xs k) xs.
Proof.
  revert k. induction xs as [|x xs IH]; intros k; simpl; [done|].
  destruct (expired_at p w x k); [by apply sublist_cons|by apply sublist_skip].
Qed.

Lemma drain_drop_sublist p w xs k : sublist (drain_drop p w xs k) xs.
Proof.
  revert k. induction xs as [|x xs IH]; intros k; simpl; [done|].
  destruct (expired_at p w x k); [by apply sublist_skip|by apply sublist_cons].
Qed.

Lemma drain_disjoint p w xs k c :
  NoDup xs → c ∈ drain_keep p w xs k → c ∉ drain_drop p w xs k.
Proof.
  intros Hn. revert k. induction Hn as [|x xs Hx Hn IH]; intros k; simpl; [set_solver|].
  destruct (expired_at p w x k).
  - rewrite elem_of_cons. intros Hk [->|Hd]; [|by eapply IH].
    apply Hx. eapply elem_of_sublist; [done|apply drain_sublist].
  - rewrite elem_of_cons. intros [->|Hk] Hd; [|by eapply IH].
    apply Hx. eapply elem_of_sublist; [done|apply drain_drop_sublist].
Qed.

Lemma drain_inv p w out n p' w' :
  conns_inv p w out n → drainPool p w = Some (p', w') → conns_inv p' w' out n.
Proof.
  intros Hi Hd. destruct (cn_idle _ _ _ _ Hi) as (xs & Hp & [Hn _] & Hf).
  destruct (pool_closed p) eqn:Hc.
  - destruct (drainPool_closed_rep p w xs Hp Hc) as (p1 & w1 & E & _ & Hp1 & Hcl).
    rewrite E in Hd. simplify_eq. eapply conns_inv_shrink; [done..|apply sublist_nil_l|set_solver|done].
  - destruct (drainPool_open_rep p w xs Hp Hc) as (p1 & w1 & E & (Hs & _) & Hp1 & Hcl).
    rewrite E in Hd. simplify_eq. unfold pool_closed in *.
    eapply conns_inv_shrink; [done..|apply drain_sublist| |unfold pool_closed; intros; congruence].
    intros c Hk. by apply drain_disjoint.
Qed.

Lemma Close_idle_inv ch w out ch' w' :
  client_inv (mkCstate ch w out) → Close_idle ch w = Some (ch', w') →
  client_inv (mkCstate ch' w' out).
Proof.
  intros [Hc Ho Hm]; simpl in *. unfold Close_idle.
  destruct (ch_closeOnce ch); [intros; by simplify_eq|].
  destruct (pool_Close (ch_idle ch) w) as [[p1 w1]|] eqn:E; simpl; [|done]. intros; simplify_eq.
  split; simpl; [|done..]. destruct (cn_idle _ _ _ _ Hc) as (xs & Hp & [Hn _] & Hf).
  unfold pool_Close in E. destruct (pool_closed (ch_idle ch)) eqn:Hcl; [by simplify_eq|].
  destruct (drainPool_closed_rep (mkPool (p_conns (ch_idle ch)) true (p_maxConnLifetime (ch_idle ch))) w xs)
    as (p2 & w2 & E2 & _ & Hp2 & Hcl2); [done..|].
  rewrite E2 in E. simplify_eq.
  eapply conns_inv_shrink; [done..|apply sublist_nil_l|set_solver|done].
Qed.

Lemma client_inv_step s s' : client_inv s → client_step s s' → client_inv s'.
Proof.
  intros Hi Hs. destruct Hs as [ch w out env ch' w' c H|ch w out env ch' w' e H|ch w out c err ch' w' H
    |ch w out c k k' Hin Hk Hat Hrel|ch w out p' w' H|ch w out ch' w' H|ch w out H].
  - by apply (acquire_inv _ _ _ _ _ _ _ Hi) in H as [_ H].
  - by apply (acquire_inv _ _ _ _ _ _ _ Hi) in H.
  - by eapply release_inv.
  - destruct Hi as [Hc Ho Hm]; simpl in *. split; simpl; [|done..].
    destruct (cn_idle _ _ _ _ Hc) as (xs & Hp & _). pose proof (proj1 (cn_out _ _ _ _ Hc c) Hin) as (k0 & Hk0 & Hr0).
    eapply conns_inv_set; [done..|by eapply out_not_idle|by eexists|].
    simplify_eq. rewrite Hrel, Hr0. clear -Hin. set_solver.
  - destruct Hi as [Hc Ho Hm]; simpl in *. split; simpl; [by eapply drain_inv|done..].
  - by eapply Close_idle_inv.
  - by destruct Hi.
Qed.

Lemma client_inv_init o clock : client_inv (client_init o clock).
Proof.
  split; simpl; [|done|lia]. split.
  - exists []. split; [apply New_rep|]. split; [|done]. split; [constructor|set_solver].
  - intros c; simpl. rewrite lookup_empty. split; [set_solver|]. intros (? & ? & _). done.
  - intros c; simpl. rewrite lookup_empty. by intros [? ?].
Qed.

Lemma client_inv_reachable o clock s : client_reachable o clock s → client_inv s.
Proof.
  intros Hr. unfold client_reachable in Hr. pose proof (client_inv_init o clock) as Hi.
  induction Hr; eauto using client_inv_step.
Qed.

(** C14: in every reachable state of the client, the tokens in the [open]
    channel count exactly the connections that are checked out, and never
    exceed [MaxOpenConns]; the idle connections are distinct, at most as many
    as the pool's capacity, open, and none of them is checked out; a closed
    pool holds none. *)
Theorem client_accounting (o : options) (clock : nat → Z) (s : cstate)
    (Hr : client_reachable o clock s) :
  ch_open (cs_ch s) = size (cs_out s) ∧
  ch_open (cs_ch s) ≤ o_MaxOpenConns (ch_opt (cs_ch s)) ∧
  ∃ xs, pool_rep (ch_idle (cs_ch s)) xs ∧ NoDup xs ∧ length xs ≤ pool_Cap (ch_idle (cs_ch s)) ∧
    (pool_closed (ch_idle (cs_ch s)) = true → xs = []) ∧
    ∀ c, c ∈ xs → (c ∉ cs_out s) ∧ c_closed (get_conn (cs_w s) c) = false.
Proof.
  destruct (client_inv_reachable o clock s Hr) as [Hc Ho Hm]. split; [done|]. split; [done|].
  destruct (cn_idle _ _ _ _ Hc) as (xs & Hp & [Hn Hx] & Hf). exists xs.
  split; [done|]. split; [done|]. split; [by eapply rep_length|]. split; [done|].
  intros c Hcx. split; [intros Hin; by eapply out_not_idle|].
  destruct (Hx c Hcx) as (k & Hk & _ & Hcl). unfold get_conn. by rewrite Hk.
Qed.

(** [acquire] never hands a connection to two holders: what it returns is
    checked out to nobody at that moment, and its released flag is off. *)
Theorem acquire_exclusive (o : options) (clock : nat → Z) (s : cstate) (env : acquire_env)
    (ch' : clickhouse) (w' : world) (c : nat)
    (Hr : client_reachable o clock s)
    (Ha : acquire (cs_ch s) (cs_w s) env = Some (ch', w', Ok c)) :
  (c ∉ cs_out s) ∧ c_released (get_conn w' c) = false ∧ ch_open ch' = S (ch_open (cs_ch s)).
Proof.
  pose proof (client_inv_reachable o clock s Hr) as Hi. destruct s as [ch w out]; simpl in *.
  destruct (acquire_inv _ _ _ _ _ _ _ Hi Ha) as [Hn Hi'].
  pose proof (ci_open _ Hi) as E1. pose proof (ci_open _ Hi') as E2. simpl in *.
  rewrite size_union, size_singleton in E2 by set_solver.
  split; [done|]. split; [|lia].
  destruct (proj1 (cn_out _ _ _ _ (ci_conns _ Hi') c)) as (k & Hk & Hrel); [simpl; set_solver|].
  simpl in Hk. unfold get_conn. by rewrite Hk.
Qed.

(** Releasing a connection twice is harmless: the second [release], with
    or without an error, changes neither the client nor any connection, so
    that no token is returned twice. *)
Theorem release_idempotent (o : options) (clock : nat → Z) (s : cstate) (c : nat) (err err' : bool)
    (ch' : clickhouse) (w' : world)
    (Hr : client_reachable o clock s)
    (Hrel : release (cs_ch s) (cs_w s) c err = Some (ch', w')) :
  release ch' w' c err' = Some (ch', w').
Proof.
  pose proof (client_inv_reachable o clock s Hr) as Hi. destruct s as [ch w out]; simpl in *.
  pose proof (release_inv _ _ _ _ _ _ _ Hi Hrel) as [Hc _ _]; simpl in Hc.
  unfold release. destruct (c_released (get_conn w' c)) eqn:E; [done|]. exfalso.
  unfold get_conn in E. destruct (w_conns w' !! c) as [k|] eqn:Hk; [|done]. simpl in E.
  assert (c ∈ out ∖ {[c]}) as Hin by (apply (cn_out _ _ _ _ Hc); eauto). clear -Hin. set_solver.
Qed.

(** ** A concrete client: one address that accepts at time 5 *)

Definition demo_options : options := mkOptions 100 2 2 false ConnOpenInOrder [str "localhost:9000"].
Definition demo_env : acquire_env :=
  mkEnv false true (fun _ => false) false (fun _ => 0%Z) (fun _ => Ok 5%Z).
Definition demo_clock : nat → Z := fun _ => 10%Z.

Definition demo_ch1 : clickhouse :=
  mkClient demo_options 1 (newConnPool 100 2) 1 false false.
Definition demo_w1 : world := mkWorld (<[1 := mkConn 5 false false false false]> ∅) demo_clock 0.
Definition demo_state1 : cstate := mkCstate demo_ch1 demo_w1 ({[1]} ∪ ∅).

Lemma demo_acquire : acquire (Open demo_options) (mkWorld ∅ demo_clock 0) demo_env = Some (demo_ch1, demo_w1, Ok 1).
Proof. reflexivity. Qed.

Lemma demo_reachable : client_reachable demo_options demo_clock demo_state1.
Proof. eapply rtc_l; [eapply (SAcquire _ _ _ demo_env); apply demo_acquire|apply rtc_refl]. Qed.

Lemma client_accounting_witness :
  client_reachable demo_options demo_clock demo_state1 ∧ ch_open (cs_ch demo_state1) = size (cs_out demo_state1).
Proof.
  split; [apply demo_reachable|].
  apply (client_accounting demo_options demo_clock demo_state1 demo_reachable).
Defined.

Lemma acquire_exclusive_witness :
  ∃ ch' w', acquire demo_ch1 demo_w1 demo_env = Some (ch', w', Ok 2) ∧ ch_open ch' = 2.
Proof.
  eexists _, _. split; [reflexivity|].
  eapply (acquire_exclusive demo_options demo_clock demo_state1 demo_env _ _ 2 demo_reachable).
  reflexivity.
Defined.

Lemma release_idempotent_witness :
  ∃ ch' w', release demo_ch1 demo_w1 1 false = Some (ch', w') ∧ release ch' w' 1 true = Some (ch', w').
Proof.
  eexists _, _. split; [reflexivity|].
  eapply (release_idempotent demo_options demo_clock demo_state1 1 false true _ _ demo_reachable).
  reflexivity.
Defined.
