(* ===== verification/ClientOps.v ===== *)
(** * The operations of the client ([clickhouse.go])

    Every operation acquires a connection, runs on it and gives it back: [Exec],
    [AsyncInsert], [Ping] and [ServerVersion] before they return; [Query], [QueryRow] and
    [PrepareBatch] only when they fail, otherwise the rows or the batch hold the connection
    and give it back at their end.  What an operation does to its connection is an argument,
    [use]: the connection and its packets are modelled in [Process], [Rows] and [Batch]. *)

From S2P Require Import Prelude CircularQueue ConnPool Client.

(** What an operation leaves of its connection, and whether it failed. *)
Record use := MkUse { u_closed : bool; u_checkErr : bool; u_buffered : bool; u_failed : bool }.

Definition use_conn (w : world) (c : nat) (u : use) : world :=
  let k := get_conn w c in
  set_conn w c (mkConn (c_connectedAt k) (u_closed u) (c_released k) (u_checkErr u) (u_buffered u)).

(** The end of a call: no connection, an error of the operation, success, or rows or a batch
    that hold a connection. *)
Inductive ended := NoConn (e : client_error) | OpFailed | OpDone | Holding (c : nat).

(** [conn, err := ch.acquire(ctx); if err != nil { return err }]. *)
Definition acquired (ch : clickhouse) (w : world) (env : acquire_env)
    (k : clickhouse → world → nat → option (clickhouse * world * ended)) : option (clickhouse * world * ended) :=
  '(ch, w, r) ← acquire ch w env;
  match r with Err e => Some (ch, w, NoConn e) | Ok c => k ch w c end.

Definition give_back (ch : clickhouse) (w : world) (c : nat) (err : bool) (e : ended) : option (clickhouse * world * ended) :=
  '(ch, w) ← release ch w c err; Some (ch, w, e).

Definition ended_of (u : use) : ended := if u_failed u then OpFailed else OpDone.

(** [AsyncInsert] and [Ping]. *)
Definition client_AsyncInsert (ch : clickhouse) (w : world) (env : acquire_env) (asyncInsert : use) :=
  acquired ch w env (λ ch w c, give_back ch (use_conn w c asyncInsert) c (u_failed asyncInsert) (ended_of asyncInsert)).

Definition client_Ping (ch : clickhouse) (w : world) (env : acquire_env) (ping : use) :=
  acquired ch w env (λ ch w c, give_back ch (use_conn w c ping) c (u_failed ping) (ended_of ping)).

(** [Exec]: [async] are the options of the context. *)
Definition client_Exec (ch : clickhouse) (w : world) (env : acquire_env) (async : bool) (asyncInsert exec : use) :=
  acquired ch w env (λ ch w c,
    let u := if async then asyncInsert else exec in
    give_back ch (use_conn w c u) c (u_failed u) (ended_of u)).

(** [ServerVersion]: the deferred release has no error. *)
Definition client_ServerVersion (ch : clickhouse) (w : world) (env : acquire_env) (serverVersion : use) :=
  acquired ch w env (λ ch w c, give_back ch (use_conn w c serverVersion) c false (ended_of serverVersion)).

(** [conn.query] gives the connection back itself when it fails. *)
Definition client_Query (ch : clickhouse) (w : world) (env : acquire_env) (query : use) :=
  acquired ch w env (λ ch w c,
    let w := use_conn w c query in
    if u_failed query then give_back ch w c true OpFailed else Some (ch, w, Holding c)).

(** [QueryRow] puts the error into the row. *)
Definition client_QueryRow (ch : clickhouse) (w : world) (env : acquire_env) (queryRow : use) := client_Query ch w env queryRow.

(** [conn.prepareBatch] gives the connection back when it fails, but for a query that is no
    INSERT, where [refused] is true. *)
Definition client_PrepareBatch (ch : clickhouse) (w : world) (env : acquire_env) (prepareBatch : use) (refused : bool) :=
  acquired ch w env (λ ch w c,
    if refused then Some (ch, w, OpFailed)
    else let w := use_conn w c prepareBatch in
         if u_failed prepareBatch then give_back ch w c true OpFailed else Some (ch, w, Holding c)).

Inductive client_op :=
| OpServerVersion (u : use) | OpQuery (u : use) | OpQueryRow (u : use) | OpExec (async : bool) (ua u : use)
| OpPrepareBatch (u : use) (refused : bool) | OpAsyncInsert (u : use) | OpPing (u : use).

Definition client_call (op : client_op) (ch : clickhouse) (w : world) (env : acquire_env) : option (clickhouse * world * ended) :=
  match op with
  | OpServerVersion u => client_ServerVersion ch w env u
  | OpQuery u => client_Query ch w env u
  | OpQueryRow u => client_QueryRow ch w env u
  | OpExec async ua u => client_Exec ch w env async ua u
  | OpPrepareBatch u refused => client_PrepareBatch ch w env u refused
  | OpAsyncInsert u => client_AsyncInsert ch w env u
  | OpPing u => client_Ping ch w env u
  end.

Definition keeps_token (op : client_op) : bool := match op with OpPrepareBatch _ refused => refused | _ => false end.

(** ** Every connection comes back *)

Lemma use_conn_inv ch w out c u : client_inv (mkCstate ch w out) → c ∈ out → client_inv (mkCstate ch (use_conn w c u) out).
Proof.
  intros Hi Hin. destruct (proj1 (cn_out _ _ _ _ (ci_conns _ Hi) c) Hin) as (k & Hk & _). simpl in Hk.
  eapply client_inv_step; [exact Hi|]. unfold use_conn, get_conn. rewrite Hk. simpl.
  by apply (SUse ch w out c k).
Qed.

(** What the end of a call means for the connections that are out. *)
Definition balanced (out : gset nat) (r : option (clickhouse * world * ended)) : Prop :=
  ∀ ch w e, r = Some (ch, w, e) →
  match e with
  | Holding c => (c ∉ out) ∧ client_inv (mkCstate ch w ({[c]} ∪ out))
  | _ => client_inv (mkCstate ch w out)
  end.

Lemma give_back_balanced out ch w c u err e : (∀ d, e ≠ Holding d) → c ∉ out → client_inv (mkCstate ch w ({[c]} ∪ out)) →
  balanced out (give_back ch (use_conn w c u) c err e).
Proof.
  intros He Hc Hi ch' w' e' H. unfold give_back in H.
  destruct (release ch (use_conn w c u) c err) as [[ch1 w1]|] eqn:Er; [|done]. simpl in H. injection H as <- <- <-.
  apply (release_inv _ _ ({[c]} ∪ out)) in Er; [|apply use_conn_inv; [done|set_solver]].
  replace (({[c]} ∪ out) ∖ {[c]}) with out in Er by set_solver. destruct e; try done. by destruct (He c0).
Qed.

Lemma acquired_balanced ch w out env k : client_inv (mkCstate ch w out) →
  (∀ ch w c, c ∉ out → client_inv (mkCstate ch w ({[c]} ∪ out)) → balanced out (k ch w c)) → balanced out (acquired ch w env k).
Proof.
  intros Hi Hk ch' w' e H. unfold acquired in H. destruct (acquire ch w env) as [[[ch1 w1] r]|] eqn:Ea; [|done]. simpl in H.
  pose proof (acquire_inv _ _ _ _ _ _ _ Hi Ea) as Hinv. destruct r as [c|x]; [|by injection H as <- <- <-].
  destruct Hinv as [Hc Hinv]. exact (Hk ch1 w1 c Hc Hinv _ _ _ H).
Qed.

Lemma ended_of_not u d : ended_of u ≠ Holding d.
Proof. unfold ended_of. by destruct (u_failed u). Qed.

Lemma call_balanced op ch w out env : client_inv (mkCstate ch w out) → keeps_token op = false → balanced out (client_call op ch w env).
Proof.
  intros Hi Hk.
  assert (∀ u, balanced out (client_Query ch w env u)) as HQ.
  { intros u. apply acquired_balanced; [done|]. intros ch1 w1 c Hc H1. destruct (u_failed u); [by apply give_back_balanced|].
    intros ? ? ? [= <- <- <-]. split; [done|]. apply use_conn_inv; [done|set_solver]. }
  destruct op as [u|u|u|async ua u|u refused|u|u]; simpl in *; try apply HQ;
    try (apply acquired_balanced; [done|]; intros ch1 w1 c Hc H1; apply give_back_balanced; [apply ended_of_not|done|done]).
  subst refused. apply HQ.
Qed.

(** A refused batch takes a connection that nobody holds. *)
Lemma refused_takes ch w out env u : client_inv (mkCstate ch w out) → ∀ ch' w' e,
  client_call (OpPrepareBatch u true) ch w env = Some (ch', w', e) →
  (∃ x, e = NoConn x ∧ client_inv (mkCstate ch' w' out))
  ∨ (e = OpFailed ∧ ∃ c, acquire ch w env = Some (ch', w', Ok c) ∧ (c ∉ out) ∧ client_inv (mkCstate ch' w' ({[c]} ∪ out))).
Proof.
  intros Hi ch' w' e H. simpl in H. unfold client_PrepareBatch, acquired in H.
  destruct (acquire ch w env) as [[[ch1 w1] r]|] eqn:Ea; [|done]. simpl in H.
  pose proof (acquire_inv _ _ _ _ _ _ _ Hi Ea) as Hinv. destruct r as [c|x]; injection H as <- <- <-.
  - right. split; [done|]. by exists c.
  - left. by exists x.
Qed.

(** The client in the middle of a history: the connections that are out, those of them that
    a refused batch took and nobody can give back, and how many batches were refused. *)
Record history := MkHistory { h_state : cstate; h_lost : gset nat; h_refused : nat }.

(** Rows and batches in progress give their connection back at their end, and may do so more
    than once; goroutines of the pool and [Close] run in between. *)
Inductive call_step : history → history → Prop :=
| CallEnds op env s lost n ch w e :
    client_call op (cs_ch s) (cs_w s) env = Some (ch, w, e) → (∀ c, e ≠ Holding c) →
    keeps_token op = false ∨ e ≠ OpFailed →
    call_step (MkHistory s lost n) (MkHistory (mkCstate ch w (cs_out s)) lost n)
| CallHolds op env s lost n ch w c :
    client_call op (cs_ch s) (cs_w s) env = Some (ch, w, Holding c) →
    call_step (MkHistory s lost n) (MkHistory (mkCstate ch w ({[c]} ∪ cs_out s)) lost n)
| CallRefused u env s lost n ch w c :
    client_call (OpPrepareBatch u true) (cs_ch s) (cs_w s) env = Some (ch, w, OpFailed) →
    acquire (cs_ch s) (cs_w s) env = Some (ch, w, Ok c) →
    call_step (MkHistory s lost n) (MkHistory (mkCstate ch w ({[c]} ∪ cs_out s)) ({[c]} ∪ lost) (S n))
| HolderEnds s lost n c err ch w :
    c ∉ lost → release (cs_ch s) (cs_w s) c err = Some (ch, w) →
    call_step (MkHistory s lost n) (MkHistory (mkCstate ch w (cs_out s ∖ {[c]})) lost n)
| PoolDrains s lost n p w :
    drainPool (ch_idle (cs_ch s)) (cs_w s) = Some (p, w) →
    call_step (MkHistory s lost n) (MkHistory (mkCstate (with_idle (cs_ch s) p) w (cs_out s)) lost n)
| ClosesIdle s lost n ch w : Close_idle (cs_ch s) (cs_w s) = Some (ch, w) →
    call_step (MkHistory s lost n) (MkHistory (mkCstate ch w (cs_out s)) lost n)
| ClosesFlag s lost n : ch_closeOnce (cs_ch s) = true →
    call_step (MkHistory s lost n) (MkHistory (mkCstate (Close_flag (cs_ch s)) (cs_w s) (cs_out s)) lost n).

Definition history_inv (h : history) : Prop :=
  client_inv (h_state h) ∧ h_lost h ⊆ cs_out (h_state h) ∧ size (h_lost h) = h_refused h.

(** A call that is no refused batch. *)
Lemma call_ends op ch w out env ch' w' e : client_inv (mkCstate ch w out) → client_call op ch w env = Some (ch', w', e) →
  (∀ c, e ≠ Holding c) → keeps_token op = false ∨ e ≠ OpFailed → client_inv (mkCstate ch' w' out).
Proof.
  intros Hi Hc He Hk. destruct (keeps_token op) eqn:Ek.
  - destruct op as [| | | |u []| |]; try done.
    destruct (refused_takes _ _ _ _ _ Hi _ _ _ Hc) as [(x & _ & H)|[-> _]]; [done|]. by destruct Hk.
  - pose proof (call_balanced op ch w out env Hi Ek _ _ _ Hc) as Hb. destruct e; try done. by destruct (He c).
Qed.

Lemma call_holds op ch w out env ch' w' c : client_inv (mkCstate ch w out) → client_call op ch w env = Some (ch', w', Holding c) →
  client_inv (mkCstate ch' w' ({[c]} ∪ out)).
Proof.
  intros Hi Hc. destruct (keeps_token op) eqn:Ek.
  - destruct op as [| | | |u []| |]; try done. by destruct (refused_takes _ _ _ _ _ Hi _ _ _ Hc) as [(x & [=] & _)|[[=] _]].
  - by destruct (call_balanced op ch w out env Hi Ek _ _ _ Hc).
Qed.

Lemma call_step_inv h h' : history_inv h → call_step h h' → history_inv h'.
Proof.
  intros (Hi & Hl & Hn) Hs. inversion Hs as [op env [ch0 w0 out] lost n ch w e Hc He Hk|op env [ch0 w0 out] lost n ch w c Hc
    |u env [ch0 w0 out] lost n ch w c Hc Ha|[ch0 w0 out] lost n c err ch w Hc Hr|[ch0 w0 out] lost n p w Hd
    |[ch0 w0 out] lost n ch w Hc|[ch0 w0 out] lost n Hc]; subst; unfold history_inv in *; simpl in *.
  - split; [by eapply call_ends|done].
  - split; [by eapply call_holds|]. split; [set_solver|done].
  - destruct (refused_takes _ _ _ _ _ Hi _ _ _ Hc) as [(x & [=] & _)|(_ & d & Ha' & Hd & Hinv)].
    rewrite Ha in Ha'. injection Ha' as <-. split; [done|]. split; [set_solver|].
    rewrite size_union by set_solver. by rewrite size_singleton, Hn.
  - split; [eapply client_inv_step; [exact Hi|]; by eapply SRelease|]. split; [set_solver|done].
  - split; [eapply client_inv_step; [exact Hi|]; by eapply SDrain|done].
  - split; [eapply client_inv_step; [exact Hi|]; by eapply SCloseIdle|done].
  - split; [eapply client_inv_step; [exact Hi|]; by eapply SCloseFlag|done].
Qed.

(** C28: The operations of the client give back what they take, with one exception. In every
    history of calls, failing and succeeding, the number of open connections is the number
    of rows and batches in progress plus the number of calls of [PrepareBatch] that took a
    connection and were then refused because the statement is no INSERT, for which the code
    gives nothing back ([refused_batches_block]); it is at most the limit, and zero when
    nothing is in progress and no batch was refused. *)
Theorem operations_give_back (o : options) (clock : nat → Z) (h : history) :
  rtc call_step (MkHistory (client_init o clock) ∅ 0) h →
  let in_progress := cs_out (h_state h) ∖ h_lost h in
  let open := st_Open (Stats (cs_ch (h_state h))) in
  open = size in_progress + h_refused h ∧ open ≤ st_MaxOpenConns (Stats (cs_ch (h_state h)))
  ∧ (in_progress = ∅ → h_refused h = 0 → open = 0).
Proof.
  intros Hr. assert (history_inv h) as ([_ Ho Hm] & Hl & Hn).
  { assert (history_inv (MkHistory (client_init o clock) ∅ 0)) as Hi by (split; [apply client_inv_init|done]).
    induction Hr; eauto using call_step_inv. }
  simpl. rewrite Ho in *. rewrite (size_difference _ _ Hl), Hn. pose proof (subseteq_size _ _ Hl) as Hsz. rewrite Hn in Hsz.
  split; [lia|]. split; [done|]. intros E E0.
  assert (cs_out (h_state h) = ∅) as ->; [|by rewrite size_empty]. rewrite E0 in Hn. apply size_empty_inv in Hn.
  apply leibniz_equiv. set_solver.
Qed.

(** ** An example, and the exception *)

Definition demo_ok : use := MkUse false false true false.
Definition demo_bad : use := MkUse false false true true.

Definition demo_empty : clickhouse * world := (Open demo_options, mkWorld ∅ demo_clock 0).

(** The history: a query that succeeds and keeps its connection. *)
Lemma operations_give_back_witness :
  ∃ ch w, client_call (OpQuery demo_ok) (Open demo_options) (mkWorld ∅ demo_clock 0) demo_env = Some (ch, w, Holding 1)
    ∧ st_Open (Stats ch) = 1.
Proof.
  eexists _, _. split; [reflexivity|].
  match goal with |- st_Open (Stats ?ch) = _ =>
    destruct (operations_give_back demo_options demo_clock
      (MkHistory (mkCstate ch (use_conn demo_w1 1 demo_ok) ({[1]} ∪ ∅)) ∅ 0)) as (H & _) end.
  - apply rtc_once. by apply (CallHolds (OpQuery demo_ok) demo_env (client_init demo_options demo_clock)).
  - exact H.
Defined.

(** The ends of calls one after another, and the open connections then. *)
Fixpoint demo_calls (ops : list client_op) (ch : clickhouse) (w : world) : option (list ended * nat) :=
  match ops with
  | [] => Some ([], ch_open ch)
  | op :: ops => '(ch, w, e) ← client_call op ch w demo_env; '(es, n) ← demo_calls ops ch w; Some (e :: es, n)
  end.

(** Failing operations leave nothing open; two refused batches use up the limit of two, and
    the next call blocks. *)
Lemma refused_batches_block :
  demo_calls [OpExec false demo_ok demo_bad; OpPing demo_bad; OpQuery demo_bad; OpPrepareBatch demo_bad false]
    demo_empty.1 demo_empty.2 = Some (replicate 4 OpFailed, 0)
  ∧ demo_calls (replicate 2 (OpPrepareBatch demo_ok true)) demo_empty.1 demo_empty.2 = Some (replicate 2 OpFailed, 2)
  ∧ demo_calls (replicate 2 (OpPrepareBatch demo_ok true) ++ [OpPing demo_ok]) demo_empty.1 demo_empty.2 = None.
Proof. by vm_compute. Qed.
