(* ===== verification/CityHash.v ===== *)
(** * CityHash 1.0.2 ([lib/cityhash102])

    The checksum of the native protocol's compressed blocks.  [CityHash] follows
    [cityhash.go] function by function: 64-bit words are [Z] with the wrap-around
    written out, a read past the end of the slice is a panic ([None]), the three
    loops carry fuel.  [City64] is the [hash.Hash64] of [city64.go].

    The main theorem says that for [length <= len(s)] the functions return, that the
    result is a 64-bit (128-bit) value and that it depends on the first [length]
    bytes only.  The vectors are those of [testdata/hashs.txt]. *)

From Stdlib Require Import ZifyBool.
From S2P Require Import Prelude.
Local Open Scope Z_scope.

(** ** 64-bit arithmetic *)

Declare Scope u64_scope.
Delimit Scope u64_scope with u64.
Notation "a +! b" := (u64 (a + b)) (at level 50, left associativity) : u64_scope.
Notation "a -! b" := (u64 (a - b)) (at level 50, left associativity) : u64_scope.
Notation "a *! b" := (u64 (a * b)) (at level 40, left associativity) : u64_scope.
Notation "a ^! b" := (Z.lxor a b) (at level 50, left associativity) : u64_scope.
Local Open Scope u64_scope.

(** [x << k] and [x >> k] on [uint64]: a count of 64 or more gives 0. *)
Definition shl64 (x k : Z) : Z := u64 (Z.shiftl x k).
Definition shr64 (x k : Z) : Z := Z.shiftr x k.

Definition k0 : Z := 0xc3a5c85c97cb3127.
Definition k1 : Z := 0xb492b66fbe98f273.
Definition k2 : Z := 0x9ae16a3b2f90404f.
Definition k3 : Z := 0xc949d7c7509e6557.
Definition kMul : Z := 0x9ddfea08eb382d69.

(** ** Reads *)

(** [binary.LittleEndian.Uint64(p)] panics when [len(p) < 8]. *)
Definition fetch64 (p : gostring) : option Z :=
  if decide (8 ≤ length p)%nat then Some (le_get (take 8 p)) else None.

Definition fetch32 (p : gostring) : option Z :=
  if decide (4 ≤ length p)%nat then Some (le_get (take 4 p)) else None.

(** [s[off:]] with an unsigned offset. *)
Definition from (s : gostring) (off : Z) : option gostring := slice_from s (Z.to_nat off).

Definition fetch64_at (s : gostring) (off : Z) : option Z := p ← from s off; fetch64 p.
Definition fetch32_at (s : gostring) (off : Z) : option Z := p ← from s off; fetch32 p.

(** [uint8(s[off])]. *)
Definition byte_at (s : gostring) (off : Z) : option Z := bz <$> s !! Z.to_nat off.

(** ** Mixing *)

Definition rotate64 (val shift : Z) : Z :=
  if shift =? 0 then val else Z.lor (shr64 val shift) (shl64 val (u32 (64 - shift))).

Definition rotate64ByAtLeast1 (val shift : Z) : Z :=
  Z.lor (shr64 val shift) (shl64 val (u32 (64 - shift))).

Definition shiftMix (val : Z) : Z := val ^! shr64 val 47.

(** [type Uint128 [2]uint64]. *)
Record Uint128 := U128 { Lower64 : Z; Higher64 : Z }.

#[global] Instance Uint128_eq_dec : EqDecision Uint128.
Proof. solve_decision. Defined.

Definition setLower64 (x : Uint128) (l : Z) : Uint128 := U128 l (Higher64 x).
Definition setHigher64 (x : Uint128) (h : Z) : Uint128 := U128 (Lower64 x) h.

(** [Uint128.Bytes]: both halves little endian, the lower half first. *)
Definition Uint128_Bytes (x : Uint128) : gostring := le_put 8 (Lower64 x) ++ le_put 8 (Higher64 x).

Definition hash128to64 (x : Uint128) : Z :=
  let a := (Lower64 x ^! Higher64 x) *! kMul in
  let a := a ^! shr64 a 47 in
  let b := (Higher64 x ^! a) *! kMul in
  let b := b ^! shr64 b 47 in
  b *! kMul.

Definition hashLen16 (u v : Z) : Z := hash128to64 (U128 u v).

Definition hashLen16_3 (u v mul : Z) : Z :=
  let a := (u ^! v) *! mul in
  let a := a ^! shr64 a 47 in
  let b := (v ^! a) *! mul in
  let b := b ^! shr64 b 47 in
  b *! mul.

(** ** Short inputs *)

Definition hashLen0to16 (s : gostring) (n : Z) : option Z :=
  if 8 <? n then
    a ← fetch64_at s 0;
    b ← fetch64_at s (u32 (n - 8));
    Some (hashLen16 a (rotate64ByAtLeast1 (b +! n) n) ^! b)
  else if 4 <=? n then
    a ← fetch32_at s 0;
    e ← fetch32_at s (u32 (n - 4));
    Some (hashLen16 (n +! shl64 a 3) e)
  else if 0 <? n then
    a ← byte_at s 0;
    b ← byte_at s (Z.shiftr n 1);
    c ← byte_at s (u32 (n - 1));
    let y := u32 (a + u32 (Z.shiftl b 8)) in
    let z := u32 (n + u32 (Z.shiftl c 2)) in
    Some (shiftMix ((y *! k2) ^! (z *! k3)) *! k2)
  else Some k2.

Definition hashLen17to32 (s : gostring) (n : Z) : option Z :=
  fa ← fetch64_at s 0;
  b ← fetch64_at s 8;
  fc ← fetch64_at s (u32 (n - 8));
  fd ← fetch64_at s (u32 (n - 16));
  let a := fa *! k1 in
  let c := fc *! k2 in
  let d := fd *! k0 in
  Some (hashLen16 (rotate64 (a -! b) 43 +! rotate64 c 30 +! d)
                  (a +! rotate64 (b ^! k3) 20 -! c +! n)).

Definition weakHashLen32WithSeeds (w x y z a b : Z) : Uint128 :=
  let a := a +! w in
  let b := rotate64 (b +! a +! z) 21 in
  let c := a in
  let a := a +! x in
  let a := a +! y in
  let b := b +! rotate64 a 44 in
  U128 (a +! z) (b +! c).

Definition weakHashLen32WithSeeds_3 (s : gostring) (a b : Z) : option Uint128 :=
  f0 ← fetch64_at s 0;
  f8 ← fetch64_at s 8;
  f16 ← fetch64_at s 16;
  f24 ← fetch64_at s 24;
  Some (weakHashLen32WithSeeds f0 f8 f16 f24 a b).

Definition hashLen33to64 (s : gostring) (n : Z) : option Z :=
  z ← fetch64_at s 24;
  f0 ← fetch64_at s 0;
  e16 ← fetch64_at s (u32 (n - 16));
  let a := f0 +! ((n +! e16) *! k0) in
  let b := rotate64 (a +! z) 52 in
  let c := rotate64 a 37 in
  f8 ← fetch64_at s 8;
  let a := a +! f8 in
  let c := c +! rotate64 a 7 in
  f16 ← fetch64_at s 16;
  let a := a +! f16 in
  let vf := a +! z in
  let vs := b +! rotate64 a 31 +! c in
  e32 ← fetch64_at s (u32 (n - 32));
  let a := f16 +! e32 in
  z ← fetch64_at s (u32 (n - 8));
  let b := rotate64 (a +! z) 52 in
  let c := rotate64 a 37 in
  e24 ← fetch64_at s (u32 (n - 24));
  let a := a +! e24 in
  let c := c +! rotate64 a 7 in
  let a := a +! e16 in
  let wf := a +! z in
  let ws := b +! rotate64 a 31 +! c in
  let r := shiftMix ((vf +! ws) *! k2 +! (wf +! vs) *! k0) in
  Some (shiftMix (r *! k0 +! vs) *! k2).

(** ** The 56 bytes of state and the 64-byte round *)

Record cstate := CState { cv : Uint128; cw : Uint128; cx : Z; cy : Z; cz : Z }.

(** The loop body of [CityHash64]: one 64-byte block. *)
Definition city_round (s : gostring) (q : cstate) : option cstate :=
  let '(CState v w x y z) := q in
  f16 ← fetch64_at s 16;
  let x := rotate64 (x +! y +! Lower64 v +! f16) 37 *! k1 in
  f48 ← fetch64_at s 48;
  let y := rotate64 (y +! Higher64 v +! f48) 42 *! k1 in
  let x := x ^! Higher64 w in
  let y := y ^! Lower64 v in
  let z := rotate64 (z ^! Lower64 w) 33 in
  v ← weakHashLen32WithSeeds_3 s (Higher64 v *! k1) (x +! Lower64 w);
  s32 ← from s 32;
  w ← weakHashLen32WithSeeds_3 s32 (z +! Higher64 w) y;
  Some (CState v w z y x).

(** [for { body; s = s[64:]; length -= 64; if length == 0 { break } }]. *)
Fixpoint CityHash64_loop (fuel : nat) (s : gostring) (n : Z) (q : cstate) : option cstate :=
  match fuel with
  | O => None
  | S fuel =>
      q ← city_round s q;
      s ← from s 64;
      let n := u32 (n - 64) in
      if n =? 0 then Some q else CityHash64_loop fuel s n q
  end.

(** Every round drops 64 bytes of [s], so [len(s)] rounds are more than can run. *)
Definition loop_fuel (s : gostring) : nat := S (length s).

Definition CityHash64 (s : gostring) (n : Z) : option Z :=
  if n <=? 32 then
    if n <=? 16 then hashLen0to16 s n else hashLen17to32 s n
  else if n <=? 64 then hashLen33to64 s n
  else
    x ← fetch64_at s 0;
    e16 ← fetch64_at s (u32 (n - 16));
    let y := e16 ^! k1 in
    e56 ← fetch64_at s (u32 (n - 56));
    let z := e56 ^! k0 in
    s64 ← from s (u32 (n - 64));
    v ← weakHashLen32WithSeeds_3 s64 n y;
    s32 ← from s (u32 (n - 32));
    w ← weakHashLen32WithSeeds_3 s32 (n *! k1) k0;
    let z := z +! (shiftMix (Higher64 v) *! k1) in
    let x := rotate64 (z +! x) 39 *! k1 in
    let y := rotate64 y 33 *! k1 in
    let n := Z.ldiff (u32 (n - 1)) 63 in
    '(CState v w x y z) ← CityHash64_loop (loop_fuel s) s n (CState v w x y z);
    Some (hashLen16 (hashLen16 (Lower64 v) (Lower64 w) +! (shiftMix y *! k1) +! z)
                    (hashLen16 (Higher64 v) (Higher64 w) +! x)).

Definition CityHash64WithSeeds (s : gostring) (n seed0 seed1 : Z) : option Z :=
  h ← CityHash64 s n;
  Some (hashLen16 (h -! seed0) seed1).

Definition CityHash64WithSeed (s : gostring) (n seed : Z) : option Z :=
  CityHash64WithSeeds s n k2 seed.

(** ** 128 bits *)

(** [for { ...; s = s[16:]; l -= 16; if l <= 0 { break } }] of [cityMurmur];
    the state is [(a, b, c, d)]. *)
Fixpoint cityMurmur_loop (fuel : nat) (s : gostring) (l : Z) (a b c d : Z)
    : option (Z * Z * Z * Z) :=
  match fuel with
  | O => None
  | S fuel =>
      f0 ← fetch64_at s 0;
      let a := a ^! (shiftMix (f0 *! k1) *! k1) in
      let a := a *! k1 in
      let b := b ^! a in
      f8 ← fetch64_at s 8;
      let c := c ^! (shiftMix (f8 *! k1) *! k1) in
      let c := c *! k1 in
      let d := d ^! c in
      s ← from s 16;
      let l := i32 (l - 16) in
      if l <=? 0 then Some (a, b, c, d) else cityMurmur_loop fuel s l a b c d
  end.

Definition cityMurmur (s : gostring) (n : Z) (seed : Uint128) : option Uint128 :=
  let a := Lower64 seed in
  let b := Higher64 seed in
  let l := i32 (i32 n - 16) in
  '(a, b, c, d) ←
    (if l <=? 0 then
       let a := shiftMix (a *! k1) *! k1 in
       h ← hashLen0to16 s n;
       let c := (b *! k1) +! h in
       d ← (if 8 <=? n then f ← fetch64_at s 0; Some (shiftMix (a +! f))
            else Some (shiftMix (a +! c)));
       Some (a, b, c, d)
     else
       e8 ← fetch64_at s (u32 (n - 8));
       let c := hashLen16 (e8 +! k1) a in
       e16 ← fetch64_at s (u32 (n - 16));
       let d := hashLen16 (b +! n) (c +! e16) in
       let a := a +! d in
       cityMurmur_loop (loop_fuel s) s l a b c d);
  let a := hashLen16 a c in
  let b := hashLen16 d b in
  Some (U128 (a ^! b) (hashLen16 b a)).

(** The body of the main loop of [CityHash128WithSeed], written out twice as in the
    source; the result carries [s[128:]]. *)
Definition CityHash128_body (s : gostring) (q : cstate) : option (gostring * cstate) :=
  let '(CState v w x y z) := q in
  f16 ← fetch64_at s 16;
  let x := rotate64 (x +! y +! Lower64 v +! f16) 37 *! k1 in
  f48 ← fetch64_at s 48;
  let y := rotate64 (y +! Higher64 v +! f48) 42 *! k1 in
  let x := x ^! Higher64 w in
  let y := y ^! Lower64 v in
  let z := rotate64 (z ^! Lower64 w) 33 in
  v ← weakHashLen32WithSeeds_3 s (Higher64 v *! k1) (x +! Lower64 w);
  s32 ← from s 32;
  w ← weakHashLen32WithSeeds_3 s32 (z +! Higher64 w) y;
  let '(z, x) := (x, z) in
  s ← from s 64;
  f16 ← fetch64_at s 16;
  let x := rotate64 (x +! y +! Lower64 v +! f16) 37 *! k1 in
  f48 ← fetch64_at s 48;
  let y := rotate64 (y +! Higher64 v +! f48) 42 *! k1 in
  let x := x ^! Higher64 w in
  let y := y ^! Lower64 v in
  let z := rotate64 (z ^! Lower64 w) 33 in
  v ← weakHashLen32WithSeeds_3 s (Higher64 v *! k1) (x +! Lower64 w);
  s32 ← from s 32;
  w ← weakHashLen32WithSeeds_3 s32 (z +! Higher64 w) y;
  let '(z, x) := (x, z) in
  s ← from s 64;
  Some (s, CState v w x y z).

(** The loop returns the remaining [length], [pos] and the state. *)
Fixpoint CityHash128_loop (fuel : nat) (s : gostring) (pos n : Z) (q : cstate)
    : option (Z * Z * cstate) :=
  match fuel with
  | O => None
  | S fuel =>
      '(s, q) ← CityHash128_body s q;
      let pos := u32 (u32 (pos + 64) + 64) in
      let n := u32 (n - 128) in
      if n <? 128 then Some (pos, n, q) else CityHash128_loop fuel s pos n q
  end.

(** [for tailDone = 0; tailDone < length; { tailDone += 32; ... }]: at most four
    chunks remain, since [length < 128]. *)
Fixpoint CityHash128_tail (fuel : nat) (t : gostring) (pos n tailDone : Z) (q : cstate)
    : option cstate :=
  if tailDone <? n then
    match fuel with
    | O => None
    | S fuel =>
        let '(CState v w x y z) := q in
        let tailDone := u32 (tailDone + 32) in
        let y := (rotate64 (y -! x) 42 *! k0) +! Higher64 v in
        f ← fetch64_at t (u32 (u32 (u32 (pos + n) - tailDone) + 16));
        let w := setLower64 w (Lower64 w +! f) in
        let x := (rotate64 x 49 *! k0) +! Lower64 w in
        let w := setLower64 w (Lower64 w +! Lower64 v) in
        p ← from t (u32 (u32 (pos + n) - tailDone));
        v ← weakHashLen32WithSeeds_3 p (Lower64 v) (Higher64 v);
        CityHash128_tail fuel t pos n tailDone (CState v w x y z)
    end
  else Some q.

Definition CityHash128WithSeed (s : gostring) (n : Z) (seed : Uint128) : option Uint128 :=
  if n <? 128 then cityMurmur s n seed
  else
    let x := Lower64 seed in
    let y := Higher64 seed in
    let z := n *! k1 in
    let t := s in
    f0 ← fetch64_at s 0;
    let v := U128 ((rotate64 (y ^! k1) 49 *! k1) +! f0) 0 in
    f8 ← fetch64_at s 8;
    let v := setHigher64 v ((rotate64 (Lower64 v) 42 *! k1) +! f8) in
    let w := U128 ((rotate64 (y +! z) 35 *! k1) +! x) 0 in
    f88 ← fetch64_at s 88;
    let w := setHigher64 w (rotate64 (x +! f88) 53 *! k1) in
    '(pos, n, CState v w x y z) ← CityHash128_loop (loop_fuel s) s 0 n (CState v w x y z);
    let y := y +! ((rotate64 (Lower64 w) 37 *! k0) +! z) in
    let x := x +! (rotate64 (Lower64 v +! z) 49 *! k0) in
    '(CState v w x y z) ← CityHash128_tail 4 t pos n 0 (CState v w x y z);
    let x := hashLen16 x (Lower64 v) in
    let y := hashLen16 y (Lower64 w) in
    Some (U128 (hashLen16 (x +! Higher64 v) (Higher64 w) +! y)
               (hashLen16 (x +! Higher64 w) (y +! Higher64 v))).

Definition CityHash128 (s : gostring) (n : Z) : option Uint128 :=
  if 16 <=? n then
    s' ← slice s 16 (Z.to_nat n);
    f0 ← fetch64_at s 0;
    f8 ← fetch64_at s 8;
    CityHash128WithSeed s' (u32 (n - 16)) (U128 (f0 ^! k3) f8)
  else if 8 <=? n then
    f0 ← fetch64_at s 0;
    e8 ← fetch64_at s (u32 (n - 8));
    CityHash128WithSeed [] 0 (U128 (f0 ^! (n *! k0)) (e8 ^! k1))
  else CityHash128WithSeed s n (U128 k0 k1).

(** ** [City64], the streaming hasher *)

Module City64.
Record t := MkCity64 { cs : gostring }.
Definition New64 : t := MkCity64 [].
Definition Sum64 (h : t) : option Z := CityHash64 (cs h) (u32 (Z.of_nat (length (cs h)))).
(** [binary.BigEndian.PutUint64] into a fresh buffer, appended to [b]. *)
Definition Sum (h : t) (b : gostring) : option gostring :=
  x ← Sum64 h; Some (b ++ reverse (le_put 8 x)).
Definition Reset (h : t) : t := MkCity64 (take 0 (cs h)).
Definition Write (h : t) (s : gostring) : Z * t := (Z.of_nat (length s), MkCity64 (cs h ++ s)).
Definition BlockSize : Z := 1.
Definition Size : Z := 8.
End City64.

(** Vectors of [testdata/hashs.txt], one or more per branch of the hash. *)
Definition vectors : list (gostring * Uint128) :=
  [ (str "I",
     U128 0x3a4a285c94f1936e 0x18115b183f326829);
    (str "uM4",
     U128 0xf567f556f5e83547 0xa5c90efc9fbfd1f4);
    (str "EqO2w",
     U128 0xa860dc368778e5cc 0x4fd9ba7de405e7d2);
    (str "nYUkHfL",
     U128 0x1a5dcb41c6c5af4b 0x6e6fb2894e712ca0);
    (str "hgshOXeh",
     U128 0x3d827f87ef026cde 0xdb3ea59195083762);
    (str "jq4yNr2sh",
     U128 0x2f6dc419deac4528 0x2ac6994229cb757c);
    (str "ikMYpqGCRNf8lu",
     U128 0x5c28ef61e44ca61c 0x3cf4e536bb86eb23);
    (str "vG5lApCgvf0qHGSi0",
     U128 0x9b4e57c5f1bc0e44 0x94238ef9d1584336);
    (str "y2JxfVmFTDCc5E8j6SyJ",
     U128 0x55dbda31fd73db4f 0xe93b771a2f3821ea);
    (str "2c53ou51Qd5AWVAAghLst7UXjUgp",
     U128 0x40e958d0910b4bd7 0x9712c0e9c3546738);
    (str "Gv46ueHUXbDvkTiKLlYotjhYAgb3kS2WB",
     U128 0x7a3ba1d735c6cd5e 0x6122b267103409e0);
    (str "vZrclsuKwspZGRbuzqwDPfScRqQyjBtUHvDAYY2bAbuU0LZz",
     U128 0x4d50f1f33352a2c4 0x8ca347684086c2db);
    (str "HhoCWacre4DARNRcdsHnXGsHnanwvEXjDfjWcBDDMMknTTfvjMwSQTUGM3wfyWLFzerkYYzMGtx39KJH",
     U128 0x85ac3f10538b4ba3 0x72976d6686ec973c);
    (str "yAWO2qGgsX9sDMCwgVoZc6JiEBHNvnO5flnGjwx0jj1b54VYEdUeox5KgrDKMOJe2kF08StGwtElfNxTUccCIFbiN3LmtVrVps4MScfkE5G7KTfHcJHRpYJY7rSlfyh5",
     U128 0x6b818e4caac9641c 0x8d575710f793d15a);
    (str "yW6892pMW2Su5CUvdzCqqNvaBS59r2YhQpFOfbu4vNEVy3N5uwPnIiLQ0RBbJIxrAD2MU14cgVIkGtOhyX8sH6ufvlGd5QgGj8LfKof4I4dERLprPLfB1wrCeXrwwSrTFBS29m3BmtaAvQHPw",
     U128 0x27d37633662765f3 0x8f5d8cb982811b75);
    (str "amskKvSAzcFSmwnnu8tV6ZSzr5Atbe5WAtr6rm2VJm7Yj7nGTUwJSByOmUNc0ngOD4loCmoCPdttVzN5knV8q0iGix2yuiRkXdU3ynTq9SmXycENoya3sB9mjRsxUxQRj9rN9Bf70fvcxXyxY7WynKh4CQsnvyCK3dVpX4A2s3q1NPt82",
     U128 0xd1e4a5b9f867f8d2 0xb3046029bea1013f);
    (str "xQWq0NiV2qpxElo8AN74eKh5xJO8o0oGm5G85H6crxLDhScBjeK2XoqIv3SwB99yocLBiX8uDS4yTGH8DKjjok1Dtjcxrv5oKcgkb5Lt5N2TicbpiIE9mbAK8Kb9tsjrZIPGN8zVoDSGCxt1CD0KBVmjQvnBRnLJkTIf2E6mySMh2GgHUywqcwU2cwS21jQ7CIL5WjjEYlcJBqLa7P3iC",
     U128 0x42d359c4a4e85aa 0x31545eecb86a7b4b);
    (str "JP0JU7tcC01Ew5bT2NpRcl2jhwpEwOoRQbGQVXLmEsTJW5oA1F27X9ZOV81sdLGP1DbWyjCbxWRdDsmU0Wzx7q9CS9k7q0SRj2DsOaKPNaGWsgrjDeCOB7vYvkg1ndgzq53gEB1UoEmaVCpH3X1mxYrMDW7WXWr6f5E4gl4VVBYYXs2zFovjkNJAva3A1Bv0QanKhh8aAtLsoOjLSjMjunMjeRTHHEklehA5scGxlawKXeftJV3eXQ5",
     U128 0xf32df2ba51d39658 0xce3ada783f8f5807);
    (str "tghm5A0Said5XssOcCHikhQegiTS6249z3C8gKOR1AvDJFxGwszy07RQD3QQnW3kblmSGxkfKfZVKXwhV2Lj5k81rNkapJVpgRY9NwxiXhdvt4ZgbcTMLiImlbFQp2yxsrnxP7Ya1SNdRHqGnj4thH2hae4r8EPw0JiAIVl7C93cgGoYbMtLzO1JXgOvI1tfHHManLnO9cENF8OQpfZWEPiYm9T55xFDiigKUgg5ZV8cbjGx5f86R6u7LRGpNva5mrhEHV5El9s0Za94ktH",
     U128 0x99fe7f5402f517f2 0xd3107c7e8edb6255) ].

(** ** Totality and locality

    [same P x y]: both computations return, they return the same value, and it
    satisfies [P]. *)
Definition same {A} (P : A → Prop) (x y : option A) : Prop :=
  ∃ v, x = Some v ∧ y = Some v ∧ P v.

Lemma same_ret {A} (P : A → Prop) v : P v → same P (Some v) (Some v).
Proof. by exists v. Qed.

Lemma same_bind {A B} (P : A → Prop) (Q : B → Prop) x y f g :
  same P x y → (∀ v, P v → same Q (f v) (g v)) → same Q (x ≫= f) (y ≫= g).
Proof. intros (v & -> & -> & HP) Hf. by apply Hf. Qed.

Lemma same_weaken {A} (P Q : A → Prop) x y : same P x y → (∀ v, P v → Q v) → same Q x y.
Proof. intros (v & ? & ? & ?) HPQ. exists v; auto. Qed.

(** Two byte strings that both have at least [n] bytes and agree on those. *)
Definition agree (n : Z) (s t : gostring) : Prop :=
  (Z.to_nat n ≤ length s)%nat ∧ (Z.to_nat n ≤ length t)%nat ∧
  take (Z.to_nat n) s = take (Z.to_nat n) t.

Definition word (z : Z) : Prop := 0 ≤ z < 2 ^ 64.
Definition word128 (x : Uint128) : Prop := word (Lower64 x) ∧ word (Higher64 x).

Lemma agree_drop n k s t :
  0 ≤ k ≤ n → agree n s t → agree (n - k) (drop (Z.to_nat k) s) (drop (Z.to_nat k) t).
Proof.
  intros Hk (Hs & Ht & E). split_and!.
  1-2: rewrite length_drop; lia.
  replace (Z.to_nat (n - k)) with (Z.to_nat n - Z.to_nat k)%nat by lia.
  by rewrite <- !skipn_firstn_comm, E.
Qed.

Lemma agree_le n m s t : 0 ≤ m ≤ n → agree n s t → agree m s t.
Proof.
  intros Hm (Hs & Ht & E). split_and!; [lia..|].
  assert (∀ u : gostring, take (Z.to_nat m) u = take (Z.to_nat m) (take (Z.to_nat n) u)) as Hx.
  { intros u. rewrite take_take. f_equal. lia. }
  by rewrite (Hx s), (Hx t), E.
Qed.

Lemma same_from n s t off :
  agree n s t → 0 ≤ off ≤ n →
  ∃ s' t', from s off = Some s' ∧ from t off = Some t' ∧ agree (n - off) s' t'
           ∧ s' = drop (Z.to_nat off) s.
Proof.
  intros Ha Ho. pose proof Ha as (Hs & Ht & _). unfold from.
  rewrite !slice_from_Some by lia. do 2 eexists. split; [done|]. split; [done|].
  split; [by apply agree_drop|done].
Qed.

Lemma same_fetch64 n s t : agree n s t → 8 ≤ n → same word (fetch64 s) (fetch64 t).
Proof.
  intros Ha Hn. apply (agree_le n 8) in Ha as (Hs & Ht & E); [|lia].
  unfold fetch64. rewrite !decide_True by lia.
  change (Z.to_nat 8) with 8%nat in *. rewrite E. apply same_ret.
  pose proof (le_get_range (take 8 t)) as Hr. rewrite length_take in Hr.
  rewrite Nat.min_l in Hr by lia. exact Hr.
Qed.

Lemma same_fetch64_at n s t off :
  agree n s t → 0 ≤ off ≤ n - 8 → same word (fetch64_at s off) (fetch64_at t off).
Proof.
  intros Ha Ho. destruct (same_from n s t off Ha) as (s' & t' & E1 & E2 & Ha' & _); [lia|].
  unfold fetch64_at. rewrite E1, E2. cbn [mbind option_bind].
  apply (same_fetch64 (n - off)); [done|lia].
Qed.

Lemma same_fetch32_at n s t off :
  agree n s t → 0 ≤ off ≤ n - 4 → same (λ _, True) (fetch32_at s off) (fetch32_at t off).
Proof.
  intros Ha Ho. destruct (same_from n s t off Ha) as (s' & t' & E1 & E2 & Ha' & _); [lia|].
  unfold fetch32_at. rewrite E1, E2. cbn [mbind option_bind].
  apply (agree_le _ 4) in Ha' as (Hs & Ht & E); [|lia].
  unfold fetch32. rewrite !decide_True by lia.
  change (Z.to_nat 4) with 4%nat in *. rewrite E. by apply same_ret.
Qed.

Lemma same_byte_at n s t off :
  agree n s t → 0 ≤ off < n → same (λ _, True) (byte_at s off) (byte_at t off).
Proof.
  intros (Hs & Ht & E) Ho. unfold byte_at.
  assert (s !! Z.to_nat off = t !! Z.to_nat off) as El.
  { rewrite <- (lookup_take_lt s (Z.to_nat n)), <- (lookup_take_lt t (Z.to_nat n)) by lia. by rewrite E. }
  rewrite El. destruct (lookup_lt_is_Some_2 t (Z.to_nat off)) as [b ->]; [lia|].
  by apply same_ret.
Qed.

Lemma hashLen16_word u v : word (hashLen16 u v).
Proof. apply u64_range. Qed.

Lemma lxor_word a b : word a → word b → word (Z.lxor a b).
Proof.
  intros [Ha Ha'] [Hb Hb']. assert (0 ≤ Z.lxor a b) by (apply Z.lxor_nonneg; lia).
  split; [done|]. destruct (Z.eq_dec (Z.lxor a b) 0) as [->|Hz]; [lia|].
  apply Z.log2_lt_pow2; [lia|]. pose proof (Z.log2_lxor a b Ha Hb).
  assert (∀ z, 0 ≤ z → z < 2 ^ 64 → Z.log2 z < 64) as Hl.
  { intros z Hz0 Hz1. destruct (Z.eq_dec z 0) as [->|]; [done|]. apply Z.log2_lt_pow2; lia. }
  pose proof (Hl a Ha Ha'); pose proof (Hl b Hb Hb'). lia.
Qed.

#[local] Hint Resolve hashLen16_word lxor_word u64_range : core.

(** Runs both computations in lock step: one read, one bind at a time. *)
Ltac offsets := unfold u32 in *; rewrite ?Z.mod_small by lia; lia.
Ltac lockstep :=
  repeat first
    [ progress intros
    | match goal with
      | |- same _ (fetch64_at _ _ ≫= _) _ =>
          eapply same_bind; [eapply same_fetch64_at; [eassumption|offsets]|]
      | |- same _ (fetch32_at _ _ ≫= _) _ =>
          eapply same_bind; [eapply same_fetch32_at; [eassumption|offsets]|]
      | |- same _ (byte_at _ _ ≫= _) _ =>
          eapply same_bind; [eapply same_byte_at; [eassumption|offsets]|]
      | |- same _ (Some _) (Some _) => apply same_ret
      end ].

Lemma same_hashLen0to16 n s t :
  agree n s t → 0 ≤ n ≤ 16 → same word (hashLen0to16 s n) (hashLen0to16 t n).
Proof.
  intros Ha Hn. unfold hashLen0to16.
  destruct (8 <? n) eqn:E8; [apply Z.ltb_lt in E8; lockstep; auto|].
  destruct (4 <=? n) eqn:E4; [apply Z.leb_le in E4; lockstep; auto|].
  destruct (0 <? n) eqn:E0.
  - apply Z.ltb_lt in E0. assert (0 ≤ Z.shiftr n 1 < n).
    { rewrite Z.shiftr_div_pow2 by lia. change (2 ^ 1) with 2.
      pose proof (Z.div_lt n 2). pose proof (Z.div_pos n 2). lia. }
    lockstep. apply u64_range.
  - apply same_ret. done.
Qed.

Lemma same_hashLen17to32 n s t :
  agree n s t → 17 ≤ n ≤ 32 → same word (hashLen17to32 s n) (hashLen17to32 t n).
Proof. intros Ha Hn. unfold hashLen17to32. lockstep. auto. Qed.

Lemma same_hashLen33to64 n s t :
  agree n s t → 33 ≤ n ≤ 64 → same word (hashLen33to64 s n) (hashLen33to64 t n).
Proof. intros Ha Hn. unfold hashLen33to64. lockstep. apply u64_range. Qed.

Lemma same_weak3 n s t a b :
  agree n s t → 32 ≤ n →
  same word128 (weakHashLen32WithSeeds_3 s a b) (weakHashLen32WithSeeds_3 t a b).
Proof.
  intros Ha Hn. unfold weakHashLen32WithSeeds_3. lockstep. split; apply u64_range.
Qed.

(** A 64-byte round and the loops. *)
Definition cword (q : cstate) : Prop := word128 (cv q) ∧ word128 (cw q).

Lemma same_round n s t q :
  agree n s t → 64 ≤ n → same cword (city_round s q) (city_round t q).
Proof.
  intros Ha Hn. destruct q as [v w x y z]. unfold city_round. lockstep.
  eapply same_bind; [eapply same_weak3; [done|lia]|intros v' Hv'].
  destruct (same_from n s t 32 Ha) as (s' & t' & -> & -> & Ha' & _); [lia|].
  cbn [mbind option_bind].
  eapply same_bind; [eapply same_weak3; [done|lia]|intros w' Hw'].
  apply same_ret. split; done.
Qed.

Lemma same_CityHash64_loop fuel1 fuel2 k s t q :
  agree (64 * Z.of_nat (S k)) s t → 64 * Z.of_nat (S k) < 2 ^ 32 →
  (k < fuel1)%nat → (k < fuel2)%nat →
  same cword (CityHash64_loop fuel1 s (64 * Z.of_nat (S k)) q)
             (CityHash64_loop fuel2 t (64 * Z.of_nat (S k)) q).
Proof.
  revert fuel1 fuel2 s t q. induction k as [|k IH]; intros [|f1] [|f2] s t q Ha Hn H1 H2; try lia.
  all: cbn [CityHash64_loop].
  all: eapply same_bind; [eapply same_round; [done|lia]|intros q' Hq'].
  all: destruct (same_from _ s t 64 Ha) as (s' & t' & -> & -> & Ha' & _); [lia|];
    cbn [mbind option_bind].
  - by apply same_ret.
  - unfold u32. rewrite Z.mod_small by lia.
    replace (64 * Z.of_nat (S (S k)) - 64) with (64 * Z.of_nat (S k)) in * by lia.
    destruct (64 * Z.of_nat (S k) =? 0) eqn:E; [lia|]. apply IH; [done|lia..].
Qed.

(** [(length - 1) & ^63]: the number of whole 64-byte rounds, times 64. *)
Lemma rounds_of n :
  64 < n < 2 ^ 32 →
  ∃ k, Z.ldiff (u32 (n - 1)) 63 = 64 * Z.of_nat (S k) ∧ 64 * Z.of_nat (S k) < n.
Proof.
  intros Hn. rewrite u32_small by lia. change 63 with (Z.ones 6).
  rewrite Z.ldiff_ones_r by lia. rewrite Z.shiftr_div_pow2, Z.shiftl_mul_pow2 by lia.
  change (2 ^ 6) with 64. pose proof (Z.div_mod (n - 1) 64).
  pose proof (Z.mod_pos_bound (n - 1) 64). exists (Z.to_nat ((n - 1) / 64 - 1)).
  assert (1 ≤ (n - 1) / 64) by (apply Z.div_le_lower_bound; lia). lia.
Qed.

Lemma same_CityHash64 n s t :
  agree n s t → 0 ≤ n < 2 ^ 32 → same word (CityHash64 s n) (CityHash64 t n).
Proof.
  intros Ha Hn. pose proof Ha as (Hs & Ht & _). unfold CityHash64.
  destruct (n <=? 32) eqn:E32; [destruct (n <=? 16) eqn:E16|destruct (n <=? 64) eqn:E64].
  - apply same_hashLen0to16; [done|lia].
  - apply same_hashLen17to32; [done|lia].
  - apply same_hashLen33to64; [done|lia].
  - lockstep.
    destruct (same_from n s t (u32 (n - 64)) Ha) as (s1 & t1 & -> & -> & Ha1 & _); [offsets|].
    destruct (same_from n s t (u32 (n - 32)) Ha) as (s2 & t2 & -> & -> & Ha2 & _); [offsets|].
    cbn [mbind option_bind]. rewrite !u32_small in Ha1, Ha2 by lia.
    eapply same_bind; [eapply same_weak3; [done|lia]|intros v' Hv'].
    eapply same_bind; [eapply same_weak3; [done|lia]|intros w' Hw'].
    destruct (rounds_of n) as (k & Ek & Hk); [lia|]. rewrite Ek.
    eapply same_bind; [|intros [????] ?; apply same_ret; auto].
    apply same_CityHash64_loop; unfold loop_fuel; [eapply agree_le; [|done]; lia|lia..].
Qed.

Lemma same_cityMurmur_loop fuel1 fuel2 s t l a b c d :
  agree (l + 16) s t → 0 < l < 2 ^ 31 → l < Z.of_nat fuel1 → l < Z.of_nat fuel2 →
  same (λ _, True) (cityMurmur_loop fuel1 s l a b c d) (cityMurmur_loop fuel2 t l a b c d).
Proof.
  revert fuel2 s t l a b c d.
  induction fuel1 as [|f1 IH]; intros [|f2] s t l a b c d Ha Hl H1 H2; try lia.
  cbn [cityMurmur_loop]. lockstep.
  destruct (same_from _ s t 16 Ha) as (s' & t' & -> & -> & Ha' & _); [lia|].
  cbn [mbind option_bind].
  rewrite i32_small by lia.
  destruct (l - 16 <=? 0) eqn:E; [by apply same_ret|].
  apply IH; [|lia..]. by replace (l - 16 + 16) with (l + 16 - 16) by lia.
Qed.

Lemma same_cityMurmur n s t seed :
  agree n s t → 0 ≤ n < 128 → same word128 (cityMurmur s n seed) (cityMurmur t n seed).
Proof.
  intros Ha Hn. pose proof Ha as (Hs & Ht & _). unfold cityMurmur.
  assert (i32 (i32 n - 16) = n - 16) as ->.
  { rewrite (i32_small n) by lia. apply i32_small; lia. }
  eapply (same_bind (λ _, True)).
  2:{ intros [[[a b] c] d] _. apply same_ret. split; simpl; auto. }
  destruct (n - 16 <=? 0) eqn:E.
  - eapply same_bind; [apply same_hashLen0to16; [done|lia]|intros h Hh].
    eapply (same_bind (λ _, True)); [|intros; by apply same_ret].
    destruct (8 <=? n) eqn:E8; lockstep; done.
  - lockstep. apply same_cityMurmur_loop; unfold loop_fuel; [|lia..].
    by replace (n - 16 + 16) with n by lia.
Qed.

(** The manually unrolled body is two rounds of the 64-bit loop. *)
Lemma CityHash128_body_rounds s q :
  CityHash128_body s q =
    (q1 ← city_round s q; s1 ← from s 64; q2 ← city_round s1 q1; s2 ← from s1 64; Some (s2, q2)).
Proof.
  destruct q as [v w x y z]. unfold CityHash128_body, city_round.
  repeat (match goal with
    | |- (?a ≫= _) = ((?a ≫= _) ≫= _) => destruct a; [cbn [mbind option_bind]|reflexivity]
    | |- (?a ≫= _) = (?a ≫= _) => destruct a; [cbn [mbind option_bind]|reflexivity]
    end).
  reflexivity.
Qed.

Lemma same_CityHash128_body n s t q :
  agree n s t → 128 ≤ n →
  ∃ q', CityHash128_body s q = Some (drop 128 s, q') ∧
        CityHash128_body t q = Some (drop 128 t, q') ∧ cword q'.
Proof.
  intros Ha Hn. rewrite !CityHash128_body_rounds.
  destruct (same_round n s t q Ha) as (q1 & -> & -> & _); [lia|].
  pose proof Ha as (Hs & Ht & _). cbn [mbind option_bind]. unfold from.
  rewrite !(slice_from_Some _ (Z.to_nat 64)) by lia. cbn [mbind option_bind].
  destruct (same_round (n - 64) (drop (Z.to_nat 64) s) (drop (Z.to_nat 64) t) q1)
    as (q2 & -> & -> & Hq2); [apply agree_drop; [lia|done]|lia|].
  cbn [mbind option_bind].
  rewrite !slice_from_Some by (rewrite length_drop; lia). cbn [mbind option_bind].
  exists q2. rewrite !drop_drop. done.
Qed.

Lemma same_CityHash128_loop fuel1 fuel2 s t pos n q :
  agree n s t → 128 ≤ n → 0 ≤ pos → pos + n < 2 ^ 32 →
  n < Z.of_nat fuel1 → n < Z.of_nat fuel2 →
  same (λ '(pos', n', q'), 0 ≤ n' < 128 ∧ pos' + n' = pos + n ∧ 128 + pos ≤ pos' ∧ cword q')
    (CityHash128_loop fuel1 s pos n q) (CityHash128_loop fuel2 t pos n q).
Proof.
  revert fuel2 s t pos n q.
  induction fuel1 as [|f1 IH]; intros [|f2] s t pos n q Ha Hn Hp Hpn H1 H2; try lia.
  cbn [CityHash128_loop].
  destruct (same_CityHash128_body n s t q Ha Hn) as (q' & -> & -> & Hq').
  cbn [mbind option_bind]. rewrite !u32_small by (rewrite ?u32_small; lia).
  destruct (n - 128 <? 128) eqn:E.
  - apply same_ret. split_and!; [lia..|done].
  - eapply same_weaken; [apply IH; [by apply (agree_drop n 128); [lia|]|lia..]|].
    intros [[pos' n'] q''] (?&?&?&?). split_and!; [lia..|done].
Qed.

Lemma same_CityHash128_tail fuel t t' pos n tailDone q :
  agree (pos + n) t t' → 0 ≤ tailDone → 128 ≤ pos → 0 ≤ n < 128 → pos + n < 2 ^ 32 →
  n ≤ tailDone + 32 * Z.of_nat fuel →
  same (λ _, True) (CityHash128_tail fuel t pos n tailDone q)
                   (CityHash128_tail fuel t' pos n tailDone q).
Proof.
  revert tailDone q. induction fuel as [|fuel IH]; intros td q Ha Htd Hpos Hn Hpn Hf;
    cbn [CityHash128_tail].
  - destruct (td <? n) eqn:E; [lia|]. by apply same_ret.
  - destruct (td <? n) eqn:E; [|by apply same_ret]. apply Z.ltb_lt in E.
    destruct q as [v w x y z]. rewrite !(u32_small (pos + n)), !(u32_small (td + 32)) by lia.
    rewrite !(u32_small (pos + n - (td + 32))) by lia. rewrite !u32_small by lia.
    eapply same_bind; [eapply same_fetch64_at; [done|lia]|intros f Hf'].
    destruct (same_from _ t t' (pos + n - (td + 32)) Ha) as (p & p' & -> & -> & Hp & _); [lia|].
    cbn [mbind option_bind].
    eapply same_bind; [eapply same_weak3; [done|lia]|intros v' Hv'].
    apply IH; [done|lia..].
Qed.

Lemma same_CityHash128WithSeed n s t seed :
  agree n s t → 0 ≤ n < 2 ^ 32 →
  same word128 (CityHash128WithSeed s n seed) (CityHash128WithSeed t n seed).
Proof.
  intros Ha Hn. pose proof Ha as (Hs & Ht & _). unfold CityHash128WithSeed.
  destruct (n <? 128) eqn:E; [apply same_cityMurmur; [done|lia]|].
  lockstep. eapply same_bind; [apply same_CityHash128_loop; unfold loop_fuel; [done|lia..]|].
  intros [[pos m] [v' w' x' y' z']] (Hm & Hpm & Hpos & _).
  eapply same_bind.
  - apply same_CityHash128_tail; [|lia..]. by replace (pos + m) with n by lia.
  - intros [????] _. apply same_ret. split; apply u64_range.
Qed.

(** C37: for a [length] that is within the slice, [CityHash128] never reads out of
    range (no panic) and its loops end, both halves of the digest are 64-bit
    values, and the digest is a function of the first [length] bytes only: a
    buffer that extends further, as the compressor's does, hashes the same. *)
Theorem CityHash128_total_local n s t :
  agree n s t → 0 ≤ n < 2 ^ 32 → same word128 (CityHash128 s n) (CityHash128 t n).
Proof.
  intros Ha Hn. pose proof Ha as (Hs & Ht & Hst). unfold CityHash128.
  destruct (16 <=? n) eqn:E16; [|destruct (8 <=? n) eqn:E8].
  - rewrite !slice_Some by lia. cbn [mbind option_bind]. lockstep.
    rewrite u32_small by lia. apply same_CityHash128WithSeed; [|lia].
    apply (agree_drop n 16) in Ha; [|lia]. destruct Ha as (Ha1 & Ha2 & Ha3).
    split_and!; [autorewrite with gomodel; autorewrite with gomodel in *; lia..|].
    rewrite !take_take, !Nat.min_l by lia. exact Ha3.
  - lockstep. apply same_CityHash128WithSeed; [by split|lia].
  - by apply same_CityHash128WithSeed.
Qed.

Lemma agree_refl s : agree (Z.of_nat (length s)) s s.
Proof. split_and!; [lia..|done]. Qed.

(** Feeding the chunks of a message through [Write], starting from [h]. *)
Definition write_all (h : City64.t) (chunks : list gostring) : City64.t :=
  foldl (λ h c, (City64.Write h c).2) h chunks.

Lemma write_all_spec h chunks :
  City64.cs (write_all h chunks) = City64.cs h ++ concat chunks.
Proof.
  revert h. induction chunks as [|c chunks IH]; intros h; cbn.
  - by rewrite app_nil_r.
  - unfold write_all in IH. rewrite IH. simpl. by rewrite app_assoc.
Qed.

(** The streaming hasher depends on the concatenation of what was written and
    not on how it was cut into chunks nor on what happened before [Reset]; its sum
    is the 64-bit hash of that concatenation (which it computes without a panic),
    big endian and appended to the caller's slice. *)
Theorem City64_streaming h chunks b :
  Z.of_nat (length (concat chunks)) < 2 ^ 32 →
  ∃ x, CityHash64 (concat chunks) (Z.of_nat (length (concat chunks))) = Some x
    ∧ 0 ≤ x < 2 ^ 64
    ∧ City64.Sum64 (write_all City64.New64 chunks) = Some x
    ∧ City64.Sum64 (write_all (City64.Reset h) chunks) = Some x
    ∧ City64.Sum (write_all City64.New64 chunks) b = Some (b ++ reverse (le_put 8 x)).
Proof.
  intros Hlen. set (m := concat chunks) in *.
  destruct (same_CityHash64 _ m m (agree_refl m)) as (x & Hx & _ & Hr); [lia|].
  exists x. unfold City64.Sum, City64.Sum64. rewrite !write_all_spec.
  change (City64.cs City64.New64) with ([] : gostring).
  replace (City64.cs (City64.Reset h)) with ([] : gostring) by done.
  cbn [app]. fold m. rewrite u32_small, Hx by lia.
  split; [done|]. split; [exact Hr|]. done.
Qed.

(** The 16 checksum bytes determine both halves of the digest. *)
Lemma Uint128_Bytes_inj x y :
  word128 x → word128 y → Uint128_Bytes x = Uint128_Bytes y → x = y.
Proof.
  intros [Hx Hx'] [Hy Hy'] E. unfold Uint128_Bytes in E.
  apply app_inj_1 in E as [E1 E2]; [|by rewrite !length_le_put].
  apply (f_equal le_get) in E1, E2. rewrite !le_get_put in E1, E2.
  destruct x, y; simpl in *. unfold word in *. rewrite !Z.mod_small in E1, E2 by lia. by subst.
Qed.

(** On the vectors of the repository's own test data, which reach every branch of
    the 128-bit hash (under 8 bytes, 8-15 bytes, [cityMurmur] with and without its
    loop, the 128-byte loop and one to four tail chunks), the model computes the
    expected digest. *)
Theorem CityHash128_vectors :
  Forall (fun '(s, h) => CityHash128 s (Z.of_nat (length s)) = Some h) vectors.
Proof. repeat constructor; vm_compute; reflexivity. Qed.

Lemma CityHash128_total_local_witness :
  agree 3 (str "abc") (str "abcdef") ∧ same word128 (CityHash128 (str "abc") 3) (CityHash128 (str "abcdef") 3).
Proof.
  assert (agree 3 (str "abc") (str "abcdef")) by (split_and!; vm_compute; auto with arith).
  split; [done|]. apply (CityHash128_total_local 3); [done|lia].
Defined.

Lemma City64_streaming_witness :
  ∃ x, CityHash64 (str "select 1") 8 = Some x ∧ 0 ≤ x < 2 ^ 64
    ∧ City64.Sum64 (write_all City64.New64 [str "sel"; []; str "ect 1"]) = Some x
    ∧ City64.Sum64 (write_all (City64.Reset (City64.MkCity64 (str "old"))) [str "sel"; []; str "ect 1"]) = Some x
    ∧ City64.Sum (write_all City64.New64 [str "sel"; []; str "ect 1"]) (str "b") = Some (str "b" ++ reverse (le_put 8 x)).
Proof.
  exact (City64_streaming (City64.MkCity64 (str "old")) [str "sel"; []; str "ect 1"] (str "b") eq_refl).
Defined.
