(* ===== verification/GoStd.v ===== *)
(** * The parts of Go's standard library the components use

    Decimal formatting and parsing ([strconv], [%d], [%0*d]), [strings.Join] and
    [strings.NewReplacer] with one-byte patterns, and [time.Time]: an instant as
    seconds and nanoseconds since the epoch, a location as its name with its offset
    at that instant, and the calendar ([civil_from_days]) behind [Time.Format]. *)

From Stdlib Require Import ZifyBool.
From S2P Require Import Prelude.
Local Open Scope Z_scope.

(** ** Decimal numbers *)

(** The last decimal digit of [d]. *)
Definition digit (d : Z) : byte := zb (48 + d mod 10).
Definition isDigit (ch : byte) : bool := in_range "0" "9" ch.
Definition digit_val (b : byte) : Z := bz b - 48.

(** The digits of [n], least significant first; [fuel] bounds their number. *)
Fixpoint dec_rev (fuel : nat) (n : Z) : gostring :=
  match fuel with
  | O => []
  | S fuel => if n <? 10 then [digit n] else digit (n mod 10) :: dec_rev fuel (n / 10)
  end.

(** [strconv.FormatUint(n, 10)]: a number has at most as many digits as bits. *)
Definition FormatUint (n : Z) : gostring := reverse (dec_rev (S (Z.to_nat (Z.log2 n))) n).

Definition FormatInt (z : Z) : gostring :=
  if z <? 0 then ("-"%byte : byte) :: FormatUint (- z) else FormatUint z.

(** [%0*d] for a non-negative number. *)
Definition pad0 (w : nat) (s : gostring) : gostring := replicate (w - length s) ("0"%byte) ++ s.
Definition FormatPad (w : nat) (n : Z) : gostring := pad0 w (FormatUint n).

(** The value of a string of decimal digits. *)
Definition dec_val (s : gostring) : Z := foldl (λ a b, 10 * a + digit_val b) 0 s.

Fixpoint dec_val_rev (s : gostring) : Z :=
  match s with
  | [] => 0
  | b :: s => digit_val b + 10 * dec_val_rev s
  end.

Lemma digit_val_digit d : 0 ≤ d < 10 → digit_val (digit d) = d.
Proof. intros H. unfold digit_val, digit. rewrite bz_zb, (Z.mod_small d), Z.mod_small; lia. Qed.

Lemma isDigit_digit d : isDigit (digit d) = true.
Proof.
  unfold isDigit, in_range, digit. pose proof (Z.mod_pos_bound d 10).
  rewrite bz_zb, Z.mod_small by lia.
  change (bz "0") with 48. change (bz "9") with 57. lia.
Qed.

Lemma dec_val_rev_spec s : dec_val (reverse s) = dec_val_rev s.
Proof.
  induction s as [|b s IH]; [done|]. rewrite reverse_cons. unfold dec_val in *.
  rewrite foldl_app, IH. simpl. lia.
Qed.

Lemma dec_rev_val fuel n :
  0 ≤ n → n < 2 ^ Z.of_nat fuel → dec_val_rev (dec_rev fuel n) = n.
Proof.
  revert n. induction fuel as [|fuel IH]; intros n Hn Hf; [simpl in *; lia|].
  cbn [dec_rev]. destruct (n <? 10) eqn:E; cbn [dec_val_rev].
  - rewrite digit_val_digit; lia.
  - pose proof (Z.mod_pos_bound n 10). pose proof (Z.div_mod n 10).
    rewrite digit_val_digit by lia. rewrite IH; [lia|apply Z.div_pos; lia|].
    rewrite Nat2Z.inj_succ, Z.pow_succ_r in Hf by lia.
    apply Z.div_lt_upper_bound; lia.
Qed.

Lemma dec_rev_digits fuel n : Forall (λ b, isDigit b = true) (dec_rev fuel n).
Proof.
  revert n. induction fuel as [|fuel IH]; intros n; cbn [dec_rev]; [done|].
  destruct (n <? 10) eqn:E; constructor; auto using isDigit_digit.
Qed.

Lemma log2_fuel n : 0 ≤ n → n < 2 ^ Z.of_nat (S (Z.to_nat (Z.log2 n))).
Proof.
  intros Hn. rewrite Nat2Z.inj_succ, Z2Nat.id by apply Z.log2_nonneg.
  destruct (Z.eq_dec n 0) as [->|]; [done|]. apply Z.log2_spec. lia.
Qed.

Lemma dec_val_FormatUint n : 0 ≤ n → dec_val (FormatUint n) = n.
Proof.
  intros Hn. unfold FormatUint. rewrite dec_val_rev_spec.
  apply dec_rev_val; [done|by apply log2_fuel].
Qed.

Lemma FormatUint_digits n : Forall (λ b, isDigit b = true) (FormatUint n).
Proof. apply Forall_reverse, dec_rev_digits. Qed.

Lemma FormatUint_nonempty n : FormatUint n ≠ [].
Proof.
  unfold FormatUint. cbn [dec_rev]. destruct (n <? 10); rewrite reverse_cons;
    intros E; by destruct (reverse _).
Qed.

Lemma dec_val_zeros k s : dec_val (replicate k ("0"%byte) ++ s) = dec_val s.
Proof.
  unfold dec_val. rewrite foldl_app. f_equal.
  induction k as [|k IH]; [done|]. simpl. exact IH.
Qed.

Lemma dec_val_FormatPad w n : 0 ≤ n → dec_val (FormatPad w n) = n.
Proof.
  intros. unfold FormatPad, pad0. rewrite dec_val_zeros. by apply dec_val_FormatUint.
Qed.

Lemma FormatPad_digits w n : Forall (λ b, isDigit b = true) (FormatPad w n).
Proof. apply Forall_app. split; [by apply Forall_replicate|apply FormatUint_digits]. Qed.

Lemma dec_rev_length fuel n k :
  0 ≤ n < 10 ^ Z.of_nat (S k) → (length (dec_rev fuel n) ≤ S k)%nat.
Proof.
  revert n k. induction fuel as [|fuel IH]; intros n k Hn; cbn [dec_rev]; [simpl; lia|].
  destruct (n <? 10) eqn:E; [simpl; lia|].
  destruct k as [|k]; [simpl in Hn; lia|].
  cbn [length]. apply le_n_S. apply IH.
  rewrite (Nat2Z.inj_succ (S k)), Z.pow_succ_r in Hn by lia.
  split; [apply Z.div_pos; lia|apply Z.div_lt_upper_bound; lia].
Qed.

Lemma FormatPad_length w n : (0 < w)%nat → 0 ≤ n < 10 ^ Z.of_nat w → length (FormatPad w n) = w.
Proof.
  intros Hw Hn. unfold FormatPad, pad0. rewrite length_app, length_replicate.
  assert (length (FormatUint n) ≤ w)%nat; [|lia].
  unfold FormatUint. rewrite length_reverse. destruct w as [|w]; [lia|]. by apply dec_rev_length.
Qed.

(** ** [strings] *)

Fixpoint strings_Join (xs : list gostring) (sep : gostring) : gostring :=
  match xs with
  | [] => []
  | [x] => x
  | x :: xs => x ++ sep ++ strings_Join xs sep
  end.

(** [strings.NewReplacer] with one-byte patterns: every byte is replaced or kept. *)
Definition Replace (table : byte → option gostring) (s : gostring) : gostring :=
  flat_map (λ b, match table b with Some r => r | None => [b] end) s.

(** ** [time.Time] *)

Record gotime := MkTime {
  t_sec : Z;          (* Unix seconds, rounded towards the past *)
  t_nsec : Z;         (* 0 <= t_nsec < 10^9 *)
  t_loc : gostring;   (* Location().String() *)
  t_off : Z           (* seconds east of UTC at this instant in that location *)
}.

#[global] Instance gotime_eq_dec : EqDecision gotime.
Proof. solve_decision. Defined.

Definition time_wf (t : gotime) : Prop := 0 ≤ t_nsec t < 1000000000.

Definition Unix (t : gotime) : Z := t_sec t.
Definition UnixMilli (t : gotime) : Z := i64 (i64 (t_sec t * 1000) + t_nsec t / 1000000).
Definition UnixMicro (t : gotime) : Z := i64 (i64 (t_sec t * 1000000) + t_nsec t / 1000).
Definition UnixNano (t : gotime) : Z := i64 (i64 (t_sec t * 1000000000) + t_nsec t).

(** The year 1 start of Go's zero time. *)
Definition IsZero (t : gotime) : bool := (t_sec t =? -62135596800) && (t_nsec t =? 0).

(** Days since 1970-01-01 to year, month, day in the proleptic Gregorian calendar. *)
Definition civil_from_days (z0 : Z) : Z * Z * Z :=
  let z := z0 + 719468 in
  let era := z / 146097 in
  let doe := z mod 146097 in
  let yoe := (doe - doe / 1460 + doe / 36524 - doe / 146096) / 365 in
  let y := yoe + era * 400 in
  let doy := doe - (365 * yoe + yoe / 4 - yoe / 100) in
  let mp := (5 * doy + 2) / 153 in
  let d := doy - (153 * mp + 2) / 5 + 1 in
  let m := if mp <? 10 then mp + 3 else mp - 9 in
  (if m <=? 2 then y + 1 else y, m, d).

(** The instant's wall clock in its own location. *)
Definition wall (t : gotime) : Z := t_sec t + t_off t.

Definition FormatYear (y : Z) : gostring :=
  if y <? 0 then ("-"%byte : byte) :: FormatPad 4 (- y) else FormatPad 4 y.

(** [t.Format("2006-01-02")] and [t.Format("15:04:05")]. *)
Definition FormatDate (t : gotime) : gostring :=
  let '(y, m, d) := civil_from_days (wall t / 86400) in
  FormatYear y ++ str "-" ++ FormatPad 2 m ++ str "-" ++ FormatPad 2 d.

Definition FormatClock (t : gotime) : gostring :=
  let s := wall t mod 86400 in
  FormatPad 2 (s / 3600) ++ str ":" ++ FormatPad 2 (s mod 3600 / 60) ++ str ":" ++ FormatPad 2 (s mod 60).

(** [t.Format("2006-01-02 15:04:05")], and with [.000...] ([digits] zeros): the
    fraction is truncated. *)
Definition FormatDateTime (t : gotime) : gostring := FormatDate t ++ str " " ++ FormatClock t.

Definition FormatDateTimeFrac (t : gotime) (digits : nat) : gostring :=
  FormatDateTime t ++ str "." ++ FormatPad digits (t_nsec t / 10 ^ (9 - Z.of_nat digits)).

(** Leap day, year boundary, before the epoch. *)
Example civil_examples :
  map civil_from_days [0; 59; 11016; 18261; -1; -719162] =
  [(1970, 1, 1); (1970, 3, 1); (2000, 2, 29); (2019, 12, 31); (1969, 12, 31); (1, 1, 1)].
Proof. reflexivity. Qed.

(** ** Reading decimal numbers back

    The longest prefix of bytes that satisfy [p], and the rest. *)
Fixpoint span (p : byte → bool) (s : gostring) : gostring * gostring :=
  match s with
  | b :: s' => if p b then let '(m, r) := span p s' in (b :: m, r) else ([], s)
  | [] => ([], [])
  end.

Lemma span_app p m r :
  Forall (λ b, p b = true) m →
  match r with b :: _ => p b = false | [] => True end →
  span p (m ++ r) = (m, r).
Proof.
  intros Hm Hr. induction Hm as [|b m Hb Hm IH]; simpl.
  - destruct r as [|b r]; [done|]. simpl. by rewrite Hr.
  - by rewrite Hb, IH.
Qed.

(** A decimal number with an optional sign and an optional fraction: its digits as
    one integer, and how many of them are behind the point. *)
Definition read_number (s : gostring) : option (Z * nat) :=
  let '(neg, s) := match s with
                   | b :: s' => if beq b "-" then (true, s') else (false, s)
                   | [] => (false, []) end in
  let '(ip, r) := span isDigit s in
  let signed z := if neg then - z else z in
  match ip, r with
  | [], _ => None
  | _, [] => Some (signed (dec_val ip), 0%nat)
  | _, b :: fp =>
      if beq b "." && forallb isDigit fp && negb (bool_decide (fp = []))
      then Some (signed (dec_val ip * 10 ^ Z.of_nat (length fp) + dec_val fp), length fp)
      else None
  end.

Lemma digits_no_minus s :
  Forall (λ b, isDigit b = true) s → s ≠ [] → ∃ b s', s = b :: s' ∧ beq b "-" = false.
Proof.
  intros Hs Hne. destruct Hs as [|b s Hb Hs]; [done|]. exists b, s. split; [done|].
  destruct (beq_spec b "-") as [->|]; [by vm_compute in Hb|done].
Qed.

Lemma FormatUint_no_minus n r :
  ∃ b s', FormatUint n ++ r = b :: s' ∧ beq b "-" = false.
Proof.
  destruct (digits_no_minus (FormatUint n)) as (b & s' & -> & Hb).
  - apply FormatUint_digits.
  - apply FormatUint_nonempty.
  - by exists b, (s' ++ r).
Qed.

(** Printing an integer, or a sign, an integer part and a fixed-width fraction, and
    reading it back. *)
Lemma read_FormatInt z : read_number (FormatInt z) = Some (z, 0%nat).
Proof.
  assert (∀ n, 0 ≤ n → span isDigit (FormatUint n) = (FormatUint n, [])) as Hspan.
  { intros n Hn. rewrite <- (app_nil_r (FormatUint n)) at 1.
    by apply span_app; [apply FormatUint_digits|]. }
  unfold FormatInt, read_number. destruct (z <? 0) eqn:E.
  - rewrite beq_refl, Hspan by lia.
    destruct (FormatUint (- z)) eqn:Ef; [by apply FormatUint_nonempty in Ef|].
    rewrite <- Ef, dec_val_FormatUint by lia. do 2 f_equal. lia.
  - destruct (FormatUint_no_minus z []) as (b & s' & Eb & Hb).
    rewrite app_nil_r in Eb. rewrite Eb, Hb, <- Eb, Hspan by lia. rewrite Eb, <- Eb.
    by rewrite dec_val_FormatUint by lia.
Qed.

Lemma read_FormatFrac (neg : bool) n w f :
  0 ≤ n → (0 < w)%nat → 0 ≤ f < 10 ^ Z.of_nat w →
  read_number ((if neg then str "-" else []) ++ FormatUint n ++ str "." ++ FormatPad w f)
  = Some ((if neg then Z.opp else id) (n * 10 ^ Z.of_nat w + f), w).
Proof.
  intros Hn Hw Hf. unfold read_number.
  assert (span isDigit (FormatUint n ++ str "." ++ FormatPad w f)
          = (FormatUint n, str "." ++ FormatPad w f)) as Hspan.
  { apply span_app; [by apply FormatUint_digits|done]. }
  pose proof (FormatPad_length w f Hw Hf) as Hlen.
  assert (forallb isDigit (FormatPad w f) = true) as Hd.
  { apply forallb_forall. intros b Hb. pose proof (FormatPad_digits w f) as HF.
    rewrite List.Forall_forall in HF. by apply HF. }
  assert (FormatPad w f ≠ []) as Hne by (intros E; rewrite E in Hlen; simpl in Hlen; lia).
  destruct (FormatUint_no_minus n (str "." ++ FormatPad w f)) as (b & s' & Eb & Hb).
  destruct neg; cbn [app].
  - change (str "-") with ["-"%byte : byte]. cbn [app]. rewrite beq_refl, Hspan.
    destruct (FormatUint n) eqn:Ef; [by apply FormatUint_nonempty in Ef|]. rewrite <- Ef in *.
    change (str ".") with ["."%byte : byte]. cbn [app].
    rewrite beq_refl, Hd, bool_decide_false, Hlen by done. simpl.
    by rewrite dec_val_FormatUint, dec_val_FormatPad by lia.
  - rewrite Eb, Hb, <- Eb, Hspan.
    destruct (FormatUint n) eqn:Ef; [by apply FormatUint_nonempty in Ef|]. rewrite <- Ef in *.
    change (str ".") with ["."%byte : byte]. cbn [app].
    rewrite beq_refl, Hd, bool_decide_false, Hlen by done. simpl.
    by rewrite dec_val_FormatUint, dec_val_FormatPad by lia.
Qed.

(** ** [strings]: searching for a byte *)

Definition not_byte (b c : byte) : bool := negb (beq c b).

(** [strings.Cut(s, "b")]: what is before the first [b], what is behind it, and
    whether there is one. *)
Definition strings_Cut (s : gostring) (b : byte) : gostring * gostring * bool :=
  match span (not_byte b) s with
  | (m, []) => (m, [], false)
  | (m, _ :: r) => (m, r, true)
  end.

Definition strings_Contains (s : gostring) (b : byte) : bool := existsb (λ c, beq c b) s.
Definition strings_Count (s : gostring) (b : byte) : nat := length (List.filter (λ c, beq c b) s).

Fixpoint strings_Index (s : gostring) (b : byte) : option nat :=
  match s with
  | c :: s => if beq c b then Some 0%nat else S <$> strings_Index s b
  | [] => None
  end.

Fixpoint strings_LastIndex (s : gostring) (b : byte) : option nat :=
  match s with
  | c :: s => match strings_LastIndex s b with
              | Some i => Some (S i)
              | None => if beq c b then Some 0%nat else None end
  | [] => None
  end.

(** [strings.Index] of a longer pattern, and [strings.HasPrefix]. *)
Definition HasPrefix (s pre : gostring) : bool := bool_decide (take (length pre) s = pre).

Fixpoint strings_IndexSub (s pat : gostring) : option nat :=
  if HasPrefix s pat then Some 0%nat
  else match s with
       | _ :: s => S <$> strings_IndexSub s pat
       | [] => None
       end.

Definition toLower (b : byte) : byte := if in_range "A" "Z" b then zb (bz b + 32) else b.

Lemma span_not_byte b (m r : gostring) :
  b ∉ m → span (not_byte b) (m ++ b :: r) = (m, b :: r).
Proof.
  intros Hm. apply span_app.
  - apply Forall_forall. intros c Hc. unfold not_byte. rewrite beq_ne; [done|].
    intros ->. done.
  - unfold not_byte. by rewrite beq_refl.
Qed.

Lemma span_not_byte_end b (m : gostring) : b ∉ m → span (not_byte b) m = (m, []).
Proof.
  intros Hm. rewrite <- (app_nil_r m) at 1. apply span_app; [|done].
  apply Forall_forall. intros c Hc. unfold not_byte. rewrite beq_ne; [done|]. by intros ->.
Qed.

Lemma Cut_found b m r : b ∉ m → strings_Cut (m ++ b :: r) b = (m, r, true).
Proof. intros Hm. unfold strings_Cut. by rewrite span_not_byte. Qed.

Lemma Cut_missing b m : b ∉ m → strings_Cut m b = (m, [], false).
Proof. intros Hm. unfold strings_Cut. by rewrite span_not_byte_end. Qed.

Lemma Contains_spec s b : strings_Contains s b = true ↔ b ∈ s.
Proof.
  unfold strings_Contains. rewrite existsb_exists. split.
  - intros (c & Hc & E%beq_true). subst. by apply list_elem_of_In.
  - intros H. exists b. split; [by apply list_elem_of_In|apply beq_refl].
Qed.

Lemma Index_missing s b : b ∉ s → strings_Index s b = None.
Proof.
  induction s as [|c s IH]; [done|]. intros [Hc Hs]%not_elem_of_cons. simpl.
  rewrite beq_ne by done. by rewrite IH.
Qed.

Lemma Index_found b m r : b ∉ m → strings_Index (m ++ b :: r) b = Some (length m).
Proof.
  induction m as [|c m IH]; simpl; intros Hm; [by rewrite beq_refl|].
  apply not_elem_of_cons in Hm as [Hc Hm]. rewrite beq_ne by done. by rewrite IH.
Qed.

Lemma Index_Some s b i : strings_Index s b = Some i → (i < length s)%nat.
Proof.
  revert i. induction s as [|c s IH]; intros i; simpl; [done|].
  destruct (beq c b); [intros; simplify_eq; lia|].
  destruct (strings_Index s b) as [j|]; [|done]. intros [= <-]. specialize (IH j eq_refl). lia.
Qed.

Lemma LastIndex_missing s b : b ∉ s → strings_LastIndex s b = None.
Proof.
  induction s as [|c s IH]; [done|]. intros [Hc Hs]%not_elem_of_cons. simpl.
  rewrite IH by done. by rewrite beq_ne.
Qed.

Lemma LastIndex_found b m r : b ∉ r → strings_LastIndex (m ++ b :: r) b = Some (length m).
Proof.
  intros Hr. induction m as [|c m IH]; simpl.
  - by rewrite LastIndex_missing, beq_refl.
  - by rewrite IH.
Qed.

(** The last index splits the string; the byte does not occur behind it. *)
Lemma LastIndex_Some s b i :
  strings_LastIndex s b = Some i → ∃ m r, s = m ++ b :: r ∧ length m = i ∧ b ∉ r.
Proof.
  revert i. induction s as [|c s IH]; intros i; simpl; [done|].
  destruct (strings_LastIndex s b) as [j|] eqn:E.
  - intros [= <-]. destruct (IH j eq_refl) as (m & r & -> & <- & Hr). by exists (c :: m), r.
  - destruct (beq_spec c b) as [->|]; [|done]. intros [= <-]. exists [], s. split; [done|].
    split; [done|]. clear IH. induction s as [|d s IH]; [by apply not_elem_of_nil|].
    simpl in E. destruct (strings_LastIndex s b); [done|].
    destruct (beq_spec d b) as [->|Hd]; [done|]. apply not_elem_of_cons. split; [congruence|by apply IH].
Qed.

Lemma IndexSub_Some s pat i : strings_IndexSub s pat = Some i → (i ≤ length s)%nat.
Proof.
  revert i. induction s as [|c s IH]; intros i; simpl.
  - destruct (HasPrefix [] pat); [intros; simplify_eq; lia|done].
  - destruct (HasPrefix (c :: s) pat); [intros; simplify_eq; lia|].
    destruct (strings_IndexSub s pat) as [j|]; [|done]. intros [= <-]. specialize (IH j eq_refl). lia.
Qed.
