(* ===== verification/GoTime.v ===== *)
(** * Time zones, [time.Date] and [time.Parse]

    The parts of Go's [time] package the date columns use, beside those of [GoStd.v]: a
    location gives the offset at an instant; [time.Date] finds the instant of a wall
    clock; [time.Parse] reads the layouts that the driver names.  Theorems: the calendar
    is inverted ([days_civil]), a wall clock is kept where it exists, and formatted dates
    and times are read back. *)

From Stdlib Require Import ZifyBool.
From S2P Require Import Prelude GoStd.
Local Open Scope Z_scope.
#[local] Set Warnings "-register-all".

(** ** Locations *)

(** [time.UTC], or another location: its name and the offset, in seconds east, at each
    instant. *)
Inductive location := UTC | Zone (name : gostring) (offset : Z → Z).

Definition loc_name (l : location) : gostring := match l with UTC => str "UTC" | Zone n _ => n end.
Definition lookup_offset (l : location) (sec : Z) : Z := match l with UTC => 0 | Zone _ f => f sec end.
Definition FixedZone (name : gostring) (off : Z) : location := Zone name (λ _, off).

(** [Time.In]. *)
Definition time_In (l : location) (t : gotime) : gotime :=
  MkTime (t_sec t) (t_nsec t) (loc_name l) (lookup_offset l (t_sec t)).

(** [time.Unix], [time.UnixMilli] and the zero time, in a location. *)
Definition time_Unix (l : location) (sec nsec : Z) : gotime := MkTime sec nsec (loc_name l) (lookup_offset l sec).
Definition time_UnixMilli (l : location) (ms : Z) : gotime := time_Unix l (ms / 1000) (ms mod 1000 * 1000000).
Definition zero_time : gotime := time_Unix UTC (-62135596800) 0.

(** ** The calendar *)

(** Days since 1970-01-01 of a date, the inverse of [civil_from_days]. *)
Definition days_from_civil (y m d : Z) : Z :=
  let y := if m <=? 2 then y - 1 else y in
  let mp := (m + 9) mod 12 in
  let doe := y mod 400 * 365 + y mod 400 / 4 - y mod 400 / 100 + ((153 * mp + 2) / 5 + d - 1) in
  y / 400 * 146097 + doe - 719468.

Definition leap (y : Z) : bool := (y mod 4 =? 0) && (negb (y mod 100 =? 0) || (y mod 400 =? 0)).

Definition daysIn (m y : Z) : Z :=
  if (m =? 2) then if leap y then 29 else 28
  else if (m =? 4) || (m =? 6) || (m =? 9) || (m =? 11) then 30 else 31.

(** [t.Date()] and [t.Clock()]. *)
Definition time_civil (t : gotime) : Z * Z * Z := civil_from_days (wall t / 86400).
Definition time_Clock (t : gotime) : Z * Z * Z :=
  let s := wall t mod 86400 in (s / 3600, s mod 3600 / 60, s mod 60).

(** [time.Date] of fields within their ranges.  The offset is looked up as if the clock
    were in UTC, and looked up again at the instant this gives. *)
Definition time_Date (y m d hour min sec nsec : Z) (l : location) : gotime :=
  let unix := days_from_civil y m d * 86400 + hour * 3600 + min * 60 + sec in
  let off := lookup_offset l (unix - lookup_offset l unix) in
  time_Unix l (unix - off) nsec.

(** *** One period of 400 years

    [year_start] is the first day of a year of the period, counted from March; [year_of]
    is the formula of [civil_from_days] for the year of a day.  The formula never
    decreases, so it is enough to look at the first and the last day of each year. *)
Definition year_start (y : Z) : Z := 365 * y + y / 4 - y / 100.
Definition year_of (doe : Z) : Z := (doe - doe / 1460 + doe / 36524 - doe / 146096) / 365.

Fixpoint all_below (n : nat) (acc : Z) (f : Z → bool) : bool :=
  match n with O => true | S n => f acc && all_below n (acc + 1) f end.

Lemma all_below_spec n f : ∀ acc z, all_below n acc f = true → acc ≤ z < acc + Z.of_nat n → f z = true.
Proof.
  induction n as [|n IH]; intros acc z H Hz; [lia|]. cbn in H. apply andb_true_iff in H as [H1 H2].
  destruct (decide (z = acc)) as [->|]; [done|]. apply (IH (acc + 1)); [done|lia].
Qed.

Lemma year_of_step doe : 0 ≤ doe < 146096 → year_of doe ≤ year_of (doe + 1).
Proof. intros H. unfold year_of. apply Z.div_le_mono; [lia|]. Z.to_euclidean_division_equations. lia. Qed.

Lemma year_of_mono a b : 0 ≤ a → a ≤ b → b ≤ 146096 → year_of a ≤ year_of b.
Proof.
  intros Ha Hab Hb. assert (∃ n, b = a + Z.of_nat n) as [n ->] by (exists (Z.to_nat (b - a)); lia). clear Hab.
  induction n as [|n IH]; [rewrite Z.add_0_r; lia|]. etrans; [apply IH; lia|].
  replace (a + Z.of_nat (S n)) with (a + Z.of_nat n + 1) by lia. apply year_of_step. lia.
Qed.

Lemma year_ends y : 0 ≤ y < 400 → year_of (year_start y) = y ∧ year_of (year_start (y + 1) - 1) = y
  ∧ (year_start (y + 1) = year_start y + 366 → y = 399 ∨ leap (y + 1) = true) ∧ year_start (y + 1) ≤ year_start y + 366.
Proof.
  intros H.
  pose proof (all_below_spec 400 (λ y, (year_of (year_start y) =? y) && (year_of (year_start (y + 1) - 1) =? y)
    && (negb (year_start (y + 1) =? year_start y + 366) || leap (y + 1)) && (year_start (y + 1) <=? year_start y + 366)) 0 y) as A.
  assert (all_below 400 0 (λ y, (year_of (year_start y) =? y) && (year_of (year_start (y + 1) - 1) =? y)
    && (negb (year_start (y + 1) =? year_start y + 366) || leap (y + 1)) && (year_start (y + 1) <=? year_start y + 366)) = true) as E
    by (vm_compute; reflexivity).
  specialize (A E ltac:(lia)). repeat (apply andb_prop in A as [A ?]).
  split; [lia|]. split; [lia|]. split; [|lia]. intros E2. right. destruct (leap (y + 1)); [done|]. lia.
Qed.

(** The year of a day of the period begins before it, and ends after it. *)
Lemma year_of_spec doe : 0 ≤ doe < 146097 →
  0 ≤ year_of doe < 400 ∧ year_start (year_of doe) ≤ doe ∧ (doe < year_start (year_of doe + 1) ∨ year_of doe = 399).
Proof.
  intros H. assert (0 ≤ year_of doe < 400) as Hy.
  { pose proof (year_of_mono 0 doe ltac:(lia) ltac:(lia) ltac:(lia)) as H0. change (year_of 0) with 0 in H0.
    pose proof (year_of_mono doe 146096 ltac:(lia) ltac:(lia) ltac:(lia)) as H1. change (year_of 146096) with 399 in H1. lia. }
  split; [done|]. remember (year_of doe) as y eqn:Ey. split.
  - destruct (Z.le_gt_cases (year_start y) doe) as [|Hlt]; [done|]. exfalso.
    destruct (decide (y = 0)) as [->|]; [change (year_start 0) with 0 in Hlt; lia|].
    destruct (year_ends (y - 1) ltac:(lia)) as (_ & H2 & _). replace (y - 1 + 1) with y in H2 by lia.
    assert (year_start y ≤ 146097) as Hs by (unfold year_start; Z.to_euclidean_division_equations; lia).
    pose proof (year_of_mono doe (year_start y - 1) ltac:(lia) ltac:(lia) ltac:(lia)). lia.
  - destruct (decide (y = 399)); [by right|]. left. destruct (Z.lt_ge_cases doe (year_start (y + 1))) as [|Hge]; [done|]. exfalso.
    destruct (year_ends (y + 1) ltac:(lia)) as (H1 & _).
    assert (0 ≤ year_start (y + 1)) as Hs by (unfold year_start; Z.to_euclidean_division_equations; lia).
    pose proof (year_of_mono (year_start (y + 1)) doe ltac:(lia) ltac:(lia) ltac:(lia)). lia.
Qed.

(** *** Days of a year, from March *)

Definition month_index (doy : Z) : Z := (5 * doy + 2) / 153.
Definition month_day (doy : Z) : Z := doy - (153 * month_index doy + 2) / 5 + 1.
Definition month_of (doy : Z) : Z := let mp := month_index doy in if mp <? 10 then mp + 3 else mp - 9.

Lemma month_spec doy : 0 ≤ doy < 366 →
  1 ≤ month_of doy ≤ 12 ∧ 1 ≤ month_day doy ∧ (month_of doy + 9) mod 12 = month_index doy
  ∧ (if doy =? 365 then month_of doy = 2 ∧ month_day doy = 29 else month_day doy ≤ daysIn (month_of doy) 1).
Proof.
  intros H.
  pose proof (all_below_spec 366 (λ doy, (1 <=? month_of doy) && (month_of doy <=? 12) && (1 <=? month_day doy)
    && ((month_of doy + 9) mod 12 =? month_index doy)
    && (if doy =? 365 then (month_of doy =? 2) && (month_day doy =? 29) else month_day doy <=? daysIn (month_of doy) 1)) 0 doy) as A.
  assert (all_below 366 0 (λ doy, (1 <=? month_of doy) && (month_of doy <=? 12) && (1 <=? month_day doy)
    && ((month_of doy + 9) mod 12 =? month_index doy)
    && (if doy =? 365 then (month_of doy =? 2) && (month_day doy =? 29) else month_day doy <=? daysIn (month_of doy) 1)) = true) as E
    by (vm_compute; reflexivity).
  specialize (A E ltac:(lia)). repeat (apply andb_prop in A as [A ?]).
  split; [lia|]. split; [lia|]. split; [lia|]. destruct (doy =? 365); lia.
Qed.

Lemma daysIn_common m y : daysIn m 1 ≤ daysIn m y.
Proof. unfold daysIn. change (leap 1) with false. repeat case_match; lia. Qed.

Lemma leap_shift k y : leap (y + k * 400) = leap y.
Proof.
  unfold leap. rewrite Z_mod_plus_full. replace (y + k * 400) with (y + k * 100 * 4) by lia. rewrite Z_mod_plus_full.
  replace (y + k * 100 * 4) with (y + k * 4 * 100) by lia. by rewrite Z_mod_plus_full.
Qed.

Lemma daysIn_shift k m y : daysIn m (y + k * 400) = daysIn m y.
Proof. unfold daysIn. by rewrite leap_shift. Qed.

(** The date of a day, by period, year and day of the year. *)
Lemma civil_parts z :
  let k := (z + 719468) / 146097 in let doe := (z + 719468) mod 146097 in
  let y := year_of doe in let doy := doe - year_start y in
  civil_from_days z = (y + k * 400 + (if month_of doy <=? 2 then 1 else 0), month_of doy, month_day doy).
Proof.
  cbv zeta. unfold civil_from_days, month_day, month_of, month_index, year_of, year_start. cbv zeta.
  match goal with |- context [if ?b then ?x + 1 else ?x] => destruct b; f_equal; f_equal; lia end.
Qed.

(** Every day has a date within its month, and the date gives the day back. *)
Lemma days_civil z : let '(y, m, d) := civil_from_days z in
  days_from_civil y m d = z ∧ 1 ≤ m ≤ 12 ∧ 1 ≤ d ≤ daysIn m y.
Proof.
  pose proof (Z.div_mod (z + 719468) 146097 ltac:(lia)) as E. pose proof (Z.mod_pos_bound (z + 719468) 146097 ltac:(lia)) as B.
  pose proof (civil_parts z) as P. cbv zeta in P. rewrite P. clear P.
  set (k := (z + 719468) / 146097) in *. set (doe := (z + 719468) mod 146097) in *.
  destruct (year_of_spec doe B) as (Hy & H1 & H2). set (y := year_of doe) in *. set (doy := doe - year_start y).
  destruct (year_ends y Hy) as (_ & _ & Hl & Hlen).
  assert (0 ≤ doy < 366) as Hd.
  { subst doy. split; [lia|]. destruct H2 as [H2|H2]; [lia|]. rewrite H2 in *. change (year_start 399) with 145731 in *. lia. }
  destruct (month_spec doy Hd) as (Hm & Hd1 & Hmi & Hd2). split; [|split; [done|split; [done|]]].
  - unfold days_from_civil. cbv zeta. rewrite Hmi.
    assert ((if month_of doy <=? 2 then y + k * 400 + (if month_of doy <=? 2 then 1 else 0) - 1
             else y + k * 400 + (if month_of doy <=? 2 then 1 else 0)) = y + k * 400) as -> by (destruct (month_of doy <=? 2); lia).
    rewrite Z.div_add, Z_mod_plus_full, (Z.div_small y), (Z.mod_small y) by lia.
    unfold month_day. unfold year_start in *. lia.
  - destruct (Z.eqb_spec doy 365) as [E365|]; [|etrans; [exact Hd2|apply daysIn_common]].
    destruct Hd2 as [-> ->]. unfold daysIn. cbn [Z.eqb].
    assert (leap (y + k * 400 + 1) = true) as Hlp.
    { replace (y + k * 400 + 1) with (y + 1 + k * 400) by lia. rewrite leap_shift.
      destruct H2 as [H2|H2]; [|by rewrite H2]. destruct Hl as [->|]; [lia|done|done]. }
    change (2 <=? 2) with true. change (2 =? 2) with true. cbv iota. by rewrite Hlp.
Qed.

(** The instant of a wall clock [w] in a location. *)
Definition instant (l : location) (w : Z) : Z := w - lookup_offset l (w - lookup_offset l w).

(** The clock [w] is shown at that instant: it is not skipped by a change of offset. *)
Definition clock_exists (l : location) (w : Z) : Prop := lookup_offset l (instant l w) = w - instant l w.

Lemma clock_exists_fixed n off w : clock_exists (FixedZone n off) w.
Proof. unfold clock_exists, instant, FixedZone. cbn. lia. Qed.

Lemma clock_exists_utc w : clock_exists UTC w.
Proof. unfold clock_exists, instant. cbn. lia. Qed.

(** [time.Date] of a day and a second of the day. *)
Lemma time_Date_day day s nsec l : 0 ≤ s < 86400 →
  let '(y, m, d) := civil_from_days day in
  time_Date y m d (s / 3600) (s mod 3600 / 60) (s mod 60) nsec l = time_Unix l (instant l (day * 86400 + s)) nsec.
Proof.
  intros Hs. pose proof (days_civil day) as H. destruct (civil_from_days day) as [[y m] d]. destruct H as [H _].
  unfold time_Date, instant. rewrite H. replace (day * 86400 + s / 3600 * 3600 + s mod 3600 / 60 * 60 + s mod 60) with (day * 86400 + s); [done|].
  pose proof (Z.div_mod s 3600). pose proof (Z.div_mod (s mod 3600) 60).
  assert (s mod 60 = s mod 3600 mod 60) as E.
  { symmetry. apply Z.mod_mod_divide. by exists 60. }
  lia.
Qed.

Lemma wall_unix l w nsec : clock_exists l w → wall (time_Unix l (instant l w) nsec) = w.
Proof. unfold clock_exists, wall, time_Unix. cbn. lia. Qed.

(** ** [time.Parse] *)

(** The pieces of the layouts; text between them is matched byte by byte, a space with
    any number of spaces. *)
Inductive chunk := CYear | CMonth | CDay | CHour | CMinute | CSecond | CFrac | CZone | CText (b : byte).

Record fields := MkFields {
  f_year : Z; f_month : Z; f_day : Z; f_hour : Z; f_min : Z; f_sec : Z; f_nsec : Z; f_zone : option Z
}.
Definition no_fields : fields := MkFields 0 1 1 0 0 0 0 None.

(** [getnum]: two digits; one is enough when [fixed] is false. *)
Definition getnum (fixed : bool) (s : gostring) : option (Z * gostring) :=
  match s with
  | a :: b :: r =>
      if isDigit a then
        if isDigit b then Some (digit_val a * 10 + digit_val b, r)
        else if fixed then None else Some (digit_val a, b :: r)
      else None
  | [a] => if isDigit a then if fixed then None else Some (digit_val a, []) else None
  | [] => None
  end.

Definition ranged (lo hi : Z) (r : option (Z * gostring)) : option (Z * gostring) :=
  '(z, s) ← r; if (lo <=? z) && (z <=? hi) then Some (z, s) else None.

Definition long_year (s : gostring) : option (Z * gostring) :=
  if (4 <=? length s)%nat && forallb isDigit (take 4 s) then Some (dec_val (take 4 s), drop 4 s) else None.

(** A point or comma and digits: nanoseconds, cut after nine digits. *)
Definition fraction (s : gostring) : option (Z * gostring) :=
  match s with
  | p :: r =>
      let '(ds, rest) := span isDigit r in
      if (beq p "." || beq p ",") && negb (bool_decide (ds = []))
      then let d := take 9 ds in Some (dec_val d * 10 ^ (9 - Z.of_nat (length d)), rest)
      else None
  | [] => None
  end.

(** [-07:00]. *)
Definition zone_offset (s : gostring) : option (Z * gostring) :=
  match s with
  | sg :: a :: b :: c :: d :: e :: r =>
      if beq c ":" then
        '(h, _) ← ranged 0 24 (getnum true [a; b]);
        '(m, _) ← ranged 0 60 (getnum true [d; e]);
        if beq sg "+" then Some ((h * 60 + m) * 60, r)
        else if beq sg "-" then Some (- ((h * 60 + m) * 60), r) else None
      else None
  | _ => None
  end.

Definition cutspace (s : gostring) : gostring := snd (span (λ b, beq b x20) s).

(** [skip]. *)
Definition skip (b : byte) (s : gostring) : option gostring :=
  match s with
  | c :: r => if beq c b then Some (if beq b x20 then cutspace s else r) else None
  | [] => if beq b x20 then Some [] else None
  end.

(** The next piece that is not text is the fraction. *)
Fixpoint next_is_frac (l : list chunk) : bool :=
  match l with CText _ :: l => next_is_frac l | CFrac :: _ => true | _ => false end.

Fixpoint parse_chunks (l : list chunk) (s : gostring) (f : fields) : option fields :=
  let '(MkFields y mo d h mi se ns z) := f in
  match l with
  | [] => if bool_decide (s = []) then Some f else None
  | CText b :: l => s ← skip b s; parse_chunks l s f
  | CYear :: l => '(y, s) ← long_year s; parse_chunks l s (MkFields y mo d h mi se ns z)
  | CMonth :: l => '(mo, s) ← ranged 1 12 (getnum true s); parse_chunks l s (MkFields y mo d h mi se ns z)
  | CDay :: l => '(d, s) ← getnum true s; parse_chunks l s (MkFields y mo d h mi se ns z)
  | CHour :: l => '(h, s) ← ranged 0 23 (getnum false s); parse_chunks l s (MkFields y mo d h mi se ns z)
  | CMinute :: l => '(mi, s) ← ranged 0 59 (getnum true s); parse_chunks l s (MkFields y mo d h mi se ns z)
  | CSecond :: l =>
      '(se, s) ← ranged 0 59 (getnum true s);
      match (if next_is_frac l then None else fraction s) with
      | Some (ns, s) => parse_chunks l s (MkFields y mo d h mi se ns z)
      | None => parse_chunks l s (MkFields y mo d h mi se ns z)
      end
  | CFrac :: l =>
      match fraction s with
      | Some (ns, s) => parse_chunks l s (MkFields y mo d h mi se ns z)
      | None => parse_chunks l s f
      end
  | CZone :: l => '(z, s) ← zone_offset s; parse_chunks l s (MkFields y mo d h mi se ns (Some z))
  end.

(** The time of the fields: with an offset, in [time.Local] if it has that offset then, or
    else in a zone without a name. *)
Definition time_Parse (local : location) (layout : list chunk) (s : gostring) : option gotime :=
  f ← parse_chunks layout s no_fields;
  if (1 <=? f_day f) && (f_day f <=? daysIn (f_month f) (f_year f)) then
    let t := time_Date (f_year f) (f_month f) (f_day f) (f_hour f) (f_min f) (f_sec f) (f_nsec f) UTC in
    Some (match f_zone f with
          | None => t
          | Some z => let u := t_sec t - z in
                      time_Unix (if lookup_offset local u =? z then local else FixedZone [] z) u (f_nsec f)
          end)
  else None.

Definition layout_date : list chunk := [CYear; CText "-"; CMonth; CText "-"; CDay].
Definition layout_clock : list chunk := [CHour; CText ":"; CMinute; CText ":"; CSecond].
Definition layout_zone : list chunk := [CText x20; CZone].
Definition layout_datetime : list chunk := layout_date ++ CText x20 :: layout_clock.

Example parse_examples :
  let show := option_map (λ t, (t_sec t, t_nsec t, t_off t)) in
  map (λ '(l, s), show (time_Parse UTC l (str s)))
    [(layout_date, "2024-02-29"%string); (layout_date, "2023-02-29"%string);
     (layout_date ++ layout_zone, "1970-01-01 +01:00"%string);
     (layout_datetime, "1970-01-01 0:00:01.25"%string);
     (layout_datetime ++ [CFrac], "1970-01-02  00:00:00.123456789012"%string);
     (layout_datetime ++ layout_zone, "1969-12-31 23:59:59 -00:00"%string)]
  = [Some (1709164800, 0, 0); None; Some (-3600, 0, 3600); Some (1, 250000000, 0); Some (86400, 123456789, 0); Some (-1, 0, 0)].
Proof. vm_compute. reflexivity. Qed.

(** ** Formatted dates and times are read back *)

Lemma getnum_pad fixed n s : 0 ≤ n < 100 → getnum fixed (FormatPad 2 n ++ s) = Some (n, s).
Proof.
  intros Hn. pose proof (FormatPad_length 2 n ltac:(lia) ltac:(lia)) as Hl.
  pose proof (FormatPad_digits 2 n) as Hd. pose proof (dec_val_FormatPad 2 n ltac:(lia)) as Hv.
  destruct (FormatPad 2 n) as [|a [|b [|]]]; try done. apply Forall_cons in Hd as [Ha Hd].
  apply Forall_cons in Hd as [Hb _]. cbn [app getnum]. rewrite Ha, Hb. unfold dec_val in Hv. cbn in Hv. do 2 f_equal. lia.
Qed.

Lemma long_year_pad y s : 0 ≤ y < 10000 → long_year (FormatPad 4 y ++ s) = Some (y, s).
Proof.
  intros Hy. pose proof (FormatPad_length 4 y ltac:(lia) ltac:(lia)) as Hl.
  unfold long_year. rewrite length_app, Hl, take_app_length', drop_app_length' by done.
  assert (forallb isDigit (FormatPad 4 y) = true) as ->.
  { apply forallb_forall. intros b Hb. pose proof (FormatPad_digits 4 y) as HF. rewrite List.Forall_forall in HF. by apply HF. }
  rewrite (proj2 (Nat.leb_le 4 (4 + length s))) by lia. cbn [andb]. by rewrite dec_val_FormatPad by lia.
Qed.

Lemma ranged_some lo hi z s : lo ≤ z ≤ hi → ranged lo hi (Some (z, s)) = Some (z, s).
Proof. intros H. unfold ranged. cbn. by rewrite (proj2 (andb_true_iff _ _)) by lia. Qed.

Lemma skip_text b s : beq b x20 = false → skip b (b :: s) = Some s.
Proof. intros H. cbn. by rewrite beq_refl, H. Qed.

(** The text of a day in the years 0 to 9999. *)
Definition date_text (day : Z) : gostring :=
  let '(y, m, d) := civil_from_days day in FormatYear y ++ str "-" ++ FormatPad 2 m ++ str "-" ++ FormatPad 2 d.

Definition four_digit_year (day : Z) : Prop := let '(y, _, _) := civil_from_days day in 0 ≤ y < 10000.

Lemma four_digit_range day : four_digit_year day → - 2 ^ 31 ≤ day < 2 ^ 31.
Proof.
  unfold four_digit_year. pose proof (Z.div_mod (day + 719468) 146097 ltac:(lia)) as E.
  pose proof (Z.mod_pos_bound (day + 719468) 146097 ltac:(lia)) as B. pose proof (civil_parts day) as P. cbv zeta in P. rewrite P. clear P.
  destruct (year_of_spec _ B) as (Hy & _). case_match; lia.
Qed.

Lemma daysIn_max m y : daysIn m y ≤ 31.
Proof. unfold daysIn. repeat case_match; lia. Qed.

Lemma parse_date_text day l s f : four_digit_year day →
  let '(y, m, d) := civil_from_days day in
  parse_chunks (layout_date ++ l) (date_text day ++ s) f
  = parse_chunks l s (MkFields y m d (f_hour f) (f_min f) (f_sec f) (f_nsec f) (f_zone f)).
Proof.
  intros Hy. unfold four_digit_year in Hy. pose proof (days_civil day) as Hd. unfold date_text.
  destruct (civil_from_days day) as [[y m] d]. destruct Hd as (_ & Hm & Hd). pose proof (daysIn_max m y).
  unfold FormatYear. rewrite (proj2 (Z.ltb_ge y 0)) by lia. destruct f as [y0 m0 d0 h mi se ns z].
  rewrite <- !app_assoc. unfold layout_date. change (str "-") with ["-"%byte]. cbn [app parse_chunks].
  rewrite long_year_pad by done. cbn [mbind option_bind]. rewrite skip_text by done. cbn [mbind option_bind].
  rewrite getnum_pad, ranged_some by lia. cbn [mbind option_bind]. rewrite skip_text by done. cbn [mbind option_bind].
  by rewrite getnum_pad by lia.
Qed.

Definition clock_text (s : Z) : gostring :=
  FormatPad 2 (s / 3600) ++ str ":" ++ FormatPad 2 (s mod 3600 / 60) ++ str ":" ++ FormatPad 2 (s mod 60).

(** What follows the seconds is no fraction. *)
Definition no_fraction (s : gostring) : Prop := match s with b :: _ => beq b "." || beq b "," = false | [] => True end.

Lemma parse_clock_text sec l s f : 0 ≤ sec < 86400 → no_fraction s →
  parse_chunks (layout_clock ++ l) (clock_text sec ++ s) f
  = parse_chunks l s (MkFields (f_year f) (f_month f) (f_day f) (sec / 3600) (sec mod 3600 / 60) (sec mod 60) (f_nsec f) (f_zone f)).
Proof.
  intros Hs Hn. unfold clock_text. destruct f as [y mo d h mi se ns z]. rewrite <- !app_assoc. unfold layout_clock.
  change (str ":") with [":"%byte]. cbn [app parse_chunks]. pose proof (Z.div_mod sec 3600). pose proof (Z.mod_pos_bound sec 3600).
  pose proof (Z.mod_pos_bound sec 60). pose proof (Z.div_mod (sec mod 3600) 60). pose proof (Z.mod_pos_bound (sec mod 3600) 60).
  do 2 (rewrite getnum_pad, ranged_some by lia; cbn [mbind option_bind]; rewrite skip_text by done; cbn [mbind option_bind]).
  rewrite getnum_pad, ranged_some by lia. cbn [mbind option_bind].
  assert (fraction s = None) as ->; [|by destruct (next_is_frac l)].
  destruct s as [|b r]; [done|]. cbn. cbn in Hn. rewrite Hn. by destruct (span isDigit r).
Qed.

Lemma FormatDate_text t : FormatDate t = date_text (wall t / 86400).
Proof. done. Qed.
Lemma FormatClock_text t : FormatClock t = clock_text (wall t mod 86400).
Proof. done. Qed.

(** A day's text is midnight UTC of the day. *)
Lemma time_Parse_date local day : four_digit_year day →
  time_Parse local layout_date (date_text day) = Some (time_Unix UTC (day * 86400) 0).
Proof.
  intros Hy. unfold time_Parse. pose proof (parse_date_text day [] [] no_fields Hy) as Hp.
  pose proof (days_civil day) as Hd. pose proof (time_Date_day day 0 0 UTC ltac:(lia)) as Ht. rewrite !app_nil_r in Hp.
  destruct (civil_from_days day) as [[y m] d]. rewrite Hp. cbn.
  destruct Hd as (_ & _ & Hd). rewrite (proj2 (andb_true_iff _ _)) by lia.
  change (0 / 3600) with 0 in Ht. change (0 mod 3600 / 60) with 0 in Ht. change (0 mod 60) with 0 in Ht. rewrite Ht.
  unfold instant. cbn. by replace (day * 86400 + 0 - 0) with (day * 86400) by lia.
Qed.

(** A date and a clock are the instant in UTC. *)
Lemma time_Parse_datetime local l t : four_digit_year (wall t / 86400) → l = [] ∨ l = [CFrac] →
  time_Parse local (layout_datetime ++ l) (FormatDateTime t) = Some (time_Unix UTC (wall t) 0).
Proof.
  intros Hy Hl. unfold time_Parse, FormatDateTime, layout_datetime. rewrite FormatDate_text, FormatClock_text.
  pose proof (Z.mod_pos_bound (wall t) 86400 ltac:(lia)) as Hs.
  pose proof (parse_date_text (wall t / 86400) (CText x20 :: layout_clock ++ l) (x20 :: clock_text (wall t mod 86400)) no_fields Hy) as Hp.
  pose proof (days_civil (wall t / 86400)) as Hd. pose proof (time_Date_day (wall t / 86400) (wall t mod 86400) 0 UTC Hs) as Ht.
  change (str " " ++ clock_text (wall t mod 86400)) with (x20 :: clock_text (wall t mod 86400)). rewrite <- app_assoc. cbn [app].
  destruct (civil_from_days (wall t / 86400)) as [[y m] d] eqn:Ec. rewrite Hp. cbn [parse_chunks].
  assert (∀ b s, isDigit b = true → skip x20 (x20 :: b :: s) = Some (b :: s)) as Hsk.
  { intros b s Hb. unfold skip, cutspace. rewrite beq_refl. cbn [span]. rewrite beq_refl.
    assert (beq b x20 = false) as E by (destruct (beq_spec b x20) as [->|]; [by vm_compute in Hb|done]).
    cbn [span]. by rewrite E. }
  assert (∃ b s, clock_text (wall t mod 86400) = b :: s ∧ isDigit b = true) as (b & s & Eb & Hb).
  { unfold clock_text. pose proof (FormatPad_length 2 (wall t mod 86400 / 3600) ltac:(lia)) as Hl2.
    pose proof (FormatPad_digits 2 (wall t mod 86400 / 3600)) as Hd2. pose proof (Z.div_mod (wall t mod 86400) 3600).
    pose proof (Z.mod_pos_bound (wall t mod 86400) 3600).
    destruct (FormatPad 2 (wall t mod 86400 / 3600)) as [|b s]; [specialize (Hl2 ltac:(lia)); done|].
    apply Forall_cons in Hd2 as [Hb _]. by eexists b, _. }
  rewrite Eb, Hsk by done. cbn [mbind option_bind]. rewrite <- Eb. rewrite <- (app_nil_r (clock_text _)).
  rewrite (parse_clock_text _ l []) by done.
  assert (∀ f, parse_chunks l [] f = Some f) as -> by (intros []; by destruct Hl as [->| ->]).
  cbn [mbind option_bind f_day f_month f_year f_hour f_min f_sec f_nsec f_zone no_fields].
  destruct Hd as (_ & _ & Hd). rewrite (proj2 (andb_true_iff _ _)) by lia. rewrite Ht. do 2 f_equal.
  unfold instant. cbn. pose proof (Z.div_mod (wall t) 86400). lia.
Qed.
