(* ===== verification/Regexp.v ===== *)
(** * Regular expressions: the part of Go's [regexp] the driver uses

    The driver recognises the texts of server exceptions and of INSERT statements with
    regular expressions.  Go's matcher prefers, among the matches that start leftmost, the
    one a backtracking search finds first; [alts] lists the ways an expression matches a
    prefix of a text in that order, each as the text behind the match with the captured
    groups, so that the match is the head of the list.  Expressions work on bytes: the
    classes the driver uses are ASCII sets or complements of ASCII sets that are only
    repeated, where a rune of several bytes and its bytes are treated alike.  (One
    exception: under the flag i Go lets the long s, U+017F, stand for the letter s; the
    model does not.) *)

From Stdlib Require Import ZifyBool.
From S2P Require Import Prelude GoStd.

Abbreviation captures := (list (nat * gostring)).

Inductive re :=
| Eps
| Cls (p : byte → bool)
| Seq (a b : re)
| Alt (a b : re)
| Star (a : re)
| Grp (n : nat) (a : re)
| Eol.

Definition Plus (a : re) : re := Seq a (Star a).
Definition Opt (a : re) : re := Alt a Eps.
Definition Chr (b : byte) : re := Cls (λ c, beq c b).

(** A literal text, and one under the flag i. *)
Definition Lit (s : gostring) : re := foldr (λ b r, Seq (Chr b) r) Eps s.
Definition LitFold (s : gostring) : re := foldr (λ b r, Seq (Cls (λ c, beq (toLower c) (toLower b))) r) Eps s.

(** The classes \s, \S and \d. *)
Definition is_s (b : byte) : bool := existsb (beq b) [x09; x0a; x0c; x0d; x20].
Definition not_s (b : byte) : bool := negb (is_s b).

Section iterate.
Context (step : gostring → list (gostring * captures)).

(** Greedy repetition; an iteration consumes something. *)
Fixpoint iterate (fuel : nat) (s : gostring) : list (gostring * captures) :=
  match fuel with
  | O => [(s, [])]
  | S fuel =>
      (step s ≫= λ '(t, c), if (length t <? length s)%nat
                            then (λ '(u, d), (u, c ++ d)) <$> iterate fuel t else [])
      ++ [(s, [])]
  end.
End iterate.

Fixpoint alts (r : re) (s : gostring) : list (gostring * captures) :=
  match r with
  | Eps => [(s, [])]
  | Cls p => match s with c :: t => if p c then [(t, [])] else [] | [] => [] end
  | Seq a b => alts a s ≫= λ '(t, c), (λ '(u, d), (u, c ++ d)) <$> alts b t
  | Alt a b => alts a s ++ alts b s
  | Star a => iterate (alts a) (length s) s
  | Grp n a => (λ '(t, c), (t, c ++ [(n, take (length s - length t) s)])) <$> alts a s
  | Eol => if decide (s = []) then [(s, [])] else []
  end.

(** A match: where it starts, its text, and the groups. *)
Record match_at := MkMatch { m_start : nat; m_text : gostring; m_groups : captures }.

(** The text of a group, empty when it took no part. *)
Definition group (m : match_at) (n : nat) : gostring :=
  default [] (snd <$> List.find (λ kv, (kv.1 =? n)%nat) (m_groups m)).

(** A match of an expression that starts with ^. *)
Definition match_prefix (r : re) (s : gostring) : option match_at :=
  match alts r s with
  | (t, c) :: _ => Some (MkMatch 0 (take (length s - length t) s) c)
  | [] => None
  end.

Definition shift_match (m : match_at) : match_at := MkMatch (S (m_start m)) (m_text m) (m_groups m).

(** [FindStringSubmatch]. *)
Fixpoint find_first (r : re) (s : gostring) : option match_at :=
  match match_prefix r s with
  | Some m => Some m
  | None => match s with _ :: t => shift_match <$> find_first r t | [] => None end
  end.

(** [FindAllStringSubmatch(s, -1)] of an expression whose matches are not empty. *)
Fixpoint find_all_loop (fuel : nat) (r : re) (from : nat) (s : gostring) : list match_at :=
  match fuel with
  | O => []
  | S fuel =>
      match find_first r s with
      | Some m =>
          let e := (m_start m + length (m_text m))%nat in
          MkMatch (from + m_start m) (m_text m) (m_groups m) :: find_all_loop fuel r (from + e) (drop e s)
      | None => []
      end
  end.

Definition find_all (r : re) (s : gostring) : list match_at := find_all_loop (length s) r 0 s.

(** [ReplaceAllString] with the empty text. *)
Fixpoint remove_all_loop (fuel : nat) (r : re) (s : gostring) : gostring :=
  match fuel with
  | O => s
  | S fuel =>
      match find_first r s with
      | Some m => take (m_start m) s ++ remove_all_loop fuel r (drop (m_start m + length (m_text m)) s)
      | None => s
      end
  end.

Definition remove_all (r : re) (s : gostring) : gostring := remove_all_loop (length s) r s.

Example find_all_example :
  map (λ m, (m_start m, group m 1)) (find_all (Seq (Chr "(") (Seq (Grp 1 (Plus (Cls isDigit))) (Chr ")"))) (str "a(12)(x)(3)"))
  = [(1%nat, str "12"); (8%nat, str "3")].
Proof. reflexivity. Qed.

(** ** Equations *)

Lemma fmap_app_nil (l : list (gostring * captures)) : (λ '(u, d), (u, [] ++ d)) <$> l = l.
Proof. induction l as [|[u d] l IH]; [done|]. cbn [fmap list_fmap]. f_equal. exact IH. Qed.

Lemma alts_Seq_Cls p r c s :
  alts (Seq (Cls p) r) (c :: s) = if p c then alts r s else [].
Proof.
  cbn [alts]. destruct (p c); [|done]. cbn [mbind list_bind]. by rewrite fmap_app_nil, app_nil_r.
Qed.

Lemma alts_Seq_Cls_nil p r : alts (Seq (Cls p) r) [] = [].
Proof. done. Qed.

(** A literal matches itself and nothing else. *)
Lemma alts_Lit s t : alts (Lit s) (s ++ t) = [(t, [])].
Proof.
  induction s as [|b s IH]; [done|]. unfold Lit. cbn [foldr app]. unfold Chr.
  rewrite alts_Seq_Cls, beq_refl. exact IH.
Qed.

Lemma alts_Seq_Lit s r t : alts (Seq (Lit s) r) (s ++ t) = alts r t.
Proof.
  cbn [alts]. rewrite alts_Lit. cbn [mbind list_bind]. by rewrite fmap_app_nil, app_nil_r.
Qed.

Lemma alts_Lit_miss s t : HasPrefix t s = false → alts (Lit s) t = [].
Proof.
  unfold HasPrefix. intros H%bool_decide_eq_false. revert t H.
  induction s as [|b s IH]; intros t H; [by destruct H|].
  unfold Lit. cbn [foldr]. destruct t as [|c t]; [done|].
  unfold Chr. rewrite alts_Seq_Cls. destruct (beq_spec c b) as [->|Hne]; [|done].
  apply IH. intros E. apply H. simpl. by rewrite E.
Qed.

(** A greedy run of a class before an expression that does not start with it takes all
    of the run. *)
Definition refuses (p : byte → bool) (r : re) : Prop := ∀ c s, p c = true → alts r (c :: s) = [].

Lemma iterate_run p n m s :
  Forall (λ c, p c = true) m → (length m ≤ n)%nat →
  (s = [] ∨ ∃ c t, s = c :: t ∧ p c = false) →
  ∃ l, iterate (alts (Cls p)) n (m ++ s) = (s, []) :: l ∧
       Forall (λ x, ∃ k c t, x = (k, []) ∧ k = c :: t ∧ p c = true) l.
Proof.
  intros Hm Hn Hs. revert n Hn. induction Hm as [|c m Hc Hm IH]; intros n Hn.
  - exists []. split; [|constructor]. cbn [app]. destruct n as [|n]; [done|]. cbn [iterate alts].
    destruct Hs as [->|(c & t & -> & Hc)]; [done|]. by rewrite Hc.
  - destruct n as [|n]; [simpl in Hn; lia|]. cbn [app iterate].
    assert (alts (Cls p) (c :: m ++ s) = [(m ++ s, [])]) as -> by (cbn; by rewrite Hc). cbn [mbind list_bind].
    rewrite app_nil_r, (proj2 (Nat.ltb_lt _ _)) by (simpl; lia).
    destruct (IH n) as (l & El & Hl); [simpl in Hn; lia|].
    rewrite El. exists (l ++ [(c :: m ++ s, [])]). split.
    + cbn [fmap list_fmap app]. by rewrite fmap_app_nil.
    + apply Forall_app. split; [done|]. constructor; [|constructor]. by exists (c :: m ++ s), c, (m ++ s).
Qed.

Lemma alts_Star_run p r m s :
  Forall (λ c, p c = true) m → (s = [] ∨ ∃ c t, s = c :: t ∧ p c = false) → refuses p r →
  alts (Seq (Star (Cls p)) r) (m ++ s) = alts r s.
Proof.
  intros Hm Hs Hr.
  change (alts (Seq (Star (Cls p)) r) (m ++ s))
    with (iterate (alts (Cls p)) (length (m ++ s)) (m ++ s) ≫= λ '(t, c), (λ '(u, d), (u, c ++ d)) <$> alts r t).
  destruct (iterate_run p (length (m ++ s)) m s) as (l & -> & Hl); [done|rewrite length_app; lia|done|].
  rewrite bind_cons, fmap_app_nil.
  assert (l ≫= (λ '(t, c), (λ '(u, d), (u, c ++ d)) <$> alts r t) = []) as ->; [|apply app_nil_r].
  induction Hl as [|x l (k & c & t & -> & -> & Hc) Hl IH]; [done|].
  rewrite bind_cons, (Hr c t Hc). exact IH.
Qed.

Lemma alts_Star_head p m s :
  Forall (λ c, p c = true) m → (s = [] ∨ ∃ c t, s = c :: t ∧ p c = false) →
  ∃ l, alts (Star (Cls p)) (m ++ s) = (s, []) :: l.
Proof.
  intros Hm Hs. destruct (iterate_run p (length (m ++ s)) m s) as (l & El & _); [done|rewrite length_app; lia|done|].
  by exists l.
Qed.

(** The same for a group that holds the run. *)
Lemma alts_group_run n p r c m s :
  p c = true → Forall (λ c, p c = true) m → (s = [] ∨ ∃ c t, s = c :: t ∧ p c = false) → refuses p r →
  alts (Seq (Grp n (Plus (Cls p))) r) (c :: m ++ s) = (λ '(u, d), (u, (n, c :: m) :: d)) <$> alts r s.
Proof.
  intros Hc Hm Hs Hr.
  change (alts (Seq (Grp n (Plus (Cls p))) r) (c :: m ++ s))
    with (((λ '(t, d), (t, d ++ [(n, take (length (c :: m ++ s) - length t) (c :: m ++ s))]))
             <$> alts (Plus (Cls p)) (c :: m ++ s)) ≫= λ '(t, c), (λ '(u, d), (u, c ++ d)) <$> alts r t).
  unfold Plus. rewrite alts_Seq_Cls, Hc.
  destruct (iterate_run p (length (m ++ s)) m s) as (l & El & Hl); [done|rewrite length_app; lia|done|].
  change (alts (Star (Cls p)) (m ++ s)) with (iterate (alts (Cls p)) (length (m ++ s)) (m ++ s)). rewrite El.
  rewrite fmap_cons, bind_cons. cbn [app].
  assert (take (length (c :: m ++ s) - length s) (c :: m ++ s) = c :: m) as ->.
  { change (c :: m ++ s) with ((c :: m) ++ s). rewrite length_app, Nat.add_sub. apply take_app_length. }
  match goal with |- _ ++ ?x = _ => assert (x = []) as -> end; [|apply app_nil_r].
  clear El. induction Hl as [|x l (k & d & t & -> & -> & Hd) Hl IH]; [done|].
  rewrite fmap_cons, bind_cons, (Hr d t Hd). exact IH.
Qed.

Lemma alts_plus_run p r c m s :
  p c = true → Forall (λ c, p c = true) m → (s = [] ∨ ∃ c t, s = c :: t ∧ p c = false) → refuses p r →
  alts (Seq (Plus (Cls p)) r) (c :: m ++ s) = alts r s.
Proof.
  intros Hc Hm Hs Hr.
  change (alts (Seq (Plus (Cls p)) r) (c :: m ++ s))
    with (alts (Plus (Cls p)) (c :: m ++ s) ≫= λ '(t, c), (λ '(u, d), (u, c ++ d)) <$> alts r t).
  unfold Plus. rewrite alts_Seq_Cls, Hc. by apply alts_Star_run.
Qed.

Lemma refuses_Chr p b r : p b = false → refuses p (Seq (Chr b) r).
Proof.
  intros Hb c s Hc. unfold Chr. rewrite alts_Seq_Cls. destruct (beq_spec c b) as [->|]; [congruence|done].
Qed.

Lemma refuses_Cls p q r : (∀ c, p c = true → q c = false) → refuses p (Seq (Cls q) r).
Proof. intros H c s Hc. by rewrite alts_Seq_Cls, (H c Hc). Qed.

(** ** Where the first match is *)

Lemma find_first_skip r pre s :
  (∀ i, i < length pre → match_prefix r (drop i (pre ++ s)) = None) →
  find_first r (pre ++ s) = Nat.iter (length pre) (fmap shift_match) (find_first r s).
Proof.
  induction pre as [|c pre IH]; intros H; [done|]. cbn [app find_first length].
  pose proof (H 0 ltac:(simpl; lia)) as H0. rewrite drop_0 in H0. cbn [app] in H0. rewrite H0, IH; [done|].
  intros i Hi. apply (H (S i)). simpl. lia.
Qed.

Lemma iter_shift n m : Nat.iter n (fmap shift_match) (Some m) = Some (MkMatch (n + m_start m) (m_text m) (m_groups m)).
Proof. induction n as [|n IH]; [by destruct m|]. simpl. by rewrite IH. Qed.

Lemma find_first_here r s m : match_prefix r s = Some m → find_first r s = Some m.
Proof. intros E. destruct s; cbn [find_first]; by rewrite E. Qed.

(** A literal prefix that does not occur before [s]. *)
Lemma literal_absent lit r pre b s i :
  (∃ k, lit = k ++ [b] ∧ b ∉ pre) → (∀ x, last pre = Some x → x ∉ lit) →
  i < length pre → alts (Seq (Lit lit) r) (drop i (pre ++ s)) = [].
Proof.
  intros (k & -> & Hb) Hlast Hi.
  assert (alts (Lit (k ++ [b])) (drop i (pre ++ s)) = []) as E; [|cbn [alts]; by rewrite E].
  apply alts_Lit_miss, bool_decide_eq_false. intros E. rewrite drop_app_le in E by lia.
  destruct (drop i pre) as [|x w] eqn:Ew.
  { apply (f_equal length) in Ew. rewrite length_drop in Ew. simpl in Ew. lia. }
  assert (∀ y, y ∈ x :: w → y ∈ pre) as Hin.
  { intros y Hy. rewrite <- Ew in Hy. apply list_elem_of_In in Hy. apply list_elem_of_In.
    rewrite <- (take_drop i pre). apply in_or_app. by right. }
  destruct (decide (length (k ++ [b]) ≤ length (x :: w))) as [Hle|Hgt].
  - apply Hb, Hin. rewrite take_app_le in E by done.
    rewrite <- (take_drop (length (k ++ [b])) (x :: w)), E. set_solver.
  - assert (last pre = last (x :: w)) as El.
    { rewrite <- (take_drop i pre), Ew. rewrite last_app. by destruct (last (x :: w)) eqn:L; [|apply last_None in L]. }
    destruct (last (x :: w)) as [y|] eqn:L; [|by apply last_None in L].
    apply (Hlast y El). rewrite <- E, take_app_ge by lia. apply elem_of_app. left.
    by apply last_Some_elem_of.
Qed.
