(* ===== verification/SqlLex.v ===== *)
(** * The placeholder scanner of [bind.go] and its reference lexer

    [bindQuoteState], [update] and [isEscaped] follow the source: an index into the
    query, five flags and a backwards count of backslashes at every delimiter.
    [ctx], [lex_step] and [ctxs] are the reference: a forward lexer that carries one
    context and one parity bit.  [update_step] says that every call of [update]
    is a step of the reference. *)

From Stdlib Require Import ZifyBool.
From S2P Require Import Prelude GoStd.

(** ** The scanner as written *)

Record bindQuoteState := MkBQS {
  inBacktick : bool;
  inSingle : bool;
  inDouble : bool;
  inLineComment : bool;
  blockComment : Z
}.

#[global] Instance bindQuoteState_eq_dec : EqDecision bindQuoteState.
Proof. solve_decision. Defined.

Definition inProtectedContext (s : bindQuoteState) : bool :=
  inBacktick s || inSingle s || inDouble s || inLineComment s || (0 <? blockComment s)%Z.

Definition inIdentifierOrComment (s : bindQuoteState) : bool :=
  inBacktick s || inDouble s || inLineComment s || (0 <? blockComment s)%Z.

(** [i < len(query) && query[i] == b]. *)
Definition byte_is (query : gostring) (i : nat) (b : byte) : bool :=
  match query !! i with Some c => beq c b | None => false end.

(** [for i := pos - 1; i >= 0 && query[i] == '\\'; i-- { backslashes++ }]. *)
Fixpoint count_backslashes (query : gostring) (pos : nat) : nat :=
  match pos with
  | O => O
  | S i => if byte_is query i "\" then S (count_backslashes query i) else O
  end.

Definition isEscaped (query : gostring) (pos : nat) : bool :=
  Nat.odd (count_backslashes query pos).

Definition isNameChar (ch : byte) : bool :=
  beq ch "_" || in_range "0" "9" ch || in_range "a" "z" ch || in_range "A" "Z" ch.

Definition set_backtick (s : bindQuoteState) (v : bool) :=
  MkBQS v (inSingle s) (inDouble s) (inLineComment s) (blockComment s).
Definition set_single (s : bindQuoteState) (v : bool) :=
  MkBQS (inBacktick s) v (inDouble s) (inLineComment s) (blockComment s).
Definition set_double (s : bindQuoteState) (v : bool) :=
  MkBQS (inBacktick s) (inSingle s) v (inLineComment s) (blockComment s).
Definition set_line (s : bindQuoteState) (v : bool) :=
  MkBQS (inBacktick s) (inSingle s) (inDouble s) v (blockComment s).
Definition set_block (s : bindQuoteState) (v : Z) :=
  MkBQS (inBacktick s) (inSingle s) (inDouble s) (inLineComment s) v.

(** The double quote byte. *)
Definition dquote : byte := x22.

(** [update]: the new state and the index of the last byte consumed; [None] is the
    panic of [query[pos]] out of range. *)
Definition update (s : bindQuoteState) (query : gostring) (pos : nat)
    : option (bindQuoteState * nat) :=
  ch ← query !! pos;
  let quoted delim close :=
    if beq ch delim && negb (isEscaped query pos) then
      if byte_is query (pos + 1) delim then Some (s, pos + 1) else Some (close, pos)
    else Some (s, pos) in
  if inLineComment s then
    if beq ch x0a then Some (set_line s false, pos) else Some (s, pos)
  else if (0 <? blockComment s)%Z then
    if beq ch "/" && byte_is query (pos + 1) "*" then
      Some (set_block s (blockComment s + 1), pos + 1)
    else if beq ch "*" && byte_is query (pos + 1) "/" then
      Some (set_block s (blockComment s - 1), pos + 1)
    else Some (s, pos)
  else if inBacktick s then quoted "`"%byte (set_backtick s false)
  else if inSingle s then quoted "'"%byte (set_single s false)
  else if inDouble s then quoted dquote (set_double s false)
  else if isEscaped query pos then Some (s, pos)
  else if beq ch "`" then Some (set_backtick s true, pos)
  else if beq ch "'" then Some (set_single s true, pos)
  else if beq ch dquote then Some (set_double s true, pos)
  else if beq ch "#" then Some (set_line s true, pos)
  else if beq ch "-" && byte_is query (pos + 1) "-" then Some (set_line s true, pos + 1)
  else if beq ch "/" && byte_is query (pos + 1) "*" then
    Some (set_block s (blockComment s + 1), pos + 1)
  else Some (s, pos).

(** [for j < len(query) && p(query[j]) { j++ }]. *)
Fixpoint scan_while (p : byte → bool) (query : gostring) (fuel j : nat) : nat :=
  match fuel with
  | O => j
  | S fuel =>
      match query !! j with
      | Some ch => if p ch then scan_while p query fuel (j + 1) else j
      | None => j
      end
  end.

(** The zero value: [var state bindQuoteState]. *)
Definition state0 : bindQuoteState := MkBQS false false false false 0.

(** ** The reference lexer *)

(** The lexical context of a position; a block comment carries its depth minus one. *)
Inductive ctx := Raw | Backtick | Single | Double | Line | Block (d : nat).

#[global] Instance ctx_eq_dec : EqDecision ctx.
Proof. solve_decision. Defined.

Definition is_byte (o : option byte) (b : byte) : bool :=
  match o with Some c => beq c b | None => false end.

(** One token: from context [c], with [odd] telling whether an odd number of
    backslashes precedes, the next byte [b] and the byte after it, the new context
    and whether the token has two bytes. *)
Definition lex_step (c : ctx) (odd : bool) (b : byte) (nxt : option byte) : ctx * bool :=
  let quoted delim :=
    if beq b delim && negb odd then
      if is_byte nxt delim then (c, true) else (Raw, false)
    else (c, false) in
  match c with
  | Line => (if beq b x0a then Raw else Line, false)
  | Block d =>
      if beq b "/" && is_byte nxt "*" then (Block (S d), true)
      else if beq b "*" && is_byte nxt "/" then
        (match d with O => Raw | S d => Block d end, true)
      else (c, false)
  | Backtick => quoted "`"%byte
  | Single => quoted "'"%byte
  | Double => quoted dquote
  | Raw =>
      if odd then (Raw, false)
      else if beq b "`" then (Backtick, false)
      else if beq b "'" then (Single, false)
      else if beq b dquote then (Double, false)
      else if beq b "#" then (Line, false)
      else if beq b "-" && is_byte nxt "-" then (Line, true)
      else if beq b "/" && is_byte nxt "*" then (Block 0, true)
      else (Raw, false)
  end.

Definition next_odd (odd : bool) (b : byte) : bool := if beq b "\" then negb odd else false.

(** The context in which each byte of the text is read. *)
Fixpoint ctxs (c : ctx) (odd : bool) (q : gostring) : list ctx :=
  match q with
  | [] => []
  | b :: q' =>
      let '(c', two) := lex_step c odd b (head q') in
      c :: match q' with
           | b2 :: q'' => if two then c :: ctxs c' false q'' else ctxs c' (next_odd odd b) q'
           | [] => []
           end
  end.

(** ** The scanner state of a context *)

Definition of_ctx (c : ctx) : bindQuoteState :=
  match c with
  | Raw => MkBQS false false false false 0
  | Backtick => MkBQS true false false false 0
  | Single => MkBQS false true false false 0
  | Double => MkBQS false false true false 0
  | Line => MkBQS false false false true 0
  | Block d => MkBQS false false false false (Z.of_nat d + 1)
  end.

Definition is_raw (c : ctx) : bool := match c with Raw => true | _ => false end.

Lemma inProtectedContext_of_ctx c : inProtectedContext (of_ctx c) = negb (is_raw c).
Proof.
  destruct c as [| | | | |d]; try done. unfold inProtectedContext. simpl.
  destruct (Z.ltb_spec 0 (Z.of_nat d + 1)); [done|lia].
Qed.

Lemma inIdentifierOrComment_of_ctx c :
  inIdentifierOrComment (of_ctx c) = match c with Raw | Single => false | _ => true end.
Proof.
  destruct c as [| | | | |d]; try done. unfold inIdentifierOrComment. simpl.
  destruct (Z.ltb_spec 0 (Z.of_nat d + 1)); [done|lia].
Qed.

(** The parity of the backslashes at the end of a text. *)
Definition odd_bs (pre : gostring) : bool := isEscaped pre (length pre).

Lemma byte_is_app_l pre suf i b :
  i < length pre → byte_is (pre ++ suf) i b = byte_is pre i b.
Proof. intros H. unfold byte_is. by rewrite lookup_app_l. Qed.

Lemma byte_is_mid pre b suf c : byte_is (pre ++ b :: suf) (length pre) c = beq b c.
Proof. unfold byte_is. by rewrite list_lookup_middle. Qed.

Lemma byte_is_after pre b suf c :
  byte_is (pre ++ b :: suf) (length pre + 1) c = is_byte (head suf) c.
Proof.
  unfold byte_is. rewrite lookup_app_r by lia.
  replace (length pre + 1 - length pre) with 1 by lia. by destruct suf.
Qed.

Lemma count_backslashes_app pre suf i :
  i ≤ length pre → count_backslashes (pre ++ suf) i = count_backslashes pre i.
Proof.
  induction i as [|i IH]; intros H; [done|]. cbn [count_backslashes].
  rewrite byte_is_app_l by lia. by rewrite IH by lia.
Qed.

Lemma isEscaped_app pre suf : isEscaped (pre ++ suf) (length pre) = odd_bs pre.
Proof. unfold isEscaped, odd_bs, isEscaped. by rewrite count_backslashes_app. Qed.

Lemma odd_bs_snoc pre b : odd_bs (pre ++ [b]) = next_odd (odd_bs pre) b.
Proof.
  unfold odd_bs at 1, isEscaped. rewrite length_app, Nat.add_1_r. cbn [count_backslashes].
  rewrite byte_is_mid. unfold next_odd. destruct (beq b "\"); [|done].
  rewrite count_backslashes_app by done. unfold odd_bs, isEscaped.
  by rewrite Nat.odd_succ, <- Nat.negb_odd.
Qed.

Lemma odd_bs_nil : odd_bs [] = false.
Proof. done. Qed.

(** The bytes a token may have as its second byte are no backslashes. *)
Lemma lex_step_two c odd b nxt c' :
  lex_step c odd b nxt = (c', true) →
  ∃ b2, nxt = Some b2 ∧ beq b2 "\" = false ∧ beq b2 "?" = false ∧ beq b "?" = false.
Proof.
  unfold lex_step, is_byte. intros H. destruct nxt as [b2|].
  - exists b2. split; [done|].
    repeat (case_match; simplify_eq/=);
    repeat match goal with
    | H : _ && _ = true |- _ => apply andb_true_iff in H as [? ?]
    | H : beq _ _ = true |- _ => apply beq_true in H; subst
    end; done.
  - exfalso. repeat (case_match; simplify_eq/=);
      rewrite ?andb_false_r in *; simplify_eq.
Qed.

(** A call of [update] is one step of the reference lexer. *)
Lemma update_step pre b suf c :
  update (of_ctx c) (pre ++ b :: suf) (length pre) =
  let '(c', two) := lex_step c (odd_bs pre) b (head suf) in
  Some (of_ctx c', if two then length pre + 1 else length pre).
Proof.
  unfold update. rewrite list_lookup_middle by done. cbn [mbind option_bind].
  rewrite isEscaped_app, !byte_is_after.
  destruct c as [| | | | |d]; cbn [of_ctx inLineComment blockComment inBacktick inSingle inDouble];
    rewrite ?Z.ltb_irrefl; unfold lex_step.
  1-5: by repeat (case_match; simplify_eq/=).
  destruct (Z.ltb_spec 0 (Z.of_nat d + 1)); [|lia].
  destruct (beq b "/" && is_byte (head suf) "*") eqn:E1.
  { unfold set_block. simpl. do 3 f_equal. lia. }
  destruct (beq b "*" && is_byte (head suf) "/") eqn:E2; [|done].
  unfold set_block. destruct d; simpl; [done|]. do 3 f_equal. lia.
Qed.

Lemma scan_while_spec p pre suf fuel :
  length suf ≤ fuel →
  ∃ m r, suf = m ++ r ∧ Forall (λ b, p b = true) m ∧
         match r with b :: _ => p b = false | [] => True end ∧
         scan_while p (pre ++ suf) fuel (length pre) = length pre + length m.
Proof.
  revert pre suf. induction fuel as [|fuel IH]; intros pre suf Hf.
  - destruct suf; [|simpl in Hf; lia]. exists [], []. split_and!; simpl; done || lia.
  - cbn [scan_while]. destruct suf as [|b suf].
    + exists [], []. rewrite (app_nil_r pre), (lookup_ge_None_2 pre) by done. split_and!; simpl; done || lia.
    + rewrite list_lookup_middle by done. destruct (p b) eqn:Ep.
      * destruct (IH (pre ++ [b]) suf) as (m & r & -> & Hm & Hr & Hs); [simpl in Hf; lia|].
        exists (b :: m), r. split_and!; [done|by constructor|done|].
        replace (pre ++ b :: m ++ r) with ((pre ++ [b]) ++ m ++ r) by (by rewrite <- app_assoc).
        rewrite length_app in Hs. cbn [length] in Hs. rewrite Hs. cbn [length]. lia.
      * exists [], (b :: suf). split_and!; simpl; done || lia.
Qed.
