(* ===== verification/FormatValue.v ===== *)
(** * Values as SQL text ([bind.go], [query_parameters.go])

    [formatValue] turns an argument into a SQL literal or into the text of a
    server-side query parameter.  The value type lists the cases of the source's
    type switch and of its [reflect.Kind] switch; [strconv.FormatFloat] on finite
    numbers is a parameter, of which the safety theorem uses only that it yields a
    number's text.

    Theorems: epoch texts denote the instant truncated to their precision
    ([formatEpoch_denotes], [formatTimeParam_exact]); a quoted string is read back
    as the same string and stays inside its literal ([unquote_quote],
    [ctxs_quote]); every formatted value returns the lexer to the context it
    started from ([formatValue_shielded]). *)

From Stdlib Require Import ZifyBool.
From Stdlib.Floats Require Import SpecFloat.
From S2P Require Import Prelude GoStd SqlLex.
Local Open Scope Z_scope.
#[local] Set Warnings "-register-all".

(** ** Times *)

Inductive TimeUnit := Seconds | MilliSeconds | MicroSeconds | NanoSeconds.

#[global] Instance TimeUnit_eq_dec : EqDecision TimeUnit.
Proof. solve_decision. Defined.

(** [int(scale*3)]. *)
Definition scale_digits (u : TimeUnit) : nat :=
  match u with Seconds => 0 | MilliSeconds => 3 | MicroSeconds => 6 | NanoSeconds => 9 end.

Inductive fmt_err :=
| ErrInvalidTimezone (loc : gostring).

#[global] Instance fmt_err_eq_dec : EqDecision fmt_err.
Proof. solve_decision. Defined.

(** [strings.NewReplacer(`\`, `\\`, `'`, `\'`)]. *)
Definition quote_table (b : byte) : option gostring :=
  if beq b "\" then Some (str "\\") else if beq b "'" then Some (str "\'") else None.

Definition stringQuoteReplacer (s : gostring) : gostring := Replace quote_table s.

(** The closure [quote] of [formatValue]. *)
Definition quote (v : gostring) : gostring := str "'" ++ stringQuoteReplacer v ++ str "'".

(** [pow] of [formatEpoch]: [for i := 0; i < digits; i++ { pow *= 10 }]. *)
Fixpoint pow_loop (digits : nat) (pow : Z) : Z :=
  match digits with O => pow | S d => pow_loop d (i64 (pow * 10)) end.

Definition formatEpoch (t : gotime) (digits : nat) : gostring :=
  let sec := Unix t in
  let ns := t_nsec t in
  if (digits =? 0)%nat then FormatInt sec
  else
    let pow := pow_loop digits 1 in
    let frac := Z.quot ns (Z.quot 1000000000 pow) in
    let '(sign, sec, frac) :=
      if sec <? 0 then
        if 0 <? frac then (str "-", i64 (i64 (- sec) - 1), i64 (pow - frac))
        else (str "-", i64 (- sec), frac)
      else ([], sec, frac) in
    sign ++ FormatInt sec ++ str "." ++ FormatPad digits frac.

Definition formatTimeParam (t : gotime) : gostring :=
  let ns := t_nsec t in
  if ns =? 0 then formatEpoch t 0
  else if Z.rem ns 1000000 =? 0 then formatEpoch t 3
  else if Z.rem ns 1000 =? 0 then formatEpoch t 6
  else formatEpoch t 9.

Definition formatTimeWithScale (t : gotime) (scale : TimeUnit) : gostring :=
  match scale with
  | MilliSeconds => formatEpoch t 3
  | MicroSeconds => formatEpoch t 6
  | NanoSeconds => formatEpoch t 9
  | Seconds => formatEpoch t 0
  end.

(** The tail of [formatTime]: the value's own zone is written out. *)
Definition formatTime_zoned (scale : TimeUnit) (value : gotime) : result fmt_err gostring :=
  let locVal := t_loc value in
  let escapedTimezone := stringQuoteReplacer locVal in
  if bool_decide (locVal ≠ escapedTimezone) then Err (ErrInvalidTimezone locVal)
  else match scale with
  | Seconds => Ok (str "toDateTime('" ++ FormatDateTime value ++ str "', '" ++ escapedTimezone ++ str "')")
  | _ => Ok (str "toDateTime64('" ++ FormatDateTimeFrac value (scale_digits scale) ++ str "', "
             ++ FormatUint (Z.of_nat (scale_digits scale)) ++ str ", '" ++ escapedTimezone ++ str "')")
  end.

(** [tz] is the name of the server's time zone. *)
Definition formatTime (tz : gostring) (scale : TimeUnit) (value : gotime) : result fmt_err gostring :=
  let locVal := t_loc value in
  if bool_decide (locVal = str "Local" ∨ locVal = []) then
    if Unix value =? 0 then Ok (str "toDateTime(0)")
    else match scale with
    | Seconds => Ok (str "toDateTime('" ++ FormatInt (Unix value) ++ str "')")
    | MilliSeconds => Ok (str "toDateTime64('" ++ FormatInt (UnixMilli value) ++ str "', 3)")
    | MicroSeconds => Ok (str "toDateTime64('" ++ FormatInt (UnixMicro value) ++ str "', 6)")
    | NanoSeconds => Ok (str "toDateTime64('" ++ FormatInt (UnixNano value) ++ str "', 9)")
    end
  else if bool_decide (locVal = tz) then
    match scale with
    | Seconds => Ok (str "toDateTime('" ++ FormatDateTime value ++ str "')")
    | _ => Ok (str "toDateTime64('" ++ FormatDateTimeFrac value (scale_digits scale) ++ str "', "
               ++ FormatUint (Z.of_nat (scale_digits scale)) ++ str ")")
    end
  else formatTime_zoned scale value.

(** ** Values *)

(** The dynamic values of [any] that the switches of [formatValue] tell apart, in the
    order of the source.  [VStringer None] is a nil pointer whose element type is a
    [Stringer]; the entries of the maps are in the order their iteration yields;
    [VInt] and [VSprint] are what falls through to [fmt.Sprint]. *)
Inductive goval :=
| VNil
| VString (s : gostring)
| VTime (t : gotime)
| VPtrTime (t : option gotime)
| VBool (b : bool)
| VFloat32 (f : spec_float)
| VFloat64 (f : spec_float)
| VGroupSet (l : list goval)
| VGroupSets (l : list goval)
| VArraySet (l : list goval)
| VStringer (s : option gostring)
| VOrderedMap (l : list (goval * goval))
| VIterableOrderedMap (l : list (goval * goval))
| VKindString (s : gostring)
| VSlice (l : list goval)
| VMap (l : list (goval * goval))
| VKindFloat32 (f : spec_float)
| VKindFloat64 (f : spec_float)
| VPtr (v : option goval)
| VInt (z : Z)
| VSprint (s : gostring).

Inductive formatMode := formatSQL | formatParamText.

(** [mapEntry] is the pair of a formatted key and a formatted value. *)
Definition formatMap (entries : list (gostring * gostring)) (mode : formatMode) : gostring :=
  match mode with
  | formatParamText =>
      str "{" ++ strings_Join (map (λ '(k, v), k ++ str ":" ++ v) entries) (str ",") ++ str "}"
  | formatSQL =>
      str "map(" ++ strings_Join (map (λ '(k, v), k ++ str ", " ++ v) entries) (str ", ") ++ str ")"
  end.

Definition IsNaN (f : spec_float) : bool := match f with S754_nan => true | _ => false end.
(** [math.IsInf(f, 1)] and [math.IsInf(f, -1)]. *)
Definition IsInf (f : spec_float) (negative : bool) : bool :=
  match f with S754_infinity n => Bool.eqb n negative | _ => false end.

Definition finite (f : spec_float) : bool := negb (IsNaN f) && negb (IsInf f false) && negb (IsInf f true).

Section format.
(** [strconv.FormatFloat(f, 'g', -1, bitSize)] on finite numbers. *)
Variable FormatFloat : spec_float → Z → gostring.

Definition formatFloat (f : spec_float) (bitSize : Z) (mode : formatMode) : gostring :=
  match mode with
  | formatParamText =>
      if IsNaN f then str "nan"
      else if IsInf f false then str "inf"
      else if IsInf f true then str "-inf"
      else FormatFloat f bitSize
  | formatSQL =>
      let chType := if bitSize =? 32 then str "Float32" else str "Float64" in
      if IsNaN f then str "cast('nan', '" ++ chType ++ str "')"
      else if IsInf f false then str "cast('inf', '" ++ chType ++ str "')"
      else if IsInf f true then str "cast('-inf', '" ++ chType ++ str "')"
      else str "cast(" ++ FormatFloat f bitSize ++ str ", '" ++ chType ++ str "')"
  end.

(** The loops over elements and over entries: the first error ends them. *)
Definition format_all (fv : goval → result fmt_err gostring)
    : list goval → result fmt_err (list gostring) :=
  fix go l := match l with
  | [] => Ok []
  | v :: l => s ← fv v; r ← go l; Ok (s :: r)
  end.

Definition format_entries (fv : goval → result fmt_err gostring)
    : list (goval * goval) → result fmt_err (list (gostring * gostring)) :=
  fix go l := match l with
  | [] => Ok []
  | (k, v) :: l => name ← fv k; val ← fv v; r ← go l; Ok ((name, val) :: r)
  end.

(** [join]. *)
Definition join (fv : goval → result fmt_err gostring) (l : list goval) : result fmt_err gostring :=
  items ← format_all fv l; Ok (strings_Join items (str ", ")).

Fixpoint formatValue (tz : gostring) (scale : TimeUnit) (v : goval) (mode : formatMode)
    : result fmt_err gostring :=
  let fv v := formatValue tz scale v mode in
  let fmap_entries l := entries ← format_entries fv l; Ok (formatMap entries mode) in
  let ftime t := match mode with
                 | formatParamText => Ok (quote (formatTimeParam t))
                 | formatSQL => formatTime tz scale t end in
  match v with
  | VNil => Ok (str "NULL")
  | VString s => Ok (quote s)
  | VTime t => ftime t
  | VPtrTime None => Ok (str "NULL")
  | VPtrTime (Some t) => ftime t
  | VBool b =>
      match mode with
      | formatParamText => Ok (if b then str "true" else str "false")
      | formatSQL => Ok (if b then str "1" else str "0")
      end
  | VFloat32 f => Ok (formatFloat f 32 mode)
  | VFloat64 f => Ok (formatFloat f 64 mode)
  | VGroupSet l => val ← join fv l; Ok (str "(" ++ val ++ str ")")
  | VGroupSets l => join fv l
  | VArraySet l => val ← join fv l; Ok (str "[" ++ val ++ str "]")
  | VStringer None => Ok (str "NULL")
  | VStringer (Some s) => Ok (quote s)
  | VOrderedMap l => fmap_entries l
  | VIterableOrderedMap l => fmap_entries l
  | VKindString s => Ok (quote s)
  | VSlice l => values ← format_all fv l; Ok (str "[" ++ strings_Join values (str ", ") ++ str "]")
  | VMap l => fmap_entries l
  | VKindFloat32 f => Ok (formatFloat f 32 mode)
  | VKindFloat64 f => Ok (formatFloat f 64 mode)
  | VPtr None => Ok (str "NULL")
  | VPtr (Some v) => fv v
  | VInt z => Ok (FormatInt z)
  | VSprint s => Ok s
  end.

(** [format]: client-side binding. *)
Definition format (tz : gostring) (scale : TimeUnit) (v : goval) : result fmt_err gostring :=
  formatValue tz scale v formatSQL.
End format.

(** ** Epoch texts *)

Lemma pow_loop_3 : pow_loop 3 1 = 1000. Proof. reflexivity. Qed.
Lemma pow_loop_6 : pow_loop 6 1 = 1000000. Proof. reflexivity. Qed.
Lemma pow_loop_9 : pow_loop 9 1 = 1000000000. Proof. reflexivity. Qed.

(** The nanoseconds since the epoch. *)
Definition total_ns (t : gotime) : Z := t_sec t * 1000000000 + t_nsec t.

Definition epoch_digits (d : nat) : Prop := d = 0%nat ∨ d = 3%nat ∨ d = 6%nat ∨ d = 9%nat.

(** The value of the formatted text for a divisor [q] of 10^9 with [pow * q = 10^9]. *)
Lemma floor_parts t q pow :
  time_wf t → 0 < q → 0 < pow → q * pow = 1000000000 →
  (t_sec t * 1000000000 + t_nsec t) / q = t_sec t * pow + t_nsec t / q
  ∧ 0 ≤ t_nsec t / q < pow.
Proof.
  intros [H0 H1] Hq Hp E. split.
  - rewrite <- E, (Z.mul_comm q), Z.mul_assoc, Z.add_comm, Z.div_add by lia. lia.
  - split; [apply Z.div_pos; lia|apply Z.div_lt_upper_bound; nia].
Qed.

(** The general case of the next theorem. *)
Lemma formatEpoch_denotes_ t digits :
  time_wf t → - 2 ^ 63 < t_sec t < 2 ^ 63 → epoch_digits digits →
  read_number (formatEpoch t digits)
  = Some (total_ns t / 10 ^ (9 - Z.of_nat digits), digits).
Proof.
  intros Hwf Hs Hd. unfold formatEpoch, Unix, total_ns. pose proof Hwf as [Hn0 Hn1].
  assert (∀ w pow q, (0 < w)%nat → pow_loop w 1 = pow → pow = 10 ^ Z.of_nat w →
            10 ^ (9 - Z.of_nat w) = q → 0 < q → 0 < pow → q * pow = 1000000000 →
            pow ≤ 1000000000 →
     read_number (let frac := Z.quot (t_nsec t) (Z.quot 1000000000 (pow_loop w 1)) in
       let '(sign, sec, frac) :=
         if t_sec t <? 0 then
           if 0 <? frac then (str "-", i64 (i64 (- t_sec t) - 1), i64 (pow_loop w 1 - frac))
           else (str "-", i64 (- t_sec t), frac)
         else ([], t_sec t, frac) in
       sign ++ FormatInt sec ++ str "." ++ FormatPad w frac)
     = Some ((t_sec t * 1000000000 + t_nsec t) / 10 ^ (9 - Z.of_nat w), w)) as Hmain.
  { intros w pow q Hw Hpl Hpow Hq Hq0 Hp0 E Hp9. rewrite Hpl, Hq.
    destruct (floor_parts t q pow Hwf Hq0 Hp0 E) as [-> Hf].
    assert (Z.quot 1000000000 pow = q) as ->.
    { rewrite <- E. apply Z.quot_mul. lia. }
    rewrite Z.quot_div_nonneg by lia. set (f := t_nsec t / q) in *. cbv zeta.
    unfold FormatInt. destruct (Z.ltb_spec (t_sec t) 0) as [Hneg|Hpos].
    - rewrite (i64_small (- t_sec t)) by lia. destruct (Z.ltb_spec 0 f) as [Hf0|Hf0].
      + rewrite !i64_small by lia. destruct (Z.ltb_spec (- t_sec t - 1) 0); [lia|].
        rewrite (read_FormatFrac true) by lia. rewrite <- Hpow. do 2 f_equal. lia.
      + assert (f = 0) as -> by lia. destruct (Z.ltb_spec (- t_sec t) 0); [lia|].
        rewrite (read_FormatFrac true) by lia. rewrite <- Hpow. do 2 f_equal. lia.
    - destruct (Z.ltb_spec (t_sec t) 0); [lia|].
      rewrite (read_FormatFrac false) by lia. rewrite <- Hpow. done. }
  destruct Hd as [ -> | [ -> | [ -> | -> ] ] ]; cbn [Nat.eqb].
  - rewrite read_FormatInt. change (10 ^ (9 - Z.of_nat 0)) with 1000000000.
    rewrite Z.div_add_l, (Z.div_small (t_nsec t)), Z.add_0_r by lia. done.
  - apply (Hmain _ 1000 1000000); done || lia.
  - apply (Hmain _ 1000000 1000); done || lia.
  - apply (Hmain _ 1000000000 1); done || lia.
Qed.

(** The text sent for a time parameter with [digits] fractional digits denotes the
    instant rounded down to that precision, on both sides of 1970: reading the text
    as a decimal number gives the floor of the instant in units of 10^-digits
    seconds, with exactly [digits] digits behind the point. *)
Theorem formatEpoch_denotes t digits :
  time_wf t → - 2 ^ 63 < t_sec t < 2 ^ 63 → epoch_digits digits →
  read_number (formatEpoch t digits)
  = Some (total_ns t / 10 ^ (9 - Z.of_nat digits), digits).
Proof. apply formatEpoch_denotes_. Qed.

(** [formatTimeParam] loses nothing: its text denotes exactly the instant. *)
Theorem formatTimeParam_exact t :
  time_wf t → - 2 ^ 63 < t_sec t < 2 ^ 63 →
  ∃ n d, read_number (formatTimeParam t) = Some (n, d) ∧ epoch_digits d
         ∧ n * 10 ^ (9 - Z.of_nat d) = total_ns t.
Proof.
  intros Hwf Hs. pose proof Hwf as [Hn0 Hn1]. unfold formatTimeParam.
  assert (∀ d q, epoch_digits d → 10 ^ (9 - Z.of_nat d) = q → 0 < q →
            (q | 1000000000) → t_nsec t mod q = 0 →
    ∃ n d', read_number (formatEpoch t d) = Some (n, d') ∧ epoch_digits d'
         ∧ n * 10 ^ (9 - Z.of_nat d') = total_ns t) as Hmain.
  { intros d q Hd Hq Hq0 [k Hk] Hm. exists (total_ns t / 10 ^ (9 - Z.of_nat d)), d.
    rewrite formatEpoch_denotes_ by done.
    split; [done|]. split; [done|]. rewrite Hq. rewrite Z.mul_comm. symmetry.
    apply Z_div_exact_full_2; [lia|]. unfold total_ns.
    rewrite Hk, Z.mul_assoc, Z.add_comm, Z.mod_add by lia. done. }
  rewrite !Z.rem_mod_nonneg by lia.
  destruct (Z.eqb_spec (t_nsec t) 0) as [E|_].
  { apply (Hmain 0%nat 1000000000); [by left|done|lia|by exists 1|by rewrite E]. }
  destruct (Z.eqb_spec (t_nsec t mod 1000000) 0) as [E|_].
  { apply (Hmain 3%nat 1000000); [right; by left|done|lia|by exists 1000|done]. }
  destruct (Z.eqb_spec (t_nsec t mod 1000) 0) as [E|_].
  { apply (Hmain 6%nat 1000); [do 2 right; by left|done|lia|by exists 1000000|done]. }
  apply (Hmain 9%nat 1); [by do 3 right|done|lia|by exists 1000000000|apply Z.mod_1_r].
Qed.

(** ** Quoting *)

(** A reader of single-quoted literals: a backslash makes the next byte literal, a
    doubled quote is a quote, the first other quote ends the literal.  [fuel] bounds
    the bytes read. *)
Fixpoint unquote_body (fuel : nat) (s : gostring) : option (gostring * gostring) :=
  match fuel, s with
  | S fuel, b :: s =>
      if beq b "\" then
        match s with
        | c :: s => '(v, r) ← unquote_body fuel s; Some (c :: v, r)
        | [] => None
        end
      else if beq b "'" then
        match s with
        | c :: s' => if beq c "'" then '(v, r) ← unquote_body fuel s'; Some (c :: v, r)
                     else Some ([], s)
        | [] => Some ([], [])
        end
      else '(v, r) ← unquote_body fuel s; Some (b :: v, r)
  | _, _ => None
  end.

Definition unquote (s : gostring) : option (gostring * gostring) :=
  match s with
  | b :: s => if beq b "'" then unquote_body (length s) s else None
  | [] => None
  end.

(** What may follow a literal without extending it. *)
Definition no_quote (post : gostring) : Prop := head post ≠ Some ("'"%byte).

Lemma replacer_cons b s :
  stringQuoteReplacer (b :: s) =
  (match quote_table b with Some r => r | None => [b] end) ++ stringQuoteReplacer s.
Proof. done. Qed.

Lemma unquote_body_replacer s post fuel :
  no_quote post → (length (stringQuoteReplacer s ++ str "'" ++ post) ≤ fuel)%nat →
  unquote_body fuel (stringQuoteReplacer s ++ str "'" ++ post) = Some (s, post).
Proof.
  intros Hp. revert fuel. induction s as [|b s IH]; intros [|fuel] Hf.
  - simpl in Hf. lia.
  - simpl. destruct post as [|c post]; [done|].
    destruct (beq_spec c "'") as [->|]; [by destruct Hp|done].
  - rewrite !length_app in Hf. change (length (str "'")) with 1%nat in Hf. lia.
  - rewrite replacer_cons in *. unfold quote_table in *.
    destruct (beq_spec b "\") as [->|Hb]; [|destruct (beq_spec b "'") as [->|Hq]].
    + change (str "\\") with ["\"%byte : byte; "\"%byte] in *.
      cbn [app unquote_body length] in *. rewrite beq_refl, IH; [done|lia].
    + change (str "\'") with ["\"%byte : byte; "'"%byte] in *.
      cbn [app unquote_body length] in *. rewrite beq_refl, IH; [done|lia].
    + cbn [app unquote_body length] in *. rewrite (beq_ne b "\"), (beq_ne b "'") by done.
      rewrite IH; [done|lia].
Qed.

(** Quoting a string and reading the literal back gives the string, whatever its
    bytes, and leaves exactly what followed. *)
Theorem unquote_quote s post : no_quote post → unquote (quote s ++ post) = Some (s, post).
Proof.
  intros Hp. unfold quote. rewrite <- !app_assoc.
  change (str "'" ++ ?x) with (("'"%byte : byte) :: x). cbn [app unquote str].
  rewrite (unquote_body_replacer s post) by done. reflexivity.
Qed.

(** ** Contexts of formatted text *)

Lemma ctxs_one c c' odd b q :
  lex_step c odd b (head q) = (c', false) → ctxs c odd (b :: q) = c :: ctxs c' (next_odd odd b) q.
Proof. intros E. cbn [ctxs]. rewrite E. by destruct q. Qed.

(** [covers c c' t post]: reading [t] before [post] from context [c] ends in [c'],
    and every byte of [t] is read as plain SQL or inside a string literal. *)
Definition covers (c c' : ctx) (t post : gostring) : Prop :=
  ∃ cs, length cs = length t ∧ Forall (λ x, x = Raw ∨ x = Single) cs ∧
        ctxs c false (t ++ post) = cs ++ ctxs c' false post.

Definition lexes (c c' : ctx) (t : gostring) : Prop := ∀ post, covers c c' t post.

(** A text that from plain SQL leads back to plain SQL, before anything that does not
    extend a closing quote. *)
Definition shielded (t : gostring) : Prop := ∀ post, no_quote post → covers Raw Raw t post.

Lemma covers_app c1 c2 c3 t1 t2 post :
  covers c1 c2 t1 (t2 ++ post) → covers c2 c3 t2 post → covers c1 c3 (t1 ++ t2) post.
Proof.
  intros (cs1 & Hl1 & Hf1 & E1) (cs2 & Hl2 & Hf2 & E2). exists (cs1 ++ cs2).
  split; [by rewrite !length_app, Hl1, Hl2|]. split; [by apply Forall_app|].
  by rewrite <- app_assoc, E1, E2, app_assoc.
Qed.

Lemma covers_nil c post : covers c c [] post.
Proof. by exists []. Qed.

Lemma covers_cons c c1 c2 b t post :
  (c = Raw ∨ c = Single) → lex_step c false b (head (t ++ post)) = (c1, false) →
  beq b "\" = false → covers c1 c2 t post → covers c c2 (b :: t) post.
Proof.
  intros Hc Hs Hb (cs & Hl & Hf & E). exists (c :: cs). split; [by cbn; rewrite Hl|].
  split; [by constructor|]. cbn [app]. rewrite (ctxs_one c c1) by done.
  unfold next_odd. by rewrite Hb, E.
Qed.

(** An executable sufficient check, for the fixed parts of the texts. *)
Definition plainb (b : byte) : bool :=
  negb (beq b "`" || beq b "'" || beq b dquote || beq b "#" || beq b "-" || beq b "/" || beq b "\").

Definition next_is_not (t : gostring) (b : byte) : bool :=
  match t with c :: _ => negb (beq c b) | [] => false end.

Fixpoint run (c : ctx) (t : gostring) : option ctx :=
  match t with
  | [] => Some c
  | b :: t' =>
      match c with
      | Raw =>
          if plainb b then run Raw t'
          else if beq b "'" then run Single t'
          else if beq b "-" && next_is_not t' "-" then run Raw t'
          else None
      | Single =>
          if beq b "'" then if next_is_not t' "'" then run Raw t' else None
          else if beq b "\" then None else run Single t'
      | _ => None
      end
  end.

Lemma next_is_not_spec t post b : next_is_not t b = true → is_byte (head (t ++ post)) b = false.
Proof. destruct t as [|c t]; [done|]. simpl. by destruct (beq c b). Qed.

Lemma plainb_spec b :
  plainb b = true →
  beq b "`" = false ∧ beq b "'" = false ∧ beq b dquote = false ∧ beq b "#" = false ∧
  beq b "-" = false ∧ beq b "/" = false ∧ beq b "\" = false.
Proof. unfold plainb. rewrite negb_true_iff, !orb_false_iff. tauto. Qed.

Lemma lex_step_plain b nxt : plainb b = true → lex_step Raw false b nxt = (Raw, false).
Proof.
  intros (H1 & H2 & H3 & H4 & H5 & H6 & _)%plainb_spec. unfold lex_step.
  by rewrite H1, H2, H3, H4, H5, H6.
Qed.

Lemma run_lexes c c' t : run c t = Some c' → lexes c c' t.
Proof.
  revert c. induction t as [|b t IH]; intros c Hr post; cbn [run] in Hr.
  { simplify_eq. apply covers_nil. }
  destruct c; try done.
  - destruct (plainb b) eqn:Ep; [|destruct (beq_spec b "'") as [->|Hb];
      [|destruct (beq_spec b "-") as [->|Hd]; [|done]]].
    + eapply covers_cons; [by left|by apply lex_step_plain| |by apply IH].
      by apply plainb_spec in Ep as (_&_&_&_&_&_&?).
    + eapply covers_cons; [by left|reflexivity|done|by apply IH].
    + destruct (next_is_not t "-") eqn:En; [|done]. simpl in Hr.
      eapply covers_cons; [by left| |done|by apply IH].
      unfold lex_step. by rewrite (next_is_not_spec t post _ En).
  - destruct (beq_spec b "'") as [->|Hb].
    + destruct (next_is_not t "'") eqn:En; [|done].
      eapply covers_cons; [by right| |done|by apply IH].
      unfold lex_step. by rewrite (next_is_not_spec t post _ En).
    + destruct (beq b "\") eqn:Eb; [done|].
      eapply covers_cons; [by right| |done|by apply IH].
      unfold lex_step. by rewrite (beq_ne b "'").
Qed.

Lemma lexes_app c1 c2 c3 t1 t2 : lexes c1 c2 t1 → lexes c2 c3 t2 → lexes c1 c3 (t1 ++ t2).
Proof. intros H1 H2 post. by eapply covers_app. Qed.

Lemma lexes_shielded t : lexes Raw Raw t → shielded t.
Proof. intros H post _. apply H. Qed.

Lemma shielded_app t1 t2 : lexes Raw Raw t1 → shielded t2 → shielded (t1 ++ t2).
Proof. intros H1 H2 post Hp. eapply covers_app; [apply H1|by apply H2]. Qed.

(** A shielded text followed by a text that starts with something else than a quote. *)
Lemma shielded_then t1 t2 :
  shielded t1 → next_is_not t2 "'" = true → lexes Raw Raw t2 → lexes Raw Raw (t1 ++ t2).
Proof.
  intros H1 Hn H2 post. eapply covers_app; [|apply H2]. apply H1.
  destruct t2 as [|b t2]; [done|]. intros E. by simplify_eq/=.
Qed.

(** Quotes and backslashes apart, everything may stand inside a literal. *)
Definition cleanb (b : byte) : bool := negb (beq b "'" || beq b "\").

Lemma clean_lexes t : Forall (λ b, cleanb b = true) t → lexes Single Single t.
Proof.
  intros Ht. apply run_lexes. induction Ht as [|b t Hb Ht IH]; [done|]. cbn [run].
  unfold cleanb in Hb. rewrite negb_true_iff, orb_false_iff in Hb. destruct Hb as [-> ->]. done.
Qed.

Lemma replacer_lexes s post : covers Single Single (stringQuoteReplacer s) post.
Proof.
  induction s as [|b s (cs & Hl & Hf & E)]; [apply covers_nil|].
  rewrite replacer_cons. unfold quote_table.
  destruct (beq_spec b "\") as [->|Hb]; [|destruct (beq_spec b "'") as [->|Hq]].
  1-2: exists (Single :: Single :: cs); split; [by cbn; rewrite Hl|];
    split; [by repeat (constructor; [by right|])|].
  1: change (str "\\") with ["\"%byte : byte; "\"%byte].
  2: change (str "\'") with ["\"%byte : byte; "'"%byte].
  1-2: cbn [app]; do 2 rewrite (ctxs_one Single Single) by done; cbn; by rewrite E.
  exists (Single :: cs). split; [by cbn; rewrite Hl|]. split; [constructor; auto|].
  rewrite <- app_assoc. cbn [app]. rewrite (ctxs_one Single Single).
  - unfold next_odd. by rewrite (beq_ne b "\"), E.
  - unfold lex_step. by rewrite (beq_ne b "'").
Qed.

(** A quoted string is one literal: it leads from plain SQL back to plain SQL. *)
Lemma quote_shielded s : shielded (quote s).
Proof.
  intros post Hp. unfold quote. eapply covers_app.
  { apply (run_lexes Raw Single). done. }
  eapply covers_app; [apply replacer_lexes|].
  exists [Single]. split; [done|]. split; [by constructor; [right|]|].
  change (str "'" ++ post) with (("'"%byte : byte) :: post). apply ctxs_one.
  unfold lex_step. simpl. destruct post as [|c post]; [done|]. simpl.
  rewrite beq_ne; [done|]. intros ->. by destruct Hp.
Qed.

(** ** Formatted values are shielded *)

(** The texts [strconv.FormatFloat] yields with format 'g': an optional sign, digits
    with an optional point, an optional exponent with its sign. *)
Definition number_text (t : gostring) : Prop :=
  ∃ (neg : bool) m e, t = (if neg then str "-" else []) ++ m ++ e
    ∧ m ≠ [] ∧ Forall (λ b, isDigit b || beq b "." = true) m
    ∧ (e = [] ∨ ∃ (s : bool) ds, e = str "e" ++ (if s then str "-" else str "+") ++ ds
         ∧ ds ≠ [] ∧ Forall (λ b, isDigit b = true) ds).

Lemma isDigit_plain b : isDigit b = true → plainb b = true.
Proof. destruct b; vm_compute; done. Qed.

Lemma numeric_plain b : isDigit b || beq b "." = true → plainb b = true.
Proof. destruct b; vm_compute; done. Qed.

Lemma isDigit_clean b : isDigit b = true → cleanb b = true.
Proof. destruct b; vm_compute; done. Qed.

Lemma run_app c c' c'' t1 t2 :
  run c t1 = Some c' → t2 ≠ [] → next_is_not t2 "'" = true → next_is_not t2 "-" = true →
  run c' t2 = Some c'' → run c (t1 ++ t2) = Some c''.
Proof.
  revert c. induction t1 as [|b t1 IH]; intros c H1 Hne Hq Hm H2; cbn [run app] in *.
  { by simplify_eq. }
  assert (∀ x, next_is_not t1 x = true → next_is_not (t1 ++ t2) x = true) as Hn
    by (by destruct t1).
  destruct c; try done.
  - destruct (plainb b); [by apply IH|]. destruct (beq b "'"); [by apply IH|].
    destruct (beq b "-" && next_is_not t1 "-") eqn:E; [|done].
    apply andb_true_iff in E as [-> E]. rewrite Hn by done. by apply IH.
  - destruct (beq b "'").
    + destruct (next_is_not t1 "'") eqn:E; [|done]. rewrite Hn by done. by apply IH.
    + destruct (beq b "\"); [done|]. by apply IH.
Qed.

Lemma run_plain t : Forall (λ b, plainb b = true) t → run Raw t = Some Raw.
Proof. induction 1 as [|b t Hb Ht IH]; [done|]. cbn [run]. by rewrite Hb. Qed.

Lemma run_minus t : run Raw t = Some Raw → next_is_not t "-" = true → run Raw (str "-" ++ t) = Some Raw.
Proof.
  intros Hr Hn. change (str "-" ++ t) with (("-"%byte : byte) :: t). cbn [run].
  change (plainb "-") with false. change (beq "-" "'") with false. rewrite beq_refl, Hn. done.
Qed.

Lemma plain_next t x : Forall (λ b, plainb b = true) t → t ≠ [] → plainb x = false → next_is_not t x = true.
Proof.
  intros Ht Hne Hx. destruct Ht as [|b t Hb Ht]; [done|]. simpl.
  destruct (beq_spec b x) as [->|]; [by rewrite Hx in Hb|done].
Qed.

Lemma FormatInt_lexes z : lexes Raw Raw (FormatInt z).
Proof.
  apply run_lexes.
  assert (∀ n, Forall (λ b, plainb b = true) (FormatUint n)) as Hp.
  { intros n. eapply Forall_impl; [apply FormatUint_digits|apply isDigit_plain]. }
  unfold FormatInt. destruct (z <? 0); [|by apply run_plain].
  apply (run_minus (FormatUint (- z))); [by apply run_plain|].
  apply plain_next; [done|apply FormatUint_nonempty|done].
Qed.

Lemma number_lexes t : number_text t → lexes Raw Raw t.
Proof.
  intros (neg & m & e & -> & Hm & Hmp & He). apply run_lexes.
  assert (Forall (λ b, plainb b = true) m) as Hp
    by (eapply Forall_impl; [exact Hmp|apply numeric_plain]).
  assert (run Raw (m ++ e) = Some Raw) as Hme.
  { destruct He as [->|(s & ds & -> & Hds & Hdp)]; [rewrite app_nil_r; by apply run_plain|].
    assert (Forall (λ b, plainb b = true) ds) as Hdp'
      by (eapply Forall_impl; [exact Hdp|apply isDigit_plain]).
    eapply run_app; [by apply run_plain|done|done|done|].
    destruct s; simpl; [|by apply run_plain].
    rewrite plain_next by done. simpl. by apply run_plain. }
  destruct neg; [|done]. apply run_minus; [done|].
  destruct m as [|b m]; [done|]. apply (plain_next (b :: m) "-") in Hp; done.
Qed.

(** The clean parts of the time texts. *)
Lemma FormatInt_clean z : Forall (λ b, cleanb b = true) (FormatInt z).
Proof.
  unfold FormatInt. destruct (z <? 0); [constructor; [done|]|].
  all: eapply Forall_impl; [apply FormatUint_digits|apply isDigit_clean].
Qed.

Lemma FormatPad_clean w n : Forall (λ b, cleanb b = true) (FormatPad w n).
Proof. eapply Forall_impl; [apply FormatPad_digits|apply isDigit_clean]. Qed.

Lemma FormatDateTime_clean t : Forall (λ b, cleanb b = true) (FormatDateTime t).
Proof.
  unfold FormatDateTime, FormatDate, FormatClock. destruct (civil_from_days _) as [[y m] d].
  unfold FormatYear. destruct (y <? 0).
  all: repeat first [apply FormatPad_clean | apply Forall_app; split | constructor; [done|] | by vm_compute].
  all: repeat constructor.
Qed.

Lemma FormatDateTimeFrac_clean t d : Forall (λ b, cleanb b = true) (FormatDateTimeFrac t d).
Proof.
  unfold FormatDateTimeFrac. apply Forall_app. split; [apply FormatDateTime_clean|].
  apply Forall_app. split; [by repeat constructor|apply FormatPad_clean].
Qed.

Lemma replacer_fixed_clean s : s = stringQuoteReplacer s → Forall (λ b, cleanb b = true) s.
Proof.
  assert (∀ u, length u ≤ length (stringQuoteReplacer u))%nat as Hlen.
  { induction u as [|b u IH]; [done|]. rewrite replacer_cons, length_app. cbn [length].
    assert (1 ≤ length (match quote_table b with Some r => r | None => [b] end))%nat; [|lia].
    unfold quote_table. destruct (beq b "\"), (beq b "'"); vm_compute; lia. }
  induction s as [|b s IH]; [done|]. rewrite replacer_cons. unfold quote_table. intros E.
  pose proof (f_equal length E) as El. rewrite length_app in El. specialize (Hlen s).
  destruct (beq b "\") eqn:Eb; [simpl in El; lia|].
  destruct (beq b "'") eqn:Eq; [simpl in El; lia|].
  injection E as E. constructor; [unfold cleanb; by rewrite Eb, Eq|by apply IH].
Qed.

Ltac lit := apply run_lexes; vm_compute; reflexivity.

Lemma join_shielded items sep :
  lexes Raw Raw sep → next_is_not sep "'" = true →
  Forall shielded items → shielded (strings_Join items sep).
Proof.
  intros Hs Hn Hi. induction Hi as [|x items Hx Hi IH]; [by apply lexes_shielded; lit|].
  destruct items as [|y items]; [done|].
  change (strings_Join (x :: y :: items) sep) with (x ++ sep ++ strings_Join (y :: items) sep).
  rewrite app_assoc. apply shielded_app; [by apply shielded_then|done].
Qed.

Lemma wrap_lexes l body r :
  lexes Raw Raw l → shielded body → next_is_not r "'" = true → lexes Raw Raw r →
  lexes Raw Raw (l ++ body ++ r).
Proof. intros Hl Hb Hn Hr. eapply lexes_app; [done|by apply shielded_then]. Qed.

Lemma pair_shielded k sep v :
  shielded k → shielded v → lexes Raw Raw sep → next_is_not sep "'" = true → shielded (k ++ sep ++ v).
Proof. intros. rewrite app_assoc. apply shielded_app; [by apply shielded_then|done]. Qed.

Lemma formatMap_lexes entries mode :
  Forall (λ '(k, v), shielded k ∧ shielded v) entries → lexes Raw Raw (formatMap entries mode).
Proof.
  intros He. unfold formatMap. destruct mode.
  all: apply wrap_lexes; [lit| |done|lit]; apply join_shielded; [lit|done|].
  all: apply Forall_map; eapply Forall_impl; [exact He|]; intros [k v] [Hk Hv]; cbv beta iota.
  all: apply pair_shielded; [done|done|lit|done].
Qed.

(** Walks through a text of fixed and clean parts. *)
Ltac part := first
  [ apply clean_lexes; first [apply FormatInt_clean | apply FormatDateTime_clean
                             | apply FormatDateTimeFrac_clean | assumption]
  | apply run_lexes; reflexivity ].
Ltac parts := repeat (eapply lexes_app; [part|]); part.

Lemma formatTime_lexes tz scale t s : formatTime tz scale t = Ok s → lexes Raw Raw s.
Proof.
  unfold formatTime, formatTime_zoned. intros H.
  repeat case_match; try discriminate; apply Ok_inj in H; subst s; try by parts.
  all: match goal with H : bool_decide (?l ≠ ?r) = false |- _ =>
    apply bool_decide_eq_false, dec_stable in H; pose proof (replacer_fixed_clean _ H) as Hc;
    rewrite <- H end.
  all: parts.
Qed.

(** Structural induction on values, by the shape of their contents. *)
Definition is_leaf (v : goval) : bool :=
  match v with
  | VGroupSet _ | VGroupSets _ | VArraySet _ | VSlice _ | VOrderedMap _
  | VIterableOrderedMap _ | VMap _ | VPtr (Some _) => false
  | _ => true
  end.

Lemma goval_shape_ind (P : goval → Prop)
    (Hleaf : ∀ v, is_leaf v = true → P v)
    (Hseq : ∀ l, Forall P l → P (VGroupSet l) ∧ P (VGroupSets l) ∧ P (VArraySet l) ∧ P (VSlice l))
    (Hmap : ∀ l, Forall (λ '(k, v), P k ∧ P v) l →
              P (VOrderedMap l) ∧ P (VIterableOrderedMap l) ∧ P (VMap l))
    (Hptr : ∀ v, P v → P (VPtr (Some v))) :
  ∀ v, P v.
Proof.
  fix IH 1. intros v. destruct v; try (apply Hleaf; reflexivity).
  1-3, 6: apply Hseq; induction l as [|x l IHl]; constructor; [apply IH|exact IHl].
  1-3: apply Hmap; induction l as [|[k x] l IHl]; constructor; [split; apply IH|exact IHl].
  destruct v as [v|]; [apply Hptr, IH|apply Hleaf; reflexivity].
Qed.

(** What [fmt.Sprint] prints for the remaining kinds holds no delimiter. *)
Fixpoint printable (v : goval) : bool :=
  match v with
  | VSprint s => forallb plainb s
  | VGroupSet l | VGroupSets l | VArraySet l | VSlice l => forallb printable l
  | VOrderedMap l | VIterableOrderedMap l | VMap l =>
      forallb (λ e, match e with (k, x) => printable k && printable x end) l
  | VPtr (Some x) => printable x
  | _ => true
  end.

Lemma bind_Ok {E A B} (x : result E A) (f : A → result E B) b :
  (x ≫= f) = Ok b → ∃ a, x = Ok a ∧ f a = Ok b.
Proof. destruct x as [a|e]; [|discriminate]. intros H. by exists a. Qed.

Section shield.
Variable FormatFloat : spec_float → Z → gostring.
Variable tz : gostring.
Variable scale : TimeUnit.
Variable mode : formatMode.
(** The documented form of [strconv.FormatFloat]'s output for a finite number. *)
Hypothesis FormatFloat_number : ∀ f w, finite f = true → number_text (FormatFloat f w).

Lemma formatFloat_lexes f w : lexes Raw Raw (formatFloat FormatFloat f w mode).
Proof.
  unfold formatFloat. destruct (IsNaN f) eqn:E1; [destruct mode; repeat case_match; lit|].
  destruct (IsInf f false) eqn:E2; [destruct mode; repeat case_match; lit|].
  destruct (IsInf f true) eqn:E3; [destruct mode; repeat case_match; lit|].
  assert (number_text (FormatFloat f w)) as Hn by (apply FormatFloat_number; unfold finite; by rewrite E1, E2, E3).
  destruct mode; [|by apply number_lexes].
  eapply lexes_app; [lit|]. eapply lexes_app; [by apply number_lexes|]. case_match; lit.
Qed.

Definition good (v : goval) : Prop :=
  printable v = true → ∀ s, formatValue FormatFloat tz scale v mode = Ok s → shielded s.

Lemma format_all_shielded l ss :
  Forall good l → forallb printable l = true →
  format_all (λ v, formatValue FormatFloat tz scale v mode) l = Ok ss → Forall shielded ss.
Proof.
  intros Hl. revert ss. induction Hl as [|v l Hv Hl IH]; intros ss Hp E; simpl in E.
  { apply Ok_inj in E as <-. constructor. }
  simpl in Hp. apply andb_true_iff in Hp as [Hp1 Hp2].
  apply bind_Ok in E as (s & E1 & E). apply bind_Ok in E as (r & E2 & E).
  apply Ok_inj in E as <-. constructor; [by eapply Hv|by apply IH].
Qed.

Lemma format_entries_shielded l es :
  Forall (λ '(k, v), good k ∧ good v) l →
  forallb (λ e, match e with (k, x) => printable k && printable x end) l = true →
  format_entries (λ v, formatValue FormatFloat tz scale v mode) l = Ok es →
  Forall (λ '(k, v), shielded k ∧ shielded v) es.
Proof.
  intros Hl. revert es. induction Hl as [|[k v] l [Hk Hv] Hl IH]; intros es Hp E; simpl in E.
  { apply Ok_inj in E as <-. constructor. }
  simpl in Hp. apply andb_true_iff in Hp as [[Hp1 Hp2]%andb_true_iff Hp3].
  apply bind_Ok in E as (s & E1 & E). apply bind_Ok in E as (w & E2 & E).
  apply bind_Ok in E as (r & E3 & E). apply Ok_inj in E as <-.
  constructor; [split; [by eapply Hk|by eapply Hv]|by apply IH].
Qed.

Lemma join_format_shielded l s :
  Forall good l → forallb printable l = true →
  join (λ v, formatValue FormatFloat tz scale v mode) l = Ok s → shielded s.
Proof.
  intros Hl Hp E. unfold join in E. apply bind_Ok in E as (ss & E1 & E).
  apply Ok_inj in E as <-. apply join_shielded; [lit|done|]. by eapply format_all_shielded.
Qed.

Lemma map_format_shielded l s :
  Forall (λ '(k, v), good k ∧ good v) l →
  forallb (λ e, match e with (k, x) => printable k && printable x end) l = true →
  (entries ← format_entries (λ v, formatValue FormatFloat tz scale v mode) l;
   Ok (formatMap entries mode)) = Ok s → shielded s.
Proof.
  intros Hl Hp E. apply bind_Ok in E as (es & E1 & E). apply Ok_inj in E as <-.
  apply lexes_shielded, formatMap_lexes. by eapply format_entries_shielded.
Qed.

Lemma leaf_good v : is_leaf v = true → good v.
Proof.
  intros Hl Hp s E. destruct v; try discriminate; simpl in E;
    repeat (case_match; try discriminate);
    try (apply Ok_inj in E; subst s);
    first [ apply quote_shielded | apply lexes_shielded; lit
          | apply lexes_shielded, formatFloat_lexes
          | apply lexes_shielded, FormatInt_lexes
          | apply lexes_shielded; by eapply formatTime_lexes | idtac ].
  apply lexes_shielded, run_lexes, run_plain. simpl in Hp.
  apply List.Forall_forall. by apply forallb_forall.
Qed.

Lemma all_good v : good v.
Proof.
  revert v. apply goval_shape_ind; [intros v Hv|intros l Hl|intros l Hl|intros v Hv].
  - by apply leaf_good.
  - split; [|split; [|split]]; intros Hp s E; cbn [formatValue printable] in Hp, E;
      [| by eapply join_format_shielded | |].
    + apply bind_Ok in E as (x & E1 & E). apply Ok_inj in E as <-.
      apply lexes_shielded, wrap_lexes; [lit|by eapply join_format_shielded|done|lit].
    + apply bind_Ok in E as (x & E1 & E). apply Ok_inj in E as <-.
      apply lexes_shielded, wrap_lexes; [lit|by eapply join_format_shielded|done|lit].
    + apply bind_Ok in E as (x & E1 & E). apply Ok_inj in E as <-.
      apply lexes_shielded, wrap_lexes; [lit| |done|lit].
      apply join_shielded; [lit|done|]. by eapply format_all_shielded.
  - split; [|split]; intros Hp s E; cbn [formatValue printable] in Hp, E; by eapply map_format_shielded.
  - intros Hp s E. simpl in *. by apply Hv.
Qed.
End shield.

(** C8: Injection safety of literals. Whatever bytes the strings inside a value hold
    (quotes, backslashes, newlines, comment markers), its formatted text, read from plain
    SQL before anything that is not a quote, leads the lexer back to plain SQL, and none of
    its bytes is read as part of a comment or of a quoted identifier; this holds at every
    nesting depth, in both modes, and for times with hostile zone names. Values that the
    code hands to [fmt.Sprint], of types it has no case for, are covered when that text has
    only plain characters ([printable]): their text is not quoted, and [sprint_not_shielded]
    shows one that leaves plain SQL. Of [strconv.FormatFloat] it is assumed that a finite
    float is written as a number. *)
Theorem formatValue_shielded FormatFloat tz scale mode v s :
  (∀ f w, finite f = true → number_text (FormatFloat f w)) → printable v = true →
  formatValue FormatFloat tz scale v mode = Ok s → shielded s.
Proof. intros HF Hp E. by eapply all_good. Qed.

Definition demo_float (_ : spec_float) (_ : Z) : gostring := str "1.5e-07".

Lemma demo_float_number f w : number_text (demo_float f w).
Proof.
  exists false, (str "1.5"), (str "e-07"). split; [done|]. split; [done|].
  split; [by repeat constructor|]. right. exists true, (str "07").
  split; [done|]. split; [done|]. by repeat constructor.
Qed.

Definition hostile : goval :=
  VMap [(VString (str "k' --"), VSlice [VString (str "\'; DROP TABLE t --"); VInt (-1); VFloat64 S754_nan])].

Lemma formatValue_shielded_witness :
  shielded (str "map('k\' --', ['\\\'; DROP TABLE t --', -1, cast('nan', 'Float64')])").
Proof.
  apply (formatValue_shielded demo_float (str "UTC") Seconds formatSQL hostile).
  - intros f w _. apply demo_float_number.
  - vm_compute. reflexivity.
  - vm_compute. reflexivity.
Defined.

(** A value of another kind, a struct for one, is printed by [fmt.Sprint] with its strings
    as they are: a comment in one of them reaches the query. *)
Example sprint_not_shielded :
  let t := str "{x -- }" in
  formatValue demo_float (str "UTC") Seconds (VSprint t) formatSQL = Ok t ∧ ¬ shielded t.
Proof.
  split; [reflexivity|]. intros H. destruct (H (str " a") ltac:(done)) as (cs & Hl & Hf & E).
  assert (cs = take 7 (ctxs Raw false (str "{x -- } a"))) as ->.
  { change (str "{x -- } a") with (str "{x -- }" ++ str " a"). rewrite E. change 7%nat with (length (str "{x -- }")).
    by rewrite <- Hl, take_app_length. }
  vm_compute in Hf. repeat (apply Forall_cons in Hf as [? Hf]). naive_solver.
Qed.

Lemma unquote_quote_witness :
  unquote (quote (str "it's \ fine") ++ str ", 2") = Some (str "it's \ fine", str ", 2").
Proof. apply unquote_quote. discriminate. Defined.

Definition before_epoch : gotime := MkTime (-86401) 500000000 (str "UTC") 0.

Lemma formatEpoch_denotes_witness :
  formatEpoch before_epoch 3 = str "-86400.500" ∧
  read_number (formatEpoch before_epoch 3) = Some (-86400500, 3%nat).
Proof.
  split; [reflexivity|]. apply (formatEpoch_denotes before_epoch 3).
  - split; simpl; lia.
  - simpl. lia.
  - right. by left.
Defined.

Lemma formatTimeParam_exact_witness :
  ∃ n d, read_number (formatTimeParam before_epoch) = Some (n, d) ∧ epoch_digits d
         ∧ n * 10 ^ (9 - Z.of_nat d) = -86400500000000.
Proof. apply (formatTimeParam_exact before_epoch); [split; simpl; lia|simpl; lia]. Defined.
