(* ===== verification/Bind.v ===== *)
(** * Client-side binding of query arguments ([bind.go])

    [bindPositional], [bindNumeric] and [bindNamed] walk over the query by index,
    copy the text between placeholders with [lastMatchIndex] and append the formatted
    arguments.  They are modelled as loops with the source's variables; [None] is a
    panic (an index or slice out of range) or a loop that does not end, and the
    theorems exclude both.  The reference definitions cut the query into pieces with
    the forward lexer of [SqlLex] and render the pieces. *)

From Stdlib Require Import ZifyBool.
From Stdlib.Floats Require Import SpecFloat.
From S2P Require Import Prelude GoStd SqlLex FormatValue.

(** ** Arguments *)

(** An anonymous argument: a value, and what [Value()] returns when the argument
    implements [driver.Valuer]. *)
Record anon := MkAnon { a_value : goval; a_Valuer : option (result gostring goval) }.

Definition plain_arg (v : goval) : anon := MkAnon v None.

(** [any] as the binder tells it apart. *)
Inductive barg :=
| NamedValue (Name : gostring) (Value : anon)
| NamedDateValue (Name : gostring) (Value : gotime) (Scale : TimeUnit)
| Anonymous (v : anon).

Inductive bind_err :=
| ErrBindMixedParamsFormats
| ErrValuer (msg : gostring)
| ErrFormat (e : fmt_err)
| ErrNoArgPositions (n : nat)              (* "have no arg for param ? at last %d positions" *)
| ErrNoArgParam (params : gset gostring).  (* the message names one of these *)

#[global] Instance bind_err_eq_dec : EqDecision bind_err.
Proof. solve_decision. Defined.

Definition Named (name : gostring) (value : anon) : barg := NamedValue name value.
Definition DateNamed (name : gostring) (value : gotime) (scale : TimeUnit) : barg :=
  NamedDateValue name value scale.

(** [checkAllNamedArguments]: the two flags and the early error. *)
Fixpoint checkAllNamed_loop (args : list barg) (haveNamed haveAnonymous : bool) : result bind_err bool :=
  match args with
  | [] => Ok haveNamed
  | a :: args =>
      let '(n, an) := match a with
                      | NamedValue _ _ | NamedDateValue _ _ _ => (true, haveAnonymous)
                      | Anonymous _ => (haveNamed, true) end in
      if n && an then Err ErrBindMixedParamsFormats else checkAllNamed_loop args n an
  end.

Definition checkAllNamedArguments (args : list barg) : result bind_err bool :=
  checkAllNamed_loop args false false.

(** [rebind]: the arguments of [database/sql], where a name may be empty. *)
Definition rebind (args : list (gostring * anon)) : list barg :=
  map (λ '(name, v), if negb (bool_decide (name = [])) then NamedValue name v else Anonymous v) args.

(** ** Which placeholder styles the query uses *)

Fixpoint bindParamsFormats_loop (fuel : nat) (query : gostring) (i : nat) (state : bindQuoteState)
    (haveNumeric havePositional : bool) : option (bool * bool) :=
  match query !! i with
  | None => Some (haveNumeric, havePositional)
  | Some ch =>
      match fuel with
      | O => None
      | S fuel =>
          let '(num, pos) :=
            if inProtectedContext state then (haveNumeric, havePositional)
            else if beq ch "?" && ((i =? 0) || negb (byte_is query (i - 1) "\")) then (haveNumeric, true)
            else if beq ch "$" && match query !! (i + 1) with Some d => isDigit d | None => false end
            then (true, havePositional)
            else (haveNumeric, havePositional) in
          if negb (inProtectedContext state) && num && pos then Some (num, pos)
          else
            '(state, j) ← update state query i;
            bindParamsFormats_loop fuel query (j + 1) state num pos
      end
  end.

Definition bindParamsFormats (query : gostring) : option (bool * bool) :=
  bindParamsFormats_loop (length query) query 0 state0 false false.

Section bind.
Variable FormatFloat : spec_float → Z → gostring.
Variable tz : gostring.

(** [if fn, ok := v.(Valuer); ok { v, err = fn.Value() }], then [format(tz, Seconds, v)]. *)
Definition format_arg (a : anon) : result bind_err gostring :=
  v ← (match a_Valuer a with
       | Some (Ok v) => Ok v
       | Some (Err m) => Err (ErrValuer m)
       | None => Ok (a_value a) end);
  map_err ErrFormat (format FormatFloat tz Seconds v).

(** [query[last+1:i]]. *)
Definition cut (query : gostring) (last : Z) (i : nat) : option gostring :=
  slice query (Z.to_nat (last + 1)) i.

(** ** Positional placeholders *)

Record pos_state := MkPos {
  lastMatchIndex : Z;
  argIndex : nat;
  buf : gostring;
  unbindCount : nat;
  p_state : bindQuoteState
}.

Fixpoint bindPositional_loop (fuel : nat) (query : gostring) (args : list anon) (i : nat) (s : pos_state)
    : option (result bind_err pos_state) :=
  match query !! i with
  | None => Some (Ok s)
  | Some ch =>
      match fuel with
      | O => None
      | S fuel =>
          let '(MkPos last argi buf unb state) := s in
          if beq ch "?" then
            if inIdentifierOrComment state then bindPositional_loop fuel query args (i + 1) s
            else if (0 <? i) && byte_is query (i - 1) "\" then
              p ← cut query last (i - 1);
              bindPositional_loop fuel query args (i + 1)
                (MkPos (Z.of_nat i) argi ((buf ++ p) ++ str "?") unb state)
            else if inSingle state then bindPositional_loop fuel query args (i + 1) s
            else
              p ← cut query last i;
              match args !! argi with
              | Some v =>
                  match format_arg v with
                  | Err e => Some (Err e)
                  | Ok value =>
                      bindPositional_loop fuel query args (i + 1)
                        (MkPos (Z.of_nat i) (argi + 1) ((buf ++ p) ++ value) unb state)
                  end
              | None =>
                  bindPositional_loop fuel query args (i + 1)
                    (MkPos (Z.of_nat i) argi (buf ++ p) (unb + 1) state)
              end
          else
            '(state, j) ← update state query i;
            bindPositional_loop fuel query args (j + 1) (MkPos last argi buf unb state)
      end
  end.

Definition bindPositional (query : gostring) (args : list anon) : option (result bind_err gostring) :=
  r ← bindPositional_loop (length query) query args 0 (MkPos (-1) 0 [] 0 state0);
  match r with
  | Err e => Some (Err e)
  | Ok (MkPos last _ buf unb _) =>
      if (last <? 0)%Z then Some (Ok query)
      else
        rest ← slice_from query (Z.to_nat (last + 1));
        if 0 <? unb then Some (Err (ErrNoArgPositions unb))
        else Some (Ok (buf ++ rest))
  end.

(** ** Numbered and named placeholders

    [bindNumeric] and [bindNamed] share their scanning loop up to the sigil, the class
    of the bytes that follow it and where the inner loop starts ([i + first]). *)

Record mark_state := MkMark {
  m_last : Z;
  m_buf : gostring;
  m_unbind : gset gostring;
  m_state : bindQuoteState
}.

Fixpoint bind_marks_loop (sigil : byte) (p : byte → bool) (first : nat) (params : gmap gostring gostring)
    (fuel : nat) (query : gostring) (i : nat) (s : mark_state) : option mark_state :=
  match query !! i with
  | None => Some s
  | Some ch =>
      match fuel with
      | O => None
      | S fuel =>
          let '(MkMark last buf unbind state) := s in
          if negb (inProtectedContext state) && beq ch sigil
             && match query !! (i + 1) with Some d => p d | None => false end then
            let j := scan_while p query (length query) (i + first) in
            param ← slice query i j;
            t ← cut query last i;
            let '(buf, unbind) :=
              match params !! param with
              | Some value => ((buf ++ t) ++ value, unbind)
              | None => (buf ++ t, {[param]} ∪ unbind)
              end in
            bind_marks_loop sigil p first params fuel query (j - 1 + 1)
              (MkMark (Z.of_nat (j - 1)) buf unbind state)
          else
            '(state, j) ← update state query i;
            bind_marks_loop sigil p first params fuel query (j + 1) (MkMark last buf unbind state)
      end
  end.

Definition bind_marks (sigil : byte) (p : byte → bool) (first : nat) (params : gmap gostring gostring)
    (query : gostring) : option (result bind_err gostring) :=
  '(MkMark last buf unbind _) ←
    bind_marks_loop sigil p first params (length query) query 0 (MkMark (-1) [] ∅ state0);
  if (last <? 0)%Z then Some (Ok query)
  else
    rest ← slice_from query (Z.to_nat (last + 1));
    if bool_decide (unbind = ∅) then Some (Ok (buf ++ rest)) else Some (Err (ErrNoArgParam unbind)).

(** [params[fmt.Sprintf("$%d", i+1)] = val]. *)
Fixpoint numeric_params (i : Z) (args : list anon) (params : gmap gostring gostring)
    : result bind_err (gmap gostring gostring) :=
  match args with
  | [] => Ok params
  | v :: args =>
      val ← format_arg v;
      numeric_params (i + 1) args (<[str "$" ++ FormatInt (i + 1) := val]> params)
  end.

(** Lifts the arguments' error into the outcome. *)
Definition with_params (r : result bind_err (gmap gostring gostring))
    (k : gmap gostring gostring → option (result bind_err gostring)) : option (result bind_err gostring) :=
  match r with Ok params => k params | Err e => Some (Err e) end.

Definition bindNumeric (query : gostring) (args : list anon) : option (result bind_err gostring) :=
  with_params (numeric_params 0 args ∅) (λ params, bind_marks "$" isDigit 2 params query).

(** [params["@"+v.Name] = val]: a later argument of the same name wins. *)
Fixpoint named_params (args : list barg) (params : gmap gostring gostring)
    : result bind_err (gmap gostring gostring) :=
  match args with
  | [] => Ok params
  | NamedValue name v :: args =>
      val ← format_arg v;
      named_params args (<[str "@" ++ name := val]> params)
  | NamedDateValue name t scale :: args =>
      val ← map_err ErrFormat (format FormatFloat tz scale (VTime t));
      named_params args (<[str "@" ++ name := val]> params)
  | Anonymous _ :: args => named_params args params
  end.

Definition bindNamed (query : gostring) (args : list barg) : option (result bind_err gostring) :=
  with_params (named_params args ∅) (λ params, bind_marks "@" isNameChar 1 params query).

(** ** [bind] *)

Definition anonymous_args (args : list barg) : list anon :=
  omap (λ a, match a with Anonymous v => Some v | _ => None end) args.

Definition bind (query : gostring) (args : list barg) : option (result bind_err gostring) :=
  match args with
  | [] => Some (Ok query)
  | _ =>
      match checkAllNamedArguments args with
      | Err e => Some (Err e)
      | Ok true => bindNamed query args
      | Ok false =>
          '(haveNumeric, havePositional) ← bindParamsFormats query;
          if haveNumeric && havePositional then Some (Err ErrBindMixedParamsFormats)
          else if haveNumeric then bindNumeric query (anonymous_args args)
          else bindPositional query (anonymous_args args)
      end
  end.
End bind.

(** ** Reference: cut the query into pieces, then render the pieces *)

Inductive piece := Byte (b : byte) | Hole | Mark (name : gostring).

(** An escaped question mark is unescaped in plain SQL and in string literals. *)
Definition unescapes (c : ctx) : bool := match c with Raw | Single => true | _ => false end.

Fixpoint pos_pieces (c : ctx) (odd : bool) (q : gostring) : list piece :=
  match q with
  | [] => []
  | b :: q' =>
      if beq b "?" then (if is_raw c then Hole else Byte b) :: pos_pieces c false q'
      else
        let '(c', two) := lex_step c odd b (head q') in
        match q' with
        | [] => [Byte b]
        | b2 :: q'' =>
            if beq b "\" && beq b2 "?" && unescapes c then Byte b2 :: pos_pieces c false q''
            else if two then Byte b :: Byte b2 :: pos_pieces c' false q''
            else Byte b :: pos_pieces c' (next_odd odd b) q'
        end
  end.

(** One step per token; a mark is the sigil and the longest run of [p] after it. *)
Fixpoint mark_pieces (sigil : byte) (p : byte → bool) (fuel : nat) (c : ctx) (odd : bool) (q : gostring)
    : list piece :=
  match fuel, q with
  | S fuel, b :: q' =>
      if is_raw c && beq b sigil && match q' with d :: _ => p d | [] => false end then
        let '(m, r) := span p q' in
        Mark (b :: m) :: mark_pieces sigil p fuel c false r
      else
        let '(c', two) := lex_step c odd b (head q') in
        match q' with
        | b2 :: q'' =>
            if two then Byte b :: Byte b2 :: mark_pieces sigil p fuel c' false q''
            else Byte b :: mark_pieces sigil p fuel c' (next_odd odd b) q'
        | [] => [Byte b]
        end
  | _, _ => []
  end.

Definition piece_source (x : piece) : gostring :=
  match x with Byte b => [b] | Hole => str "?" | Mark m => m end.

Section render.
Variable FormatFloat : spec_float → Z → gostring.
Variable tz : gostring.

(** The text, and the number of holes for which no argument was left. *)
Fixpoint fill (ps : list piece) (args : list anon) : result bind_err (gostring * nat) :=
  match ps with
  | [] => Ok ([], 0)
  | Hole :: ps =>
      match args with
      | v :: args =>
          value ← format_arg FormatFloat tz v;
          '(t, n) ← fill ps args; Ok (value ++ t, n)
      | [] => '(t, n) ← fill ps []; Ok (t, S n)
      end
  | x :: ps => '(t, n) ← fill ps args; Ok (piece_source x ++ t, n)
  end.

Definition fill_positional (query : gostring) (args : list anon) : result bind_err gostring :=
  '(t, n) ← fill (pos_pieces Raw false query) args;
  if (0 <? n)%nat then Err (ErrNoArgPositions n) else Ok t.
End render.

(** The text with every known mark replaced, and the set of unknown marks. *)
Definition render_mark (params : gmap gostring gostring) (x : piece) : gostring :=
  match x with Mark m => default [] (params !! m) | _ => piece_source x end.

Definition unknown_marks (params : gmap gostring gostring) (ps : list piece) : gset gostring :=
  list_to_set (omap (λ x, match x with
    | Mark m => match params !! m with Some _ => None | None => Some m end
    | _ => None end) ps).

Definition replace_marks (params : gmap gostring gostring) (ps : list piece) : result bind_err gostring :=
  let u := unknown_marks params ps in
  if bool_decide (u = ∅) then Ok (flat_map (render_mark params) ps) else Err (ErrNoArgParam u).

(** ** Lists and positions *)

Lemma lookup_length_app {A} (pre : list A) b suf : (pre ++ b :: suf) !! length pre = Some b.
Proof. by apply list_lookup_middle. Qed.

Lemma lookup_after (pre : gostring) b suf :
  (pre ++ b :: suf) !! (length pre + 1) = head suf.
Proof.
  rewrite lookup_app_r by lia. replace (length pre + 1 - length pre) with 1 by lia.
  by destruct suf.
Qed.

Lemma snoc_app {A} (pre : list A) b suf : pre ++ b :: suf = (pre ++ [b]) ++ suf.
Proof. by rewrite <- app_assoc. Qed.

Lemma snoc2_app {A} (pre : list A) b b2 suf : pre ++ b :: b2 :: suf = (pre ++ [b; b2]) ++ suf.
Proof. by rewrite <- app_assoc. Qed.

Lemma cut_app last pre suf :
  (-1 ≤ last)%Z → (last < Z.of_nat (length pre))%Z →
  cut (pre ++ suf) last (length pre) = Some (drop (Z.to_nat (last + 1)) pre).
Proof.
  intros H1 H2. unfold cut. rewrite slice_Some by (rewrite ?length_app; lia). f_equal.
  rewrite drop_app_le by lia. rewrite take_app_le by (rewrite length_drop; lia).
  apply take_ge. rewrite length_drop. lia.
Qed.

(** The backslash before an escaped question mark is left out of the copied text. *)
Lemma cut_before last pre b suf :
  (-1 ≤ last)%Z → (last < Z.of_nat (length pre))%Z →
  cut (pre ++ b :: suf) last (length (pre ++ [b]) - 1) = Some (drop (Z.to_nat (last + 1)) pre).
Proof.
  intros H1 H2. rewrite length_app. cbn [length]. rewrite Nat.add_sub.
  by apply (cut_app last pre (b :: suf)).
Qed.

(** The text emitted so far: the buffer, and what will be copied at the next match. *)
Definition pending (last : Z) (buf pre : gostring) : gostring :=
  buf ++ drop (Z.to_nat (last + 1)) pre.

Lemma pending_snoc last buf pre b :
  (last < Z.of_nat (length pre))%Z → pending last buf (pre ++ b) = pending last buf pre ++ b.
Proof. intros H. unfold pending. by rewrite drop_app_le, app_assoc by lia. Qed.

Lemma pending_at_end buf pre b :
  pending (Z.of_nat (length pre)) buf (pre ++ [b]) = buf.
Proof.
  unfold pending. rewrite drop_ge; [apply app_nil_r|]. rewrite length_app. simpl. lia.
Qed.

(** ** The positional loop renders the pieces *)

Definition pos_inv (s : pos_state) (pre : gostring) : Prop :=
  (-1 ≤ lastMatchIndex s)%Z ∧ (lastMatchIndex s < Z.of_nat (length pre))%Z ∧
  ((lastMatchIndex s < 0)%Z → buf s = [] ∧ unbindCount s = 0).

(** The loop's outcome [r] on [q] is [base] followed by the reference's text. *)
Definition agrees (ref : result bind_err (gostring * nat)) (base : gostring) (unb : nat) (q : gostring)
    (r : option (result bind_err pos_state)) : Prop :=
  match ref, r with
  | Ok (t, k), Some (Ok s) =>
      pending (lastMatchIndex s) (buf s) q = base ++ t ∧ unbindCount s = unb + k ∧ pos_inv s q
  | Err e, Some (Err e') => e = e'
  | _, _ => False
  end.

Lemma agrees_text x ref base unb q r :
  agrees ref (base ++ x) unb q r → agrees ('(t, n) ← ref; Ok (x ++ t, n)) base unb q r.
Proof.
  unfold agrees. destruct ref as [[t n]|e]; simpl; [|done].
  destruct r as [[s|]|]; [|done..]. intros (E & H). split; [|done]. by rewrite E, app_assoc.
Qed.

Lemma agrees_hole ref base unb q r :
  agrees ref base (unb + 1) q r → agrees ('(t, n) ← ref; Ok (t, S n)) base unb q r.
Proof.
  unfold agrees. destruct ref as [[t n]|e]; simpl; [|done].
  destruct r as [[s|]|]; [|done..]. intros (E & Hu & H). split; [done|]. split; [lia|done].
Qed.

Lemma prev_byte pre b suf x :
  (0 <? length (pre ++ [b])) && byte_is ((pre ++ [b]) ++ suf) (length (pre ++ [b]) - 1) x = beq b x.
Proof.
  rewrite length_app. cbn [length]. rewrite Nat.add_sub, <- app_assoc. cbn [app].
  rewrite byte_is_mid. by destruct (Nat.ltb_spec 0 (length pre + 1)); [|lia].
Qed.

(** No escaped question mark starts at [suf]. *)
Definition esc_free (pre suf : gostring) (c : ctx) : Prop :=
  is_byte (head suf) "?" = true → unescapes c = true →
  (0 <? length pre) && byte_is (pre ++ suf) (length pre - 1) "\" = false.

Lemma lex_step_backslash c odd nxt : lex_step c odd "\" nxt = (c, false).
Proof. unfold lex_step. destruct c; simpl; by destruct odd. Qed.

Section pos_loop.
Variable FormatFloat : spec_float → Z → gostring.
Variable tz : gostring.
Variable args : list anon.

Definition pos_ok (suf : gostring) : Prop := ∀ pre c fuel s,
  length suf ≤ fuel → p_state s = of_ctx c → pos_inv s pre → esc_free pre suf c →
  agrees (fill FormatFloat tz (pos_pieces c (odd_bs pre) suf) (drop (argIndex s) args))
    (pending (lastMatchIndex s) (buf s) pre) (unbindCount s) (pre ++ suf)
    (bindPositional_loop FormatFloat tz fuel (pre ++ suf) args (length pre) s).

(** Passing over bytes [x] without a match. *)
Lemma pos_ok_skip x suf pre c fuel last argi b unb :
  pos_ok suf → length suf ≤ fuel →
  pos_inv (MkPos last argi b unb (of_ctx c)) pre → esc_free (pre ++ x) suf c →
  agrees ('(t, n) ← fill FormatFloat tz (pos_pieces c (odd_bs (pre ++ x)) suf) (drop argi args);
          Ok (x ++ t, n))
    (pending last b pre) unb ((pre ++ x) ++ suf)
    (bindPositional_loop FormatFloat tz fuel ((pre ++ x) ++ suf) args (length (pre ++ x))
       (MkPos last argi b unb (of_ctx c))).
Proof.
  intros IH Hf (H1 & H2 & H3) He. simpl in *. apply agrees_text.
  rewrite <- pending_snoc by done.
  apply (IH (pre ++ x) c fuel (MkPos last argi b unb (of_ctx c))); try done.
  split; [done|]. split; [|done]. simpl. rewrite length_app. lia.
Qed.

(** Behind a match at [b]. *)
Lemma pos_ok_match b suf pre c fuel argi bf unb :
  pos_ok suf → length suf ≤ fuel → beq b "\" = false →
  agrees (fill FormatFloat tz (pos_pieces c false suf) (drop argi args))
    bf unb ((pre ++ [b]) ++ suf)
    (bindPositional_loop FormatFloat tz fuel ((pre ++ [b]) ++ suf) args (length (pre ++ [b]))
       (MkPos (Z.of_nat (length pre)) argi bf unb (of_ctx c))).
Proof.
  intros IH Hf Hb.
  pose proof (IH (pre ++ [b]) c fuel (MkPos (Z.of_nat (length pre)) argi bf unb (of_ctx c))) as Hx.
  cbn [lastMatchIndex argIndex buf unbindCount p_state] in Hx.
  rewrite pending_at_end, odd_bs_snoc in Hx. unfold next_odd in Hx. rewrite Hb in Hx.
  apply Hx; [done|done| |].
  - unfold pos_inv. simpl. rewrite length_app. simpl. lia.
  - intros _ _. by rewrite prev_byte.
Qed.

(** A question mark. *)
Lemma pos_question suf pre c fuel last argi b unb :
  pos_ok suf → length suf ≤ fuel →
  pos_inv (MkPos last argi b unb (of_ctx c)) pre → esc_free pre ("?"%byte :: suf) c →
  agrees (fill FormatFloat tz (pos_pieces c (odd_bs pre) ("?"%byte :: suf)) (drop argi args))
    (pending last b pre) unb (pre ++ "?"%byte :: suf)
    (bindPositional_loop FormatFloat tz (S fuel) (pre ++ "?"%byte :: suf) args (length pre)
       (MkPos last argi b unb (of_ctx c))).
Proof.
  intros IH Hf Hinv He. cbn [bindPositional_loop pos_pieces].
  rewrite lookup_length_app, beq_refl, inIdentifierOrComment_of_ctx.
  assert (esc_free (pre ++ ["?"%byte]) suf c) as He'.
  { intros _ _. by rewrite prev_byte. }
  assert (odd_bs (pre ++ ["?"%byte]) = false) as Ho by (by rewrite odd_bs_snoc).
  pose proof (pos_ok_skip ["?"%byte] suf pre c fuel last argi b unb IH Hf Hinv He') as Hskip.
  rewrite Ho, <- snoc_app, length_app in Hskip. cbn [length] in Hskip.
  pose proof Hinv as (H1 & H2 & H3). cbn in H1, H2, H3.
  destruct c; try exact Hskip.
  - unfold esc_free in He. rewrite He by done. cbn [inSingle of_ctx is_raw fill].
    rewrite cut_app by lia. cbn [mbind option_bind].
    destruct (args !! argi) as [v|] eqn:Ea.
    + rewrite (drop_S args v argi) by done.
      destruct (format_arg FormatFloat tz v) as [value|e]; cbn [mbind result_bind]; [|done].
      apply agrees_text.
      pose proof (pos_ok_match "?" suf pre Raw fuel (argi + 1)
        ((b ++ drop (Z.to_nat (last + 1)) pre) ++ value) unb IH Hf eq_refl) as Hm.
      rewrite <- snoc_app, length_app in Hm. cbn [length] in Hm.
      replace (S argi) with (argi + 1) by lia. exact Hm.
    + rewrite drop_ge by (by apply lookup_ge_None). apply agrees_hole.
      pose proof (pos_ok_match "?" suf pre Raw fuel argi
        (b ++ drop (Z.to_nat (last + 1)) pre) (unb + 1) IH Hf eq_refl) as Hm.
      rewrite <- snoc_app, length_app, (drop_ge args) in Hm by (by apply lookup_ge_None).
      cbn [length] in Hm. exact Hm.
  - unfold esc_free in He. rewrite He by done. cbn [inSingle of_ctx]. exact Hskip.
Qed.

(** Any other byte: an escaped question mark, a token of two bytes or of one. *)
Lemma pos_other x suf pre c fuel last argi b unb :
  (∀ suf', length suf' ≤ length suf → pos_ok suf') → length suf ≤ fuel → beq x "?" = false →
  pos_inv (MkPos last argi b unb (of_ctx c)) pre →
  agrees (fill FormatFloat tz (pos_pieces c (odd_bs pre) (x :: suf)) (drop argi args))
    (pending last b pre) unb (pre ++ x :: suf)
    (bindPositional_loop FormatFloat tz (S fuel) (pre ++ x :: suf) args (length pre)
       (MkPos last argi b unb (of_ctx c))).
Proof.
  intros IH Hf Hx Hinv. cbn [bindPositional_loop pos_pieces].
  rewrite lookup_length_app, Hx, update_step.
  destruct (lex_step c (odd_bs pre) x (head suf)) as [c' two] eqn:El. cbn [mbind option_bind].
  assert (∀ d, pos_inv (MkPos last argi b unb (of_ctx d)) pre) as Hinv' by (intros d; exact Hinv).
  destruct suf as [|b2 suf].
  { destruct two; [by apply lex_step_two in El as (? & ? & _)|].
    pose proof (pos_ok_skip [x] [] pre c' fuel last argi b unb (IH [] ltac:(done)) Hf (Hinv' c')) as Hs.
    rewrite <- snoc_app, length_app in Hs. cbn [length] in Hs. apply Hs. by intros ?. }
  destruct (beq x "\" && beq b2 "?" && unescapes c) eqn:Eesc.
  - (* an escaped question mark: two turns of the loop *)
    apply andb_true_iff in Eesc as [[Ex Eb]%andb_true_iff Ec].
    apply beq_true in Ex as ->. apply beq_true in Eb as ->.
    rewrite lex_step_backslash in El. injection El as <- <-.
    destruct fuel as [|fuel]; [simpl in Hf; lia|]. cbn [bindPositional_loop].
    rewrite snoc_app. replace (length pre + 1) with (length (pre ++ ["\"%byte])) by (by rewrite length_app).
    rewrite lookup_length_app, beq_refl, inIdentifierOrComment_of_ctx.
    assert (match c with Raw | Single => false | _ => true end = false) as -> by (by destruct c).
    rewrite prev_byte, beq_refl, <- app_assoc. cbn [app].
    destruct Hinv as (H1 & H2 & H3). cbn in H1, H2, H3.
    rewrite cut_before by lia. cbn [mbind option_bind fill]. apply agrees_text.
    pose proof (pos_ok_match "?" suf (pre ++ ["\"%byte]) c fuel argi
        ((b ++ drop (Z.to_nat (last + 1)) pre) ++ str "?") unb (IH suf ltac:(simpl; lia))
        ltac:(simpl in Hf; lia) eq_refl) as Hm.
    rewrite <- !app_assoc in Hm. cbn [app] in Hm. rewrite !length_app in Hm.
    rewrite !length_app. cbn [length] in *. unfold pending. rewrite <- !app_assoc.
    replace (length pre + 1 + 1) with (length pre + 2) by lia. exact Hm.
  - destruct two.
    + apply lex_step_two in El as (b2' & [= <-] & Hb2 & Hb2q & _).
      pose proof (pos_ok_skip [x; b2] suf pre c' fuel last argi b unb (IH suf ltac:(simpl; lia))
        ltac:(simpl in Hf; lia) (Hinv' c')) as Hs.
      rewrite (app_assoc pre [x] [b2] : pre ++ [x; b2] = _), odd_bs_snoc in Hs.
      unfold next_odd in Hs. rewrite Hb2, <- !app_assoc in Hs. cbn [app] in Hs.
      rewrite !length_app in Hs. cbn [length] in Hs. cbn [fill piece_source].
      destruct (fill FormatFloat tz (pos_pieces c' false suf) (drop argi args)) as [[t n]|e];
        cbn [mbind result_bind] in *;
        (replace (length pre + 1 + 1) with (length pre + 2) by lia); apply Hs.
      all: intros _ _; rewrite (app_assoc pre [x] [b2] : pre ++ [x; b2] = _); by rewrite prev_byte.
    + pose proof (pos_ok_skip [x] (b2 :: suf) pre c' fuel last argi b unb
        (IH (b2 :: suf) ltac:(done)) Hf (Hinv' c')) as Hs.
      rewrite <- snoc_app, length_app, odd_bs_snoc in Hs. cbn [length] in Hs. apply Hs.
      intros Hq Hu. rewrite prev_byte. destruct (beq_spec x "\") as [->|]; [|done].
      rewrite lex_step_backslash in El. injection El as <-.
      cbn [is_byte head] in Hq. rewrite Hq, Hu in Eesc. done.
Qed.

Lemma pos_ok_all suf : pos_ok suf.
Proof.
  remember (length suf) as n eqn:En. revert suf En.
  induction (lt_wf n) as [n _ IH]. intros suf ->.
  intros pre c fuel [last argi b unb st] Hf Hst Hinv He. simpl in Hst. subst st.
  destruct suf as [|x suf].
  - rewrite app_nil_r. replace (bindPositional_loop _ _ _ _ _ _ _)
      with (Some (@Ok bind_err _ (MkPos last argi b unb (of_ctx c))));
      [|destruct fuel; cbn [bindPositional_loop]; by rewrite lookup_ge_None_2].
    cbn. split; [by rewrite app_nil_r|]. split; [lia|exact Hinv].
  - destruct fuel as [|fuel]; [simpl in Hf; lia|]. simpl in Hf.
    cbn [lastMatchIndex argIndex buf unbindCount].
    destruct (beq_spec x "?") as [->|Hx].
    + apply pos_question; [by apply (IH (length suf)); [simpl; lia|]|lia|done|done].
    + apply pos_other; [|lia|by apply beq_ne|done].
      intros suf' Hl. by apply (IH (length suf')); [simpl; lia|].
Qed.
End pos_loop.

(** The statement of the next theorem, shared with the dispatcher's. *)
Lemma bindPositional_spec_ FormatFloat tz query args :
  bindPositional FormatFloat tz query args = Some (fill_positional FormatFloat tz query args).
Proof.
  pose proof (pos_ok_all FormatFloat tz args query [] Raw (length query) (MkPos (-1) 0 [] 0 state0)) as Hx.
  cbn [lastMatchIndex argIndex buf unbindCount p_state app length] in Hx.
  unfold bindPositional, fill_positional.
  unfold agrees in Hx. rewrite drop_0 in Hx. change (odd_bs []) with false in Hx.
  destruct (fill _ _ _ _) as [[t k]|e]; cbn [mbind result_bind option_bind];
  destruct (bindPositional_loop _ _ _ _ _ _ _) as [[[last argi b unb st]|e']|];
    cbn [mbind option_bind] in *; try (exfalso; apply Hx; try done; by intros ?).
  - destruct Hx as (E & Hu & H1 & H2 & H3); [done|done|done|by intros ?|]. cbn in *.
    destruct (Z.ltb_spec last 0) as [Hl|Hl].
    + destruct (H3 Hl) as [-> ->]. assert (k = 0) as -> by lia. simpl.
      assert (last = (-1)%Z) as -> by lia. unfold pending in E.
      change (Z.to_nat (-1 + 1)) with 0 in E. rewrite drop_0 in E. cbn [app] in E. by rewrite E.
    + rewrite slice_from_Some by lia. cbn [mbind option_bind]. subst unb.
      rewrite drop_nil in E. cbn [app] in E. destruct k; [by rewrite E|done].
  - rewrite Hx; done.
Qed.

(** C4: [bindPositional] is total (no index or slice out of range, the loop ends)
    and computes the reference: the query is cut by a forward lexer, each [?] that
    stands in plain SQL is replaced by the next formatted argument, each escaped
    question mark loses its backslash, every other byte is kept, and arguments are never
    scanned; an argument's error is returned at the first placeholder that uses it,
    and missing arguments are counted. *)
Theorem bindPositional_spec FormatFloat tz query args :
  bindPositional FormatFloat tz query args = Some (fill_positional FormatFloat tz query args).
Proof. apply bindPositional_spec_. Qed.

(** ** The mark loop renders the pieces *)

Definition mark_inv (s : mark_state) (pre : gostring) : Prop :=
  (-1 ≤ m_last s)%Z ∧ (m_last s < Z.of_nat (length pre))%Z ∧
  ((m_last s < 0)%Z → m_buf s = [] ∧ m_unbind s = ∅).

Section mark_loop.
Variable sigil : byte.
Variable p : byte → bool.
Variable first : nat.
Variable params : gmap gostring gostring.
(** The inner loop starts at the byte the test looked at, or behind it. *)
Hypothesis first_ok : first = 1 ∨ first = 2.
(** No byte of a mark is a delimiter. *)
Hypothesis p_plain : ∀ b, p b = true → beq b "\" = false.
Hypothesis sigil_plain : beq sigil "\" = false.

Lemma scan_mark pre m r fuel :
  m ≠ [] → Forall (λ b, p b = true) m → match r with b :: _ => p b = false | [] => True end →
  length (m ++ r) ≤ fuel →
  scan_while p (pre ++ sigil :: m ++ r) fuel (length pre + first) = length pre + 1 + length m.
Proof.
  intros Hne Hm Hr Hf. rewrite snoc_app.
  destruct first_ok as [->| ->].
  - replace (length pre + 1) with (length (pre ++ [sigil])) by (by rewrite length_app).
    destruct (scan_while_spec p (pre ++ [sigil]) (m ++ r) fuel Hf) as (m' & r' & E & Hm' & Hr' & ->).
    pose proof (span_app p m r Hm Hr) as S1. pose proof (span_app p m' r' Hm' Hr') as S2.
    rewrite E in S1. congruence.
  - destruct m as [|b m]; [done|]. apply Forall_cons in Hm as [Hb Hm].
    cbn [app]. rewrite snoc_app.
    replace (length pre + 2) with (length ((pre ++ [sigil]) ++ [b])) by (rewrite !length_app; simpl; lia).
    destruct (scan_while_spec p ((pre ++ [sigil]) ++ [b]) (m ++ r) fuel) as (m' & r' & E & Hm' & Hr' & ->);
      [simpl in Hf; lia|].
    pose proof (span_app p m r Hm Hr) as S1. pose proof (span_app p m' r' Hm' Hr') as S2.
    rewrite E in S1. assert (m' = m) as -> by congruence.
    rewrite !length_app. simpl. lia.
Qed.

Lemma span_spec (q : gostring) m r :
  span p q = (m, r) →
  q = m ++ r ∧ Forall (λ b, p b = true) m ∧ match r with b :: _ => p b = false | [] => True end.
Proof.
  revert m r. induction q as [|b q IH]; intros m r; simpl; [by intros [= <- <-]|].
  destruct (p b) eqn:Ep.
  - destruct (span p q) as [m' r']. intros [= <- <-].
    destruct (IH m' r' eq_refl) as (-> & Hm & Hr). split; [done|]. split; [by constructor|done].
  - intros [= <- <-]. done.
Qed.

Lemma unknown_cons x ps :
  unknown_marks params (x :: ps) =
  (match x with Mark m => if decide (is_Some (params !! m)) then ∅ else {[m]} | _ => ∅ end)
  ∪ unknown_marks params ps.
Proof.
  unfold unknown_marks. simpl. destruct x as [| |m]; simpl; [set_solver..|].
  destruct (params !! m) as [v|].
  - rewrite decide_True by done. set_solver.
  - rewrite decide_False by (by intros [? ?]). simpl. done.
Qed.

Lemma odd_bs_plain pre (m : gostring) :
  m ≠ [] → Forall (λ b, beq b "\" = false) m → odd_bs (pre ++ m) = false.
Proof.
  intros Hne Hm. destruct m as [|b m _] using rev_ind; [done|].
  apply Forall_app in Hm as [_ Hm]. inversion Hm as [|? ? Hb _]; subst.
  rewrite app_assoc, odd_bs_snoc. unfold next_odd. by rewrite Hb.
Qed.

(** The outcome of the loop from [s] at the end of [pre], the rest being [suf]. *)
Definition mark_ok (fuel : nat) (suf : gostring) : Prop := ∀ pre c s,
  length suf ≤ fuel → m_state s = of_ctx c → mark_inv s pre →
  ∃ s', bind_marks_loop sigil p first params fuel (pre ++ suf) (length pre) s = Some s'
    ∧ mark_inv s' (pre ++ suf)
    ∧ let ps := mark_pieces sigil p fuel c (odd_bs pre) suf in
      pending (m_last s') (m_buf s') (pre ++ suf)
      = pending (m_last s) (m_buf s) pre ++ flat_map (render_mark params) ps
    ∧ m_unbind s' = m_unbind s ∪ unknown_marks params ps.

Lemma mark_ok_skip fuel x suf pre c last b u :
  mark_ok fuel suf → length suf ≤ fuel → mark_inv (MkMark last b u (of_ctx c)) pre →
  ∃ s', bind_marks_loop sigil p first params fuel ((pre ++ x) ++ suf) (length (pre ++ x))
          (MkMark last b u (of_ctx c)) = Some s'
    ∧ mark_inv s' ((pre ++ x) ++ suf)
    ∧ pending (m_last s') (m_buf s') ((pre ++ x) ++ suf)
      = pending last b pre ++ x ++ flat_map (render_mark params)
          (mark_pieces sigil p fuel c (odd_bs (pre ++ x)) suf)
    ∧ m_unbind s' = u ∪ unknown_marks params (mark_pieces sigil p fuel c (odd_bs (pre ++ x)) suf).
Proof.
  intros IH Hf (H1 & H2 & H3). cbn in H1, H2, H3.
  destruct (IH (pre ++ x) c (MkMark last b u (of_ctx c))) as (s' & E & Hi & Hp & Hu); [done|done| |].
  { split; [done|]. split; [|done]. cbn. rewrite length_app. lia. }
  exists s'. cbn [m_last m_buf m_unbind] in Hp, Hu. 
  rewrite (pending_snoc last b pre x H2), <- (app_assoc (pending last b pre)) in Hp.
  split; [exact E|]. split; [exact Hi|]. split; [exact Hp|exact Hu].
Qed.

(** A mark [sigil :: m]. *)
Lemma mark_step fuel m r pre last b u :
  m ≠ [] → Forall (λ b, p b = true) m → match r with b :: _ => p b = false | [] => True end →
  mark_ok fuel r → length (m ++ r) ≤ fuel → mark_inv (MkMark last b u (of_ctx Raw)) pre →
  ∃ s', bind_marks_loop sigil p first params (S fuel) (pre ++ sigil :: m ++ r) (length pre)
          (MkMark last b u (of_ctx Raw)) = Some s'
    ∧ mark_inv s' (pre ++ sigil :: m ++ r)
    ∧ let ps := Mark (sigil :: m) :: mark_pieces sigil p fuel Raw false r in
      pending (m_last s') (m_buf s') (pre ++ sigil :: m ++ r)
      = pending last b pre ++ flat_map (render_mark params) ps
    ∧ m_unbind s' = u ∪ unknown_marks params ps.
Proof.
  intros Hne Hm Hr IH Hf (H1 & H2 & H3). cbn in H1, H2, H3.
  cbn [bind_marks_loop]. rewrite lookup_length_app, inProtectedContext_of_ctx, beq_refl, lookup_after.
  assert (match head (m ++ r) with Some d => p d | None => false end = true) as ->.
  { destruct Hm as [|x m Hx Hm]; [done|]. exact Hx. }
  cbn [is_raw negb andb].
  rewrite scan_mark; [|done|done|done|rewrite (length_app pre); cbn [length]; lia].
  rewrite slice_Some by (rewrite ?length_app; simpl; rewrite ?length_app; lia).
  replace (length pre + 1 + length m - length pre) with (S (length m)) by lia.
  rewrite drop_app_length. cbn [take]. rewrite take_app_length. cbn [mbind option_bind].
  rewrite cut_app by lia. cbn [mbind option_bind].
  replace (length pre + 1 + length m - 1 + 1) with (length (pre ++ sigil :: m))
    by (rewrite length_app; simpl; lia).
  set (pre' := pre ++ sigil :: m).
  replace (pre ++ sigil :: m ++ r) with (pre' ++ r) by (unfold pre'; by rewrite <- app_assoc).
  assert (Z.of_nat (length pre + 1 + length m - 1) = Z.of_nat (length pre') - 1)%Z as ->
    by (unfold pre'; rewrite length_app; simpl; lia).
  assert (odd_bs pre' = false) as Ho.
  { apply odd_bs_plain; [done|]. constructor; [done|]. eapply Forall_impl; [exact Hm|apply p_plain]. }
  assert (∀ bf, pending (Z.of_nat (length pre') - 1) bf pre' = bf) as Hpend.
  { intros bf. unfold pending. rewrite drop_ge by lia. apply app_nil_r. }
  assert (1 ≤ length pre') as Hlen by (unfold pre'; rewrite length_app; simpl; lia).
  destruct (params !! (sigil :: m)) as [value|] eqn:Ev.
  - destruct (IH pre' Raw (MkMark (Z.of_nat (length pre') - 1)
      ((b ++ drop (Z.to_nat (last + 1)) pre) ++ value) u (of_ctx Raw))) as (s' & E & Hi & Hp & Hu).
    { rewrite length_app in Hf. lia. } { done. } { split; cbn; [lia|]. split; [lia|]. lia. }
    exists s'. cbn [m_last m_buf m_unbind] in Hp, Hu. rewrite Ho, Hpend in *. split; [exact E|]. split; [done|].
    rewrite unknown_cons, decide_True by (rewrite Ev; by eexists). split.
    + rewrite Hp. cbn [flat_map render_mark]. rewrite Ev. simpl. unfold pending. by rewrite <- !app_assoc.
    + rewrite Hu. clear. set_solver.
  - destruct (IH pre' Raw (MkMark (Z.of_nat (length pre') - 1)
      (b ++ drop (Z.to_nat (last + 1)) pre) ({[sigil :: m]} ∪ u) (of_ctx Raw))) as (s' & E & Hi & Hp & Hu).
    { rewrite length_app in Hf. lia. } { done. } { split; cbn; [lia|]. split; [lia|]. lia. }
    exists s'. cbn [m_last m_buf m_unbind] in Hp, Hu. rewrite Ho, Hpend in *. split; [exact E|]. split; [done|].
    rewrite unknown_cons, decide_False by (rewrite Ev; by intros [? ?]). split.
    + rewrite Hp. cbn [flat_map render_mark]. rewrite Ev. simpl. unfold pending. by rewrite <- !app_assoc.
    + rewrite Hu. clear. set_solver.
Qed.

Lemma mark_ok_all fuel suf : mark_ok fuel suf.
Proof.
  revert suf. induction fuel as [|fuel IH]; intros suf pre c [last b u st] Hf Hst Hinv; simpl in Hst; subst st.
  all: destruct suf as [|x suf]; try (simpl in Hf; lia).
  1-2: eexists; split; [cbn [bind_marks_loop]; by rewrite app_nil_r, lookup_ge_None_2|];
    rewrite app_nil_r; (split; [exact Hinv|]); cbn; rewrite app_nil_r; split; [done|];
    unfold unknown_marks; simpl; clear; set_solver.
  cbn [mark_pieces m_last m_buf m_unbind]. simpl in Hf.
  destruct (is_raw c && beq x sigil && match suf with d :: _ => p d | [] => false end) eqn:Em.
  - apply andb_true_iff in Em as [[Hc Hx]%andb_true_iff Hd]. apply beq_true in Hx as ->.
    destruct c; try done. destruct (span p suf) as [m r] eqn:Es.
    apply span_spec in Es as (-> & Hm & Hr).
    apply mark_step; [|exact Hm|exact Hr|apply IH|lia|exact Hinv].
    intros ->. cbn [app] in Hd. destruct r as [|d r]; [done|]. by rewrite Hd in Hr.
  - cbn [bind_marks_loop]. rewrite lookup_length_app, inProtectedContext_of_ctx, negb_involutive, lookup_after.
    replace (match head suf with Some d => p d | None => false end)
      with (match suf with d :: _ => p d | [] => false end) by (by destruct suf).
    rewrite Em, update_step.
    destruct (lex_step c (odd_bs pre) x (head suf)) as [c' two] eqn:El. cbn [mbind option_bind].
    assert (mark_inv (MkMark last b u (of_ctx c')) pre) as Hinv' by exact Hinv.
    destruct two.
    + apply lex_step_two in El as (b2 & Hs & Hb2 & _). destruct suf as [|b2' suf]; [done|].
      injection Hs as ->. rewrite snoc2_app.
      destruct (mark_ok_skip fuel [x; b2] suf pre c' last b u (IH suf) ltac:(simpl in Hf; lia) Hinv')
        as (s' & E & Hi & Hp & Hu).
      replace (length pre + 1 + 1) with (length (pre ++ [x; b2])) by (rewrite length_app; simpl; lia).
      exists s'. split; [exact E|]. split; [exact Hi|].
      assert (odd_bs (pre ++ [x; b2]) = false) as Ho.
      { change [x; b2] with ([x] ++ [b2]). rewrite app_assoc, odd_bs_snoc. unfold next_odd. by rewrite Hb2. }
      rewrite Ho in Hp, Hu. split; [exact Hp|]. rewrite Hu, !unknown_cons. clear. set_solver.
    + rewrite snoc_app.
      destruct (mark_ok_skip fuel [x] suf pre c' last b u (IH suf) ltac:(lia) Hinv')
        as (s' & E & Hi & Hp & Hu).
      replace (length pre + 1) with (length (pre ++ [x])) by (by rewrite length_app).
      exists s'. split; [exact E|]. split; [exact Hi|]. rewrite odd_bs_snoc in Hp, Hu.
      destruct suf as [|b2 suf]; [|split; [exact Hp|]; rewrite Hu, unknown_cons; clear; set_solver].
      assert (mark_pieces sigil p fuel c' (next_odd (odd_bs pre) x) [] = []) as En by (by destruct fuel).
      rewrite En in Hp, Hu. split; [exact Hp|]. rewrite Hu, unknown_cons. clear. set_solver.
Qed.

Lemma bind_marks_replace query :
  bind_marks sigil p first params query
  = Some (replace_marks params (mark_pieces sigil p (length query) Raw false query)).
Proof.
  destruct (mark_ok_all (length query) query [] Raw (MkMark (-1) [] ∅ state0))
    as ([last b u st] & E & (H1 & H2 & H3) & Hp & Hu); [done|done|by split|].
  cbn [app length] in *. cbn in H1, H2, H3, Hp, Hu. change (odd_bs []) with false in *.
  unfold bind_marks, replace_marks. rewrite E. cbn [mbind option_bind].
  rewrite (left_id_L ∅ (∪)) in Hu. rewrite <- Hu.
  rewrite drop_nil in Hp. cbn [app] in Hp. unfold pending in Hp.
  destruct (Z.ltb_spec last 0) as [Hl|Hl].
  - destruct (H3 Hl) as [-> ->]. rewrite bool_decide_true by done.
    assert (last = (-1)%Z) as -> by lia. cbn in Hp. by rewrite drop_0 in Hp; rewrite <- Hp.
  - rewrite slice_from_Some by lia. cbn [mbind option_bind]. rewrite Hp. by case_bool_decide.
Qed.
End mark_loop.

Lemma isDigit_not_backslash b : isDigit b = true → beq b "\" = false.
Proof. destruct b; vm_compute; done. Qed.

Lemma isNameChar_not_backslash b : isNameChar b = true → beq b "\" = false.
Proof. destruct b; vm_compute; done. Qed.

(** The pieces cover the query: nothing is lost, duplicated or reordered. *)
Lemma mark_pieces_source sigil p fuel c odd q :
  length q ≤ fuel → flat_map piece_source (mark_pieces sigil p fuel c odd q) = q.
Proof.
  revert c odd q. induction fuel as [|fuel IH]; intros c odd [|x q] Hf; try done; [simpl in Hf; lia|].
  cbn [mark_pieces]. simpl in Hf.
  destruct (is_raw c && beq x sigil && match q with d :: _ => p d | [] => false end) eqn:Em.
  - destruct (span p q) as [m r] eqn:Es. apply span_spec in Es as (-> & _ & _).
    cbn [flat_map piece_source]. rewrite length_app in Hf. rewrite IH by lia. done.
  - destruct (lex_step c odd x (head q)) as [c' two]. destruct q as [|b2 q]; [done|].
    simpl in Hf. destruct two; cbn [flat_map piece_source]; rewrite IH by (simpl; lia); done.
Qed.

(** C9: [bindNumeric] and [bindNamed] are total and compute the reference: the
    query is the concatenation of its pieces (plain bytes, and the marks that stand in
    plain SQL, each the longest run of its characters), the result replaces exactly
    the marks by their arguments' texts, and if some mark has no argument the error
    carries exactly the set of those.  An argument's own error comes first. *)
Theorem bind_marks_spec FormatFloat tz query :
  (∀ args, bindNumeric FormatFloat tz query args
     = Some (params ← numeric_params FormatFloat tz 0 args ∅;
             replace_marks params (mark_pieces "$" isDigit (length query) Raw false query)))
  ∧ (∀ args, bindNamed FormatFloat tz query args
     = Some (params ← named_params FormatFloat tz args ∅;
             replace_marks params (mark_pieces "@" isNameChar (length query) Raw false query)))
  ∧ flat_map piece_source (mark_pieces "$" isDigit (length query) Raw false query) = query
  ∧ flat_map piece_source (mark_pieces "@" isNameChar (length query) Raw false query) = query.
Proof.
  split; [|split; [|split; by apply mark_pieces_source]]; intros args.
  - unfold bindNumeric, with_params. destruct (numeric_params _ _ _ _ _); [|done].
    cbn [mbind result_bind]. apply bind_marks_replace; auto using isDigit_not_backslash.
  - unfold bindNamed, with_params. destruct (named_params _ _ _ _); [|done].
    cbn [mbind result_bind]. apply bind_marks_replace; auto using isNameChar_not_backslash.
Qed.

(** ** Dispatch *)

(** Which styles stand in plain SQL: (numbered, positional).  [bs] tells whether a
    backslash precedes. *)
Fixpoint styles (c : ctx) (odd bs : bool) (q : gostring) : bool * bool :=
  match q with
  | [] => (false, false)
  | b :: q' =>
      let pos := is_raw c && beq b "?" && negb bs in
      let num := is_raw c && beq b "$" && match q' with d :: _ => isDigit d | [] => false end in
      let '(c', two) := lex_step c odd b (head q') in
      let '(n, p) := match q' with
        | b2 :: q'' => if two then styles c' false false q''
                       else styles c' (next_odd odd b) (beq b "\") q'
        | [] => (false, false) end in
      (num || n, pos || p)
  end.

Definition is_named (a : barg) : bool :=
  match a with Anonymous _ => false | _ => true end.

Lemma checkAllNamed_loop_spec args n an :
  n && an = false →
  checkAllNamed_loop args n an =
  if (n || existsb is_named args) && (an || existsb (negb ∘ is_named) args)
  then Err ErrBindMixedParamsFormats else Ok (n || existsb is_named args).
Proof.
  revert n an. induction args as [|a args IH]; intros n an H; simpl.
  { rewrite !orb_false_r, H. done. }
  destruct a; simpl; (destruct n, an; try done; simpl; rewrite IH by done; simpl; try done).
Qed.

(** Whether the byte before [suf] is a backslash. *)
Definition prev_bs (pre suf : gostring) : bool :=
  (0 <? length pre) && byte_is (pre ++ suf) (length pre - 1) "\".

Lemma prev_bs_snoc pre b suf : prev_bs (pre ++ [b]) suf = beq b "\".
Proof. apply prev_byte. Qed.

Lemma formats_loop_spec fuel pre suf c num pos :
  length suf ≤ fuel →
  bindParamsFormats_loop fuel (pre ++ suf) (length pre) (of_ctx c) num pos =
  let '(n, p) := styles c (odd_bs pre) (prev_bs pre suf) suf in Some (num || n, pos || p).
Proof.
  revert pre suf c num pos.
  induction fuel as [|fuel IH]; intros pre [|b suf] c num pos Hf; try (simpl in Hf; lia).
  1-2: cbn [bindParamsFormats_loop styles];
    by rewrite app_nil_r, lookup_ge_None_2, !orb_false_r.
  cbn [bindParamsFormats_loop styles]. simpl in Hf.
  rewrite lookup_length_app, inProtectedContext_of_ctx, negb_involutive, lookup_after.
  replace (match head suf with Some d => isDigit d | None => false end)
    with (match suf with d :: _ => isDigit d | [] => false end) by (by destruct suf).
  assert (((length pre =? 0) || negb (byte_is (pre ++ b :: suf) (length pre - 1) "\"))
          = negb (prev_bs pre (b :: suf))) as ->.
  { unfold prev_bs. by destruct pre. }
  rewrite update_step.
  destruct (lex_step c (odd_bs pre) b (head suf)) as [c' two] eqn:El. cbn [mbind option_bind].
  set (P := is_raw c && beq b "?" && negb (prev_bs pre (b :: suf))).
  set (N := is_raw c && beq b "$" && match suf with d :: _ => isDigit d | [] => false end).
  assert ((if negb (is_raw c) then (num, pos)
           else if beq b "?" && negb (prev_bs pre (b :: suf)) then (num, true)
           else if beq b "$" && match suf with d :: _ => isDigit d | [] => false end
           then (true, pos) else (num, pos)) = (num || N, pos || P)) as ->.
  { unfold N, P. destruct (is_raw c); cbn [negb andb]; [|by rewrite !orb_false_r].
    destruct (beq_spec b "?") as [->|Hq]; cbn [andb].
    - change (beq "?" "$") with false. cbn [andb].
      destruct (negb _); by rewrite ?orb_false_r, ?orb_true_r.
    - destruct (beq b "$" && _); by rewrite ?orb_false_r, ?orb_true_r. }
  clearbody P N.
  destruct (is_raw c && (num || N) && (pos || P)) eqn:Eboth.
  { apply andb_true_iff in Eboth as [[_ E1]%andb_true_iff E2].
    destruct (match suf with [] => _ | _ => _ end) as [n p].
    rewrite !orb_assoc, E1, E2. done. }
  destruct two.
  - apply lex_step_two in El as (b2 & Hs & Hb2 & _). destruct suf as [|b2' suf]; [done|].
    injection Hs as ->. rewrite snoc2_app.
    replace (length pre + 1 + 1) with (length (pre ++ [b; b2])) by (rewrite length_app; simpl; lia).
    rewrite IH by (simpl in Hf; lia).
    change [b; b2] with ([b] ++ [b2]). rewrite app_assoc, odd_bs_snoc, prev_bs_snoc.
    unfold next_odd. rewrite Hb2. destruct (styles c' false false suf) as [n p].
    by rewrite !orb_assoc.
  - rewrite snoc_app. replace (length pre + 1) with (length (pre ++ [b])) by (by rewrite length_app).
    rewrite IH by lia. rewrite odd_bs_snoc, prev_bs_snoc.
    destruct suf as [|b2 suf]; [simpl; by rewrite !orb_assoc|].
    destruct (styles c' _ _ (b2 :: suf)) as [n p]. by rewrite !orb_assoc.
Qed.

(** [bind] never panics and always ends, and it dispatches as documented: no
    arguments leave the query alone; named and anonymous arguments together are an
    error, and so are numbered and positional placeholders together in plain SQL;
    otherwise the query is bound by the style that its arguments and its
    placeholders outside of quotes and comments show. *)
Theorem bind_dispatch FormatFloat tz query args :
  bind FormatFloat tz query args = Some
    (if bool_decide (length args = 0) then Ok query
     else if existsb is_named args then
       if existsb (negb ∘ is_named) args then Err ErrBindMixedParamsFormats
       else params ← named_params FormatFloat tz args ∅;
            replace_marks params (mark_pieces "@" isNameChar (length query) Raw false query)
     else match styles Raw false false query with
       | (true, true) => Err ErrBindMixedParamsFormats
       | (true, false) =>
           params ← numeric_params FormatFloat tz 0 (anonymous_args args) ∅;
           replace_marks params (mark_pieces "$" isDigit (length query) Raw false query)
       | _ => fill_positional FormatFloat tz query (anonymous_args args)
       end).
Proof.
  unfold bind, checkAllNamedArguments. destruct args as [|a args]; [done|].
  rewrite (bool_decide_false (length _ = 0)) by done. rewrite checkAllNamed_loop_spec by done.
  cbn [orb]. set (l := a :: args). destruct (existsb is_named l) eqn:En; cbn [andb].
  - destruct (existsb (negb ∘ is_named) l) eqn:E2; [reflexivity|]. unfold bindNamed, with_params.
    destruct (named_params _ _ _ _); [|done]. cbn [mbind result_bind].
    apply bind_marks_replace; auto using isNameChar_not_backslash.
  - pose proof (formats_loop_spec (length query) [] query Raw false false ltac:(done)) as Hfmt.
    cbn [app length orb] in Hfmt. change (odd_bs []) with false in Hfmt.
    change (prev_bs [] query) with false in Hfmt. change (of_ctx Raw) with state0 in Hfmt.
    unfold bindParamsFormats. rewrite Hfmt.
    destruct (styles Raw false false query) as [[] []]; cbn [mbind option_bind andb]; [done| | |].
    + unfold bindNumeric, with_params. destruct (numeric_params _ _ _ _ _); [|done].
      cbn [mbind result_bind]. apply bind_marks_replace; auto using isDigit_not_backslash.
    + apply bindPositional_spec_.
    + apply bindPositional_spec_.
Qed.

(** ** A placeholder behind a minus sign

    [format] prints a negative integer with its bare sign, so a placeholder that
    follows a minus sign turns into the two bytes that open a line comment. *)

Definition minus_query : gostring := str "SELECT * FROM t WHERE a = -? AND b = ?".
Definition minus_args : list barg :=
  [Anonymous (plain_arg (VInt (-1)));
   Anonymous (plain_arg (VString (x0a :: str " OR 1=1 --")))].

(** Binding a negative number to a placeholder that follows a minus sign opens a
    comment that swallows the opening quote of the next argument, so that bytes of a
    string argument are read as plain SQL. *)
Theorem minus_placeholder_injection FormatFloat tz :
  ∃ out, bind FormatFloat tz minus_query minus_args = Some (Ok out)
    ∧ take 8 (drop 40 out) = str " OR 1=1 "
    ∧ take 8 (drop 40 (ctxs Raw false out)) = replicate 8 Raw.
Proof. eexists. split; [vm_compute; reflexivity|]. split; vm_compute; reflexivity. Qed.
