(* ===== verification/QueryParams.v ===== *)
(** * Server-side query parameters ([query_parameters.go])

    [bindQueryOrAppendParameters] either fills the options' parameter map from the
    named arguments, when the query uses the [{name:Type}] syntax, or falls back to
    client-side binding.  The options are threaded: the map is replaced before the
    loop runs, so that an error leaves the entries written so far. *)

From Stdlib.Floats Require Import SpecFloat.
From S2P Require Import Prelude GoStd SqlLex FormatValue Bind.

Inductive params_err :=
| ErrInvalidValueInNamedDateValue
| ErrUnsupportedQueryParameter
| ErrParamFormat (e : fmt_err)
| ErrBind (e : bind_err).

#[global] Instance params_err_eq_dec : EqDecision params_err.
Proof. solve_decision. Defined.

(** [hasQueryParamsRe], the regular expression "{.+:.+}": the dots do not match a newline. *)
Fixpoint has_close (s : gostring) : bool :=
  match s with
  | b :: s => negb (beq b x0a) && (beq b "}" || has_close s)
  | [] => false
  end.
(** At least one byte, then a closing brace. *)
Definition some_then_close (s : gostring) : bool :=
  match s with b :: s => negb (beq b x0a) && has_close s | [] => false end.
Fixpoint has_colon (s : gostring) : bool :=
  match s with
  | b :: s => negb (beq b x0a) && ((beq b ":" && some_then_close s) || has_colon s)
  | [] => false
  end.
Definition some_then_colon (s : gostring) : bool :=
  match s with b :: s => negb (beq b x0a) && has_colon s | [] => false end.
Fixpoint hasQueryParams (query : gostring) : bool :=
  match query with
  | b :: q => (beq b "{" && some_then_colon q) || hasQueryParams q
  | [] => false
  end.

(** [isNilParamValue]: nil, or a typed nil pointer. *)
Definition isNilParamValue (v : goval) : bool :=
  match v with
  | VNil | VPtrTime None | VStringer None | VPtr None => true
  | _ => false
  end.

Section params.
Variable FormatFloat : spec_float → Z → gostring.

(** The text of one [NamedValue]. *)
Definition param_text (timezone : gostring) (v : goval) : result params_err gostring :=
  if isNilParamValue v then Ok (str "\N")
  else match v with
  | VString s => Ok s
  | VPtr (Some (VString s)) => Ok s
  | VTime t => Ok (formatTimeParam t)
  | VPtrTime (Some t) => Ok (formatTimeParam t)
  | _ => map_err ErrParamFormat (formatValue FormatFloat timezone Seconds v formatParamText)
  end.

(** The loop over the arguments; the map it has built so far comes back also with an
    error. *)
Fixpoint append_parameters (timezone : gostring) (args : list barg) (parameters : gmap gostring gostring)
    : gmap gostring gostring * result params_err unit :=
  match args with
  | [] => (parameters, Ok ())
  | NamedValue name p :: args =>
      match param_text timezone (a_value p) with
      | Ok s => append_parameters timezone args (<[name := s]> parameters)
      | Err e => (parameters, Err e)
      end
  | NamedDateValue name t scale :: args =>
      if negb (IsZero t) && negb (bool_decide (name = [])) then
        append_parameters timezone args (<[name := formatTimeWithScale t scale]> parameters)
      else (parameters, Err ErrInvalidValueInNamedDateValue)
  | Anonymous _ :: _ => (parameters, Err ErrUnsupportedQueryParameter)
  end.

(** Returns the options' parameters afterwards, and the query or an error; [None] is a
    panic of the binder. *)
Definition bindQueryOrAppendParameters (paramsProtocolSupport : bool)
    (parameters : gmap gostring gostring) (query timezone : gostring) (args : list barg)
    : option (gmap gostring gostring * result params_err gostring) :=
  if bool_decide (parameters ≠ ∅) then Some (parameters, Ok query)
  else if paramsProtocolSupport && negb (bool_decide (length args = 0)) && hasQueryParams query then
    let '(ps, r) := append_parameters timezone args ∅ in
    Some (ps, match r with Ok _ => Ok query | Err e => Err e end)
  else
    r ← bind FormatFloat timezone query args;
    Some (parameters, map_err ErrBind r).

Definition param_name (a : barg) : gostring :=
  match a with NamedValue n _ => n | NamedDateValue n _ _ => n | Anonymous _ => [] end.

Lemma append_parameters_other timezone args ps ps' name :
  append_parameters timezone args ps = (ps', Ok ()) → name ∉ map param_name args →
  ps' !! name = ps !! name.
Proof.
  revert ps. induction args as [|a args IH]; intros ps E Hn; simpl in *; [by simplify_eq|].
  apply not_elem_of_cons in Hn as [Hne Hn].
  destruct a as [n p|n t sc|p]; simpl in *; [| |done].
  - destruct (param_text timezone (a_value p)); [|done].
    rewrite (IH _ E Hn). by rewrite lookup_insert_ne.
  - destruct (negb (IsZero t) && _); [|done]. rewrite (IH _ E Hn). by rewrite lookup_insert_ne.
Qed.

Lemma append_parameters_spec timezone args ps ps' :
  append_parameters timezone args ps = (ps', Ok ()) → NoDup (map param_name args) →
  Forall (λ a, match a with
    | NamedValue n p => ∃ s, param_text timezone (a_value p) = Ok s ∧ ps' !! n = Some s
    | NamedDateValue n t sc => n ≠ [] ∧ IsZero t = false ∧ ps' !! n = Some (formatTimeWithScale t sc)
    | Anonymous _ => False end) args.
Proof.
  revert ps. induction args as [|a args IH]; intros ps E Hd; simpl in *; [done|].
  apply NoDup_cons in Hd as [Hn Hd].
  destruct a as [n p|n t sc|p]; simpl in *; [| |done].
  - destruct (param_text timezone (a_value p)) as [s|] eqn:Ep; [|done].
    constructor; [|by eapply IH]. exists s. split; [done|].
    rewrite (append_parameters_other _ _ _ _ n E Hn). apply lookup_insert_eq.
  - destruct (negb (IsZero t) && negb (bool_decide (n = []))) eqn:Ez; [|done].
    apply andb_true_iff in Ez as [Ez En]. constructor; [|by eapply IH].
    apply negb_true_iff, bool_decide_eq_false in En. apply negb_true_iff in Ez.
    split; [done|]. split; [done|].
    rewrite (append_parameters_other _ _ _ _ n E Hn). apply lookup_insert_eq.
Qed.
End params.

(** On the parameter path (no explicit parameters, a protocol that supports them,
    a query with the [{name:Type}] syntax) the query text is sent unchanged, whatever
    the arguments hold; a success has written every argument of distinct name under
    its name, strings raw, nil as the NULL marker, dated values non-zero and named;
    an anonymous argument is always refused. *)
Theorem parameters_leave_query_alone FormatFloat query timezone args ps r :
  args ≠ [] → hasQueryParams query = true → NoDup (map param_name args) →
  bindQueryOrAppendParameters FormatFloat true ∅ query timezone args = Some (ps, r) →
  (∀ q, r = Ok q →
     q = query
     ∧ Forall (λ a, match a with
         | NamedValue n p => ∃ s, param_text FormatFloat timezone (a_value p) = Ok s ∧ ps !! n = Some s
         | NamedDateValue n t sc => n ≠ [] ∧ IsZero t = false ∧ ps !! n = Some (formatTimeWithScale t sc)
         | Anonymous _ => False end) args)
  ∧ (Exists (λ a, is_named a = false) args → ∃ e, r = Err e).
Proof.
  intros Hne Hq Hd E. unfold bindQueryOrAppendParameters in E.
  rewrite bool_decide_false in E by (by intros ?).
  rewrite Hq, (bool_decide_false (length args = 0)) in E by (by destruct args).
  cbn [andb negb] in E.
  destruct (append_parameters FormatFloat timezone args ∅) as [ps' [[]|e]] eqn:Ea; simplify_eq.
  - pose proof (append_parameters_spec _ _ _ _ _ Ea Hd) as Hspec.
    split; [intros q [= <-]; done|]. intros Hx.
    exfalso. apply Exists_exists in Hx as (a & Ha & Hn).
    rewrite Forall_forall in Hspec. specialize (Hspec a Ha). by destruct a.
  - split; [done|]. by exists e.
Qed.

Definition demo_args : list barg :=
  [NamedValue (str "s") (plain_arg (VString (str "O'Brien; --")));
   NamedValue (str "n") (plain_arg (VPtr None));
   NamedDateValue (str "d") (MkTime (-1) 500000000 (str "UTC") 0) MilliSeconds].

Definition demo_query : gostring := str "SELECT {s:String}, {n:Nullable(Int8)}, {d:DateTime64(3)}".

Definition demo_outcome := bindQueryOrAppendParameters demo_float true ∅ demo_query (str "UTC") demo_args.
Definition demo_params : gmap gostring gostring := default ∅ (fst <$> demo_outcome).

Example demo_entries :
  demo_params !! str "s" = Some (str "O'Brien; --") ∧ demo_params !! str "n" = Some (str "\N")
  ∧ demo_params !! str "d" = Some (str "-0.500").
Proof. vm_compute. done. Qed.

Lemma demo_run : demo_outcome = Some (demo_params, Ok demo_query).
Proof.
  assert (snd <$> demo_outcome = Some (Ok demo_query)) as E by (vm_compute; reflexivity).
  unfold demo_params. destruct demo_outcome as [[ps r]|]; [|done]. simpl in *. by simplify_eq.
Qed.

Lemma demo_nodup : NoDup (map param_name demo_args).
Proof. apply (bool_decide_unpack _). vm_compute. exact I. Qed.

Lemma parameters_leave_query_alone_witness :
  demo_args ≠ [] ∧ hasQueryParams demo_query = true ∧
  ∀ q, @Ok params_err _ demo_query = Ok q → q = demo_query.
Proof.
  split; [discriminate|]. split; [vm_compute; reflexivity|]. intros q Hq.
  exact (proj1 (proj1 (parameters_leave_query_alone demo_float demo_query (str "UTC") demo_args
    demo_params (Ok demo_query) ltac:(discriminate) ltac:(vm_compute; reflexivity)
    demo_nodup demo_run) q Hq)).
Defined.
