(* ===== verification/ChUrl.v ===== *)
(** * The DSN parser ([lib/churl])

    [churl.go] is the driver's copy of [net/url]'s parser, kept because a ClickHouse
    DSN names several hosts.  Every function of the file is here; an index, a slice
    bound or [unhex] that would panic is [None].  [netip.ParseAddr] is modelled as far
    as the file uses it: whether the text is an address, and of which family.

    Theorems: percent-encoding round trips in every mode that allows it
    ([unescape_escape]); [Parse] never panics ([Parse_total]); the path and fragment
    fields lose nothing ([setPath_lossless]); a DSN built from its parts is parsed
    back into them ([Parse_dsn]). *)

From Stdlib Require Import ZifyBool.
From S2P Require Import Prelude GoStd.

Inductive encoding :=
| encodePath | encodePathSegment | encodeHost | encodeZone
| encodeUserPassword | encodeQueryComponent | encodeFragment.

#[global] Instance encoding_eq_dec : EqDecision encoding.
Proof. solve_decision. Defined.

Inductive url_err :=
| EscapeError (s : gostring)
| InvalidHostError (s : gostring)
| ErrControl            (* "net/url: invalid control character in URL" *)
| ErrEmpty              (* "empty url" *)
| ErrURIRequest         (* "invalid URI for request" *)
| ErrSegmentColon       (* "first path segment in URL cannot contain colon" *)
| ErrScheme             (* "missing protocol scheme" *)
| ErrUserinfo           (* "net/url: invalid userinfo" *)
| ErrBracket            (* "missing ']' in host" *)
| ErrPort (s : gostring)
| ErrHost               (* "invalid host" *)
| ErrIPLiteral          (* "invalid IP-literal" *)
| ErrParse (url : gostring) (e : url_err).

(** [neturl.URL]; a user is a name and an optional password. *)
Record URL := MkURL {
  Scheme : gostring;
  Opaque : gostring;
  User : option (gostring * option gostring);
  Host : gostring;
  Path : gostring;
  RawPath : gostring;
  OmitHost : bool;
  ForceQuery : bool;
  RawQuery : gostring;
  Fragment : gostring;
  RawFragment : gostring
}.

Definition newURL : URL := MkURL [] [] None [] [] [] false false [] [] [].

Definition set_authority (u : URL) (user : option (gostring * option gostring)) (host : gostring) : URL :=
  MkURL (Scheme u) (Opaque u) user host (Path u) (RawPath u) (OmitHost u) (ForceQuery u)
    (RawQuery u) (Fragment u) (RawFragment u).
Definition set_path (u : URL) (p raw : gostring) : URL :=
  MkURL (Scheme u) (Opaque u) (User u) (Host u) p raw (OmitHost u) (ForceQuery u)
    (RawQuery u) (Fragment u) (RawFragment u).
Definition set_fragment (u : URL) (f raw : gostring) : URL :=
  MkURL (Scheme u) (Opaque u) (User u) (Host u) (Path u) (RawPath u) (OmitHost u) (ForceQuery u)
    (RawQuery u) f raw.
Definition set_omitHost (u : URL) : URL :=
  MkURL (Scheme u) (Opaque u) (User u) (Host u) (Path u) (RawPath u) true (ForceQuery u)
    (RawQuery u) (Fragment u) (RawFragment u).

(** ** Character classes *)

Definition one_of (cs : gostring) (c : byte) : bool := existsb (λ x, beq c x) cs.

Definition alnum (c : byte) : bool :=
  in_range "a" "z" c || in_range "A" "Z" c || in_range "0" "9" c.

(** The bytes a host may hold unescaped, the double quote included. *)
Definition host_chars : gostring := str "!$&'()*+,;=:[]<>" ++ [x22].

Definition shouldEscape (c : byte) (mode : encoding) : bool :=
  if alnum c then false
  else if bool_decide (mode = encodeHost ∨ mode = encodeZone) && one_of host_chars c then false
  else if one_of (str "-_.~") c then false
  else
    let rest :=
      if bool_decide (mode = encodeFragment) && one_of (str "!()*") c then false else true in
    if one_of (str "$&+,/:;=?@") c then
      match mode with
      | encodePath => beq c "?"
      | encodePathSegment => one_of (str "/;,?") c
      | encodeUserPassword => one_of (str "@/?:") c
      | encodeQueryComponent => true
      | encodeFragment => false
      | _ => rest
      end
    else rest.

Definition ishex (c : byte) : bool :=
  in_range "0" "9" c || in_range "a" "f" c || in_range "A" "F" c.

(** [unhex] panics on anything else. *)
Definition unhex (c : byte) : option Z :=
  if in_range "0" "9" c then Some (bz c - 48)%Z
  else if in_range "a" "f" c then Some (bz c - 97 + 10)%Z
  else if in_range "A" "F" c then Some (bz c - 65 + 10)%Z
  else None.

(** [upperhex[d]]. *)
Definition upperhex (d : Z) : byte :=
  nth (Z.to_nat d) (str "0123456789ABCDEF") x00.

Definition stringContainsCTLByte (s : gostring) : bool :=
  existsb (λ b, (bz b <? 32)%Z || (bz b =? 127)%Z) s.

(** ** [unescape] *)

(** [unhex(a)<<4 | unhex(b)] as a byte. *)
Definition hex_pair (a b : byte) : option byte :=
  x ← unhex a; y ← unhex b; Some (zb (Z.lor (Z.shiftl x 4) y)).

(** The first loop: the number of [%], and whether a [+] stands for a space. *)
Fixpoint unescape_check (s : gostring) (mode : encoding) (n : nat) (hasPlus : bool)
    : option (result url_err (nat * bool)) :=
  match s with
  | [] => Some (Ok (n, hasPlus))
  | c :: t =>
      if beq c "%" then
        match t with
        | a :: b :: t' =>
            if negb (ishex a) || negb (ishex b) then Some (Err (EscapeError [c; a; b]))
            else
              x ← unhex a;
              if bool_decide (mode = encodeHost) && (x <? 8)%Z && negb (bool_decide ([c; a; b] = str "%25"))
              then Some (Err (EscapeError [c; a; b]))
              else
                v ← hex_pair a b;
                if bool_decide (mode = encodeZone) && negb (bool_decide ([c; a; b] = str "%25"))
                   && negb (beq v " ") && shouldEscape v encodeHost
                then Some (Err (EscapeError [c; a; b]))
                else unescape_check t' mode (S n) hasPlus
        | _ => Some (Err (EscapeError (take 3 s)))
        end
      else if beq c "+" then unescape_check t mode n (bool_decide (mode = encodeQueryComponent))
      else if bool_decide (mode = encodeHost ∨ mode = encodeZone) && (bz c <? 128)%Z && shouldEscape c mode
      then Some (Err (InvalidHostError [c]))
      else unescape_check t mode n hasPlus
  end.

(** The second loop. *)
Fixpoint unescape_build (s : gostring) (mode : encoding) : option gostring :=
  match s with
  | [] => Some []
  | c :: t =>
      if beq c "%" then
        match t with
        | a :: b :: t' => v ← hex_pair a b; r ← unescape_build t' mode; Some (v :: r)
        | _ => None
        end
      else if beq c "+" then
        r ← unescape_build t mode;
        Some ((if bool_decide (mode = encodeQueryComponent) then " " else "+")%byte :: r)
      else r ← unescape_build t mode; Some (c :: r)
  end.

Definition unescape (s : gostring) (mode : encoding) : option (result url_err gostring) :=
  r ← unescape_check s mode 0 false;
  match r with
  | Err e => Some (Err e)
  | Ok (n, hasPlus) =>
      if (n =? 0)%nat && negb hasPlus then Some (Ok s)
      else t ← unescape_build s mode; Some (Ok t)
  end.

(** ** [escape] *)

Definition is_plus_space (c : byte) (mode : encoding) : bool :=
  beq c " " && bool_decide (mode = encodeQueryComponent).

(** [spaceCount] and [hexCount]. *)
Definition escape_counts (s : gostring) (mode : encoding) : nat * nat :=
  foldl (λ '(sp, hx) c,
    if shouldEscape c mode then if is_plus_space c mode then (S sp, hx) else (sp, S hx) else (sp, hx))
    (0, 0) s.

(** The last loop: writes into the buffer [t] at [j]; a write out of range panics. *)
Fixpoint escape_write (s : gostring) (mode : encoding) (t : gostring) (j : nat) : option gostring :=
  match s with
  | [] => Some t
  | c :: s =>
      if is_plus_space c mode then
        t ← set_index t j ("+"%byte); escape_write s mode t (j + 1)
      else if shouldEscape c mode then
        t ← set_index t j ("%"%byte);
        t ← set_index t (j + 1) (upperhex (Z.shiftr (bz c) 4));
        t ← set_index t (j + 2) (upperhex (Z.land (bz c) 15));
        escape_write s mode t (j + 3)
      else t ← set_index t j c; escape_write s mode t (j + 1)
  end.

Definition escape (s : gostring) (mode : encoding) : option gostring :=
  let '(spaceCount, hexCount) := escape_counts s mode in
  if (spaceCount =? 0)%nat && (hexCount =? 0)%nat then Some s
  else if (hexCount =? 0)%nat then
    Some (map (λ c, if beq c " " then "+"%byte else c) s)
  else escape_write s mode (replicate (length s + 2 * hexCount) x00) 0.

(** ** Scheme, user info, port *)

Fixpoint getScheme_loop (rawURL rest : gostring) (i : nat) : result url_err (gostring * gostring) :=
  match rest with
  | [] => Ok ([], rawURL)
  | c :: rest =>
      if in_range "a" "z" c || in_range "A" "Z" c then getScheme_loop rawURL rest (i + 1)
      else if in_range "0" "9" c || one_of (str "+-.") c then
        if (i =? 0)%nat then Ok ([], rawURL) else getScheme_loop rawURL rest (i + 1)
      else if beq c ":" then
        if (i =? 0)%nat then Err ErrScheme else Ok (take i rawURL, drop (i + 1) rawURL)
      else Ok ([], rawURL)
  end.

Definition getScheme (rawURL : gostring) : result url_err (gostring * gostring) :=
  getScheme_loop rawURL rawURL 0.

(** The source ranges over runes; a byte of a multi-byte rune is refused as its rune is. *)
Definition validUserinfo (s : gostring) : bool :=
  forallb (λ r, alnum r || one_of (str "-._:~!$&'()*+,;=%") r || beq r "@") s.

Definition validOptionalPort (port : gostring) : bool :=
  match port with
  | [] => true
  | c :: t => beq c ":" && forallb isDigit t
  end.

(** ** [netip.ParseAddr]: is it an address, and is it an IPv4 one *)

(** [parseIPv4Fields]: [val], [pos], [digLen] and the previous byte. *)
Fixpoint parseIPv4_loop (s : gostring) (first : bool) (val : Z) (pos digLen : nat) (prev_dot : bool)
    : option nat :=
  match s with
  | [] => Some pos
  | c :: t =>
      if isDigit c then
        if (digLen =? 1)%nat && (val =? 0)%Z then None
        else
          let val := (val * 10 + (bz c - 48))%Z in
          if (255 <? val)%Z then None else parseIPv4_loop t false val pos (S digLen) false
      else if beq c "." then
        if first || bool_decide (t = []) || prev_dot then None
        else if (pos =? 3)%nat then None
        else parseIPv4_loop t false 0 (S pos) 0 true
      else None
  end.

Definition parseIPv4Fields (s : gostring) : bool :=
  match parseIPv4_loop s true 0 0 0 false with Some pos => (3 <=? pos)%nat | None => false end.

(** The loop of [parseIPv6]: [i] is the number of address bytes read so far. *)
Fixpoint parseIPv6_loop (fuel : nat) (s : gostring) (i : nat) (ellipsis : option nat) : bool :=
  let finish s i ellipsis :=
    bool_decide (s = []) &&
    (if (i <? 16)%nat then match ellipsis with Some _ => true | None => false end
     else match ellipsis with Some _ => false | None => true end) in
  match fuel with
  | O => false
  | S fuel =>
      if (16 <=? i)%nat then finish s i ellipsis
      else
        let '(group, r) := span ishex s in
        if (4 <? length group)%nat || bool_decide (group = []) then false
        else match r with
        | [] => finish [] (i + 2) ellipsis
        | c :: t =>
            if beq c "." then
              match ellipsis with None => (i =? 12)%nat | Some _ => true end
              && (i + 4 <=? 16)%nat && parseIPv4Fields s && finish [] (i + 4) ellipsis
            else if negb (beq c ":") then false
            else match t with
            | [] => false
            | c2 :: t2 =>
                if beq c2 ":" then
                  match ellipsis with
                  | Some _ => false
                  | None => match t2 with
                            | [] => finish [] (i + 2) (Some (i + 2))
                            | _ => parseIPv6_loop fuel t2 (i + 2) (Some (i + 2))
                            end
                  end
                else parseIPv6_loop fuel t (i + 2) ellipsis
            end
        end
  end.

(** The zone is cut off first and must not be empty; nine rounds are enough for
    sixteen bytes. *)
Definition parseIPv6 (in_ : gostring) : bool :=
  let '(s, zone, found) := strings_Cut in_ "%" in
  if found && bool_decide (zone = []) then false
  else if HasPrefix s (str "::") then
    let s := drop 2 s in
    if bool_decide (s = []) then true else parseIPv6_loop 9 s 0 (Some 0)
  else parseIPv6_loop 9 s 0 None.

(** [Some true] is an IPv4 address, [Some false] an IPv6 address. *)
Definition ParseAddr (s : gostring) : option bool :=
  match (span (λ c, negb (beq c "." || beq c ":" || beq c "%")) s).2 with
  | [] => None
  | c :: _ =>
      if beq c "." then if parseIPv4Fields s then Some true else None
      else if beq c ":" then if parseIPv6 s then Some false else None
      else None
  end.

(** ** Host and authority *)

(** Runs [k] on a successful value; errors and panics pass through. *)
Definition andthen {A B} (m : option (result url_err A)) (k : A → option (result url_err B))
    : option (result url_err B) :=
  match m with
  | None => None
  | Some (Err e) => Some (Err e)
  | Some (Ok a) => k a
  end.

Definition parseHost (host : gostring) : option (result url_err gostring) :=
  match strings_LastIndex host "[" with
  | Some openBracketIdx =>
      match strings_LastIndex host "]" with
      | None => Some (Err ErrBracket)
      | Some closeBracketIdx =>
          colonPort ← slice_from host (closeBracketIdx + 1);
          if negb (validOptionalPort colonPort) then Some (Err (ErrPort colonPort))
          else
            andthen (unescape colonPort encodeHost) (λ unescapedColonPort,
            hostname ← slice host (openBracketIdx + 1) closeBracketIdx;
            andthen (match strings_IndexSub hostname (str "%25") with
              | Some zoneIdx =>
                  h ← slice hostname 0 zoneIdx;
                  andthen (unescape h encodeHost) (λ hostPart,
                  z ← slice_from hostname zoneIdx;
                  andthen (unescape z encodeZone) (λ zonePart, Some (Ok (hostPart ++ zonePart))))
              | None => unescape hostname encodeHost
              end) (λ unescapedHostname,
            match ParseAddr unescapedHostname with
            | None => Some (Err ErrHost)
            | Some true => Some (Err ErrIPLiteral)
            | Some false =>
                Some (Ok (str "[" ++ unescapedHostname ++ str "]" ++ unescapedColonPort))
            end))
      end
  | None =>
      match strings_LastIndex host ":" with
      | Some i =>
          colonPort ← slice_from host i;
          if negb (validOptionalPort colonPort) then Some (Err (ErrPort colonPort))
          else unescape host encodeHost
      | None => unescape host encodeHost
      end
  end.

Definition parseAuthority (authority : gostring)
    : option (result url_err (option (gostring * option gostring) * gostring)) :=
  match strings_LastIndex authority "@" with
  | None => andthen (parseHost authority) (λ host, Some (Ok (None, host)))
  | Some i =>
      h ← slice_from authority (i + 1);
      andthen (parseHost h) (λ host,
      userinfo ← slice authority 0 i;
      if negb (validUserinfo userinfo) then Some (Err ErrUserinfo)
      else if negb (strings_Contains userinfo ":") then
        andthen (unescape userinfo encodeUserPassword) (λ user, Some (Ok (Some (user, None), host)))
      else
        let '(username, password, _) := strings_Cut userinfo ":" in
        andthen (unescape username encodeUserPassword) (λ username,
        andthen (unescape password encodeUserPassword) (λ password,
        Some (Ok (Some (username, Some password), host)))))
  end.

(** ** [parse] and [Parse] *)

Definition setPath (u : URL) (p : gostring) : option (result url_err URL) :=
  andthen (unescape p encodePath) (λ path,
  escp ← escape path encodePath;
  Some (Ok (set_path u path (if bool_decide (p = escp) then [] else p)))).

Definition setFragment (u : URL) (f : gostring) : option (result url_err URL) :=
  andthen (unescape f encodeFragment) (λ frag,
  escf ← escape frag encodeFragment;
  Some (Ok (set_fragment u frag (if bool_decide (f = escf) then [] else f)))).

(** [strings.HasSuffix(rest, "?") && strings.Count(rest, "?") == 1], else [strings.Cut]. *)
Definition split_query (rest : gostring) : gostring * gostring * bool :=
  if bool_decide (last rest = Some ("?"%byte)) && (strings_Count rest "?" =? 1)%nat
  then (take (length rest - 1) rest, [], true)
  else let '(r, q, _) := strings_Cut rest "?" in (r, q, false).

(** The authority and the path behind "//". *)
Definition split_authority (rest : gostring) : option (gostring * gostring) :=
  authority ← slice_from rest 2;
  match strings_Index authority "/" with
  | Some i => a ← slice authority 0 i; r ← slice_from authority i; Some (a, r)
  | None => Some (authority, [])
  end.

Definition parse (rawURL : gostring) (viaRequest : bool) : option (result url_err URL) :=
  if stringContainsCTLByte rawURL then Some (Err ErrControl)
  else if bool_decide (rawURL = []) && viaRequest then Some (Err ErrEmpty)
  else if bool_decide (rawURL = str "*") then Some (Ok (set_path newURL (str "*") []))
  else match getScheme rawURL with
  | Err e => Some (Err e)
  | Ok (scheme, rest) =>
      let scheme := map toLower scheme in
      let '(rest, rawQuery, forceQuery) := split_query rest in
      let url := MkURL scheme [] None [] [] [] false forceQuery rawQuery [] [] in
      let continue_ url :=
        if (negb (bool_decide (scheme = [])) || negb viaRequest && negb (HasPrefix rest (str "///")))
           && HasPrefix rest (str "//") then
          '(authority, rest) ← split_authority rest;
          andthen (parseAuthority authority) (λ '(user, host), setPath (set_authority url user host) rest)
        else if negb (bool_decide (scheme = [])) && HasPrefix rest (str "/") then
          setPath (set_omitHost url) rest
        else setPath url rest in
      if negb (HasPrefix rest (str "/")) then
        if negb (bool_decide (scheme = [])) then
          Some (Ok (MkURL scheme rest None [] [] [] false forceQuery rawQuery [] []))
        else if viaRequest then Some (Err ErrURIRequest)
        else
          let '(segment, _, _) := strings_Cut rest "/" in
          if strings_Contains segment ":" then Some (Err ErrSegmentColon) else continue_ url
      else continue_ url
  end.

Definition Parse (rawURL : gostring) : option (result url_err URL) :=
  let '(u, frag, _) := strings_Cut rawURL "#" in
  match parse u false with
  | None => None
  | Some (Err e) => Some (Err (ErrParse u e))
  | Some (Ok url) =>
      if bool_decide (frag = []) then Some (Ok url)
      else match setFragment url frag with
           | None => None
           | Some (Err e) => Some (Err (ErrParse rawURL e))
           | Some (Ok url) => Some (Ok url)
           end
  end.

(** Two hosts, escaped credentials, an IPv6 literal with a zone, an IPv4 one. *)
Example Parse_examples :
  Parse (str "ClickHouse://u%40x:p%3Aw@h1:9000,h2:9440/my%20db?a=b&c=d")
  = Some (Ok (MkURL (str "clickhouse") [] (Some (str "u@x", Some (str "p:w"))) (str "h1:9000,h2:9440")
      (str "/my db") [] false false (str "a=b&c=d") [] []))
  ∧ Parse (str "tcp://[fe80::1%25en0]:9000/") = Some (Ok (MkURL (str "tcp") [] None
      (str "[fe80::1%en0]:9000") (str "/") [] false false [] [] []))
  ∧ Parse (str "tcp://[127.0.0.1]:9000/") = Some (Err (ErrParse (str "tcp://[127.0.0.1]:9000/") ErrIPLiteral))
  ∧ Parse (str "tcp://]:9000[/") = Some (Err (ErrParse (str "tcp://]:9000[/") (ErrPort (str ":9000[")))).
Proof. vm_compute. done. Qed.

(** ** Escaping byte by byte *)

Definition enc1 (mode : encoding) (c : byte) : gostring :=
  if is_plus_space c mode then str "+"
  else if shouldEscape c mode then
    ["%"%byte; upperhex (Z.shiftr (bz c) 4); upperhex (Z.land (bz c) 15)]
  else [c].

Definition esc (mode : encoding) (s : gostring) : gostring := flat_map (enc1 mode) s.

Definition hexed (mode : encoding) (c : byte) : bool := shouldEscape c mode && negb (is_plus_space c mode).

Lemma space_escaped mode : shouldEscape " " mode = true.
Proof. by destruct mode. Qed.

Lemma plus_space_escaped c mode : is_plus_space c mode = true → shouldEscape c mode = true.
Proof.
  unfold is_plus_space. intros [E _]%andb_true_iff. apply beq_true in E as ->. apply space_escaped.
Qed.

Lemma escape_counts_spec s mode a b :
  foldl (λ '(sp, hx) c,
    if shouldEscape c mode then if is_plus_space c mode then (S sp, hx) else (sp, S hx) else (sp, hx))
    (a, b) s
  = (a + length (List.filter (λ c, is_plus_space c mode) s), b + length (List.filter (hexed mode) s)).
Proof.
  revert a b. induction s as [|c s IH]; intros a b; simpl.
  { by rewrite !Nat.add_0_r. }
  unfold hexed at 1. destruct (is_plus_space c mode) eqn:Ep.
  - rewrite (plus_space_escaped _ _ Ep), IH. simpl. f_equal; lia.
  - destruct (shouldEscape c mode); rewrite IH; simpl; f_equal; lia.
Qed.

Lemma esc_length s mode : length (esc mode s) = length s + 2 * length (List.filter (hexed mode) s).
Proof.
  induction s as [|c s IH]; [done|]. cbn [esc flat_map]. rewrite length_app.
  change (flat_map (enc1 mode) s) with (esc mode s). rewrite IH. cbn [length List.filter].
  unfold enc1, hexed at 2. destruct (is_plus_space c mode) eqn:Ep.
  - rewrite andb_false_r. simpl. lia.
  - rewrite andb_true_r. destruct (shouldEscape c mode); simpl; lia.
Qed.

Lemma set_index_mid {A} (d : list A) x r v : set_index (d ++ x :: r) (length d) v = Some (d ++ v :: r).
Proof.
  rewrite set_index_Some by (rewrite length_app; simpl; lia).
  by rewrite insert_app_r_alt, Nat.sub_diag by done.
Qed.

Lemma escape_write_spec s mode d :
  escape_write s mode (d ++ replicate (length (esc mode s)) x00) (length d) = Some (d ++ esc mode s).
Proof.
  revert d. induction s as [|c s IH]; intros d; [done|].
  cbn [escape_write]. change (esc mode (c :: s)) with (enc1 mode c ++ esc mode s).
  unfold enc1. destruct (is_plus_space c mode) eqn:Ep; [|destruct (shouldEscape c mode) eqn:Es].
  - change (str "+") with ["+"%byte : byte]. cbn [length app replicate]. rewrite set_index_mid.
    cbn [mbind option_bind]. rewrite (cons_middle _ d), app_assoc.
    replace (length d + 1) with (length (d ++ ["+"%byte])) by (by rewrite length_app).
    rewrite IH. by rewrite <- app_assoc.
  - cbn [length app replicate]. rewrite set_index_mid. cbn [mbind option_bind].
    set (h := upperhex (Z.shiftr (bz c) 4)). set (l := upperhex (Z.land (bz c) 15)).
    rewrite (cons_middle _ d), app_assoc.
    replace (length d + 1) with (length (d ++ ["%"%byte])) by (by rewrite length_app).
    rewrite set_index_mid. cbn [mbind option_bind]. rewrite (cons_middle h), app_assoc.
    replace (length d + 2) with (length ((d ++ ["%"%byte]) ++ [h])) by (rewrite !length_app; simpl; lia).
    rewrite set_index_mid. cbn [mbind option_bind]. rewrite (cons_middle l), app_assoc.
    replace (length d + 3) with (length (((d ++ ["%"%byte]) ++ [h]) ++ [l])) by (rewrite !length_app; simpl; lia).
    rewrite IH. by rewrite <- !app_assoc.
  - cbn [length app replicate]. rewrite set_index_mid. cbn [mbind option_bind].
    rewrite (cons_middle c), app_assoc.
    replace (length d + 1) with (length (d ++ [c])) by (by rewrite length_app).
    rewrite IH. by rewrite <- app_assoc.
Qed.

Lemma filter_nil {A} (f : A → bool) l : length (List.filter f l) = 0 → Forall (λ x, f x = false) l.
Proof.
  induction l as [|x l IH]; [done|]. simpl. destruct (f x) eqn:E; [done|]. intros H.
  constructor; [done|by apply IH].
Qed.

(** The three paths of [escape] all encode byte by byte; no write is out of range. *)
Lemma escape_spec s mode : escape s mode = Some (esc mode s).
Proof.
  unfold escape, escape_counts. rewrite escape_counts_spec. cbn [Nat.add].
  destruct (length (List.filter (hexed mode) s) =? 0)%nat eqn:Eh; rewrite ?andb_false_r.
  - apply Nat.eqb_eq in Eh. pose proof (filter_nil _ _ Eh) as Hh.
    assert (esc mode s = map (λ c, if beq c " " then "+"%byte else c) s) as Hmap.
    { clear Eh. induction Hh as [|c s Hc Hs IH]; [done|].
      change (esc mode (c :: s)) with (enc1 mode c ++ esc mode s). rewrite IH. cbn [map].
      unfold hexed in Hc. unfold enc1. destruct (is_plus_space c mode) eqn:Ep.
      - unfold is_plus_space in Ep. apply andb_true_iff in Ep as [-> _]. done.
      - rewrite andb_true_r in Hc. rewrite Hc. destruct (beq_spec c " ") as [->|]; [|done].
        by rewrite space_escaped in Hc. }
    destruct (length (List.filter (λ c, is_plus_space c mode) s) =? 0)%nat eqn:Esp; [|by rewrite Hmap].
    apply Nat.eqb_eq in Esp. pose proof (filter_nil _ _ Esp) as Hsp. f_equal. clear Hmap Eh Esp.
    induction s as [|c s IH]; [done|]. apply Forall_cons in Hh as [Hc Hh]. apply Forall_cons in Hsp as [Hp Hsp].
    change (esc mode (c :: s)) with (enc1 mode c ++ esc mode s). unfold enc1.
    unfold hexed in Hc. rewrite Hp in *. rewrite andb_true_r in Hc. rewrite Hc.
    cbn [app]. f_equal. by apply IH.
  - rewrite <- esc_length. apply (escape_write_spec s mode []).
Qed.

(** ** Unescaping *)

Lemma ishex_unhex c : ishex c = true → is_Some (unhex c).
Proof.
  unfold ishex, unhex. destruct (in_range "0" "9" c), (in_range "a" "f" c), (in_range "A" "F" c);
    simpl; intros; simplify_eq; by eexists.
Qed.

Lemma hex_pair_Some a b : ishex a = true → ishex b = true → ∃ v, hex_pair a b = Some v.
Proof.
  intros [x Hx]%ishex_unhex [y Hy]%ishex_unhex. unfold hex_pair. rewrite Hx, Hy. by eexists.
Qed.

(** The first loop is total, and what it accepts the second loop can build; without
    escapes the build is the identity. *)
Lemma unescape_check_build s mode n hp :
  ∃ r, unescape_check s mode n hp = Some r ∧
    match r with
    | Err _ => True
    | Ok (n', hp') => n ≤ n' ∧ ∃ t, unescape_build s mode = Some t ∧
        (n' = n → hp' = false → hp = false → t = s) ∧ (mode = encodeQueryComponent → hp = true → hp' = true)
    end.
Proof.
  remember (length s) as k eqn:Ek. revert s n hp Ek. induction (lt_wf k) as [k _ IH].
  intros s n hp ->. destruct s as [|c t].
  { eexists. split; [done|]. split; [done|]. by exists []. }
  cbn [unescape_check unescape_build]. destruct (beq_spec c "%") as [->|Hc].
  - destruct t as [|a [|b t']]; [by eexists..|].
    destruct (ishex a) eqn:Ea; [|by eexists]. destruct (ishex b) eqn:Eb; [|by eexists].
    cbn [negb orb]. destruct (ishex_unhex a Ea) as [x ->]. cbn [mbind option_bind].
    destruct (hex_pair_Some a b Ea Eb) as [v ->]. cbn [mbind option_bind].
    case_match; [by eexists|]. case_match; [by eexists|].
    destruct (IH (length t') ltac:(simpl; lia) t' (S n) hp eq_refl) as (r & -> & Hr).
    exists r. split; [done|]. destruct r as [[n' hp']|]; [|done].
    destruct Hr as (Hn & u & -> & Hid & Hq). split; [lia|]. eexists. split; [done|]. split; [lia|done].
  - destruct (beq_spec c "+") as [->|Hp].
    + destruct (IH (length t) ltac:(simpl; lia) t n (bool_decide (mode = encodeQueryComponent)) eq_refl)
        as (r & -> & Hr).
      exists r. split; [done|]. destruct r as [[n' hp']|]; [|done].
      destruct Hr as (Hn & u & -> & Hid & Hq). split; [done|]. eexists. split; [done|].
      case_bool_decide as Hm.
      * rewrite Hq by done. by split.
      * split; [|done]. intros ? ? ?. cbn. by rewrite Hid.
    + case_match; [by eexists|].
      destruct (IH (length t) ltac:(simpl; lia) t n hp eq_refl) as (r & -> & Hr).
      exists r. split; [done|]. destruct r as [[n' hp']|]; [|done].
      destruct Hr as (Hn & u & -> & Hid & Hq). split; [done|]. eexists. split; [done|].
      split; [|done]. intros ? ? ?. by rewrite Hid.
Qed.

Lemma unescape_total s mode : ∃ r, unescape s mode = Some r.
Proof.
  unfold unescape. destruct (unescape_check_build s mode 0 false) as (r & -> & Hr).
  cbn [mbind option_bind]. destruct r as [[n hp]|e]; [|by eexists].
  destruct Hr as (_ & t & -> & _). case_match; by eexists.
Qed.

(** A text the checks accept is unescaped to what the second loop builds. *)
Lemma unescape_by_build s mode nh t :
  unescape_check s mode 0 false = Some (Ok nh) → unescape_build s mode = Some t →
  unescape s mode = Some (Ok t).
Proof.
  intros Hc Hb. unfold unescape. destruct (unescape_check_build s mode 0 false) as (r & Hr1 & Hr).
  rewrite Hc in Hr1. simplify_eq. destruct nh as [n hp]. rewrite Hc. cbn [mbind option_bind].
  destruct Hr as (_ & u & Hu & Hid & _). rewrite Hb in Hu. simplify_eq.
  destruct ((n =? 0)%nat && negb hp) eqn:E; [|by rewrite Hb].
  apply andb_true_iff in E as [E1%Nat.eqb_eq E2%negb_true_iff]. by rewrite Hid.
Qed.

(** The modes whose escaping covers every byte. *)
Definition full_mode (mode : encoding) : Prop := mode ≠ encodeHost ∧ mode ≠ encodeZone.

Lemma hex_pair_upperhex c :
  ishex (upperhex (Z.shiftr (bz c) 4)) = true ∧ ishex (upperhex (Z.land (bz c) 15)) = true ∧
  hex_pair (upperhex (Z.shiftr (bz c) 4)) (upperhex (Z.land (bz c) 15)) = Some c.
Proof. destruct c; vm_compute; done. Qed.

Lemma percent_escaped mode : full_mode mode → shouldEscape "%" mode = true.
Proof. intros [H1 H2]. by destruct mode. Qed.

Lemma plus_query : shouldEscape "+" encodeQueryComponent = true.
Proof. done. Qed.

Lemma enc1_step mode c t n hp :
  full_mode mode →
  (∃ n' hp', unescape_check (enc1 mode c ++ t) mode n hp = unescape_check t mode n' hp') ∧
  unescape_build (enc1 mode c ++ t) mode = (r ← unescape_build t mode; Some (c :: r)).
Proof.
  intros [Hm1 Hm2]. unfold enc1. destruct (is_plus_space c mode) eqn:Ep.
  - unfold is_plus_space in Ep. apply andb_true_iff in Ep as [Ec Em].
    apply beq_true in Ec as ->. apply bool_decide_eq_true in Em as ->. split; [by do 2 eexists|done].
  - destruct (shouldEscape c mode) eqn:Es.
    + destruct (hex_pair_upperhex c) as (Ha & Hb & Hv). cbn [app unescape_check unescape_build].
      rewrite beq_refl, Ha, Hb. cbn [negb orb]. destruct (ishex_unhex _ Ha) as [x ->].
      rewrite Hv. cbn [mbind option_bind].
      rewrite (bool_decide_false (mode = encodeHost)), (bool_decide_false (mode = encodeZone)) by done.
      cbn [andb]. split; [by do 2 eexists|done].
    + cbn [app unescape_check unescape_build].
      rewrite (beq_ne c "%") by (intros ->; by rewrite percent_escaped in Es).
      rewrite (bool_decide_false (mode = encodeHost ∨ mode = encodeZone)) by (by intros [|]).
      cbn [andb]. destruct (beq_spec c "+") as [->|]; [|split; [by do 2 eexists|done]].
      rewrite (bool_decide_false (mode = encodeQueryComponent)) by (by intros ->).
      split; [by do 2 eexists|done].
Qed.

Lemma unescape_esc mode s : full_mode mode → unescape (esc mode s) mode = Some (Ok s).
Proof.
  intros Hm.
  assert (∀ n hp, ∃ nh, unescape_check (esc mode s) mode n hp = Some (Ok nh)) as Hc.
  { induction s as [|c s IH]; intros n hp; [by eexists|].
    change (esc mode (c :: s)) with (enc1 mode c ++ esc mode s).
    destruct (enc1_step mode c (esc mode s) n hp Hm) as [(n' & hp' & ->) _]. apply IH. }
  assert (unescape_build (esc mode s) mode = Some s) as Hb.
  { clear Hc. induction s as [|c s IH]; [done|].
    change (esc mode (c :: s)) with (enc1 mode c ++ esc mode s).
    destruct (enc1_step mode c (esc mode s) 0 false Hm) as [_ ->]. by rewrite IH. }
  destruct (Hc 0 false) as [nh Hnh]. by eapply unescape_by_build.
Qed.

(** Percent-encoding round trips: in every mode but the host's, escaping any byte
    string (without a write out of range) and unescaping the result gives the string
    back. *)
Theorem unescape_escape mode s :
  full_mode mode → ∃ t, escape s mode = Some t ∧ unescape t mode = Some (Ok s).
Proof. intros Hm. exists (esc mode s). split; [apply escape_spec|by apply unescape_esc]. Qed.

(** ** Totality *)

Lemma andthen_total {A B} (m : option (result url_err A)) (k : A → option (result url_err B)) :
  (∃ r, m = Some r) → (∀ a, ∃ r, k a = Some r) → ∃ r, andthen m k = Some r.
Proof. intros [[a|e] ->] Hk; [apply Hk|by eexists]. Qed.

(** A bracket behind the last closing bracket makes the port invalid. *)
Lemma validOptionalPort_no_bracket s : validOptionalPort s = true → ("["%byte : byte) ∉ s.
Proof.
  destruct s as [|c t]; [intros _; apply not_elem_of_nil|]. simpl.
  intros [E1%beq_true E2]%andb_true_iff. subst c. apply not_elem_of_cons. split; [done|].
  intros Hin%list_elem_of_In. rewrite forallb_forall in E2. by specialize (E2 _ Hin).
Qed.

Lemma parseHost_total host : ∃ r, parseHost host = Some r.
Proof.
  unfold parseHost. destruct (strings_LastIndex host "[") as [o|] eqn:Eo.
  - destruct (strings_LastIndex host "]") as [cl|] eqn:Ec; [|by eexists].
    pose proof Eo as (mo & ro & Ho & Hlo & Hro)%LastIndex_Some.
    pose proof Ec as (mc & rc & Hh & Hlc & Hrc)%LastIndex_Some.
    assert (length host = length mc + S (length rc)) as Hlen by (rewrite Hh, length_app; done).
    rewrite slice_from_Some by lia. cbn [mbind option_bind].
    destruct (validOptionalPort (drop (cl + 1) host)) eqn:Ev; [|by eexists]. cbn [negb].
    apply andthen_total; [apply unescape_total|]. intros ucp.
    apply validOptionalPort_no_bracket in Ev.
    assert (o + 1 ≤ cl) as Hle.
    { destruct (decide (cl < o)) as [Hlt|Hge].
      - exfalso. apply Ev. rewrite <- Hlo in Hlt.
        apply list_elem_of_lookup. exists (length mo - (cl + 1)). rewrite lookup_drop.
        replace (cl + 1 + (length mo - (cl + 1))) with (length mo) by lia.
        rewrite Ho. by apply list_lookup_middle.
      - assert (o ≠ cl); [|lia]. intros ->.
        assert (host !! cl = Some ("["%byte : byte)) as H1 by (rewrite Ho; by apply list_lookup_middle).
        assert (host !! cl = Some ("]"%byte : byte)) as H2 by (rewrite Hh; by apply list_lookup_middle).
        rewrite H1 in H2. done. }
    rewrite slice_Some by lia. cbn [mbind option_bind].
    apply andthen_total.
    + destruct (strings_IndexSub _ (str "%25")) as [z|] eqn:Ez; [|apply unescape_total].
      apply IndexSub_Some in Ez.
      rewrite slice_Some by lia. cbn [mbind option_bind]. apply andthen_total; [apply unescape_total|].
      intros hp. rewrite slice_from_Some by lia. cbn [mbind option_bind].
      apply andthen_total; [apply unescape_total|]. intros zp. by eexists.
    + intros u. destruct (ParseAddr u) as [[]|]; by eexists.
  - destruct (strings_LastIndex host ":") as [i|] eqn:Ei; [|apply unescape_total].
    apply LastIndex_Some in Ei as (m & r & -> & <- & _).
    rewrite slice_from_Some by (rewrite length_app; lia). cbn [mbind option_bind].
    case_match; [by eexists|apply unescape_total].
Qed.

Lemma parseAuthority_total a : ∃ r, parseAuthority a = Some r.
Proof.
  unfold parseAuthority. destruct (strings_LastIndex a "@") as [i|] eqn:Ei.
  - apply LastIndex_Some in Ei as (m & r & -> & <- & _).
    rewrite slice_from_Some by (rewrite length_app; simpl; lia). cbn [mbind option_bind].
    apply andthen_total; [apply parseHost_total|]. intros h.
    rewrite slice_Some by (rewrite ?length_app; simpl; lia). cbn [mbind option_bind].
    case_match; [by eexists|]. case_match.
    + apply andthen_total; [apply unescape_total|]. intros; by eexists.
    + destruct (strings_Cut _ _) as [[u p] ?].
      apply andthen_total; [apply unescape_total|]. intros ?.
      apply andthen_total; [apply unescape_total|]. intros ?. by eexists.
  - apply andthen_total; [apply parseHost_total|]. intros; by eexists.
Qed.

Lemma setPath_total u p : ∃ r, setPath u p = Some r.
Proof.
  unfold setPath. apply andthen_total; [apply unescape_total|]. intros path.
  rewrite escape_spec. by eexists.
Qed.

Lemma setFragment_total u p : ∃ r, setFragment u p = Some r.
Proof.
  unfold setFragment. apply andthen_total; [apply unescape_total|]. intros path.
  rewrite escape_spec. by eexists.
Qed.

Lemma split_authority_total rest :
  HasPrefix rest (str "//") = true → ∃ a r, split_authority rest = Some (a, r).
Proof.
  intros Hp%bool_decide_eq_true. unfold split_authority.
  assert (2 ≤ length rest) as Hl.
  { destruct rest as [|a [|b rest]]; [done|done|simpl; lia]. }
  rewrite slice_from_Some by done. cbn [mbind option_bind].
  destruct (strings_Index (drop 2 rest) "/") as [i|] eqn:Ei; [|by do 2 eexists].
  apply Index_Some in Ei. rewrite slice_Some by lia. cbn [mbind option_bind].
  rewrite slice_from_Some by lia. by do 2 eexists.
Qed.

Lemma parse_total s v : ∃ r, parse s v = Some r.
Proof.
  unfold parse.
  destruct (stringContainsCTLByte s); [by eexists|].
  destruct (bool_decide (s = []) && v); [by eexists|].
  destruct (bool_decide (s = str "*")); [by eexists|].
  destruct (getScheme s) as [[scheme rest0]|e]; [|by eexists].
  destruct (split_query rest0) as [[rest rq] fq]. cbv zeta.
  set (url := MkURL _ _ _ _ _ _ _ _ _ _ _).
  set (cont := if (_ || _) && HasPrefix rest (str "//") then _ else _).
  assert (∃ r, cont = Some r) as Hcont.
  { subst cont. destruct ((_ || _) && HasPrefix rest (str "//")) eqn:Ec.
    - apply andb_true_iff in Ec as [_ Hp].
      destruct (split_authority_total rest Hp) as (a & p & ->). cbn [mbind option_bind].
      apply andthen_total; [apply parseAuthority_total|intros [? ?]; apply setPath_total].
    - case_match; apply setPath_total. }
  destruct (negb (HasPrefix rest (str "/"))); [|exact Hcont].
  destruct (negb (bool_decide (map toLower scheme = []))); [by eexists|].
  destruct v; [by eexists|]. destruct (strings_Cut rest "/") as [[seg ?] ?].
  destruct (strings_Contains seg ":"); [by eexists|exact Hcont].
Qed.

(** [Parse] returns for every input: no index, slice bound or hexadecimal digit
    panics, on any byte string a user can put into a DSN. *)
Theorem Parse_total rawURL : ∃ r, Parse rawURL = Some r.
Proof.
  unfold Parse. destruct (strings_Cut rawURL "#") as [[u frag] ?].
  destruct (parse_total u false) as [[url|e] ->]; [|by eexists].
  case_bool_decide; [by eexists|].
  destruct (setFragment_total url frag) as [[url'|e] ->]; by eexists.
Qed.

(** What [setPath] stores determines the text it was given. *)
Lemma setPath_lossless u p u' :
  setPath u p = Some (Ok u') →
  unescape p encodePath = Some (Ok (Path u')) ∧
  (if bool_decide (RawPath u' = []) then escape (Path u') encodePath = Some p else RawPath u' = p).
Proof.
  unfold setPath. destruct (unescape p encodePath) as [[path|e]|] eqn:Eu; simpl; [|done..].
  rewrite escape_spec. cbn [mbind option_bind]. intros [= <-]. cbn [Path RawPath set_path].
  split; [done|]. destruct (decide (p = esc encodePath path)) as [E1|E1].
  - rewrite (bool_decide_true (p = _)) by done. rewrite bool_decide_true by done.
    rewrite escape_spec. by rewrite E1.
  - rewrite (bool_decide_false (p = _)) by done. case_bool_decide as E2; [|done].
    subst p. exfalso. apply E1. unfold unescape in Eu. simpl in Eu. by simplify_eq.
Qed.

(** ** A DSN and its parts *)

Definition host_text (hosts : list (gostring * Z)) : gostring :=
  strings_Join (map (λ '(h, p), h ++ str ":" ++ FormatUint p) hosts) (str ",").

Definition dsn (scheme user password : gostring) (hosts : list (gostring * Z)) (database query : gostring)
    : gostring :=
  scheme ++ str "://" ++ (esc encodeUserPassword user ++ str ":" ++ esc encodeUserPassword password
    ++ str "@" ++ host_text hosts) ++ (str "/" ++ esc encodePath database) ++ str "?" ++ query.

(** Byte classes of the parts. *)
Definition up_byte (b : byte) : bool := alnum b || one_of (str "-_.~$&+,;=%") b.
Definition path_byte (b : byte) : bool := alnum b || one_of (str "-_.~$&+,;=%/:@") b.
Definition name_byte (b : byte) : bool := alnum b || one_of (str "-._~") b.
Definition hosts_byte (b : byte) : bool := name_byte b || one_of (str ":,") b.
Definition ctl (b : byte) : bool := (bz b <? 32)%Z || (bz b =? 127)%Z.

Lemma class_free (P : byte → bool) (s : gostring) b :
  Forall (λ x, P x = true) s → P b = false → b ∉ s.
Proof. intros Hs Hb Hin. rewrite Forall_forall in Hs. specialize (Hs _ Hin). congruence. Qed.

Lemma esc_class P mode s :
  (∀ c, forallb P (enc1 mode c) = true) → Forall (λ x, P x = true) (esc mode s).
Proof.
  intros Hc. induction s as [|c s IH]; [done|]. apply Forall_app. split; [|exact IH].
  apply List.Forall_forall. apply forallb_forall, Hc.
Qed.

Lemma esc_up s : Forall (λ x, up_byte x = true) (esc encodeUserPassword s).
Proof. apply esc_class. intros c. destruct c; vm_compute; reflexivity. Qed.

Lemma esc_path s : Forall (λ x, path_byte x = true) (esc encodePath s).
Proof. apply esc_class. intros c. destruct c; vm_compute; reflexivity. Qed.

Lemma no_ctl_class P s :
  (∀ b, P b = true → ctl b = false) → Forall (λ x, P x = true) s → Forall (λ x, ctl x = false) s.
Proof. intros HP Hs. eapply Forall_impl; [exact Hs|]. auto. Qed.

Lemma stringContainsCTLByte_false s : Forall (λ x, ctl x = false) s → stringContainsCTLByte s = false.
Proof. induction 1 as [|b s Hb Hs IH]; [done|]. simpl. unfold ctl in Hb. by rewrite Hb, IH. Qed.

Lemma split_query_spec r q : ("?"%byte : byte) ∉ r → split_query (r ++ str "?" ++ q) = (r, q, bool_decide (q = [])).
Proof.
  intros Hr. unfold split_query. change (str "?" ++ q) with (("?"%byte : byte) :: q).
  rewrite Cut_found by done.
  assert (strings_Count (r ++ "?"%byte :: q) "?" = S (strings_Count q "?")) as Hcnt.
  { unfold strings_Count. rewrite List.filter_app, length_app. cbn [List.filter]. rewrite beq_refl.
    rewrite Nat.add_comm. cbn [length Nat.add].
    replace (length (List.filter (λ c, beq c "?") r)) with 0; [done|].
    clear -Hr. induction r as [|b r IH]; [done|]. apply not_elem_of_cons in Hr as [Hb Hr]. simpl.
    rewrite beq_ne by done. by apply IH. }
  rewrite Hcnt. destruct (decide (q = [])) as [->|Hq].
  - rewrite last_snoc, (bool_decide_true (Some _ = _)) by done. cbn.
    rewrite length_app. cbn [length]. rewrite Nat.add_sub, take_app_length. done.
  - rewrite (bool_decide_false (q = [])) by done.
    case_bool_decide as Hl; [|done]. destruct q as [|b q _] using rev_ind; [done|].
    rewrite app_comm_cons, app_assoc, last_snoc in Hl. injection Hl as ->.
    unfold strings_Count. rewrite List.filter_app, length_app. cbn. rewrite Nat.add_1_r. done.
Qed.

Lemma getScheme_spec scheme rest :
  scheme ≠ [] → Forall (λ b, in_range "a" "z" b = true) scheme →
  getScheme (scheme ++ str ":" ++ rest) = Ok (scheme, rest).
Proof.
  intros Hne Hs. unfold getScheme. change (str ":" ++ rest) with ((":"%byte : byte) :: rest).
  assert (∀ pre suf, scheme = pre ++ suf → pre ++ suf ≠ [] →
    getScheme_loop (scheme ++ ":"%byte :: rest) (suf ++ ":"%byte :: rest) (length pre) = Ok (scheme, rest)) as Hl.
  { intros pre suf. revert pre. induction suf as [|b suf IH]; intros pre E Hn.
    - cbn [app getScheme_loop]. rewrite app_nil_r in E. subst pre.
      destruct scheme as [|s0 sch]; [done|]. cbn [length Nat.eqb].
      change (in_range "a" "z" ":" || in_range "A" "Z" ":") with false.
      change (in_range "0" "9" ":" || one_of (str "+-.") ":") with false. rewrite beq_refl.
      set (l := s0 :: sch). change (S (length sch)) with (length l).
      rewrite take_app_length, Nat.add_1_r. f_equal. f_equal.
      by rewrite drop_app_ge, Nat.sub_succ_l, Nat.sub_diag by lia.
    - cbn [app getScheme_loop]. rewrite E in Hs. apply Forall_app in Hs as [_ Hs].
      apply Forall_cons in Hs as [-> _]. cbn [orb].
      replace (length pre + 1) with (length (pre ++ [b])) by (by rewrite length_app).
      apply IH; [by rewrite <- app_assoc|by rewrite <- app_assoc]. }
  apply (Hl [] scheme); done.
Qed.

Lemma toLower_lower s : Forall (λ b, in_range "a" "z" b = true) s → map toLower s = s.
Proof.
  induction 1 as [|b s Hb Hs IH]; [done|]. cbn [map]. rewrite IH. f_equal.
  unfold toLower. destruct (in_range "A" "Z" b) eqn:E; [|done].
  exfalso. revert Hb E. unfold in_range. destruct b; vm_compute; discriminate.
Qed.

(** Host text is left alone by [parseHost]. *)
Lemma unescape_hosts s : Forall (λ b, hosts_byte b = true) s → unescape s encodeHost = Some (Ok s).
Proof.
  intros Hs. assert (∀ n hp, unescape_check s encodeHost n hp = Some (Ok (n, hp))) as Hc.
  { induction Hs as [|b s Hb Hs IH]; intros n hp; [done|]. cbn [unescape_check].
    assert (beq b "%" = false ∧ beq b "+" = false ∧ shouldEscape b encodeHost = false) as (-> & -> & ->).
    { revert Hb. destruct b; vm_compute; done. }
    rewrite andb_false_r. apply IH. }
  unfold unescape. by rewrite Hc.
Qed.

Lemma digits_name n : Forall (λ b, name_byte b = true) (FormatUint n).
Proof.
  eapply Forall_impl; [apply FormatUint_digits|]. intros b. destruct b; vm_compute; done.
Qed.

Definition hosts_ok (hosts : list (gostring * Z)) : Prop :=
  hosts ≠ [] ∧ Forall (λ '(h, _), Forall (λ b, name_byte b = true) h) hosts.

Lemma host_text_spec hosts :
  hosts_ok hosts →
  Forall (λ b, hosts_byte b = true) (host_text hosts) ∧ ∃ m p, host_text hosts = m ++ ":"%byte :: FormatUint p.
Proof.
  intros [Hne Hh]. unfold host_text. induction Hh as [|[h p] hosts Hx Hh IH]; [done|].
  assert (Forall (λ b, hosts_byte b = true) (h ++ str ":" ++ FormatUint p)) as Hhp.
  { assert (∀ s, Forall (λ b, name_byte b = true) s → Forall (λ b, hosts_byte b = true) s) as Hw.
    { intros s Hs. eapply Forall_impl; [exact Hs|]. intros b Hb. unfold hosts_byte. by rewrite Hb. }
    apply Forall_app. split; [by apply Hw|]. apply Forall_app. split; [by repeat constructor|].
    apply Hw, digits_name. }
  destruct hosts as [|hp hosts].
  - split; [exact Hhp|]. exists h, p. done.
  - destruct IH as [IH1 (m & q & E)]; [done|].
    change (strings_Join (map _ ((h, p) :: hp :: hosts)) (str ","))
      with ((h ++ str ":" ++ FormatUint p) ++ str ","
            ++ strings_Join (map (λ '(h, p), h ++ str ":" ++ FormatUint p) (hp :: hosts)) (str ",")).
    split; [apply Forall_app; split; [done|]; apply Forall_app; split; [by repeat constructor|done]|].
    rewrite E. exists ((h ++ str ":" ++ FormatUint p) ++ str "," ++ m), q. by rewrite <- !app_assoc.
Qed.

Lemma parseHost_hosts hosts : hosts_ok hosts → parseHost (host_text hosts) = Some (Ok (host_text hosts)).
Proof.
  intros Hok. destruct (host_text_spec hosts Hok) as (Hb & m & p & E). unfold parseHost.
  rewrite LastIndex_missing by (by apply (class_free hosts_byte)).
  rewrite E at 1. rewrite LastIndex_found.
  2:{ apply (class_free isDigit); [apply FormatUint_digits|done]. }
  rewrite E at 1. rewrite slice_from_Some by (rewrite length_app; lia). cbn [mbind option_bind].
  rewrite drop_app_length. cbn [validOptionalPort]. rewrite beq_refl.
  assert (forallb isDigit (FormatUint p) = true) as ->.
  { apply forallb_forall, List.Forall_forall, FormatUint_digits. }
  cbn [andb negb]. by apply unescape_hosts.
Qed.

Lemma parseAuthority_parts user password hosts :
  hosts_ok hosts →
  parseAuthority (esc encodeUserPassword user ++ str ":" ++ esc encodeUserPassword password
                  ++ str "@" ++ host_text hosts)
  = Some (Ok (Some (user, Some password), host_text hosts)).
Proof.
  intros Hok. destruct (host_text_spec hosts Hok) as (Hb & _).
  set (eu := esc encodeUserPassword user). set (ep := esc encodeUserPassword password).
  set (info := eu ++ ":"%byte :: ep).
  replace (eu ++ str ":" ++ ep ++ str "@" ++ host_text hosts) with (info ++ "@"%byte :: host_text hosts)
    by (unfold info; by rewrite <- app_assoc).
  unfold parseAuthority. rewrite LastIndex_found by (by apply (class_free hosts_byte)).
  rewrite slice_from_Some by (rewrite length_app; simpl; lia). cbn [mbind option_bind].
  replace (drop (length info + 1) (info ++ "@"%byte :: host_text hosts)) with (host_text hosts).
  2:{ rewrite drop_app_ge by lia. by replace (length info + 1 - length info) with 1 by lia. }
  rewrite parseHost_hosts by done. cbn [andthen].
  rewrite slice_Some by (rewrite ?length_app; simpl; lia). cbn [mbind option_bind].
  rewrite Nat.sub_0_r, drop_0, take_app_length.
  assert (validUserinfo info = true) as ->.
  { apply forallb_forall. apply List.Forall_forall.
    assert (∀ s, Forall (λ x, up_byte x = true) s →
       Forall (λ r, alnum r || one_of (str "-._:~!$&'()*+,;=%") r || beq r "@" = true) s) as Hw.
    { intros s Hs. eapply Forall_impl; [exact Hs|]. intros b. destruct b; vm_compute; done. }
    apply Forall_app. split; [apply Hw, esc_up|]. constructor; [done|apply Hw, esc_up]. }
  cbn [negb]. assert (strings_Contains info ":" = true) as ->.
  { apply Contains_spec. apply elem_of_app. right. left. }
  cbn [negb]. unfold info.
  rewrite Cut_found by (apply (class_free up_byte); [apply esc_up|done]).
  unfold eu, ep. rewrite !unescape_esc by done. done.
Qed.

Lemma setPath_esc u database :
  setPath u (str "/" ++ esc encodePath database) = Some (Ok (set_path u (str "/" ++ database) [])).
Proof.
  change (str "/" ++ esc encodePath database) with (esc encodePath (str "/" ++ database)).
  unfold setPath. rewrite unescape_esc by done. cbn [andthen]. rewrite escape_spec.
  cbn [mbind option_bind]. by rewrite bool_decide_true.
Qed.

(** Every byte of a DSN in front of its query. *)
Definition text_byte (b : byte) : bool := hosts_byte b || path_byte b.

Lemma text_class P s :
  (∀ b, P b = true → text_byte b = true) → Forall (λ x, P x = true) s → Forall (λ x, text_byte x = true) s.
Proof. intros HP Hs. eapply Forall_impl; [exact Hs|]. auto. Qed.

Lemma text_byte_not_ctl b : text_byte b = true → ctl b = false.
Proof. destruct b; vm_compute; done. Qed.

Lemma authority_bytes user password hosts :
  hosts_ok hosts →
  let A := esc encodeUserPassword user ++ str ":" ++ esc encodeUserPassword password
           ++ str "@" ++ host_text hosts in
  Forall (λ x, text_byte x = true) A ∧ ("/"%byte : byte) ∉ A.
Proof.
  intros Hok. destruct (host_text_spec hosts Hok) as (Hb & _). cbv zeta.
  assert (∀ s, Forall (λ x, text_byte x = true ∧ beq x "/" = false) s →
            Forall (λ x, text_byte x = true) s ∧ ("/"%byte : byte) ∉ s) as Hw.
  { intros s Hs. split; [eapply Forall_impl; [exact Hs|]; by intros x [? ?]|].
    apply (class_free (λ x, negb (beq x "/"))); [|done]. eapply Forall_impl; [exact Hs|].
    by intros x [_ ->]. }
  apply Hw. repeat (apply Forall_app; split); try (by repeat constructor).
  - eapply Forall_impl; [apply esc_up|]. intros x. destruct x; vm_compute; done.
  - eapply Forall_impl; [apply esc_up|]. intros x. destruct x; vm_compute; done.
  - eapply Forall_impl; [exact Hb|]. intros x. destruct x; vm_compute; done.
Qed.

(** Behind the scheme: the query, the authority and the path are found. *)
Lemma parse_behind_scheme scheme A P query user host :
  scheme ≠ [] → ("/"%byte : byte) ∉ A → ("?"%byte : byte) ∉ A ++ str "/" ++ P →
  Forall (λ b, in_range "a" "z" b = true) scheme →
  stringContainsCTLByte (scheme ++ str "://" ++ (A ++ str "/" ++ P) ++ str "?" ++ query) = false →
  parseAuthority A = Some (Ok (user, host)) →
  parse (scheme ++ str "://" ++ (A ++ str "/" ++ P) ++ str "?" ++ query) false
  = setPath (MkURL scheme [] user host [] [] false (bool_decide (query = [])) query [] []) (str "/" ++ P).
Proof.
  intros Hne HA Hq Hs Hctl Hau. unfold parse. rewrite Hctl, andb_false_r.
  rewrite bool_decide_false.
  2:{ destruct scheme as [|c [|d sch]]; [done| |]; intros H; simplify_eq/=. }
  change (str "://") with (str ":" ++ str "//"). rewrite <- (app_assoc (str ":")).
  rewrite getScheme_spec, toLower_lower by done.
  rewrite (app_assoc (str "//")), split_query_spec.
  2:{ apply not_elem_of_app. split; [by apply (bool_decide_unpack _)|done]. }
  rewrite (bool_decide_false (scheme = [])) by done.
  change (HasPrefix (str "//" ++ ?x) (str "/")) with true.
  change (HasPrefix (str "//" ++ ?x) (str "//")) with true. cbn [negb orb andb].
  assert (split_authority (str "//" ++ A ++ str "/" ++ P) = Some (A, str "/" ++ P)) as ->.
  { unfold split_authority. rewrite slice_from_Some by (simpl; lia). cbn [mbind option_bind].
    change (drop 2 (str "//" ++ ?x)) with x. change (str "/" ++ P) with (("/"%byte : byte) :: P).
    rewrite Index_found by done. rewrite slice_Some by (rewrite ?length_app; lia). cbn [mbind option_bind].
    rewrite slice_from_Some by (rewrite length_app; lia). cbn [mbind option_bind].
    by rewrite Nat.sub_0_r, drop_0, take_app_length, drop_app_length. }
  cbn [mbind option_bind]. rewrite Hau. reflexivity.
Qed.

(** What the parts of a DSN become. *)
Lemma Parse_parts scheme user password hosts database query :
  scheme ≠ [] → Forall (λ b, in_range "a" "z" b = true) scheme → hosts_ok hosts →
  ("#"%byte : byte) ∉ query → Forall (λ b, ctl b = false) query →
  Parse (dsn scheme user password hosts database query)
  = Some (Ok (MkURL scheme [] (Some (user, Some password)) (host_text hosts) (str "/" ++ database) []
      false (bool_decide (query = [])) query [] [])).
Proof.
  intros Hne Hs Hok Hhash Hctl. destruct (authority_bytes user password hosts Hok) as [HA HA'].
  unfold dsn. set (A := esc encodeUserPassword user ++ _) in *.
  set (P := esc encodePath database).
  assert (Forall (λ x, text_byte x = true) P) as HP.
  { eapply text_class; [|apply esc_path]. intros x. unfold text_byte. intros ->. apply orb_true_r. }
  rewrite (app_assoc A).
  assert (Forall (λ x, text_byte x = true) (scheme ++ str "://" ++ A ++ str "/" ++ P)) as Hall.
  { apply Forall_app. split; [eapply text_class; [|exact Hs]; intros x; destruct x; vm_compute; done|].
    apply Forall_app. split; [by repeat constructor|]. apply Forall_app. split; [done|].
    apply Forall_app. split; [by repeat constructor|done]. }
  assert (scheme ++ str "://" ++ (A ++ str "/" ++ P) ++ str "?" ++ query
          = (scheme ++ str "://" ++ A ++ str "/" ++ P) ++ str "?" ++ query) as E
    by (by rewrite <- !app_assoc).
  unfold Parse. rewrite Cut_missing.
  2:{ rewrite E. apply not_elem_of_app. split; [by apply (class_free text_byte)|].
      apply not_elem_of_app. split; [by apply (bool_decide_unpack _)|done]. }
  rewrite (parse_behind_scheme scheme A P query (Some (user, Some password)) (host_text hosts)); try done.
  - unfold P. rewrite setPath_esc. done.
  - apply (class_free text_byte); [|done]. by do 2 apply Forall_app in Hall as [_ Hall].
  - rewrite E. apply stringContainsCTLByte_false. apply Forall_app. split.
    + eapply Forall_impl; [exact Hall|]. apply text_byte_not_ctl.
    + apply Forall_app. split; [by repeat constructor|done].
  - by apply parseAuthority_parts.
Qed.

(** C19: a DSN is parsed back into the parts it was built from: the scheme, arbitrary
    bytes as user name, password and database name (percent-encoded in the DSN), any
    number of host:port pairs in one authority, which is what this copy of the parser
    exists for, and the query string. *)
Theorem Parse_dsn scheme user password hosts database query :
  scheme ≠ [] → Forall (λ b, in_range "a" "z" b = true) scheme → hosts_ok hosts →
  ("#"%byte : byte) ∉ query → Forall (λ b, ctl b = false) query →
  Parse (dsn scheme user password hosts database query)
  = Some (Ok (MkURL scheme [] (Some (user, Some password)) (host_text hosts) (str "/" ++ database) []
      false (bool_decide (query = [])) query [] [])).
Proof. apply Parse_parts. Qed.

Lemma Parse_dsn_witness :
  Parse (dsn (str "clickhouse") (str "u@x") (str "p:w/?#") [(str "h1", 9000%Z); (str "h2", 9440%Z)]
           (str "my db") (str "debug=true"))
  = Some (Ok (MkURL (str "clickhouse") [] (Some (str "u@x", Some (str "p:w/?#"))) (str "h1:9000,h2:9440")
      (str "/my db") [] false false (str "debug=true") [] [])).
Proof.
  apply (Parse_dsn (str "clickhouse") (str "u@x") (str "p:w/?#") [(str "h1", 9000%Z); (str "h2", 9440%Z)]
           (str "my db") (str "debug=true")).
  - discriminate.
  - repeat constructor.
  - split; [discriminate|repeat constructor].
  - apply (bool_decide_unpack _). vm_compute. exact I.
  - repeat constructor.
Defined.

Lemma unescape_escape_witness :
  ∃ t, escape (str "a b/%+") encodeQueryComponent = Some t
       ∧ unescape t encodeQueryComponent = Some (Ok (str "a b/%+")).
Proof. apply (unescape_escape encodeQueryComponent (str "a b/%+")). split; discriminate. Defined.
