(* ===== verification/Strconv.v ===== *)
(** * Texts to values: the parts of [strconv], [strings], [net/url] and [time] that the
      driver's options and types are read with

    [None] is an error of the Go function. *)

From Stdlib Require Import ZifyBool.
From S2P Require Import Prelude GoStd ChUrl.
Local Open Scope Z_scope.

(** ** [strconv] *)

(** A sign and the digits behind it. *)
Definition split_sign (s : gostring) : bool * gostring :=
  match s with
  | b :: s' => if beq b "-" then (true, s') else if beq b "+" then (false, s') else (false, s)
  | [] => (false, [])
  end.

Definition all_digits (d : gostring) : bool := forallb isDigit d && negb (bool_decide (d = [])).

(** [strconv.ParseInt(s, 10, bits)]. *)
Definition ParseInt (bits : Z) (s : gostring) : option Z :=
  let '(neg, d) := split_sign s in
  if all_digits d then
    let z := if neg then - dec_val d else dec_val d in
    if (- 2 ^ (bits - 1) <=? z) && (z <? 2 ^ (bits - 1)) then Some z else None
  else None.

Definition Atoi : gostring → option Z := ParseInt 64.

(** [strconv.ParseUint(s, 10, bits)]: no sign. *)
Definition ParseUint (bits : Z) (s : gostring) : option Z :=
  if all_digits s then if dec_val s <? 2 ^ bits then Some (dec_val s) else None else None.

(** [strconv.ParseBool]. *)
Definition true_texts : list gostring := map str ["1"; "t"; "T"; "TRUE"; "true"; "True"].
Definition false_texts : list gostring := map str ["0"; "f"; "F"; "FALSE"; "false"; "False"].
Definition ParseBool (s : gostring) : option bool :=
  if existsb (λ x, bool_decide (x = s)) true_texts then Some true
  else if existsb (λ x, bool_decide (x = s)) false_texts then Some false
  else None.

(** ** [strings] *)

(** [strings.Split(s, "b")]. *)
Fixpoint strings_Split (s : gostring) (b : byte) : list gostring :=
  match s with
  | [] => [[]]
  | c :: s =>
      if beq c b then [] :: strings_Split s b
      else match strings_Split s b with m :: l => (c :: m) :: l | [] => [[c]] end
  end.

Lemma strings_Split_free s b : b ∉ s → strings_Split s b = [s].
Proof.
  induction s as [|c s IH]; [done|]. intros [Hc Hs]%not_elem_of_cons. cbn. rewrite beq_ne by done. by rewrite IH.
Qed.

Lemma strings_Split_app m s b : b ∉ m → strings_Split (m ++ b :: s) b = m :: strings_Split s b.
Proof.
  induction m as [|c m IH]; cbn; [by rewrite beq_refl|]. intros [Hc Hs]%not_elem_of_cons. rewrite beq_ne by done.
  by rewrite IH.
Qed.

Lemma strings_Split_Join l b : l ≠ [] → Forall (λ x, b ∉ x) l → strings_Split (strings_Join l [b]) b = l.
Proof.
  intros Hne H. induction H as [|x l Hx H IH]; [done|]. destruct l as [|y l]; [by apply strings_Split_free|].
  change (strings_Join (x :: y :: l) [b]) with (x ++ b :: strings_Join (y :: l) [b]).
  rewrite strings_Split_app by done. by rewrite IH.
Qed.

(** [strings.TrimPrefix(s, "b")]. *)
Definition TrimPrefix1 (s : gostring) (b : byte) : gostring :=
  match s with c :: s' => if beq c b then s' else s | [] => [] end.

(** ** Numbers printed and read *)

Lemma FormatUint_forallb n : forallb isDigit (FormatUint n) = true.
Proof. apply forallb_forall, List.Forall_forall, FormatUint_digits. Qed.

Lemma all_digits_FormatUint n : all_digits (FormatUint n) = true.
Proof. unfold all_digits. by rewrite FormatUint_forallb, bool_decide_false by apply FormatUint_nonempty. Qed.

Lemma split_sign_FormatInt z : split_sign (FormatInt z) = (z <? 0, FormatUint (Z.abs z)).
Proof.
  unfold FormatInt. destruct (z <? 0) eqn:E.
  - by replace (Z.abs z) with (- z) by lia.
  - replace (Z.abs z) with z by lia. destruct (FormatUint z) as [|b s] eqn:Eb; [by apply FormatUint_nonempty in Eb|].
    pose proof (FormatUint_digits z) as HF. rewrite Eb in HF. apply Forall_cons in HF as [Hb _]. cbn.
    destruct (beq_spec b "-") as [-> |_]; [done|]. by destruct (beq_spec b "+") as [-> |_]; [done|].
Qed.

Lemma ParseInt_FormatInt bits z : - 2 ^ (bits - 1) ≤ z < 2 ^ (bits - 1) → ParseInt bits (FormatInt z) = Some z.
Proof.
  intros Hz. unfold ParseInt. rewrite split_sign_FormatInt, all_digits_FormatUint. cbv zeta.
  rewrite dec_val_FormatUint by lia.
  replace (if z <? 0 then - Z.abs z else Z.abs z) with z by (destruct (Z.ltb_spec z 0); lia).
  destruct (Z.leb_spec (- 2 ^ (bits - 1)) z), (Z.ltb_spec z (2 ^ (bits - 1))); (done || lia).
Qed.

Lemma Atoi_FormatInt z : - 2 ^ 63 ≤ z < 2 ^ 63 → Atoi (FormatInt z) = Some z.
Proof. apply (ParseInt_FormatInt 64). Qed.

(** ** [time.ParseDuration]

    The fraction of a number is scaled in floating point: [scale_fraction] stands for the
    product of the fraction with its unit. *)

Section duration.
Variable scale_fraction : gostring → Z → Z.

Definition unit_of (u : gostring) : option Z :=
  if bool_decide (u = str "ns") then Some 1
  else if bool_decide (u = str "us") || bool_decide (u = [xc2; xb5; x73]) || bool_decide (u = [xce; xbc; x73]) then Some 1000
  else if bool_decide (u = str "ms") then Some 1000000
  else if bool_decide (u = str "s") then Some 1000000000
  else if bool_decide (u = str "m") then Some 60000000000
  else if bool_decide (u = str "h") then Some 3600000000000
  else None.

Definition duration_limit : Z := 2 ^ 63.

(** One number with its unit, added to what was read so far. *)
Definition duration_part (d : Z) (s : gostring) : option (Z * gostring) :=
  let '(ip, r) := span isDigit s in
  let '(fp, r, point) := match r with
                         | b :: r' => if beq b "." then let '(f, r) := span isDigit r' in (f, r, true) else ([], r, false)
                         | [] => ([], [], false) end in
  if bool_decide (ip = []) && bool_decide (fp = []) then None
  else
    let '(u, r) := span (λ b, negb (beq b ".") && negb (isDigit b)) r in
    unit ← unit_of u;
    if duration_limit <? dec_val ip then None
    else if duration_limit <? dec_val ip * unit then None
    else
      let v := dec_val ip * unit + (if bool_decide (fp = []) then 0 else scale_fraction fp unit) in
      if duration_limit <? v then None
      else if duration_limit <? d + v then None else Some (d + v, r).

Fixpoint duration_loop (fuel : nat) (d : Z) (s : gostring) : option Z :=
  match fuel, s with
  | _, [] => Some d
  | O, _ => None
  | S fuel, _ => '(d, s) ← duration_part d s; duration_loop fuel d s
  end.

Definition ParseDuration (s : gostring) : option Z :=
  let '(neg, s) := split_sign s in
  if bool_decide (s = str "0") then Some 0
  else if bool_decide (s = []) then None
  else
    d ← duration_loop (length s) 0 s;
    if neg then Some (- d) else if 2 ^ 63 - 1 <? d then None else Some d.

Example ParseDuration_examples :
  map ParseDuration [str "30s"; str "1h2m"; str "-5ms"; str "0"; str "10"; str "s"; str "9223372036854775807ns"; str "2562048h"]
  = [Some 30000000000; Some 3720000000000; Some (-5000000); Some 0; None; None; Some 9223372036854775807; None].
Proof. vm_compute. reflexivity. Qed.
End duration.

(** ** [url.ParseQuery] *)

(** One [key=value] of a query: left out when it has a semicolon, an empty key or an
    escape that is malformed. *)
Definition query_pair (s : gostring) : option (gostring * gostring) :=
  if strings_Contains s ";" || bool_decide (s = []) then None
  else
    let '(k, v, _) := strings_Cut s "=" in
    match unescape k encodeQueryComponent, unescape v encodeQueryComponent with
    | Some (Ok k), Some (Ok v) => Some (k, v)
    | _, _ => None
    end.

(** The values of [URL.Query()] in the order of the text; [Get] takes the first. *)
Definition ParseQuery (s : gostring) : list (gostring * gostring) := omap query_pair (strings_Split s "&").

Definition query_keys (q : list (gostring * gostring)) : list gostring := remove_dups q.*1.
Definition query_Get (q : list (gostring * gostring)) (k : gostring) : gostring :=
  match List.find (λ kv, bool_decide (kv.1 = k)) q with Some kv => kv.2 | None => [] end.

(** ** Queries printed and read *)

Definition query_text (q : list (gostring * gostring)) : gostring :=
  strings_Join (map (λ kv, esc encodeQueryComponent kv.1 ++ "="%byte :: esc encodeQueryComponent kv.2) q) (str "&").

Lemma esc_query s : Forall (λ b, alnum b || one_of (str "-_.~+%") b = true) (esc encodeQueryComponent s).
Proof. apply (esc_class (λ b, alnum b || one_of (str "-_.~+%") b)). intros []; vm_compute; reflexivity. Qed.

Lemma esc_query_free s b : alnum b || one_of (str "-_.~+%") b = false → b ∉ esc encodeQueryComponent s.
Proof. apply (class_free (λ b, alnum b || one_of (str "-_.~+%") b)), esc_query. Qed.

Lemma query_pair_text k v : k ≠ [] →
  query_pair (esc encodeQueryComponent k ++ "="%byte :: esc encodeQueryComponent v) = Some (k, v).
Proof.
  intros Hk. unfold query_pair.
  assert (strings_Contains (esc encodeQueryComponent k ++ "="%byte :: esc encodeQueryComponent v) ";" = false) as ->.
  { destruct (strings_Contains _ _) eqn:E; [|done]. apply Contains_spec, elem_of_app in E as [E|E].
    - by apply esc_query_free in E.
    - apply elem_of_cons in E as [E|E]; [done|]. by apply esc_query_free in E. }
  rewrite bool_decide_false by by destruct (esc encodeQueryComponent k). cbn [orb].
  rewrite Cut_found by by apply esc_query_free. by rewrite !unescape_esc.
Qed.

(** A query that was printed is read back, in order. *)
Lemma ParseQuery_text q : Forall (λ kv, kv.1 ≠ []) q → q ≠ [] → ParseQuery (query_text q) = q.
Proof.
  intros Hq Hne. unfold ParseQuery, query_text. change (str "&") with ["&"%byte]. rewrite strings_Split_Join.
  - clear Hne. induction Hq as [|[k v] q Hk Hq IH]; [done|]. cbn [map fst snd] in *. cbn [omap list_omap].
    rewrite query_pair_text by done. by rewrite IH.
  - by destruct q.
  - apply Forall_map, Forall_forall. intros kv _. cbv beta. apply not_elem_of_app. split; [by apply esc_query_free|].
    apply not_elem_of_cons. split; [done|]. by apply esc_query_free.
Qed.

Lemma query_Get_found q k v : NoDup q.*1 → (k, v) ∈ q → query_Get q k = v.
Proof.
  intros Hd Hin. unfold query_Get. induction q as [|[k' v'] q IH]; [by apply not_elem_of_nil in Hin|].
  cbn [List.find fst]. cbn in Hd. apply NoDup_cons in Hd as [Hk Hd]. case_bool_decide as E.
  - subst k'. apply elem_of_cons in Hin as [[= <-]|Hin]; [done|]. exfalso. apply Hk. by apply (list_elem_of_fmap_2 fst _ (k, v)).
  - apply elem_of_cons in Hin as [[= -> ->]|Hin]; [done|]. by apply IH.
Qed.
