(* ===== verification/Wire.v ===== *)
(** * The wire primitives the protocol is written in

    [proto.Buffer] and [proto.Reader] come from the ch-go module, which is not part of
    this repository.  [Wire] lists the primitives the driver calls: what a [Put]
    appends to the buffer, and what a read returns with the input behind it, [None]
    being a read error.  [WireLaws] is their documented behaviour: a read returns what
    was put and leaves the rest, and a successful read consumes input.  The packets are
    verified against this interface; [leb] is the ClickHouse encoding, which meets it. *)

From Stdlib Require Import ZifyBool.
From S2P Require Import Prelude.
Local Open Scope Z_scope.

Class Wire := {
  PutUVarInt : Z → gostring;
  PutString : gostring → gostring;
  PutByte : byte → gostring;
  PutBool : bool → gostring;
  PutInt32 : Z → gostring;
  PutInt64 : Z → gostring;
  PutUInt64 : Z → gostring;
  (** A vector of unsigned numbers of [w] bytes each: the column types of ch-go. *)
  PutVec : nat → list Z → gostring;
  RUVarInt : gostring → option (Z * gostring);
  RStr : gostring → option (gostring * gostring);
  RByte : gostring → option (byte * gostring);
  RBool : gostring → option (bool * gostring);
  RInt32 : gostring → option (Z * gostring);
  RInt64 : gostring → option (Z * gostring);
  RUInt64 : gostring → option (Z * gostring);
  RVec : nat → nat → gostring → option (list Z * gostring)
}.

(** A read of [put x] gives [x] back when [x] is in range. *)
Definition reads {A} (P : A → Prop) (put : A → gostring) (rd : gostring → option (A * gostring)) : Prop :=
  ∀ x rest, P x → rd (put x ++ rest) = Some (x, rest).

Definition consumes {A} (rd : gostring → option (A * gostring)) : Prop :=
  ∀ s x rest, rd s = Some (x, rest) → (length rest < length s)%nat.

Definition uint64 (z : Z) : Prop := 0 ≤ z < 2 ^ 64.
Definition int32 (z : Z) : Prop := - 2 ^ 31 ≤ z < 2 ^ 31.
Definition int64 (z : Z) : Prop := - 2 ^ 63 ≤ z < 2 ^ 63.
(** A string's length is a Go [int]. *)
Definition go_len (s : gostring) : Prop := Z.of_nat (length s) < 2 ^ 63.

(** A number of [w] bytes. *)
Definition uint (w : nat) (z : Z) : Prop := 0 ≤ z < 256 ^ Z.of_nat w.

Class WireLaws (W : Wire) : Prop := {
  reads_UVarInt : reads uint64 PutUVarInt RUVarInt;
  reads_Str : reads go_len PutString RStr;
  reads_Byte : reads (λ _, True) PutByte RByte;
  reads_Bool : reads (λ _, True) PutBool RBool;
  reads_Int32 : reads int32 PutInt32 RInt32;
  reads_Int64 : reads int64 PutInt64 RInt64;
  reads_UInt64 : reads uint64 PutUInt64 RUInt64;
  PutVec_nil : ∀ w, PutVec w [] = [];
  reads_Vec : ∀ w l rest, (0 < w)%nat → Forall (uint w) l → RVec w (length l) (PutVec w l ++ rest) = Some (l, rest);
  consumes_UVarInt : consumes RUVarInt;
  consumes_Str : consumes RStr;
  consumes_Byte : consumes RByte;
  consumes_Bool : consumes RBool;
  consumes_Int32 : consumes RInt32;
  shrinks_Vec : ∀ w n s l rest, RVec w n s = Some (l, rest) → (length rest ≤ length s)%nat ∧ length l = n
}.

(** ** ClickHouse's encoding *)

(** Seven bits at a time, the high bit marking that more follow; ten bytes hold 64 bits. *)
Fixpoint uvarint (fuel : nat) (z : Z) : gostring :=
  match fuel with
  | O => []
  | S fuel => if z <? 128 then [zb z] else zb (z mod 128 + 128) :: uvarint fuel (z / 128)
  end.

Fixpoint read_uvarint (fuel : nat) (s : gostring) : option (Z * gostring) :=
  match fuel, s with
  | S fuel, b :: s =>
      if bz b <? 128 then Some (bz b, s)
      else '(z, r) ← read_uvarint fuel s; Some (bz b - 128 + 128 * z, r)
  | _, _ => None
  end.

(** [n] bytes, little endian. *)
Definition read_le (n : nat) (s : gostring) : option (Z * gostring) :=
  if decide (n ≤ length s)%nat then Some (le_get (take n s), drop n s) else None.

Fixpoint read_vec (w n : nat) (s : gostring) : option (list Z * gostring) :=
  match n with
  | O => Some ([], s)
  | S n => '(z, s) ← read_le w s; '(l, s) ← read_vec w n s; Some (z :: l, s)
  end.

#[global] Instance leb : Wire := {
  PutUVarInt z := uvarint 10 z;
  PutString s := uvarint 10 (Z.of_nat (length s)) ++ s;
  PutByte b := [b];
  PutBool b := [if b then x01 else x00];
  PutInt32 z := le_put 4 z;
  PutInt64 z := le_put 8 z;
  PutUInt64 z := le_put 8 z;
  PutVec w l := flat_map (le_put w) l;
  RUVarInt s := read_uvarint 10 s;
  RStr s := '(n, r) ← read_uvarint 10 s;
            if decide (Z.to_nat n ≤ length r)%nat then Some (take (Z.to_nat n) r, drop (Z.to_nat n) r) else None;
  RByte s := match s with b :: s => Some (b, s) | [] => None end;
  RBool s := match s with b :: s => if beq b x01 then Some (true, s)
                                    else if beq b x00 then Some (false, s) else None
                        | [] => None end;
  RInt32 s := '(z, r) ← read_le 4 s; Some (i32 z, r);
  RInt64 s := '(z, r) ← read_le 8 s; Some (i64 z, r);
  RUInt64 s := read_le 8 s;
  RVec w n s := read_vec w n s
}.

Lemma read_uvarint_put fuel z rest :
  0 ≤ z < 128 ^ Z.of_nat fuel → z ≠ 0 ∨ (0 < fuel)%nat →
  read_uvarint fuel (uvarint fuel z ++ rest) = Some (z, rest).
Proof.
  revert z. induction fuel as [|fuel IH]; intros z Hz Hf; [simpl in Hz; lia|].
  cbn [uvarint]. destruct (z <? 128) eqn:E.
  - cbn [app read_uvarint]. rewrite bz_zb, Z.mod_small, E by lia. done.
  - cbn [app read_uvarint]. pose proof (Z.mod_pos_bound z 128). pose proof (Z.div_mod z 128).
    rewrite bz_zb, (Z.mod_small (_ + _)) by lia. destruct (Z.ltb_spec (z mod 128 + 128) 128); [lia|].
    rewrite Nat2Z.inj_succ, Z.pow_succ_r in Hz by lia. rewrite IH.
    + cbn [mbind option_bind]. do 2 f_equal. lia.
    + split; [apply Z.div_pos; lia|apply Z.div_lt_upper_bound; lia].
    + left. assert (1 ≤ z / 128) by (apply Z.div_le_lower_bound; lia). lia.
Qed.

Lemma read_uvarint_consumes fuel : consumes (read_uvarint fuel).
Proof.
  induction fuel as [|fuel IH]; intros [|b s] x rest; cbn [read_uvarint]; try done.
  destruct (bz b <? 128); [intros; simplify_eq; simpl; lia|].
  destruct (read_uvarint fuel s) as [[z r]|] eqn:E; [|done]. cbn. intros [= <- <-].
  apply IH in E. lia.
Qed.

Lemma read_le_put n z rest :
  read_le n (le_put n z ++ rest) = Some (z mod 256 ^ Z.of_nat n, rest).
Proof.
  unfold read_le. rewrite decide_True by (rewrite length_app, length_le_put; lia).
  rewrite <- (length_le_put n z) at 1 3. rewrite take_app_length, drop_app_length.
  by rewrite le_get_put.
Qed.

Lemma read_vec_put w l rest :
  Forall (uint w) l → read_vec w (length l) (flat_map (le_put w) l ++ rest) = Some (l, rest).
Proof.
  induction l as [|z l IH]; intros Hl; [done|]. apply Forall_cons in Hl as [Hz Hl].
  cbn [length read_vec flat_map]. rewrite <- app_assoc, read_le_put. cbn [mbind option_bind].
  rewrite IH by done. cbn [mbind option_bind]. unfold uint in Hz. by rewrite Z.mod_small.
Qed.

Lemma read_vec_shrinks w n s l rest :
  read_vec w n s = Some (l, rest) → (length rest ≤ length s)%nat ∧ length l = n.
Proof.
  revert s l. induction n as [|n IH]; intros s l; cbn [read_vec]; [by intros [= <- <-]|].
  unfold read_le. case_decide; [|done]. cbn [mbind option_bind].
  destruct (read_vec w n (drop w s)) as [[l' r]|] eqn:E; [|done]. intros [= <- <-].
  apply IH in E as [? <-]. rewrite length_drop in *. cbn [length]. lia.
Qed.

Lemma swrap_mod w z : 0 < w → swrap w (z mod 2 ^ w) = swrap w z.
Proof. intros. unfold swrap. by rewrite Zplus_mod_idemp_l. Qed.

#[global] Instance leb_laws : WireLaws leb.
Proof.
  assert (∀ z rest, uint64 z → read_uvarint 10 (uvarint 10 z ++ rest) = Some (z, rest)) as Hu.
  { intros z rest Hz. apply read_uvarint_put; [|right; lia]. unfold uint64 in Hz.
    change (128 ^ Z.of_nat 10) with (2 ^ 70). lia. }
  split; intros s; cbn [PutUVarInt PutString PutByte PutBool PutInt32 PutInt64 PutUInt64 PutVec
    RUVarInt RStr RByte RBool RInt32 RInt64 RUInt64 RVec leb].
  - intros rest Hz. by apply Hu.
  - intros rest Hs. unfold go_len in Hs. rewrite <- app_assoc, Hu by (unfold uint64; lia).
    cbn [mbind option_bind]. rewrite Nat2Z.id, decide_True by (rewrite length_app; lia).
    by rewrite take_app_length, drop_app_length.
  - done.
  - by destruct s.
  - intros rest Hz. rewrite read_le_put. cbn [mbind option_bind]. do 2 f_equal.
    change (256 ^ Z.of_nat 4) with (2 ^ 32). unfold i32. rewrite swrap_mod by lia. by apply swrap_small.
  - intros rest Hz. rewrite read_le_put. cbn [mbind option_bind]. do 2 f_equal.
    change (256 ^ Z.of_nat 8) with (2 ^ 64). unfold i64. rewrite swrap_mod by lia. by apply swrap_small.
  - intros rest Hz. rewrite read_le_put. by rewrite Z.mod_small.
  - done.
  - intros l rest Hw Hl. by apply read_vec_put.
  - apply read_uvarint_consumes.
  - intros x rest. destruct (read_uvarint 10 s) as [[n r]|] eqn:E; [|done]. cbn [mbind option_bind].
    case_decide; [|done]. intros [= <- <-]. apply read_uvarint_consumes in E. rewrite length_drop. lia.
  - intros x rest. destruct s; [done|]. intros; simplify_eq. simpl. lia.
  - intros x rest. destruct s as [|b s]; [done|].
    destruct (beq b x01), (beq b x00); intros; simplify_eq; simpl; lia.
  - intros x rest. unfold read_le. case_decide; [|done]. cbn [mbind option_bind]. intros; simplify_eq.
    rewrite length_drop. lia.
  - intros n t l rest. apply read_vec_shrinks.
Qed.
