(* ===== verification/ProtoPackets.v ===== *)
(** * The packets of the native protocol ([lib/proto])

    What the client writes (the hello, the query with its client info, settings and
    parameters) and what it reads (the server's hello, exceptions, progress, profile
    info, table columns), as functions of the negotiated revision, over the
    primitives of [Wire].  The other side of each packet is written down as the
    specification: a decoder for what the client sends, an encoder for what the
    server sends; the theorems are the round trips.  A read error is [Err]; a loop
    that would run out of fuel, or a panic, is [None]. *)

From Stdlib Require Import ZifyBool.
From S2P Require Import Prelude GoStd SqlLex FormatValue Wire.
Local Open Scope Z_scope.
#[local] Set Warnings "-register-all".

(** ** Revisions ([const.go]) *)

Definition DBMS_MIN_REVISION_WITH_CLIENT_INFO : Z := 54032.
Definition DBMS_MIN_REVISION_WITH_SERVER_TIMEZONE : Z := 54058.
Definition DBMS_MIN_REVISION_WITH_QUOTA_KEY_IN_CLIENT_INFO : Z := 54060.
Definition DBMS_MIN_REVISION_WITH_SERVER_DISPLAY_NAME : Z := 54372.
Definition DBMS_MIN_REVISION_WITH_VERSION_PATCH : Z := 54401.
Definition DBMS_MIN_REVISION_WITH_CLIENT_WRITE_INFO : Z := 54420.
Definition DBMS_MIN_REVISION_WITH_SETTINGS_SERIALIZED_AS_STRINGS : Z := 54429.
Definition DBMS_MIN_REVISION_WITH_INTERSERVER_SECRET : Z := 54441.
Definition DBMS_MIN_REVISION_WITH_OPENTELEMETRY : Z := 54442.
Definition DBMS_MIN_PROTOCOL_VERSION_WITH_DISTRIBUTED_DEPTH : Z := 54448.
Definition DBMS_MIN_PROTOCOL_VERSION_WITH_INITIAL_QUERY_START_TIME : Z := 54449.
Definition DBMS_MIN_REVISION_WITH_PARALLEL_REPLICAS : Z := 54453.
Definition DBMS_MIN_REVISION_WITH_CUSTOM_SERIALIZATION : Z := 54454.
Definition DBMS_MIN_PROTOCOL_VERSION_WITH_QUOTA_KEY : Z := 54458.
Definition DBMS_MIN_PROTOCOL_VERSION_WITH_PARAMETERS : Z := 54459.
Definition DBMS_MIN_PROTOCOL_VERSION_WITH_SERVER_QUERY_TIME_IN_PROGRES : Z := 54460.
Definition DBMS_TCP_PROTOCOL_VERSION : Z := DBMS_MIN_PROTOCOL_VERSION_WITH_SERVER_QUERY_TIME_IN_PROGRES.

Definition StateComplete : byte := x02.
Definition ClientQueryInitial : byte := x01.

Inductive proto_err :=
| ErrRead                                 (* the reader's error *)
| ErrReadField (msg : gostring)           (* the reader's error, wrapped *)
| ErrTimezone                             (* "could not load time location" *)
| ErrSettingType (key : gostring)         (* "query setting %s has unsupported data type" *)
| ErrFieldType.                           (* "unsupported field type %T" *)

#[global] Instance proto_err_eq_dec : EqDecision proto_err.
Proof. solve_decision. Defined.

(** A decoder: the value and the input behind it. *)
Definition parser (A : Type) : Type := gostring → result proto_err (A * gostring).

#[global] Instance parser_ret : MRet parser := λ A a s, Ok (a, s).
#[global] Instance parser_bind : MBind parser :=
  λ A B f m s, match m s with Ok (a, r) => f a r | Err e => Err e end.

Definition field {A} (e : proto_err) (rd : gostring → option (A * gostring)) : parser A :=
  λ s, match rd s with Some x => Ok x | None => Err e end.

Definition try {A} (rd : gostring → option (A * gostring)) : parser A := field ErrRead rd.

(** A field that only some revisions carry. *)
Definition when {A} (b : bool) (p : parser A) (d : A) : parser A :=
  if b then p else mret d.

(** The same on the writing side. *)
Definition put_when (b : bool) (bytes : gostring) : gostring := if b then bytes else [].

Section packets.
Context {W : Wire}.

(** ** The two hellos *)

Record Version := MkVersion { Major : Z; Minor : Z; Patch : Z }.

Record ClientHandshake := MkClientHandshake {
  ProtocolVersion : Z; ch_ClientName : gostring; ch_ClientVersion : Version }.

Definition ClientHandshake_Encode (h : ClientHandshake) : gostring :=
  PutString (ch_ClientName h) ++ PutUVarInt (Major (ch_ClientVersion h))
  ++ PutUVarInt (Minor (ch_ClientVersion h)) ++ PutUVarInt (ProtocolVersion h).

Definition CheckMinVersion (constraint version : Version) : bool :=
  if (Major version <? Major constraint)
     || ((Major version =? Major constraint) && (Minor version <? Minor constraint))
     || ((Major version =? Major constraint) && (Minor version =? Minor constraint)
         && (Patch version <? Patch constraint))
  then false else true.

(** [Timezone] is the loaded location's name, [None] the nil pointer. *)
Record ServerHandshake := MkServerHandshake {
  sh_Name : gostring;
  DisplayName : gostring;
  Revision : Z;
  sh_Version : Version;
  Timezone : option gostring
}.

(** [timezone.Load]: whether the zone is known. *)
Variable Load : gostring → bool.

Definition load_timezone (name : gostring) : parser (option gostring) :=
  λ s, if Load name then Ok (Some name, s) else Err ErrTimezone.

Definition ServerHandshake_Decode : parser ServerHandshake :=
  name ← field (ErrReadField (str "server name")) RStr;
  major ← field (ErrReadField (str "server major version")) RUVarInt;
  minor ← field (ErrReadField (str "server minor version")) RUVarInt;
  revision ← field (ErrReadField (str "server revision")) RUVarInt;
  tz ← when (DBMS_MIN_REVISION_WITH_SERVER_TIMEZONE <=? revision)
         (n ← field (ErrReadField (str "server timezone")) RStr; load_timezone n) None;
  display ← when (DBMS_MIN_REVISION_WITH_SERVER_DISPLAY_NAME <=? revision)
         (field (ErrReadField (str "server display name")) RStr) [];
  patch ← when (DBMS_MIN_REVISION_WITH_VERSION_PATCH <=? revision)
         (field (ErrReadField (str "server patch")) RUVarInt) revision;
  mret (MkServerHandshake name display revision (MkVersion major minor patch) tz).

(** ** Exceptions *)

Inductive Exception : Type := MkException {
  Code : Z;
  ex_Name : gostring;
  CodeName : gostring;
  Message : gostring;
  StackTrace : gostring;
  Nested : list Exception;
  nested : bool
}.

(** The encodings of the runes [unicode.IsSpace] accepts. *)
Definition spaces : list gostring :=
  [[x09]; [x0a]; [x0b]; [x0c]; [x0d]; [x20]; [xc2; x85]; [xc2; xa0]; [xe1; x9a; x80];
   [xe2; x80; x80]; [xe2; x80; x81]; [xe2; x80; x82]; [xe2; x80; x83]; [xe2; x80; x84];
   [xe2; x80; x85]; [xe2; x80; x86]; [xe2; x80; x87]; [xe2; x80; x88]; [xe2; x80; x89];
   [xe2; x80; x8a]; [xe2; x80; xa8]; [xe2; x80; xa9]; [xe2; x80; xaf]; [xe2; x81; x9f]; [xe3; x80; x80]].

Fixpoint trim_left (fuel : nat) (sp : list gostring) (s : gostring) : gostring :=
  match fuel with
  | O => s
  | S fuel => match List.find (λ x, HasPrefix s x) sp with
              | Some x => trim_left fuel sp (drop (length x) s)
              | None => s end
  end.

(** [strings.TrimSpace]. *)
Definition TrimSpace (s : gostring) : gostring :=
  let s := trim_left (length s) spaces s in
  reverse (trim_left (length s) (map reverse spaces) (reverse s)).

(** Bytes no space begins or ends with, and texts that begin and end with such bytes. *)
Definition graphic (b : byte) : bool := in_range "!" "~" b.
Definition trimmed (s : gostring) : Prop :=
  ∃ b m c r, s = b :: m ∧ reverse s = c :: r ∧ graphic b = true ∧ graphic c = true.

Lemma trim_left_stop fuel sp b s :
  Forall (λ x, match x with c :: _ => beq c b = false | [] => False end) sp → trim_left fuel sp (b :: s) = b :: s.
Proof.
  intros Hsp. destruct fuel as [|fuel]; [done|]. cbn [trim_left].
  assert (List.find (λ x, HasPrefix (b :: s) x) sp = None) as ->; [|done].
  induction Hsp as [|x sp Hx Hsp IH]; [done|]. cbn [List.find]. destruct x as [|c x]; [done|].
  unfold HasPrefix at 1. rewrite bool_decide_false; [exact IH|]. cbn. intros [= <-]. by rewrite beq_refl in Hx.
Qed.

Lemma graphic_start b : graphic b = true → Forall (λ x, match x with c :: _ => beq c b = false | [] => False end) spaces
  ∧ Forall (λ x, match x with c :: _ => beq c b = false | [] => False end) (map reverse spaces).
Proof. destruct b; intros Hb; (discriminate Hb || (split; repeat constructor)). Qed.

Lemma TrimSpace_trimmed s : trimmed s → TrimSpace s = s.
Proof.
  intros (b & m & c & r & -> & E & Hb & Hc). unfold TrimSpace.
  rewrite trim_left_stop by by apply graphic_start. rewrite E, trim_left_stop by by apply graphic_start.
  by rewrite <- E, reverse_involutive.
Qed.

Lemma TrimSpace_space s : trimmed s → TrimSpace (x20 :: s) = s.
Proof.
  intros H. transitivity (TrimSpace s); [|by apply TrimSpace_trimmed].
  destruct H as (b & m & c & r & -> & E & Hb & Hc). unfold TrimSpace.
  assert (trim_left (length (x20 :: b :: m)) spaces (x20 :: b :: m) = b :: m) as ->.
  { change (length (x20 :: b :: m)) with (S (S (length m))). cbn [trim_left].
    assert (List.find (λ x, HasPrefix (x20 :: b :: m) x) spaces = Some [x20]) as -> by done.
    change (drop (length [x20]) (x20 :: b :: m)) with (b :: m).
    by apply (trim_left_stop (S (length m))), graphic_start. }
  by rewrite trim_left_stop by by apply graphic_start.
Qed.

Lemma trimmed_app s t u : trimmed s → trimmed u → trimmed (s ++ t ++ u).
Proof.
  intros (b & m & c & r & -> & E & Hb & Hc) (b' & m' & c' & r' & -> & E' & Hb' & Hc').
  exists b, (m ++ t ++ b' :: m'), c', (r' ++ reverse t ++ reverse (b :: m)).
  split; [done|]. split; [|done]. rewrite !reverse_app, E'. cbn [app]. by rewrite <- app_assoc.
Qed.

Lemma trimmed_graphic s : s ≠ [] → Forall (λ b, graphic b = true) s → trimmed s.
Proof.
  intros Hne Hs. destruct s as [|b m]; [done|]. destruct (reverse (b :: m)) as [|c r] eqn:E.
  { exfalso. rewrite <- (reverse_involutive (b :: m)), E in Hne. done. }
  exists b, m, c, r. split; [done|]. split; [done|]. split; [by apply Forall_cons in Hs as [? _]|].
  apply Forall_reverse in Hs. rewrite E in Hs. by apply Forall_cons in Hs as [? _].
Qed.

Definition TrimPrefix (s pre : gostring) : gostring :=
  if HasPrefix s pre then drop (length pre) s else s.

Definition clean_message (name msg : gostring) : gostring := TrimSpace (TrimPrefix msg (name ++ str ":")).

(** [Exception.decode]: one element of the chain. *)
Definition exception_decode : parser Exception :=
  code ← try RInt32;
  name ← try RStr;
  msg ← try RStr;
  stack ← try RStr;
  more ← try RBool;
  mret (MkException code name [] (clean_message name msg) stack [] more).

(** The loop of [Exception.Decode]: reads elements until one is not followed by a
    nested one. *)
Fixpoint exceptions_loop (fuel : nat) (s : gostring) : option (result proto_err (list Exception * gostring)) :=
  match fuel with
  | O => None
  | S fuel =>
      match exception_decode s with
      | Err e => Some (Err e)
      | Ok (ex, s) =>
          if nested ex then
            r ← exceptions_loop fuel s;
            match r with
            | Ok (exs, s) => Some (Ok (ex :: exs, s))
            | Err e => Some (Err e)
            end
          else Some (Ok ([ex], s))
      end
  end.

(** The receiver starts as the zero value; [nested] stays false on it. *)
Definition Exception_Decode (s : gostring) : option (result proto_err (Exception * gostring)) :=
  r ← exceptions_loop (S (length s)) s;
  match r with
  | Err e => Some (Err e)
  | Ok (exs, s) =>
      match exs with
      | [] => Some (Ok (MkException 0 [] [] [] [] [] false, s))
      | ex :: rest =>
          Some (Ok (MkException (Code ex) (ex_Name ex) [] (Message ex) (StackTrace ex)
                      (if nested ex then rest else []) false, s))
      end
  end.

(** ** Progress, profile info, table columns *)

Record Progress := MkProgress {
  Rows : Z; Bytes : Z; TotalRows : Z; WroteRows : Z; WroteBytes : Z; Elapsed : Z; withClient : bool }.

Definition Progress_Decode (revision : Z) : parser Progress :=
  rows ← try RUVarInt;
  bytes ← try RUVarInt;
  total ← try RUVarInt;
  let wc := DBMS_MIN_REVISION_WITH_CLIENT_WRITE_INFO <=? revision in
  wrows ← when wc (try RUVarInt) 0;
  wbytes ← when wc (try RUVarInt) 0;
  elapsed ← when (DBMS_MIN_PROTOCOL_VERSION_WITH_SERVER_QUERY_TIME_IN_PROGRES <=? revision)
              (n ← try RUVarInt; mret (i64 n)) 0;
  mret (MkProgress rows bytes total wrows wbytes elapsed wc).

Record ProfileInfo := MkProfileInfo {
  pi_Rows : Z; pi_Bytes : Z; Blocks : Z; AppliedLimit : bool; RowsBeforeLimit : Z;
  CalculatedRowsBeforeLimit : bool }.

Definition ProfileInfo_Decode : parser ProfileInfo :=
  rows ← try RUVarInt;
  blocks ← try RUVarInt;
  bytes ← try RUVarInt;
  applied ← try RBool;
  before ← try RUVarInt;
  calc ← try RBool;
  mret (MkProfileInfo rows bytes blocks applied before calc).

Record TableColumns := MkTableColumns { First : gostring; Second : gostring }.

Definition TableColumns_Decode : parser TableColumns :=
  a ← try RStr;
  b ← try RStr;
  mret (MkTableColumns a b).

(** ** The query *)

(** [trace.SpanContext]. *)
Record Span := MkSpan {
  IsValid : bool; TraceID : gostring; SpanID : gostring; TraceState : gostring; TraceFlags : byte }.

(** A setting's value as the encoder tells it apart; [SOther] carries what
    [fmt.Sprint] prints. *)
Inductive setting_value := SInt (z : Z) | SBool (b : bool) | SString (s : gostring) | SOther (text : gostring).

Record Setting := MkSetting { s_Key : gostring; s_Value : setting_value; Important : bool; Custom : bool }.
Record ProtoParameter := MkParameter { p_Key : gostring; p_Value : gostring }.

Record Query := MkQuery {
  ID : gostring;
  ClientName : gostring;
  ClientVersion : Version;
  ClientTCPProtocolVersion : Z;
  q_Span : Span;
  Body : gostring;
  QuotaKey : gostring;
  Settings : list Setting;
  Parameters : list ProtoParameter;
  Compression : bool;
  InitialUser : gostring;
  InitialAddress : gostring
}.

Definition settingFlagImportant : Z := 1.
Definition settingFlagCustom : Z := 2.

(** [encodeFieldDump] of a string; its escaper has the table of [stringQuoteReplacer]. *)
Definition encodeFieldDump (v : setting_value) : result proto_err gostring :=
  match v with
  | SString s => Ok (str "'" ++ Replace quote_table s ++ str "'")
  | _ => Err ErrFieldType
  end.

(** [fmt.Sprint(s.Value)]. *)
Definition sprint (v : setting_value) : gostring :=
  match v with
  | SInt z => FormatInt z
  | SBool b => if b then str "true" else str "false"
  | SString s => s
  | SOther t => t
  end.

Definition setting_flags (s : Setting) : Z :=
  let flags := 0 in
  let flags := if Important s then Z.lor flags settingFlagImportant else flags in
  if Custom s then Z.lor flags settingFlagCustom else flags.

(** [Setting.encode]: numbers up to and including the revision named by the constant,
    flags and text after it. *)
Definition setting_encode (s : Setting) (revision : Z) : result proto_err gostring :=
  if revision <=? DBMS_MIN_REVISION_WITH_SETTINGS_SERIALIZED_AS_STRINGS then
    match s_Value s with
    | SInt v => Ok (PutString (s_Key s) ++ PutUVarInt (u64 v))
    | SBool v => Ok (PutString (s_Key s) ++ PutUVarInt (if v then 1 else 0))
    | _ => Err (ErrSettingType (s_Key s))
    end
  else
    text ← (if Custom s then encodeFieldDump (s_Value s) else Ok (sprint (s_Value s)));
    Ok (PutString (s_Key s) ++ PutUVarInt (setting_flags s) ++ PutString text).

(** The loops of [Settings.Encode] and [Parameters.Encode]. *)
Fixpoint encode_all {A} (enc : A → result proto_err gostring) (l : list A) : result proto_err gostring :=
  match l with
  | [] => Ok []
  | x :: l => b ← enc x; r ← encode_all enc l; Ok (b ++ r)
  end.

Definition Settings_Encode (s : list Setting) (revision : Z) : result proto_err gostring :=
  encode_all (λ x, setting_encode x revision) s.

Definition parameter_encode (p : ProtoParameter) : result proto_err gostring :=
  dump ← encodeFieldDump (SString (p_Value p));
  Ok (PutString (p_Key p) ++ PutUVarInt settingFlagCustom ++ PutString dump).

Definition Parameters_Encode (l : list ProtoParameter) : result proto_err gostring :=
  encode_all parameter_encode l.

(** [swap64]: every eight bytes are read big endian and written little endian; a
    shorter tail panics. *)
Fixpoint swap64 (fuel : nat) (b : gostring) : option gostring :=
  match fuel, b with
  | _, [] => Some []
  | S fuel, _ =>
      if decide (8 ≤ length b)%nat then
        r ← swap64 fuel (drop 8 b);
        Some (le_put 8 (le_get (reverse (take 8 b))) ++ r)
      else None
  | O, _ => None
  end.

(** The globals [osUser] and [hostname]. *)
Variables osUser hostname : gostring.

Definition encodeSpan (s : Span) : option gostring :=
  if IsValid s then
    tid ← swap64 (length (TraceID s)) (TraceID s);
    sid ← swap64 (length (SpanID s)) (SpanID s);
    Some (PutByte x01 ++ tid ++ sid ++ PutString (TraceState s) ++ PutByte (TraceFlags s))
  else Some (PutByte x00).

Definition encodeClientInfo (q : Query) (revision : Z) : option gostring :=
  span ← (if DBMS_MIN_REVISION_WITH_OPENTELEMETRY <=? revision then encodeSpan (q_Span q) else Some []);
  Some (PutByte ClientQueryInitial ++ PutString (InitialUser q) ++ PutString [] ++ PutString (InitialAddress q)
    ++ put_when (DBMS_MIN_PROTOCOL_VERSION_WITH_INITIAL_QUERY_START_TIME <=? revision) (PutInt64 0)
    ++ PutByte x01
    ++ PutString osUser ++ PutString hostname ++ PutString (ClientName q)
    ++ PutUVarInt (Major (ClientVersion q)) ++ PutUVarInt (Minor (ClientVersion q))
    ++ PutUVarInt (ClientTCPProtocolVersion q)
    ++ put_when (DBMS_MIN_REVISION_WITH_QUOTA_KEY_IN_CLIENT_INFO <=? revision) (PutString (QuotaKey q))
    ++ put_when (DBMS_MIN_PROTOCOL_VERSION_WITH_DISTRIBUTED_DEPTH <=? revision) (PutUVarInt 0)
    ++ put_when (DBMS_MIN_REVISION_WITH_VERSION_PATCH <=? revision) (PutUVarInt 0)
    ++ span
    ++ put_when (DBMS_MIN_REVISION_WITH_PARALLEL_REPLICAS <=? revision)
         (PutUVarInt 0 ++ PutUVarInt 0 ++ PutUVarInt 0)).

Definition Query_Encode (q : Query) (revision : Z) : option (result proto_err gostring) :=
  info ← encodeClientInfo q revision;
  Some (
    settings ← Settings_Encode (Settings q) revision;
    params ← (if DBMS_MIN_PROTOCOL_VERSION_WITH_PARAMETERS <=? revision
              then p ← Parameters_Encode (Parameters q); Ok (p ++ PutString []) else Ok []);
    Ok (PutString (ID q) ++ info ++ settings ++ PutString []
      ++ put_when (DBMS_MIN_REVISION_WITH_INTERSERVER_SECRET <=? revision) (PutString [])
      ++ PutByte StateComplete ++ PutBool (Compression q) ++ PutString (Body q) ++ params)).
End packets.

(** ** What the server reads *)

Section server_side.
Context {W : Wire}.

Definition rwhen {A} (b : bool) (rd : gostring → option (A * gostring)) (d : A) (s : gostring)
    : option (A * gostring) := if b then rd s else Some (d, s).

Definition read_raw (n : nat) (s : gostring) : option (gostring * gostring) :=
  if decide (n ≤ length s)%nat then Some (take n s, drop n s) else None.

(** Key, flags and text until an empty key. *)
Fixpoint read_entries (fuel : nat) (s : gostring) : option (list (gostring * Z * gostring) * gostring) :=
  match fuel with
  | O => None
  | S fuel =>
      '(key, s) ← RStr s;
      if bool_decide (key = []) then Some ([], s)
      else
        '(flags, s) ← RUVarInt s;
        '(text, s) ← RStr s;
        '(l, s) ← read_entries fuel s;
        Some ((key, flags, text) :: l, s)
  end.

(** The trace context: the identifiers are swapped back. *)
Definition read_span (s : gostring) : option (option (gostring * gostring * gostring * byte) * gostring) :=
  '(flag, s) ← RByte s;
  if beq flag x00 then Some (None, s)
  else
    '(tid, s) ← read_raw 16 s;
    '(sid, s) ← read_raw 8 s;
    tid ← swap64 16 tid;
    sid ← swap64 8 sid;
    '(state, s) ← RStr s;
    '(flags, s) ← RByte s;
    Some (Some (tid, sid, state, flags), s).

Record QueryView := MkView {
  v_ID : gostring; v_user : gostring; v_address : gostring;
  v_client : gostring * gostring * gostring; v_version : Z * Z * Z; v_quota : gostring;
  v_span : option (gostring * gostring * gostring * byte);
  v_settings : list (gostring * Z * gostring);
  v_state : byte; v_compression : bool; v_body : gostring;
  v_params : list (gostring * Z * gostring)
}.

(** The query packet as a server of the same revision reads it. *)
Definition read_query (revision : Z) (s : gostring) : option (QueryView * gostring) :=
  '(id, s) ← RStr s;
  '(_, s) ← RByte s;
  '(user, s) ← RStr s;
  '(_, s) ← RStr s;
  '(address, s) ← RStr s;
  '(_, s) ← rwhen (DBMS_MIN_PROTOCOL_VERSION_WITH_INITIAL_QUERY_START_TIME <=? revision) RInt64 0 s;
  '(_, s) ← RByte s;
  '(osuser, s) ← RStr s;
  '(host, s) ← RStr s;
  '(client, s) ← RStr s;
  '(major, s) ← RUVarInt s;
  '(minor, s) ← RUVarInt s;
  '(tcp, s) ← RUVarInt s;
  '(quota, s) ← rwhen (DBMS_MIN_REVISION_WITH_QUOTA_KEY_IN_CLIENT_INFO <=? revision) RStr [] s;
  '(_, s) ← rwhen (DBMS_MIN_PROTOCOL_VERSION_WITH_DISTRIBUTED_DEPTH <=? revision) RUVarInt 0 s;
  '(_, s) ← rwhen (DBMS_MIN_REVISION_WITH_VERSION_PATCH <=? revision) RUVarInt 0 s;
  '(span, s) ← rwhen (DBMS_MIN_REVISION_WITH_OPENTELEMETRY <=? revision) read_span None s;
  let par := DBMS_MIN_REVISION_WITH_PARALLEL_REPLICAS <=? revision in
  '(_, s) ← rwhen par RUVarInt 0 s;
  '(_, s) ← rwhen par RUVarInt 0 s;
  '(_, s) ← rwhen par RUVarInt 0 s;
  '(settings, s) ← read_entries (S (length s)) s;
  '(_, s) ← rwhen (DBMS_MIN_REVISION_WITH_INTERSERVER_SECRET <=? revision) RStr [] s;
  '(state, s) ← RByte s;
  '(comp, s) ← RBool s;
  '(body, s) ← RStr s;
  '(params, s) ← rwhen (DBMS_MIN_PROTOCOL_VERSION_WITH_PARAMETERS <=? revision)
                   (λ s, read_entries (S (length s)) s) [] s;
  Some (MkView id user address (osuser, host, client) (major, minor, tcp) quota span settings
          state comp body params, s).

(** What of a query a revision carries. *)
Definition setting_entry (s : Setting) : gostring * Z * gostring :=
  (s_Key s, setting_flags s,
   if Custom s then match encodeFieldDump (s_Value s) with Ok d => d | Err _ => [] end
   else sprint (s_Value s)).

Definition parameter_entry (p : ProtoParameter) : gostring * Z * gostring :=
  (p_Key p, settingFlagCustom, quote (p_Value p)).

Definition query_view (osUser hostname : gostring) (q : Query) (revision : Z) : QueryView :=
  MkView (ID q) (InitialUser q) (InitialAddress q) (osUser, hostname, ClientName q)
    (Major (ClientVersion q), Minor (ClientVersion q), ClientTCPProtocolVersion q)
    (if DBMS_MIN_REVISION_WITH_QUOTA_KEY_IN_CLIENT_INFO <=? revision then QuotaKey q else [])
    (if (DBMS_MIN_REVISION_WITH_OPENTELEMETRY <=? revision) && IsValid (q_Span q)
     then Some (TraceID (q_Span q), SpanID (q_Span q), TraceState (q_Span q), TraceFlags (q_Span q)) else None)
    (map setting_entry (Settings q)) StateComplete (Compression q) (Body q)
    (if DBMS_MIN_PROTOCOL_VERSION_WITH_PARAMETERS <=? revision then map parameter_entry (Parameters q) else []).

(** Sizes a Go program can have, keys that are not the end marker, and identifiers of
    their fixed sizes. *)
Definition entry_ok (e : gostring * Z * gostring) : Prop :=
  let '(k, f, t) := e in k ≠ [] ∧ go_len k ∧ uint64 f ∧ go_len t.

Definition setting_ok (s : Setting) : Prop :=
  entry_ok (setting_entry s) ∧ (Custom s = true → ∃ v, s_Value s = SString v).

Record query_ok (osUser hostname : gostring) (q : Query) : Prop := MkQueryOk {
  ok_strings : Forall go_len [osUser; hostname; ID q; ClientName q; Body q; QuotaKey q; InitialUser q;
                              InitialAddress q; TraceState (q_Span q)];
  ok_version : Forall uint64 [Major (ClientVersion q); Minor (ClientVersion q); ClientTCPProtocolVersion q];
  ok_span : length (TraceID (q_Span q)) = 16%nat ∧ length (SpanID (q_Span q)) = 8%nat;
  ok_settings : Forall setting_ok (Settings q);
  ok_params : Forall (λ p, entry_ok (parameter_entry p)) (Parameters q)
}.

Context {L : WireLaws W}.

Lemma rwhen_put {A} (P : A → Prop) put rd (b : bool) d x rest :
  reads P put rd → P x → rwhen b rd d (put_when b (put x) ++ rest) = Some (if b then x else d, rest).
Proof. intros Hr Hx. unfold rwhen, put_when. destruct b; [by apply Hr|done]. Qed.

Lemma swap64_8 b : length b = 8%nat → ∀ fuel, (0 < fuel)%nat → swap64 fuel b = Some (reverse b).
Proof.
  intros Hb fuel Hf. destruct fuel as [|fuel]; [lia|]. destruct b as [|x b]; [done|]. cbn [swap64].
  set (l := x :: b) in *. rewrite decide_True by lia. rewrite drop_ge, (take_ge l) by lia.
  assert (swap64 fuel [] = Some []) as -> by (by destruct fuel). cbn [mbind option_bind].
  rewrite app_nil_r. f_equal. replace 8%nat with (length (reverse l)) by (by rewrite length_reverse).
  apply le_put_get.
Qed.

Lemma swap64_16 a b fuel :
  length a = 8%nat → length b = 8%nat → (1 < fuel)%nat →
  swap64 fuel (a ++ b) = Some (reverse a ++ reverse b).
Proof.
  intros Ha Hb Hf. destruct fuel as [|fuel]; [lia|]. destruct a as [|x a]; [done|].
  cbn [app swap64]. change (x :: a ++ b) with ((x :: a) ++ b). set (l := x :: a) in *.
  rewrite decide_True by (rewrite length_app; lia). rewrite <- Ha at 1.
  rewrite drop_app_length, (swap64_8 b Hb) by lia. cbn [mbind option_bind].
  rewrite <- Ha at 2. rewrite take_app_length. do 2 f_equal.
  replace 8%nat with (length (reverse l)) by (by rewrite length_reverse). apply le_put_get.
Qed.

Lemma read_raw_app a rest n : length a = n → read_raw n (a ++ rest) = Some (a, rest).
Proof.
  intros <-. unfold read_raw. rewrite decide_True by (rewrite length_app; lia).
  by rewrite take_app_length, drop_app_length.
Qed.

Lemma read_encodeSpan s rest :
  length (TraceID s) = 16%nat → length (SpanID s) = 8%nat → go_len (TraceState s) →
  ∃ bytes, encodeSpan s = Some bytes ∧
  read_span (bytes ++ rest)
  = Some (if IsValid s then Some (TraceID s, SpanID s, TraceState s, TraceFlags s) else None, rest).
Proof.
  intros Ht Hs Hst. unfold encodeSpan. destruct (IsValid s).
  - rewrite Ht, Hs. rewrite <- (take_drop 8 (TraceID s)).
    set (a := take 8 (TraceID s)). set (b := drop 8 (TraceID s)).
    assert (length a = 8%nat) as Ha by (unfold a; rewrite length_take; lia).
    assert (length b = 8%nat) as Hb by (unfold b; rewrite length_drop; lia).
    rewrite swap64_16, (swap64_8 (SpanID s)) by (done || lia). cbn [mbind option_bind].
    eexists. split; [done|]. rewrite <- !app_assoc. unfold read_span.
    rewrite reads_Byte by done. cbn [mbind option_bind]. change (beq x01 x00) with false.
    cbv iota. rewrite (app_assoc (reverse a)), read_raw_app by (rewrite length_app, !length_reverse; lia).
    cbn [mbind option_bind]. rewrite read_raw_app by (by rewrite length_reverse). cbn [mbind option_bind].
    rewrite swap64_16, swap64_8 by (rewrite ?length_reverse; lia). cbn [mbind option_bind].
    rewrite reads_Str by done. cbn [mbind option_bind]. rewrite reads_Byte by done. cbn [mbind option_bind].
    by rewrite !reverse_involutive.
  - eexists. split; [done|]. unfold read_span. by rewrite reads_Byte.
Qed.

Lemma PutString_length s : go_len s → (0 < length (PutString s))%nat.
Proof.
  intros Hs. pose proof (reads_Str s [] Hs) as E. apply consumes_Str in E.
  rewrite length_app in E. simpl in E. lia.
Qed.

(** The bytes of a list of entries, and the empty key behind them. *)
Definition entries_bytes (es : list (gostring * Z * gostring)) : gostring :=
  flat_map (λ '(k, f, t), PutString k ++ PutUVarInt f ++ PutString t) es.

Lemma go_len_nil : go_len [].
Proof. done. Qed.

Lemma read_entries_bytes es rest fuel :
  Forall entry_ok es → (length es < fuel)%nat →
  read_entries fuel (entries_bytes es ++ PutString [] ++ rest) = Some (es, rest).
Proof.
  intros Hes. revert fuel. induction Hes as [|[[k f] t] es (Hk & Hkl & Hf & Ht) Hes IH];
    intros [|fuel] Hfu; [simpl in Hfu; lia| |simpl in Hfu; lia|]; cbn [read_entries].
  - cbn [entries_bytes flat_map app]. rewrite reads_Str by apply go_len_nil. cbn [mbind option_bind].
    by rewrite bool_decide_true.
  - change (entries_bytes ((k, f, t) :: es)) with ((PutString k ++ PutUVarInt f ++ PutString t) ++ entries_bytes es).
    rewrite <- !app_assoc. rewrite reads_Str by done. cbn [mbind option_bind].
    rewrite bool_decide_false by done. rewrite reads_UVarInt by done. cbn [mbind option_bind].
    rewrite reads_Str by done. cbn [mbind option_bind]. rewrite IH by (simpl in Hfu; lia). done.
Qed.

Lemma entries_bytes_length es : Forall entry_ok es → (length es ≤ length (entries_bytes es))%nat.
Proof.
  induction 1 as [|[[k f] t] es (Hk & Hkl & _) Hes IH]; [done|].
  cbn [entries_bytes flat_map]. rewrite !length_app. cbn [length].
  pose proof (PutString_length k Hkl). fold (entries_bytes es). lia.
Qed.

Lemma read_entries_all es rest :
  Forall entry_ok es →
  read_entries (S (length (entries_bytes es ++ PutString [] ++ rest)))
    (entries_bytes es ++ PutString [] ++ rest) = Some (es, rest).
Proof.
  intros Hes. apply read_entries_bytes; [done|]. rewrite length_app.
  pose proof (entries_bytes_length es Hes). lia.
Qed.

Lemma Settings_Encode_bytes l revision :
  DBMS_MIN_REVISION_WITH_SETTINGS_SERIALIZED_AS_STRINGS < revision → Forall setting_ok l →
  Settings_Encode l revision = Ok (entries_bytes (map setting_entry l)).
Proof.
  intros Hr Hl. unfold Settings_Encode. induction Hl as [|s l [Hs Hc] Hl IH]; [done|].
  cbn [encode_all map]. rewrite IH.
  assert (setting_encode s revision = Ok (entries_bytes [setting_entry s])) as ->.
  { unfold setting_encode.
    destruct (Z.leb_spec revision DBMS_MIN_REVISION_WITH_SETTINGS_SERIALIZED_AS_STRINGS); [lia|].
    unfold setting_entry, entries_bytes. cbn [flat_map]. rewrite app_nil_r.
    destruct (Custom s) eqn:Ec; [|done]. by destruct (Hc eq_refl) as [v ->]. }
  cbn [mbind result_bind]. unfold entries_bytes. cbn [flat_map]. by rewrite app_nil_r.
Qed.

Lemma Parameters_Encode_bytes l : Parameters_Encode l = Ok (entries_bytes (map parameter_entry l)).
Proof. unfold Parameters_Encode. induction l as [|p l IH]; [done|]. cbn [encode_all map]. by rewrite IH. Qed.

Ltac next :=
  first [ rewrite reads_Str by (done || assumption) | rewrite reads_UVarInt by (done || assumption)
        | rewrite reads_Byte by done | rewrite reads_Bool by done
        | rewrite (rwhen_put _ _ _ _ _ _ _ reads_Str) by (done || assumption)
        | rewrite (rwhen_put _ _ _ _ _ _ _ reads_UVarInt) by done
        | rewrite (rwhen_put _ _ _ _ _ _ _ reads_Int64) by done ];
  cbn [mbind option_bind].

Lemma Query_reads osUser hostname q revision rest :
  DBMS_MIN_REVISION_WITH_SETTINGS_SERIALIZED_AS_STRINGS < revision →
  query_ok osUser hostname q →
  ∃ bytes, Query_Encode osUser hostname q revision = Some (Ok bytes) ∧
    read_query revision (bytes ++ rest) = Some (query_view osUser hostname q revision, rest).
Proof.
  intros Hrev [Hstr Hver [Ht Hs] Hset Hpar].
  repeat match goal with H : Forall _ (_ :: _) |- _ => apply Forall_cons in H as [? H] end.
  unfold Query_Encode, encodeClientInfo, query_view.
  destruct (read_encodeSpan (q_Span q) [] Ht Hs) as (sb & Esb & _); [done|].
  rewrite Esb.
  set (spanb := if DBMS_MIN_REVISION_WITH_OPENTELEMETRY <=? revision then sb else []).
  assert ((if DBMS_MIN_REVISION_WITH_OPENTELEMETRY <=? revision then Some sb else Some []) = Some spanb) as ->
    by (unfold spanb; by destruct (_ <=? _)).
  cbn [mbind option_bind]. rewrite Settings_Encode_bytes, Parameters_Encode_bytes by done.
  cbn [mbind result_bind].
  set (parb := if DBMS_MIN_PROTOCOL_VERSION_WITH_PARAMETERS <=? revision
               then entries_bytes (map parameter_entry (Parameters q)) ++ PutString [] else []).
  assert ((if DBMS_MIN_PROTOCOL_VERSION_WITH_PARAMETERS <=? revision
           then Ok (entries_bytes (map parameter_entry (Parameters q)) ++ PutString [])
           else Ok []) = @Ok proto_err _ parb) as -> by (unfold parb; by destruct (DBMS_MIN_PROTOCOL_VERSION_WITH_PARAMETERS <=? revision)).
  cbn [mbind result_bind]. eexists. split; [done|].
  unfold read_query. rewrite <- !app_assoc.
  do 16 next.
  assert (∀ r, rwhen (DBMS_MIN_REVISION_WITH_OPENTELEMETRY <=? revision) read_span None (spanb ++ r)
     = Some (if (DBMS_MIN_REVISION_WITH_OPENTELEMETRY <=? revision) && IsValid (q_Span q)
             then Some (TraceID (q_Span q), SpanID (q_Span q), TraceState (q_Span q), TraceFlags (q_Span q))
             else None, r)) as Hspan.
  { intros r. unfold rwhen, spanb. destruct (_ <=? _); [|done].
    destruct (read_encodeSpan (q_Span q) r Ht Hs) as (sb' & Esb' & E); [done|].
    rewrite Esb in Esb'. simplify_eq. exact E. }
  rewrite Hspan. cbn [mbind option_bind].
  set (par := DBMS_MIN_REVISION_WITH_PARALLEL_REPLICAS <=? revision).
  assert (∀ r, put_when par (PutUVarInt 0 ++ PutUVarInt 0 ++ PutUVarInt 0) ++ r
     = put_when par (PutUVarInt 0) ++ put_when par (PutUVarInt 0) ++ put_when par (PutUVarInt 0) ++ r) as Hpar3
    by (intros r; unfold put_when; destruct par; [by rewrite <- !app_assoc|done]).
  rewrite Hpar3. do 3 next.
  rewrite read_entries_all by (apply Forall_map; eapply Forall_impl; [exact Hset|]; by intros ? [? _]).
  cbn [mbind option_bind]. do 4 next.
  assert (rwhen (DBMS_MIN_PROTOCOL_VERSION_WITH_PARAMETERS <=? revision)
            (λ s, read_entries (S (length s)) s) [] (parb ++ rest)
     = Some (if DBMS_MIN_PROTOCOL_VERSION_WITH_PARAMETERS <=? revision
             then map parameter_entry (Parameters q) else [], rest)) as ->.
  { unfold rwhen, parb. destruct (DBMS_MIN_PROTOCOL_VERSION_WITH_PARAMETERS <=? revision); [|done]. rewrite <- app_assoc.
    apply read_entries_all. by apply Forall_map. }
  done.
Qed.

(** C1: At every revision above 54429, where settings travel as text, a query packet is
    encoded without error or panic, and a server of that revision reads from it exactly the
    query: identifier, client info, quota key, trace context with its identifiers unswapped,
    settings and parameters in order, compression flag and body, each where the revision
    carries it, and nothing of what follows. The packet has to be one Go can hold
    ([query_ok]): strings and numbers of Go's sizes, identifiers of 16 and 8 bytes in the
    trace context, setting and parameter names that are not empty, and custom settings whose
    value is a string. At 54429 itself the driver and the server disagree
    ([settings_boundary]). *)
Theorem Query_roundtrip osUser hostname q revision rest :
  DBMS_MIN_REVISION_WITH_SETTINGS_SERIALIZED_AS_STRINGS < revision →
  query_ok osUser hostname q →
  ∃ bytes, Query_Encode osUser hostname q revision = Some (Ok bytes) ∧
    read_query revision (bytes ++ rest) = Some (query_view osUser hostname q revision, rest).
Proof. apply Query_reads. Qed.
End server_side.

(** ** What the server writes *)

Section server_packets.
Context {W : Wire}.

Definition put_handshake (h : ServerHandshake) (timezone : gostring) : gostring :=
  PutString (sh_Name h) ++ PutUVarInt (Major (sh_Version h)) ++ PutUVarInt (Minor (sh_Version h))
  ++ PutUVarInt (Revision h)
  ++ put_when (DBMS_MIN_REVISION_WITH_SERVER_TIMEZONE <=? Revision h) (PutString timezone)
  ++ put_when (DBMS_MIN_REVISION_WITH_SERVER_DISPLAY_NAME <=? Revision h) (PutString (DisplayName h))
  ++ put_when (DBMS_MIN_REVISION_WITH_VERSION_PATCH <=? Revision h) (PutUVarInt (Patch (sh_Version h))).

(** An element of an exception chain, and whether another follows. *)
Record raised := MkRaised { r_code : Z; r_name : gostring; r_message : gostring; r_stack : gostring }.

Fixpoint put_exceptions (e : raised) (chain : list raised) : gostring :=
  PutInt32 (r_code e) ++ PutString (r_name e) ++ PutString (r_message e) ++ PutString (r_stack e)
  ++ match chain with
     | [] => PutBool false
     | e' :: chain => PutBool true ++ put_exceptions e' chain
     end.

Definition put_progress (p : Progress) (revision : Z) : gostring :=
  PutUVarInt (Rows p) ++ PutUVarInt (Bytes p) ++ PutUVarInt (TotalRows p)
  ++ put_when (DBMS_MIN_REVISION_WITH_CLIENT_WRITE_INFO <=? revision) (PutUVarInt (WroteRows p))
  ++ put_when (DBMS_MIN_REVISION_WITH_CLIENT_WRITE_INFO <=? revision) (PutUVarInt (WroteBytes p))
  ++ put_when (DBMS_MIN_PROTOCOL_VERSION_WITH_SERVER_QUERY_TIME_IN_PROGRES <=? revision) (PutUVarInt (Elapsed p)).

Definition put_profile (p : ProfileInfo) : gostring :=
  PutUVarInt (pi_Rows p) ++ PutUVarInt (Blocks p) ++ PutUVarInt (pi_Bytes p) ++ PutBool (AppliedLimit p)
  ++ PutUVarInt (RowsBeforeLimit p) ++ PutBool (CalculatedRowsBeforeLimit p).

Context {L : WireLaws W}.

Lemma bind_parser {A B} (m : parser A) (f : A → parser B) s a r :
  m s = Ok (a, r) → (m ≫= f) s = f a r.
Proof. intros E. unfold mbind, parser_bind. by rewrite E. Qed.

Lemma field_reads {A} (P : A → Prop) put rd e x rest :
  reads P put rd → P x → field e rd (put x ++ rest) = Ok (x, rest).
Proof. intros Hr Hx. unfold field. by rewrite Hr. Qed.

Lemma when_reads {A B} (P : B → Prop) (put : B → gostring) (b : bool) (p : parser A) d (x : B) (y : A) rest :
  (b = true → p (put x ++ rest) = Ok (y, rest)) →
  when b p d (put_when b (put x) ++ rest) = Ok (if b then y else d, rest).
Proof. intros Hr. unfold when, put_when. destruct b; [by apply Hr|done]. Qed.

(** The record a client can hold after reading revision [Revision h]. *)
Definition handshake_ok (Load : gostring → bool) (h : ServerHandshake) (timezone : gostring) : Prop :=
  Forall go_len [sh_Name h; DisplayName h; timezone]
  ∧ Forall uint64 [Major (sh_Version h); Minor (sh_Version h); Patch (sh_Version h); Revision h]
  ∧ Load timezone = true
  ∧ Timezone h = (if DBMS_MIN_REVISION_WITH_SERVER_TIMEZONE <=? Revision h then Some timezone else None)
  ∧ (Revision h < DBMS_MIN_REVISION_WITH_SERVER_DISPLAY_NAME → DisplayName h = [])
  ∧ (Revision h < DBMS_MIN_REVISION_WITH_VERSION_PATCH → Patch (sh_Version h) = Revision h).

Ltac pnext := erewrite bind_parser; [|first
  [ eapply (field_reads _ _ _ _ _ _ reads_Str); done
  | eapply (field_reads _ _ _ _ _ _ reads_UVarInt); done
  | eapply (field_reads _ _ _ _ _ _ reads_Bool); done
  | eapply (field_reads _ _ _ _ _ _ reads_Int32); done
  | eapply (when_reads (λ _, True)); intros _;
    first [eapply (field_reads _ _ _ _ _ _ reads_Str); done
          |eapply (field_reads _ _ _ _ _ _ reads_UVarInt); done] ]].

Lemma ServerHandshake_reads Load h timezone rest :
  handshake_ok Load h timezone →
  ServerHandshake_Decode Load (put_handshake h timezone ++ rest) = Ok (h, rest).
Proof.
  intros (Hs & Hv & Hl & Htz & Hd & Hp).
  repeat match goal with H : Forall _ (_ :: _) |- _ => apply Forall_cons in H as [? H] end.
  unfold ServerHandshake_Decode, put_handshake. rewrite <- !app_assoc.
  do 4 pnext.
  erewrite bind_parser; [|eapply (when_reads (λ _, True)); intros _].
  2:{ erewrite bind_parser; [|eapply (field_reads _ _ _ _ _ _ reads_Str); done].
      unfold load_timezone. rewrite Hl. done. }
  do 2 pnext. unfold mret, parser_ret. do 2 f_equal.
  destruct h as [name display rev [ma mi pa] tz]. cbn in *. subst tz. f_equal.
  - destruct (Z.leb_spec DBMS_MIN_REVISION_WITH_SERVER_DISPLAY_NAME rev); [done|]. by rewrite Hd.
  - destruct (Z.leb_spec DBMS_MIN_REVISION_WITH_VERSION_PATCH rev); [done|]. by rewrite Hp.
Qed.

(** The server's hello is read back for every revision: each field that the
    revision carries, the patch number standing in for the revision on servers that do
    not send it, and the input behind the packet untouched. *)
Theorem ServerHandshake_roundtrip Load h timezone rest :
  handshake_ok Load h timezone →
  ServerHandshake_Decode Load (put_handshake h timezone ++ rest) = Ok (h, rest).
Proof. apply ServerHandshake_reads. Qed.

Definition raised_ok (e : raised) : Prop :=
  int32 (r_code e) ∧ go_len (r_name e) ∧ go_len (r_message e) ∧ go_len (r_stack e).

Definition to_exception (more : bool) (nest : list Exception) (e : raised) : Exception :=
  MkException (r_code e) (r_name e) [] (clean_message (r_name e) (r_message e)) (r_stack e) nest more.

(** The chain as the loop collects it. *)
Fixpoint chain_exceptions (e : raised) (chain : list raised) : list Exception :=
  match chain with
  | [] => [to_exception false [] e]
  | e' :: chain => to_exception true [] e :: chain_exceptions e' chain
  end.

Lemma exception_decode_put e more rest :
  raised_ok e →
  exception_decode (PutInt32 (r_code e) ++ PutString (r_name e) ++ PutString (r_message e)
                    ++ PutString (r_stack e) ++ PutBool more ++ rest)
  = Ok (to_exception more [] e, rest).
Proof. intros (Hc & Hn & Hm & Hs). unfold exception_decode. do 5 pnext. done. Qed.

Lemma exceptions_loop_put chain e rest fuel :
  Forall raised_ok (e :: chain) → (length chain < fuel)%nat →
  exceptions_loop fuel (put_exceptions e chain ++ rest) = Some (Ok (chain_exceptions e chain, rest)).
Proof.
  revert e fuel. induction chain as [|e' chain IH]; intros e [|fuel] He Hf; try (simpl in Hf; lia);
    apply Forall_cons in He as [He Hc]; cbn [exceptions_loop put_exceptions]; rewrite <- !app_assoc.
  - rewrite exception_decode_put by done. done.
  - rewrite exception_decode_put by done. cbn [nested to_exception].
    rewrite IH by (done || (simpl in Hf; lia)). done.
Qed.

Lemma field_consumes {A} e (rd : gostring → option (A * gostring)) s x r :
  consumes rd → field e rd s = Ok (x, r) → (length r < length s)%nat.
Proof. intros Hc. unfold field. destruct (rd s) as [[y r']|] eqn:E; [|done]. intros [= <- <-]. by eapply Hc. Qed.

Lemma exception_decode_consumes s ex r : exception_decode s = Ok (ex, r) → (length r < length s)%nat.
Proof.
  unfold exception_decode, mbind, parser_bind. intros H.
  destruct (try RInt32 s) as [[c s1]|] eqn:E1; [|done].
  destruct (try RStr s1) as [[n s2]|] eqn:E2; [|done].
  destruct (try RStr s2) as [[m s3]|] eqn:E3; [|done].
  destruct (try RStr s3) as [[k s4]|] eqn:E4; [|done].
  destruct (try RBool s4) as [[b s5]|] eqn:E5; [|done].
  apply field_consumes in E1, E2, E3, E4, E5; auto using consumes_Str, consumes_Bool, consumes_Int32.
  injection H as <- <-. lia.
Qed.

Lemma exceptions_loop_total fuel s : (length s < fuel)%nat → ∃ r, exceptions_loop fuel s = Some r.
Proof.
  revert s. induction fuel as [|fuel IH]; intros s Hf; [lia|]. cbn [exceptions_loop].
  destruct (exception_decode s) as [[ex r]|e] eqn:E; [|by eexists].
  apply exception_decode_consumes in E. destruct (nested ex); [|by eexists].
  destruct (IH r) as [x ->]; [lia|]. cbn [mbind option_bind]. destruct x as [[? ?]|]; by eexists.
Qed.

(** The head of a chain, with the rest as its nested exceptions. *)
Definition received (e : raised) (chain : list raised) : Exception :=
  to_exception false (match chain with [] => [] | e' :: chain => chain_exceptions e' chain end) e.

Lemma put_exceptions_length e chain : Forall raised_ok (e :: chain) → (length chain < length (put_exceptions e chain))%nat.
Proof.
  revert e. induction chain as [|e' chain IH]; intros e He; apply Forall_cons in He as [(?&Hn&?) Hc];
    cbn [put_exceptions]; rewrite !length_app; pose proof (PutString_length (r_name e) Hn).
  - simpl. lia.
  - specialize (IH e' Hc). cbn [length]. lia.
Qed.

Lemma Exception_reads e chain rest :
  Forall raised_ok (e :: chain) →
  Exception_Decode (put_exceptions e chain ++ rest) = Some (Ok (received e chain, rest)).
Proof.
  intros He. unfold Exception_Decode.
  rewrite exceptions_loop_put; [|done|rewrite length_app; pose proof (put_exceptions_length e chain He); lia].
  cbn [mbind option_bind]. by destruct chain.
Qed.

Lemma Exception_total s : ∃ r, Exception_Decode s = Some r.
Proof.
  unfold Exception_Decode. destruct (exceptions_loop_total (S (length s)) s) as [r ->]; [lia|].
  cbn [mbind option_bind]. destruct r as [[[|] ?]|]; by eexists.
Qed.

(** An exception chain of any depth is read back: the first element's code, name,
    message (without the name prefix and surrounding space) and stack trace, and the
    others in order as its nested exceptions; and on every input whatever the loop
    ends, with a value or with a read error. *)
Theorem Exception_roundtrip_total :
  (∀ e chain rest, Forall raised_ok (e :: chain) →
     Exception_Decode (put_exceptions e chain ++ rest) = Some (Ok (received e chain, rest)))
  ∧ (∀ s, ∃ r, Exception_Decode s = Some r).
Proof. split; [apply Exception_reads|apply Exception_total]. Qed.

Definition progress_ok (p : Progress) (revision : Z) : Prop :=
  Forall uint64 [Rows p; Bytes p; TotalRows p; WroteRows p; WroteBytes p] ∧ 0 ≤ Elapsed p < 2 ^ 63
  ∧ withClient p = (DBMS_MIN_REVISION_WITH_CLIENT_WRITE_INFO <=? revision)
  ∧ (withClient p = false → WroteRows p = 0 ∧ WroteBytes p = 0)
  ∧ (revision < DBMS_MIN_PROTOCOL_VERSION_WITH_SERVER_QUERY_TIME_IN_PROGRES → Elapsed p = 0).

Lemma Progress_reads p revision rest :
  progress_ok p revision → Progress_Decode revision (put_progress p revision ++ rest) = Ok (p, rest).
Proof.
  intros (Hu & He & Hw & Hz & Hel).
  repeat match goal with H : Forall _ (_ :: _) |- _ => apply Forall_cons in H as [? H] end.
  unfold Progress_Decode, put_progress. rewrite <- !app_assoc. do 5 pnext.
  erewrite bind_parser; [|eapply (when_reads (λ _, True)); intros _].
  2:{ erewrite bind_parser; [|eapply (field_reads _ _ _ _ _ _ reads_UVarInt)]; [done|]. unfold uint64. lia. }
  unfold mret, parser_ret. do 2 f_equal. rewrite i64_small by lia.
  destruct p as [r b t wr wb el wc]. cbn in *. subst wc.
  destruct (Z.leb_spec DBMS_MIN_REVISION_WITH_CLIENT_WRITE_INFO revision); [|destruct Hz as [-> ->]; [done|]].
  all: f_equal; destruct (Z.leb_spec DBMS_MIN_PROTOCOL_VERSION_WITH_SERVER_QUERY_TIME_IN_PROGRES revision); [done|];
    by rewrite Hel.
Qed.

Definition profile_ok (p : ProfileInfo) : Prop := Forall uint64 [pi_Rows p; Blocks p; pi_Bytes p; RowsBeforeLimit p].

Lemma ProfileInfo_reads p rest : profile_ok p → ProfileInfo_Decode (put_profile p ++ rest) = Ok (p, rest).
Proof.
  intros Hu. repeat match goal with H : Forall _ (_ :: _) |- _ => apply Forall_cons in H as [? H] end.
  unfold profile_ok in Hu. repeat match goal with H : Forall _ (_ :: _) |- _ => apply Forall_cons in H as [? H] end.
  unfold ProfileInfo_Decode, put_profile. rewrite <- !app_assoc. do 6 pnext. by destruct p.
Qed.

Lemma TableColumns_reads a b rest :
  go_len a → go_len b → TableColumns_Decode (PutString a ++ PutString b ++ rest) = Ok (MkTableColumns a b, rest).
Proof. intros Ha Hb. unfold TableColumns_Decode. do 2 pnext. done. Qed.

(** Progress, profile info and table columns are read back field by field for
    every revision, leaving the input behind them. *)
Theorem server_packets_roundtrip rest :
  (∀ p revision, progress_ok p revision →
     Progress_Decode revision (put_progress p revision ++ rest) = Ok (p, rest))
  ∧ (∀ p, profile_ok p → ProfileInfo_Decode (put_profile p ++ rest) = Ok (p, rest))
  ∧ (∀ a b, go_len a → go_len b →
     TableColumns_Decode (PutString a ++ PutString b ++ rest) = Ok (MkTableColumns a b, rest)).
Proof. split; [|split]; intros; auto using Progress_reads, ProfileInfo_reads, TableColumns_reads. Qed.
End server_packets.

(** At the very revision that the constant names as the first with settings as
    strings, the encoder still uses the old form: a string setting is refused there,
    and accepted one revision later. *)
Theorem settings_boundary {W : Wire} k v :
  setting_encode (MkSetting k (SString v) false false) DBMS_MIN_REVISION_WITH_SETTINGS_SERIALIZED_AS_STRINGS
  = Err (ErrSettingType k)
  ∧ is_ok (setting_encode (MkSetting k (SString v) false false)
             (DBMS_MIN_REVISION_WITH_SETTINGS_SERIALIZED_AS_STRINGS + 1)) = true.
Proof. done. Qed.

(** ** Concrete packets *)

Definition demo_q : Query :=
  MkQuery (str "id-1") (str "clickhouse-go/2.48.0") (MkVersion 2 48 0) DBMS_TCP_PROTOCOL_VERSION
    (MkSpan true (str "0123456789abcdef") (str "01234567") (str "k=v") x01)
    (str "SELECT {a:String}") (str "quota") [MkSetting (str "max_threads") (SInt 4) true false]
    [MkParameter (str "a") (str "it's")] true (str "default") (str "127.0.0.1:1234").

Lemma demo_q_ok : query_ok (str "root") (str "host") demo_q.
Proof. split; repeat constructor; try done. all: try discriminate. Qed.

Lemma Query_roundtrip_witness :
  ∃ bytes, Query_Encode (str "root") (str "host") demo_q DBMS_TCP_PROTOCOL_VERSION = Some (Ok bytes) ∧
    read_query DBMS_TCP_PROTOCOL_VERSION (bytes ++ str "tail")
    = Some (query_view (str "root") (str "host") demo_q DBMS_TCP_PROTOCOL_VERSION, str "tail").
Proof.
  apply (Query_roundtrip (str "root") (str "host") demo_q DBMS_TCP_PROTOCOL_VERSION (str "tail")).
  - reflexivity.
  - apply demo_q_ok.
Defined.

Definition demo_h : ServerHandshake :=
  MkServerHandshake (str "ClickHouse") (str "node-1") 54460 (MkVersion 24 8 3) (Some (str "Europe/Berlin")).

Lemma ServerHandshake_roundtrip_witness :
  ServerHandshake_Decode (λ _, true) (put_handshake demo_h (str "Europe/Berlin") ++ str "x") = Ok (demo_h, str "x").
Proof.
  apply (ServerHandshake_roundtrip (λ _, true) demo_h (str "Europe/Berlin") (str "x")).
  split; [repeat constructor|]. split; [repeat constructor; done|]. split; [done|]. split; [done|].
  split; discriminate.
Defined.

Lemma Exception_roundtrip_total_witness :
  Exception_Decode (put_exceptions (MkRaised 60 (str "DB::Exception") (str "DB::Exception: no table ") [])
                      [MkRaised 1 (str "inner") (str "cause") []] ++ str "x")
  = Some (Ok (received (MkRaised 60 (str "DB::Exception") (str "DB::Exception: no table ") [])
                [MkRaised 1 (str "inner") (str "cause") []], str "x")).
Proof. apply (proj1 Exception_roundtrip_total). repeat constructor; done. Defined.

Lemma server_packets_roundtrip_witness :
  TableColumns_Decode (PutString (str "a") ++ PutString (str "b") ++ str "x")
  = Ok (MkTableColumns (str "a") (str "b"), str "x").
Proof. apply (proj2 (proj2 (server_packets_roundtrip (str "x")))); reflexivity. Defined.
