(* ===== verification/HttpErrors.v ===== *)
(** * Errors of the HTTP interface ([conn_http_errors.go], [conn_http.go])

    A request that fails is answered with a status other than 200 and the text of the
    exception; a query that fails after the answer has begun leaves an exception block, a
    frame around the same text, at the end of a body of status 200.  This file holds the
    parsers of both.  [herr] is a Go error: its constructors are the types a caller can
    tell apart with [errors.As], and the texts where there is no type. *)

From Stdlib Require Import ZifyBool.
From S2P Require Import Prelude GoStd ChUrl Strconv Wire ProtoPackets Regexp.

(** ** [strings]: substrings and cutsets *)

Fixpoint strings_LastIndexSub (s pat : gostring) : option nat :=
  match s with
  | c :: t => match strings_LastIndexSub t pat with
              | Some i => Some (S i)
              | None => if HasPrefix s pat then Some 0%nat else None end
  | [] => if HasPrefix s pat then Some 0%nat else None
  end.

(** [strings.TrimRight(s, cutset)]. *)
Definition TrimRight (cut : byte → bool) (s : gostring) : gostring :=
  reverse (snd (span cut (reverse s))).

Definition is_crlf (b : byte) : bool := beq b x0d || beq b x0a.

(** [strings.ToLower], as far as its results are ASCII letters: two letters outside ASCII,
    U+0130 and U+212A, become ASCII letters. *)
Fixpoint strings_ToLower (s : gostring) : gostring :=
  match s with
  | xc4 :: xb0 :: t => "i"%byte :: strings_ToLower t
  | xe2 :: x84 :: xaa :: t => "k"%byte :: strings_ToLower t
  | b :: t => toLower b :: strings_ToLower t
  | [] => []
  end.

Definition is_Some_nat (o : option nat) : bool := match o with Some _ => true | None => false end.

Section errors.
Context {E : Type}.

Inductive herr :=
| Server (e : Exception)                 (* a *Exception *)
| Plain (text : gostring)                (* an error that is only a text *)
| RawBody (body : gostring)              (* "response body: %q" *)
| Io (e : E)                             (* an error of the transport *)
| Wrapped (what : gostring) (e : herr)   (* "what: %w" *)
| TruncatedBlock (e : herr) (cause : E)  (* "%w (exception block truncated: %v)" *)
| HTTPError (status : Z) (e : herr).

(** ** The expressions *)

Definition digits1 : re := Grp 1 (Plus (Cls isDigit)).
Definition spaces0 : re := Star (Cls is_s).
Definition upper (b : byte) : bool := in_range "A" "Z" b.
Definition name_byte (b : byte) : bool := upper b || isDigit b || beq b "_".

(** ^Code:\s*(\d+)\.\s* *)
Definition httpExceptionCodeRe : re := Seq (Lit (str "Code:")) (Seq spaces0 (Seq digits1 (Seq (Chr ".") spaces0))).

Definition exceptionMarker : gostring := str "__exception__".
Definition CRLF : gostring := [x0d; x0a].

(** Code:\s*(\d+)\. *)
Definition exceptionTextStartRe : re := Seq (Lit (str "Code:")) (Seq spaces0 (Seq digits1 (Chr "."))).

(** ^\d+ \S+$ *)
Definition exceptionTrailerRe : re := Seq (Plus (Cls isDigit)) (Seq (Chr " ") (Seq (Plus (Cls not_s)) Eol)).

(** \(([A-Z][A-Z0-9_]+)\) *)
Definition exceptionCodeNameRe : re :=
  Seq (Chr "(") (Seq (Grp 1 (Seq (Cls upper) (Plus (Cls name_byte)))) (Chr ")")).

(** ^[A-Z][A-Z0-9_]+$ *)
Definition exceptionCodeNameValueRe : re := Seq (Cls upper) (Seq (Plus (Cls name_byte)) Eol).

Definition MatchPrefix (r : re) (s : gostring) : bool := match match_prefix r s with Some _ => true | None => false end.

Definition isFramedException (buf : gostring) : bool := is_Some_nat (strings_IndexSub buf (exceptionMarker ++ CRLF)).

(** ** Exceptions from texts *)

(** The last match with the code of the first one. *)
Definition choose_anchor (first : match_at) (ms : list match_at) : match_at :=
  foldl (λ a m, if decide (group m 1 = group first 1) then m else a) first ms.

(** The closing frame of a message is cut off when a trailer line stands before it. *)
Definition cut_trailer (msg : gostring) : gostring :=
  match strings_LastIndexSub msg exceptionMarker with
  | Some e =>
      let before := TrimRight is_crlf (take e msg) in
      match strings_LastIndex before x0a with
      | Some nl => if MatchPrefix exceptionTrailerRe (TrimRight (λ b, beq b x0d) (drop (nl + 1) before))
                   then take nl before else msg
      | None => msg
      end
  | None => msg
  end.

Definition exceptionTextFromBlock (dataStr : gostring) : option gostring :=
  match strings_IndexSub dataStr exceptionMarker with
  | None => None
  | Some firstMarker =>
      let region := drop (firstMarker + length exceptionMarker) dataStr in
      match find_all exceptionTextStartRe region with
      | [] => None
      | first :: ms =>
          let anchor := choose_anchor first ms in
          Some (TrimRight is_crlf (cut_trailer (drop (m_start anchor) region)))
      end
  end.

(** A code is accepted when it is a positive number of 32 bits. *)
Definition positive_code (s : gostring) : option Z :=
  match ParseInt 32 s with Some c => if (0 <? c)%Z then Some c else None | None => None end.

(** The class of the exception before the first ": ". *)
Definition split_class (msg : gostring) : gostring * gostring :=
  match strings_IndexSub msg (str ": ") with
  | Some idx =>
      let cand := take idx msg in
      if (0 <? idx)%nat && negb (existsb (λ b, existsb (beq b) [x20; x09; x0d; x0a]) cand)
         && is_Some_nat (strings_IndexSub (strings_ToLower cand) (str "exception"))
      then (cand, TrimSpace (drop (idx + 1) msg)) else ([], msg)
  | None => ([], msg)
  end.

Definition code_name (headerName msg : gostring) : gostring :=
  if MatchPrefix exceptionCodeNameValueRe headerName then headerName
  else match last (find_all exceptionCodeNameRe msg) with Some m => group m 1 | None => [] end.

Definition parseHTTPException (text headerCode headerName : gostring) : option Exception :=
  let msg := TrimSpace text in
  let '(code, msg) :=
    match match_prefix httpExceptionCodeRe msg with
    | Some m => match positive_code (group m 1) with
                | Some c => (Some c, drop (length (m_text m)) msg)
                | None => (None, msg) end
    | None => (None, msg)
    end in
  let code := match positive_code headerCode with Some c => Some c | None => code end in
  match code with
  | None => None
  | Some code =>
      let '(name, msg) := split_class msg in
      Some (MkException (i32 code) name (code_name headerName msg) msg [] [] false)
  end.

(** [newHTTPError]: the error of an answer whose status is not 200. *)
Definition newHTTPError (statusCode : Z) (headerCode headerName body : gostring) : herr :=
  let text :=
    match exceptionTextFromBlock body with
    | Some msg => msg
    | None =>
        if decide (headerCode = []) then body
        else match strings_LastIndexSub body (str "Code: " ++ headerCode ++ str ".") with
             | Some idx => drop idx body
             | None => body end
    end in
  match parseHTTPException text headerCode headerName with
  | Some ex => HTTPError statusCode (Server ex)
  | None => HTTPError statusCode (RawBody body)
  end.

Definition midStreamException (errorMsg : gostring) : herr :=
  match parseHTTPException errorMsg [] [] with
  | Some ex => Server ex
  | None => Plain (str "ClickHouse exception: " ++ errorMsg)
  end.

Definition exceptionTagLen : nat := 16.

(** The message by its position in the block, where it has no code. *)
Definition message_by_offset (dataStr : gostring) (firstMarker : nat) : herr :=
  let pos := (firstMarker + length exceptionMarker)%nat in
  let pos := if (pos + 2 <? length dataStr)%nat && bool_decide (take 2 (drop pos dataStr) = CRLF)
             then (pos + 2)%nat else pos in
  let pos := if (pos + exceptionTagLen + 2 <? length dataStr)%nat then (pos + exceptionTagLen + 2)%nat else pos in
  match strings_IndexSub (drop pos dataStr) exceptionMarker with
  | None =>
      let errorMsg := TrimSpace (drop pos dataStr) in
      if decide (errorMsg = []) then Plain (str "ClickHouse exception occurred but could not parse details")
      else midStreamException errorMsg
  | Some secondMarker =>
      let errorContent := take secondMarker (drop pos dataStr) in
      let lines := strings_Split (TrimRight is_crlf errorContent) x0a in
      let errorMsg := TrimSpace (strings_Join (take (length lines - 1) lines) [x0a]) in
      if decide (errorMsg = []) then Plain (str "ClickHouse exception occurred but message is empty")
      else midStreamException errorMsg
  end.

Definition parseExceptionFromBytes (data : gostring) : herr :=
  match strings_IndexSub data exceptionMarker with
  | None => Plain (str "exception marker not found")
  | Some firstMarker =>
      match exceptionTextFromBlock data ≫= λ msg, parseHTTPException msg [] [] with
      | Some ex => Server ex
      | None => message_by_offset data firstMarker
      end
  end.
End errors.
Arguments herr : clear implicits.

(** ** Searching for substrings *)

Lemma HasPrefix_app s t pat : length pat ≤ length s → HasPrefix (s ++ t) pat = HasPrefix s pat.
Proof. intros H. unfold HasPrefix. by rewrite take_app_le. Qed.

Lemma HasPrefix_self pat t : HasPrefix (pat ++ t) pat = true.
Proof. unfold HasPrefix. rewrite take_app_length. by apply bool_decide_eq_true. Qed.

Lemma IndexSub_here s pat : HasPrefix s pat = true → strings_IndexSub s pat = Some 0.
Proof. intros H. destruct s; cbn [strings_IndexSub]; by rewrite H. Qed.

(** A text behind the pattern does not move its first occurrence. *)
Lemma IndexSub_extend s pat t :
  strings_IndexSub (s ++ pat) pat = Some (length s) → strings_IndexSub (s ++ pat ++ t) pat = Some (length s).
Proof.
  induction s as [|c s IH]; intros H.
  - cbn [app] in *. apply IndexSub_here, HasPrefix_self.
  - change ((c :: s) ++ pat) with (c :: s ++ pat) in H. change ((c :: s) ++ pat ++ t) with (c :: s ++ pat ++ t).
    cbn [strings_IndexSub] in *.
    replace (HasPrefix (c :: s ++ pat ++ t) pat) with (HasPrefix (c :: s ++ pat) pat).
    2:{ symmetry. change (c :: s ++ pat ++ t) with ((c :: s) ++ pat ++ t). rewrite (app_assoc (c :: s)).
        apply (HasPrefix_app (c :: s ++ pat)). simpl. rewrite length_app. lia. }
    destruct (HasPrefix (c :: s ++ pat) pat); [done|].
    destruct (strings_IndexSub (s ++ pat) pat) as [j|] eqn:E; [|done]. cbn in H. simplify_eq.
    by rewrite IH.
Qed.

Lemma LastIndexSub_app s t pat i :
  strings_LastIndexSub t pat = Some i → strings_LastIndexSub (s ++ t) pat = Some (length s + i).
Proof. intros H. induction s as [|c s IH]; [done|]. cbn [app strings_LastIndexSub]. by rewrite IH. Qed.

Lemma TrimRight_app cut s b t :
  cut b = false → Forall (λ c, cut c = true) t → TrimRight cut (s ++ [b] ++ t) = s ++ [b].
Proof.
  intros Hb Ht. unfold TrimRight. rewrite app_assoc, reverse_app.
  assert (span cut (reverse t ++ reverse (s ++ [b])) = (reverse t, reverse (s ++ [b]))) as ->.
  { rewrite reverse_app. cbn [app]. apply Forall_reverse in Ht.
    induction Ht as [|c t' Hc Ht IH]; cbn [app span].
    - simpl. by rewrite Hb.
    - rewrite Hc, IH. done. }
  simpl. apply reverse_involutive.
Qed.

Lemma TrimRight_id cut s b : cut b = false → TrimRight cut (s ++ [b]) = s ++ [b].
Proof. intros Hb. rewrite <- (TrimRight_app cut s b [] Hb) at 2; [|constructor]. by rewrite app_nil_r. Qed.

(** The first ": " of a text that begins with a word without spaces. *)
Lemma IndexSub_class cand t :
  x20 ∉ cand → strings_IndexSub (cand ++ str ": " ++ t) (str ": ") = Some (length cand).
Proof.
  induction cand as [|c cand IH]; intros H; [done|].
  apply not_elem_of_cons in H as [Hc H].
  change ((c :: cand) ++ str ": " ++ t) with (c :: cand ++ str ": " ++ t). cbn [strings_IndexSub].
  assert (HasPrefix (c :: cand ++ str ": " ++ t) (str ": ") = false) as ->; [|by rewrite IH].
  apply bool_decide_eq_false. intros E. destruct cand as [|d cand]; cbn in E; simplify_eq.
  set_solver.
Qed.

(** ** The texts the server writes *)

Definition exception_text (code : Z) (class msg : gostring) : gostring :=
  str "Code:" ++ [x20] ++ FormatInt code ++ str "." ++ [x20] ++ class ++ str ": " ++ msg.

(** The trailer names the length of the text. *)
Definition block_trailer (tag text : gostring) : gostring :=
  [x0a] ++ (FormatUint (Z.of_nat (length text)) ++ [x20] ++ tag) ++ CRLF ++ exceptionMarker ++ CRLF.

Definition server_block (tag text : gostring) : gostring :=
  exceptionMarker ++ (CRLF ++ tag ++ CRLF) ++ text ++ block_trailer tag text.

(** A class is a word in which "exception" occurs in some case. *)
Definition exception_class (class : gostring) : Prop :=
  class ≠ [] ∧ Forall (λ b, graphic b = true) class ∧
  is_Some (strings_IndexSub (strings_ToLower class) (str "exception")).

Lemma graphic_not_space c : graphic c = true → existsb (beq c) [x20; x09; x0d; x0a] = false.
Proof. destruct c; intros H; (discriminate H || reflexivity). Qed.

Lemma split_class_spec class msg : exception_class class → trimmed msg →
  split_class (class ++ str ": " ++ msg) = (class, msg).
Proof.
  intros (Hne & Hg & [k Hk]) Hm. unfold split_class.
  rewrite IndexSub_class.
  2:{ intros Hin. rewrite Forall_forall in Hg. by specialize (Hg x20 Hin). }
  rewrite take_app_length.
  assert ((0 <? length class)%nat = true) as -> by (destruct class; [done|simpl; lia]).
  assert (existsb (λ b, existsb (beq b) [x20; x09; x0d; x0a]) class = false) as ->.
  { clear Hne Hk. induction Hg as [|b class Hb Hg IH]; [done|].
    change (existsb (beq b) [x20; x09; x0d; x0a]
            || existsb (λ b, existsb (beq b) [x20; x09; x0d; x0a]) class = false).
    by rewrite graphic_not_space, IH. }
  rewrite Hk. cbn [negb andb is_Some_nat]. f_equal.
  change (str ": " ++ msg) with (str ":" ++ x20 :: msg). rewrite app_assoc.
  rewrite drop_app_length' by (rewrite length_app; done). by apply TrimSpace_space.
Qed.

Lemma stops_at p (b : byte) s : p b = false → b :: s = [] ∨ ∃ c t, b :: s = c :: t ∧ p c = false.
Proof. intros H. right. by exists b, s. Qed.

Lemma FormatInt_pos z : (0 < z)%Z → FormatInt z = FormatUint z.
Proof. intros H. unfold FormatInt. by rewrite (proj2 (Z.ltb_ge z 0)) by lia. Qed.

(** The digits of a code, split for the lemmas on runs. *)
Lemma code_digits z : (0 < z)%Z → ∃ c m, FormatInt z = c :: m ∧ isDigit c = true ∧ Forall (λ c, isDigit c = true) m.
Proof.
  intros H. rewrite FormatInt_pos by done. pose proof (FormatUint_digits z) as Hd.
  destruct (FormatUint z) as [|c m] eqn:E; [by apply FormatUint_nonempty in E|].
  apply Forall_cons in Hd as [Hc Hm]. by exists c, m.
Qed.

Lemma digits_not_space : refuses is_s (Seq digits1 (Seq (Chr ".") spaces0)).
Proof.
  intros c s Hc. cbn [alts digits1 Plus]. assert (isDigit c = false) as ->; [|done].
  clear s. destruct c; (discriminate Hc || reflexivity).
Qed.

Lemma digits_not_space' : refuses is_s (Seq digits1 (Chr ".")).
Proof.
  intros c s Hc. cbn [alts digits1 Plus]. assert (isDigit c = false) as ->; [|done].
  clear s. destruct c; (discriminate Hc || reflexivity).
Qed.

Lemma refuses_dot : refuses isDigit (Chr ".").
Proof.
  intros c s Hc. cbn [alts Chr]. destruct (beq_spec c ".") as [->|]; [discriminate Hc|done].
Qed.

(** What is behind the code is not a space: the class begins there. *)
Lemma class_no_space class b s : exception_class class → ∃ c t, class ++ b :: s = c :: t ∧ is_s c = false.
Proof.
  intros (Hne & Hg & _). destruct class as [|c class]; [done|]. exists c, (class ++ b :: s). split; [done|].
  apply Forall_cons in Hg as [Hc _]. clear Hne. destruct c; (discriminate Hc || reflexivity).
Qed.

Lemma match_code code class msg : (0 < code)%Z → exception_class class →
  ∃ m, match_prefix httpExceptionCodeRe (exception_text code class msg) = Some m ∧ group m 1 = FormatInt code ∧
       drop (length (m_text m)) (exception_text code class msg) = class ++ str ": " ++ msg.
Proof.
  intros Hc Hcl. destruct (code_digits code Hc) as (d & ds & Ed & Hd & Hds).
  destruct (alts_Star_head is_s [x20] (class ++ str ": " ++ msg)) as [l El].
  { by repeat constructor. }
  { right. by apply (class_no_space class ":"%byte). }
  assert (alts httpExceptionCodeRe (exception_text code class msg)
          = (λ '(u, e), (u, (1, FormatInt code) :: e)) <$> ((class ++ str ": " ++ msg, []) :: l)) as E.
  { unfold httpExceptionCodeRe, exception_text. rewrite alts_Seq_Lit, Ed.
    unfold spaces0 at 1. rewrite alts_Star_run; [|by repeat constructor| |apply digits_not_space].
    2:{ apply stops_at. clear -Hd. destruct d; (discriminate Hd || reflexivity). }
    unfold digits1. change ((d :: ds) ++ ?x) with (d :: ds ++ x).
    rewrite (alts_group_run 1 isDigit _ d ds); [|done|done|by apply stops_at|by apply refuses_Chr].
    f_equal. change (str "." ++ [x20] ++ class ++ str ": " ++ msg) with ("."%byte :: [x20] ++ class ++ str ": " ++ msg).
    unfold Chr. rewrite alts_Seq_Cls, beq_refl. exact El. }
  unfold match_prefix. rewrite E. cbn [fmap list_fmap]. eexists. split; [done|]. split; [done|]. cbn [m_text].
  assert (∃ pre, exception_text code class msg = pre ++ class ++ str ": " ++ msg) as [pre ->].
  { exists (str "Code:" ++ [x20] ++ FormatInt code ++ str "." ++ [x20]). unfold exception_text. by rewrite <- !app_assoc. }
  rewrite length_app, Nat.add_sub, take_app_length, drop_app_length. done.
Qed.

Lemma trimmed_text code class msg : trimmed msg → trimmed (exception_text code class msg).
Proof.
  intros Hm. unfold exception_text.
  replace (str "Code:" ++ [x20] ++ FormatInt code ++ str "." ++ [x20] ++ class ++ str ": " ++ msg)
    with (str "Code:" ++ ([x20] ++ FormatInt code ++ str "." ++ [x20] ++ class ++ str ": ") ++ msg)
    by (by rewrite <- !app_assoc).
  apply trimmed_app; [|done]. apply trimmed_graphic; [done|]. by repeat constructor.
Qed.

Lemma positive_FormatInt code : (0 < code < 2 ^ 31)%Z → positive_code (FormatInt code) = Some code.
Proof. intros H. unfold positive_code. rewrite ParseInt_FormatInt by lia. by rewrite (proj2 (Z.ltb_lt 0 code)) by lia. Qed.

(** The exception a text stands for. *)
Definition parsed (code : Z) (class msg headerName : gostring) : Exception :=
  MkException code class (code_name headerName msg) msg [] [] false.

Lemma parse_text code class msg headerCode headerName :
  (0 < code < 2 ^ 31)%Z → exception_class class → trimmed msg → headerCode = [] ∨ headerCode = FormatInt code →
  parseHTTPException (exception_text code class msg) headerCode headerName = Some (parsed code class msg headerName).
Proof.
  intros Hc Hcl Hm Hhc. unfold parseHTTPException. rewrite TrimSpace_trimmed by by apply trimmed_text.
  destruct (match_code code class msg) as (m & -> & -> & ->); [lia|done|].
  assert (∀ o : option Z, o = Some code →
    match positive_code headerCode with Some c => Some c | None => o end = Some code) as Hhead.
  { intros o ->. destruct Hhc as [->| ->]; [done|]. by rewrite positive_FormatInt. }
  rewrite positive_FormatInt by done. cbn beta iota zeta. rewrite Hhead by done.
  rewrite split_class_spec by done. by rewrite i32_small by lia.
Qed.

(** The trailer is recognised and cut off, whatever markers the text itself contains. *)
Lemma last_of_trimmed s : trimmed s → ∃ k c, s = k ++ [c] ∧ graphic c = true.
Proof.
  intros (b & m & c & r & _ & E & _ & Hc). exists (reverse r), c. split; [|done].
  rewrite <- (reverse_involutive s), E. by rewrite reverse_cons.
Qed.

Lemma graphic_not_crlf c : graphic c = true → is_crlf c = false.
Proof. destruct c; intros H; (discriminate H || reflexivity). Qed.

Lemma graphic_not_s c : graphic c = true → not_s c = true.
Proof. destruct c; intros H; (discriminate H || reflexivity). Qed.

Lemma trailer_line n tag : tag ≠ [] → Forall (λ b, graphic b = true) tag →
  MatchPrefix exceptionTrailerRe (FormatUint n ++ [x20] ++ tag) = true.
Proof.
  intros Hne Hg. unfold MatchPrefix, match_prefix, exceptionTrailerRe.
  pose proof (FormatUint_digits n) as Hd. destruct (FormatUint n) as [|d ds] eqn:E; [by apply FormatUint_nonempty in E|].
  apply Forall_cons in Hd as [Hd Hds]. cbn [app].
  rewrite (alts_plus_run isDigit _ d ds); [|done|done|by apply stops_at|by apply refuses_Chr].
  unfold Chr. rewrite alts_Seq_Cls, beq_refl. destruct tag as [|c tag]; [done|].
  apply Forall_cons in Hg as [Hc Hg]. rewrite <- (app_nil_r tag).
  rewrite (alts_plus_run not_s _ c tag []); [done|by apply graphic_not_s| |by left|done].
  eapply Forall_impl; [exact Hg|]. intros x Hx. by apply graphic_not_s.
Qed.

Lemma cut_trailer_spec tag text : trimmed text → trimmed tag → Forall (λ b, graphic b = true) tag →
  TrimRight is_crlf (cut_trailer (text ++ block_trailer tag text)) = text.
Proof.
  intros Ht Htag Hg. unfold cut_trailer, block_trailer.
  set (line := FormatUint (Z.of_nat (length text)) ++ [x20] ++ tag).
  destruct (last_of_trimmed tag Htag) as (k & c & Ek & Hc).
  assert (line = (FormatUint (Z.of_nat (length text)) ++ [x20] ++ k) ++ [c]) as El.
  { unfold line. rewrite Ek. by rewrite <- !app_assoc. }
  replace (text ++ [x0a] ++ line ++ CRLF ++ exceptionMarker ++ CRLF)
    with ((text ++ [x0a] ++ line ++ CRLF) ++ exceptionMarker ++ CRLF) by (by rewrite <- !app_assoc).
  rewrite (LastIndexSub_app _ _ exceptionMarker 0) by reflexivity.
  rewrite Nat.add_0_r, take_app_length.
  assert (TrimRight is_crlf (text ++ [x0a] ++ line ++ CRLF) = text ++ x0a :: line) as ->.
  { rewrite El. generalize (FormatUint (Z.of_nat (length text)) ++ [x20] ++ k). intros w. cbn [app].
    replace (text ++ x0a :: (w ++ [c]) ++ CRLF) with ((text ++ x0a :: w) ++ [c] ++ CRLF).
    - rewrite TrimRight_app; [|by apply graphic_not_crlf|by repeat constructor]. by rewrite <- app_assoc.
    - by rewrite <- !app_assoc. }
  assert (x0a ∉ line) as Hnl.
  { unfold line. rewrite !not_elem_of_app. split; [|split].
    - intros Hin. pose proof (FormatUint_digits (Z.of_nat (length text))) as Hd. rewrite Forall_forall in Hd.
      by specialize (Hd _ Hin).
    - by intros ?%list_elem_of_singleton.
    - intros Hin. rewrite Forall_forall in Hg. by specialize (Hg _ Hin). }
  rewrite LastIndex_found by done.
  replace (drop (length text + 1) (text ++ x0a :: line)) with line.
  2:{ rewrite (cons_middle x0a text line), app_assoc. by rewrite drop_app_length' by (rewrite length_app; done). }
  assert (TrimRight (λ b, beq b x0d) line = line) as ->.
  { rewrite El. apply TrimRight_id, beq_ne. intros ->. done. }
  unfold line. rewrite trailer_line; [|by destruct Htag as (? & ? & ? & ? & -> & _)|done].
  rewrite take_app_length.
  destruct (last_of_trimmed text Ht) as (k' & c' & Et & Hc'). rewrite Et.
  by apply TrimRight_id, graphic_not_crlf.
Qed.

(** The other codes of a block: those of the matches behind the first one. *)
Definition restates (code : Z) (tag text : gostring) : Prop :=
  Exists (λ m, group m 1 = FormatInt code)
    (tail (find_all exceptionTextStartRe (drop (length exceptionMarker) (server_block tag text)))).

Lemma match_start code class msg t : (0 < code)%Z →
  ∃ m, match_prefix exceptionTextStartRe (exception_text code class msg ++ t) = Some m ∧ m_start m = 0
       ∧ group m 1 = FormatInt code.
Proof.
  intros Hc. destruct (code_digits code Hc) as (d & ds & Ed & Hd & Hds).
  assert (alts exceptionTextStartRe (exception_text code class msg ++ t)
          = [([x20] ++ (class ++ str ": " ++ msg) ++ t, [(1, FormatInt code)])]) as E.
  { unfold exceptionTextStartRe, exception_text. rewrite Ed.
    rewrite <- (app_assoc (str "Code:")), alts_Seq_Lit. rewrite <- (app_assoc [x20]).
    unfold spaces0. rewrite alts_Star_run; [|by repeat constructor| |apply digits_not_space'].
    2:{ apply stops_at. clear -Hd. destruct d; (discriminate Hd || reflexivity). }
    unfold digits1. change (((d :: ds) ++ ?x) ++ t) with (d :: (ds ++ x) ++ t). rewrite <- (app_assoc ds).
    by rewrite (alts_group_run 1 isDigit _ d ds); [|done|done|by apply stops_at|apply refuses_dot]. }
  unfold match_prefix. rewrite E. by eexists.
Qed.

Lemma choose_anchor_first first ms : ¬ Exists (λ m, group m 1 = group first 1) ms → choose_anchor first ms = first.
Proof.
  unfold choose_anchor. generalize (group first 1) as g. intros g H%Forall_Exists_neg.
  induction H as [|m ms Hm H IH]; [done|]. cbn [foldl]. by rewrite decide_False.
Qed.

Lemma list_exists_witness {A B} (f : A → B) y l : Exists (λ m, f m = y) l → y ∈ map f l.
Proof. rewrite Exists_exists. intros (x & Hx & <-). by apply list_elem_of_fmap_2. Qed.

(** Data before which the marker does not occur earlier. *)
Definition before_marker (data : gostring) : Prop :=
  strings_IndexSub (data ++ exceptionMarker) exceptionMarker = Some (length data).

Lemma block_text data tag code class msg :
  before_marker data → trimmed tag → Forall (λ b, graphic b = true) tag → ":"%byte ∉ tag →
  (0 < code < 2 ^ 31)%Z → trimmed msg →
  ¬ restates code tag (exception_text code class msg) →
  exceptionTextFromBlock (data ++ server_block tag (exception_text code class msg))
  = Some (exception_text code class msg).
Proof.
  intros Hdata Htag Hg Hcolon Hc Hm Hre. set (text := exception_text code class msg) in *.
  unfold exceptionTextFromBlock. unfold server_block at 1. rewrite IndexSub_extend by done.
  assert (drop (length data + length exceptionMarker) (data ++ server_block tag text)
          = (CRLF ++ tag ++ CRLF) ++ text ++ block_trailer tag text) as ->.
  { unfold server_block. rewrite (app_assoc data). by rewrite drop_app_length' by (by rewrite length_app). }
  assert (drop (length exceptionMarker) (server_block tag text)
          = (CRLF ++ tag ++ CRLF) ++ text ++ block_trailer tag text) as E.
  { unfold server_block. by rewrite drop_app_length. }
  unfold restates in Hre. rewrite E in Hre. clear E. set (pre := CRLF ++ tag ++ CRLF) in *.
  destruct (match_start code class msg (block_trailer tag text)) as (m & Em & Es & Egr); [lia|].
  fold text in Em.
  assert (find_first exceptionTextStartRe (pre ++ text ++ block_trailer tag text)
          = Some (MkMatch (length pre) (m_text m) (m_groups m))) as Ef.
  { rewrite find_first_skip.
    - rewrite (find_first_here _ _ _ Em), iter_shift. by rewrite Es, Nat.add_0_r.
    - intros i Hi. unfold match_prefix, exceptionTextStartRe.
      rewrite (literal_absent (str "Code:") _ pre ":"%byte); [done| | |done].
      + exists (str "Code"). split; [done|]. unfold pre. rewrite !not_elem_of_app. clear -Hcolon. set_solver.
      + intros x. unfold pre. rewrite !last_app. simpl. intros [= <-]. set_solver. }
  unfold find_all in *.
  destruct (length (pre ++ text ++ block_trailer tag text)) as [|fuel] eqn:Elen; [done|].
  cbn [find_all_loop] in *. rewrite Ef in *. cbn [m_start m_text m_groups tail] in *.
  rewrite choose_anchor_first.
  - cbn [m_start Nat.add]. rewrite drop_app_length. f_equal. apply cut_trailer_spec; [|done|done].
    by apply trimmed_text.
  - change (group (MkMatch ?s ?t (m_groups m)) 1) with (group m 1). by rewrite Egr.
Qed.

(** The parser of a whole block, and the test that there is one. *)
Lemma block_exception {E} data tag code class msg :
  before_marker data → trimmed tag → Forall (λ b, graphic b = true) tag → ":"%byte ∉ tag →
  (0 < code < 2 ^ 31)%Z → exception_class class → trimmed msg →
  ¬ restates code tag (exception_text code class msg) →
  @parseExceptionFromBytes E (data ++ server_block tag (exception_text code class msg)) = Server (parsed code class msg []).
Proof.
  intros Hdata Htag Hg Hcolon Hc Hcl Hm Hre. unfold parseExceptionFromBytes. rewrite block_text by done.
  unfold server_block. rewrite IndexSub_extend by done. cbn [mbind option_bind].
  rewrite parse_text; [done|done|done|done|by left].
Qed.

Lemma IndexSub_found s p t : ∃ i, strings_IndexSub (s ++ p ++ t) p = Some i.
Proof.
  induction s as [|c s [i IH]]; [exists 0; cbn [app]; apply IndexSub_here, HasPrefix_self|].
  change ((c :: s) ++ p ++ t) with (c :: s ++ p ++ t). cbn [strings_IndexSub].
  destruct (HasPrefix _ p); [by exists 0|]. rewrite IH. by exists (S i).
Qed.

Lemma framed_block data tag text : isFramedException (data ++ server_block tag text) = true.
Proof.
  unfold isFramedException, server_block. rewrite <- (app_assoc CRLF), (app_assoc exceptionMarker).
  by destruct (IndexSub_found data (exceptionMarker ++ CRLF) ((tag ++ CRLF) ++ text ++ block_trailer tag text)) as [i ->].
Qed.

(** C20: The exception the server appends to an answer is recovered from the bytes: the
    parser of the block and that of a failed request return the code, the class, the message
    and the last name in capitals. The data before the block may be anything in which the
    marker does not begin earlier ([before_marker]); the tag is graphic, without a colon and
    without space at its ends, the code from 1 to below 2^31, the class a word that contains
    'exception', the message without space at its ends. The message may quote markers and
    exceptions with other codes, but not the text of a further exception with the same code
    ([restates]), from which the parser would start anew; a header with the code is absent
    or agrees. *)
Theorem exception_block_recovered {E} (data tag : gostring) (code : Z) (class msg : gostring) (status : Z) (hc hn : gostring) :
  before_marker data → trimmed tag → Forall (λ b, graphic b = true) tag → ":"%byte ∉ tag →
  (0 < code < 2 ^ 31)%Z → exception_class class → trimmed msg →
  ¬ restates code tag (exception_text code class msg) →
  hc = [] ∨ hc = FormatInt code →
  let body := data ++ server_block tag (exception_text code class msg) in
  @parseExceptionFromBytes E body = Server (parsed code class msg [])
  ∧ @newHTTPError E status hc hn body = HTTPError status (Server (parsed code class msg hn)).
Proof.
  intros Hdata Htag Hg Hcolon Hc Hcl Hm Hre Hhc body.
  split; [by apply block_exception|].
  unfold newHTTPError, body. rewrite block_text by done. by rewrite parse_text.
Qed.

(** A block whose message quotes a marker and another exception. *)
Lemma exception_block_recovered_witness :
  let text := exception_text 60 (str "DB::Exception")
      (str "Unknown table __exception__ Code: 62. in scope (UNKNOWN_TABLE) (version 25.1)") in
  @parseExceptionFromBytes unit (str "rows" ++ CRLF ++ server_block (str "aBcdEfghijklmn0p") text)
  = Server (MkException 60 (str "DB::Exception") (str "UNKNOWN_TABLE")
      (str "Unknown table __exception__ Code: 62. in scope (UNKNOWN_TABLE) (version 25.1)") [] [] false).
Proof.
  intros text. rewrite app_assoc.
  destruct (@exception_block_recovered unit (str "rows" ++ CRLF) (str "aBcdEfghijklmn0p") 60 (str "DB::Exception")
    (str "Unknown table __exception__ Code: 62. in scope (UNKNOWN_TABLE) (version 25.1)") 500 [] []) as [E _].
  - reflexivity.
  - apply trimmed_graphic; [done|]. by repeat constructor.
  - by repeat constructor.
  - by rewrite <- Contains_spec.
  - done.
  - split; [done|]. split; [by repeat constructor|]. by eexists.
  - do 4 eexists. split; [reflexivity|]. split; [reflexivity|]. done.
  - intros H. unfold restates in H.
    assert (map (λ m, group m 1) (tail (find_all exceptionTextStartRe (drop (length exceptionMarker)
      (server_block (str "aBcdEfghijklmn0p") text)))) = [str "62"]) as M by (vm_compute; reflexivity).
    fold text in H. apply list_exists_witness in H. rewrite M in H. by apply list_elem_of_singleton in H.
  - by left.
  - exact E.
Defined.
