(* ===== verification/HttpStream.v ===== *)
(** * Raw answers over HTTP: the search for exceptions in a stream ([conn_http_format.go])

    [QueryFormat] hands the bytes of an answer to the caller as they arrive.  A query that
    fails midway ends the answer with an exception block, and [exceptionScanReader] must
    stop in front of it: it holds back every byte that may belong to the frame of a block,
    whichever way the frame is split between reads, and turns the block into the error of
    the stream.

    An [io.Reader] is the list of what its coming reads have to offer, an empty read
    included, and the error it ends with, which may come with the last bytes or behind
    them and stays.  A read offers at most the room of the buffer. *)

From Stdlib Require Import ZifyBool.
From S2P Require Import Prelude GoStd ChUrl Strconv Wire ProtoPackets Regexp HttpErrors.

Section stream.
Context {E : Type}.

(** [None] is [io.EOF]. *)
Record source := MkSource {
  s_reads : list gostring;
  s_end : option E;
  s_with_last : bool
}.

(** One [Read] with room for [cap] bytes: the bytes, the error if there is one. *)
Definition src_Read (cap : nat) (s : source) : gostring * option (option E) * source :=
  match s_reads s with
  | [] => ([], Some (s_end s), s)
  | c :: rest =>
      if (cap <? length c)%nat then (take cap c, None, MkSource (drop cap c :: rest) (s_end s) (s_with_last s))
      else (c, if s_with_last s && bool_decide (rest = []) then Some (s_end s) else None,
            MkSource rest (s_end s) (s_with_last s))
  end.

(** Everything the reader has still to give, and a bound on the number of reads. *)
Definition body (s : source) : gostring := concat (s_reads s).
Definition reads_left (s : source) : nat := length (s_reads s) + length (body s).

Definition exceptionScanLimit : nat := 32 * 1024.

(** [io.ReadAll(io.LimitReader(src, limit))]; [grow] is the room the buffer of [ReadAll]
    has when it holds that many bytes, which is never none. *)
Context (grow : nat → nat).

Fixpoint readAll_loop (fuel limit : nat) (acc : gostring) (s : source) : gostring * option E * source :=
  match fuel, limit with
  | S fuel, S _ =>
      let '(bs, err, s) := src_Read (S (grow (length acc)) `min` limit) s in
      let acc := acc ++ bs in
      match err with
      | Some e => (acc, e, s)
      | None => readAll_loop fuel (limit - length bs) acc s
      end
  | _, _ => (acc, None, s)
  end.

Definition readAll (limit : nat) (s : source) : gostring * option E * source :=
  readAll_loop (S (reads_left s)) limit [] s.

(** ** The reader *)

Definition exceptionFrame : gostring := exceptionMarker ++ CRLF.

Record exceptionScanReader := MkReader {
  r_src : source;
  r_tag : gostring;
  r_pending : gostring;
  r_scanOffset : nat;
  r_err : option (herr E);
  r_srcDone : bool
}.

Definition newExceptionScanReader (src : source) (tag : gostring) : exceptionScanReader :=
  MkReader src tag [] 0 None false.

Definition set_offset (r : exceptionScanReader) (o : nat) : exceptionScanReader :=
  MkReader (r_src r) (r_tag r) (r_pending r) o (r_err r) (r_srcDone r).

Definition captureException (i : nat) (r : exceptionScanReader) : exceptionScanReader :=
  let '(rest, readErr, src) := readAll exceptionScanLimit (r_src r) in
  let e := parseExceptionFromBytes (drop i (r_pending r) ++ rest) in
  let e := match readErr with Some x => TruncatedBlock e x | None => e end in
  MkReader src (r_tag r) (take i (r_pending r)) (r_scanOffset r) (Some e) true.

(** [scan]: each round either ends or moves the offset behind a candidate. *)
Fixpoint scan_loop (fuel : nat) (r : exceptionScanReader) : exceptionScanReader :=
  match fuel with
  | O => r
  | S fuel =>
      let pending := r_pending r in
      match strings_IndexSub (drop (r_scanOffset r) pending) exceptionFrame with
      | None =>
          let cleared := (length pending - (length exceptionFrame - 1))%nat in
          if (r_scanOffset r <? cleared)%nat then set_offset r cleared else r
      | Some i =>
          let i := (i + r_scanOffset r)%nat in
          if decide (r_tag r = []) then captureException i r
          else
            let tagStart := (i + length exceptionFrame)%nat in
            let tagEnd := (tagStart + length (r_tag r) + 2)%nat in
            if (length pending <? tagEnd)%nat then
              if r_srcDone r then scan_loop fuel (set_offset r (i + 1)) else set_offset r i
            else if bool_decide (take (length (r_tag r)) (drop tagStart pending) = r_tag r)
                 && bool_decide (take 2 (drop (tagStart + length (r_tag r)) pending) = CRLF)
            then captureException i r
            else scan_loop fuel (set_offset r (i + 1))
      end
  end.

Definition scan (r : exceptionScanReader) : exceptionScanReader := scan_loop (S (length (r_pending r))) r.

(** The longest tail, of at most [k] bytes, that a frame begins with. *)
Fixpoint held_back (k : nat) (tail : gostring) : nat :=
  match k with
  | O => O
  | S k' => if bool_decide (drop (length tail - k) tail = take k exceptionFrame) then k else held_back k' tail
  end.

Definition safeLen (r : exceptionScanReader) : nat :=
  if r_srcDone r || bool_decide (is_Some (r_err r)) then length (r_pending r)
  else
    let tail := drop (r_scanOffset r) (r_pending r) in
    match strings_IndexSub tail exceptionFrame with
    | Some i => r_scanOffset r + i
    | None => length (r_pending r) - held_back ((length exceptionFrame - 1) `min` length tail) tail
    end.

(** What [Read] does with one read of the source. *)
Definition fill (r : exceptionScanReader) : exceptionScanReader :=
  let '(bs, err, src) := src_Read exceptionScanLimit (r_src r) in
  let done := match err with Some _ => true | None => r_srcDone r end in
  let e := match r_err r with
           | Some old => Some old
           | None => match err with Some (Some x) => Some (Io x) | _ => None end end in
  let r := MkReader src (r_tag r) (r_pending r ++ bs) (r_scanOffset r) e done in
  if (0 <? length bs)%nat || done then scan r else r.

Inductive read_result :=
| Bytes (bs : gostring)
| EndOfFile
| Failed (e : herr E).

(** [Read] of a buffer of [n] bytes; [None] when the fuel is spent. *)
Fixpoint Read_loop (fuel n : nat) (r : exceptionScanReader) : option (read_result * exceptionScanReader) :=
  match fuel with
  | O => None
  | S fuel =>
      let safe := safeLen r in
      if (0 <? safe)%nat then
        let bs := take n (take safe (r_pending r)) in
        Some (Bytes bs, MkReader (r_src r) (r_tag r) (drop (length bs) (r_pending r))
                          (r_scanOffset r - length bs) (r_err r) (r_srcDone r))
      else match r_err r with
           | Some e => Some (Failed e, r)
           | None => if r_srcDone r then Some (EndOfFile, r) else Read_loop fuel n (fill r)
           end
  end.

Definition reader_Read (n : nat) (r : exceptionScanReader) : option (read_result * exceptionScanReader) :=
  Read_loop (2 + reads_left (r_src r)) n r.

(** A caller that reads with buffers of these sizes until the end: what it got, and how
    the stream ended, if it did. *)
Fixpoint drain (sizes : list nat) (r : exceptionScanReader) : option (gostring * option (option (herr E))) :=
  match sizes with
  | [] => Some ([], None)
  | n :: sizes =>
      match reader_Read n r with
      | None => None
      | Some (Bytes bs, r) => '(got, e) ← drain sizes r; Some (bs ++ got, e)
      | Some (EndOfFile, _) => Some ([], Some None)
      | Some (Failed e, _) => Some ([], Some (Some e))
      end
  end.

(** ** The reference: where the first block starts in the whole body *)

(** What a block starts with: the marker line, and the line of the announced tag. *)
Definition block_start (tag : gostring) : gostring :=
  exceptionFrame ++ (if decide (tag = []) then [] else tag ++ CRLF).

(** The error of a block that starts the bytes [b]: it is parsed from all of them, or, when
    they are more than the limit, from a prefix of at least that many. *)
Definition block_error (ending : option E) (b : gostring) (e : option (herr E)) : Prop :=
  ∃ x err, e = Some (match err with Some c => TruncatedBlock (parseExceptionFromBytes x) c
                                  | None => parseExceptionFromBytes x end)
    ∧ x `prefix_of` b ∧ (err = None ∨ err = ending)
    ∧ (exceptionScanLimit ≤ length x ∨ x = b) ∧ (length b ≤ exceptionScanLimit → x = b ∧ err = ending).

(** What the caller must get from the body [R]: the bytes before the block and its error,
    or all bytes and the error of the transport. *)
Definition outcome (tag : gostring) (ending : option E) (R got : gostring) (e : option (herr E)) : Prop :=
  match strings_IndexSub R (block_start tag) with
  | None => got = R ∧ e = Io <$> ending
  | Some i => got = take i R ∧ block_error ending (drop i R) e
  end.

(** ** Occurrences *)

Definition clear (F R : gostring) (k : nat) : Prop := ∀ j, j < k → ¬ F `prefix_of` drop j R.

Lemma HasPrefix_prefix s p : HasPrefix s p = true ↔ p `prefix_of` s.
Proof.
  unfold HasPrefix. rewrite bool_decide_eq_true. split.
  - intros H. exists (drop (length p) s). rewrite <- H at 1. by rewrite take_drop.
  - intros [t ->]. apply take_app_length.
Qed.

Lemma IndexSub_first s p i : strings_IndexSub s p = Some i → p `prefix_of` drop i s ∧ clear p s i.
Proof.
  revert i. induction s as [|c s IH]; intros i; cbn [strings_IndexSub];
    destruct (HasPrefix _ p) eqn:Hp.
  - intros [= <-]. apply HasPrefix_prefix in Hp. split; [done|]. intros j Hj. lia.
  - done.
  - intros [= <-]. apply HasPrefix_prefix in Hp. split; [done|]. intros j Hj. lia.
  - destruct (strings_IndexSub s p) as [k|]; [|done]. intros [= <-]. destruct (IH k eq_refl) as [H1 H2].
    split; [done|]. intros [|j] Hj; [|apply H2; lia].
    rewrite drop_0. intros Hpre%HasPrefix_prefix. congruence.
Qed.

Lemma IndexSub_clear s p : strings_IndexSub s p = None → ∀ k, clear p s k.
Proof.
  induction s as [|c s IH]; cbn [strings_IndexSub]; destruct (HasPrefix _ p) eqn:Hp; try done; intros H k j _.
  - rewrite drop_nil. intros Hpre%HasPrefix_prefix. congruence.
  - destruct (strings_IndexSub s p) as [i|] eqn:Ei; [done|]. destruct j as [|j].
    + rewrite drop_0. intros Hpre%HasPrefix_prefix. congruence.
    + apply (IH eq_refl (S j)). lia.
Qed.

Lemma IndexSub_intro s p i : p `prefix_of` drop i s → clear p s i → i ≤ length s → strings_IndexSub s p = Some i.
Proof.
  intros Hp Hc Hi. destruct (strings_IndexSub s p) as [k|] eqn:Ek.
  - apply IndexSub_first in Ek as [Hk Hck]. f_equal. destruct (lt_eq_lt_dec i k) as [[H|H]|H]; [|done|].
    + by destruct (Hck i H).
    + by destruct (Hc k H).
  - by destruct (IndexSub_clear _ _ Ek (S i) i ltac:(lia)).
Qed.

(** Bytes in front of which there is no occurrence only shift it. *)
Lemma IndexSub_drop s p k : clear p s k → k ≤ length s →
  strings_IndexSub s p = Nat.add k <$> strings_IndexSub (drop k s) p.
Proof.
  intros Hc Hk. destruct (strings_IndexSub (drop k s) p) as [i|] eqn:Ei; cbn [fmap option_fmap option_map].
  - pose proof (IndexSub_Some _ _ _ Ei) as Hi. rewrite length_drop in Hi.
    apply IndexSub_first in Ei as [Hp Hci]. rewrite drop_drop in Hp. apply IndexSub_intro; [done| |lia].
    intros j Hj. destruct (decide (j < k)) as [H|H]; [by apply Hc|].
    specialize (Hci (j - k) ltac:(lia)). rewrite drop_drop in Hci.
    by replace (k + (j - k)) with j in Hci by lia.
  - destruct (strings_IndexSub s p) as [i|] eqn:Ek; [|done]. apply IndexSub_first in Ek as [Hp _].
    destruct (decide (i < k)) as [H|H]; [by destruct (Hc i H)|].
    exfalso. apply (IndexSub_clear _ _ Ei (S (i - k)) (i - k) ltac:(lia)). rewrite drop_drop.
    by replace (k + (i - k)) with i by lia.
Qed.

Lemma clear_drop p s k m : clear p s (k + m) → clear p (drop k s) m.
Proof. intros H j Hj. rewrite drop_drop. apply H. lia. Qed.

Lemma clear_mono p s k m : m ≤ k → clear p s k → clear p s m.
Proof. intros H Hc j Hj. apply Hc. lia. Qed.

Lemma clear_S p s k : clear p s k → ¬ p `prefix_of` drop k s → clear p s (S k).
Proof. intros Hc Hk j Hj. destruct (decide (j = k)) as [->|]; [done|]. apply Hc. lia. Qed.

(** A prefix that lies within the first part of a text. *)
Lemma prefix_within (p a b : gostring) j : p `prefix_of` drop j (a ++ b) → j + length p ≤ length a → p `prefix_of` drop j a.
Proof.
  intros [t H] Hle. rewrite drop_app_le in H by lia. exists (drop (length p) (drop j a)).
  assert (take (length p) (drop j a ++ b) = p) as Ht by (rewrite H; apply take_app_length).
  rewrite take_app_le in Ht by (rewrite length_drop; lia). rewrite <- Ht at 1. by rewrite take_drop.
Qed.

Lemma prefix_extend (p a b : gostring) j : p `prefix_of` drop j a → j ≤ length a → p `prefix_of` drop j (a ++ b).
Proof. intros [t H] Hj. exists (t ++ b). by rewrite drop_app_le, H, app_assoc. Qed.

Lemma prefix_length_at (p s : gostring) j : p `prefix_of` drop j s → 0 < length p → j + length p ≤ length s.
Proof. intros H%prefix_length Hp. rewrite length_drop in H. lia. Qed.

Lemma frame_of_block tag : exceptionFrame `prefix_of` block_start tag.
Proof. by eexists. Qed.

Lemma block_has_frame tag s : block_start tag `prefix_of` s → exceptionFrame `prefix_of` s.
Proof. intros H. etrans; [apply (frame_of_block tag)|done]. Qed.

(** ** The source *)

Lemma src_Read_spec cap s bs err s' :
  0 < cap → src_Read cap s = (bs, err, s') →
  body s = bs ++ body s' ∧ length bs ≤ cap ∧ s_end s' = s_end s
  ∧ match err with Some e => e = s_end s ∧ body s' = [] | None => reads_left s' < reads_left s end.
Proof.
  intros Hcap. unfold src_Read, reads_left, body. destruct (s_reads s) as [|c rest] eqn:Er.
  - intros [= <- <- <-]. rewrite Er. repeat split; simpl; lia.
  - destruct (cap <? length c) eqn:Ec; intros [= <- <- <-]; cbn [s_reads s_end concat].
    + split; [by rewrite app_assoc, take_drop|]. rewrite length_take. split; [lia|]. split; [done|].
      cbn [length]. rewrite !length_app, length_drop. lia.
    + split; [done|]. split; [lia|]. split; [done|].
      destruct (s_with_last s && bool_decide (rest = [])) eqn:El.
      * apply andb_true_iff in El as [_ ->%bool_decide_eq_true]. done.
      * cbn [length]. rewrite length_app. lia.
Qed.

Lemma readAll_loop_spec fuel : ∀ limit acc s, reads_left s < fuel →
  ∃ err s', readAll_loop fuel limit acc s = (acc ++ take limit (body s), err, s')
    ∧ (err = None ∨ err = s_end s) ∧ (length (body s) < limit → err = s_end s).
Proof.
  induction fuel as [|fuel IH]; intros limit acc s Hf; [lia|].
  destruct limit as [|limit].
  { exists None, s. rewrite take_0, app_nil_r. split; [done|]. split; [by left|lia]. }
  cbn [readAll_loop]. set (cap := S (grow (length acc)) `min` S limit).
  destruct (src_Read cap s) as [[bs err] s'] eqn:Er.
  apply src_Read_spec in Er as (Eb & Hlen & Ee & Herr); [|lia]. rewrite Eb. destruct err as [e|].
  - destruct Herr as [-> Hb]. exists (s_end s), s'. rewrite Hb, app_nil_r, take_ge by lia.
    split; [done|]. split; [by right|done].
  - destruct (IH (S limit - length bs) (acc ++ bs) s') as (err & s2 & E2 & H1 & H2); [lia|].
    rewrite Ee in H1, H2. exists err, s2. rewrite E2. split; [|split; [done|]].
    + by rewrite take_app, (take_ge bs), app_assoc by lia.
    + rewrite length_app. intros H. apply H2. lia.
Qed.

Lemma readAll_spec limit s : ∃ err s', readAll limit s = (take limit (body s), err, s')
  ∧ (err = None ∨ err = s_end s) ∧ (length (body s) < limit → err = s_end s).
Proof. apply (readAll_loop_spec _ limit []). lia. Qed.

(** ** The search in the pending bytes *)

Definition remaining (r : exceptionScanReader) : gostring := r_pending r ++ body (r_src r).

(** The offset has only bytes behind it that start no block. *)
Definition scanned (r : exceptionScanReader) : Prop :=
  r_scanOffset r ≤ length (r_pending r) ∧ clear (block_start (r_tag r)) (remaining r) (r_scanOffset r).

(** A frame that is complete in the pending bytes and the first one behind the offset. *)
Lemma first_frame r i : scanned r →
  strings_IndexSub (drop (r_scanOffset r) (r_pending r)) exceptionFrame = Some i →
  exceptionFrame `prefix_of` drop (i + r_scanOffset r) (r_pending r)
  ∧ (i + r_scanOffset r) + length exceptionFrame ≤ length (r_pending r)
  ∧ clear (block_start (r_tag r)) (remaining r) (i + r_scanOffset r).
Proof.
  intros [Ho Hc] Hi. apply IndexSub_first in Hi as [Hp Hci]. rewrite drop_drop, Nat.add_comm in Hp.
  pose proof (prefix_length_at _ _ _ Hp ltac:(simpl; lia)) as Hlen.
  split; [done|]. split; [done|]. intros j Hj Hb.
  destruct (decide (j < r_scanOffset r)) as [H|H]; [by apply (Hc j H)|].
  apply (Hci (j - r_scanOffset r)); [lia|]. rewrite drop_drop.
  replace (r_scanOffset r + (j - r_scanOffset r)) with j by lia.
  eapply prefix_within; [by apply block_has_frame in Hb|lia].
Qed.

(** Without a complete frame behind the offset, a block can start only in the last bytes. *)
Lemma no_frame r j : scanned r →
  strings_IndexSub (drop (r_scanOffset r) (r_pending r)) exceptionFrame = None →
  j + length exceptionFrame ≤ length (r_pending r) → ¬ block_start (r_tag r) `prefix_of` drop j (remaining r).
Proof.
  intros [Ho Hc] Hi Hj Hb. destruct (decide (j < r_scanOffset r)) as [H|H]; [by apply (Hc j H)|].
  apply (IndexSub_clear _ _ Hi (S (j - r_scanOffset r)) (j - r_scanOffset r)); [lia|]. rewrite drop_drop.
  replace (r_scanOffset r + (j - r_scanOffset r)) with j by lia.
  eapply prefix_within; [by apply block_has_frame in Hb|lia].
Qed.

(** The end of a search: the block has been captured, or the offset has moved and, when no
    more bytes come, there is no block. *)
Definition searched (r r' : exceptionScanReader) : Prop :=
  (∃ i o, strings_IndexSub (remaining r) (block_start (r_tag r)) = Some i
          ∧ i + length exceptionFrame ≤ length (r_pending r) ∧ r' = captureException i (set_offset r o))
  ∨ (∃ o, r' = set_offset r o ∧ scanned r'
          ∧ (r_srcDone r = true → strings_IndexSub (remaining r) (block_start (r_tag r)) = None)).

Lemma searched_offset r o r' : searched (set_offset r o) r' → searched r r'.
Proof. intros [(i & o' & H)|(o' & H)]; [left; by exists i, o'|right; by exists o']. Qed.

Lemma set_offset_same r : set_offset r (r_scanOffset r) = r.
Proof. by destruct r. Qed.

Lemma IndexSub_None_intro s p : p ≠ [] → (∀ j, ¬ p `prefix_of` drop j s) → strings_IndexSub s p = None.
Proof.
  intros Hp H. destruct (strings_IndexSub s p) as [i|] eqn:Ei; [|done].
  apply IndexSub_first in Ei as [Hi _]. by destruct (H i).
Qed.

Lemma block_start_tag tag : tag ≠ [] → block_start tag = exceptionFrame ++ tag ++ CRLF.
Proof. intros H. unfold block_start. by rewrite decide_False. Qed.

(** The comparison of the tag decides whether a candidate is a block. *)
Lemma tag_check (s tag : gostring) i :
  tag ≠ [] → exceptionFrame `prefix_of` drop i s → i + length exceptionFrame + length tag + 2 ≤ length s →
  take (length tag) (drop (i + length exceptionFrame) s) = tag ∧
  take 2 (drop (i + length exceptionFrame + length tag) s) = CRLF ↔ block_start tag `prefix_of` drop i s.
Proof.
  intros Ht [t Ef] Hlen. rewrite block_start_tag, <- !drop_drop, Ef, drop_app_length by done.
  assert (length t = length s - i - length exceptionFrame) as Hl.
  { apply (f_equal length) in Ef. rewrite length_drop, length_app in Ef. lia. }
  split.
  - intros [H1 H2]. exists (drop 2 (drop (length tag) t)). rewrite <- !app_assoc. f_equal.
    rewrite <- H2, take_drop. rewrite <- H1 at 1. by rewrite take_drop.
  - intros [u H]. rewrite <- !app_assoc in H. apply app_inv_head in H as ->.
    rewrite take_app_length, drop_app_length. done.
Qed.

Lemma scan_loop_spec fuel : ∀ r, length (r_pending r) - r_scanOffset r < fuel → scanned r →
  (r_srcDone r = true → body (r_src r) = []) → searched r (scan_loop fuel r).
Proof.
  assert (length exceptionFrame = 15) as H15 by done.
  induction fuel as [|fuel IH]; intros r Hf Hs Hd; [lia|]. cbn [scan_loop].
  destruct (strings_IndexSub (drop (r_scanOffset r) (r_pending r)) exceptionFrame) as [i|] eqn:Ei.
  - destruct (first_frame r i Hs Ei) as (Hp & Hlen & Hc).
    assert (r_scanOffset r ≤ i + r_scanOffset r) as Hok by lia. set (k := i + r_scanOffset r) in *.
    assert (k ≤ length (remaining r)) as Hkr by (unfold remaining; rewrite length_app; lia).
    assert (block_start (r_tag r) `prefix_of` drop k (remaining r) →
            searched r (captureException k r)) as Hcap.
    { intros Hb. left. exists k, (r_scanOffset r). rewrite set_offset_same.
      split; [by apply IndexSub_intro|done]. }
    assert (¬ block_start (r_tag r) `prefix_of` drop k (remaining r) →
            searched r (scan_loop fuel (set_offset r (k + 1)))) as Hnext.
    { intros Hb. apply (searched_offset r (k + 1)), IH; [cbn; lia| |done].
      split; [cbn; lia|]. cbn. rewrite Nat.add_1_r. by apply clear_S. }
    assert (scanned (set_offset r k)) as Hk by (split; [cbn; lia|done]).
    destruct (decide (r_tag r = [])) as [Et|Et].
    { apply Hcap. rewrite Et. change (block_start []) with (exceptionFrame ++ []). rewrite app_nil_r.
      apply prefix_extend; [done|lia]. }
    destruct (length (r_pending r) <? k + length exceptionFrame + length (r_tag r) + 2) eqn:El.
    + destruct (r_srcDone r) eqn:Esd.
      * apply Hnext. intros Hb. unfold remaining in Hb. rewrite Hd, app_nil_r, block_start_tag in Hb by done.
        apply prefix_length_at in Hb; [|simpl; lia]. rewrite !length_app in Hb. simpl in Hb, El. lia.
      * right. exists k. split; [done|]. split; [done|]. congruence.
    + assert (k + length exceptionFrame + length (r_tag r) + 2 ≤ length (r_pending r)) as Hle by lia.
      pose proof (tag_check (r_pending r) (r_tag r) k Et Hp Hle) as Hck.
      destruct (bool_decide _ && bool_decide _) eqn:Eb.
      * apply andb_true_iff in Eb as [H1%bool_decide_eq_true H2%bool_decide_eq_true].
        apply Hcap, prefix_extend; [by apply Hck|lia].
      * apply Hnext. intros Hb. unfold remaining in Hb. rewrite block_start_tag in Hb by done.
        apply prefix_within in Hb; [|rewrite !length_app; simpl; simpl in Hle; lia].
        rewrite <- block_start_tag in Hb by done. apply Hck in Hb as [H1 H2].
        apply andb_false_iff in Eb as [?%bool_decide_eq_false|?%bool_decide_eq_false]; done.
  - pose proof (no_frame r) as Hno. right.
    exists (if r_scanOffset r <? length (r_pending r) - (length exceptionFrame - 1)
            then length (r_pending r) - (length exceptionFrame - 1) else r_scanOffset r).
    split; [by destruct (_ <? _); [|rewrite set_offset_same]|]. split.
    + destruct (_ <? _) eqn:El; [|done]. split; cbn; [simpl; lia|].
      intros j Hj. apply Hno; [done|done|]. cbn in Hj |- *. lia.
    + intros Hdone. apply IndexSub_None_intro; [by unfold block_start|]. intros j Hb.
      pose proof Hb as Hb'. apply block_has_frame in Hb'. unfold remaining in Hb'. rewrite Hd, app_nil_r in Hb' by done.
      apply (Hno j); [done|done| |done]. apply prefix_length_at in Hb'; [done|simpl; lia].
Qed.

(** ** What may be handed out *)

Lemma held_back_le k tail : held_back k tail ≤ k.
Proof. induction k as [|k IH]; cbn [held_back]; [done|]. case_bool_decide; lia. Qed.

Lemma held_back_max k tail m : held_back k tail < m → m ≤ k →
  drop (length tail - m) tail ≠ take m exceptionFrame.
Proof.
  induction k as [|k IH]; cbn [held_back]; [lia|]. case_bool_decide as Hb; intros H1 H2; [lia|].
  destruct (decide (m = S k)) as [->|]; [done|]. apply IH; lia.
Qed.

Lemma safeLen_spec r : scanned r → r_srcDone r = false → r_err r = None →
  safeLen r ≤ length (r_pending r) ∧ clear (block_start (r_tag r)) (remaining r) (safeLen r).
Proof.
  intros Hs Hd He. assert (length exceptionFrame = 15) as H15 by done.
  unfold safeLen. rewrite Hd, He. cbn [orb].
  rewrite bool_decide_false by (intros [? ?]; done). set (tail := drop (r_scanOffset r) (r_pending r)).
  destruct (strings_IndexSub tail exceptionFrame) as [i|] eqn:Ei.
  - destruct (first_frame r i Hs Ei) as (_ & Hlen & Hc). rewrite Nat.add_comm. split; [lia|done].
  - set (k := held_back _ tail). split; [lia|]. intros j Hj Hb.
    destruct (decide (j + 15 ≤ length (r_pending r))) as [Hle|Hgt]; [by apply (no_frame r j Hs Ei); [lia|]|].
    destruct (decide (j < r_scanOffset r)) as [Hjo|Hjo]; [by apply (proj2 Hs j Hjo)|].
    assert (length tail = length (r_pending r) - r_scanOffset r) as Hlt by (unfold tail; by rewrite length_drop).
    set (m := length (r_pending r) - j). apply (held_back_max ((length exceptionFrame - 1) `min` length tail) tail m);
      [unfold m; fold k; lia|unfold m; lia|].
    unfold tail at 2. rewrite drop_drop.
    replace (r_scanOffset r + (length tail - m)) with j by (unfold m; destruct Hs; lia).
    apply block_has_frame in Hb as [u Hu]. unfold remaining in Hu. rewrite drop_app_le in Hu by lia.
    apply (f_equal (take m)) in Hu. assert (length (drop j (r_pending r)) = m) as Hm by (by rewrite length_drop).
    rewrite <- Hm, take_app_length, Hm in Hu. by rewrite take_app_le in Hu by (unfold m; lia).
Qed.

(** ** The invariant of the reader *)

(** [R] is what the caller has not got of the body. *)
Definition reading (tag : gostring) (ending : option E) (R : gostring) (r : exceptionScanReader) : Prop :=
  r_tag r = tag ∧
  ((r_srcDone r = false ∧ r_err r = None ∧ scanned r ∧ remaining r = R ∧ s_end (r_src r) = ending)
   ∨ (r_srcDone r = true ∧ outcome tag ending R (r_pending r) (r_err r))).

Lemma outcome_clear tag ending R got e : outcome tag ending R got e →
  got = take (length got) R ∧ length got ≤ length R ∧ clear (block_start tag) R (length got).
Proof.
  unfold outcome. destruct (strings_IndexSub R (block_start tag)) as [i|] eqn:Ei; intros [-> _].
  - pose proof (IndexSub_Some _ _ _ Ei). apply IndexSub_first in Ei as [_ Hc]. rewrite length_take.
    rewrite Nat.min_l by done. done.
  - rewrite take_ge by done. split; [done|]. split; [done|]. by apply IndexSub_clear.
Qed.

Lemma outcome_drop tag ending R got e k : outcome tag ending R got e → k ≤ length got →
  outcome tag ending (drop k R) (drop k got) e.
Proof.
  intros H Hk. destruct (outcome_clear _ _ _ _ _ H) as (_ & Hl & Hc). unfold outcome in *.
  rewrite (IndexSub_drop R (block_start tag) k) in H; [|by eapply clear_mono|lia].
  destruct (strings_IndexSub (drop k R) (block_start tag)) as [i|]; cbn [fmap option_fmap option_map] in H.
  - destruct H as [-> He]. rewrite drop_drop. split; [|done]. rewrite skipn_firstn_comm. f_equal. lia.
  - by destruct H as [-> ->].
Qed.

Lemma outcome_shift tag ending R k got e : clear (block_start tag) R k → k ≤ length R →
  outcome tag ending (drop k R) got e → outcome tag ending R (take k R ++ got) e.
Proof.
  intros Hc Hk H. unfold outcome in *. rewrite (IndexSub_drop R (block_start tag) k) by done.
  destruct (strings_IndexSub (drop k R) (block_start tag)) as [i|]; cbn [fmap option_fmap option_map].
  - destruct H as [-> He]. rewrite drop_drop in He. split; [|done]. by rewrite take_take_drop.
  - destruct H as [-> ->]. by rewrite take_drop.
Qed.

Lemma capture_outcome r i o :
  strings_IndexSub (remaining r) (block_start (r_tag r)) = Some i →
  i + length exceptionFrame ≤ length (r_pending r) →
  reading (r_tag r) (s_end (r_src r)) (remaining r) (captureException i (set_offset r o)).
Proof.
  intros Hi Hlen. assert (length exceptionFrame = 15) as H15 by done.
  unfold captureException. cbn [r_src r_pending set_offset r_tag r_scanOffset].
  destruct (readAll_spec exceptionScanLimit (r_src r)) as (err & s' & -> & Herr & Hshort).
  split; [done|]. right. split; [done|]. cbn [r_pending r_err]. unfold outcome. rewrite Hi.
  unfold remaining. rewrite take_app_le, drop_app_le by lia. split; [done|].
  exists (drop i (r_pending r) ++ take exceptionScanLimit (body (r_src r))), err.
  assert (length (drop i (r_pending r)) ≥ 15) as Hd by (rewrite length_drop; lia).
  split; [done|]. split; [|split; [done|split]].
  - apply prefix_app. exists (drop exceptionScanLimit (body (r_src r))). by rewrite take_drop.
  - rewrite length_app, length_take. destruct (decide (exceptionScanLimit ≤ length (body (r_src r)))); [left; lia|].
    right. by rewrite take_ge by lia.
  - rewrite length_app. intros Hle. rewrite take_ge by lia. split; [done|]. apply Hshort. lia.
Qed.

Lemma fill_reading tag ending R r :
  reading tag ending R r → r_srcDone r = false →
  reading tag ending R (fill r) ∧ (r_srcDone (fill r) = false → reads_left (r_src (fill r)) < reads_left (r_src r)).
Proof.
  intros [Ht [(Hd & He & Hs & HR & Hend)|(Hd & _)]] Hnd; [|congruence]. unfold fill.
  destruct (src_Read exceptionScanLimit (r_src r)) as [[bs err] src] eqn:Er.
  apply src_Read_spec in Er as (Eb & Hlen & Ee & Herr); [|unfold exceptionScanLimit; lia].
  rewrite Hd, He. cbn iota. set (e := match err with Some (Some x) => Some (Io x) | _ => None end).
  set (done := match err with Some _ => true | None => false end).
  set (r1 := MkReader src (r_tag r) (r_pending r ++ bs) (r_scanOffset r) e done).
  assert (remaining r1 = R) as HR1.
  { rewrite <- HR. unfold remaining, r1. cbn. by rewrite Eb, app_assoc. }
  assert (scanned r1) as Hs1.
  { destruct Hs as [Ho Hc]. unfold scanned. rewrite HR1. cbn. rewrite length_app. split; [lia|]. by rewrite <- HR. }
  assert (done = true → body src = []) as Hdone.
  { unfold done. destruct err; [|done]. by destruct Herr. }
  assert (done = false → e = None ∧ reads_left src < reads_left (r_src r)) as Hlive.
  { unfold done, e. by destruct err as [[]|]. }
  assert (done = true → e = Io <$> ending) as Hfin.
  { unfold done, e. destruct err as [x|]; [|done]. destruct Herr as [-> _]. by rewrite Hend. }
  destruct ((0 <? length bs) || done) eqn:Eg.
  - destruct (scan_loop_spec (S (length (r_pending r1))) r1) as [(i & o & Hi & Hl & Hr')|(o & Hr' & Hs' & Hno)];
      [lia|done|done| |]; unfold scan; rewrite Hr'.
    + pose proof (capture_outcome r1 i o Hi Hl) as Hcap. rewrite HR1 in Hcap. cbn [r1 r_tag r_src] in Hcap.
      rewrite Ee, Hend, Ht in Hcap. split; [done|]. intros Hx. exfalso. revert Hx. unfold captureException.
      by destruct (readAll _ _) as [[? ?] ?].
    + split; [|intros Hx; cbn in Hx |- *; by apply Hlive].
      split; [done|]. cbn [set_offset r_srcDone r_pending r_err r_src r1]. destruct done eqn:Edn.
      * right. split; [done|]. unfold outcome. rewrite HR1 in Hno. change (r_tag r1) with (r_tag r) in Hno. rewrite Ht in Hno.
        rewrite Hno by done. split; [|by apply Hfin]. rewrite <- HR1. unfold remaining. cbn.
        by rewrite Hdone, app_nil_r.
      * left. destruct Hlive as [Hen _]; [done|]. rewrite Hr' in Hs'. split; [done|]. split; [done|].
        split; [exact Hs'|]. split; [exact HR1|]. by rewrite Ee.
  - apply orb_false_iff in Eg as [_ Edn]. destruct (Hlive Edn) as [Hen Hrl].
    split; [|done]. split; [done|]. left. cbn. rewrite Edn, Hen in *. unfold r1 in *.
    split; [done|]. split; [done|]. split; [done|]. split; [done|]. by rewrite Ee.
Qed.

(** What one [Read] of a buffer that is not empty returns. *)
Definition read_ok (tag : gostring) (ending : option E) (R : gostring) (res : read_result) (r' : exceptionScanReader) : Prop :=
  match res with
  | Bytes bs => ∃ k, 0 < k ≤ length R ∧ bs = take k R ∧ clear (block_start tag) R k ∧ reading tag ending (drop k R) r'
  | EndOfFile => outcome tag ending R [] None ∧ reading tag ending R r'
  | Failed e => outcome tag ending R [] (Some e) ∧ reading tag ending R r'
  end.

Lemma serve_reading tag ending R r n : reading tag ending R r → 0 < safeLen r → 0 < n →
  let bs := take n (take (safeLen r) (r_pending r)) in
  read_ok tag ending R (Bytes bs)
    (MkReader (r_src r) (r_tag r) (drop (length bs) (r_pending r)) (r_scanOffset r - length bs) (r_err r) (r_srcDone r)).
Proof.
  intros [Ht Hr] Hsafe Hn bs.
  assert (safeLen r ≤ length (r_pending r) ∧ clear (block_start tag) R (safeLen r) ∧ r_pending r `prefix_of` R)
    as (Hle & Hc & Hp).
  { destruct Hr as [(Hd & He & Hs & HR & _)|(Hd & Ho)].
    - destruct (safeLen_spec r Hs Hd He) as [H1 H2]. rewrite <- Ht, <- HR. split; [done|]. split; [done|].
      by eexists.
    - unfold safeLen. rewrite Hd. cbn [orb]. apply outcome_clear in Ho as (E1 & E2 & E3). split; [done|].
      split; [done|]. rewrite E1. exists (drop (length (r_pending r)) R). by rewrite take_drop. }
  set (k := n `min` safeLen r). assert (bs = take k (r_pending r)) as Hbs by (unfold bs; by rewrite take_take).
  assert (length bs = k) as Hlen by (rewrite Hbs, length_take; unfold k; lia).
  pose proof (prefix_length _ _ Hp) as HpR.
  assert (bs = take k R) as HbR.
  { rewrite Hbs. destruct Hp as [u ->]. by rewrite take_app_le by (unfold k; lia). }
  assert (clear (block_start tag) R k) as Hck by (eapply clear_mono; [|exact Hc]; unfold k; lia).
  rewrite Hlen. exists k. split; [unfold k; lia|]. split; [done|]. split; [done|].
  split; [done|]. destruct Hr as [(Hd & He & [Ho Hsc] & HR & Hend)|(Hd & Ho)].
  - left. cbn [r_srcDone r_err r_src]. split; [done|]. split; [done|]. split; [|split; [|done]].
    + unfold scanned, remaining. cbn [r_pending r_src r_scanOffset r_tag]. split.
      * rewrite length_drop. lia.
      * rewrite <- drop_app_le by (unfold k; lia). change (r_pending r ++ body (r_src r)) with (remaining r).
        apply clear_drop. rewrite Ht, HR in *. destruct (decide (k ≤ r_scanOffset r)) as [H|H].
        -- by replace (k + (r_scanOffset r - k)) with (r_scanOffset r) by lia.
        -- by replace (k + (r_scanOffset r - k)) with k by lia.
    + unfold remaining. cbn [r_pending r_src]. rewrite <- drop_app_le by (unfold k; lia). by rewrite <- HR.
  - right. split; [done|]. cbn [r_pending r_err]. apply outcome_drop; [done|]. unfold k. lia.
Qed.

(** When nothing can be served, the end of the stream is the outcome. *)
Lemma end_reading tag ending R r : reading tag ending R r → safeLen r = 0 → r_srcDone r = true →
  outcome tag ending R [] (r_err r).
Proof.
  intros [_ [(Hd & _)|(Hd & Ho)]] H0 Hsd; [congruence|]. unfold safeLen in H0. rewrite Hsd in H0. cbn in H0.
  apply nil_length_inv in H0. by rewrite H0 in Ho.
Qed.

Lemma Read_loop_spec fuel tag ending n : 0 < n → ∀ R r, reading tag ending R r →
  (if r_srcDone r then 0 else S (reads_left (r_src r))) < fuel →
  ∃ res r', Read_loop fuel n r = Some (res, r') ∧ read_ok tag ending R res r'.
Proof.
  intros Hn. induction fuel as [|fuel IH]; intros R r Hr Hf; [lia|]. cbn [Read_loop].
  destruct (0 <? safeLen r) eqn:Es.
  - do 2 eexists. split; [done|]. apply serve_reading; [done|lia|done].
  - assert (safeLen r = 0) as H0 by lia. destruct (r_srcDone r) eqn:Hd.
    + pose proof (end_reading _ _ _ _ Hr H0 Hd) as Ho. destruct (r_err r) as [e|]; by do 2 eexists.
    + assert (r_err r = None) as ->. { destruct Hr as [_ [(_ & He & _)|(Hx & _)]]; [done|congruence]. }
      destruct (fill_reading tag ending R r Hr Hd) as [Hr' Hdec]. apply IH; [done|].
      destruct (r_srcDone (fill r)) eqn:Hd'; [lia|]. specialize (Hdec eq_refl). lia.
Qed.

Lemma drain_spec sizes tag ending : Forall (λ n, 0 < n) sizes → ∀ R r, reading tag ending R r →
  ∃ got e, drain sizes r = Some (got, e) ∧ got `prefix_of` R
    ∧ clear (block_start tag) R (length got)
    ∧ match e with Some err => outcome tag ending R got err | None => length sizes ≤ length got end.
Proof.
  induction 1 as [|n sizes Hn Hsz IH]; intros R r Hr; cbn [drain].
  { exists [], None. split; [done|]. split; [apply prefix_nil|]. split; [|done]. intros j Hj. simpl in Hj. lia. }
  destruct (Read_loop_spec (2 + reads_left (r_src r)) tag ending n Hn R r Hr) as (res & r' & Er & Hok).
  { destruct (r_srcDone r); lia. }
  unfold reader_Read. rewrite Er. destruct res as [bs| |e].
  - destruct Hok as (k & Hk & -> & Hc & Hr'). destruct (IH _ _ Hr') as (got & e & -> & [u Hu] & Hcl & He).
    exists (take k R ++ got), e. split; [done|].
    assert (length (take k R) = k) as Hlk by (rewrite length_take; lia). split; [|split].
    + exists u. by rewrite <- app_assoc, <- Hu, take_drop.
    + rewrite length_app, Hlk. intros j Hj. destruct (decide (j < k)) as [H|H]; [by apply Hc|].
      specialize (Hcl (j - k) ltac:(lia)). rewrite drop_drop in Hcl. by replace (k + (j - k)) with j in Hcl by lia.
    + destruct e as [err|]; [apply outcome_shift; [done|lia|done]|]. cbn [length]. rewrite length_app. lia.
  - exists [], (Some None). split; [done|]. split; [apply prefix_nil|]. split; [|apply Hok]. intros j Hj. simpl in Hj. lia.
  - exists [], (Some (Some e)). split; [done|]. split; [apply prefix_nil|]. split; [|apply Hok]. intros j Hj. simpl in Hj. lia.
Qed.

(** A read always returns, also one of an empty buffer. *)
Lemma Read_loop_total fuel n m r : is_Some (Read_loop fuel m r) → is_Some (Read_loop fuel n r).
Proof.
  revert r. induction fuel as [|fuel IH]; intros r; cbn [Read_loop]; [done|].
  destruct (0 <? safeLen r); [done|]. destruct (r_err r); [done|]. destruct (r_srcDone r); [done|]. apply IH.
Qed.

Lemma Read_loop_zero fuel r res r' : Read_loop fuel 0 r = Some (res, r') →
  ∀ tag ending R, reading tag ending R r → reading tag ending R r'.
Proof.
  revert r. induction fuel as [|fuel IH]; intros r; cbn [Read_loop]; [done|]. intros H tag ending R Hr.
  destruct (0 <? safeLen r).
  - simplify_eq. rewrite take_0. cbn [length]. rewrite drop_0, Nat.sub_0_r. by destruct r.
  - destruct (r_err r); [by simplify_eq|]. destruct (r_srcDone r) eqn:Hd; [by simplify_eq|].
    eapply IH; [exact H|]. by apply fill_reading.
Qed.

Lemma reader_Read_total n tag ending R r : reading tag ending R r →
  ∃ res r' R', reader_Read n r = Some (res, r') ∧ reading tag ending R' r'.
Proof.
  intros Hr. assert (∀ m, 0 < m → ∃ res r', reader_Read m r = Some (res, r') ∧ read_ok tag ending R res r') as H.
  { intros m Hm. apply Read_loop_spec; [done|done|]. destruct (r_srcDone r); lia. }
  destruct n as [|n].
  - destruct (H 1) as (res & r' & Er & _); [lia|].
    destruct (Read_loop_total (2 + reads_left (r_src r)) 0 1 r) as [[res0 r0] E0]; [by eexists|].
    exists res0, r0, R. split; [done|]. by eapply Read_loop_zero.
  - destruct (H (S n)) as (res & r' & Er & Hok); [lia|]. destruct res as [bs| |e].
    + destruct Hok as (k & _ & _ & _ & Hr'). by eauto.
    + exists EndOfFile, r', R. split; [done|apply Hok].
    + exists (Failed e), r', R. split; [done|apply Hok].
Qed.

Lemma new_reading src tag : reading tag (s_end src) (body src) (newExceptionScanReader src tag).
Proof. split; [done|]. left. split; [done|]. split; [done|]. split; [|done]. split; [done|]. intros j Hj. cbn in Hj. lia. Qed.

(** C5: however the body arrives and whatever buffers the caller reads with, reading
    terminates; the caller gets the bytes of the body in order and never a byte of an
    exception block: if it reads to the end, exactly the bytes before the first block that
    carries the announced tag, with the exception of the block as the error, or the whole
    body and the error of the transport when there is no block. *)
Theorem stream_stops_at_block (src : source) (tag : gostring) (sizes : list nat) :
  Forall (λ n, 0 < n) sizes →
  ∃ got e, drain sizes (newExceptionScanReader src tag) = Some (got, e)
    ∧ got `prefix_of` body src
    ∧ clear (block_start tag) (body src) (length got)
    ∧ (length (body src) < length sizes → is_Some e)
    ∧ (∀ err, e = Some err → outcome tag (s_end src) (body src) got err).
Proof.
  intros Hsz. destruct (drain_spec sizes tag (s_end src) Hsz (body src) (newExceptionScanReader src tag))
    as (got & e & Ed & Hp & Hc & He); [apply new_reading|].
  exists got, e. split; [done|]. split; [done|]. split; [done|]. apply prefix_length in Hp.
  destruct e as [err|]; [split; [done|]; by intros ? [= <-]|]. split; [lia|done].
Qed.

End stream.

(** A body in single bytes, with a quoted marker in front of the block. *)
Definition demo_source : @source nat :=
  MkSource (map (λ b, [b]) (str "a__exception__" ++ CRLF ++ str "b__exception" ++ exceptionMarker ++ CRLF ++ str "tag" ++ CRLF
                            ++ str "Code: 60. DB::Exception: no")) None true.

Lemma stream_stops_at_block_witness :
  drain (λ _, 3) (replicate 40 2) (newExceptionScanReader demo_source (str "tag"))
  = Some (str "a__exception__" ++ CRLF ++ str "b__exception",
          Some (Some (Server (MkException 60 (str "DB::Exception") [] (str "no") [] [] false))))
  ∧ clear (block_start (str "tag")) (body demo_source) 28.
Proof.
  destruct (stream_stops_at_block (λ _, 3) demo_source (str "tag") (replicate 40 2)) as (got & e & E1 & E2 & E3 & _).
  { apply Forall_replicate. lia. }
  assert (drain (λ _, 3) (replicate 40 2) (newExceptionScanReader demo_source (str "tag"))
    = Some (str "a__exception__" ++ CRLF ++ str "b__exception",
          Some (Some (Server (MkException 60 (str "DB::Exception") [] (str "no") [] [] false))))) as D
    by (vm_compute; reflexivity).
  split; [exact D|]. rewrite D in E1. injection E1 as <- <-. exact E3.
Defined.
