(* ===== verification/QueryContext.v ===== *)
(** * Options of a query in a context ([context.go], [client_info.go])

    A caller attaches options to a context with [Context]; every operation takes them out
    with [queryOptions] and then writes to them.  Settings and parameters are Go maps and
    the external tables a slice, which several contexts and the caller may share, so that
    they live in a heap: a map is the index of its contents, a slice the index of its
    array with a length.  A nil map or slice is [None]. *)

From Stdlib Require Import ZifyBool.
From S2P Require Import Prelude GoStd Wire ProtoPackets.

(** A value of a setting: a [CustomSetting] or another value. *)
Inductive setting_any := AnyValue (v : setting_value) | CustomSetting (value : gostring).

Abbreviation settings_map := (gmap gostring setting_any).
Abbreviation params_map := (gmap gostring gostring).

Record heap := MkHeap {
  h_settings : list settings_map;
  h_params : list params_map;
  h_arrays : list (list nat)      (* of external tables, by number; the length is the capacity *)
}.

Record slice := MkSlice { sl_array : nat; sl_len : nat }.

Record ClientInfo := MkClientInfo { Products : list (gostring * gostring); Comment : list gostring }.

(** [ClientInfo.Append] returns fresh slices. *)
Definition ClientInfo_Append (a b : ClientInfo) : ClientInfo :=
  MkClientInfo (Products a ++ Products b) (Comment a ++ Comment b).

Definition ClientName : gostring := str "clickhouse-go".
Definition client_version : gostring := str "2.48.0".

(** [ClientInfo.String]; [goVersion] is [runtime.Version()[2:]] and [goos] [runtime.GOOS]. *)
Definition ClientInfo_String (goVersion goos : gostring) (o : ClientInfo) : gostring :=
  strings_Join ((λ p, p.1 ++ str "/" ++ p.2) <$> Products o ++ [(ClientName, client_version)]) (str " ")
  ++ str " (" ++ strings_Join (Comment o ++ [str "lv:go/" ++ goVersion; str "os:" ++ goos]) (str "; ") ++ str ")".

(** [mapKeysInOrder] is the sorted list of keys. *)

(** The handlers of the events are numbers of functions. *)
Record QueryOptions := MkQO {
  o_span : nat;
  o_async : bool * bool;                (* ok, wait *)
  o_queryID : gostring;
  o_quotaKey : gostring;
  o_jwt : gostring;
  o_logs : option nat;
  o_progress : option nat;
  o_profileInfo : option nat;
  o_profileEvents : option nat;
  o_settings : option nat;
  o_parameters : option nat;
  o_external : option slice;
  o_blockBufferSize : Z;
  o_userLocation : option nat;
  o_columns : option (list (gostring * gostring));
  o_clientInfo : ClientInfo
}.

Definition noInfo : ClientInfo := MkClientInfo [] [].
Definition zeroOptions : QueryOptions :=
  MkQO 0 (false, false) [] [] [] None None None None None None None 0 None None noInfo.

(** Field updates. *)
Definition set_span v o := MkQO v (o_async o) (o_queryID o) (o_quotaKey o) (o_jwt o) (o_logs o) (o_progress o) (o_profileInfo o) (o_profileEvents o) (o_settings o) (o_parameters o) (o_external o) (o_blockBufferSize o) (o_userLocation o) (o_columns o) (o_clientInfo o).
Definition set_async v o := MkQO (o_span o) v (o_queryID o) (o_quotaKey o) (o_jwt o) (o_logs o) (o_progress o) (o_profileInfo o) (o_profileEvents o) (o_settings o) (o_parameters o) (o_external o) (o_blockBufferSize o) (o_userLocation o) (o_columns o) (o_clientInfo o).
Definition set_queryID v o := MkQO (o_span o) (o_async o) v (o_quotaKey o) (o_jwt o) (o_logs o) (o_progress o) (o_profileInfo o) (o_profileEvents o) (o_settings o) (o_parameters o) (o_external o) (o_blockBufferSize o) (o_userLocation o) (o_columns o) (o_clientInfo o).
Definition set_quotaKey v o := MkQO (o_span o) (o_async o) (o_queryID o) v (o_jwt o) (o_logs o) (o_progress o) (o_profileInfo o) (o_profileEvents o) (o_settings o) (o_parameters o) (o_external o) (o_blockBufferSize o) (o_userLocation o) (o_columns o) (o_clientInfo o).
Definition set_jwt v o := MkQO (o_span o) (o_async o) (o_queryID o) (o_quotaKey o) v (o_logs o) (o_progress o) (o_profileInfo o) (o_profileEvents o) (o_settings o) (o_parameters o) (o_external o) (o_blockBufferSize o) (o_userLocation o) (o_columns o) (o_clientInfo o).
Definition set_events l p i e o := MkQO (o_span o) (o_async o) (o_queryID o) (o_quotaKey o) (o_jwt o) l p i e (o_settings o) (o_parameters o) (o_external o) (o_blockBufferSize o) (o_userLocation o) (o_columns o) (o_clientInfo o).
Definition set_settings v o := MkQO (o_span o) (o_async o) (o_queryID o) (o_quotaKey o) (o_jwt o) (o_logs o) (o_progress o) (o_profileInfo o) (o_profileEvents o) v (o_parameters o) (o_external o) (o_blockBufferSize o) (o_userLocation o) (o_columns o) (o_clientInfo o).
Definition set_parameters v o := MkQO (o_span o) (o_async o) (o_queryID o) (o_quotaKey o) (o_jwt o) (o_logs o) (o_progress o) (o_profileInfo o) (o_profileEvents o) (o_settings o) v (o_external o) (o_blockBufferSize o) (o_userLocation o) (o_columns o) (o_clientInfo o).
Definition set_external v o := MkQO (o_span o) (o_async o) (o_queryID o) (o_quotaKey o) (o_jwt o) (o_logs o) (o_progress o) (o_profileInfo o) (o_profileEvents o) (o_settings o) (o_parameters o) v (o_blockBufferSize o) (o_userLocation o) (o_columns o) (o_clientInfo o).
Definition set_bufferSize v o := MkQO (o_span o) (o_async o) (o_queryID o) (o_quotaKey o) (o_jwt o) (o_logs o) (o_progress o) (o_profileInfo o) (o_profileEvents o) (o_settings o) (o_parameters o) (o_external o) v (o_userLocation o) (o_columns o) (o_clientInfo o).
Definition set_location v o := MkQO (o_span o) (o_async o) (o_queryID o) (o_quotaKey o) (o_jwt o) (o_logs o) (o_progress o) (o_profileInfo o) (o_profileEvents o) (o_settings o) (o_parameters o) (o_external o) (o_blockBufferSize o) v (o_columns o) (o_clientInfo o).
Definition set_columns v o := MkQO (o_span o) (o_async o) (o_queryID o) (o_quotaKey o) (o_jwt o) (o_logs o) (o_progress o) (o_profileInfo o) (o_profileEvents o) (o_settings o) (o_parameters o) (o_external o) (o_blockBufferSize o) (o_userLocation o) v (o_clientInfo o).
Definition set_clientInfo v o := MkQO (o_span o) (o_async o) (o_queryID o) (o_quotaKey o) (o_jwt o) (o_logs o) (o_progress o) (o_profileInfo o) (o_profileEvents o) (o_settings o) (o_parameters o) (o_external o) (o_blockBufferSize o) (o_userLocation o) (o_columns o) v.

(** ** The heap *)

Definition new_settings (m : settings_map) (h : heap) : nat * heap :=
  (length (h_settings h), MkHeap (h_settings h ++ [m]) (h_params h) (h_arrays h)).
Definition new_params (m : params_map) (h : heap) : nat * heap :=
  (length (h_params h), MkHeap (h_settings h) (h_params h ++ [m]) (h_arrays h)).

Definition read_settings (h : heap) (a : option nat) : settings_map :=
  match a with Some a => default ∅ (h_settings h !! a) | None => ∅ end.
Definition read_params (h : heap) (a : option nat) : params_map :=
  match a with Some a => default ∅ (h_params h !! a) | None => ∅ end.
Definition read_slice (h : heap) (s : option slice) : list nat :=
  match s with Some s => take (sl_len s) (default [] (h_arrays h !! sl_array s)) | None => [] end.

(** [m[k] = v]; writing to a nil map panics. *)
Definition put_setting (a : option nat) (k : gostring) (v : setting_any) (h : heap) : option heap :=
  a ← a; Some (MkHeap (alter (insert k v) a (h_settings h)) (h_params h) (h_arrays h)).

(** [append(s, xs...)]: in place while the array has room, else in a new array, whose
    capacity [grow cap need] is at least what is needed. *)
Section append.
Context (grow : nat → nat → nat).

Definition slice_append (s : option slice) (xs : list nat) (h : heap) : option slice * heap :=
  if decide (xs = []) then (s, h)
  else
    let old := read_slice h s in
    let '(arr, len, cap) := match s with
                            | Some s => (sl_array s, sl_len s, length (default [] (h_arrays h !! sl_array s)))
                            | None => (0, 0, 0) end in
    let need := (len + length xs)%nat in
    match s with
    | Some _ =>
        if (need <=? cap)%nat then
          (Some (MkSlice arr need),
           MkHeap (h_settings h) (h_params h) (alter (λ l, take len l ++ xs ++ drop need l) arr (h_arrays h)))
        else
          (Some (MkSlice (length (h_arrays h)) need),
           MkHeap (h_settings h) (h_params h) (h_arrays h ++ [old ++ xs ++ replicate (grow cap need - need) 0]))
    | None =>
        (Some (MkSlice (length (h_arrays h)) need),
         MkHeap (h_settings h) (h_params h) (h_arrays h ++ [xs ++ replicate (grow 0 need - need) 0]))
    end.

(** ** The options *)

Inductive QueryOption :=
| WithSpan (v : nat)
| WithQueryID (v : gostring)
| WithBlockBufferSize (v : Z)
| WithQuotaKey (v : gostring)
| WithJWT (v : gostring)
| WithColumnNamesAndTypes (v : option (list (gostring * gostring)))
| WithClientInfo (v : ClientInfo)
| WithSettings (v : option nat)
| WithParameters (v : option nat)
| WithLogs (v : option nat)
| WithProgress (v : option nat)
| WithProfileInfo (v : option nat)
| WithProfileEvents (v : option nat)
| WithExternalTable (ts : list nat)
| WithAsync (wait : bool)
| WithUserLocation (v : option nat)
| ignoreExternalTables
| WithoutProfileEvents.

Definition send_profile_events : gostring := str "send_profile_events".

Definition apply_option (f : QueryOption) (ho : heap * QueryOptions) : heap * QueryOptions :=
  let '(h, o) := ho in
  match f with
  | WithSpan v => (h, set_span v o)
  | WithQueryID v => (h, set_queryID v o)
  | WithBlockBufferSize v => (h, set_bufferSize v o)
  | WithQuotaKey v => (h, set_quotaKey v o)
  | WithJWT v => (h, set_jwt v o)
  | WithColumnNamesAndTypes v => (h, set_columns v o)
  | WithClientInfo v => (h, set_clientInfo (ClientInfo_Append (o_clientInfo o) v) o)
  | WithSettings v => (h, set_settings v o)
  | WithParameters v => (h, set_parameters v o)
  | WithLogs v => (h, set_events v (o_progress o) (o_profileInfo o) (o_profileEvents o) o)
  | WithProgress v => (h, set_events (o_logs o) v (o_profileInfo o) (o_profileEvents o) o)
  | WithProfileInfo v => (h, set_events (o_logs o) (o_progress o) v (o_profileEvents o) o)
  | WithProfileEvents v => (h, set_events (o_logs o) (o_progress o) (o_profileInfo o) v o)
  | WithExternalTable ts => let '(s, h) := slice_append (o_external o) ts h in (h, set_external s o)
  | WithAsync wait => (h, set_async (true, wait) o)
  | WithUserLocation v => (h, set_location v o)
  | ignoreExternalTables => (h, set_external None o)
  | WithoutProfileEvents =>
      let '(a, h) := match o_settings o with Some a => (a, h) | None => new_settings ∅ h end in
      (MkHeap (alter (insert send_profile_events (AnyValue (SInt 0))) a (h_settings h)) (h_params h) (h_arrays h),
       set_settings (Some a) o)
  end.

(** A context: the value of the key, and the time until the deadline in nanoseconds. *)
Record context := MkContext { c_options : option QueryOptions; c_until : option Z }.

Definition Context (parent : context) (options : list QueryOption) (h : heap) : heap * context :=
  let opt := default zeroOptions (c_options parent) in
  let '(h, opt) := foldl (λ ho f, apply_option f ho) (h, opt) options in
  let '(h, opt) := match o_settings opt with
                   | None => let '(a, h) := new_settings ∅ h in (h, set_settings (Some a) opt)
                   | Some _ => (h, opt) end in
  (h, MkContext (Some opt) (c_until parent)).

(** [clone]: new maps with the same contents; the tables are shared. *)
Definition clone (q : QueryOptions) (h : heap) : heap * QueryOptions :=
  let '(st, h) := match o_settings q with
                  | Some a => let '(a', h') := new_settings (read_settings h (Some a)) h in (Some a', h')
                  | None => (None, h) end in
  let '(ps, h) := match o_parameters q with
                  | Some a => let '(a', h') := new_params (read_params h (Some a)) h in (Some a', h')
                  | None => (None, h) end in
  (h, set_parameters ps (set_settings st q)).

(** The seconds of a duration: exact, where the code goes through a float that is exact
    to the second for every duration below 2^22 seconds. *)
Definition max_execution_time (until : Z) : option setting_any :=
  if (1000000000 <? until)%Z then Some (AnyValue (SInt (until / 1000000000 + 5))) else None.

(** [queryOptions]; [None] is a write to a nil map. *)
Definition queryOptions (ctx : context) (h : heap) : option (heap * QueryOptions) :=
  let '(h, opt) := match c_options ctx with
                   | Some o => clone o h
                   | None => let '(a, h) := new_settings ∅ h in (h, set_settings (Some a) zeroOptions) end in
  match c_until ctx ≫= max_execution_time with
  | None => Some (h, opt)
  | Some v => h ← put_setting (o_settings opt) (str "max_execution_time") v h; Some (h, opt)
  end.

Definition queryOptionsAsync (ctx : context) : bool * bool :=
  match c_options ctx with Some o => o_async o | None => (false, false) end.
Definition queryOptionsUserLocation (ctx : context) : option nat := c_options ctx ≫= o_userLocation.
End append.

(** ** What a holder of options sees *)

(** The contents behind the maps and the slice. *)
Definition view (h : heap) (o : QueryOptions) : settings_map * params_map * list nat :=
  (read_settings h (o_settings o), read_params h (o_parameters o), read_slice h (o_external o)).

Definition view_of (h : heap) (c : context) : option (settings_map * params_map * list nat) := view h <$> c_options c.

Definition addr_ok {A} (l : list A) (a : option nat) : Prop := ∀ i, a = Some i → i < length l.
Definition options_ok (h : heap) (o : QueryOptions) : Prop :=
  addr_ok (h_settings h) (o_settings o) ∧ addr_ok (h_params h) (o_parameters o)
  ∧ addr_ok (h_arrays h) (sl_array <$> o_external o).

(** A context [Context] has made: its settings are never nil. *)
Definition context_ok (h : heap) (c : context) : Prop :=
  ∀ o, c_options c = Some o → options_ok h o ∧ is_Some (o_settings o).

(** The maps of the caller that options name exist. *)
Definition option_ok (h : heap) (f : QueryOption) : Prop :=
  match f with
  | WithSettings v => addr_ok (h_settings h) v
  | WithParameters v => addr_ok (h_params h) v
  | _ => True
  end.

(** Options that write to what they are given instead of replacing it. *)
Definition writes (f : QueryOption) : bool :=
  match f with WithoutProfileEvents | WithExternalTable _ => true | _ => false end.

(** A heap that has everything of an older one. *)
Definition extends (h h' : heap) : Prop :=
  h_settings h `prefix_of` h_settings h' ∧ h_params h `prefix_of` h_params h' ∧ h_arrays h `prefix_of` h_arrays h'.

#[export] Instance extends_preorder : PreOrder extends.
Proof.
  split; [done|]. intros a b c (H1 & H2 & H3) (G1 & G2 & G3). split; [by etrans|]. split; by etrans.
Qed.

Lemma extends_settings h m : extends h (snd (new_settings m h)).
Proof. split; [by eexists|]. split; done. Qed.

Lemma extends_params h m : extends h (snd (new_params m h)).
Proof. split; [done|]. split; [by eexists|done]. Qed.

Lemma addr_extends {A} (l l' : list A) a : l `prefix_of` l' → addr_ok l a → addr_ok l' a.
Proof. intros H%prefix_length Ha i Hi. specialize (Ha i Hi). lia. Qed.

Lemma lookup_extends {A} (l l' : list A) i : l `prefix_of` l' → i < length l → l' !! i = l !! i.
Proof. intros [k ->] Hi. by rewrite lookup_app_l. Qed.

Lemma view_extends h h' o : extends h h' → options_ok h o → view h' o = view h o.
Proof.
  intros (H1 & H2 & H3) (O1 & O2 & O3). unfold view, read_settings, read_params, read_slice.
  f_equal; [f_equal|].
  - destruct (o_settings o) as [a|]; [|done]. by rewrite (lookup_extends _ _ _ H1) by by apply O1.
  - destruct (o_parameters o) as [a|]; [|done]. by rewrite (lookup_extends _ _ _ H2) by by apply O2.
  - destruct (o_external o) as [s|]; [|done]. by rewrite (lookup_extends _ _ _ H3) by by apply O3.
Qed.

Lemma options_extends h h' o : extends h h' → options_ok h o → options_ok h' o.
Proof. intros (H1 & H2 & H3) (O1 & O2 & O3). split; [|split]; by eapply addr_extends. Qed.

(** Addresses stay valid under a write. *)
Definition same_size (h h' : heap) : Prop :=
  length (h_settings h) ≤ length (h_settings h') ∧ length (h_params h) ≤ length (h_params h')
  ∧ length (h_arrays h) ≤ length (h_arrays h').

Lemma addr_size {A} (l l' : list A) a : length l ≤ length l' → addr_ok l a → addr_ok l' a.
Proof. intros H Ha i Hi. specialize (Ha i Hi). lia. Qed.

Lemma options_size h h' o : same_size h h' → options_ok h o → options_ok h' o.
Proof. intros (H1 & H2 & H3) (O1 & O2 & O3). split; [|split]; by eapply addr_size. Qed.

Section laws.
Context (grow : nat → nat → nat).

Lemma slice_append_ok s xs h s' h' : slice_append grow s xs h = (s', h') → addr_ok (h_arrays h) (sl_array <$> s) →
  same_size h h' ∧ addr_ok (h_arrays h') (sl_array <$> s').
Proof.
  unfold slice_append. destruct (decide (xs = [])) as [Hx|Hx]; [intros [= <- <-]; done|].
  intros Hs Ha. destruct s as [s|]; [destruct (_ <=? _)|]; simplify_eq;
    unfold same_size; cbn [h_arrays h_settings h_params].
  - split; [split; [done|split; [done|]]; by rewrite length_alter|]. intros i [= <-]. rewrite length_alter. by apply Ha.
  - split; [split; [done|split; [done|]]; rewrite length_app; lia|]. intros i [= <-]. rewrite length_app. simpl. lia.
  - split; [split; [done|split; [done|]]; rewrite length_app; lia|]. intros i [= <-]. rewrite length_app. simpl. lia.
Qed.

Lemma apply_option_ok f h o h' o' : apply_option grow f (h, o) = (h', o') → options_ok h o → option_ok h f →
  same_size h h' ∧ options_ok h' o' ∧ (writes f = false → h' = h).
Proof.
  intros Hf Ho Hof. assert (same_size h h) as Hss by done. destruct Ho as (O1 & O2 & O3).
  destruct f; cbn [apply_option] in Hf; simplify_eq;
    try (split; [done|]; split; [split; [done|]; split; done|done]).
  - destruct (slice_append grow (o_external o) ts h) as [s h1] eqn:Es. simplify_eq.
    destruct (slice_append_ok _ _ _ _ _ Es O3) as [H1 H2]. split; [done|]. split; [|done].
    split; [eapply addr_size; [apply H1|done]|]. split; [eapply addr_size; [apply H1|done]|done].
  - destruct (o_settings o) as [a|] eqn:Ea; cbn [new_settings] in Hf; simplify_eq; unfold same_size, options_ok;
      cbn [h_settings h_params h_arrays o_settings o_parameters o_external set_settings];
      rewrite length_alter; (split; [split; [rewrite ?length_app; lia|done]|]); (split; [|done]);
      (split; [|done]); intros i [= <-]; rewrite length_alter, ?length_app; simpl; [by apply O1|lia].
Qed.

Lemma apply_options_ok fs : ∀ h o h' o',
  foldl (λ ho f, apply_option grow f ho) (h, o) fs = (h', o') → options_ok h o → Forall (option_ok h) fs →
  same_size h h' ∧ options_ok h' o' ∧ (existsb writes fs = false → h' = h).
Proof.
  induction fs as [|f fs IH]; intros h o h' o' E Ho Hfs; [by cbn [foldl] in E; simplify_eq|].
  cbn [foldl] in E. destruct (apply_option grow f (h, o)) as [h1 o1] eqn:E1.
  apply Forall_cons in Hfs as [Hf Hfs]. destruct (apply_option_ok _ _ _ _ _ E1 Ho Hf) as ((S1 & S2 & S3) & Ho1 & Hw1).
  destruct (IH _ _ _ _ E Ho1) as ((T1 & T2 & T3) & Ho' & Hw).
  { eapply Forall_impl; [exact Hfs|]. intros g Hg. destruct g; cbn in *; try done; by eapply addr_size. }
  split; [split; [lia|]; split; lia|]. split; [done|]. cbn [existsb]. intros [H1 H2]%orb_false_iff.
  rewrite Hw by done. by apply Hw1.
Qed.

Lemma Context_ok parent fs h h' c : Context grow parent fs h = (h', c) →
  context_ok h parent → Forall (option_ok h) fs →
  context_ok h' c ∧ is_Some (c_options c) ∧ c_until c = c_until parent ∧ (existsb writes fs = false → extends h h').
Proof.
  unfold Context. intros E Hp Hfs.
  destruct (foldl _ _ fs) as [h1 o1] eqn:E1.
  destruct (apply_options_ok _ _ _ _ _ E1) as (Hs & Ho & Hw); [|done|].
  { destruct (c_options parent) as [o|] eqn:Eo; [by apply Hp|]. done. }
  destruct (o_settings o1) as [a|] eqn:Ea; cbn [new_settings] in E; simplify_eq.
  - split; [|split; [done|split; [done|]]].
    + intros o [= <-]. split; [done|]. rewrite Ea. done.
    + intros H. by rewrite Hw.
  - split; [|split; [done|split; [done|]]].
    + intros o [= <-]. split; [|done]. destruct Ho as (O1 & O2 & O3). split; [|split; done].
      intros i [= <-]. cbn. rewrite length_app. simpl. lia.
    + intros H. rewrite (Hw H). apply extends_settings.
Qed.

(** Writes of an operation to the maps of its own options. *)
Definition write_own (f : settings_map → settings_map) (g : params_map → params_map) (o : QueryOptions) (h : heap) : heap :=
  MkHeap (match o_settings o with Some a => alter f a (h_settings h) | None => h_settings h end)
         (match o_parameters o with Some a => alter g a (h_params h) | None => h_params h end) (h_arrays h).

(** Options whose maps are newer than a heap. *)
Definition fresh_for (h : heap) (o : QueryOptions) : Prop :=
  (∀ a, o_settings o = Some a → length (h_settings h) ≤ a) ∧ (∀ a, o_parameters o = Some a → length (h_params h) ≤ a).

Lemma prefix_alter {A} (f : A → A) (l l' : list A) a : l `prefix_of` l' → length l ≤ a → l `prefix_of` alter f a l'.
Proof.
  intros [k ->] Ha. exists (alter f (a - length l) k). replace a with (length l + (a - length l)) at 1 by lia.
  apply alter_app_r.
Qed.

Lemma write_own_extends h h' f g o : extends h h' → fresh_for h o → extends h (write_own f g o h').
Proof.
  intros (H1 & H2 & H3) [F1 F2]. unfold write_own. split; [|split]; cbn; [| |done].
  - destruct (o_settings o); [|done]. apply prefix_alter; [done|]. by apply F1.
  - destruct (o_parameters o); [|done]. apply prefix_alter; [done|]. by apply F2.
Qed.

(** The settings an operation starts from. *)
Definition with_deadline (c : context) (m : settings_map) : settings_map :=
  match c_until c ≫= max_execution_time with Some v => <[str "max_execution_time" := v]> m | None => m end.


Lemma clone_spec q h h' o : clone q h = (h', o) → options_ok h q →
  extends h h' ∧ fresh_for h o ∧ options_ok h' o ∧ view h' o = view h q
  ∧ (is_Some (o_settings q) → is_Some (o_settings o))
  ∧ set_parameters None (set_settings None o) = set_parameters None (set_settings None q).
Proof.
  unfold clone. intros E Hq. pose proof Hq as (Q1 & Q2 & Q3).
  destruct (o_settings q) as [a|] eqn:Ea, (o_parameters q) as [b|] eqn:Eb; cbn [new_settings new_params] in E; simplify_eq.
  all: unfold extends, fresh_for, options_ok, view, read_settings, read_params, read_slice; cbn.
  all: rewrite ?Ea, ?Eb in *.
  all: split; [split; [try by eexists|split; [try by eexists|done]]; done|].
  all: split; [split; intros ? ?; simplify_eq; done|].
  all: split; [split; [|split; [|done]]; intros ? ?; simplify_eq; rewrite length_app; simpl; lia|].
  all: split; [rewrite ?lookup_app_r, ?Nat.sub_diag by done; done|].
  all: split; [done|done].
Qed.

(** The deadline is written to the clone and to nothing else. *)
Lemma deadline_write h o c : is_Some (o_settings o) → options_ok h o →
  ∃ h', match c_until c ≫= max_execution_time with
        | None => Some (h, o)
        | Some v => h' ← put_setting (o_settings o) (str "max_execution_time") v h; Some (h', o)
        end = Some (h', o)
    ∧ h' = write_own (with_deadline c) id o h
    ∧ view h' o = (with_deadline c (view h o).1.1, (view h o).1.2, (view h o).2).
Proof.
  intros [a Ha] (O1 & O2 & O3).
  assert (∀ g : settings_map → settings_map, h_settings (write_own g id o h) = alter g a (h_settings h)) as Hset
    by (intros g; unfold write_own; by rewrite Ha).
  assert (∀ g, write_own g id o h = MkHeap (alter g a (h_settings h)) (h_params h) (h_arrays h)) as Hown.
  { intros g. unfold write_own. rewrite Ha. f_equal. destruct (o_parameters o); [|done]. apply list_alter_id. done. }
  assert (∀ g, view (write_own g id o h) o = (g (view h o).1.1, (view h o).1.2, (view h o).2)) as Hview.
  { intros g. rewrite Hown. unfold view, read_settings, read_params, read_slice. rewrite Ha. cbn.
    rewrite list_lookup_alter_eq. destruct (lookup_lt_is_Some_2 (h_settings h) a (O1 a Ha)) as [m Hm]. by rewrite Hm. }
  unfold with_deadline. destruct (c_until c ≫= max_execution_time) as [v|].
  - eexists. split; [|split; [done|apply Hview]]. unfold put_setting. rewrite Ha. cbn. by rewrite Hown.
  - eexists. split; [done|]. split; [|done]. rewrite Hown. rewrite list_alter_id by done. by destruct h.
Qed.

Lemma queryOptions_spec c h : context_ok h c → is_Some (c_options c) →
  ∃ q h' o, c_options c = Some q ∧ queryOptions c h = Some (h', o)
    ∧ extends h h' ∧ fresh_for h o
    ∧ view h' o = (with_deadline c (view h q).1.1, (view h q).1.2, (view h q).2)
    ∧ set_parameters None (set_settings None o) = set_parameters None (set_settings None q).
Proof.
  intros Hc [q Hq]. destruct (Hc q Hq) as [Hqok Hst]. exists q. unfold queryOptions. rewrite Hq.
  destruct (clone q h) as [h1 o] eqn:E.
  destruct (clone_spec _ _ _ _ E Hqok) as (Hext & Hf & Hok & Hv & Hs & Hrest).
  destruct (deadline_write h1 o c (Hs Hst) Hok) as (h2 & E2 & -> & Hv2). rewrite Hv in Hv2.
  exists (write_own (with_deadline c) id o h1), o. split; [done|]. split; [done|].
  split; [by apply write_own_extends|]. done.
Qed.

(** C22: an operation gets options of its own.  From a context made with [Context] they are
    those of the context, with the deadline in the settings; and whatever the operation
    writes to its settings and parameters, no context sees it.  Making a context leaves
    every other context as it is, unless the options write to shared ones. *)
Theorem options_are_private (parent : context) (fs : list QueryOption) (h h1 : heap) (c : context) :
  context_ok h parent → Forall (option_ok h) fs → Context grow parent fs h = (h1, c) →
  ∃ q h2 o, c_options c = Some q ∧ queryOptions c h1 = Some (h2, o)
    ∧ view h2 o = (with_deadline c (view h1 q).1.1, (view h1 q).1.2, (view h1 q).2)
    ∧ set_parameters None (set_settings None o) = set_parameters None (set_settings None q)
    ∧ (∀ f g d, context_ok h1 d → view_of (write_own f g o h2) d = view_of h1 d)
    ∧ (existsb writes fs = false → ∀ d, context_ok h d → view_of h1 d = view_of h d).
Proof.
  intros Hp Hfs E. destruct (Context_ok _ _ _ _ _ E Hp Hfs) as (Hok & Hsome & _ & Hleave).
  destruct (queryOptions_spec c h1 Hok Hsome) as (q & h2 & o & Eq & Eo & Hext & Hf & Hv & Hrest).
  exists q, h2, o. split; [done|]. split; [done|]. split; [done|]. split; [done|]. split.
  - intros f g d Hd. unfold view_of. destruct (c_options d) as [od|] eqn:Ed; [|done]. cbn. f_equal.
    apply view_extends; [by apply write_own_extends|]. by apply Hd.
  - intros Hw d Hd. unfold view_of. destruct (c_options d) as [od|] eqn:Ed; [|done]. cbn. f_equal.
    apply view_extends; [by apply Hleave|]. by apply Hd.
Qed.
End laws.

(** Settings of the caller, a deadline in ten seconds. *)
Definition demo_heap : heap := MkHeap [{[ str "max_threads" := AnyValue (SInt 4) ]}] [] [].
Definition background : context := MkContext None (Some 10000000000%Z).

Definition demo_context : context :=
  MkContext (Some (set_queryID (str "q") (set_settings (Some 0) zeroOptions))) (Some 10000000000%Z).

Lemma options_are_private_witness :
  let '(h1, c) := Context (λ _ need, need) background [WithSettings (Some 0); WithQueryID (str "q")] demo_heap in
  match queryOptions c h1 with
  | Some (h2, o) => (view h2 o).1.1 = <[str "max_execution_time" := AnyValue (SInt 15)]> {[ str "max_threads" := AnyValue (SInt 4) ]}
      ∧ view_of (write_own (λ _, ∅) id o h2) c = view_of h1 c
  | None => False
  end.
Proof.
  destruct (options_are_private (λ _ need, need) background [WithSettings (Some 0); WithQueryID (str "q")]
    demo_heap demo_heap demo_context ltac:(done) ltac:(constructor; [intros i [= <-]; simpl; lia|constructor; done]) eq_refl)
    as (q & h2 & o & Eq & Eo & Hv & _ & Hw & _).
  change (Context (λ _ need, need) background [WithSettings (Some 0); WithQueryID (str "q")] demo_heap)
    with (demo_heap, demo_context).
  cbn iota beta. rewrite Eo, Hv. injection Eq as <-. split; [reflexivity|]. apply (Hw (λ _, ∅) id). intros q [= <-].
  split; [|done]. split; [intros i [= <-]; simpl; lia|]. split; intros i; done.
Defined.

(** Two options write to what they are given.  [WithoutProfileEvents] on a derived context
    changes the settings of its parent, and the map the caller passed to it. *)
Lemma without_profile_events_leaks :
  let '(h1, parent) := Context (λ _ need, need) background [WithSettings (Some 0)] demo_heap in
  let '(h2, _) := Context (λ _ need, need) parent [WithoutProfileEvents] h1 in
  match c_options parent with
  | Some q => (view h1 q).1.1 !! send_profile_events = None
              ∧ (view h2 q).1.1 !! send_profile_events = Some (AnyValue (SInt 0))
  | None => False
  end.
Proof. vm_compute. done. Qed.

(** Two contexts derived from one with room in its slice of tables share the room: the
    second takes the place of the first one's table.  Go doubles the capacity of a slice of
    two. *)
Lemma external_tables_overwritten :
  let grow := λ cap need, if (cap =? 2)%nat then 4 else need in
  let '(h, base) := Context grow background [WithExternalTable [1; 2]] demo_heap in
  let '(h, base) := Context grow base [WithExternalTable [3]] h in
  let '(h, ctx1) := Context grow base [WithExternalTable [10]] h in
  let '(h, ctx2) := Context grow base [WithExternalTable [20]] h in
  option_map snd (view_of h ctx1) = Some [1; 2; 3; 20].
Proof. vm_compute. done. Qed.
