(* ===== verification/HttpRequest.v ===== *)
(** * Requests over HTTP ([conn_http.go])

    The settings, the parameters and the ids of a query travel in the query part of the
    URL, the credentials in headers or in the URL, the statement in the body.  The query
    part is a map here: it is encoded and decoded again between the steps, and all its
    keys have one value.  A Go map is walked in any order, so that loops over one take the
    order as an argument. *)

From Stdlib Require Import ZifyBool.
From S2P Require Import Prelude GoStd Wire ProtoPackets QueryContext.

Abbreviation values := (gmap gostring gostring).

(** [fmt.Sprint] of a setting, a [CustomSetting] being replaced by its value. *)
Definition setting_text (v : setting_any) : gostring :=
  match v with AnyValue v => sprint v | CustomSetting s => s end.

Definition settingEnabled (settings : settings_map) (name : gostring) : bool :=
  match settings !! name with
  | None => false
  | Some v => bool_decide (setting_text v = str "1") || bool_decide (setting_text v = str "true")
  end.

(** [waitEndOfQueryEnabled]: the setting of the query before that of the connection. *)
Definition waitEndOfQueryEnabled (conn_default : bool) (settings : settings_map) : bool :=
  match settings !! str "wait_end_of_query" with
  | Some _ => settingEnabled settings (str "wait_end_of_query")
  | None => conn_default
  end.

(** The part of the options a connection is made from. *)
Record conn_options := MkConnOptions {
  co_database : gostring;
  co_settings : settings_map;
  co_tls : bool;
  co_username : gostring;
  co_password : gostring;
  co_getJWT : option (result gostring gostring);   (* the answer of the callback, if there is one *)
  co_headers : list (gostring * gostring);         (* HttpHeaders, in the order of the loop *)
  co_clientInfo : ClientInfo
}.

Definition ClientTCPProtocolVersion : Z := DBMS_TCP_PROTOCOL_VERSION.

Definition set_settings_from (order : list (gostring * setting_any)) (q : values) : values :=
  foldl (λ q kv, <[kv.1 := setting_text kv.2]> q) q order.

(** The query part of the URL that [dialHttp] builds. *)
Definition dial_values (database : gostring) (order : list (gostring * setting_any)) : values :=
  let query : values := if decide (database = []) then ∅ else {[ str "database" := database ]} in
  let query := set_settings_from order query in
  let query := <[str "default_format" := str "Native"]> query in
  <[str "client_protocol_version" := FormatInt ClientTCPProtocolVersion]> query.

(** The options of one query. *)
Record request_options := MkRequestOptions {
  ro_queryID : gostring;
  ro_quotaKey : gostring;
  ro_settings : list (gostring * setting_any);
  ro_parameters : list (gostring * gostring)
}.

Definition put_setting_value (q : values) (kv : gostring * setting_any) : values :=
  if decide (kv.1 = str "default_format") then q else <[kv.1 := setting_text kv.2]> q.

Definition put_parameter (q : values) (kv : gostring * gostring) : values :=
  <[str "param_" ++ kv.1 := kv.2]> q.

(** The query part of the URL that [createRequest] makes from that of the connection. *)
Definition request_values (base : values) (o : request_options) : values :=
  let query := base in
  let query := if decide (ro_queryID o = []) then query else <[str "query_id" := ro_queryID o]> query in
  let query := if decide (ro_quotaKey o = []) then query else <[str "quota_key" := ro_quotaKey o]> query in
  let query := foldl put_setting_value query (ro_settings o) in
  foldl put_parameter query (ro_parameters o).

(** ** Credentials and headers *)

(** [textproto.CanonicalMIMEHeaderKey]: a letter is upper case at the start and behind a
    hyphen; a key with a byte that no token has is left alone. *)
Definition token_byte (b : byte) : bool :=
  in_range "0" "9" b || in_range "a" "z" b || in_range "A" "Z" b || existsb (beq b) (str "!#$%&'*+-.^_`|~").
Definition toUpper (b : byte) : byte := if in_range "a" "z" b then zb (bz b - 32) else b.
Fixpoint canonical_loop (up : bool) (s : gostring) : gostring :=
  match s with
  | b :: s => (if up then toUpper b else toLower b) :: canonical_loop (beq b "-") s
  | [] => []
  end.
Definition CanonicalHeaderKey (s : gostring) : gostring :=
  if forallb token_byte s then canonical_loop true s else s.

(** [strings.EqualFold] with an ASCII text that has neither a k nor an s. *)
Definition EqualFold (s t : gostring) : bool := bool_decide (map toLower s = map toLower t).

Record request := MkRequest {
  rq_header : gmap gostring gostring;
  rq_user : option (gostring * option gostring);   (* url.User, url.UserPassword *)
  rq_host : option gostring                        (* when it is not that of the URL *)
}.

Definition Header_Set (k v : gostring) (r : request) : request :=
  MkRequest (<[CanonicalHeaderKey k := v]> (rq_header r)) (rq_user r) (rq_host r).

Definition put_header (r : request) (kv : gostring * gostring) : request :=
  if EqualFold kv.1 (str "Host") then MkRequest (rq_header r) (rq_user r) (Some kv.2)
  else Header_Set kv.1 kv.2 r.

(** [applyOptionsToRequest]; [jwt] and [info] are those of the query.  An error is that
    of the callback. *)
Definition applyOptionsToRequest (goVersion goos jwt : gostring) (info : ClientInfo) (opt : conn_options) (req : request)
    : result gostring request :=
  let useJWT := bool_decide (jwt ≠ []) || (match co_getJWT opt with Some _ => true | None => false end) in
  req ←
    (if co_tls opt && useJWT then
       jwt ← (if decide (jwt = []) then match co_getJWT opt with Some r => r | None => Ok [] end else Ok jwt);
       Ok (Header_Set (str "Authorization") (str "Bearer " ++ jwt) req)
     else if co_tls opt && bool_decide (co_username opt ≠ []) then
       let req := Header_Set (str "X-ClickHouse-User") (co_username opt) req in
       if decide (co_password opt = [])
       then Ok (Header_Set (str "X-ClickHouse-SSL-Certificate-Auth") (str "on") req)
       else Ok (Header_Set (str "X-ClickHouse-SSL-Certificate-Auth") (str "off")
                  (Header_Set (str "X-ClickHouse-Key") (co_password opt) req))
     else if negb (co_tls opt) && bool_decide (co_username opt ≠ []) then
       Ok (MkRequest (rq_header req)
             (Some (co_username opt, if decide (co_password opt = []) then None else Some (co_password opt))) (rq_host req))
     else Ok req);
  let req := Header_Set (str "User-Agent")
               (ClientInfo_String goVersion goos (ClientInfo_Append (co_clientInfo opt) info)) req in
  Ok (foldl put_header req (co_headers opt)).

(** ** The format of the answer ([format.go]) *)

Definition letter (b : byte) : bool := in_range "A" "Z" b || in_range "a" "z" b.

(** ^[A-Za-z][A-Za-z0-9]*$ *)
Definition validateFormatName (format : gostring) : bool :=
  match format with b :: t => letter b && forallb (λ c, letter c || isDigit c) t | [] => false end.

(** [queryFormat]: the settings of the query with failures outside the payload, unless the
    caller chose otherwise, and the format of the answer set last. *)
Definition failure_setting : gostring := str "http_write_exception_in_output_format".
Definition format_settings (conn : settings_map) (settings : list (gostring * setting_any)) : list (gostring * setting_any) :=
  if existsb (λ kv, bool_decide (kv.1 = failure_setting)) settings then settings
  else match conn !! failure_setting with
       | Some _ => settings
       | None => settings ++ [(failure_setting, AnyValue (SInt 0))]
       end.
Definition format_values (base : values) (conn : settings_map) (o : request_options) (formatName : gostring) : values :=
  <[str "default_format" := formatName]>
    (request_values base (MkRequestOptions (ro_queryID o) (ro_quotaKey o) (format_settings conn (ro_settings o)) (ro_parameters o))).

(** ** Which value a key of the request has *)

Lemma option_union_assoc' {A} (x y z : option A) : (x ∪ y) ∪ z = x ∪ (y ∪ z).
Proof. by destruct x, y, z. Qed.

Lemma foldl_insert_lookup {A} (f : A → gostring) (g : A → gostring) (l : list A) (q : values) k :
  NoDup (f <$> l) →
  foldl (λ q x, <[f x := g x]> q) q l !! k
  = (list_to_map ((λ x, (f x, g x)) <$> l) : values) !! k ∪ q !! k.
Proof.
  revert q. induction l as [|x l IH]; intros q Hnd; [cbn; by rewrite lookup_empty, (left_id_L None _)|].
  cbn [foldl fmap list_fmap]. apply NoDup_cons in Hnd as [Hx Hnd]. rewrite IH by done.
  destruct (decide (k = f x)) as [->|Hk].
  - rewrite list_to_map_cons, !lookup_insert_eq.
    rewrite (not_elem_of_list_to_map_1 ((λ x, (f x, g x)) <$> l) (f x)); [by destruct (q !! f x)|].
    by rewrite <- list_fmap_compose.
  - by rewrite list_to_map_cons, !lookup_insert_ne.
Qed.

Lemma foldl_insert_perm {A} (f : A → gostring) (g : A → gostring) (l l' : list A) (q : values) :
  l ≡ₚ l' → NoDup (f <$> l) →
  foldl (λ q x, <[f x := g x]> q) q l = foldl (λ q x, <[f x := g x]> q) q l'.
Proof.
  intros Hp Hnd. apply map_eq. intros k.
  rewrite !foldl_insert_lookup; [|by rewrite <- Hp|done].
  f_equal. f_equal. apply list_to_map_proper; [by rewrite <- list_fmap_compose|by rewrite Hp].
Qed.

(** Settings of a query, without the format, as the loop leaves them. *)
Definition not_format (kv : gostring * setting_any) : bool := negb (bool_decide (kv.1 = str "default_format")).

Lemma foldl_put_settings l q :
  foldl put_setting_value q l = foldl (λ q kv, <[kv.1 := setting_text kv.2]> q) q (List.filter not_format l).
Proof.
  revert q. induction l as [|kv l IH]; intros q; [done|]. cbn [foldl List.filter].
  unfold put_setting_value at 2, not_format at 1. destruct (decide (kv.1 = str "default_format")) as [Hk|Hk].
  - rewrite bool_decide_true by done. cbn. apply IH.
  - rewrite bool_decide_false by done. cbn [negb foldl]. apply IH.
Qed.

Lemma NoDup_keys_filter {A} (p : A → bool) (f : A → gostring) l : NoDup (f <$> l) → NoDup (f <$> List.filter p l).
Proof.
  induction l as [|x l IH]; [done|]. intros [Hx Hnd]%NoDup_cons. cbn [List.filter].
  destruct (p x); [|by apply IH]. apply NoDup_cons. split; [|by apply IH].
  intros (y & Hy & Hin)%list_elem_of_fmap. apply Hx. rewrite Hy. apply list_elem_of_fmap_2.
  apply list_elem_of_In in Hin. apply filter_In in Hin as [Hin _]. by apply list_elem_of_In.
Qed.

Lemma filter_perm {A} (p : A → bool) l l' : l ≡ₚ l' → List.filter p l ≡ₚ List.filter p l'.
Proof.
  induction 1 as [|x l l' _ IH|x y l|l1 l2 l3 _ IH1 _ IH2]; cbn [List.filter]; [done| | |by etrans].
  - destruct (p x); [by constructor|done].
  - destruct (p x), (p y); try done. constructor.
Qed.

(** The connection's part. *)
Definition conn_value (database : gostring) (conn : list (gostring * setting_any)) (k : gostring) : option gostring :=
  if decide (k = str "client_protocol_version") then Some (FormatInt ClientTCPProtocolVersion)
  else if decide (k = str "default_format") then Some (str "Native")
  else (list_to_map ((λ kv, (kv.1, setting_text kv.2)) <$> conn) : values) !! k
       ∪ (if decide (k = str "database" ∧ database ≠ []) then Some database else None).

(** The query's part: parameters, then settings, then the ids. *)
Definition query_value (o : request_options) (k : gostring) : option gostring :=
  (list_to_map ((λ kv, (str "param_" ++ kv.1, kv.2)) <$> ro_parameters o) : values) !! k
  ∪ ((list_to_map ((λ kv, (kv.1, setting_text kv.2)) <$> List.filter not_format (ro_settings o)) : values) !! k
  ∪ ((if decide (k = str "quota_key" ∧ ro_quotaKey o ≠ []) then Some (ro_quotaKey o) else None)
  ∪ (if decide (k = str "query_id" ∧ ro_queryID o ≠ []) then Some (ro_queryID o) else None))).

Lemma lookup_put_id (q : values) (name v k : gostring) :
  (if decide (v = []) then q else <[name := v]> q) !! k
  = (if decide (k = name ∧ v ≠ []) then Some v else None) ∪ q !! k.
Proof.
  destruct (decide (v = [])) as [Hv|Hv].
  - rewrite decide_False by (by intros [_ ?]). by rewrite (left_id_L None _).
  - destruct (decide (k = name)) as [->|Hk].
    + rewrite lookup_insert_eq, decide_True by done. by destruct (q !! name).
    + rewrite lookup_insert_ne by done. rewrite decide_False by (by intros [? _]). by rewrite (left_id_L None _).
Qed.

Lemma dial_values_lookup database conn k : NoDup conn.*1 →
  dial_values database conn !! k = conn_value database conn k.
Proof.
  intros Hnd. unfold dial_values, conn_value, set_settings_from.
  destruct (decide (k = str "client_protocol_version")) as [->|H1]; [by rewrite lookup_insert_eq|].
  rewrite lookup_insert_ne by done.
  destruct (decide (k = str "default_format")) as [->|H2]; [by rewrite lookup_insert_eq|].
  rewrite lookup_insert_ne, foldl_insert_lookup by done. f_equal.
  destruct (decide (database = [])) as [Hd|Hd].
  - rewrite decide_False by (by intros [_ ?]). apply lookup_empty.
  - destruct (decide (k = str "database")) as [->|Hk].
    + rewrite decide_True by done. apply lookup_singleton_eq.
    + rewrite decide_False by (by intros [? _]). by apply lookup_singleton_ne.
Qed.

(** Parameters have names of their own, whatever they are called. *)
Lemma NoDup_param (l : list (gostring * gostring)) : NoDup l.*1 → NoDup ((λ kv, str "param_" ++ kv.1) <$> l).
Proof.
  intros Hnd. change (λ kv : gostring * gostring, str "param_" ++ kv.1) with (app (str "param_") ∘ @fst gostring gostring).
  rewrite list_fmap_compose.
  apply NoDup_fmap_2; [|done]. intros a b H. by apply app_inv_head in H.
Qed.

Lemma request_values_lookup base o k : NoDup (ro_settings o).*1 → NoDup (ro_parameters o).*1 →
  request_values base o !! k = query_value o k ∪ base !! k.
Proof.
  intros Hs Hp. unfold request_values, query_value. rewrite foldl_put_settings.
  change put_parameter with (λ (q : values) (kv : gostring * gostring), <[str "param_" ++ kv.1 := kv.2]> q).
  rewrite (foldl_insert_lookup (λ kv, str "param_" ++ kv.1) snd) by by apply NoDup_param.
  rewrite (foldl_insert_lookup fst (λ kv, setting_text kv.2)) by by apply NoDup_keys_filter.
  rewrite !lookup_put_id. by rewrite !option_union_assoc'.
Qed.

Lemma param_not_format (l : list (gostring * gostring)) :
  (list_to_map ((λ kv, (str "param_" ++ kv.1, kv.2)) <$> l) : values) !! str "default_format" = None.
Proof.
  apply not_elem_of_list_to_map_1. rewrite <- list_fmap_compose. intros (kv & E & _)%list_elem_of_fmap. done.
Qed.

Lemma setting_not_format l :
  (list_to_map ((λ kv, (kv.1, setting_text kv.2)) <$> List.filter not_format l) : values) !! str "default_format" = None.
Proof.
  apply not_elem_of_list_to_map_1. rewrite <- list_fmap_compose. intros (kv & E & Hin)%list_elem_of_fmap.
  apply list_elem_of_In, filter_In in Hin as [_ Hf]. unfold not_format in Hf. cbn in E.
  by rewrite bool_decide_true in Hf.
Qed.

(** C26: every key of a request has one value, whatever order Go walks its maps in:
    a parameter, or a setting of the query, or its quota key or id, or else the value of
    the connection, where the settings of the client come before the database.  No setting
    changes the format of the answer, which is Native, or the one asked for when the raw
    answer is wanted. *)
Theorem request_precedence (database : gostring) (conn : list (gostring * setting_any)) (o : request_options)
    (connset : settings_map) (formatName : gostring) :
  NoDup conn.*1 → NoDup (ro_settings o).*1 → NoDup (ro_parameters o).*1 →
  (∀ k, request_values (dial_values database conn) o !! k = query_value o k ∪ conn_value database conn k)
  ∧ request_values (dial_values database conn) o !! str "default_format" = Some (str "Native")
  ∧ format_values (dial_values database conn) connset o formatName !! str "default_format" = Some formatName
  ∧ (∀ conn' s' p', conn ≡ₚ conn' → ro_settings o ≡ₚ s' → ro_parameters o ≡ₚ p' →
       request_values (dial_values database conn') (MkRequestOptions (ro_queryID o) (ro_quotaKey o) s' p')
       = request_values (dial_values database conn) o).
Proof.
  intros Hc Hs Hp. split; [|split; [|split]].
  - intros k. by rewrite request_values_lookup, dial_values_lookup.
  - rewrite request_values_lookup, dial_values_lookup by done. unfold query_value.
    by rewrite param_not_format, setting_not_format.
  - apply lookup_insert_eq.
  - intros conn' s' p' Ec Es Ep. apply map_eq. intros k.
    rewrite !request_values_lookup, !dial_values_lookup; cbn [ro_settings ro_parameters];
      rewrite <- ?Ec, <- ?Es, <- ?Ep; try done.
    f_equal.
    + unfold query_value. cbn [ro_settings ro_parameters ro_quotaKey ro_queryID]. f_equal; [f_equal|f_equal; f_equal].
      * apply list_to_map_proper; [|by rewrite Ep]. rewrite <- list_fmap_compose. apply NoDup_param. by rewrite <- Ep.
      * apply list_to_map_proper; [|by rewrite (filter_perm _ _ _ Es)]. rewrite <- list_fmap_compose.
        apply NoDup_keys_filter. by rewrite <- Es.
    + unfold conn_value. destruct (decide _); [done|]. destruct (decide _); [done|]. f_equal. f_equal.
      apply list_to_map_proper; [|by rewrite Ec]. rewrite <- list_fmap_compose. by rewrite <- Ec.
Qed.

Lemma request_precedence_witness :
  request_values (dial_values (str "db") [(str "max_threads", AnyValue (SInt 4)); (str "default_format", AnyValue (SString (str "CSV")))])
    (MkRequestOptions (str "id") [] [(str "max_threads", CustomSetting (str "8")); (str "default_format", AnyValue (SString (str "CSV")))]
       [(str "x", str "1")]) !! str "default_format" = Some (str "Native")
  ∧ NoDup [str "max_threads"; str "default_format"].
Proof.
  split; [|by apply (bool_decide_unpack _); vm_compute].
  apply (request_precedence (str "db") _
    (MkRequestOptions (str "id") [] [(str "max_threads", CustomSetting (str "8")); (str "default_format", AnyValue (SString (str "CSV")))]
       [(str "x", str "1")]) ∅ []); by apply (bool_decide_unpack _); vm_compute.
Defined.

(** Credentials do not appear where they do not belong: with TLS they are in headers only,
    without it the name and the password are in the URL and no token is sent at all. *)
Definition auth_headers : list gostring :=
  map str ["Authorization"; "X-Clickhouse-User"; "X-Clickhouse-Key"; "X-Clickhouse-Ssl-Certificate-Auth"].

Lemma credentials_placed goVersion goos jwt info opt r :
  co_headers opt = [] → applyOptionsToRequest goVersion goos jwt info opt (MkRequest ∅ None None) = Ok r →
  (co_tls opt = true → rq_user r = None
     ∧ (jwt ≠ [] → rq_header r !! str "Authorization" = Some (str "Bearer " ++ jwt)))
  ∧ (co_tls opt = false → Forall (λ h, rq_header r !! h = None) auth_headers).
Proof.
  intros Hh. unfold applyOptionsToRequest. rewrite Hh.
  destruct (co_tls opt) eqn:Et; cbn [andb negb].
  - intros Hr. split; [|done]. intros _.
    destruct (bool_decide (jwt ≠ []) || _) eqn:Ej; cbn [mbind result_bind] in Hr.
    + destruct (decide (jwt = [])) as [Hj|Hj].
      * destruct (co_getJWT opt) as [[t|e]|]; cbn [mbind result_bind foldl] in Hr; simplify_eq; done.
      * cbn [mbind result_bind foldl] in Hr. simplify_eq. split; [done|]. intros _. cbn.
        rewrite lookup_insert_ne by done. apply lookup_insert_eq.
    + apply orb_false_iff in Ej as [Hj%bool_decide_eq_false _].
      split; [|done]. destruct (bool_decide (co_username opt ≠ [])); [destruct (decide (co_password opt = []))|];
        cbn [mbind result_bind foldl] in Hr; simplify_eq; done.
  - intros Hr. split; [done|]. intros _.
    destruct (bool_decide (co_username opt ≠ [])); cbn [mbind result_bind foldl] in Hr; simplify_eq;
      cbn; by repeat constructor.
Qed.
