(* ===== verification/Options.v ===== *)
(** * Connection options ([clickhouse_options.go])

    [ParseDSN] reads a data source name with the URL parser of [ChUrl.v] and applies its
    query parameters one by one; [setDefaults] fills in what is left.  Go's [range] over
    the map of parameters visits them in an order of its own: here [fromDSN] takes the
    order as an argument.

    The fields a DSN cannot set (dialers, loggers, TLS details, transport functions) are
    left out of [Options]. *)

From Stdlib Require Import ZifyBool.
From S2P Require Import Prelude GoStd ChUrl Strconv ProtoPackets Client.
Local Open Scope Z_scope.
#[local] Set Warnings "-register-all".

Inductive CompressionMethod :=
| CompressionNone | CompressionLZ4 | CompressionLZ4HC | CompressionZSTD
| CompressionGZIP | CompressionDeflate | CompressionBrotli.

(** [CompressionMethod.String]. *)
Definition CompressionMethod_String (c : CompressionMethod) : gostring :=
  match c with
  | CompressionNone => str "none" | CompressionZSTD => str "zstd" | CompressionLZ4 => str "lz4"
  | CompressionLZ4HC => str "lz4hc" | CompressionGZIP => str "gzip" | CompressionDeflate => str "deflate"
  | CompressionBrotli => str "br"
  end.

Definition compressionMap : list (gostring * CompressionMethod) :=
  [(str "none", CompressionNone); (str "zstd", CompressionZSTD); (str "lz4", CompressionLZ4);
   (str "lz4hc", CompressionLZ4HC); (str "gzip", CompressionGZIP); (str "deflate", CompressionDeflate);
   (str "br", CompressionBrotli)].

Definition compression_of (s : gostring) : option CompressionMethod :=
  snd <$> List.find (λ nc, bool_decide (nc.1 = s)) compressionMap.

Inductive Protocol := Native | HTTP.

Definition Protocol_String (p : Protocol) : gostring := match p with Native => str "native" | HTTP => str "http" end.

(** The value of a setting taken from a DSN. *)
Inductive setting := SetInt (n : Z) | SetString (s : gostring).

Record Options := MkOptions {
  opt_Protocol : Protocol;
  Products : list (gostring * gostring);
  TLS : option (bool * gostring);                        (* InsecureSkipVerify, ServerName *)
  Addr : list gostring;
  Database : gostring;
  Username : gostring;
  Password : gostring;
  Debug : bool;
  Settings : gmap gostring setting;
  opt_Compression : option (CompressionMethod * Z);
  DialTimeout : Z;
  MaxOpenConns : Z;
  MaxIdleConns : Z;
  ConnMaxLifetime : Z;
  opt_ConnOpenStrategy : ConnOpenStrategy;
  HttpUrlPath : gostring;
  BlockBufferSize : Z;
  MaxCompressionBuffer : Z;
  HTTPProxyURL : option gostring;                        (* the text it was read from *)
  opt_scheme : gostring;
  ReadTimeout : Z
}.

Definition newOptions : Options :=
  MkOptions Native [] None [] [] [] [] false ∅ None 0 0 0 0 ConnOpenInOrder [] 0 0 None [] 0.

Inductive dsn_err :=
| ErrDsnURL (e : url_err)
| ErrDsnAddress
| ErrDsnValue (value : gostring)
| ErrServerNameEmpty
| ErrServerNameWithoutTLS
| ErrHttpWithTLS
| ErrHttpsWithoutTLS.

(** The variables of [fromDSN] while it goes through the parameters. *)
Record dsn_state := MkDsn { ds_opt : Options; ds_secure : bool; ds_skipVerify : bool; ds_serverName : gostring }.

(** ** The parameters *)

Inductive param :=
| PDebug | PCompress | PCompressLevel | PMaxCompressionBuffer | PDialTimeout | PBlockBufferSize | PReadTimeout
| PSecure | PSkipVerify | PServerName | PStrategy | PMaxOpen | PMaxIdle | PLifetime | PUsername | PPassword
| PDatabase | PProduct | PProxy | PPath | PSetting (name : gostring).

(** The cases of the switch. *)
Definition param_names : list (gostring * param) :=
  [(str "debug", PDebug); (str "compress", PCompress); (str "compress_level", PCompressLevel);
   (str "max_compression_buffer", PMaxCompressionBuffer); (str "dial_timeout", PDialTimeout);
   (str "block_buffer_size", PBlockBufferSize); (str "read_timeout", PReadTimeout); (str "secure", PSecure);
   (str "skip_verify", PSkipVerify); (str "tls_server_name", PServerName); (str "connection_open_strategy", PStrategy);
   (str "max_open_conns", PMaxOpen); (str "max_idle_conns", PMaxIdle); (str "conn_max_lifetime", PLifetime);
   (str "username", PUsername); (str "password", PPassword); (str "database", PDatabase);
   (str "client_info_product", PProduct); (str "http_proxy", PProxy); (str "http_path", PPath)].

Definition param_of (v : gostring) : param :=
  match List.find (λ np, bool_decide (np.1 = v)) param_names with Some np => np.2 | None => PSetting v end.

Section dsn.
Variable scale_fraction : gostring → Z → Z.
(** [strings.ToLower] of a text that is not ASCII. *)
Variable unicode_ToLower : gostring → gostring.
(** [url.Parse] accepts the text. *)
Variable url_Parse_ok : gostring → bool.

Definition ToLower (s : gostring) : gostring :=
  if forallb (λ b, bz b <? 128) s then map toLower s else unicode_ToLower s.

(** [o.Compression.Method = m], with the level of a new struct. *)
Definition set_method (m : CompressionMethod) (level : Z) (c : option (CompressionMethod * Z)) : option (CompressionMethod * Z) :=
  match c with None => Some (m, level) | Some (_, l) => Some (m, l) end.
Definition set_level (level : Z) (c : option (CompressionMethod * Z)) : option (CompressionMethod * Z) :=
  match c with None => Some (CompressionNone, level) | Some (m, _) => Some (m, level) end.

Definition compress_update (x : gostring) (c : option (CompressionMethod * Z)) : option (CompressionMethod * Z) :=
  match ParseBool x with
  | Some true => set_method CompressionLZ4 0 c
  | _ => match compression_of x with Some m => set_method m 3 c | None => c end
  end.

Definition strategy_of (x : gostring) (s : ConnOpenStrategy) : ConnOpenStrategy :=
  if bool_decide (x = str "in_order") then ConnOpenInOrder
  else if bool_decide (x = str "round_robin") then ConnOpenRoundRobin
  else if bool_decide (x = str "random") then ConnOpenRandom else s.

Definition products_of (x : gostring) : list (gostring * gostring) :=
  map (λ chunk, let '(name, version, _) := strings_Cut chunk "/" in (name, version)) (strings_Split x ",").

Definition path_of (x : gostring) : gostring :=
  if negb (bool_decide (x = [])) && negb (HasPrefix x (str "/")) then "/"%byte :: x else x.

(** A flag that an empty value sets. *)
Definition flag_of (x : gostring) : option bool := if bool_decide (x = []) then Some true else ParseBool x.

Definition setting_of (x : gostring) : setting :=
  let p := ToLower x in
  if bool_decide (p = str "true") then SetInt 1
  else if bool_decide (p = str "false") then SetInt 0
  else match Atoi p with Some n => SetInt n | None => SetString p end.

(** What one parameter does, by the case of the switch and the value; [None] is a value
    the case refuses. *)
Definition on_opt (f : Options → Options) (d : dsn_state) : dsn_state :=
  MkDsn (f (ds_opt d)) (ds_secure d) (ds_skipVerify d) (ds_serverName d).

Definition put_debug b (o : Options) := let '(MkOptions a p t ad db u pw d s c dt mo mi cl st hp bb mc px sc rt) := o in
  MkOptions a p t ad db u pw b s c dt mo mi cl st hp bb mc px sc rt.
Definition put_compression f (o : Options) := let '(MkOptions a p t ad db u pw d s c dt mo mi cl st hp bb mc px sc rt) := o in
  MkOptions a p t ad db u pw d s (f c) dt mo mi cl st hp bb mc px sc rt.
Definition put_buffer n (o : Options) := let '(MkOptions a p t ad db u pw d s c dt mo mi cl st hp bb mc px sc rt) := o in
  MkOptions a p t ad db u pw d s c dt mo mi cl st hp bb n px sc rt.
Definition put_dial n (o : Options) := let '(MkOptions a p t ad db u pw d s c dt mo mi cl st hp bb mc px sc rt) := o in
  MkOptions a p t ad db u pw d s c n mo mi cl st hp bb mc px sc rt.
Definition put_block n (o : Options) := let '(MkOptions a p t ad db u pw d s c dt mo mi cl st hp bb mc px sc rt) := o in
  MkOptions a p t ad db u pw d s c dt mo mi cl st hp n mc px sc rt.
Definition put_read n (o : Options) := let '(MkOptions a p t ad db u pw d s c dt mo mi cl st hp bb mc px sc rt) := o in
  MkOptions a p t ad db u pw d s c dt mo mi cl st hp bb mc px sc n.
Definition put_strategy f (o : Options) := let '(MkOptions a p t ad db u pw d s c dt mo mi cl st hp bb mc px sc rt) := o in
  MkOptions a p t ad db u pw d s c dt mo mi cl (f st) hp bb mc px sc rt.
Definition put_open n (o : Options) := let '(MkOptions a p t ad db u pw d s c dt mo mi cl st hp bb mc px sc rt) := o in
  MkOptions a p t ad db u pw d s c dt n mi cl st hp bb mc px sc rt.
Definition put_idle n (o : Options) := let '(MkOptions a p t ad db u pw d s c dt mo mi cl st hp bb mc px sc rt) := o in
  MkOptions a p t ad db u pw d s c dt mo n cl st hp bb mc px sc rt.
Definition put_lifetime n (o : Options) := let '(MkOptions a p t ad db u pw d s c dt mo mi cl st hp bb mc px sc rt) := o in
  MkOptions a p t ad db u pw d s c dt mo mi n st hp bb mc px sc rt.
Definition put_user x (o : Options) := let '(MkOptions a p t ad db u pw d s c dt mo mi cl st hp bb mc px sc rt) := o in
  MkOptions a p t ad db x pw d s c dt mo mi cl st hp bb mc px sc rt.
Definition put_password x (o : Options) := let '(MkOptions a p t ad db u pw d s c dt mo mi cl st hp bb mc px sc rt) := o in
  MkOptions a p t ad db u x d s c dt mo mi cl st hp bb mc px sc rt.
Definition put_database x (o : Options) := let '(MkOptions a p t ad db u pw d s c dt mo mi cl st hp bb mc px sc rt) := o in
  MkOptions a p t ad x u pw d s c dt mo mi cl st hp bb mc px sc rt.
Definition put_products l (o : Options) := let '(MkOptions a p t ad db u pw d s c dt mo mi cl st hp bb mc px sc rt) := o in
  MkOptions a (p ++ l) t ad db u pw d s c dt mo mi cl st hp bb mc px sc rt.
Definition put_proxy x (o : Options) := let '(MkOptions a p t ad db u pw d s c dt mo mi cl st hp bb mc px sc rt) := o in
  MkOptions a p t ad db u pw d s c dt mo mi cl st hp bb mc (Some x) sc rt.
Definition put_path x (o : Options) := let '(MkOptions a p t ad db u pw d s c dt mo mi cl st hp bb mc px sc rt) := o in
  MkOptions a p t ad db u pw d s c dt mo mi cl st x bb mc px sc rt.
Definition put_setting k x (o : Options) := let '(MkOptions a p t ad db u pw d s c dt mo mi cl st hp bb mc px sc rt) := o in
  MkOptions a p t ad db u pw d (<[k := x]> s) c dt mo mi cl st hp bb mc px sc rt.
Definition put_addr l (o : Options) := let '(MkOptions a p t ad db u pw d s c dt mo mi cl st hp bb mc px sc rt) := o in
  MkOptions a p t (ad ++ l) db u pw d s c dt mo mi cl st hp bb mc px sc rt.
Definition put_end pr tls scheme (o : Options) := let '(MkOptions a p t ad db u pw d s c dt mo mi cl st hp bb mc px sc rt) := o in
  MkOptions pr p (match tls with Some _ => tls | None => t end) ad db u pw d s c dt mo mi cl st hp bb mc px scheme rt.

Definition param_update (p : param) (x : gostring) : result dsn_err (dsn_state → dsn_state) :=
  let value {A} (r : option A) (f : A → Options → Options) : result dsn_err (dsn_state → dsn_state) :=
    match r with Some a => Ok (on_opt (f a)) | None => Err (ErrDsnValue x) end in
  match p with
  | PDebug => Ok (on_opt (put_debug (default false (ParseBool x))))
  | PCompress => Ok (on_opt (put_compression (compress_update x)))
  | PCompressLevel => value (ParseInt 8 x) (λ n, put_compression (set_level n))
  | PMaxCompressionBuffer => value (Atoi x) put_buffer
  | PDialTimeout => value (ParseDuration scale_fraction x) put_dial
  | PBlockBufferSize => value (n ← ParseUint 8 x; if n <=? 0 then None else Some n) put_block
  | PReadTimeout => value (ParseDuration scale_fraction x) put_read
  | PSecure => match flag_of x with
               | Some b => Ok (λ d, MkDsn (ds_opt d) b (ds_skipVerify d) (ds_serverName d))
               | None => Err (ErrDsnValue x) end
  | PSkipVerify => match flag_of x with
                   | Some b => Ok (λ d, MkDsn (ds_opt d) (ds_secure d) b (ds_serverName d))
                   | None => Err (ErrDsnValue x) end
  | PServerName => if bool_decide (TrimSpace x = []) then Err ErrServerNameEmpty
                   else Ok (λ d, MkDsn (ds_opt d) (ds_secure d) (ds_skipVerify d) (TrimSpace x))
  | PStrategy => Ok (on_opt (put_strategy (strategy_of x)))
  | PMaxOpen => value (Atoi x) put_open
  | PMaxIdle => value (Atoi x) put_idle
  | PLifetime => value (ParseDuration scale_fraction x) put_lifetime
  | PUsername => Ok (on_opt (put_user x))
  | PPassword => Ok (on_opt (put_password x))
  | PDatabase => Ok (on_opt (put_database x))
  | PProduct => Ok (on_opt (put_products (products_of x)))
  | PProxy => if url_Parse_ok x then Ok (on_opt (put_proxy x)) else Err (ErrDsnValue x)
  | PPath => Ok (on_opt (put_path (path_of x)))
  | PSetting name => Ok (on_opt (put_setting name (setting_of x)))
  end.

(** [for v := range params], in the order given. *)
Fixpoint param_loop (get : gostring → gostring) (order : list gostring) (d : dsn_state) : result dsn_err dsn_state :=
  match order with
  | [] => Ok d
  | v :: order => f ← param_update (param_of v) (get v); param_loop get order (f d)
  end.

(** What follows the parameters: TLS and the protocol. *)
Definition dsn_finish (scheme : gostring) (d : dsn_state) : result dsn_err Options :=
  let secure := ds_secure d in
  if negb (bool_decide (ds_serverName d = [])) && negb secure then Err ErrServerNameWithoutTLS
  else
    let tls := if secure then Some (ds_skipVerify d, ds_serverName d) else None in
    if bool_decide (scheme = str "http") then
      if secure then Err ErrHttpWithTLS else Ok (put_end HTTP tls scheme (ds_opt d))
    else if bool_decide (scheme = str "https") then
      if negb secure then Err ErrHttpsWithoutTLS else Ok (put_end HTTP tls scheme (ds_opt d))
    else Ok (put_end Native tls scheme (ds_opt d)).

(** What precedes them: the user, the addresses and the database. *)
Definition dsn_start (u : URL) (o : Options) : dsn_state :=
  let o := match User u with
           | Some (name, password) => put_password (default [] password) (put_user name o)
           | None => o end in
  let o := put_addr (strings_Split (Host u) ",") o in
  MkDsn (put_database (TrimPrefix1 (Path u) "/") o) false false [].

(** [fromDSN]; [order] is the order of the map. *)
Definition fromDSN (order : list gostring) (o : Options) (text : gostring) : option (result dsn_err Options) :=
  r ← Parse text;
  Some (match r with
        | Err e => Err (ErrDsnURL e)
        | Ok u =>
            if bool_decide (Host u = []) then Err ErrDsnAddress
            else d ← param_loop (query_Get (ParseQuery (RawQuery u))) order (dsn_start u o); dsn_finish (Scheme u) d
        end).

(** The orders Go may choose. *)
Definition map_order (text : gostring) (order : list gostring) : Prop :=
  match Parse text with Some (Ok u) => order ≡ₚ query_keys (ParseQuery (RawQuery u)) | _ => True end.

Definition ParseDSN (order : list gostring) (text : gostring) : option (result dsn_err Options) := fromDSN order newOptions text.

(** [setDefaults]. *)
Definition int_add (a b : Z) : Z := i64 (a + b).

Definition setDefaults (o : Options) : Options :=
  let '(MkOptions a p t ad db u pw d s c dt mo mi cl st hp bb mc px sc rt) := o in
  let mi := if mi <=? 0 then 5 else mi in
  MkOptions a p t
    (if bool_decide (ad = []) then match a with Native => [str "localhost:9000"] | HTTP => [str "localhost:8123"] end else ad)
    db (if bool_decide (u = []) then str "default" else u) pw d s c
    (if dt =? 0 then 30000000000 else dt)
    (if mo <=? 0 then int_add mi 5 else mo) mi
    (if cl =? 0 then 3600000000000 else cl) st hp
    (if bb <=? 0 then 2 else bb) (if mc <=? 0 then 10485760 else mc) px sc
    (if rt =? 0 then 300000000000 else rt).

(** ** The order of the parameters *)

Definition param_name (p : param) : gostring :=
  match List.find (λ np, match np.2, p with
    | PDebug, PDebug | PCompress, PCompress | PCompressLevel, PCompressLevel | PMaxCompressionBuffer, PMaxCompressionBuffer
    | PDialTimeout, PDialTimeout | PBlockBufferSize, PBlockBufferSize | PReadTimeout, PReadTimeout | PSecure, PSecure
    | PSkipVerify, PSkipVerify | PServerName, PServerName | PStrategy, PStrategy | PMaxOpen, PMaxOpen | PMaxIdle, PMaxIdle
    | PLifetime, PLifetime | PUsername, PUsername | PPassword, PPassword | PDatabase, PDatabase | PProduct, PProduct
    | PProxy, PProxy | PPath, PPath => true
    | _, _ => false end) param_names, p with
  | _, PSetting v => v
  | Some np, _ => np.1
  | None, _ => []
  end.

Lemma param_name_of v : param_name (param_of v) = v.
Proof.
  unfold param_of. destruct (List.find _ param_names) as [np|] eqn:E; [|done].
  apply find_some in E as [Hin Hv]. apply bool_decide_eq_true in Hv as <-.
  assert (Forall (λ np, param_name np.2 = np.1) param_names) as H by (repeat constructor).
  rewrite Forall_forall in H. apply H. by apply list_elem_of_In.
Qed.

Lemma param_of_inj v w : param_of v = param_of w → v = w.
Proof. intros E. by rewrite <- (param_name_of v), E, param_name_of. Qed.

Lemma compress_level_commute x n c : set_level n (compress_update x c) = compress_update x (set_level n c).
Proof. unfold compress_update. by repeat (case_match; try done); destruct c as [[]|]. Qed.

(** Different parameters do not interfere. *)
Lemma updates_commute p q x y f g d :
  p ≠ q → param_update p x = Ok f → param_update q y = Ok g → f (g d) = g (f d).
Proof.
  intros Hpq Hf Hg. destruct d as [[] ? ? ?].
  destruct p; cbn in Hf; repeat case_match; simplify_eq;
    destruct q; cbn in Hg; repeat case_match; simplify_eq; try reflexivity;
    unfold on_opt, put_compression, put_setting; cbn [ds_opt ds_secure ds_skipVerify ds_serverName].
  - by rewrite compress_level_commute.
  - by rewrite compress_level_commute.
  - by rewrite insert_insert_ne by congruence.
Qed.

(** The options that were read, if there was no error. *)
Definition ok_of {E A} (r : result E A) : option A := match r with Ok a => Some a | Err _ => None end.

Lemma param_loop_perm get o1 o2 : o1 ≡ₚ o2 → NoDup o1 → ∀ d, ok_of (param_loop get o1 d) = ok_of (param_loop get o2 d).
Proof.
  induction 1 as [|v o1 o2 H IH|v w o|o1 o2 o3 H1 IH1 H2 IH2]; intros Hd d; [done|..].
  - cbn [param_loop]. apply NoDup_cons in Hd as [_ Hd]. destruct (param_update _ _) as [f|e]; [|done]. by apply IH.
  - cbn [param_loop]. assert (param_of w ≠ param_of v) as Hne.
    { intros ->%param_of_inj. apply NoDup_cons in Hd as [Hv _]. apply Hv. by left. }
    destruct (param_update (param_of w) (get w)) as [f|e] eqn:Ef, (param_update (param_of v) (get v)) as [g|e'] eqn:Eg;
      cbn [mbind result_bind]; rewrite ?Ef, ?Eg; cbn [mbind result_bind]; try done.
    by rewrite (updates_commute _ _ _ _ f g d Hne Ef Eg).
  - rewrite IH1 by done. apply IH2. by rewrite <- H1.
Qed.

(** The order in which Go visits the parameters of a DSN makes no difference: for any
    two orders of the map, either both give the same options or both give an error.
    Only two parameters touch the same field, the method and the level of compression,
    and they do so without disturbing each other. *)
Theorem ParseDSN_deterministic o1 o2 text :
  map_order text o1 → map_order text o2 →
  (ok_of <$> ParseDSN o1 text) = (ok_of <$> ParseDSN o2 text).
Proof.
  unfold map_order, ParseDSN, fromDSN. destruct (Parse text) as [[u|e]|]; [|done..]. intros H1 H2. cbn [mbind option_bind fmap option_fmap].
  cbn. f_equal. case_bool_decide; [done|].
  assert (ok_of (param_loop (query_Get (ParseQuery (RawQuery u))) o1 (dsn_start u newOptions))
          = ok_of (param_loop (query_Get (ParseQuery (RawQuery u))) o2 (dsn_start u newOptions))) as E.
  { apply param_loop_perm; [by rewrite H1, H2|]. rewrite H1. apply NoDup_remove_dups. }
  destruct (param_loop _ o1 _) as [d1|e1], (param_loop _ o2 _) as [d2|e2]; cbn in *; simplify_eq; done.
Qed.

(** ** What a DSN says *)

Definition accepted (kx : gostring * gostring) : bool := is_ok (param_update (param_of kx.1) kx.2).

(** The loop succeeds on values that are accepted, in any order. *)
Lemma param_loop_ok q order : NoDup q.*1 → order ≡ₚ q.*1 → ∀ d,
  is_ok (param_loop (query_Get q) order d) = forallb accepted q.
Proof.
  intros Hd Ho d.
  assert (∀ l, (∀ k, k ∈ l → k ∈ q.*1) → ∀ d, is_ok (param_loop (query_Get q) l d)
    = forallb (λ k, accepted (k, query_Get q k)) l) as Hl.
  { clear Ho d. induction l as [|k l IH]; intros Hin d; [done|]. cbn [param_loop forallb]. unfold accepted at 1. cbn [fst snd].
    destruct (param_update (param_of k) (query_Get q k)) as [f|e]; [|done]. cbn [mbind result_bind is_ok andb].
    apply IH. intros k' Hk'. apply Hin. by right. }
  rewrite Hl by (intros k; by rewrite Ho).
  assert (forallb (λ k, accepted (k, query_Get q k)) q.*1 = forallb accepted q) as <-.
  { assert (∀ r : list (gostring * gostring), (∀ kx, kx ∈ r → kx ∈ q) →
      forallb (λ k, accepted (k, query_Get q k)) r.*1 = forallb accepted r) as Hr; [|by apply Hr].
    induction r as [|[k x] r IH]; intros Hin; [done|]. cbn [fmap list_fmap forallb fst].
    rewrite (query_Get_found q k x Hd) by (apply Hin; by left). f_equal. apply IH. intros kx Hkx. apply Hin. by right. }
  apply Bool.eq_iff_eq_true. rewrite !forallb_forall. split; intros H k Hk; apply H; apply list_elem_of_In; apply list_elem_of_In in Hk; by (rewrite Ho || rewrite <- Ho).
Qed.

(** ** The options a DSN stands for, whatever the order of its parameters *)

(** The value given for a parameter. *)
Definition given (q : list (gostring * gostring)) (k : gostring) : option gostring :=
  snd <$> List.find (λ kv, bool_decide (kv.1 = k)) q.

Definition secure_of (q : list (gostring * gostring)) : bool := default false (given q (str "secure") ≫= flag_of).
Definition server_name_of (q : list (gostring * gostring)) : gostring := default [] (TrimSpace <$> given q (str "tls_server_name")).

(** A level is that of the method given beside it. *)
Definition compression_given (q : list (gostring * gostring)) : option (CompressionMethod * Z) :=
  let c := given q (str "compress") ≫= (λ x, compress_update x None) in
  match given q (str "compress_level") ≫= ParseInt 8 with Some n => set_level n c | None => c end.

(** Every parameter that is no option of the client. *)
Definition settings_given (q : list (gostring * gostring)) : gmap gostring setting :=
  map_imap (λ k x, match param_of k with PSetting _ => Some (setting_of x) | _ => None end) (list_to_map q).

(** Where the scheme leads. *)
Definition scheme_protocol (scheme : gostring) : Protocol :=
  if bool_decide (scheme = str "http") || bool_decide (scheme = str "https") then HTTP else Native.

(** [http] goes without TLS, [https] with it, and a server name only with it. *)
Definition tls_agrees (scheme : gostring) (q : list (gostring * gostring)) : bool :=
  (bool_decide (server_name_of q = []) || secure_of q)
  && (if bool_decide (scheme = str "http") then negb (secure_of q)
      else if bool_decide (scheme = str "https") then secure_of q else true).

Definition number_given {A} (q : list (gostring * gostring)) (k : gostring) (parse : gostring → option A) (d : A) : A :=
  default d (given q k ≫= parse).

Definition options_of (scheme user password : gostring) (addrs : list gostring) (database : gostring)
    (q : list (gostring * gostring)) : Options :=
  MkOptions (scheme_protocol scheme)
    (from_option products_of [] (given q (str "client_info_product")))
    (if secure_of q then Some (number_given q (str "skip_verify") flag_of false, server_name_of q) else None)
    addrs
    (default database (given q (str "database")))
    (default user (given q (str "username")))
    (default password (given q (str "password")))
    (number_given q (str "debug") ParseBool false)
    (settings_given q)
    (compression_given q)
    (number_given q (str "dial_timeout") (ParseDuration scale_fraction) 0)
    (number_given q (str "max_open_conns") Atoi 0)
    (number_given q (str "max_idle_conns") Atoi 0)
    (number_given q (str "conn_max_lifetime") (ParseDuration scale_fraction) 0)
    (from_option (λ x, strategy_of x ConnOpenInOrder) ConnOpenInOrder (given q (str "connection_open_strategy")))
    (from_option path_of [] (given q (str "http_path")))
    (number_given q (str "block_buffer_size") (ParseUint 8) 0)
    (number_given q (str "max_compression_buffer") Atoi 0)
    (given q (str "http_proxy"))
    scheme
    (number_given q (str "read_timeout") (ParseDuration scale_fraction) 0).

(** A view of the state that the parameters change through [u]. *)
Definition projects {B} (π : dsn_state → B) (u : gostring → gostring → B → B) : Prop :=
  ∀ v x f d, param_update (param_of v) x = Ok f → π (f d) = u v x (π d).

Lemma loop_project {B} (π : dsn_state → B) u get order d d' :
  projects π u → param_loop get order d = Ok d' → π d' = foldl (λ b v, u v (get v) b) (π d) order.
Proof.
  intros Hu. revert d. induction order as [|v order IH]; intros d; cbn [param_loop foldl]; [by intros [= <-]|].
  destruct (param_update (param_of v) (get v)) as [f|e] eqn:E; [|done]. cbn [mbind result_bind]. intros H.
  rewrite (IH _ H). by rewrite (Hu _ _ _ d E).
Qed.

(** Only the parameters [k] and [l] matter, and they do not disturb each other. *)
Lemma fold_two {B} (f : B → gostring → B) order k l b :
  NoDup order → (∀ v b, v ≠ k → v ≠ l → f b v = b) → (∀ b, k ≠ l → f (f b l) k = f (f b k) l) →
  foldl f b order
  = (let b := if decide (k ∈ order) then f b k else b in if decide (l ∈ order ∧ l ≠ k) then f b l else b).
Proof.
  intros Hd Ho Hc. revert b. induction order as [|v order IH]; intros b; cbn [foldl].
  { rewrite !decide_False; [done|..]; set_solver. }
  apply NoDup_cons in Hd as [Hv Hd]. rewrite IH by done. clear IH. cbv zeta.
  destruct (decide (v = k)) as [-> |Hk].
  - rewrite (decide_False (P := k ∈ order)), (decide_True (P := k ∈ k :: order)) by set_solver.
    by rewrite (decide_ext (l ∈ order ∧ l ≠ k) (l ∈ k :: order ∧ l ≠ k)) by set_solver.
  - rewrite (decide_ext (k ∈ v :: order) (k ∈ order)) by set_solver. destruct (decide (v = l)) as [-> |Hl].
    + rewrite (decide_False (P := l ∈ order ∧ l ≠ k)), (decide_True (P := l ∈ l :: order ∧ l ≠ k)) by set_solver.
      case_decide; [|done]. apply Hc. congruence.
    + rewrite (decide_ext (l ∈ v :: order ∧ l ≠ k) (l ∈ order ∧ l ≠ k)) by set_solver. by rewrite (Ho v).
Qed.

Lemma given_map q k : (list_to_map q : gmap gostring gostring) !! k = given q k.
Proof.
  unfold given. induction q as [|[k' x] q IH]; [done|]. cbn [list_to_map foldr List.find fst snd]. case_bool_decide as Hk.
  - subst. by rewrite lookup_insert_eq.
  - by rewrite lookup_insert_ne.
Qed.

Section fields.
Context (q : list (gostring * gostring)) (order : list gostring) (d d' : dsn_state).
Hypothesis distinct : NoDup q.*1.
Hypothesis ordered : order ≡ₚ q.*1.
Hypothesis looped : param_loop (query_Get q) order d = Ok d'.

Lemma given_order {A} k (f : gostring → A) (a : A) :
  (if decide (k ∈ order) then f (query_Get q k) else a) = from_option f a (given q k).
Proof.
  unfold given, query_Get. destruct (List.find _ q) as [kv|] eqn:E.
  - apply find_some in E as [Hin Hk%bool_decide_eq_true]. rewrite decide_True; [done|]. rewrite ordered, <- Hk.
    apply list_elem_of_In in Hin. by apply list_elem_of_fmap_2.
  - rewrite decide_False; [done|]. rewrite ordered. intros ([k' x] & -> & Hin)%list_elem_of_fmap.
    apply list_elem_of_In in Hin. pose proof (find_none _ _ E _ Hin) as Hn. apply bool_decide_eq_false in Hn. by apply Hn.
Qed.

Lemma ordered_NoDup : NoDup order.
Proof. by rewrite ordered. Qed.

(** A field with one parameter. *)
Lemma field_given {B} (π : dsn_state → B) (u : gostring → gostring → B → B) k :
  projects π u → (∀ v x b, v ≠ k → u v x b = b) →
  π d' = from_option (λ x, u k x (π d)) (π d) (given q k).
Proof.
  intros Hu Ho. rewrite (loop_project π u _ _ _ _ Hu looped), (fold_two _ _ k k); [|apply ordered_NoDup|by auto|done].
  cbv zeta. rewrite (decide_False (P := k ∈ order ∧ k ≠ k)) by tauto. apply (given_order k (λ x, u k x (π d))).
Qed.

Lemma compression_field : opt_Compression (ds_opt d) = None → opt_Compression (ds_opt d') = compression_given q.
Proof.
  intros Hn.
  set (u := λ v x c, match param_of v with
                     | PCompress => compress_update x c
                     | PCompressLevel => match ParseInt 8 x with Some n => set_level n c | None => c end
                     | _ => c end).
  assert (projects (λ d, opt_Compression (ds_opt d)) u) as Hu.
  { intros v x f e Hf. unfold u. destruct e as [[] ? ? ?]. destruct (param_of v); cbn in Hf; repeat case_match; by simplify_eq. }
  rewrite (loop_project _ u _ _ _ _ Hu looped), (fold_two _ _ (str "compress") (str "compress_level")).
  - cbv zeta. rewrite Hn.
    rewrite (decide_ext (str "compress_level" ∈ order ∧ str "compress_level" ≠ str "compress") (str "compress_level" ∈ order))
      by (split; [by intros []|by intros]).
    rewrite (given_order (str "compress") (λ x, u (str "compress") x None)).
    rewrite (given_order (str "compress_level") (λ x, u (str "compress_level") x _)). unfold compression_given.
    by destruct (given q (str "compress")), (given q (str "compress_level")).
  - apply ordered_NoDup.
  - intros v b H1 H2. unfold u. destruct (param_of v) eqn:E; try done; exfalso; [apply H1|apply H2]; by apply param_of_inj.
  - intros b _. unfold u. cbn. destruct (ParseInt 8 _); [|done]. symmetry. apply compress_level_commute.
Qed.

Lemma settings_field : Settings (ds_opt d) = ∅ → Settings (ds_opt d') = settings_given q.
Proof.
  intros Hn. apply map_eq. intros k. unfold settings_given. rewrite map_lookup_imap, given_map.
  rewrite (field_given (λ d, Settings (ds_opt d) !! k)
    (λ v x b, if decide (v = k) then match param_of v with PSetting _ => Some (setting_of x) | _ => b end else b) k).
  - rewrite Hn, lookup_empty. destruct (given q k); [|done]. cbn. by rewrite decide_True.
  - intros v x f e Hf. assert (∀ n, param_of v = PSetting n → n = v) as Hk by (intros n E; by rewrite <- (param_name_of v), E).
    destruct e as [[] ? ? ?]. destruct (param_of v) as [| | | | | | | | | | | | | | | | | | | |n]; cbn in Hf; repeat case_match; simplify_eq; try (by case_decide).
    all: rewrite (Hk n eq_refl); cbn; (subst; by rewrite lookup_insert_eq) || by rewrite lookup_insert_ne.
  - intros v x b Hv. by rewrite decide_False.
Qed.

(** The field behind [π] is changed by one case of the switch, that of the parameter [k]. *)
Ltac field π k u :=
  rewrite (field_given π (λ v x b, u (param_of v) x b) k);
  [ |intros v x f [[] ? ? ?] Hf; cbv beta; destruct (param_of v); cbn in Hf; repeat case_match; simplify_option_eq; done
    |intros v x b Hv; destruct (param_of v) eqn:E; try done; exfalso; apply Hv; by apply param_of_inj ].
Ltac fixed_field π := rewrite (field_given π (λ v x b, b) []);
  [ |intros v x f [[] ? ? ?] Hf; cbv beta; destruct (param_of v); cbn in Hf; repeat case_match; simplify_eq; done|done].
Ltac field_from Hd π k u := field π k u; rewrite Hd; by destruct (given _ _).

Lemma switches_given :
  ds_secure d = false → ds_skipVerify d = false → ds_serverName d = [] →
  ds_secure d' = secure_of q ∧ ds_skipVerify d' = number_given q (str "skip_verify") flag_of false
  ∧ ds_serverName d' = server_name_of q.
Proof.
  intros H1 H2 H3. split; [|split].
  - field ds_secure (str "secure") (λ p x b, match p with PSecure => default b (flag_of x) | _ => b end).
    rewrite H1. unfold secure_of. by destruct (given _ _).
  - field ds_skipVerify (str "skip_verify") (λ p x b, match p with PSkipVerify => default b (flag_of x) | _ => b end).
    rewrite H2. unfold number_given. by destruct (given _ _).
  - field ds_serverName (str "tls_server_name") (λ p x (b : gostring), match p with PServerName => TrimSpace x | _ => b end).
    rewrite H3. unfold server_name_of. by destruct (given _ _).
Qed.

(** The options behind the loop, for options that are new but for what stands before the
    parameters. *)
Lemma options_given user password database addrs scheme :
  ds_opt d = put_database database (put_addr addrs (put_password password (put_user user newOptions))) →
  ds_secure d' = secure_of q → ds_skipVerify d' = number_given q (str "skip_verify") flag_of false →
  ds_serverName d' = server_name_of q →
  put_end (scheme_protocol scheme) (if secure_of q then Some (ds_skipVerify d', ds_serverName d') else None) scheme (ds_opt d')
  = options_of scheme user password addrs database q.
Proof.
  intros Hd H1 H2 H3. rewrite H2, H3.
  pose proof (compression_field ltac:(by rewrite Hd)) as Hc. pose proof (settings_field ltac:(by rewrite Hd)) as Hst.
  assert (∀ o, put_end (scheme_protocol scheme)
      (if secure_of q then Some (number_given q (str "skip_verify") flag_of false, server_name_of q) else None) scheme o
    = MkOptions (scheme_protocol scheme) (Products o)
        (if secure_of q then Some (number_given q (str "skip_verify") flag_of false, server_name_of q) else TLS o)
        (Addr o) (Database o) (Username o) (Password o) (Debug o) (Settings o) (opt_Compression o) (DialTimeout o) (MaxOpenConns o)
        (MaxIdleConns o) (ConnMaxLifetime o) (opt_ConnOpenStrategy o) (HttpUrlPath o) (BlockBufferSize o) (MaxCompressionBuffer o)
        (HTTPProxyURL o) scheme (ReadTimeout o)) as -> by (intros []; by destruct (secure_of q)).
  unfold options_of, number_given. rewrite Hc, Hst.
  f_equal.
  - field_from Hd (λ d, Products (ds_opt d)) (str "client_info_product") (λ p x b, match p with PProduct => b ++ products_of x | _ => b end).
  - destruct (secure_of q); [done|]. fixed_field (λ d, TLS (ds_opt d)); rewrite Hd; by destruct (given _ _).
  - fixed_field (λ d, Addr (ds_opt d)); rewrite Hd; by destruct (given _ _).
  - field_from Hd (λ d, Database (ds_opt d)) (str "database") (λ p (x b : gostring), match p with PDatabase => x | _ => b end).
  - field_from Hd (λ d, Username (ds_opt d)) (str "username") (λ p (x b : gostring), match p with PUsername => x | _ => b end).
  - field_from Hd (λ d, Password (ds_opt d)) (str "password") (λ p (x b : gostring), match p with PPassword => x | _ => b end).
  - field_from Hd (λ d, Debug (ds_opt d)) (str "debug") (λ p x b, match p with PDebug => default false (ParseBool x) | _ => b end).
  - field_from Hd (λ d, DialTimeout (ds_opt d)) (str "dial_timeout") (λ p x b, match p with PDialTimeout => default b (ParseDuration scale_fraction x) | _ => b end).
  - field_from Hd (λ d, MaxOpenConns (ds_opt d)) (str "max_open_conns") (λ p x b, match p with PMaxOpen => default b (Atoi x) | _ => b end).
  - field_from Hd (λ d, MaxIdleConns (ds_opt d)) (str "max_idle_conns") (λ p x b, match p with PMaxIdle => default b (Atoi x) | _ => b end).
  - field_from Hd (λ d, ConnMaxLifetime (ds_opt d)) (str "conn_max_lifetime") (λ p x b, match p with PLifetime => default b (ParseDuration scale_fraction x) | _ => b end).
  - field_from Hd (λ d, opt_ConnOpenStrategy (ds_opt d)) (str "connection_open_strategy") (λ p x b, match p with PStrategy => strategy_of x b | _ => b end).
  - field_from Hd (λ d, HttpUrlPath (ds_opt d)) (str "http_path") (λ p x (b : gostring), match p with PPath => path_of x | _ => b end).
  - rewrite (field_given (λ d, BlockBufferSize (ds_opt d))
      (λ v x b, match param_of v with PBlockBufferSize => default b (ParseUint 8 x) | _ => b end) (str "block_buffer_size")).
    + rewrite Hd. by destruct (given _ _).
    + intros v x f [[] ? ? ?] Hf. cbv beta. destruct (param_of v); cbn in Hf; [| | | | |destruct (ParseUint 8 x) eqn:Ex|..]; cbn in Hf; repeat case_match; simplify_eq; done.
    + intros v x b Hv. destruct (param_of v) eqn:E; try done. exfalso. apply Hv. by apply param_of_inj.
  - field_from Hd (λ d, MaxCompressionBuffer (ds_opt d)) (str "max_compression_buffer") (λ p x b, match p with PMaxCompressionBuffer => default b (Atoi x) | _ => b end).
  - field_from Hd (λ d, HTTPProxyURL (ds_opt d)) (str "http_proxy") (λ p x (b : option gostring), match p with PProxy => Some x | _ => b end).
  - field_from Hd (λ d, ReadTimeout (ds_opt d)) (str "read_timeout") (λ p x b, match p with PReadTimeout => default b (ParseDuration scale_fraction x) | _ => b end).
Qed.
End fields.

Definition host_list (hosts : list (gostring * Z)) : list gostring := map (λ '(h, p), h ++ str ":" ++ FormatUint p) hosts.

Lemma host_list_split hosts : hosts_ok hosts → strings_Split (host_text hosts) "," = host_list hosts.
Proof.
  intros [Hne Hh]. unfold host_text, host_list. change (str ",") with [","%byte]. rewrite strings_Split_Join; [done|by destruct hosts|].
  apply Forall_map. eapply Forall_impl; [exact Hh|]. intros [h p] Hhp. cbv beta iota in *.
  apply not_elem_of_app. split; [apply (class_free name_byte); [apply Hhp|done]|].
  apply not_elem_of_app. split; [by apply (bool_decide_unpack _)|].
  apply (class_free name_byte); [apply digits_name|done].
Qed.

(** The query of a DSN, printed and read, with any order of the map. *)
Lemma fromDSN_text scheme user password hosts database q order :
  scheme ≠ [] → Forall (λ b, in_range "a" "z" b = true) scheme → hosts_ok hosts →
  Forall (λ kv, kv.1 ≠ []) q →
  ParseDSN order (dsn scheme user password hosts database (query_text q))
  = Some (d ← param_loop (query_Get q) order
            (MkDsn (put_database database (put_addr (host_list hosts) (put_password password (put_user user newOptions)))) false false []);
          dsn_finish scheme d).
Proof.
  intros Hne Hs Hh Hq.
  assert (Forall (λ x, alnum x || one_of (str "-_.~+%=&") x = true) (query_text q)) as Hclass.
  { assert (∀ s, Forall (λ x, alnum x || one_of (str "-_.~+%=&") x = true) (esc encodeQueryComponent s)) as He.
    { intros s'. eapply Forall_impl; [apply esc_query|]. intros b. by destruct b; vm_compute. }
    unfold query_text. induction q as [|[k v] q IH]; [constructor|]. apply Forall_cons in Hq as [_ Hq]. specialize (IH Hq).
    assert (Forall (λ x, alnum x || one_of (str "-_.~+%=&") x = true)
      (esc encodeQueryComponent k ++ "="%byte :: esc encodeQueryComponent v)) as Hkv.
    { apply Forall_app. split; [apply He|]. constructor; [done|apply He]. }
    destruct q as [|kv q]; [exact Hkv|]. cbn [map strings_Join fst snd] in *. apply Forall_app. split; [exact Hkv|].
    apply Forall_app. split; [by repeat constructor|exact IH]. }
  unfold ParseDSN, fromDSN.
  rewrite (Parse_parts scheme user password hosts database (query_text q) Hne Hs Hh);
    [|by apply (class_free (λ x, alnum x || one_of (str "-_.~+%=&") x))
     |eapply Forall_impl; [exact Hclass|]; intros b; by destruct b; vm_compute].
  cbn [mbind option_bind]. f_equal. cbn [Host RawQuery Scheme].
  rewrite bool_decide_false.
  2: { destruct (host_text_spec hosts Hh) as (_ & m & p & ->). by destruct m. }
  assert (ParseQuery (query_text q) = q) as ->.
  { destruct q; [done|]. by apply ParseQuery_text. }
  unfold dsn_start. cbn [User Host Path]. rewrite host_list_split by done. done.
Qed.

(** Behind the loop: the scheme and TLS go together, or it is an error. *)
Lemma dsn_finish_agrees scheme q d :
  ds_secure d = secure_of q → ds_serverName d = server_name_of q →
  if tls_agrees scheme q
  then dsn_finish scheme d
       = Ok (put_end (scheme_protocol scheme) (if secure_of q then Some (ds_skipVerify d, ds_serverName d) else None) scheme (ds_opt d))
  else ∃ e, dsn_finish scheme d = Err e.
Proof.
  intros H1 H2. unfold dsn_finish, tls_agrees, scheme_protocol. rewrite H1, H2.
  destruct (bool_decide (server_name_of q = [])), (secure_of q), (bool_decide (scheme = str "http")),
    (bool_decide (scheme = str "https")); cbn; done || by eexists.
Qed.


(** ** Defaults *)

(** Options with defaults are ready for use: there is an address, a user, room for idle and
    open connections, and no timeout is zero.  What was set is kept, and defaults are not
    applied twice. *)
Lemma setDefaults_ready o : MaxIdleConns o < 2 ^ 63 - 5 →
  let o' := setDefaults o in
  Addr o' ≠ [] ∧ Username o' ≠ [] ∧ 0 < MaxIdleConns o' ∧ 0 < MaxOpenConns o' ∧ DialTimeout o' ≠ 0 ∧ ReadTimeout o' ≠ 0
  ∧ ConnMaxLifetime o' ≠ 0 ∧ 0 < BlockBufferSize o' ∧ 0 < MaxCompressionBuffer o' ∧ setDefaults o' = o'
  ∧ (Addr o ≠ [] → Addr o' = Addr o) ∧ (0 < MaxOpenConns o → MaxOpenConns o' = MaxOpenConns o)
  ∧ Settings o' = Settings o ∧ opt_Compression o' = opt_Compression o.
Proof.
  destruct o as [a p t ad db u pw d s c dt mo mi cl st hp bb mc px sc rt]. cbn. intros Hmi.
  set (mi' := if mi <=? 0 then 5 else mi).
  assert (0 < mi' < 2 ^ 63 - 5) as Hmi' by (unfold mi'; destruct (Z.leb_spec mi 0); lia).
  assert (int_add mi' 5 = mi' + 5) as Ha.
  { unfold int_add, i64, swrap. rewrite Z.mod_small by lia. lia. }
  set (mo' := if mo <=? 0 then int_add mi' 5 else mo).
  assert (0 < mo') as Hmo' by (unfold mo'; destruct (Z.leb_spec mo 0); lia).
  assert ((if mi' <=? 0 then 5 else mi') = mi') as E1 by (destruct (Z.leb_spec mi' 0); [lia|done]).
  assert ((if mo' <=? 0 then int_add mi' 5 else mo') = mo') as E2 by (destruct (Z.leb_spec mo' 0); [lia|done]).
  split; [case_bool_decide; by destruct a|]. split; [by case_bool_decide|]. split; [lia|]. split; [lia|].
  split; [destruct (Z.eqb_spec dt 0); lia|]. split; [destruct (Z.eqb_spec rt 0); lia|].
  split; [destruct (Z.eqb_spec cl 0); lia|]. split; [destruct (Z.leb_spec bb 0); lia|].
  split; [destruct (Z.leb_spec mc 0); lia|]. split.
  - rewrite E1, E2. f_equal.
    + destruct (bool_decide (ad = [])) eqn:Ead; [by destruct a|by rewrite Ead].
    + destruct (bool_decide (u = [])) eqn:Eu; [done|by rewrite Eu].
    + destruct (Z.eqb_spec dt 0); [done|]. by rewrite (proj2 (Z.eqb_neq dt 0)).
    + destruct (Z.eqb_spec cl 0); [done|]. by rewrite (proj2 (Z.eqb_neq cl 0)).
    + destruct (Z.leb_spec bb 0); [done|]. by rewrite (proj2 (Z.leb_gt bb 0)).
    + destruct (Z.leb_spec mc 0); [done|]. by rewrite (proj2 (Z.leb_gt mc 0)).
    + destruct (Z.eqb_spec rt 0); [done|]. by rewrite (proj2 (Z.eqb_neq rt 0)).
  - split; [intros Had; by rewrite bool_decide_false|]. split; [|done].
    intros Hmo. unfold mo'. by rewrite (proj2 (Z.leb_gt mo 0)).
Qed.
End dsn.

(** ** Examples and edges *)

Section demo.
Let sf : gostring → Z → Z := λ _ _, 0.
Let lower : gostring → gostring := λ s, s.
Let proxy_ok : gostring → bool := λ _, true.

Definition demo_query : list (gostring * gostring) :=
  [(str "compress_level", str "7"); (str "max_execution_time", str "60"); (str "compress", str "zstd");
   (str "dial_timeout", str "200ms"); (str "secure", []); (str "tls_server_name", str " ch.example");
   (str "username", str "admin")].
Definition demo_dsn : gostring :=
  dsn (str "clickhouse") (str "u@x") (str "p:w/?#") [(str "h1", 9000); (str "h2", 9440)] (str "my db") (query_text demo_query).


Lemma ParseDSN_deterministic_witness :
  (ok_of <$> ParseDSN sf lower proxy_ok demo_query.*1 demo_dsn) = (ok_of <$> ParseDSN sf lower proxy_ok (reverse demo_query.*1) demo_dsn)
  ∧ match ParseDSN sf lower proxy_ok demo_query.*1 demo_dsn with Some (Ok o) => opt_Compression o | _ => None end
    = Some (CompressionZSTD, 7).
Proof.
  split; [|vm_compute; reflexivity].
  apply (ParseDSN_deterministic sf lower proxy_ok demo_query.*1 (reverse demo_query.*1) demo_dsn).
  - vm_compute. apply Permutation_refl.
  - vm_compute. match goal with |- Permutation _ ?l => symmetry; exact (Permutation_rev l) end.
Defined.

(** The value of a setting is lower-cased on its way. *)
Lemma settings_are_lowercased : setting_of lower (str "Europe/Berlin") = SetString (str "europe/berlin").
Proof. vm_compute. reflexivity. Qed.

(** Values that are not known are ignored: a mistyped method leaves compression off. *)
Lemma unknown_values_are_ignored :
  compress_update (str "gzp") None = None ∧ strategy_of (str "roundrobin") ConnOpenInOrder = ConnOpenInOrder.
Proof. done. Qed.

(** So many idle connections that the default for open ones wraps around. *)
Lemma default_open_conns_wrap : MaxOpenConns (setDefaults (put_idle (2 ^ 63 - 1) newOptions)) < 0.
Proof. vm_compute. reflexivity. Qed.
End demo.
