(* ===== verification/Block.v ===== *)
(** * Blocks of columns ([lib/proto/block.go])

    A block is the unit of data on the wire: the columns' names and the columns.  The
    block's code works on [column.Interface]; [ColumnOps] is that interface, with the
    optional [CustomSerialization] as a prefix that may be absent.  [strict] and
    [CodecLaws] are what a block relies on; the theorems hold for every implementation,
    and [BlockColumns.v] discharges them for the driver's own columns. *)

From Stdlib Require Import ZifyBool.
From stdpp Require Import sorting.
From S2P Require Import Prelude GoStd Wire ProtoPackets.
Local Open Scope Z_scope.

(** [column.Interface] and [column.Type.Column]; [cell] is the [any] a row holds. *)
Class ColumnOps := {
  col : Type;
  cell : Type;
  col_err : Type;
  colName : col → gostring;
  colType : col → gostring;
  colRows : col → nat;
  (** The column afterwards, and the error if there is one. *)
  AppendRow : col → cell → col * option col_err;
  colReset : col → col;
  (** [Type.Column(name, ctx)]. *)
  newColumn : gostring → gostring → result col_err col;
  (** [WriteStatePrefix], [None] when the column has no [CustomSerialization]. *)
  WriteStatePrefix : col → option (result col_err gostring);
  colEncode : col → gostring;
  (** [ReadStatePrefix] and [Decode]. *)
  ReadStatePrefix : col → option (gostring → result col_err (col * gostring));
  colDecode : col → nat → gostring → result col_err (col * gostring)
}.

Inductive block_err `{ColumnOps} :=
| ErrArguments (expected got : nat)
| ErrAppendRow (column : gostring) (e : col_err)
| ErrOrderLength (expected got : nat)
| ErrMissing (missing : list gostring)
| ErrMismatched (expected received : nat) (column : gostring)
| ErrPrefix (column : gostring) (e : col_err)
| ErrOutOfRange (i : Z) (n : nat)
| ErrTooManyRows
| ErrBlockRead
| ErrNewColumn (e : col_err)
| ErrCustomSerialization (column : gostring)
| ErrColumn (column : gostring) (e : col_err).

Section block.
Context `{CO : ColumnOps} {W : Wire}.

Record Block := MkBlock { names : list gostring; Columns : list col }.

Definition NewBlock : Block := MkBlock [] [].

Definition block_Rows (b : Block) : nat :=
  match Columns b with [] => 0 | c :: _ => colRows c end.

Definition AddColumn (b : Block) (name ct : gostring) : result block_err Block :=
  match newColumn name ct with
  | Err e => Err (ErrNewColumn e)
  | Ok c => Ok (MkBlock (names b ++ [name]) (Columns b ++ [c]))
  end.

(** The loop of [Append]: each column in turn, stopping at the first error; the
    columns before it keep the row. *)
Fixpoint append_loop (cols : list col) (v : list cell) : list col * option block_err :=
  match cols, v with
  | c :: cols, x :: v =>
      match AppendRow c x with
      | (c', Some e) => (c' :: cols, Some (ErrAppendRow (colName c) e))
      | (c', None) => let '(cols', r) := append_loop cols v in (c' :: cols', r)
      end
  | _, _ => (cols, None)
  end.

Definition Append (b : Block) (v : list cell) : Block * option block_err :=
  if negb (Nat.eqb (length (Columns b)) (length v))
  then (b, Some (ErrArguments (length (Columns b)) (length v)))
  else let '(cols, r) := append_loop (Columns b) v in (MkBlock (names b) cols, r).

Definition block_Reset (b : Block) : Block := MkBlock (names b) (map colReset (Columns b)).

(** ** Column order *)

(** [difference(a, b)]: the elements of [a] that [b] lacks, in order. *)
Definition difference (a b : list gostring) : list gostring :=
  let mb : gset gostring := list_to_set b in List.filter (λ x, negb (bool_decide (x ∈ mb))) a.

(** [lookup]: the last position wins. *)
Definition lookup_ranks (columns : list gostring) : gmap gostring nat :=
  list_to_map (reverse (zip columns (seq 0 (length columns)))).

(** [lookup[name]]: 0 when absent. *)
Definition rank (lookup : gmap gostring nat) (name : gostring) : nat := default 0%nat (lookup !! name).

(** [sort.Slice]: the elements in ascending order of their ranks.  The order of
    elements of equal rank is left open by the library; the block has none. *)
Fixpoint insert_by {A} (key : A → nat) (x : A) (l : list A) : list A :=
  match l with
  | [] => [x]
  | y :: l => if (key y <? key x)%nat then y :: insert_by key x l else x :: y :: l
  end.
Definition sort_Slice {A} (key : A → nat) (l : list A) : list A := foldr (insert_by key) [] l.

Definition SortColumns (b : Block) (columns : list gostring) : Block * option block_err :=
  if bool_decide (columns = []) then (b, None)
  else if negb (Nat.eqb (length columns) (length (Columns b)))
  then (b, Some (ErrOrderLength (length (Columns b)) (length columns)))
  else
    let missing := difference (names b) columns in
    if bool_decide (missing ≠ []) then (b, Some (ErrMissing missing))
    else
      let lookup := lookup_ranks columns in
      (MkBlock (sort_Slice (rank lookup) (names b)) (sort_Slice (λ c, rank lookup (colName c)) (Columns b)), None).

(** ** Encoding *)

Definition encodeBlockInfo : gostring :=
  PutUVarInt 1 ++ PutBool false ++ PutUVarInt 2 ++ PutInt32 (-1) ++ PutUVarInt 0.

(** [for _, c := range b.Columns[1:]]: all columns have as many rows as the first. *)
Fixpoint check_rows (rows : nat) (cols : list col) : option block_err :=
  match cols with
  | [] => None
  | c :: cols =>
      if negb (Nat.eqb rows (colRows c)) then Some (ErrMismatched rows (colRows c) (colName c))
      else check_rows rows cols
  end.

Definition EncodeHeader (b : Block) (revision : Z) : result block_err gostring :=
  let info := put_when (0 <? revision) encodeBlockInfo in
  match check_rows (block_Rows b) (tail (Columns b)) with
  | Some e => Err e
  | None => Ok (info ++ PutUVarInt (Z.of_nat (length (Columns b))) ++ PutUVarInt (Z.of_nat (block_Rows b)))
  end.

(** The text of one column. *)
Definition column_bytes (c : col) (revision : Z) : result block_err gostring :=
  prefix ← match WriteStatePrefix c with
           | None => Ok []
           | Some (Ok p) => Ok p
           | Some (Err e) => Err (ErrPrefix (colName c) e) end;
  Ok (PutString (colName c) ++ PutString (colType c)
      ++ put_when (DBMS_MIN_REVISION_WITH_CUSTOM_SERIALIZATION <=? revision) (PutBool false)
      ++ prefix ++ colEncode c).

Definition EncodeColumn (b : Block) (revision : Z) (i : Z) : result block_err gostring :=
  if (0 <=? i) && (i <? Z.of_nat (length (Columns b))) then
    match Columns b !! Z.to_nat i with
    | Some c => column_bytes c revision
    | None => Err (ErrOutOfRange i (length (Columns b)))
    end
  else Err (ErrOutOfRange i (length (Columns b))).

(** [for i := range b.Columns]. *)
Fixpoint encode_columns (b : Block) (revision : Z) (idx : list nat) : result block_err gostring :=
  match idx with
  | [] => Ok []
  | i :: idx => x ← EncodeColumn b revision (Z.of_nat i); r ← encode_columns b revision idx; Ok (x ++ r)
  end.

Definition Block_Encode (b : Block) (revision : Z) : result block_err gostring :=
  h ← EncodeHeader b revision;
  r ← encode_columns b revision (seq 0 (length (Columns b)));
  Ok (h ++ r).

(** ** Decoding *)

Definition decodeBlockInfo (s : gostring) : option gostring :=
  '(_, s) ← RUVarInt s;
  '(_, s) ← RBool s;
  '(_, s) ← RUVarInt s;
  '(_, s) ← RInt32 s;
  '(_, s) ← RUVarInt s;
  Some s.

(** A read error of the block itself. *)
Definition bread {A} (r : option A) : result block_err A :=
  match r with Some x => Ok x | None => Err ErrBlockRead end.

(** One column: name, type, the custom-serialization flag and, when there are rows,
    the prefix and the data. *)
Definition decode_column (numRows : Z) (revision : Z) (s : gostring) : result block_err (gostring * col * gostring) :=
  '(columnName, s) ← bread (RStr s);
  '(columnType, s) ← bread (RStr s);
  c ← match newColumn columnName columnType with Ok c => Ok c | Err e => Err (ErrNewColumn e) end;
  '(hasCustom, s) ← (if DBMS_MIN_REVISION_WITH_CUSTOM_SERIALIZATION <=? revision
                     then bread (RBool s) else Ok (false, s));
  if (hasCustom : bool) then Err (ErrCustomSerialization columnName)
  else if numRows =? 0 then Ok (columnName, c, s)
  else
    '(c, s) ← match ReadStatePrefix c with
              | None => Ok (c, s)
              | Some rd => map_err (ErrColumn columnName) (rd s) end;
    '(c, s) ← map_err (ErrColumn columnName) (colDecode c (Z.to_nat numRows) s);
    Ok (columnName, c, s).

Fixpoint decode_columns (n : nat) (numRows revision : Z) (s : gostring)
    : result block_err (list gostring * list col * gostring) :=
  match n with
  | O => Ok ([], [], s)
  | S n =>
      '(name, c, s) ← decode_column numRows revision s;
      '(ns, cs, s) ← decode_columns n numRows revision s;
      Ok (name :: ns, c :: cs, s)
  end.

(** [None] is the panic of [make] for a length that is no [int]. *)
Definition Block_Decode (revision : Z) (s : gostring) : option (result block_err (Block * gostring)) :=
  match (if 0 <? revision then decodeBlockInfo s else Some s) with
  | None => Some (Err ErrBlockRead)
  | Some s =>
      match RUVarInt s with
      | None => Some (Err ErrBlockRead)
      | Some (numCols, s) =>
          match RUVarInt s with
          | None => Some (Err ErrBlockRead)
          | Some (numRows, s) =>
              if 1000000000 <? numRows then Some (Err ErrTooManyRows)
              else if 2 ^ 63 <=? numCols then None
              else Some ('(ns, cs, s) ← decode_columns (Z.to_nat numCols) numRows revision s;
                         Ok (MkBlock ns cs, s))
          end
      end
  end.
End block.
Arguments Block {CO}.

(** Columns that a refused value leaves as they were: a successful [AppendRow] adds one
    row, a failed one adds none; the name stays.  The columns of plain values are strict;
    [Nullable] and [Array] are not ([BlockColumns.v]). *)
Definition strict {CO : ColumnOps} (c : col) : Prop := ∀ x c' e, AppendRow c x = (c', e) →
  colRows c' = (colRows c + match e with None => 1 | Some _ => 0 end)%nat ∧ colName c' = colName c.

(** What the encoding relies on: a column that has rows is read back from what it writes,
    by a fresh column of its name and type.  [consistent_col] are the columns it holds for,
    [same_rows] relates a column to the one that was read. *)
Class CodecLaws (CO : ColumnOps) (W : Wire) := {
  consistent_col : col → Prop;
  same_rows : col → col → Prop;
  column_roundtrip : ∀ c p, consistent_col c → (0 < colRows c)%nat →
    match WriteStatePrefix c with None => p = [] | Some r => r = Ok p end →
    ∃ c0 c', newColumn (colName c) (colType c) = Ok c0 ∧ same_rows c c' ∧ ∀ rest,
      match ReadStatePrefix c0 with
      | None => p = [] ∧ colDecode c0 (colRows c) (colEncode c ++ rest) = Ok (c', rest)
      | Some rd => ∃ c1, rd (p ++ colEncode c ++ rest) = Ok (c1, colEncode c ++ rest)
                         ∧ colDecode c1 (colRows c) (colEncode c ++ rest) = Ok (c', rest)
      end
}.

Section theorems.
Context {CO : ColumnOps} {W : Wire}.

(** ** Order *)

Lemma insert_by_perm {A} (key : A → nat) x l : insert_by key x l ≡ₚ x :: l.
Proof.
  induction l as [|y l IH]; [done|]. simpl. destruct (key y <? key x)%nat; [|done].
  rewrite IH. apply Permutation_swap.
Qed.

Lemma sort_Slice_perm {A} (key : A → nat) l : sort_Slice key l ≡ₚ l.
Proof. induction l as [|x l IH]; [done|]. simpl. by rewrite insert_by_perm, IH. Qed.

Definition ascending {A} (key : A → nat) : list A → Prop := Sorted (λ x y, key x ≤ key y)%nat.

Lemma insert_by_ascending {A} (key : A → nat) x l : ascending key l → ascending key (insert_by key x l).
Proof.
  induction 1 as [|y l Hs IH Hh]; [by repeat constructor|]. simpl.
  destruct (Nat.ltb_spec (key y) (key x)).
  - constructor; [done|]. destruct Hh as [|z l Hz]; simpl; [constructor; lia|].
    destruct (key z <? key x)%nat; constructor; lia.
  - constructor; [by constructor|]. constructor. lia.
Qed.

Lemma sort_Slice_ascending {A} (key : A → nat) l : ascending key (sort_Slice key l).
Proof. induction l as [|x l IH]; [constructor|]. simpl. by apply insert_by_ascending. Qed.

(** Sorting commutes with a map that preserves the key. *)
Lemma sort_Slice_map {A B} (f : A → B) (key : B → nat) l :
  map f (sort_Slice (λ x, key (f x)) l) = sort_Slice key (map f l).
Proof.
  assert (∀ x l, map f (insert_by (λ x, key (f x)) x l) = insert_by key (f x) (map f l)) as Hi.
  { intros x. induction l0 as [|y l0 IH]; [done|]. simpl. destruct (key (f y) <? key (f x))%nat; [|done].
    simpl. by rewrite IH. }
  induction l as [|x l IH]; [done|]. simpl. by rewrite Hi, IH.
Qed.

Lemma rank_lookup columns i name :
  NoDup columns → columns !! i = Some name → rank (lookup_ranks columns) name = i.
Proof.
  intros Hd Hi. unfold rank, lookup_ranks.
  assert (NoDup (reverse (zip columns (seq 0 (length columns)))).*1) as Hnd.
  { rewrite fmap_reverse, reverse_Permutation. rewrite fst_zip by (rewrite length_seq; lia). done. }
  rewrite (proj1 (elem_of_list_to_map _ name i Hnd)); [done|].
  apply elem_of_reverse. apply list_elem_of_lookup. exists i.
  rewrite lookup_zip_with, Hi. cbn. rewrite lookup_seq_lt; [done|]. by eapply lookup_lt_Some.
Qed.

(** Distinct names in ascending order of their positions in [columns] are [columns]. *)
Lemma sort_by_rank columns l :
  NoDup columns → l ≡ₚ columns → sort_Slice (rank (lookup_ranks columns)) l = columns.
Proof.
  intros Hd Hp. set (key := rank (lookup_ranks columns)).
  assert (sort_Slice key l ≡ₚ columns) as Hs by (by rewrite sort_Slice_perm).
  assert (Transitive (λ x y, key x ≤ key y)%nat) by (intros x y z; lia).
  apply (Sorted_unique_strong (λ x y, key x ≤ key y)%nat).
  - intros x y. rewrite !Hs. intros [i Hi]%list_elem_of_lookup [j Hj]%list_elem_of_lookup.
    unfold key. rewrite (rank_lookup columns i x), (rank_lookup columns j y) by done.
    intros ? ?. assert (i = j) as -> by lia. congruence.
  - apply sort_Slice_ascending.
  - assert (∀ pre suf, columns = pre ++ suf → Sorted (λ x y, key x ≤ key y)%nat suf) as Hsuf.
    { intros pre suf. revert pre. induction suf as [|x suf IH]; intros pre E; [constructor|].
      constructor; [apply (IH (pre ++ [x])); by rewrite <- app_assoc|].
      destruct suf as [|y suf]; constructor. unfold key.
      rewrite (rank_lookup columns (length pre) x), (rank_lookup columns (S (length pre)) y); try done; [lia| |].
      - rewrite E, lookup_app_r by lia. by replace (S (length pre) - length pre)%nat with 1%nat by lia.
      - rewrite E. by apply list_lookup_middle. }
    by apply (Hsuf []).
  - done.
Qed.

Lemma difference_nil a b : difference a b = [] ↔ ∀ x, x ∈ a → x ∈ b.
Proof.
  unfold difference. split.
  - intros E x Hx. destruct (decide (x ∈ b)) as [|Hn]; [done|]. exfalso.
    assert (In x (List.filter (λ x, negb (bool_decide (x ∈ (list_to_set b : gset gostring)))) a)) as Hin.
    { apply filter_In. split; [by apply list_elem_of_In|].
      rewrite bool_decide_false; [done|]. by rewrite elem_of_list_to_set. }
    by rewrite E in Hin.
  - intros H. induction a as [|x a IH]; [done|]. cbn [List.filter].
    rewrite bool_decide_true by (apply elem_of_list_to_set, H; left). cbn. apply IH. intros y Hy. apply H. by right.
Qed.

(** [SortColumns] on a block with distinct column names: a preferred order that is a
    permutation of the names is adopted exactly, names and columns staying in step and
    no column lost; any other non-empty order is refused and leaves the block as it is. *)
Theorem SortColumns_spec b columns :
  columns ≠ [] → NoDup (names b) → names b = map colName (Columns b) →
  (columns ≡ₚ names b →
     ∃ b', SortColumns b columns = (b', None) ∧ names b' = columns
           ∧ map colName (Columns b') = columns ∧ Columns b' ≡ₚ Columns b)
  ∧ (¬ columns ≡ₚ names b → ∃ e, SortColumns b columns = (b, Some e)).
Proof.
  intros Hne Hd Hn. unfold SortColumns. rewrite bool_decide_false by done.
  assert (length (Columns b) = length (names b)) as Hl by (by rewrite Hn, length_map).
  split.
  - intros Hp. rewrite (Permutation_length Hp), <- Hl, Nat.eqb_refl. cbn [negb].
    rewrite bool_decide_false.
    2:{ intros H. apply H. apply difference_nil. intros x Hx. by rewrite Hp. }
    eexists. split; [done|]. cbn [names Columns].
    assert (NoDup columns) as Hdc by (by rewrite Hp).
    split; [by apply sort_by_rank|]. split; [|apply sort_Slice_perm].
    rewrite (sort_Slice_map colName). apply sort_by_rank; [done|]. by rewrite <- Hn.
  - intros Hnp. destruct (Nat.eqb_spec (length columns) (length (Columns b))) as [E|E]; [|by eexists].
    cbn [negb]. case_bool_decide as Hm; [by eexists|]. exfalso. apply Hnp. symmetry.
    rewrite difference_nil in Hm.
    apply submseteq_length_Permutation; [|lia]. apply NoDup_submseteq; [done|]. done.
Qed.

(** ** Rows *)

Definition even_rows (r : nat) (cols : list col) : Prop := Forall (λ c, colRows c = r) cols.

Lemma check_rows_None r cols : check_rows r cols = None ↔ even_rows r cols.
Proof.
  induction cols as [|c cols IH]; cbn [check_rows]; [by split; [constructor|]|].
  destruct (Nat.eqb_spec r (colRows c)) as [->|Hne]; cbn [negb].
  - rewrite IH. split; [by constructor|]. by intros [_ H]%Forall_cons.
  - split; [done|]. intros [H _]%Forall_cons. congruence.
Qed.

Lemma EncodeHeader_ok b revision r :
  even_rows r (Columns b) → is_ok (EncodeHeader b revision) = true.
Proof.
  intros Hr. unfold EncodeHeader, block_Rows. destruct (Columns b) as [|c cols]; [done|].
  apply Forall_cons in Hr as [Hc Hr]. cbn [tail].
  rewrite (proj2 (check_rows_None _ _)); [done|]. by rewrite Hc.
Qed.


(** What the loop of [Append] leaves behind. *)
Lemma append_loop_rows r cols v cols' e :
  Forall strict cols → even_rows r cols → length cols = length v → append_loop cols v = (cols', e) →
  match e with
  | None => even_rows (S r) cols'
  | Some _ => even_rows r cols' ∨ ∃ c rest, cols' = c :: rest ∧ colRows c = S r ∧ ¬ even_rows (S r) rest
  end ∧ map colName cols' = map colName cols.
Proof.
  revert v cols' e. induction cols as [|c cols IH]; intros [|x v] cols' e Hst Hr Hl E; try done; cbn in E.
  { simplify_eq. split; [constructor|done]. }
  apply Forall_cons in Hr as [Hc Hr]. apply Forall_cons in Hst as [Hsc Hst].
  destruct (AppendRow c x) as [c' [er|]] eqn:Ea; apply Hsc in Ea as [Hrows Hname].
  - simplify_eq. split; [|cbn; by rewrite Hname]. left. constructor; [lia|done].
  - destruct (append_loop cols v) as [cs r'] eqn:El. simplify_eq.
    destruct (IH v cs e Hst Hr) as [Hs Hm]; [simpl in Hl; lia|done|].
    split; [|cbn; by rewrite Hname, Hm]. destruct e as [e|].
    + right. exists c', cs. split; [done|]. split; [lia|]. intros Hall.
      destruct Hs as [Hs|(d & rest & -> & Hd & Hn)].
      * destruct Hs as [|d cs Hd Hs]; [|apply Forall_cons in Hall as [Hd' _]; lia].
        destruct cols as [|d cols]; [|by cbn in Hm]. by destruct v.
      * apply Forall_cons in Hall as [_ Hall]. done.
    + constructor; [lia|done].
Qed.

(** [Append] on a block of strict columns that have equally many rows: success adds one row
    to every column; a failure in the first column changes no row count; a failure in
    a later one leaves the columns uneven, and such a block can not be encoded at any
    revision, so that a half-appended row never reaches the server. *)
Theorem Append_all_or_unencodable b v r b' e :
  Forall strict (Columns b) → even_rows r (Columns b) → Append b v = (b', e) →
  map colName (Columns b') = map colName (Columns b) ∧
  match e with
  | None => even_rows (S r) (Columns b')
  | Some _ => even_rows r (Columns b') ∨ ∀ revision, is_ok (Block_Encode b' revision) = false
  end.
Proof.
  intros Hst Hr E. unfold Append in E. destruct (Nat.eqb_spec (length (Columns b)) (length v)) as [Hl|Hl];
    cbn [negb] in E; [|simplify_eq; by split; [|left]].
  destruct (append_loop (Columns b) v) as [cols er] eqn:El. simplify_eq. cbn [Columns].
  destruct (append_loop_rows r _ _ _ _ Hst Hr Hl El) as [Hs Hm]. split; [done|].
  destruct e as [e|]; [|done]. destruct Hs as [Hs|(c & rest & -> & Hc & Hn)]; [by left|]. right.
  intros revision. unfold Block_Encode, EncodeHeader, block_Rows. cbn [Columns tail].
  destruct (check_rows (colRows c) rest) eqn:Ec; [done|]. exfalso. apply Hn.
  apply check_rows_None in Ec. by rewrite Hc in Ec.
Qed.

(** ** The wire *)

Context {CL : CodecLaws CO W} {L : WireLaws W}.

Definition column_ok (r : nat) (c : col) : Prop :=
  consistent_col c ∧ colRows c = r ∧ go_len (colName c) ∧ go_len (colType c)
  ∧ (WriteStatePrefix c = None ∨ ∃ p, WriteStatePrefix c = Some (Ok p)).

Lemma decode_column_bytes r c revision bytes :
  (0 < r)%nat → column_ok r c → column_bytes c revision = Ok bytes →
  ∃ c', same_rows c c' ∧ ∀ rest, decode_column (Z.of_nat r) revision (bytes ++ rest) = Ok (colName c, c', rest).
Proof.
  intros Hr (Hcc & Hc & Hn & Ht & Hp) E. unfold column_bytes in E.
  assert (∃ p, match WriteStatePrefix c with None => p = [] | Some x => x = Ok p end) as [p Hpp].
  { destruct Hp as [->|[p ->]]; by eexists. }
  assert (bytes = PutString (colName c) ++ PutString (colType c)
      ++ put_when (DBMS_MIN_REVISION_WITH_CUSTOM_SERIALIZATION <=? revision) (PutBool false) ++ p ++ colEncode c) as ->.
  { destruct (WriteStatePrefix c) as [x|]; subst; cbn in E; by injection E. }
  destruct (column_roundtrip c p) as (c0 & c' & Enew & Hsame & Hrt); [done|lia|done|].
  exists c'. split; [done|]. intros rest. specialize (Hrt rest).
  unfold decode_column. rewrite <- !app_assoc. rewrite reads_Str by done. cbn [bread mbind result_bind].
  rewrite reads_Str by done. cbn [bread mbind result_bind]. rewrite Enew. cbn [mbind result_bind].
  assert ((if DBMS_MIN_REVISION_WITH_CUSTOM_SERIALIZATION <=? revision
           then bread (RBool (put_when (DBMS_MIN_REVISION_WITH_CUSTOM_SERIALIZATION <=? revision) (PutBool false)
                              ++ p ++ colEncode c ++ rest))
           else Ok (false, put_when (DBMS_MIN_REVISION_WITH_CUSTOM_SERIALIZATION <=? revision) (PutBool false)
                              ++ p ++ colEncode c ++ rest)) = Ok (false, p ++ colEncode c ++ rest)) as ->.
  { unfold put_when. destruct (DBMS_MIN_REVISION_WITH_CUSTOM_SERIALIZATION <=? revision); [|done].
    by rewrite reads_Bool. }
  cbn [mbind result_bind]. destruct (Z.eqb_spec (Z.of_nat r) 0) as [|_]; [lia|]. rewrite Nat2Z.id, <- Hc.
  destruct (ReadStatePrefix c0) as [rd|].
  - destruct Hrt as (c1 & -> & Hd). cbn [map_err mbind result_bind]. by rewrite Hd.
  - destruct Hrt as (-> & Hd). cbn [mbind result_bind app]. by rewrite Hd.
Qed.

(** The columns one after the other. *)
Fixpoint all_bytes (cols : list col) (revision : Z) : result block_err gostring :=
  match cols with
  | [] => Ok []
  | c :: cols => x ← column_bytes c revision; y ← all_bytes cols revision; Ok (x ++ y)
  end.

Lemma encode_columns_all ns pre cols revision :
  encode_columns (MkBlock ns (pre ++ cols)) revision (seq (length pre) (length cols)) = all_bytes cols revision.
Proof.
  revert pre. induction cols as [|c cols IH]; intros pre; [done|]. cbn [length seq encode_columns all_bytes].
  assert (EncodeColumn (MkBlock ns (pre ++ c :: cols)) revision (Z.of_nat (length pre)) = column_bytes c revision) as ->.
  { unfold EncodeColumn. cbn [Columns]. rewrite length_app. cbn [length].
    destruct (Z.leb_spec 0 (Z.of_nat (length pre))); [|lia].
    destruct (Z.ltb_spec (Z.of_nat (length pre)) (Z.of_nat (length pre + S (length cols)))); [|lia].
    cbn [andb]. by rewrite Nat2Z.id, list_lookup_middle. }
  specialize (IH (pre ++ [c])). rewrite <- app_assoc in IH. cbn [app] in IH.
  rewrite length_app, Nat.add_1_r in IH. by rewrite IH.
Qed.

Lemma all_bytes_decode r cols revision :
  (0 < r)%nat → Forall (column_ok r) cols →
  ∃ bytes cols', all_bytes cols revision = Ok bytes ∧ Forall2 same_rows cols cols' ∧ ∀ rest,
    decode_columns (length cols) (Z.of_nat r) revision (bytes ++ rest) = Ok (map colName cols, cols', rest).
Proof.
  intros Hr Hc. induction Hc as [|c cols Hc Hcs (bs & cs & IH1 & IH2 & IH3)]; [by eexists _, []|].
  assert (∃ x, column_bytes c revision = Ok x) as [x Ex].
  { destruct Hc as (_ & _ & _ & _ & Hp). unfold column_bytes. destruct Hp as [->|[p ->]]; by eexists. }
  destruct (decode_column_bytes r c revision x Hr Hc Ex) as (c' & Hs & Hd).
  exists (x ++ bs), (c' :: cs). cbn [all_bytes length decode_columns map]. rewrite Ex, IH1. split; [done|].
  split; [by constructor|]. intros rest. rewrite <- app_assoc, Hd. cbn [mbind result_bind]. by rewrite IH3.
Qed.

Lemma decode_encodeBlockInfo rest : decodeBlockInfo (encodeBlockInfo ++ rest) = Some rest.
Proof.
  unfold decodeBlockInfo, encodeBlockInfo. rewrite <- !app_assoc.
  rewrite reads_UVarInt by done. cbn [mbind option_bind]. rewrite reads_Bool by done. cbn [mbind option_bind].
  rewrite reads_UVarInt by done. cbn [mbind option_bind]. rewrite reads_Int32 by done. cbn [mbind option_bind].
  by rewrite reads_UVarInt by done.
Qed.

Lemma Block_reads b revision r :
  names b = map colName (Columns b) → Forall (column_ok r) (Columns b) →
  (0 < r)%nat ∨ Columns b = [] → Z.of_nat r ≤ 1000000000 → Z.of_nat (length (Columns b)) < 2 ^ 63 →
  ∃ bytes cols', Block_Encode b revision = Ok bytes ∧ Forall2 same_rows (Columns b) cols' ∧ ∀ rest,
    Block_Decode revision (bytes ++ rest) = Some (Ok (MkBlock (names b) cols', rest)).
Proof.
  destruct b as [ns cols]. cbn [names Columns]. intros -> Hc Hr Hmax Hlen.
  assert (∃ n, block_Rows (MkBlock (map colName cols) cols) = n ∧ Z.of_nat n ≤ 1000000000
    ∧ check_rows n (tail cols) = None ∧ ∃ bytes cols', all_bytes cols revision = Ok bytes ∧ Forall2 same_rows cols cols' ∧ ∀ rest,
    decode_columns (length cols) (Z.of_nat n) revision (bytes ++ rest) = Ok (map colName cols, cols', rest))
    as (n & Hn & Hnmax & Hcheck & bytes & cols' & Eb & Hs & Ed).
  { destruct Hr as [Hr|Hnil]; [|subst cols; exists 0%nat; split; [done|]; split; [lia|]; split; [done|]; by exists [], []].
    destruct cols as [|c cols]; [exists 0%nat; split; [done|]; split; [lia|]; split; [done|]; by exists [], []|].
    exists r. pose proof Hc as [(_ & Hcr & _) Hcs]%Forall_cons. split; [done|]. split; [done|].
    split; [|by apply all_bytes_decode]. apply check_rows_None. eapply Forall_impl; [exact Hcs|].
    by intros d (_ & ? & _). }
  exists ((put_when (0 <? revision) encodeBlockInfo ++ PutUVarInt (Z.of_nat (length cols)) ++ PutUVarInt (Z.of_nat n))
          ++ bytes), cols'.
  split; [|split; [done|]].
  - unfold Block_Encode, EncodeHeader. rewrite Hn. cbn [Columns]. rewrite Hcheck. cbn [mbind result_bind].
    pose proof (encode_columns_all (map colName cols) [] cols revision) as E. cbn [app length] in E.
    by rewrite E, Eb.
  - intros rest. unfold Block_Decode. rewrite <- !app_assoc.
    assert ((if 0 <? revision then decodeBlockInfo (put_when (0 <? revision) encodeBlockInfo
              ++ PutUVarInt (Z.of_nat (length cols)) ++ PutUVarInt (Z.of_nat n) ++ bytes ++ rest)
             else Some (put_when (0 <? revision) encodeBlockInfo
              ++ PutUVarInt (Z.of_nat (length cols)) ++ PutUVarInt (Z.of_nat n) ++ bytes ++ rest))
            = Some (PutUVarInt (Z.of_nat (length cols)) ++ PutUVarInt (Z.of_nat n) ++ bytes ++ rest)) as ->.
    { unfold put_when. destruct (0 <? revision); [apply decode_encodeBlockInfo|done]. }
    rewrite reads_UVarInt by (unfold uint64; lia). rewrite reads_UVarInt by (unfold uint64; lia).
    destruct (Z.ltb_spec 1000000000 (Z.of_nat n)); [lia|].
    destruct (Z.leb_spec (2 ^ 63) (Z.of_nat (length cols))); [lia|].
    rewrite Nat2Z.id, Ed. done.
Qed.

(** C3: A block that has at least one row and at most a billion, the same number in each
    column, or that has no columns at all (the end-of-data marker), is encoded without
    error; the decoder reads the names and columns with the same rows and stops where the
    block ends, at every revision. The columns may be any that keep the contract of the
    interface ([column_ok]: what they encode they decode, names and types have Go's sizes,
    the state prefix can be written). Columns without a row are left out: there the state
    prefix is written and not read ([empty_column_leaves_prefix]). *)
Theorem Block_roundtrip b revision r :
  names b = map colName (Columns b) → Forall (column_ok r) (Columns b) →
  (0 < r)%nat ∨ Columns b = [] → Z.of_nat r ≤ 1000000000 → Z.of_nat (length (Columns b)) < 2 ^ 63 →
  ∃ bytes cols', Block_Encode b revision = Ok bytes ∧ Forall2 same_rows (Columns b) cols' ∧ ∀ rest,
    Block_Decode revision (bytes ++ rest) = Some (Ok (MkBlock (names b) cols', rest)).
Proof. apply Block_reads. Qed.
End theorems.

(** ** Two limits of the format *)

Section limits.
Context {CO : ColumnOps} {W : Wire} {L : WireLaws W}.

(** An empty column with a custom serialization is written with its state prefix
    although the reader of a block without rows expects none: the prefix is left in
    front of whatever follows the block. *)
Theorem empty_column_leaves_prefix c c0 p revision rest :
  colRows c = 0%nat → go_len (colName c) → go_len (colType c) →
  newColumn (colName c) (colType c) = Ok c0 → WriteStatePrefix c = Some (Ok p) →
  ∃ bytes, Block_Encode (MkBlock [colName c] [c]) revision = Ok bytes ∧
    Block_Decode revision (bytes ++ rest)
    = Some (Ok (MkBlock [colName c] [c0], (p ++ colEncode c) ++ rest)).
Proof.
  intros Hr Hn Ht Hnew Hp. unfold Block_Encode, EncodeHeader, block_Rows. cbn [Columns tail check_rows].
  rewrite Hr. pose proof (encode_columns_all [colName c] [] [c] revision) as E.
  cbn [app] in E. change (length (@nil col)) with 0%nat in E. rewrite E. clear E.
  cbn [all_bytes]. unfold column_bytes. rewrite Hp. cbn [mbind result_bind].
  eexists. split; [done|]. rewrite !app_nil_r, <- !app_assoc. unfold Block_Decode.
  assert (∀ s, (if 0 <? revision then decodeBlockInfo (put_when (0 <? revision) encodeBlockInfo ++ s)
             else Some (put_when (0 <? revision) encodeBlockInfo ++ s)) = Some s) as ->.
  { intros s. unfold put_when. destruct (0 <? revision); [apply decode_encodeBlockInfo|done]. }
  rewrite reads_UVarInt by done. rewrite reads_UVarInt by done.
  change (1000000000 <? Z.of_nat 0) with false. change (2 ^ 63 <=? Z.of_nat (length [c])) with false.
  change (Z.to_nat (Z.of_nat (length [c]))) with 1%nat. cbv iota. cbn [decode_columns].
  unfold decode_column. rewrite reads_Str by done. cbn [bread mbind result_bind].
  rewrite reads_Str by done. cbn [bread mbind result_bind]. rewrite Hnew. cbn [mbind result_bind].
  unfold put_when. destruct (DBMS_MIN_REVISION_WITH_CUSTOM_SERIALIZATION <=? revision).
  - rewrite reads_Bool by done. done.
  - done.
Qed.

(** The number of rows of a block is limited before anything is allocated, the
    number of columns is not: a count that is no [int] makes the decoder panic. *)
Theorem column_count_panics numCols s :
  2 ^ 63 <= numCols < 2 ^ 64 →
  Block_Decode 0 (PutUVarInt numCols ++ PutUVarInt 0 ++ s) = None.
Proof.
  intros Hc. unfold Block_Decode. cbn [Z.ltb Z.compare].
  rewrite reads_UVarInt by (unfold uint64; lia). rewrite reads_UVarInt by done.
  destruct (Z.ltb_spec 1000000000 0); [lia|]. by destruct (Z.leb_spec (2 ^ 63) numCols); [|lia].
Qed.
End limits.

(** ** An implementation of the interface

    Byte columns, of which the type [L] has a one-byte state prefix. *)

Record demo_col := MkDemo { d_name : gostring; d_type : gostring; d_data : gostring }.

Definition demo_prefixed (c : demo_col) : bool := bool_decide (d_type c = str "L").

Definition demo_columns : ColumnOps := {|
  col := demo_col; cell := option byte; col_err := unit;
  colName := d_name; colType := d_type; colRows c := length (d_data c);
  AppendRow c x := match x with
    | Some b => (MkDemo (d_name c) (d_type c) (d_data c ++ [b]), None)
    | None => (c, Some ()) end;
  colReset c := MkDemo (d_name c) (d_type c) [];
  newColumn n t := Ok (MkDemo n t []);
  WriteStatePrefix c := if demo_prefixed c then Some (Ok [xff]) else None;
  colEncode c := d_data c;
  ReadStatePrefix c := if demo_prefixed c then
      Some (λ s, match s with b :: s => if beq b xff then Ok (c, s) else Err () | [] => Err () end) else None;
  colDecode c n s := if decide (n ≤ length s)%nat then Ok (MkDemo (d_name c) (d_type c) (take n s), drop n s) else Err ()
|}.

Lemma demo_strict c : strict (CO := demo_columns) c.
Proof. intros [b|] c' e [= <- <-]; cbn; [rewrite length_app; cbn|]; split; lia || done. Qed.

#[export] Instance demo_laws : CodecLaws demo_columns leb.
Proof.
  refine (@Build_CodecLaws demo_columns leb (λ _, True) eq _).
  intros c p _ Hr Hp. exists (MkDemo (d_name c) (d_type c) []), c. split; [done|]. split; [done|]. intros rest.
  assert (colDecode (ColumnOps := demo_columns) (MkDemo (d_name c) (d_type c) []) (length (d_data c)) (d_data c ++ rest)
          = Ok (c, rest)) as Hd.
  { cbn. rewrite decide_True by (rewrite length_app; lia). rewrite take_app_length, drop_app_length.
    by destruct c. }
  cbn [ReadStatePrefix WriteStatePrefix demo_columns] in *. unfold demo_prefixed in *. cbn [d_type] in *.
  case_bool_decide; [|by split]. injection Hp as <-. eexists. split; [done|exact Hd].
Defined.

Definition demo_block : Block (CO := demo_columns) :=
  MkBlock (CO := demo_columns) [str "a"; str "b"]
    [MkDemo (str "a") (str "U") (str "xyz"); MkDemo (str "b") (str "L") (str "123")].

Lemma demo_block_ok : Forall (column_ok (CL := demo_laws) 3) (Columns demo_block).
Proof.
  constructor; [|constructor; [|constructor]].
  - split; [done|]. split; [reflexivity|]. split; [reflexivity|]. split; [reflexivity|]. by left.
  - split; [done|]. split; [reflexivity|]. split; [reflexivity|]. split; [reflexivity|]. right. by eexists.
Qed.

Lemma demo_block_reads :
  ∃ bytes, Block_Encode (CO := demo_columns) demo_block 54460 = Ok bytes ∧
    ∀ rest, Block_Decode (CO := demo_columns) 54460 (bytes ++ rest) = Some (Ok (demo_block, rest)).
Proof.
  destruct (Block_reads (CL := demo_laws) demo_block 54460 3 eq_refl demo_block_ok) as (bytes & cols' & He & Hs & Hd).
  - left. lia.
  - lia.
  - vm_compute. reflexivity.
  - apply (list_eq_Forall2 (Columns demo_block) cols') in Hs as <-. exists bytes. by split.
Qed.

Lemma Block_roundtrip_witness :
  ∃ bytes cols', Block_Encode (CO := demo_columns) demo_block 54460 = Ok bytes ∧ Forall2 eq (Columns demo_block) cols' ∧ ∀ rest,
    Block_Decode (CO := demo_columns) 54460 (bytes ++ rest) = Some (Ok (MkBlock (names demo_block) cols', rest)).
Proof.
  apply (Block_roundtrip (CL := demo_laws) demo_block 54460 3 eq_refl demo_block_ok).
  - left. lia.
  - lia.
  - vm_compute. reflexivity.
Defined.

Lemma Append_all_or_unencodable_witness :
  even_rows (CO := demo_columns) 3 (Columns demo_block) ∧
  map colName (Columns (Append (CO := demo_columns) demo_block [Some x41; None]).1) = [str "a"; str "b"].
Proof.
  assert (even_rows (CO := demo_columns) 3 (Columns demo_block)) as H by (repeat constructor).
  split; [exact H|].
  refine (proj1 (Append_all_or_unencodable (CO := demo_columns) demo_block [Some x41; None] 3 _ _ _ H (surjective_pairing _))).
  apply Forall_forall. intros c _. apply demo_strict.
Defined.

Lemma SortColumns_spec_witness :
  ∃ b', SortColumns (CO := demo_columns) demo_block [str "b"; str "a"] = (b', None) ∧ names b' = [str "b"; str "a"]
     ∧ map colName (Columns b') = [str "b"; str "a"] ∧ Columns b' ≡ₚ Columns demo_block.
Proof.
  apply (SortColumns_spec (CO := demo_columns) demo_block [str "b"; str "a"]).
  - discriminate.
  - apply (bool_decide_unpack _). vm_compute. exact I.
  - reflexivity.
  - apply Permutation_swap.
Defined.

Lemma empty_column_leaves_prefix_witness :
  ∃ bytes, Block_Encode (CO := demo_columns) (MkBlock (CO := demo_columns) [str "b"] [MkDemo (str "b") (str "L") []]) 54460 = Ok bytes ∧
    Block_Decode (CO := demo_columns) 54460 (bytes ++ str "tail")
    = Some (Ok (MkBlock (CO := demo_columns) [str "b"] [MkDemo (str "b") (str "L") []], [xff] ++ str "tail")).
Proof.
  exact (empty_column_leaves_prefix (CO := demo_columns) (MkDemo (str "b") (str "L") []) (MkDemo (str "b") (str "L") [])
    [xff] 54460 (str "tail") eq_refl eq_refl eq_refl eq_refl eq_refl).
Defined.

Lemma column_count_panics_witness :
  Block_Decode (CO := demo_columns) 0 (PutUVarInt (2 ^ 63) ++ PutUVarInt 0 ++ []) = None.
Proof. apply (column_count_panics (CO := demo_columns)). lia. Defined.
