(* ===== verification/HttpBatch.v ===== *)
(** * Inserts over HTTP ([conn_http_batch.go], [batch.go])

    A batch collects its rows in a block and [Send] posts the block as the body of one
    request.  The statement is taken apart with regular expressions, the columns come from
    the caller or from a DESCRIBE of the table.  The request and its answer are the world:
    what is posted and how the connection is given back is logged, the outcome of the
    request comes from a script. *)

From Stdlib Require Import ZifyBool.
From S2P Require Import Prelude GoStd ChUrl Strconv Wire ProtoPackets Regexp HttpErrors Block.

(** ** The statement ([batch.go]) *)

Definition not_nl (b : byte) : bool := negb (beq b x0a).
Definition not_open (b : byte) : bool := negb (beq b "(").
Definition not_paren (b : byte) : bool := negb (beq b "(") && negb (beq b ")").
Definition any_byte (b : byte) : bool := true.
Definition S0 : re := Star (Cls is_s).
Definition S1 : re := Plus (Cls is_s).

(** A comment line, of one of the three kinds, with the spaces behind it. *)
Definition comment_line : re :=
  Seq (Alt (Seq (Lit (str "--")) (Star (Cls not_nl)))
      (Alt (Seq (Lit (str "#!")) (Star (Cls not_nl)))
           (Seq (Chr "#") (Seq (Cls is_s) (Star (Cls not_nl))))))
      (Seq (Chr x0a) S0).

(** Optional spaces and a list in parentheses, which may nest once. *)
Definition column_list : re :=
  Seq S0 (Seq (Chr "(") (Seq (Star (Cls not_paren))
    (Seq (Star (Seq (Chr "(") (Seq (Star (Cls not_paren)) (Seq (Chr ")") (Star (Cls not_paren))))))
         (Chr ")")))).

Definition normalizeInsertQueryMatch : re :=
  Seq (Star comment_line)
    (Seq (Grp 1 (Seq (LitFold (str "INSERT")) (Seq S1 (Seq (LitFold (str "INTO")) (Seq S1
            (Seq (Grp 2 (Plus (Cls not_open))) (Opt column_list)))))))
         (Opt (Seq S0 (LitFold (str "VALUES"))))).

(** (?i)\sFORMAT\s+[^\s]+ *)
Definition truncateFormat : re := Seq (Cls is_s) (Seq (LitFold (str "FORMAT")) (Seq S1 (Plus (Cls not_s)))).

(** \sVALUES\s.*$ *)
Definition truncateValues : re :=
  Seq (Cls is_s) (Seq (Lit (str "VALUES")) (Seq (Cls is_s) (Seq (Star (Cls not_nl)) Eol))).

(** (?si)INSERT INTO .+\s\((?P<Columns>.+)\)$ *)
Definition extractInsertColumnsMatch : re :=
  Seq (LitFold (str "INSERT INTO ")) (Seq (Plus (Cls any_byte)) (Seq (Cls is_s) (Seq (Chr "(")
    (Seq (Grp 1 (Plus (Cls any_byte))) (Seq (Chr ")") Eol))))).

(** [strings.Trim] of double quotes; the backquotes are removed everywhere. *)
Definition is_quote (b : byte) : bool := beq b x22.
Definition TrimLeft (cut : byte → bool) (s : gostring) : gostring := snd (span cut s).
Definition column_name (s : gostring) : gostring :=
  List.filter (λ b, negb (beq b "`")) (TrimRight is_quote (TrimLeft is_quote (TrimSpace s))).

(** The statement, the table and the columns it names; [None] is the error. *)
Definition extractInsertQueryComponents (query : gostring) : option (gostring * gostring * list gostring) :=
  let query := remove_all truncateFormat query in
  let query := remove_all truncateValues query in
  match find_first normalizeInsertQueryMatch query with
  | None => None
  | Some m =>
      let insertStmt := group m 1 in
      let columns := match find_first extractInsertColumnsMatch insertStmt with
                     | Some c => column_name <$> strings_Split (group c 1) ","
                     | None => [] end in
      Some (insertStmt, TrimSpace (group m 2), columns)
  end.

Definition extractNormalizedInsertQueryAndColumns (query : gostring) : option (gostring * gostring * list gostring) :=
  '(stmt, table, columns) ← extractInsertQueryComponents query;
  Some (stmt ++ str " FORMAT Native", table, columns).

Example statement_with_values :
  extractNormalizedInsertQueryAndColumns (str "-- load
 insert into db.t (`a`, b) VALUES (1, 2)")
  = Some (str "insert into db.t (`a`, b) FORMAT Native", str "db.t", [str "a"; str "b"]).
Proof. vm_compute. reflexivity. Qed.

Example statement_without_columns :
  extractNormalizedInsertQueryAndColumns (str "INSERT INTO t FORMAT CSV") = Some (str "INSERT INTO t FORMAT Native", str "t", []).
Proof. vm_compute. reflexivity. Qed.

Example statement_with_function_columns :
  extractInsertQueryComponents (str "INSERT INTO t (a, f(b)) VALUES")
  = Some (str "INSERT INTO t (a, f(b))", str "t", [str "a"; str "f(b)"]).
Proof. vm_compute. reflexivity. Qed.

(** ** The columns ([fetchColumnNamesAndTypesForInsert]) *)

(** A row of the DESCRIBE: name, type, kind of default. *)
Abbreviation described := (gostring * gostring * gostring)%type.

Definition insertable (d : described) : bool :=
  negb (bool_decide (d.2 = str "MATERIALIZED")) && negb (bool_decide (d.2 = str "ALIAS")).

(** [columnsToTypes] and [allColumns] after the loop. *)
Definition columnsToTypes (ds : list described) : gmap gostring gostring :=
  foldl (λ m d, <[d.1.1 := d.1.2]> m) ∅ (List.filter insertable ds).
Definition allColumns (ds : list described) : list gostring := map (λ d, d.1.1) (List.filter insertable ds).

(** The name of a missing column is the error. *)
Fixpoint resolve (types : gmap gostring gostring) (names : list gostring) : result gostring (list (gostring * gostring)) :=
  match names with
  | [] => Ok []
  | n :: names => match types !! n with
                  | None => Err n
                  | Some t => r ← resolve types names; Ok ((n, t) :: r) end
  end.

Definition fetchColumnNamesAndTypesForInsert (ds : list described) (requested : list gostring)
    : result gostring (list (gostring * gostring)) :=
  if decide (requested = [])
  then Ok ((λ n, (n, default [] (columnsToTypes ds !! n))) <$> allColumns ds)
  else resolve (columnsToTypes ds) requested.

Lemma columnsToTypes_lookup ds n t : NoDup (allColumns ds) →
  columnsToTypes ds !! n = Some t ↔ ∃ k, (n, t, k) ∈ ds ∧ insertable (n, t, k) = true.
Proof.
  intros Hnd. unfold columnsToTypes, allColumns in *.
  assert (∀ l (m : gmap gostring gostring), NoDup (map (λ d : described, d.1.1) l) →
    foldl (λ m d, <[d.1.1 := d.1.2]> m) m l !! n = Some t
    ↔ (∃ k, (n, t, k) ∈ l) ∨ ((∀ d, d ∈ l → d.1.1 ≠ n) ∧ m !! n = Some t)) as H.
  { intros l. induction l as [|[[n' t'] k'] l IH]; intros m Hl; cbn [foldl].
    - split; [intros; right; split; [by intros d ?%not_elem_of_nil|done]|].
      intros [(k & ?%not_elem_of_nil)|[_ ?]]; done.
    - cbn [map fst] in Hl. apply NoDup_cons in Hl as [Hn Hl]. rewrite IH by done. cbn [fst snd].
      assert (∀ d, d ∈ l → d.1.1 ≠ n') as Hfresh.
      { intros d Hd E. apply Hn. rewrite <- E. by apply (list_elem_of_fmap_2 (λ d : described, d.1.1)). }
      split.
      + intros [(k & Hk)|[Hno Hm]].
        * left. exists k. by apply list_elem_of_further.
        * destruct (decide (n = n')) as [->|Hne].
          -- rewrite lookup_insert_eq in Hm. simplify_eq. left. exists k'. constructor.
          -- rewrite lookup_insert_ne in Hm by done. right. split; [|done].
             intros d [->|Hd]%elem_of_cons; [done|by apply Hno].
      + intros [(k & [Hk|Hk]%elem_of_cons)|[Hno Hm]].
        * simplify_eq. right. split; [done|]. apply lookup_insert_eq.
        * left. by exists k.
        * right. split; [intros d Hd; apply Hno; by constructor|].
          rewrite lookup_insert_ne; [done|]. apply (Hno (n', t', k')). constructor. }
  rewrite H by done. split.
  - intros [(k & Hk)|[_ Hm]]; [|by rewrite lookup_empty in Hm].
    apply list_elem_of_In, filter_In in Hk as [Hk Hi]. exists k. split; [by apply list_elem_of_In|done].
  - intros (k & Hk & Hi). left. exists k. apply list_elem_of_In, filter_In. split; [by apply list_elem_of_In|done].
Qed.

Lemma resolve_spec types names : match resolve types names with
  | Ok l => l.*1 = names ∧ Forall (λ nt, types !! nt.1 = Some nt.2) l
  | Err n => n ∈ names ∧ types !! n = None end.
Proof.
  induction names as [|n names IH]; cbn [resolve]; [done|]. destruct (types !! n) as [t|] eqn:Et.
  - destruct (resolve types names) as [l|e]; cbn [mbind result_bind].
    + destruct IH as [<- Hl]. split; [done|]. by constructor.
    + destruct IH as [H1 H2]. split; [by constructor|done].
  - split; [constructor|done].
Qed.

(** The columns of an insert over HTTP: with a list in the statement, exactly those
    names in that order with the types of the table, and an error that names a column the
    table lacks or does not store; without one, all stored columns in the order of the
    table. *)
Theorem insert_columns (ds : list described) (requested : list gostring) :
  NoDup (allColumns ds) →
  match fetchColumnNamesAndTypesForInsert ds requested with
  | Ok cols =>
      cols.*1 = (if decide (requested = []) then allColumns ds else requested)
      ∧ Forall (λ nt, ∃ k, (nt.1, nt.2, k) ∈ ds ∧ insertable (nt.1, nt.2, k) = true) cols
  | Err n => n ∈ requested ∧ ∀ t k, (n, t, k) ∈ ds → insertable (n, t, k) = false
  end.
Proof.
  intros Hnd. unfold fetchColumnNamesAndTypesForInsert. destruct (decide (requested = [])) as [->|Hr].
  - split; [by rewrite <- list_fmap_compose, list_fmap_id|]. apply Forall_fmap, Forall_forall. intros n Hn. cbn.
    apply list_elem_of_fmap in Hn as ([[n' t] k] & -> & Hin).
    assert (columnsToTypes ds !! n' = Some t) as E.
    { apply columnsToTypes_lookup; [done|]. exists k. apply list_elem_of_In, filter_In in Hin as [Hin Hi].
      split; [by apply list_elem_of_In|done]. }
    cbn. rewrite E. cbn. by apply columnsToTypes_lookup.
  - pose proof (resolve_spec (columnsToTypes ds) requested) as H.
    destruct (resolve _ _) as [cols|n].
    + destruct H as [-> Hc]. split; [done|]. eapply Forall_impl; [exact Hc|]. intros [n t] Hnt. by apply columnsToTypes_lookup.
    + destruct H as [Hin Hno]. split; [done|]. intros t k Hk. destruct (insertable (n, t, k)) eqn:Hi; [|done].
      assert (columnsToTypes ds !! n = Some t) by (apply columnsToTypes_lookup; [done|by exists k]). congruence.
Qed.

(** The table has a stored, a materialized and another stored column. *)
Lemma insert_columns_witness :
  let ds := [(str "a", str "Int8", []); (str "m", str "Int8", str "MATERIALIZED"); (str "b", str "String", str "DEFAULT")] in
  match fetchColumnNamesAndTypesForInsert ds [str "b"; str "a"] with
  | Ok cols => cols.*1 = [str "b"; str "a"]
  | Err _ => False
  end.
Proof.
  intros ds. pose proof (insert_columns ds [str "b"; str "a"]) as H.
  assert (NoDup (allColumns ds)) as Hnd by (apply (bool_decide_unpack _); vm_compute; exact I).
  specialize (H Hnd). destruct (fetchColumnNamesAndTypesForInsert ds [str "b"; str "a"]) as [cols|n] eqn:E;
    [exact (proj1 H)|vm_compute in E; discriminate E].
Defined.

(** ** The batch *)

Section batch.
Context `{CO : ColumnOps} {W : Wire} {E : Type}.

Inductive hbatch_err :=
| HAlreadySent
| HInvalid (e : block_err)       (* "%w: %w", ErrBatchInvalid, err *)
| HBlock (e : block_err)
| HStruct
| HColumnIndex (idx : nat)
| HRequest (e : herr E)
| HProcessDone.                  (* os.ErrProcessDone *)

(** What the server receives, and how the connection is given back. *)
Inductive hevent :=
| EvPost (query payload : gostring)
| EvRelease (e : option hbatch_err).

Record hworld := MkHWorld {
  hw_script : list (option (herr E));   (* outcomes of requests to come; success when exhausted *)
  hw_trace : list hevent
}.

Definition hlog (ev : hevent) (w : hworld) : hworld := MkHWorld (hw_script w) (hw_trace w ++ [ev]).
Definition hpop (w : hworld) : option (herr E) * hworld :=
  match hw_script w with [] => (None, w) | o :: s => (o, MkHWorld s (hw_trace w)) end.

(** LZ4 and ZSTD compress the bytes of the block itself; [None] is a failure. *)
Context (compress : option (gostring → option gostring)).

Record httpBatch := MkHttpBatch {
  hb_query : gostring;
  hb_err : option hbatch_err;
  hb_released : bool;
  hb_sent : bool;
  hb_block : Block
}.

Definition hb_set_err e b := MkHttpBatch (hb_query b) (Some e) (hb_released b) (hb_sent b) (hb_block b).
Definition hb_set_sent b := MkHttpBatch (hb_query b) (hb_err b) (hb_released b) true (hb_block b).
Definition hb_set_block k b := MkHttpBatch (hb_query b) (hb_err b) (hb_released b) (hb_sent b) k.

Definition hb_release (e : option hbatch_err) (b : httpBatch) (w : hworld) : httpBatch * hworld :=
  if hb_released b then (b, w)
  else (MkHttpBatch (hb_query b) (hb_err b) true (hb_sent b) (hb_block b), hlog (EvRelease e) w).

Definition houtcome : Type := httpBatch * hworld * option hbatch_err.

Definition hb_Flush (b : httpBatch) (w : hworld) : houtcome := (b, w, None).

Definition hb_Close (b : httpBatch) (w : hworld) : houtcome :=
  if hb_sent b || hb_released b then (b, w, None)
  else let '(b, w) := hb_release None (hb_set_sent b) w in (b, w, None).

Definition hb_Abort (b : httpBatch) (w : hworld) : houtcome :=
  let r := if hb_sent b then Some HAlreadySent else None in
  let '(b, w) := hb_release (Some HProcessDone) (hb_set_sent b) w in (b, w, r).

Definition hb_Append (v : list cell) (b : httpBatch) (w : hworld) : houtcome :=
  if hb_sent b then (b, w, Some HAlreadySent)
  else match hb_err b with
  | Some e => (b, w, Some e)
  | None =>
      let '(k, e) := Append (hb_block b) v in
      let b := hb_set_block k b in
      match e with
      | Some e => let '(b, w) := hb_release (Some (HBlock e)) (hb_set_err (HInvalid e) b) w in (b, w, Some (HBlock e))
      | None => (b, w, None)
      end
  end.

(** [v] is the row the struct stands for, if it does. *)
Definition hb_AppendStruct (v : option (list cell)) (b : httpBatch) (w : hworld) : houtcome :=
  match hb_err b with
  | Some e => (b, w, Some e)
  | None => match v with None => (b, w, Some HStruct) | Some v => hb_Append v b w end
  end.

(** [Column(idx)] and then [Append] or [AppendRow] of the column; [app] is the column's
    operation.  A failure is kept as the error of the batch. *)
Definition hb_ColumnAppend (idx : nat) (app : col → col * option col_err) (b : httpBatch) (w : hworld) : houtcome :=
  match Columns (hb_block b) !! idx with
  | None => (b, w, Some (HColumnIndex idx))
  | Some c =>
      if hb_sent b then (b, w, Some HAlreadySent)
      else
        let '(c', e) := app c in
        let b := hb_set_block (MkBlock (names (hb_block b)) (<[idx := c']> (Columns (hb_block b)))) b in
        match e with
        | Some e => let e := HBlock (ErrColumn (colName c) e) in (hb_set_err e b, w, Some e)
        | None => (b, w, None)
        end
  end.

(** [writeData] into an empty buffer: over HTTP blocks are encoded for revision 0. *)
Definition writeData (k : Block) : option gostring :=
  match Block_Encode k 0 with
  | Err _ => None
  | Ok bytes => match compress with None => Some bytes | Some z => z bytes end
  end.

(** What the goroutine of [Send] writes to the request.  Its deferred [CloseWithError(err)]
    has taken the value of [err] before there is an error, so that a block that can not be
    encoded ends the body like a complete one. *)
Definition posted (k : Block) : gostring := default [] (writeData k).

(** The body of [Send]; the deferred function follows in [hb_Send]. *)
Definition hb_send_body (b : httpBatch) (w : hworld) : houtcome :=
  if hb_sent b then (b, w, Some HAlreadySent)
  else match hb_err b with
  | Some e => (b, w, Some e)
  | None =>
      if Nat.eqb (block_Rows (hb_block b)) 0 then (b, w, None)
      else
        let '(o, w) := hpop (hlog (EvPost (hb_query b) (posted (hb_block b))) w) in
        match o with
        | Some e => (b, w, Some (HRequest e))
        | None => (hb_set_block (block_Reset (hb_block b)) b, w, None)
        end
  end.

Definition hb_Send (b : httpBatch) (w : hworld) : houtcome :=
  let '(b, w, e) := hb_send_body b w in
  let '(b, w) := hb_release e (hb_set_sent b) w in
  (b, w, e).

Inductive hbatch_op :=
| HAppend (v : list cell)
| HAppendStruct (v : option (list cell))
| HColumnAppend (idx : nat) (app : col → col * option col_err)
| HFlush
| HSend
| HAbort
| HClose.

Definition hb_run_op (o : hbatch_op) (b : httpBatch) (w : hworld) : houtcome :=
  match o with
  | HAppend v => hb_Append v b w
  | HAppendStruct v => hb_AppendStruct v b w
  | HColumnAppend idx app => hb_ColumnAppend idx app b w
  | HFlush => hb_Flush b w
  | HSend => hb_Send b w
  | HAbort => hb_Abort b w
  | HClose => hb_Close b w
  end.

Fixpoint hb_run (os : list hbatch_op) (b : httpBatch) (w : hworld) : httpBatch * hworld * list (option hbatch_err) :=
  match os with
  | [] => (b, w, [])
  | o :: os =>
      let '(b, w, e) := hb_run_op o b w in
      let '(b, w, es) := hb_run os b w in
      (b, w, e :: es)
  end.

(** ** What can happen to a batch *)

(** The shapes of the log: nothing yet; given back without a request; one request, then
    given back. *)
Definition hb_log_ok (q : gostring) (b : httpBatch) (t : list hevent) : Prop :=
  if hb_released b
  then (∃ e, t = [EvRelease e]) ∨ (∃ p e, t = [EvPost q p; EvRelease e] ∧ hb_sent b = true)
  else t = [] ∧ hb_sent b = false.

(** A batch that was given back without being sent is an invalid one. *)
Definition hb_ok (q : gostring) (b : httpBatch) (t : list hevent) : Prop :=
  hb_query b = q ∧ hb_log_ok q b t ∧ (hb_released b = true → hb_sent b = true ∨ is_Some (hb_err b)).

Definition ends (o : hbatch_op) : bool := match o with HSend | HAbort | HClose => true | _ => false end.

Lemma hb_run_op_ok q o b w b' w' e :
  hb_ok q b (hw_trace w) → hb_run_op o b w = (b', w', e) →
  hb_ok q b' (hw_trace w') ∧ (hb_released b = true → hw_trace w' = hw_trace w ∧ hb_released b' = true)
  ∧ (ends o = true → hb_released b' = true).
Proof.
  intros (Hq & Hlog & Hinv) Hrun. unfold hb_log_ok in Hlog.
  destruct b as [bq be br bs bk]. cbn [hb_released hb_sent hb_query hb_err] in *. subst bq.
  destruct o as [v|v|idx app| | | |]; cbn [hb_run_op] in Hrun.
  - unfold hb_Append in Hrun. cbn in Hrun. destruct bs; [by simplify_eq|].
    destruct be as [e0|]; [by simplify_eq|]. destruct br; [by destruct Hinv as [|[? ?]]|].
    destruct (Append bk v) as [k [x|]]; cbn in Hrun; simplify_eq; cbn.
    + destruct Hlog as [-> _]. split; [|done]. split; [done|]. split; [left; by eexists|]. by right.
    + destruct Hlog as [Ht _]. rewrite Ht. done.
  - unfold hb_AppendStruct in Hrun. cbn in Hrun. destruct be as [e0|]; [by simplify_eq|].
    destruct v as [v|]; [|by simplify_eq]. unfold hb_Append in Hrun. cbn in Hrun. destruct bs; [by simplify_eq|].
    destruct br; [by destruct Hinv as [|[? ?]]|].
    destruct (Append bk v) as [k [x|]]; cbn in Hrun; simplify_eq; cbn.
    + destruct Hlog as [-> _]. split; [|done]. split; [done|]. split; [left; by eexists|]. by right.
    + destruct Hlog as [Ht _]. rewrite Ht. done.
  - unfold hb_ColumnAppend in Hrun. cbn in Hrun. destruct (Columns bk !! idx) as [c|]; [|by simplify_eq].
    destruct bs; [by simplify_eq|]. destruct (app c) as [c' [x|]]; simplify_eq; cbn.
    + split; [|done]. split; [done|]. split; [done|]. intros _. right. done.
    + done.
  - unfold hb_Flush in Hrun. by simplify_eq.
  - unfold hb_Send, hb_send_body, hb_release in Hrun. cbn in Hrun. destruct bs.
    { cbn in Hrun. destruct br; [by simplify_eq|]. by destruct Hlog. }
    destruct be as [e0|].
    { cbn in Hrun. destruct br; simplify_eq; cbn; [split; [|done]; split; [done|]; split; [|by left]|].
      - destruct Hlog as [?|(p & e & -> & ?)]; [by left|done].
      - destruct Hlog as [-> _]. split; [|done]. split; [done|]. split; [left; by eexists|by left]. }
    destruct br; [by destruct Hinv as [|[? ?]]|]. destruct Hlog as [Ht _].
    destruct (Nat.eqb (block_Rows bk) 0).
    { cbn in Hrun. simplify_eq. cbn. rewrite Ht. split; [|done]. split; [done|]. split; [left; by eexists|by left]. }
    unfold hpop, hlog in Hrun. cbn in Hrun.
    destruct (hw_script w) as [|[x|] s]; cbn in Hrun; simplify_eq; cbn; rewrite Ht;
      (split; [|done]); (split; [done|]); (split; [right; by do 2 eexists|by left]).
  - unfold hb_Abort, hb_release in Hrun. cbn in Hrun. destruct br; simplify_eq; cbn.
    + split; [|done]. split; [done|]. split; [|by left]. destruct Hlog as [?|(p & e & -> & ?)]; [by left|right; by do 2 eexists].
    + destruct Hlog as [-> _]. split; [|done]. split; [done|]. split; [left; by eexists|by left].
  - unfold hb_Close, hb_release in Hrun. cbn in Hrun. destruct bs, br; cbn in Hrun; simplify_eq; cbn; try done.
    + by destruct Hlog.
    + destruct Hlog as [-> _]. split; [|done]. split; [done|]. split; [left; by eexists|by left].
Qed.

Lemma hb_run_ok q os : ∀ b w b' w' es,
  hb_ok q b (hw_trace w) → hb_run os b w = (b', w', es) →
  hb_ok q b' (hw_trace w') ∧ (hb_released b = true → hw_trace w' = hw_trace w ∧ hb_released b' = true)
  ∧ (existsb ends os = true → hb_released b' = true).
Proof.
  induction os as [|o os IH]; intros b w b' w' es Hok Hrun; cbn [hb_run] in Hrun; [by simplify_eq|].
  destruct (hb_run_op o b w) as [[b1 w1] e] eqn:E1. destruct (hb_run os b1 w1) as [[b2 w2] es2] eqn:E2. simplify_eq.
  destruct (hb_run_op_ok _ _ _ _ _ _ _ Hok E1) as (Hok1 & Hkeep1 & Hend1).
  destruct (IH _ _ _ _ _ Hok1 E2) as (Hok2 & Hkeep2 & Hend2). split; [done|]. split.
  - intros Hr. destruct (Hkeep1 Hr) as [<- Hr1]. by apply Hkeep2.
  - cbn [existsb]. intros [Ho|Hos]%orb_true_iff; [|by apply Hend2]. by apply Hkeep2, Hend1.
Qed.

Definition hb_new (q : gostring) (k : Block) : httpBatch := MkHttpBatch q None false false k.

(** The block after rows that were all accepted. *)
Fixpoint appended_block (k : Block) (vs : list (list cell)) : option Block :=
  match vs with
  | [] => Some k
  | v :: vs => match Append k v with (k, None) => appended_block k vs | _ => None end
  end.

Lemma hb_run_appends q vs : ∀ k k' os w, appended_block k vs = Some k' →
  hb_run (map HAppend vs ++ os) (hb_new q k) w
  = let '(b, w, es) := hb_run os (hb_new q k') w in (b, w, replicate (length vs) None ++ es).
Proof.
  induction vs as [|v vs IH]; intros k k' os w Hk; cbn [appended_block] in Hk.
  - simplify_eq. cbn [map app length replicate]. by destruct (hb_run os (hb_new q k') w) as [[b w'] es].
  - destruct (Append k v) as [k1 [x|]] eqn:Ea; [done|]. cbn [map app hb_run hb_run_op].
    assert (hb_Append v (hb_new q k) w = (hb_new q k1, w, None)) as ->.
    { unfold hb_Append. cbn [hb_sent hb_new hb_err hb_block]. by rewrite Ea. }
    rewrite (IH k1 k' os w Hk).
    by destruct (hb_run os (hb_new q k') w) as [[b w'] es].
Qed.

(** C17: Whatever is done with a batch over HTTP, at most one request is made, the
    connection is given back at most once and behind it, and it is given back once the batch
    was sent, aborted or closed. After appends that were all accepted, [Send] makes no
    request when there are no rows and otherwise exactly one, with the statement and the
    encoded block, and returns what the server answers to it; when the block cannot be
    encoded the body of that request is empty, the rows are lost, and [Send] still returns
    the server's answer ([send_hides_encode_failure]). *)
Theorem http_batch_once (q : gostring) (k : Block) (s : list (option (herr E))) :
  (∀ os b w es, hb_run os (hb_new q k) (MkHWorld s []) = (b, w, es) →
     hb_log_ok q b (hw_trace w) ∧ (existsb ends os = true → hb_released b = true))
  ∧ (∀ vs k', appended_block k vs = Some k' →
     ∃ b w e, hb_run (map HAppend vs ++ [HSend]) (hb_new q k) (MkHWorld s []) = (b, w, replicate (length vs) None ++ [e])
       ∧ if Nat.eqb (block_Rows k') 0 then e = None ∧ w = MkHWorld s [EvRelease None]
         else e = HRequest <$> default None (head s)
              ∧ w = MkHWorld (tail s) [EvPost q (match writeData k' with Some p => p | None => [] end); EvRelease e]).
Proof.
  split.
  - intros os b w es Hrun.
    assert (hb_ok q (hb_new q k) []) as H0 by (split; [done|]; split; [done|]; done).
    destruct (hb_run_ok q os (hb_new q k) (MkHWorld s []) b w es H0 Hrun) as ((_ & Hlog & _) & _ & Hend). done.
  - intros vs k' Hk. rewrite (hb_run_appends q vs k k' [HSend] _ Hk).
    cbn [hb_run hb_run_op]. unfold hb_Send, hb_send_body. cbn [hb_sent hb_new hb_err hb_block hb_query].
    destruct (Nat.eqb (block_Rows k') 0); [by do 3 eexists|]. unfold hpop, hlog. cbn [hw_script hw_trace app].
    destruct s as [|[x|] s]; cbn; by do 3 eexists.
Qed.

(** A block that can not be encoded: [Send] reports success, the server receives nothing
    and the rows are gone. *)
Theorem send_hides_encode_failure (q : gostring) (k : Block) :
  block_Rows k ≠ 0 → writeData k = None →
  hb_Send (hb_new q k) (MkHWorld [] [])
  = (MkHttpBatch q None true true (block_Reset k), MkHWorld [] [EvPost q []; EvRelease None], None).
Proof.
  intros Hrows Hp. unfold hb_Send, hb_send_body. cbn [hb_sent hb_new hb_err hb_block hb_query].
  rewrite (proj2 (Nat.eqb_neq _ _) Hrows). unfold posted. by rewrite Hp.
Qed.
End batch.

(** Two byte columns, one row. *)
Definition demo_table : Block (CO := demo_columns) :=
  MkBlock (CO := demo_columns) [str "a"; str "b"] [MkDemo (str "a") (str "U") []; MkDemo (str "b") (str "U") []].

Lemma http_batch_once_witness :
  ∃ b p, hb_run (CO := demo_columns) (E := nat) None [HAppend (CO := demo_columns) [Some x41; Some x42]; HSend]
      (hb_new (str "INSERT") demo_table) (MkHWorld [None] [])
    = (b, MkHWorld [] [EvPost (str "INSERT") p; EvRelease None], [None; None])
    ∧ hb_log_ok (str "INSERT") b [EvPost (CO := demo_columns) (E := nat) (str "INSERT") p; EvRelease None].
Proof.
  destruct (http_batch_once (CO := demo_columns) (E := nat) None (str "INSERT") demo_table [None]) as [H1 H2].
  edestruct (H2 [[Some x41; Some x42]]) as (b & w & e & Hb & Hw); [reflexivity|].
  cbn [block_Rows Columns Nat.eqb colRows] in Hw. destruct Hw as [-> ->].
  exists b. eexists. split; [exact Hb|]. by destruct (H1 _ _ _ _ Hb).
Defined.

(** A row appended to one column only, as the interface allows. *)
Lemma send_hides_encode_failure_witness :
  let k := MkBlock (CO := demo_columns) [str "a"; str "b"] [MkDemo (str "a") (str "U") [x41]; MkDemo (str "b") (str "U") []] in
  hb_Send (CO := demo_columns) (E := nat) None (hb_new (str "INSERT") k) (MkHWorld [] [])
  = (MkHttpBatch (str "INSERT") None true true (block_Reset k), MkHWorld [] [EvPost (str "INSERT") []; EvRelease None], None).
Proof. apply (send_hides_encode_failure (CO := demo_columns) (E := nat) None); [intros H; discriminate H|reflexivity]. Defined.
