(* ===== verification/HttpConn.v ===== *)
(** * The connection over HTTP ([conn_http.go], [conn_http_query.go], [conn_http_format.go],
      [conn_http_exec.go], [conn_http_async_insert.go])

    Every operation is one request.  What the transport returns is an argument of the
    operation; the bytes of an answer are a [source] behind the decompressor of the
    connection.  An operation that was handed a connection gives it back through its
    [release] callback: [released] is the list of those calls, in order.  A block that is
    read from the stream is an argument too, with the bytes captured while it was read.  The
    goroutine that reads the blocks of a query is a machine of steps: it waits for the
    caller or for room where it sends on a channel, and gives the connection back at its
    end only. *)

From Stdlib Require Import ZifyBool.
From S2P Require Import Prelude GoStd ChUrl Strconv Wire ProtoPackets Regexp HttpErrors HttpStream QueryContext HttpRequest HttpBatch.

(** ** The capture of recent bytes ([capturingReader]) *)

Definition captureTailSize : nat := 64 * 1024.

(** What one read adds: the oldest bytes are dropped. *)
Definition capture (buffer bs : gostring) : gostring :=
  let b := buffer ++ bs in drop (length b - captureTailSize) b.

Lemma capture_tail (chunks : list gostring) :
  foldl capture [] chunks = drop (length (concat chunks) - captureTailSize) (concat chunks).
Proof.
  assert (∀ all chunks, foldl capture (drop (length all - captureTailSize) all) chunks
    = drop (length (all ++ concat chunks) - captureTailSize) (all ++ concat chunks)) as H; [|exact (H [] chunks)].
  clear chunks. intros all chunks. revert all. induction chunks as [|c chunks IH]; intros all; cbn [foldl concat].
  - by rewrite app_nil_r.
  - rewrite (app_assoc all c), <- IH. f_equal. unfold capture.
    destruct (decide (length all ≤ captureTailSize)) as [H|H].
    + replace (length all - captureTailSize) with 0 by lia. by rewrite drop_0.
    + rewrite length_app, length_drop. rewrite <- drop_app_le by lia. rewrite drop_drop. f_equal.
      rewrite length_app. lia.
Qed.

Section connection.
Context {E B : Type} (grow : nat → nat) (err_text : E → gostring).

(** ** Answers *)

(** The headers the driver reads, the length if it is known to be zero, and the reader
    that [NewReader] makes for the body. *)
Record response := MkResponse {
  rs_status : Z;
  rs_code : gostring;
  rs_name : gostring;
  rs_tag : gostring;
  rs_empty : bool;
  rs_reader : result E (@source E)
}.

(** [decompress]: the bytes behind the block compression of the connection, if it has one
    and the bytes are compressed. *)
Context (decompress : option (gostring → option gostring)).

Definition maxErrorBodySize : nat := 64 * 1024.

Definition readRawResponse (res : response) : result E gostring :=
  match rs_reader res with
  | Err e => Err e
  | Ok src =>
      let '(body, err, _) := readAll grow maxErrorBodySize src in
      match err with
      | Some e => Err e
      | None => Ok (match decompress with
                    | Some d => match d body with Some (b :: t) => b :: t | _ => body end
                    | None => body end)
      end
  end.

Definition with_message (m : gostring) (e : Exception) : Exception :=
  MkException (Code e) (ex_Name e) (CodeName e) m (StackTrace e) (Nested e) (nested e).

(** [executeRequest]: [client] tells an open connection, [answer] is what [Do] returns. *)
Definition executeRequest (client : bool) (answer : result E response) : result (herr E) response :=
  if negb client then Err (Plain (str "driver: bad connection"))
  else match answer with
  | Err e => Err (Io e)
  | Ok resp =>
      if (rs_status resp =? 200)%Z then Ok resp
      else match readRawResponse resp with
      | Err e =>
          match parseHTTPException [] (rs_code resp) (rs_name resp) with
          | Some ex => Err (HTTPError (rs_status resp)
              (Server (with_message (str "failed to read response body: " ++ err_text e) ex)))
          | None => Err (HTTPError (rs_status resp) (Wrapped (str "failed to read response") (Io e)))
          end
      | Ok body => Err (newHTTPError (rs_status resp) (rs_code resp) (rs_name resp) body)
      end
  end.

(** The answer to an insert. *)
Definition insertResponseError (res : response) : option (herr E) :=
  match readRawResponse res with
  | Err e => Some (Wrapped (str "read insert response") (Io e))
  | Ok body => if isFramedException body then Some (parseExceptionFromBytes body) else None
  end.

(** ** Blocks of an answer ([readData]) *)

Inductive block_read :=
| Decoded (b : B)
| DecodeFailed (eof : bool) (e : E).   (* [eof]: errors.Is(err, io.EOF) *)

(** One call: what decoding gives, whether bytes arrived since it began, and the captured
    bytes with what could be drained afterwards. *)
Record read_step := MkStep { st_read : block_read; st_grew : bool; st_captured : gostring }.

(** An error, and whether it still is [io.EOF]. *)
Definition http_readData (s : read_step) : result (herr E * bool) B :=
  match st_read s with
  | Decoded b => Ok b
  | DecodeFailed eof e =>
      if eof && negb (st_grew s) then Err (Io e, true)
      else if isFramedException (st_captured s) then Err (parseExceptionFromBytes (st_captured s), false)
      else Err (Wrapped (str "block decode for exception") (Io e), eof)
  end.

(** ** [query] *)

Abbreviation released := (list (option (herr E))).

(** Where the goroutine is: before [readData], at the select with a block, at
    [errCh <- ctx.Err()], at the last [errCh <- err], or behind the loop. *)
Inductive reader_at :=
| Reading (steps : list read_step)
| Offering (b : B) (steps : list read_step)
| Cancelling (e : herr E) (steps : list read_step)
| Failing (e : herr E)
| Finished.

(** The goroutine, what is buffered in the stream, what the caller has taken from the two
    channels, and the calls of [release]. *)
Record rows_state := MkRowsState {
  g_at : reader_at;
  g_buffer : list B;
  g_taken : list B;
  g_errors : list (herr E);
  g_released : released
}.

(** Steps of the goroutine ([GCancel]: the select sees the end of the context), and of the
    caller, who may stop at any time. *)
Inductive rows_action := GRead | GPut | GCancel (e : herr E) | CTake | CTakeError.

Definition moves (s : rows_state) (p : reader_at) : rows_state :=
  MkRowsState p (g_buffer s) (g_taken s) (g_errors s) (g_released s).

(** Both channels are closed, then the connection is given back. *)
Definition finishes (s : rows_state) : rows_state :=
  MkRowsState Finished (g_buffer s) (g_taken s) (g_errors s) (g_released s ++ [None]).

(** One step, if it can be made: a block goes into the buffer while there is room, or to a
    caller who waits; an error waits for the caller.  The break behind the error of the
    context leaves only the select, and the loop goes on. *)
Definition rows_step (bufferSize : nat) (a : rows_action) (s : rows_state) : option rows_state :=
  match a, g_at s with
  | GRead, Reading [] => Some (finishes s)
  | GRead, Reading (st :: steps) =>
      match http_readData st with
      | Ok b => Some (moves s (Offering b steps))
      | Err (_, true) => Some (finishes s)
      | Err (e, false) => Some (moves s (Failing (Wrapped (str "readData stream") e)))
      end
  | GPut, Offering b steps =>
      if length (g_buffer s) <? bufferSize
      then Some (MkRowsState (Reading steps) (g_buffer s ++ [b]) (g_taken s) (g_errors s) (g_released s)) else None
  | GCancel e, Offering _ steps => Some (moves s (Cancelling e steps))
  | CTake, p =>
      match g_buffer s, p with
      | b :: bs, _ => Some (MkRowsState p bs (g_taken s ++ [b]) (g_errors s) (g_released s))
      | [], Offering b steps => Some (MkRowsState (Reading steps) [] (g_taken s ++ [b]) (g_errors s) (g_released s))
      | [], _ => None
      end
  | CTakeError, Cancelling e steps =>
      Some (MkRowsState (Reading steps) (g_buffer s) (g_taken s) (g_errors s ++ [e]) (g_released s))
  | CTakeError, Failing e =>
      Some (finishes (MkRowsState (Failing e) (g_buffer s) (g_taken s) (g_errors s ++ [e]) (g_released s)))
  | _, _ => None
  end.

Fixpoint rows_run (bufferSize : nat) (acts : list rows_action) (s : rows_state) : option rows_state :=
  match acts with
  | [] => Some s
  | a :: acts => s ← rows_step bufferSize a s; rows_run bufferSize acts s
  end.

(** The first block, and the goroutine behind it. *)
Record http_rows := MkHttpRows { hr_first : option B; hr_rest : option rows_state }.

Definition started (steps : list read_step) : rows_state := MkRowsState (Reading steps) [] [] [] [].

(** A stream of steps that is used up ends with [io.EOF]. *)
Definition first_step (steps : list read_step) : option B * option (herr E) :=
  match steps with
  | [] => (None, None)
  | s :: _ => match http_readData s with Ok b => (Some b, None) | Err (e, eof) => (None, if eof then None else Some e) end
  end.

(** [query]: the calls of [release] before it returns, and what it returns. *)
Definition http_query (bound : result (herr E) gostring) (client : bool) (answer : gostring → result E response)
    (steps : list read_step) : released * result (herr E) http_rows :=
  match bound with
  | Err e => let e := Wrapped (str "bindQueryOrAppendParameters") e in ([Some e], Err e)
  | Ok q =>
      match executeRequest client (answer q) with
      | Err e => let e := Wrapped (str "sendQuery") e in ([Some e], Err e)
      | Ok res =>
          if rs_empty res then ([None], Ok (MkHttpRows None None))
          else match rs_reader res with
          | Err e => let e := Wrapped (str "NewReader") (Io e) in ([Some e], Err e)
          | Ok _ =>
              match first_step steps with
              | (_, Some e) => let e := Wrapped (str "readData") e in ([Some e], Err e)
              | (b, None) => ([], Ok (MkHttpRows b (Some (started (tail steps)))))
              end
          end
      end
  end.

(** [exec] and [asyncInsert] do not give the connection back themselves. *)
Definition http_exec (bound : result (herr E) gostring) (client : bool) (answer : gostring → result E response) : option (herr E) :=
  match bound with
  | Err e => Some e
  | Ok q => match executeRequest client (answer q) with Err e => Some e | Ok _ => None end
  end.

Definition async_settings (wait : bool) : list (gostring * setting_any) :=
  [(str "async_insert", AnyValue (SInt 1)); (str "wait_for_async_insert", AnyValue (SInt (if wait then 1 else 0)))].

(** ** Raw answers and raw inserts *)

Record httpFormatStream := MkFormatStream {
  fs_reader : @exceptionScanReader E + @source E;   (* with and without the search *)
  fs_closed : bool
}.

Definition queryFormat (bound : result (herr E) gostring) (client : bool) (answer : gostring → result E response)
    (waitEnd : bool) : released * result (herr E) httpFormatStream :=
  match bound with
  | Err e => let e := Wrapped (str "bindQueryOrAppendParameters") e in ([Some e], Err e)
  | Ok q =>
      match executeRequest client (answer q) with
      | Err e => ([Some e], Err e)
      | Ok res =>
          match rs_reader res with
          | Err e => let e := Wrapped (str "NewReader") (Io e) in ([Some e], Err e)
          | Ok src => ([], Ok (MkFormatStream (if waitEnd then inr src else inl (newExceptionScanReader src (rs_tag res))) false))
          end
      end
  end.

Inductive stream_op := SRead (n : nat) | SClose.

(** Reading a closed stream is an error; [None] when the reader's fuel is spent. *)
Definition stream_step (o : stream_op) (s : httpFormatStream) : option (read_result * httpFormatStream * released) :=
  match o with
  | SRead n =>
      if fs_closed s then Some (Failed (Plain (str "clickhouse: read on closed format stream")), s, [])
      else match fs_reader s with
      | inl r => '(res, r) ← reader_Read grow n r; Some (res, MkFormatStream (inl r) false, [])
      | inr src =>
          let '(bs, err, src) := src_Read n src in
          Some (match bs, err with
                | [], Some None => EndOfFile
                | [], Some (Some e) => Failed (Io e)
                | _, _ => Bytes bs end, MkFormatStream (inr src) false, [])
      end
  | SClose => if fs_closed s then Some (EndOfFile, s, []) else Some (EndOfFile, MkFormatStream (fs_reader s) true, [None])
  end.

Fixpoint stream_run (os : list stream_op) (s : httpFormatStream) : option (httpFormatStream * released) :=
  match os with
  | [] => Some (s, [])
  | o :: os => '(_, s, r) ← stream_step o s; '(s, r') ← stream_run os s; Some (s, r ++ r')
  end.

(** [insertFormat]: the statement with the format of the argument is the query. *)
Definition insertFormat (formatName query : gostring) (client : bool) (answer : gostring → result E response)
    : released * option (herr E) :=
  match extractInsertQueryComponents query with
  | None => ([None], Some (Plain (str "invalid INSERT query: " ++ query)))
  | Some (insertStmt, _, _) =>
      let wrap := Wrapped (str "insert " ++ formatName) in
      match executeRequest client (answer (insertStmt ++ str " FORMAT " ++ formatName)) with
      | Err e => let e := wrap e in ([Some e], Some e)
      | Ok res => match insertResponseError res with
                  | Some e => let e := wrap e in ([Some e], Some e)
                  | None => ([None], None) end
      end
  end.

(** ** Theorems *)

(** The blocks before the first that can not be read, and what ends them. *)
Fixpoint decoded_prefix (steps : list read_step) : list B * option (herr E * bool) :=
  match steps with
  | [] => ([], None)
  | s :: steps => match http_readData s with
                  | Ok b => let '(bs, e) := decoded_prefix steps in (b :: bs, e)
                  | Err e => ([], Some e) end
  end.

(** The error the rows end with, if any. *)
Definition end_errors (end_ : option (herr E * bool)) : list (herr E) :=
  match end_ with Some (e, false) => [Wrapped (str "readData stream") e] | _ => [] end.

Section goroutine.
Variable bufferSize : nat.

(** What is still to come from the goroutine. *)
Definition blocks_to_come (p : reader_at) : list B :=
  match p with
  | Reading steps | Cancelling _ steps => (decoded_prefix steps).1
  | Offering b steps => b :: (decoded_prefix steps).1
  | Failing _ | Finished => []
  end.

Definition errors_to_come (p : reader_at) : list (herr E) :=
  match p with
  | Reading steps | Cancelling _ steps | Offering _ steps => end_errors (decoded_prefix steps).2
  | Failing e => [e]
  | Finished => []
  end.

Definition cancels (a : rows_action) : bool := match a with GCancel _ => true | _ => false end.
Definition cancelling (p : reader_at) : bool := match p with Cancelling _ _ => true | _ => false end.
Definition finished (p : reader_at) : bool := match p with Finished => true | _ => false end.

(** While the context lasts no step loses, adds or reorders anything. *)
Lemma rows_step_keeps a s s' : rows_step bufferSize a s = Some s' → cancels a = false → cancelling (g_at s) = false →
  g_taken s' ++ g_buffer s' ++ blocks_to_come (g_at s') = g_taken s ++ g_buffer s ++ blocks_to_come (g_at s)
  ∧ g_errors s' ++ errors_to_come (g_at s') = g_errors s ++ errors_to_come (g_at s) ∧ cancelling (g_at s') = false.
Proof.
  destruct s as [p buf tk er rl]. destruct a, p as [[|st steps]|b steps| | |]; cbn -[Nat.ltb]; try done; intros Es _ _.
  all: try (destruct (http_readData st) as [b|[e []]] eqn:Er; cbn; simplify_eq; cbn; try done;
            by destruct (decoded_prefix steps)).
  all: try (destruct (_ <? _); simplify_eq; cbn; by rewrite <- ?app_assoc).
  all: try (destruct buf; simplify_eq; cbn; by rewrite <- ?app_assoc).
  all: simplify_eq; cbn; by rewrite <- ?app_assoc, ?app_nil_r.
Qed.

Lemma rows_run_keeps acts : ∀ s s', rows_run bufferSize acts s = Some s' → forallb (λ a, negb (cancels a)) acts = true →
  cancelling (g_at s) = false →
  g_taken s' ++ g_buffer s' ++ blocks_to_come (g_at s') = g_taken s ++ g_buffer s ++ blocks_to_come (g_at s)
  ∧ g_errors s' ++ errors_to_come (g_at s') = g_errors s ++ errors_to_come (g_at s).
Proof.
  induction acts as [|a acts IH]; intros s s'; cbn [rows_run forallb]; [by intros [= <-]|].
  destruct (rows_step bufferSize a s) as [s1|] eqn:Es; [|done]. cbn [mbind option_bind].
  intros Hr [Ha%negb_true_iff Hc]%andb_true_iff Hp. destruct (rows_step_keeps _ _ _ Es Ha Hp) as (K1 & K2 & K3).
  destruct (IH _ _ Hr Hc K3) as [I1 I2]. by rewrite I1, I2.
Qed.

(** Every step is progress: there is an end to them. *)
Definition work (s : rows_state) : nat :=
  length (g_buffer s)
  + match g_at s with
    | Reading steps => 4 * length steps + 1
    | Offering _ steps => 4 * length steps + 4
    | Cancelling _ steps => 4 * length steps + 3
    | Failing _ => 1
    | Finished => 0
    end.

Lemma rows_step_spec a s s' : rows_step bufferSize a s = Some s' →
  work s' < work s ∧ (g_released s = (if finished (g_at s) then [None] else []) →
                      g_released s' = if finished (g_at s') then [None] else []).
Proof.
  unfold work. destruct s as [p buf tk er rl]. destruct a, p as [[|st steps]|b steps| | |]; cbn -[Nat.ltb]; try done; intros Es.
  all: try (destruct (http_readData st) as [b|[e []]]; simplify_eq; cbn; (split; [lia|by intros ->])).
  all: try (destruct (_ <? _); simplify_eq; cbn; rewrite length_app; cbn; (split; [lia|done])).
  all: try (destruct buf; simplify_eq; cbn; (split; [lia|done])).
  all: simplify_eq; cbn; split; [lia|by intros ->].
Qed.

Lemma rows_run_spec acts : ∀ s s', rows_run bufferSize acts s = Some s' →
  g_released s = (if finished (g_at s) then [None] else []) →
  length acts + work s' ≤ work s ∧ g_released s' = if finished (g_at s') then [None] else [].
Proof.
  induction acts as [|a acts IH]; intros s s'; cbn [rows_run]; [by intros [= <-]|].
  destruct (rows_step bufferSize a s) as [s1|] eqn:Es; [|done]. cbn [mbind option_bind]. intros Hr Hs.
  destruct (rows_step_spec _ _ _ Es) as [Hw Hrel]. destruct (IH _ _ Hr (Hrel Hs)) as [Hl Hs']. cbn [length]. split; [lia|done].
Qed.

(** Only a caller who stops can hold the goroutine: when neither can make a step, it has
    finished and the stream is empty. *)
Lemma rows_stuck s : (∀ a, rows_step bufferSize a s = None) → finished (g_at s) = true ∧ g_buffer s = [].
Proof.
  intros H. pose proof (H GRead) as Hr. pose proof (H CTake) as Ht. pose proof (H CTakeError) as He.
  destruct s as [[[|st steps]|b steps| | |] [|x buf] tk er rl]; cbn in *; try done; by destruct (http_readData st) as [|[e []]].
Qed.
End goroutine.

Lemma stream_run_closed os : ∀ s s' r, stream_run os s = Some (s', r) →
  fs_closed s' = fs_closed s || existsb (λ o, match o with SClose => true | _ => false end) os.
Proof.
  induction os as [|o os IH]; intros s s' r H; cbn [stream_run] in H; [simplify_eq; by rewrite orb_false_r|].
  destruct (stream_step o s) as [[[res s1] r1]|] eqn:E1; [|done]. cbn [mbind option_bind] in H.
  destruct (stream_run os s1) as [[s2 r2]|] eqn:E2; [|done]. cbn [mbind option_bind] in H. simplify_eq.
  rewrite (IH _ _ _ E2). cbn [existsb]. unfold stream_step in E1. destruct o as [n|].
  - destruct (fs_closed s) eqn:Ec; [by simplify_eq; rewrite Ec|]. destruct (fs_reader s) as [rd|src].
    + destruct (reader_Read grow n rd) as [[res' rd']|]; [|done]. cbn in E1. by simplify_eq.
    + destruct (src_Read n src) as [[bs err] src']. by simplify_eq.
  - destruct (fs_closed s) eqn:Ec; simplify_eq; [by rewrite Ec|done].
Qed.

Lemma stream_run_released os : ∀ s s' r, stream_run os s = Some (s', r) →
  r = (if fs_closed s then [] else if fs_closed s' then [None] else []) ∧ (fs_closed s = true → fs_closed s' = true).
Proof.
  induction os as [|o os IH]; intros s s' r H; cbn [stream_run] in H.
  - simplify_eq. by destruct (fs_closed s').
  - destruct (stream_step o s) as [[[res s1] r1]|] eqn:E1; [|done]. cbn [mbind option_bind] in H.
    destruct (stream_run os s1) as [[s2 r2]|] eqn:E2; [|done]. cbn [mbind option_bind] in H. simplify_eq.
    destruct (IH _ _ _ E2) as [-> Hc]. unfold stream_step in E1. destruct o as [n|].
    + destruct (fs_closed s) eqn:Ec.
      * simplify_eq. rewrite Ec in *. split; [done|]. by intros _; apply Hc.
      * destruct (fs_reader s) as [rd|src].
        -- destruct (reader_Read grow n rd) as [[res' rd']|]; [|done]. cbn in E1. by simplify_eq.
        -- destruct (src_Read n src) as [[bs err] src']. by simplify_eq.
    + destruct (fs_closed s) eqn:Ec; simplify_eq.
      * rewrite Ec in *. split; [done|]. by intros _; apply Hc.
      * cbn [fs_closed] in Hc. rewrite (Hc eq_refl). cbn. done.
Qed.

(** A stream whose reader is in order. *)
Definition stream_ok (s : httpFormatStream) : Prop :=
  match fs_reader s with inl r => ∃ tag ending R, reading tag ending R r | inr _ => True end.

Lemma stream_run_total os : ∀ s, stream_ok s → is_Some (stream_run os s).
Proof.
  induction os as [|o os IH]; intros s Hs; [done|]. cbn [stream_run].
  assert (∃ res s1 r1, stream_step o s = Some (res, s1, r1) ∧ stream_ok s1) as (res & s1 & r1 & -> & Hs1).
  { unfold stream_step. destruct o as [n|].
    - destruct (fs_closed s); [by eauto|]. unfold stream_ok in Hs. destruct (fs_reader s) as [rd|src].
      + destruct Hs as (tag & ending & R & Hr).
        destruct (reader_Read_total grow n tag ending R rd Hr) as (res & r' & R' & -> & Hr').
        do 3 eexists. split; [done|]. cbn. by eauto.
      + destruct (src_Read n src) as [[bs err] src']. do 3 eexists. by split.
    - destruct (fs_closed s); by eauto. }
  cbn [mbind option_bind]. destruct (IH s1 Hs1) as [[s2 r2] ->]. by eexists.
Qed.

(** C18: When a connection over HTTP is given back. A query that fails gives it back once,
    with the error it returns; an empty answer once, without one; otherwise it is kept until
    the goroutine behind the rows has finished and given back then, once and without an
    error: the goroutine takes a bounded number of steps, and it cannot go on only when it
    has finished and the channel is drained, so that rows that are read to the end give the
    connection back and rows that are abandoned may keep it
    ([abandoned_rows_keep_connection]). [insertFormat] gives it back once, with the error it
    returns, except that a statement that is no INSERT gives it back without one.
    [queryFormat] gives it back with its error, or once, when the stream is closed for the
    first time, and not before. *)
Theorem http_releases_once (bound : result (herr E) gostring) (client waitEnd : bool) (answer : gostring → result E response)
    (steps : list read_step) (bufferSize : nat) (formatName query : gostring) :
  match http_query bound client answer steps with
  | (rel, Err e) => rel = [Some e]
  | (rel, Ok (MkHttpRows _ None)) => rel = [None]
  | (rel, Ok (MkHttpRows _ (Some s0))) =>
      rel = [] ∧ ∀ acts s, rows_run bufferSize acts s0 = Some s →
        length acts ≤ work s0
        ∧ g_released s = (if finished (g_at s) then [None] else [])
        ∧ ((∀ a, rows_step bufferSize a s = None) → finished (g_at s) = true ∧ g_buffer s = [])
  end
  ∧ (insertFormat formatName query client answer).1
    = [if bool_decide (extractInsertQueryComponents query = None) then None else (insertFormat formatName query client answer).2]
  ∧ match queryFormat bound client answer waitEnd with
    | (rel, Err e) => rel = [Some e]
    | (rel, Ok s) => rel = [] ∧ ∀ os, ∃ s' r, stream_run os s = Some (s', r)
                      ∧ r = (if existsb (λ o, match o with SClose => true | _ => false end) os then [None] else [])
    end.
Proof.
  split; [|split].
  - unfold http_query. destruct bound as [q|e]; [|done]. destruct (executeRequest client (answer q)) as [res|e]; [|done].
    destruct (rs_empty res); [done|]. destruct (rs_reader res) as [src|e]; [|done].
    destruct (first_step steps) as [b [e|]]; [done|]. split; [done|]. intros acts s Hr.
    destruct (rows_run_spec bufferSize acts _ _ Hr eq_refl) as [Hw Hrel]. split; [lia|]. split; [done|]. apply rows_stuck.
  - unfold insertFormat. destruct (extractInsertQueryComponents query) as [[[stmt tbl] cols]|]; [|done].
    rewrite bool_decide_false by done. destruct (executeRequest _ _) as [res|e]; [|done].
    by destruct (insertResponseError res).
  - unfold queryFormat. destruct bound as [q|e]; [|done]. destruct (executeRequest client (answer q)) as [res|e]; [|done].
    destruct (rs_reader res) as [src|e]; [|done]. split; [done|]. intros os.
    set (s := MkFormatStream _ false). assert (stream_ok s) as Hs.
    { unfold s, stream_ok. destruct waitEnd; [done|]. cbn. do 3 eexists. apply new_reading. }
    destruct (stream_run_total os s Hs) as [[s' r] Er]. exists s', r. split; [done|].
    destruct (stream_run_released _ _ _ _ Er) as [-> _]. cbn [fs_closed s]. rewrite (stream_run_closed _ _ _ _ Er).
    by destruct (existsb _ os).
Qed.

Lemma decoded_prefix_end steps : ∀ i s x, steps !! i = Some s → length (decoded_prefix steps).1 = i →
  http_readData s = Err x → (decoded_prefix steps).2 = Some x.
Proof.
  induction steps as [|s0 steps IH]; intros i s x Hi Hlen Hr; [done|]. cbn [decoded_prefix] in *.
  destruct (http_readData s0) as [b0|e0] eqn:E0.
  - destruct (decoded_prefix steps) as [bs e1] eqn:E1. cbn [fst snd length] in *. destruct i as [|i]; [done|].
    apply (IH i s); [done|lia|done].
  - destruct i as [|i]; [|done]. cbn in Hi. simplify_eq. cbn. congruence.
Qed.

End connection.

(** Two blocks, then an exception. *)
Definition demo_text : gostring := exception_text 241 (str "DB::Exception") (str "Memory limit exceeded (MEMORY_LIMIT_EXCEEDED)").
Definition demo_steps : list (@read_step nat nat) :=
  [MkStep (Decoded 2) true []; MkStep (DecodeFailed false 9) true (str "data" ++ CRLF ++ server_block (str "tag") demo_text)].
Definition demo_response : @response nat := MkResponse 200 [] [] (str "tag") false (Ok (MkSource [] None false)).

(** Two blocks of room: the goroutine runs ahead of the caller, who then takes everything. *)
Definition demo_acts : list (@rows_action nat) := [GRead; GPut; GRead; CTakeError; CTake].


(** An answer that stops inside a block: the error of the decoder is wrapped but still is
    [io.EOF], and the rows end as if the answer were complete. *)
Lemma truncated_answer_looks_complete {E B} (e : E) (bs : list B) :
  let steps := map (λ b, MkStep (Decoded b) true []) bs ++ [MkStep (DecodeFailed true e) true (str "part")] in
  (decoded_prefix steps).1 = bs ∧ end_errors (decoded_prefix steps).2 = [].
Proof.
  cbv zeta. induction bs as [|b bs IH]; [done|]. cbn [map app decoded_prefix http_readData st_read].
  destruct (decoded_prefix _) as [bs' e']. cbn in *. destruct IH as [-> IH]. done.
Qed.

(** The loop goes on behind the end of the context: a block is lost and the next one is
    delivered. *)
Lemma cancelled_loop_goes_on {E} (c : herr E) :
  option_map (λ s, (g_taken s, g_errors s, g_at s))
    (rows_run 1 [GRead; GCancel c; CTakeError; GRead; GPut; CTake; GRead] (started [MkStep (Decoded 1) true []; MkStep (Decoded 2) true []]))
  = Some ([2], [c], Finished).
Proof. reflexivity. Qed.

(** A caller who stops taking while the stream is full, or behind the end of the context,
    keeps the connection: the goroutine waits and can make no step of its own. *)
Lemma abandoned_rows_keep_connection {E} (c : herr E) :
  let steps := [MkStep (Decoded 1) true []; MkStep (Decoded 2) true []] in
  (∃ s, rows_run 1 [GRead; GPut; GRead] (started steps) = Some s ∧ rows_step 1 GRead s = None ∧ rows_step 1 GPut s = None
        ∧ g_released s = [])
  ∧ ∃ s, rows_run 1 [GRead; GCancel c] (started steps) = Some s
         ∧ (∀ a, rows_step 1 a s ≠ None → a = CTakeError) ∧ g_released s = [].
Proof.
  split; eexists; (split; [reflexivity|]); [done|]. split; [|done]. by intros [].
Qed.

(** ** The checks before a raw query or a raw insert ([format.go]) *)

(** A space, FORMAT, spaces, a word as group 1, an optional semicolon, the end. *)
Definition trailingFormatClause : re :=
  Seq (Cls is_s) (Seq (LitFold (str "FORMAT")) (Seq S1
    (Seq (Grp 1 (Seq (Cls letter) (Star (Cls (λ b, letter b || isDigit b)))))
      (Seq S0 (Seq (Opt (Chr ";")) (Seq S0 Eol)))))).

Definition hasTrailingFormatClause (query : gostring) : bool :=
  match find_first trailingFormatClause query with
  | Some m => negb (existsb (λ n, bool_decide (n = strings_ToLower (group m 1))) [str "asc"; str "desc"])
  | None => false
  end.

Inductive format_refusal := BadFormatName | TrailingFormat | NativeUnsupported | BadInsert.

(** What [QueryFormat] and [InsertFormat] refuse before they acquire a connection. *)
Definition QueryFormat_check (http : bool) (format query : gostring) : option format_refusal :=
  if negb (validateFormatName format) then Some BadFormatName
  else if hasTrailingFormatClause query then Some TrailingFormat
  else if negb http then Some NativeUnsupported else None.

Definition InsertFormat_check (http : bool) (format query : gostring) : option format_refusal :=
  if negb (validateFormatName format) then Some BadFormatName
  else if negb http then Some NativeUnsupported
  else match extractInsertQueryComponents query with None => Some BadInsert | Some _ => None end.

Example trailing_formats :
  map hasTrailingFormatClause
    [str "SELECT 1 FORMAT JSONEachRow;"; str "SELECT 1 format CSV "; str "SELECT a ORDER BY format ASC"; str "SELECT 1"]
  = [true; true; false; false].
Proof. vm_compute. reflexivity. Qed.

(** A format that passes is a plain word: it adds nothing but itself to the statement. *)
Lemma validated_format_is_a_word format :
  validateFormatName format = true → format ≠ [] ∧ Forall (λ b, letter b || isDigit b = true) format.
Proof.
  unfold validateFormatName. destruct format as [|b t]; [done|]. intros [Hb Ht]%andb_true_iff. split; [done|].
  constructor; [by rewrite Hb|]. apply Forall_forall. intros c Hc. rewrite forallb_forall in Ht.
  apply Ht. by apply list_elem_of_In.
Qed.
