(* ===== verification/Process.v ===== *)
(** * Reading the server's packets ([conn_process.go], [conn_logs.go],
    [conn_profile_events.go], [readData])

    After a query the client reads packets until the end of the stream or an error and
    hands what they carry to the callbacks of [onProcess].  The reader is the bytes that
    are still to come; the callbacks are a list of what they were given.  [None] is the
    panic of a block's column count.  A loop that runs out of fuel says so with an error of
    its own, [PEFuel], which [process_terminates] shows is never returned when the fuel is
    beyond the length of the input.

    With compression the block behind the name comes through the compressed reader, a
    parameter.  The goroutine around [firstBlockImpl] and [processImpl] that waits for
    the context, and the deadlines, are in [Statement.v]; logging is not modelled. *)

From Stdlib Require Import ZifyBool.
From S2P Require Import Prelude GoStd Wire ProtoPackets Block.
Local Open Scope Z_scope.

Definition ServerHello : byte := x00.
Definition ServerData : byte := x01.
Definition ServerException : byte := x02.
Definition ServerProgress : byte := x03.
Definition ServerPong : byte := x04.
Definition ServerEndOfStream : byte := x05.
Definition ServerProfileInfo : byte := x06.
Definition ServerTotals : byte := x07.
Definition ServerExtremes : byte := x08.
Definition ServerLog : byte := x0a.
Definition ServerTableColumns : byte := x0b.
Definition ServerProfileEvents : byte := x0e.

(** [ScanRow] of a column into the kinds of variables the logs and events have. *)
Class ScanOps (CO : ColumnOps) := {
  scanTime : col → nat → result col_err gotime;
  scanStr : col → nat → result col_err gostring;
  scanInt : col → nat → result col_err Z;      (* into an integer of the variable's type *)
  scanUint64 : col → nat → result col_err Z;
  isUint64 : col → bool                        (* ScanType().Kind() == reflect.Uint64 *)
}.

Record Log := MkLog {
  l_Time : gotime; TimeMicro : Z; l_Hostname : gostring; QueryID : gostring;
  l_ThreadID : Z; Priority : Z; Source : gostring; Text : gostring }.

Record ProfileEvent := MkEvent {
  Hostname : gostring; CurrentTime : gotime; ThreadID : Z; pe_Type : gostring; pe_Name : gostring; Value : Z }.

Section process.
Context {CO : ColumnOps} {W : Wire} {SO : ScanOps CO}.

Inductive process_err :=
| PEClosed                       (* attempted reading on closed connection *)
| PENilReader
| PERead                         (* failed to read packet *)
| PEBlockName
| PEBlock (e : block_err)
| PEProto (e : proto_err)
| PEScan (e : col_err)
| PEException (e : Exception)
| PEUnexpected (packet : byte)
| PEEOF                          (* io.EOF *)
| PEFuel.                        (* not an error of the code: the loop was cut off *)

(** What the callbacks were given; [OnTableColumns] stands for the debug record. *)
Inductive callback :=
| OnData (packet : byte) (b : Block)
| OnProfileInfo (p : ProfileInfo)
| OnProfileEvents (es : list ProfileEvent)
| OnLogs (ls : list Log)
| OnProgress (p : Progress).

(** Which callbacks are set; the others always are. *)
Record onProcess := MkOn { on_data : bool; on_profileEvents : bool }.

(** ** Logs and profile events

    The loops over rows and columns; a decoded block has as many names as columns. *)

Definition zeroTime : gotime := MkTime (-62135596800) 0 (str "UTC") 0.
Definition zeroLog : Log := MkLog zeroTime 0 [] [] 0 0 [] [].
Definition zeroEvent : ProfileEvent := MkEvent [] zeroTime 0 [] [] 0.

Definition log_field (r : nat) (log : Log) (name : gostring) (b : col) : result col_err Log :=
  let '(MkLog t tm h q th p src txt) := log in
  if bool_decide (name = str "event_time") then t ← scanTime b r; Ok (MkLog t tm h q th p src txt)
  else if bool_decide (name = str "event_time_microseconds") then tm ← scanInt b r; Ok (MkLog t tm h q th p src txt)
  else if bool_decide (name = str "host_name") then h ← scanStr b r; Ok (MkLog t tm h q th p src txt)
  else if bool_decide (name = str "query_id") then q ← scanStr b r; Ok (MkLog t tm h q th p src txt)
  else if bool_decide (name = str "thread_id") then th ← scanInt b r; Ok (MkLog t tm h q th p src txt)
  else if bool_decide (name = str "priority") then p ← scanInt b r; Ok (MkLog t tm h q th p src txt)
  else if bool_decide (name = str "source") then src ← scanStr b r; Ok (MkLog t tm h q th p src txt)
  else if bool_decide (name = str "text") then txt ← scanStr b r; Ok (MkLog t tm h q th p src txt)
  else Ok log.

Definition event_field (r : nat) (ev : ProfileEvent) (name : gostring) (b : col) : result col_err ProfileEvent :=
  let '(MkEvent h t th ty n v) := ev in
  if bool_decide (name = str "host_name") then h ← scanStr b r; Ok (MkEvent h t th ty n v)
  else if bool_decide (name = str "current_time") then t ← scanTime b r; Ok (MkEvent h t th ty n v)
  else if bool_decide (name = str "thread_id") then th ← scanInt b r; Ok (MkEvent h t th ty n v)
  else if bool_decide (name = str "type") then ty ← scanStr b r; Ok (MkEvent h t th ty n v)
  else if bool_decide (name = str "name") then n ← scanStr b r; Ok (MkEvent h t th ty n v)
  else if bool_decide (name = str "value") then
    v ← (if isUint64 b then u ← scanUint64 b r; Ok (i64 u) else scanInt b r);
    Ok (MkEvent h t th ty n v)
  else Ok ev.

(** [for i, b := range block.Columns { switch names[i] ... }]. *)
Fixpoint scan_columns {A} (f : A → gostring → col → result col_err A) (x : A) (cols : list (gostring * col))
    : result col_err A :=
  match cols with
  | [] => Ok x
  | (n, c) :: cols => x ← f x n c; scan_columns f x cols
  end.

(** [for r := 0; r < block.Rows(); r++]. *)
Fixpoint scan_rows {A} (f : nat → result col_err A) (rs : list nat) : result col_err (list A) :=
  match rs with
  | [] => Ok []
  | r :: rs => x ← f r; l ← scan_rows f rs; Ok (x :: l)
  end.

Definition logs_of (b : Block) : result col_err (list Log) :=
  scan_rows (λ r, scan_columns (log_field r) zeroLog (zip (names b) (Columns b))) (seq 0 (block_Rows b)).

Definition events_of (b : Block) : result col_err (list ProfileEvent) :=
  scan_rows (λ r, scan_columns (event_field r) zeroEvent (zip (names b) (Columns b))) (seq 0 (block_Rows b)).

(** ** The packets *)

(** The connection as the reading side sees it. *)
Record rconn := MkRConn { rc_closed : bool; rc_revision : Z; rc_compression : bool }.

(** [block.Decode] through the decompressing reader. *)
Variable compressed_Decode : Z → gostring → option (result block_err (Block * gostring)).
Variable c : rconn.

(** A step of reading: the value and the bytes still to come. *)
Definition reading (A : Type) : Type := gostring → option (result process_err (A * gostring)).

#[local] Instance reading_ret : MRet reading := λ A a s, Some (Ok (a, s)).
#[local] Instance reading_bind : MBind reading := λ A B f m s,
  match m s with
  | Some (Ok (a, r)) => f a r
  | Some (Err e) => Some (Err e)
  | None => None
  end.

Definition fails {A} (e : process_err) : reading A := λ _, Some (Err e).
Definition decode {A} (p : parser A) : reading A := λ s, Some (map_err PEProto (p s)).
Definition scanned {A} (r : result col_err A) : reading A :=
  match r with Ok x => mret x | Err e => fails (PEScan e) end.

Definition readData (compressible : bool) : reading Block := λ s,
  if rc_closed c then Some (Err PEClosed)
  else match RStr s with
  | None => Some (Err PEBlockName)
  | Some (_, s) =>
      r ← (if compressible && rc_compression c then compressed_Decode (rc_revision c) s
           else Block_Decode (rc_revision c) s);
      Some (map_err PEBlock r)
  end.

Definition exception {A} : reading A := λ s,
  r ← Exception_Decode s;
  Some (match r with Ok (e, _) => Err (PEException e) | Err e => Err (PEProto e) end).

Definition progress : reading Progress := decode (Progress_Decode (rc_revision c)).

Definition logs : reading (list Log) := b ← readData false; scanned (logs_of b).

Definition profileEvents (scanEvents : bool) : reading (list ProfileEvent) :=
  b ← readData false; if scanEvents then scanned (events_of b) else mret [].

Definition handle (on : onProcess) (packet : byte) : reading (list callback) :=
  if beq packet ServerData || beq packet ServerTotals || beq packet ServerExtremes then
    b ← readData true;
    mret (if negb (Nat.eqb (block_Rows b) 0) && on_data on then [OnData packet b] else [])
  else if beq packet ServerException then exception
  else if beq packet ServerProfileInfo then info ← decode ProfileInfo_Decode; mret [OnProfileInfo info]
  else if beq packet ServerTableColumns then _ ← decode TableColumns_Decode; mret []
  else if beq packet ServerProfileEvents then
    es ← profileEvents (on_profileEvents on);
    mret (if on_profileEvents on then [OnProfileEvents es] else [])
  else if beq packet ServerLog then ls ← logs; mret [OnLogs ls]
  else if beq packet ServerProgress then p ← progress; mret [OnProgress p]
  else fails (PEUnexpected packet).

(** The loop of [processImpl]: the callbacks made, in order, and the outcome. *)
Fixpoint processImpl (fuel : nat) (on : onProcess) (s : gostring)
    : option (list callback * result process_err gostring) :=
  match fuel with
  | O => Some ([], Err PEFuel)
  | S fuel =>
      match RByte s with
      | None => Some ([], Err PERead)
      | Some (packet, s) =>
          if beq packet ServerEndOfStream then Some ([], Ok s)
          else
            r ← handle on packet s;
            match r with
            | Err e => Some ([], Err e)
            | Ok (cbs, s) => '(more, r) ← processImpl fuel on s; Some (cbs ++ more, r)
            end
      end
  end.

Fixpoint firstBlockImpl (fuel : nat) (on : onProcess) (s : gostring)
    : option (list callback * result process_err (Block * gostring)) :=
  match fuel with
  | O => Some ([], Err PEFuel)
  | S fuel =>
      match RByte s with
      | None => Some ([], Err PERead)
      | Some (packet, s) =>
          if beq packet ServerData then r ← readData true s; Some ([], r)
          else if beq packet ServerEndOfStream then Some ([], Err PEEOF)
          else
            r ← handle on packet s;
            match r with
            | Err e => Some ([], Err e)
            | Ok (cbs, s) => '(more, r) ← firstBlockImpl fuel on s; Some (cbs ++ more, r)
            end
      end
  end.

(** The loop of [ping]: progress packets until the pong. *)
Fixpoint ping_loop (fuel : nat) (s : gostring) : option (result process_err gostring) :=
  match fuel with
  | O => Some (Err PEFuel)
  | S fuel =>
      match RByte s with
      | None => Some (Err PERead)
      | Some (packet, s) =>
          if beq packet ServerException then 
            match exception (A := unit) s with
            | Some (Ok (_, s)) => Some (Ok s) | Some (Err e) => Some (Err e) | None => None end
          else if beq packet ServerProgress then
            r ← progress s;
            match r with Err e => Some (Err e) | Ok (_, s) => ping_loop fuel s end
          else if beq packet ServerPong then Some (Ok s)
          else Some (Err (PEUnexpected packet))
      end
  end.
End process.

(** Columns never give bytes back. *)
Class ColumnShrinks (CO : ColumnOps) : Prop := {
  ReadStatePrefix_shrinks : ∀ k rd s k' r, ReadStatePrefix k = Some rd → rd s = Ok (k', r) → (length r ≤ length s)%nat;
  colDecode_shrinks : ∀ k n s k' r, colDecode k n s = Ok (k', r) → (length r ≤ length s)%nat
}.

(** ** What the server sends *)

Section theorems.
Context {CO : ColumnOps} {W : Wire} {SO : ScanOps CO} {L : WireLaws W}.
Variable compressed_Decode : Z → gostring → option (result block_err (Block * gostring)).
Variable c : rconn.

(** [bytes] are what the reader takes for the block [b]. *)
Definition reads_block (compressible : bool) (bytes : gostring) (b : Block) : Prop :=
  ∀ rest, (if compressible && rc_compression c then compressed_Decode (rc_revision c) (bytes ++ rest)
           else Block_Decode (rc_revision c) (bytes ++ rest)) = Some (Ok (b, rest)).

(** Packets before the end of the stream, with the bytes of their blocks. *)
Inductive server_packet :=
| SBlock (packet : byte) (bytes : gostring) (b : Block)
| SProfileInfo (p : ProfileInfo)
| STableColumns (first second : gostring)
| SProfileEvents (bytes : gostring) (b : Block) (es : list ProfileEvent)
| SLog (bytes : gostring) (b : Block) (ls : list Log)
| SProgress (p : Progress).

Definition packet_code (p : server_packet) : byte :=
  match p with
  | SBlock k _ _ => k
  | SProfileInfo _ => ServerProfileInfo
  | STableColumns _ _ => ServerTableColumns
  | SProfileEvents _ _ _ => ServerProfileEvents
  | SLog _ _ _ => ServerLog
  | SProgress _ => ServerProgress
  end.

Definition packet_body (p : server_packet) : gostring :=
  match p with
  | SBlock _ bytes _ | SProfileEvents bytes _ _ | SLog bytes _ _ => PutString [] ++ bytes
  | SProfileInfo p => put_profile p
  | STableColumns a b => PutString a ++ PutString b
  | SProgress p => put_progress p (rc_revision c)
  end.

Definition put_packet (p : server_packet) : gostring := PutByte (packet_code p) ++ packet_body p.

Definition packet_ok (on : onProcess) (p : server_packet) : Prop :=
  match p with
  | SBlock k bytes b => k ∈ [ServerData; ServerTotals; ServerExtremes] ∧ reads_block true bytes b
  | SProfileInfo p => profile_ok p
  | STableColumns a b => go_len a ∧ go_len b
  | SProfileEvents bytes b es => reads_block false bytes b ∧ (on_profileEvents on = true → events_of b = Ok es)
  | SLog bytes b ls => reads_block false bytes b ∧ logs_of b = Ok ls
  | SProgress p => progress_ok p (rc_revision c)
  end.

(** The callbacks a packet makes. *)
Definition callbacks_of (on : onProcess) (p : server_packet) : list callback :=
  match p with
  | SBlock k _ b => if negb (Nat.eqb (block_Rows b) 0) && on_data on then [OnData k b] else []
  | SProfileInfo p => [OnProfileInfo p]
  | STableColumns _ _ => []
  | SProfileEvents _ _ es => if on_profileEvents on then [OnProfileEvents es] else []
  | SLog _ _ ls => [OnLogs ls]
  | SProgress p => [OnProgress p]
  end.

Hypothesis is_open : rc_closed c = false.

Lemma readData_put compressible bytes b rest :
  reads_block compressible bytes b →
  readData compressed_Decode c compressible (PutString [] ++ bytes ++ rest) = Some (Ok (b, rest)).
Proof. intros H. unfold readData. rewrite is_open, reads_Str by done. by rewrite H. Qed.

Lemma handle_put on p rest :
  packet_ok on p →
  handle compressed_Decode c on (packet_code p) (packet_body p ++ rest) = Some (Ok (callbacks_of on p, rest)).
Proof.
  destruct p as [k bytes b|p|a b|bytes b es|bytes b ls|p]; cbn [packet_ok packet_code packet_body callbacks_of].
  - intros [Hk Hb].
    assert ((beq k ServerData || beq k ServerTotals || beq k ServerExtremes) = true) as Ek.
    { rewrite !elem_of_cons in Hk. by destruct Hk as [-> |[-> |[-> |Hk%elem_of_nil]]]. }
    unfold handle. rewrite Ek, <- app_assoc. unfold mbind, reading_bind. by rewrite (readData_put _ bytes b).
  - intros Hp. unfold handle. cbn -[put_profile]. unfold mbind, reading_bind, decode. by rewrite ProfileInfo_reads.
  - intros [Ha Hb]. unfold handle. cbn -[TableColumns_Decode]. unfold mbind, reading_bind, decode.
    rewrite <- app_assoc. by rewrite TableColumns_reads.
  - intros [Hb He]. unfold handle. cbn -[readData]. unfold mbind, reading_bind, profileEvents, mbind, reading_bind.
    rewrite <- app_assoc, (readData_put _ bytes b) by done. destruct (on_profileEvents on); [|done]. by rewrite He.
  - intros [Hb He]. unfold handle. cbn -[readData]. unfold mbind, reading_bind, logs, mbind, reading_bind.
    rewrite <- app_assoc, (readData_put _ bytes b) by done. by rewrite He.
  - intros Hp. unfold handle. cbn -[put_progress progress]. unfold mbind, reading_bind, progress, decode.
    by rewrite Progress_reads.
Qed.

(** How a stream ends: with the end marker or with an exception. *)
Inductive stream_end := EndOfStream | Raised (e : raised) (chain : list raised).

Definition put_end (t : stream_end) : gostring :=
  match t with
  | EndOfStream => PutByte ServerEndOfStream
  | Raised e chain => PutByte ServerException ++ put_exceptions e chain
  end.

Definition end_ok (t : stream_end) : Prop :=
  match t with EndOfStream => True | Raised e chain => Forall raised_ok (e :: chain) end.

Definition end_result (t : stream_end) (rest : gostring) : result process_err gostring :=
  match t with EndOfStream => Ok rest | Raised e chain => Err (PEException (received e chain)) end.

Lemma not_end on p : packet_ok on p → beq (packet_code p) ServerEndOfStream = false.
Proof.
  destruct p; try done. intros [Hk _]. rewrite !elem_of_cons in Hk.
  by destruct Hk as [-> |[-> |[-> |Hk%elem_of_nil]]].
Qed.

Lemma processImpl_put fuel on ps t rest :
  Forall (packet_ok on) ps → end_ok t → (length ps < fuel)%nat →
  processImpl compressed_Decode c fuel on (flat_map put_packet ps ++ put_end t ++ rest)
  = Some (flat_map (callbacks_of on) ps, end_result t rest).
Proof.
  revert fuel. induction ps as [|p ps IH]; intros [|fuel] Hps Ht Hf; try (simpl in Hf; lia); cbn [processImpl flat_map app].
  - destruct t as [|e chain]; cbn [put_end].
    + by rewrite reads_Byte.
    + rewrite <- app_assoc, reads_Byte by done. cbn -[exception Exception_Decode].
      unfold exception. by rewrite Exception_reads.
  - apply Forall_cons in Hps as [Hp Hps]. unfold put_packet. rewrite <- !app_assoc, reads_Byte by done.
    rewrite (not_end on p Hp), handle_put by done. cbn [mbind option_bind].
    rewrite IH by (done || (simpl in Hf; lia)). done.
Qed.

Lemma firstBlockImpl_put fuel on ps bytes b rest :
  Forall (packet_ok on) ps → Forall (λ p, packet_code p ≠ ServerData) ps → reads_block true bytes b →
  (length ps < fuel)%nat →
  firstBlockImpl compressed_Decode c fuel on
    (flat_map put_packet ps ++ put_packet (SBlock ServerData bytes b) ++ rest)
  = Some (flat_map (callbacks_of on) ps, Ok (b, rest)).
Proof.
  intros Hps Hd Hb. revert fuel. induction ps as [|p ps IH]; intros [|fuel] Hf; try (simpl in Hf; lia);
    cbn [firstBlockImpl flat_map app].
  - unfold put_packet. rewrite <- app_assoc, reads_Byte by done. cbn [packet_code packet_body].
    rewrite beq_refl, <- app_assoc, (readData_put _ bytes b) by done. done.
  - apply Forall_cons in Hps as [Hp Hps]. apply Forall_cons in Hd as [Hpd Hd]. unfold put_packet at 1.
    rewrite <- !app_assoc, reads_Byte by done.
    rewrite beq_ne, (not_end on p Hp), handle_put by done. cbn [mbind option_bind].
    rewrite IH by (done || (simpl in Hf; lia)). done.
Qed.

End theorems.

(** ** The loops end *)

Section termination.
Context {CO : ColumnOps} {W : Wire} {SO : ScanOps CO} {L : WireLaws W}.
Variable compressed_Decode : Z → gostring → option (result block_err (Block * gostring)).
Variable c : rconn.


(** A reading step never gives bytes back. *)
Definition shrinks {A} (m : reading A) : Prop :=
  ∀ s x r, m s = Some (Ok (x, r)) → (length r ≤ length s)%nat.

Lemma shrinks_ret {A} (x : A) : shrinks (mret (M := reading) (MRet := reading_ret) x).
Proof. intros s y r [= <- <-]. done. Qed.

Lemma shrinks_fails {A} e : shrinks (fails (A := A) e).
Proof. by intros s y r ?. Qed.

Lemma shrinks_bind {A B} (m : reading A) (f : A → reading B) :
  shrinks m → (∀ x, shrinks (f x)) → shrinks (mbind (MBind := reading_bind) f m).
Proof.
  intros Hm Hf s y r. unfold mbind, reading_bind. destruct (m s) as [[[x t]|e]|] eqn:E; [|done..].
  intros H. apply Hm in E. apply Hf in H. lia.
Qed.

(** Decoders made of fields. *)
Definition pshrinks {A} (p : parser A) : Prop := ∀ s x r, p s = Ok (x, r) → (length r ≤ length s)%nat.

Lemma pshrinks_bind {A B} (m : parser A) (f : A → parser B) :
  pshrinks m → (∀ x, pshrinks (f x)) → pshrinks (m ≫= f).
Proof.
  intros Hm Hf s y r. unfold mbind, parser_bind. destruct (m s) as [[x t]|e] eqn:E; [|done].
  intros H. apply Hm in E. apply Hf in H. lia.
Qed.

Lemma pshrinks_ret {A} (x : A) : pshrinks (mret x).
Proof. intros s y r [= <- <-]. done. Qed.

Lemma pshrinks_field {A} e (rd : gostring → option (A * gostring)) : consumes rd → pshrinks (field e rd).
Proof. intros H s x r E. apply field_consumes in E; [lia|done]. Qed.

Lemma pshrinks_when {A} b (p : parser A) d : pshrinks p → pshrinks (when b p d).
Proof. intros H. unfold when. destruct b; [done|apply pshrinks_ret]. Qed.

Lemma shrinks_decode {A} (p : parser A) : pshrinks p → shrinks (decode p).
Proof.
  intros H s x r. unfold decode. destruct (p s) as [[y t]|e] eqn:E; [|done]. cbn. intros [= <- <-]. by eapply H.
Qed.

Create HintDb shrink.
#[local] Hint Resolve pshrinks_bind pshrinks_ret pshrinks_field pshrinks_when shrinks_ret shrinks_fails shrinks_bind
  shrinks_decode consumes_UVarInt consumes_Str consumes_Bool : shrink.

Lemma Progress_shrinks revision : pshrinks (Progress_Decode revision).
Proof. unfold Progress_Decode, try. auto 20 with shrink. Qed.

Lemma ProfileInfo_shrinks : pshrinks ProfileInfo_Decode.
Proof. unfold ProfileInfo_Decode, try. auto 20 with shrink. Qed.

Lemma TableColumns_shrinks : pshrinks TableColumns_Decode.
Proof. unfold TableColumns_Decode, try. auto 20 with shrink. Qed.

Context {CS : ColumnShrinks CO}.
Hypothesis compressed_shrinks : ∀ rev s b r, compressed_Decode rev s = Some (Ok (b, r)) → (length r ≤ length s)%nat.

Lemma bread_Ok {A} (o : option A) x : bread o = Ok x → o = Some x.
Proof. destruct o; by intros [= <-]. Qed.

Lemma map_err_Ok {E F A} (f : E → F) (r : result E A) x : map_err f r = Ok x → r = Ok x.
Proof. destruct r; by intros [= <-]. Qed.

Lemma decode_column_shrinks numRows rev s n k r :
  decode_column numRows rev s = Ok (n, k, r) → (length r ≤ length s)%nat.
Proof.
  unfold decode_column. destruct (bread (RStr s)) as [[nm s1]|] eqn:E1; [|done]. cbn [mbind result_bind].
  destruct (bread (RStr s1)) as [[ty s2]|] eqn:E2; [|done]. cbn [mbind result_bind].
  destruct (newColumn nm ty) as [k0|]; [|done]. cbn [mbind result_bind].
  apply bread_Ok, consumes_Str in E1, E2.
  assert (∀ (hc : bool) s3, (if DBMS_MIN_REVISION_WITH_CUSTOM_SERIALIZATION <=? rev then bread (RBool s2) else Ok (false, s2))
    = Ok (hc, s3) → (length s3 ≤ length s2)%nat) as H3.
  { intros hc s3. destruct (_ <=? _); [intros E%bread_Ok%consumes_Bool; lia|by intros [= <- <-]]. }
  destruct (if _ <=? rev then _ else _) as [[hc s3]|]; [|done]. specialize (H3 hc s3 eq_refl).
  cbn [mbind result_bind]. destruct hc; [done|]. destruct (numRows =? 0).
  { intros [= <- <- <-]. lia. }
  destruct (match ReadStatePrefix k0 with None => _ | _ => _ end) as [[k1 s4]|] eqn:E4; [|done].
  cbn [mbind result_bind]. destruct (map_err _ (colDecode _ _ _)) as [[k2 s5]|] eqn:E5; [|done].
  intros [= <- <- <-]. apply map_err_Ok, colDecode_shrinks in E5.
  destruct (ReadStatePrefix k0) as [rd|] eqn:Ep; [|injection E4 as <- <-; lia].
  apply map_err_Ok in E4. eapply ReadStatePrefix_shrinks in E4; [|done]. lia.
Qed.

Lemma decode_columns_shrinks n numRows rev s ns ks r :
  decode_columns n numRows rev s = Ok (ns, ks, r) → (length r ≤ length s)%nat.
Proof.
  revert s ns ks. induction n as [|n IH]; intros s ns ks; cbn [decode_columns]; [by intros [= <- <- <-]|].
  destruct (decode_column numRows rev s) as [[[nm k] s1]|] eqn:E1; [|done]. cbn [mbind result_bind].
  destruct (decode_columns n numRows rev s1) as [[[ns' ks'] s2]|] eqn:E2; [|done]. intros [= <- <- <-].
  apply decode_column_shrinks in E1. apply IH in E2. lia.
Qed.

Lemma decodeBlockInfo_shrinks s r : decodeBlockInfo s = Some r → (length r ≤ length s)%nat.
Proof.
  unfold decodeBlockInfo. destruct (RUVarInt s) as [[? s1]|] eqn:E1; [|done]. cbn [mbind option_bind].
  destruct (RBool s1) as [[? s2]|] eqn:E2; [|done]. cbn [mbind option_bind].
  destruct (RUVarInt s2) as [[? s3]|] eqn:E3; [|done]. cbn [mbind option_bind].
  destruct (RInt32 s3) as [[? s4]|] eqn:E4; [|done]. cbn [mbind option_bind].
  destruct (RUVarInt s4) as [[? s5]|] eqn:E5; [|done]. cbn [mbind option_bind]. intros [= <-].
  apply consumes_UVarInt in E1, E3, E5. apply consumes_Bool in E2. apply consumes_Int32 in E4. lia.
Qed.

Lemma Block_Decode_shrinks rev s b r : Block_Decode rev s = Some (Ok (b, r)) → (length r ≤ length s)%nat.
Proof.
  unfold Block_Decode. destruct (if 0 <? rev then decodeBlockInfo s else Some s) as [s1|] eqn:E1; [|done].
  assert (length s1 ≤ length s)%nat as H1.
  { destruct (0 <? rev); [by apply decodeBlockInfo_shrinks|by injection E1 as <-]. }
  destruct (RUVarInt s1) as [[nc s2]|] eqn:E2; [|done]. destruct (RUVarInt s2) as [[nr s3]|] eqn:E3; [|done].
  apply consumes_UVarInt in E2, E3. destruct (1000000000 <? nr); [done|]. destruct (2 ^ 63 <=? nc); [done|].
  destruct (decode_columns _ nr rev s3) as [[[ns ks] s4]|] eqn:E4; [|done]. intros [= <- <-].
  apply decode_columns_shrinks in E4. lia.
Qed.

Lemma readData_shrinks compressible : shrinks (readData compressed_Decode c compressible).
Proof.
  intros s b r. unfold readData. destruct (rc_closed c); [done|].
  destruct (RStr s) as [[nm s1]|] eqn:E1; [|done]. apply consumes_Str in E1.
  destruct (if _ && _ then _ else _) as [[[b' r']|]|] eqn:E2; [|done..]. cbn. intros [= <- <-].
  destruct (compressible && rc_compression c); [apply compressed_shrinks in E2|apply Block_Decode_shrinks in E2]; lia.
Qed.

Lemma exception_shrinks {A} : shrinks (exception (A := A)).
Proof. intros s x r. unfold exception. by destruct (Exception_Decode s) as [[[? ?]|]|]. Qed.

Lemma scanned_shrinks {A} (r : result col_err A) : shrinks (scanned r).
Proof. destruct r; [apply shrinks_ret|apply shrinks_fails]. Qed.
#[local] Hint Resolve readData_shrinks exception_shrinks scanned_shrinks Progress_shrinks ProfileInfo_shrinks
  TableColumns_shrinks : shrink.

Lemma handle_shrinks on packet : shrinks (handle compressed_Decode c on packet).
Proof.
  unfold handle. repeat match goal with |- shrinks (if ?b then _ else _) => destruct b end;
    unfold logs, profileEvents, progress; try (apply shrinks_bind; [|auto with shrink]); auto with shrink.
  - apply shrinks_bind; [auto with shrink|]. intros b. destruct (on_profileEvents on); auto with shrink.
Qed.

(** Two amounts of fuel beyond the length of the input give the same result. *)
Lemma processImpl_fuel f1 f2 on s :
  (length s < f1)%nat → (length s < f2)%nat →
  processImpl compressed_Decode c f1 on s = processImpl compressed_Decode c f2 on s.
Proof.
  revert f2 s. induction f1 as [|f1 IH]; intros [|f2] s H1 H2; try lia. cbn [processImpl].
  destruct (RByte s) as [[p s1]|] eqn:E; [|done]. apply consumes_Byte in E. destruct (beq p ServerEndOfStream); [done|].
  destruct (handle _ _ on p s1) as [[[cbs s2]|]|] eqn:Eh; [|done..]. apply handle_shrinks in Eh.
  cbn [mbind option_bind]. by rewrite (IH f2) by lia.
Qed.

Lemma firstBlockImpl_fuel f1 f2 on s :
  (length s < f1)%nat → (length s < f2)%nat →
  firstBlockImpl compressed_Decode c f1 on s = firstBlockImpl compressed_Decode c f2 on s.
Proof.
  revert f2 s. induction f1 as [|f1 IH]; intros [|f2] s H1 H2; try lia. cbn [firstBlockImpl].
  destruct (RByte s) as [[p s1]|] eqn:E; [|done]. apply consumes_Byte in E. destruct (beq p ServerData); [done|].
  destruct (beq p ServerEndOfStream); [done|].
  destruct (handle _ _ on p s1) as [[[cbs s2]|]|] eqn:Eh; [|done..]. apply handle_shrinks in Eh.
  cbn [mbind option_bind]. by rewrite (IH f2) by lia.
Qed.

(** ** What a loop ends with *)

(** The decoder of a block panics on the bytes. *)
Definition block_panics (t : gostring) : Prop :=
  Block_Decode (rc_revision c) t = None ∨ compressed_Decode (rc_revision c) t = None.

(** A step that is not cut off: it fails with an error of the code, and panics only in the
    decoder of a block that stands in what it reads. *)
Definition sound {A} (m : reading A) : Prop :=
  ∀ s, match m s with
       | Some (Ok _) => True
       | Some (Err e) => e ≠ PEFuel
       | None => ∃ t, (length t ≤ length s)%nat ∧ block_panics t
       end.

Lemma sound_ret {A} (x : A) : sound (mret (M := reading) (MRet := reading_ret) x).
Proof. by intros s. Qed.

Lemma sound_fails {A} e : e ≠ PEFuel → sound (fails (A := A) e).
Proof. by intros He s. Qed.

Lemma sound_bind {A B} (m : reading A) (f : A → reading B) :
  shrinks m → sound m → (∀ x, sound (f x)) → sound (mbind (MBind := reading_bind) f m).
Proof.
  intros Hr Hm Hf s. unfold mbind, reading_bind. specialize (Hm s).
  destruct (m s) as [[[x t]|e]|] eqn:E; [|done..]. apply Hr in E. specialize (Hf x t).
  destruct (f x t) as [[?|?]|]; [done..|]. destruct Hf as (u & Hu & Hp). exists u. split; [lia|done].
Qed.

Lemma sound_decode {A} (p : parser A) : sound (decode p).
Proof. intros s. unfold decode. by destruct (p s). Qed.

Lemma sound_scanned {A} (r : result col_err A) : sound (scanned r).
Proof. destruct r; [apply sound_ret|by apply sound_fails]. Qed.

Lemma sound_exception {A} : sound (exception (A := A)).
Proof. intros s. unfold exception. destruct (Exception_total s) as [[[e t]|e] ->]; done. Qed.

Lemma sound_readData compressible : sound (readData compressed_Decode c compressible).
Proof.
  intros s. unfold readData. destruct (rc_closed c); [done|]. destruct (RStr s) as [[nm s1]|] eqn:E1; [|done].
  apply consumes_Str in E1. destruct (if _ && _ then _ else _) as [[[b r]|e]|] eqn:E2; [done..|]. cbn.
  exists s1. split; [lia|]. destruct (compressible && rc_compression c); [by right|by left].
Qed.
#[local] Hint Resolve sound_ret sound_decode sound_scanned sound_exception sound_readData sound_bind : shrink.

Lemma handle_sound on packet : sound (handle compressed_Decode c on packet).
Proof.
  unfold handle. repeat match goal with |- sound (if ?b then _ else _) => destruct b end;
    unfold logs, profileEvents, progress; auto 10 with shrink; [|by apply sound_fails].
  apply sound_bind; [apply shrinks_bind|apply sound_bind|]; auto with shrink; intros b;
    destruct (on_profileEvents on); auto with shrink.
Qed.

(** The end of a loop over [s]: a result of the code, or the panic of a block behind the
    first byte. *)
Definition ends {A} (s : gostring) (o : option (result process_err A)) : Prop :=
  match o with
  | Some r => r ≠ Err PEFuel
  | None => ∃ t, (length t < length s)%nat ∧ block_panics t
  end.

Lemma ends_shorter {A} (s s' : gostring) (o : option (result process_err A)) :
  (length s' ≤ length s)%nat → ends s' o → ends s o.
Proof. intros H. destruct o; [done|]. intros (t & Ht & Hp). exists t. split; [lia|done]. Qed.

(** A step of a loop: the packet is handled, then the rest is read. *)
Lemma step_ends {A} (on : onProcess) (p : byte) (s s1 : gostring)
    (loop : gostring → option (list callback * result process_err A)) :
  (length s1 < length s)%nat →
  (∀ s2, (length s2 ≤ length s1)%nat → ends s2 (snd <$> loop s2)) →
  ends s (snd <$> (r ← handle compressed_Decode c on p s1;
                   match r with
                   | Err e => Some ([], Err e)
                   | Ok (cbs, s2) => '(more, r) ← loop s2; Some (cbs ++ more, r)
                   end)).
Proof.
  intros Hlt Hloop. pose proof (handle_sound on p s1) as Hs.
  destruct (handle _ _ on p s1) as [[[cbs s2]|e]|] eqn:E; cbn [mbind option_bind fmap option_fmap option_map snd].
  - apply handle_shrinks in E. specialize (Hloop s2 E). apply ends_shorter with (s' := s2); [lia|].
    by destruct (loop s2) as [[more r]|].
  - cbn. congruence.
  - destruct Hs as (t & Ht & Hp). exists t. split; [lia|done].
Qed.

Lemma processImpl_ends fuel on s :
  (length s < fuel)%nat → ends s (snd <$> processImpl compressed_Decode c fuel on s).
Proof.
  revert s. induction fuel as [|fuel IH]; intros s Hf; [lia|]. cbn [processImpl].
  destruct (RByte s) as [[p s1]|] eqn:E; [|done]. apply consumes_Byte in E. destruct (beq p ServerEndOfStream); [done|].
  apply step_ends; [lia|]. intros s2 H2. apply IH. lia.
Qed.

Lemma firstBlockImpl_ends fuel on s :
  (length s < fuel)%nat → ends s (snd <$> firstBlockImpl compressed_Decode c fuel on s).
Proof.
  revert s. induction fuel as [|fuel IH]; intros s Hf; [lia|]. cbn [firstBlockImpl].
  destruct (RByte s) as [[p s1]|] eqn:E; [|done]. apply consumes_Byte in E. destruct (beq p ServerData).
  { pose proof (sound_readData true s1) as Hs. destruct (readData _ _ true s1) as [[x|e]|]; cbn; [done|congruence|].
    destruct Hs as (t & Ht & Hp). exists t. split; [lia|done]. }
  destruct (beq p ServerEndOfStream); [done|]. apply step_ends; [lia|]. intros s2 H2. apply IH. lia.
Qed.

Lemma ping_loop_ends fuel s :
  (length s < fuel)%nat → ∃ r, ping_loop c fuel s = Some r ∧ r ≠ Err PEFuel.
Proof.
  revert s. induction fuel as [|fuel IH]; intros s Hf; [lia|]. cbn [ping_loop].
  destruct (RByte s) as [[p s1]|] eqn:E; [|by eexists]. apply consumes_Byte in E.
  destruct (beq p ServerException).
  { unfold exception. destruct (Exception_total s1) as [[[e t]|e] ->]; by eexists. }
  destruct (beq p ServerProgress); [|destruct (beq p ServerPong); by eexists].
  unfold progress, decode. destruct (Progress_Decode (rc_revision c) s1) as [[x s2]|e] eqn:Ep; [|by eexists].
  cbn. apply Progress_shrinks in Ep. apply IH. lia.
Qed.

End termination.

(** ** The byte columns as a concrete instance *)

Module DemoScan.
Definition at_row {A} (k : demo_col) (r : nat) (f : byte → A) : result unit A :=
  match d_data k !! r with Some b => Ok (f b) | None => Err () end.

#[export] Instance scan : ScanOps demo_columns :=
  @Build_ScanOps demo_columns (λ _ _, Err ()) (λ k r, at_row k r (λ b, [b])) (λ k r, at_row k r bz)
    (λ k r, at_row k r bz) (λ _, false).

#[export] Instance shrinks : ColumnShrinks demo_columns.
Proof.
  split; cbn [ReadStatePrefix colDecode demo_columns].
  - intros k rd s k' r. destruct (demo_prefixed k); [|done]. intros [= <-]. destruct s as [|b s]; [done|].
    destruct (beq b xff); [|done]. intros [= <- <-]. simpl. lia.
  - intros k n s k' r. case_decide; [|done]. intros [= <- <-]. rewrite length_drop. lia.
Qed.

Definition conn : rconn := MkRConn false 54460 false.
Definition noCompression : Z → gostring → option (result (block_err (H := demo_columns)) (Block (CO := demo_columns) * gostring)) :=
  Block_Decode (CO := demo_columns).

(** A block of the byte columns as the server sends it. *)
Lemma reads_demo_block :
  ∃ bytes, reads_block (CO := demo_columns) noCompression conn true bytes demo_block.
Proof.
  destruct demo_block_reads as (bytes & _ & Hd). exists bytes. intros rest. apply Hd.
Qed.
End DemoScan.
Import DemoScan.

