(* ===== verification/Rows.v ===== *)
(** * The rows of a result ([clickhouse_rows.go])

    A result has a first block and two channels that a goroutine fills: [stream] with
    the blocks that follow and [errors] with at most one error, both closed at the end.
    A channel is the list of what is still to come on it, followed by the closed signal;
    [None] is a nil channel.  Where the code selects between the two, the choice is an
    oracle, a list of booleans ([true]: the receive from [errors] is taken); it covers
    every timing of the sender, and more.  A spent oracle takes the stream.  Scanning a
    row into variables is not modelled: a row is a block and a one-based index. *)

From Stdlib Require Import ZifyBool.
From S2P Require Import Prelude GoStd Wire ProtoPackets Block Process.

Section rows.
Context {CO : ColumnOps} {E : Type}.

Abbreviation chan_block := (byte * Block)%type.

Record rows := MkRows {
  r_err : option E;
  r_row : nat;
  r_block : option Block;
  r_totals : option Block;
  r_errors : option (list E);
  r_stream : option (list chan_block);
  r_closed : bool
}.

Definition with_err (r : rows) e := MkRows e (r_row r) (r_block r) (r_totals r) (r_errors r) (r_stream r) (r_closed r).
Definition with_errors (r : rows) es := MkRows (r_err r) (r_row r) (r_block r) (r_totals r) es (r_stream r) (r_closed r).
Definition with_stream (r : rows) st := MkRows (r_err r) (r_row r) (r_block r) (r_totals r) (r_errors r) st (r_closed r).
Definition at_block (r : rows) n b := MkRows (r_err r) n b (r_totals r) (r_errors r) (r_stream r) (r_closed r).
Definition with_totals (r : rows) t := MkRows (r_err r) (r_row r) (r_block r) t (r_errors r) (r_stream r) (r_closed r).
Definition set_closed (r : rows) := MkRows (r_err r) (r_row r) (r_block r) (r_totals r) (r_errors r) (r_stream r) true.

(** [select] between [errors] and [stream]: a receive from a nil channel never happens. *)
Definition picks_errors (cs : list bool) (r : rows) : option (list E) :=
  match cs with true :: _ => r_errors r | _ => None end.

(** The loop at the label [next]. *)
Fixpoint next_loop (fuel : nat) (cs : list bool) (r : rows) : option (bool * rows * list bool) :=
  match fuel, r_block r with
  | S fuel, Some b =>
      if (block_Rows b <=? r_row r)%nat then
        match r_stream r with
        | None => Some (false, r, cs)
        | Some st =>
            match picks_errors cs r with
            | Some (e :: es) => Some (false, with_err (with_errors r (Some es)) (Some e), tail cs)
            | Some [] => next_loop fuel (tail cs) r
            | None =>
                match st with
                | [] => Some (false, r, tail cs)
                | (packet, k) :: st =>
                    let r := with_stream r (Some st) in
                    if beq packet ServerTotals
                    then Some (false, with_totals (at_block r 0 None) (Some k), tail cs)
                    else next_loop fuel (tail cs) (at_block r 0 (Some k))
                end
            end
        end
      else
        let row := (r_row r + 1)%nat in
        Some ((row <=? block_Rows b)%nat, at_block r row (Some b), cs)
  | _, _ => None
  end.

(** The loop of [Close] over two channels: until both were seen closed. *)
Fixpoint close_loop (fuel : nat) (cs : list bool) (err : option E) (es : list E) (st : list chan_block)
    (errorsClosed streamClosed : bool) : option (option E) :=
  match fuel with
  | O => None
  | S fuel =>
      let '(err, es, st, errorsClosed, streamClosed) :=
        if match cs with c :: _ => c | [] => streamClosed end then
          match es with
          | e :: es => (Some e, es, st, errorsClosed, streamClosed)
          | [] => (err, [], st, true, streamClosed)
          end
        else
          match st with
          | _ :: st => (err, es, st, errorsClosed, streamClosed)
          | [] => (err, es, [], errorsClosed, true)
          end in
      if errorsClosed && streamClosed then Some err
      else close_loop fuel (tail cs) err es st errorsClosed streamClosed
  end.

(** [Close]: the rows afterwards and the error returned. *)
Definition rows_Close (cs : list bool) (r : rows) : option (rows * option E) :=
  let r := set_closed r in
  match r_errors r, r_stream r with
  | None, None => Some (r, r_err r)
  | None, Some _ => Some (with_stream r (Some []), None)
  | Some es, None =>
      let e := match last es with Some e => Some e | None => r_err r end in
      Some (with_err (with_errors r (Some [])) e, e)
  | Some es, Some st =>
      e ← close_loop (length cs + length es + length st + 2) cs (r_err r) es st false false;
      Some (with_err (with_errors (with_stream r (Some [])) (Some [])) e, e)
  end.

Definition stream_len (r : rows) : nat := match r_stream r with Some st => length st | None => 0 end.

(** [Next], with the deferred [Close] when it returns false. *)
Definition Next (cs : list bool) (r : rows) : option (bool * rows * list bool) :=
  match r_block r with
  | None => '(r, _) ← rows_Close cs r; Some (false, r, [])
  | Some _ =>
      '(b, r, cs) ← next_loop (length cs + stream_len r + 1) cs r;
      if (b : bool) then Some (true, r, cs) else '(r, _) ← rows_Close cs r; Some (false, r, [])
  end.

Fixpoint hasData_loop (fuel : nat) (cs : list bool) (r : rows) : option (bool * rows) :=
  match fuel with
  | O => None
  | S fuel =>
      if match r_block r with Some b => (r_row r <? block_Rows b)%nat | None => false end then Some (true, r)
      else match r_stream r with
      | None => Some (false, r)
      | Some st =>
          match picks_errors cs r with
          | Some (e :: es) => Some (false, with_err (with_errors r (Some es)) (Some e))
          | Some [] => hasData_loop fuel (tail cs) r
          | None =>
              match st with
              | [] => Some (false, r)
              | (packet, k) :: st =>
                  let r := with_stream r (Some st) in
                  if beq packet ServerTotals then hasData_loop fuel (tail cs) (with_totals r (Some k))
                  else hasData_loop fuel (tail cs) (at_block r 0 (Some k))
              end
          end
      end
  end.

Definition HasData (cs : list bool) (r : rows) : option (bool * rows) :=
  if r_closed r then Some (false, r) else hasData_loop (length cs + stream_len r + 1) cs r.

(** The guard of [Scan]: [io.EOF], or the block and row that are scanned. *)
Definition scan_position (r : rows) : option (Block * nat) :=
  match r_block r with
  | None => None
  | Some b => if Nat.eqb (r_row r) 0 && (block_Rows b <=? r_row r)%nat then None else Some (b, r_row r)
  end.

(** [for rows.Next() { rows.Scan(...) }]: what was scanned, and the rows at the end. *)
Fixpoint iterate (fuel : nat) (cs : list bool) (r : rows) : option (list (Block * nat) * rows) :=
  match fuel with
  | O => None
  | S fuel =>
      '(b, r, cs) ← Next cs r;
      if (b : bool) then
        here ← scan_position r;
        '(l, r) ← iterate fuel cs r;
        Some (here :: l, r)
      else Some ([], r)
  end.

(** [row.Scan] of [QueryRow]: the error returned, [ErrNoRows] being [sql.ErrNoRows],
    with the row that was scanned. *)
Inductive row_err := RowErr (e : E) | ErrNoRows | RowEOF.

Definition row_Scan (cs1 cs2 : list bool) (err : option E) (r : rows) : option (result row_err (Block * nat)) :=
  match err with
  | Some e => Some (Err (RowErr e))
  | None =>
      '(b, r, _) ← Next cs1 r;
      if negb (b : bool) then
        '(r, _) ← rows_Close cs2 r;
        Some (Err (match r_err r with Some e => RowErr e | None => ErrNoRows end))
      else
        match scan_position r with
        | None => Some (Err RowEOF)
        | Some here =>
            '(_, e) ← rows_Close cs2 r;
            Some (match e with Some e => Err (RowErr e) | None => Ok here end)
        end
  end.

(** ** Every row once, and no error lost *)

(** The rows of a block behind the first [n]. *)
Definition rest_rows (b : Block) (n : nat) : list (Block * nat) := map (pair b) (seq (n + 1) (block_Rows b - n)).

(** The rows that come on a stream, up to the totals, and the totals. *)
Fixpoint stream_rows (st : list chan_block) : list (Block * nat) :=
  match st with
  | [] => []
  | (packet, k) :: st => if beq packet ServerTotals then [] else rest_rows k 0 ++ stream_rows st
  end.

Fixpoint stream_totals (st : list chan_block) : option Block :=
  match st with
  | [] => None
  | (packet, k) :: st => if beq packet ServerTotals then Some k else stream_totals st
  end.

Lemma close_loop_spec fuel cs err es st (eC sC : bool) :
  (length cs + length es + length st + (if eC then 0 else 1) + (if sC then 0 else 1) ≤ fuel)%nat →
  (eC = true → es = []) → (sC = true → st = []) → eC && sC = false →
  close_loop fuel cs err es st eC sC = Some (match last es with Some e => Some e | None => err end).
Proof.
  revert cs err es st eC sC. induction fuel as [|fuel IH]; intros cs err es st eC sC Hf He Hs Hc.
  { destruct eC, sC; simpl in *; try lia; done. }
  cbn [close_loop]. set (pick := match cs with c :: _ => c | [] => sC end).
  assert (length (tail cs) = length cs - 1)%nat as Hl by (destruct cs; simpl; lia).
  assert (cs = [] → pick = sC) as Hp by (unfold pick; by intros ->). clearbody pick.
  destruct pick.
  - destruct es as [|e es].
    + destruct sC; [done|]. cbn [andb]. rewrite IH; [done| |done..].
      destruct cs; [by specialize (Hp eq_refl)|]. destruct eC; simpl in *; lia.
    + destruct eC; [by specialize (He eq_refl)|]. cbn [andb]. rewrite IH; [|simpl in *; lia|done..].
      rewrite last_cons. by destruct (last es).
  - destruct st as [|x st].
    + destruct eC; [by rewrite (He eq_refl)|]. cbn [andb]. rewrite IH; [done| |done..].
      destruct cs, sC; simpl in *; try lia. by specialize (Hp eq_refl).
    + destruct sC; [by specialize (Hs eq_refl)|]. rewrite Hc. rewrite IH; [done|simpl in *; lia|done..].
Qed.

(** [Close] always returns; an error still in the channel replaces the one held. *)
Lemma rows_Close_spec cs r es st :
  r_errors r = Some es → r_stream r = Some st →
  ∃ r', rows_Close cs r = Some (r', r_err r')
    ∧ r_err r' = match last es with Some e => Some e | None => r_err r end
    ∧ r_totals r' = r_totals r ∧ r_errors r' = Some [] ∧ r_stream r' = Some [].
Proof.
  intros He Hs. unfold rows_Close. cbn [set_closed r_errors r_stream r_err]. rewrite He, Hs.
  rewrite close_loop_spec by (lia || done). cbn [mbind option_bind].
  exists (with_err (with_errors (with_stream (set_closed r) (Some [])) (Some []))
    (match last es with Some e => Some e | None => r_err r end)). by repeat split.
Qed.

(** What is still to be seen. *)
Definition pending (r : rows) : list (Block * nat) :=
  match r_block r with
  | Some b => rest_rows b (r_row r) ++ match r_stream r with Some st => stream_rows st | None => [] end
  | None => []
  end.

Lemma rest_rows_nil b n : (block_Rows b ≤ n)%nat → rest_rows b n = [].
Proof. intros. unfold rest_rows. by replace (block_Rows b - n)%nat with 0%nat by lia. Qed.

Lemma rest_rows_cons b n :
  (n < block_Rows b)%nat → rest_rows b n = (b, (n + 1)%nat) :: rest_rows b (n + 1).
Proof.
  intros. unfold rest_rows. destruct (block_Rows b - n)%nat as [|m] eqn:Em; [lia|]. cbn [seq map].
  do 2 f_equal. replace (block_Rows b - (n + 1))%nat with m by lia. f_equal. lia.
Qed.

(** The loop of [Next] steps to the next pending row, or finds the end or an error. *)
Lemma next_loop_spec fuel cs r b0 es st :
  r_block r = Some b0 → r_errors r = Some es → r_stream r = Some st → (length cs + length st < fuel)%nat →
  ∃ b r' cs' st', next_loop fuel cs r = Some (b, r', cs') ∧ r_stream r' = Some st' ∧
    if (b : bool) then
      ∃ here, scan_position r' = Some here ∧ pending r = here :: pending r' ∧ is_Some (r_block r')
        ∧ r_errors r' = Some es ∧ r_err r' = r_err r ∧ r_totals r' = r_totals r
        ∧ stream_totals st' = stream_totals st
    else
      (∃ e es', es = e :: es' ∧ r_errors r' = Some es' ∧ r_err r' = Some e) ∨
      (pending r = [] ∧ r_errors r' = Some es ∧ r_err r' = r_err r
       ∧ r_totals r' = match stream_totals st with Some k => Some k | None => r_totals r end).
Proof.
  revert cs r b0 st. induction fuel as [|fuel IH]; intros cs r b0 st Hb He Hs Hf; [lia|].
  cbn [next_loop]. rewrite Hb, Hs.
  destruct (Nat.leb_spec (block_Rows b0) (r_row r)) as [Hle|Hlt].
  2:{ exists true, (at_block r (r_row r + 1) (Some b0)), cs, st.
      split; [by rewrite (proj2 (Nat.leb_le _ _)) by lia|]. split; [done|].
      exists (b0, (r_row r + 1)%nat). split.
      { unfold scan_position. cbn. destruct (Nat.eqb_spec (r_row r + 1) 0); [lia|done]. }
      unfold pending. cbn [at_block r_block r_row r_stream]. rewrite Hb, rest_rows_cons by done. by cbn. }
  assert (pending r = stream_rows st) as Hpend.
  { unfold pending. by rewrite Hb, Hs, rest_rows_nil. }
  assert (length (tail cs) ≤ length cs)%nat as Hl by (destruct cs; simpl; lia).
  destruct (picks_errors cs r) as [[|e es']|] eqn:Ep.
  - destruct (IH (tail cs) r b0 st Hb He Hs) as (b & r' & cs' & st' & H).
    { destruct cs; [done|]. simpl in *. lia. }
    by exists b, r', cs', st'.
  - do 4 eexists. split; [done|]. split; [exact Hs|]. left. exists e, es'.
    assert (r_errors r = Some (e :: es')) as Ee by (by destruct cs as [|[]]). rewrite Ee in He.
    by injection He as <-.
  - rewrite Hpend. destruct st as [|[packet k] st].
    { do 4 eexists. split; [done|]. split; [exact Hs|]. by right. }
    cbn [stream_rows stream_totals]. destruct (beq packet ServerTotals).
    { do 4 eexists. split; [done|]. split; [done|]. right. done. }
    destruct (IH (tail cs) (at_block (with_stream r (Some st)) 0 (Some k)) k st eq_refl He eq_refl)
      as (b & r' & cs' & st' & H); [simpl in Hf; lia|].
    by exists b, r', cs', st'.
Qed.

(** [Next] keeps the books: the next pending row, or the end with the channels drained
    and the error that was sent, if any, recorded. *)
Lemma Next_spec cs r es st :
  is_Some (r_block r) → r_errors r = Some es → r_stream r = Some st → r_err r = None → (length es ≤ 1)%nat →
  ∃ b r' cs', Next cs r = Some (b, r', cs') ∧
    if (b : bool) then
      ∃ here st', scan_position r' = Some here ∧ pending r = here :: pending r' ∧ is_Some (r_block r')
        ∧ r_errors r' = Some es ∧ r_err r' = None ∧ r_totals r' = r_totals r
        ∧ r_stream r' = Some st' ∧ stream_totals st' = stream_totals st
    else
      r_err r' = head es ∧
      (es = [] → pending r = [] ∧
         r_totals r' = match stream_totals st with Some k => Some k | None => r_totals r end).
Proof.
  intros [b0 Hb] He Hs Hn Hle. unfold Next. rewrite Hb. unfold stream_len. rewrite Hs.
  destruct (next_loop_spec (length cs + length st + 1) cs r b0 es st Hb He Hs ltac:(lia))
    as (b & r' & cs' & st' & -> & Hs' & H). cbn [mbind option_bind]. destruct b.
  - exists true, r', cs'. split; [done|]. destruct H as (here & ? & ? & ? & ? & ? & ? & ?).
    exists here, st'. rewrite Hn in *. done.
  - destruct H as [(e & es' & -> & He' & Herr)|(Hp & He' & Herr & Ht)].
    + destruct es'; [|simpl in Hle; lia].
      destruct (rows_Close_spec cs' r' [] st' He' Hs') as (r2 & -> & Hr2 & _).
      exists false, r2, []. split; [done|]. rewrite Hr2. cbn. by rewrite Herr.
    + destruct (rows_Close_spec cs' r' es st' He' Hs') as (r2 & -> & Hr2 & Ht2 & _).
      exists false, r2, []. split; [done|]. rewrite Hr2, Herr, Hn. split.
      * destruct es as [|e [|]]; done || (simpl in Hle; lia).
      * intros ->. split; [done|]. by rewrite Ht2.
Qed.

Lemma iterate_spec fuel cs r es st :
  is_Some (r_block r) → r_errors r = Some es → r_stream r = Some st → r_err r = None → (length es ≤ 1)%nat →
  (length (pending r) < fuel)%nat →
  ∃ seen r', iterate fuel cs r = Some (seen, r') ∧ seen `prefix_of` pending r ∧ r_err r' = head es ∧
    (es = [] → seen = pending r ∧
       r_totals r' = match stream_totals st with Some k => Some k | None => r_totals r end).
Proof.
  revert cs r st. induction fuel as [|fuel IH]; intros cs r st Hb He Hs Hn Hle Hf; [lia|]. cbn [iterate].
  destruct (Next_spec cs r es st Hb He Hs Hn Hle) as (b & r' & cs' & -> & H). cbn [mbind option_bind].
  destruct b.
  - destruct H as (here & st' & Hpos & Hp & Hb' & He' & Hn' & Ht & Hs' & Hst). rewrite Hpos. cbn [mbind option_bind].
    rewrite Hp in *. cbn [length] in Hf.
    destruct (IH cs' r' st' Hb' He' Hs' Hn' Hle ltac:(lia)) as (seen & r2 & -> & Hpre & Herr & Hno).
    cbn [mbind option_bind]. exists (here :: seen), r2. split; [done|]. split; [by apply prefix_cons|].
    split; [done|]. intros E0. destruct (Hno E0) as [-> Hr2]. split; [done|]. by rewrite Hr2, Hst, Ht.
  - destruct H as [Herr Hno]. exists [], r'. split; [done|]. split; [apply prefix_nil|]. split; [done|].
    intros E0. destruct (Hno E0) as [-> Hr2]. done.
Qed.
End rows.
Arguments rows {CO} E.

(** ** A query's result, from the bytes to the rows *)

Section query.
Context {CO : ColumnOps} {W : Wire} {SO : ScanOps CO}.
Variable compressed_Decode : Z → gostring → option (result block_err (Block * gostring)).
Variable c : rconn.

(** What the goroutine of [query] puts on the stream. *)
Definition streamed (cbs : list callback) : list (byte * Block) :=
  omap (λ cb, match cb with OnData k b => Some (k, b) | _ => None end) cbs.

(** [query] behind [sendQuery]: the first block is read with no data callback, then the
    goroutine processes the rest; its blocks and its error go to the channels. *)
Definition query_rows (events : bool) (s : gostring) : option (list callback * result process_err (rows process_err)) :=
  let fuel := S (length s) in
  '(cb1, first) ← firstBlockImpl compressed_Decode c fuel (MkOn false events) s;
  match first with
  | Err e => Some (cb1, Err e)
  | Ok (init, s) =>
      '(cb2, r) ← processImpl compressed_Decode c fuel (MkOn true events) s;
      let errors := match r with Err e => [e] | Ok _ => [] end in
      Some (cb1 ++ cb2, Ok (MkRows None 0 (Some init) None (Some errors) (Some (streamed cb2)) false))
  end.

Context {L : WireLaws W}.
Hypothesis is_open : rc_closed c = false.

Lemma packets_length ps : (length ps ≤ length (flat_map (put_packet c) ps))%nat.
Proof.
  induction ps as [|p ps IH]; [done|]. cbn [flat_map]. rewrite length_app. unfold put_packet at 1. rewrite length_app.
  pose proof (reads_Byte (packet_code p) [] I) as H. apply consumes_Byte in H. rewrite app_nil_r in H.
  cbn [length] in *. lia.
Qed.

(** The server's answer to a query: packets before the first data block, that block,
    packets behind it, and the end. *)
Definition put_answer (ps0 : list server_packet) (bytes : gostring) (init : Block) (ps : list server_packet)
    (t : stream_end) : gostring :=
  flat_map (put_packet c) ps0 ++ put_packet c (SBlock ServerData bytes init) ++ flat_map (put_packet c) ps ++ put_end t.

Lemma query_rows_put events ps0 bytes init ps t rest :
  Forall (packet_ok compressed_Decode c (MkOn false events)) ps0 → Forall (λ p, packet_code p ≠ ServerData) ps0 →
  reads_block compressed_Decode c true bytes init →
  Forall (packet_ok compressed_Decode c (MkOn true events)) ps → end_ok t →
  query_rows events (put_answer ps0 bytes init ps t ++ rest)
  = Some (flat_map (callbacks_of (MkOn false events)) ps0 ++ flat_map (callbacks_of (MkOn true events)) ps,
      Ok (MkRows None 0 (Some init) None
            (Some (match t with EndOfStream => [] | Raised e chain => [PEException (received e chain)] end))
            (Some (streamed (flat_map (callbacks_of (MkOn true events)) ps))) false)).
Proof.
  intros H0 Hd Hb Hps Ht. unfold query_rows, put_answer. rewrite <- !app_assoc.
  pose proof (packets_length ps0). pose proof (packets_length ps).
  rewrite firstBlockImpl_put by (done || (rewrite !length_app; lia)). cbn [mbind option_bind].
  rewrite processImpl_put by (done || (rewrite !length_app; lia)). cbn [mbind option_bind].
  by destruct t.
Qed.

(** C12: from the bytes of the server's answer to the rows an application sees.
    Whatever packets (progress, logs, profile events, ...) stand before, between and
    behind the data blocks, and whichever way the receives from the two channels are
    scheduled: iterating the rows ends; if the server ended the stream, exactly the
    rows of the blocks up to the totals were seen, once each and in order, and [Err]
    is nil; if it raised an exception, a prefix of them was seen and [Err] is that
    exception. *)
Theorem query_delivers events ps0 bytes init ps t rest cs :
  Forall (packet_ok compressed_Decode c (MkOn false events)) ps0 → Forall (λ p, packet_code p ≠ ServerData) ps0 →
  reads_block compressed_Decode c true bytes init →
  Forall (packet_ok compressed_Decode c (MkOn true events)) ps → end_ok t →
  let blocks := streamed (flat_map (callbacks_of (MkOn true events)) ps) in
  let all := rest_rows init 0 ++ stream_rows blocks in
  ∃ cbs r, query_rows events (put_answer ps0 bytes init ps t ++ rest) = Some (cbs, Ok r) ∧
  ∃ seen r', iterate (S (length all)) cs r = Some (seen, r') ∧
    match t with
    | EndOfStream => seen = all ∧ r_err r' = None ∧ r_totals r' = stream_totals blocks
    | Raised e chain => seen `prefix_of` all ∧ r_err r' = Some (PEException (received e chain))
    end.
Proof.
  intros H0 Hd Hb Hps Ht blocks all. rewrite query_rows_put by done.
  set (es := match t with EndOfStream => [] | Raised e chain => [PEException (received e chain)] end).
  fold blocks. set (r := MkRows None 0 (Some init) None (Some es) (Some blocks) false).
  eexists _, r. split; [done|].
  destruct (iterate_spec (S (length all)) cs r es blocks) as (seen & r' & E & Hpre & Herr & Hno); try done.
  { unfold es. destruct t; simpl; lia. }
  { change (pending r) with all. lia. }
  exists seen, r'. split; [done|]. destruct t.
  - destruct (Hno eq_refl) as [-> Ht']. split; [done|]. split; [done|]. rewrite Ht'. by destruct (stream_totals blocks).
  - done.
Qed.
End query.

Import DemoScan.

(** An answer with a table-columns packet, two data blocks and totals, and its six rows. *)
Lemma query_delivers_witness :
  ∃ bytes cbs r seen r', let k := SBlock ServerData bytes demo_block in
    query_rows noCompression conn true
      (put_answer conn [STableColumns [] []] bytes demo_block [k; SBlock ServerTotals bytes demo_block] EndOfStream ++ [])
    = Some (cbs, Ok r) ∧ iterate 7 [true; true] r = Some (seen, r') ∧ r_err r' = None.
Proof.
  destruct reads_demo_block as (bytes & Hb).
  destruct (query_delivers (CO := demo_columns) noCompression conn eq_refl true [STableColumns [] []] bytes demo_block
    [SBlock ServerData bytes demo_block; SBlock ServerTotals bytes demo_block] EndOfStream [] [true; true])
    as (cbs & r & E & seen & r' & Hi & -> & He & _).
  - constructor; [by split|constructor].
  - constructor; [by vm_compute|constructor].
  - exact Hb.
  - constructor; [split; [by left|exact Hb]|]. constructor; [split; [by right; left|exact Hb]|constructor].
  - exact I.
  - exists bytes, cbs, r. do 2 eexists. split; [exact E|]. split; [exact Hi|exact He].
Defined.

(** The minimum and maximum rows that a server sends under the setting [extremes] are
    taken for rows of the result: only the totals are told apart. *)
Lemma extremes_are_rows `{CO : ColumnOps} k st :
  stream_rows ((ServerExtremes, k) :: st) = rest_rows k 0 ++ stream_rows st.
Proof. done. Qed.

(** [HasData] may take the closed stream before the error: it returns false and [Err]
    is nil although the query failed. *)
Lemma HasData_hides_error `{CO : ColumnOps} {E : Type} (e : E) :
  let r := MkRows None 0 None None (Some [e]) (Some []) false in HasData [] r = Some (false, r) ∧ r_err r = None.
Proof. done. Qed.
