(* ===== verification/StructMap.v ===== *)
(** * Structs as rows ([struct_map.go], [scan.go])

    [AppendStruct] takes the values of a row from the fields of a struct, [ScanStruct] and
    [Select] write a row into them.  A field is found by its name or its tag, fields of an
    embedded struct count as fields of the outer one.  Types are trees of fields; a value
    of a struct is the list of the values of its fields; a pointer to a field is the path
    of indices to it. *)

From Stdlib Require Import ZifyBool.
From S2P Require Import Prelude.
#[local] Set Warnings "-register-all".

(** The name of a field, its tag "ch", whether it is exported, whether it is embedded. *)
Record field_head := MkHead { f_Name : gostring; f_tag : gostring; f_exported : bool; f_Anonymous : bool }.

Inductive gtype :=
| TStruct (fields : list (field_head * gtype))
| TPtr
| TScalar.

Definition field_name (f : field_head) : gostring := if decide (f_tag f = []) then f_Name f else f_tag f.

(** [name == "-"], or unexported and not embedded. *)
Definition skipped (f : field_head) : bool :=
  bool_decide (field_name f = str "-") || (negb (f_exported f) && negb (f_Anonymous f)).

Abbreviation index_map := (gmap gostring (list nat)).

(** [structIdx]; [None] is the panic of [NumField] on a type that is no struct. *)
Fixpoint structIdx (t : gtype) : option index_map :=
  match t with
  | TStruct fs =>
      (fix loop (i : nat) (fs : list (field_head * gtype)) (fields : index_map) : option index_map :=
         match fs with
         | [] => Some fields
         | (f, ft) :: fs =>
             if skipped f then loop (S i) fs fields
             else if f_Anonymous f then
               match ft with
               | TPtr => loop (S i) fs fields
               | _ => sub ← structIdx ft; loop (S i) fs ((cons i <$> sub) ∪ fields)
               end
             else loop (S i) fs (<[field_name f := [i]]> fields)
         end) 0 fs ∅
  | _ => None
  end.

Section map.
Context {A : Type}.

(** Values: of a struct, and of any other type. *)
Inductive gval := GStruct (l : list gval) | GLeaf (x : A).

(** [v.FieldByIndex(path)], and writing through its address. *)
Fixpoint FieldByIndex (v : gval) (path : list nat) : option gval :=
  match path with
  | [] => Some v
  | i :: path => match v with GStruct l => w ← l !! i; FieldByIndex w path | GLeaf _ => None end
  end.

Fixpoint set_field (v : gval) (path : list nat) (x : gval) : option gval :=
  match path with
  | [] => Some x
  | i :: path =>
      match v with
      | GStruct l => w ← l !! i; w' ← set_field w path x; Some (GStruct (<[i := w']> l))
      | GLeaf _ => None
      end
  end.

Inductive map_struct_err := NotPointer | NilPointer | NotStruct | MissingName (name : gostring).

(** What is passed: a value, a nil pointer, or a pointer to a value of a type; types have
    numbers, by which the cache finds them. *)
Inductive map_arg := ByValue | NilArg | Pointer (id : nat) (t : gtype) (v : gval).

Abbreviation cache := (gmap nat index_map).

(** The loop over the columns: the path of each. *)
Fixpoint column_paths (index : index_map) (columns : list gostring) : result map_struct_err (list (list nat)) :=
  match columns with
  | [] => Ok []
  | name :: columns => match index !! name with
                       | None => Err (MissingName name)
                       | Some p => ps ← column_paths index columns; Ok (p :: ps) end
  end.

(** [structMap.Map]: the paths to the fields of the columns, which are the pointers, and
    from which the values are read; [None] is a panic. *)
Definition structMap_Map (m : cache) (columns : list gostring) (s : map_arg) : option (cache * result map_struct_err (list (list nat))) :=
  match s with
  | ByValue => Some (m, Err NotPointer)
  | NilArg => Some (m, Err NilPointer)
  | Pointer id t v =>
      match t with
      | TStruct _ =>
          match m !! id with
          | Some index => Some (m, column_paths index columns)
          | None => index ← structIdx t; Some (<[id := index]> m, column_paths index columns)
          end
      | _ => Some (m, Err NotStruct)
      end
  end.

(** [Map(op, columns, s, false)]: the values. *)
Definition map_values (v : gval) (paths : list (list nat)) : option (list gval) := mapM (FieldByIndex v) paths.

(** [scan] through the pointers of [Map(op, columns, s, true)]. *)
Definition scan_into (v : gval) (paths : list (list nat)) (row : list gval) : option gval :=
  foldl (λ v px, v ← v; set_field v px.1 px.2) (Some v) (zip paths row).

(** ** The index *)

(** No path of a column goes through the field of another. *)
Definition separate (m : index_map) : Prop :=
  ∀ a b p q, m !! a = Some p → m !! b = Some q → p `prefix_of` q → a = b.

(** A value has the fields of its type. *)
Inductive typed : gval → gtype → Prop :=
| typed_struct l fs : Forall2 typed l fs.*2 → typed (GStruct l) (TStruct fs)
| typed_ptr x : typed (GLeaf x) TPtr
| typed_scalar x : typed (GLeaf x) TScalar.

Lemma gtype_induction (P : gtype → Prop) :
  (∀ fs, Forall (λ ft, P ft.2) fs → P (TStruct fs)) → P TPtr → P TScalar → ∀ t, P t.
Proof.
  intros Hs Hp Hc. fix IH 1. intros t. destruct t as [fs| |]; [|exact Hp|exact Hc].
  apply Hs. induction fs as [|[f ft] fs IHfs]; constructor; [apply IH|exact IHfs].
Qed.

(** The paths of an index: of fields before [i]. *)
Definition heads_below (i : nat) (m : index_map) : Prop := ∀ a p, m !! a = Some p → ∃ j q, p = j :: q ∧ j < i.

Lemma separate_insert m i name : separate m → heads_below i m → separate (<[name := [i]]> m).
Proof.
  intros Hs Hh a b p q Ha Hb Hpq.
  destruct (decide (a = name)) as [->|Hna], (decide (b = name)) as [->|Hnb]; [done| | |].
  - rewrite lookup_insert_eq in Ha. rewrite lookup_insert_ne in Hb by done. simplify_eq.
    destruct (Hh b q Hb) as (j & r & -> & Hj). apply prefix_cons_inv_1 in Hpq. lia.
  - rewrite lookup_insert_eq in Hb. rewrite lookup_insert_ne in Ha by done. simplify_eq.
    destruct (Hh a p Ha) as (j & r & -> & Hj). apply prefix_cons_inv_1 in Hpq. lia.
  - rewrite lookup_insert_ne in Ha, Hb by done. by eapply Hs.
Qed.

Lemma heads_insert m i name : heads_below i m → heads_below (S i) (<[name := [i]]> m).
Proof.
  intros Hh a p Ha. destruct (decide (a = name)) as [->|Hne].
  - rewrite lookup_insert_eq in Ha. simplify_eq. exists i, []. split; [done|lia].
  - rewrite lookup_insert_ne in Ha by done. destruct (Hh a p Ha) as (j & q & -> & Hj). exists j, q. split; [done|lia].
Qed.

Lemma lookup_embedded (sub m : index_map) i a p : ((cons i <$> sub) ∪ m) !! a = Some p →
  (∃ q, sub !! a = Some q ∧ p = i :: q) ∨ (sub !! a = None ∧ m !! a = Some p).
Proof.
  rewrite lookup_union_Some_raw, lookup_fmap. intros [H|[H1 H2]].
  - left. destruct (sub !! a) as [q|]; [|done]. cbn in H. simplify_eq. by eexists.
  - right. destruct (sub !! a) as [q|]; [done|]. done.
Qed.

Lemma separate_embedded m sub i : separate m → heads_below i m → separate sub → separate ((cons i <$> sub) ∪ m).
Proof.
  intros Hs Hh Hsub a b p q Ha Hb Hpq.
  destruct (lookup_embedded _ _ _ _ _ Ha) as [(pa & Hpa & ->)|[_ Ha']],
           (lookup_embedded _ _ _ _ _ Hb) as [(pb & Hpb & ->)|[_ Hb']].
  - apply prefix_cons_inv_2 in Hpq. by eapply Hsub.
  - destruct (Hh b q Hb') as (j & r & -> & Hj). apply prefix_cons_inv_1 in Hpq. lia.
  - destruct (Hh a p Ha') as (j & r & -> & Hj). apply prefix_cons_inv_1 in Hpq. lia.
  - by eapply Hs.
Qed.

Lemma heads_embedded m sub i : heads_below i m → heads_below (S i) ((cons i <$> sub) ∪ m).
Proof.
  intros Hh a p Ha. destruct (lookup_embedded _ _ _ _ _ Ha) as [(q & _ & ->)|[_ Ha']].
  - exists i, q. split; [done|lia].
  - destruct (Hh a p Ha') as (j & q & -> & Hj). exists j, q. split; [done|lia].
Qed.

Lemma heads_mono m i : heads_below i m → heads_below (S i) m.
Proof. intros Hh a p Ha. destruct (Hh a p Ha) as (j & q & -> & Hj). exists j, q. split; [done|lia]. Qed.

(** A path of the index leads to a field of every value of the type. *)
Definition reaches (t : gtype) (m : index_map) : Prop :=
  ∀ v a p, typed v t → m !! a = Some p → is_Some (FieldByIndex v p).

Lemma structIdx_ok t : ∀ m, structIdx t = Some m → separate m ∧ reaches t m.
Proof.
  induction t as [fs IH| |] using gtype_induction; intros m Hm; [|done|done]. cbn [structIdx] in Hm.
  assert (∀ all i acc, fs = drop i all → heads_below i acc → separate acc → reaches (TStruct all) acc →
    (fix loop (i : nat) (fs : list (field_head * gtype)) (fields : index_map) : option index_map :=
         match fs with
         | [] => Some fields
         | (f, ft) :: fs =>
             if skipped f then loop (S i) fs fields
             else if f_Anonymous f then
               match ft with
               | TPtr => loop (S i) fs fields
               | _ => sub ← structIdx ft; loop (S i) fs ((cons i <$> sub) ∪ fields)
               end
             else loop (S i) fs (<[field_name f := [i]]> fields)
         end) i fs acc = Some m → separate m ∧ reaches (TStruct all) m) as Hloop.
  { clear Hm. induction IH as [|[f ft] fs Hft IHfs IHloop]; intros all i acc Hall Hh Hs Hr Hm; [by simplify_eq|].
    assert (fs = drop (S i) all) as Hall'.
    { replace (S i) with (i + 1) by lia. by rewrite <- drop_drop, <- Hall. }
    assert (all !! i = Some (f, ft)) as Hi.
    { rewrite <- (Nat.add_0_r i), <- lookup_drop, <- Hall. done. }
    assert (∀ v, typed v (TStruct all) → ∃ l w, v = GStruct l ∧ l !! i = Some w ∧ typed w ft) as Hfield.
    { intros v Hv. inversion Hv as [l fs' Hl E1 E2| |]; subst. exists l.
      assert (all.*2 !! i = Some ft) as Hi2 by (by rewrite list_lookup_fmap, Hi).
      destruct (Forall2_lookup_r _ _ _ _ _ Hl Hi2) as (w & Hw & Htw). by exists w. }
    destruct (skipped f); [by apply (IHloop all (S i) acc); [done|apply heads_mono|..]|].
    destruct (f_Anonymous f).
    - assert (∀ sub, structIdx ft = Some sub → reaches (TStruct all) ((cons i <$> sub) ∪ acc)) as Hreach.
      { intros sub Hsub v a p Hv Ha. destruct (lookup_embedded _ _ _ _ _ Ha) as [(q & Hq & ->)|[_ Ha']]; [|by eapply Hr].
        destruct (Hfield v Hv) as (l & w & -> & Hw & Htw). cbn. rewrite Hw. cbn.
        destruct (Hft sub Hsub) as [_ Hrw]. by eapply Hrw. }
      destruct ft as [fs'| |].
      + destruct (structIdx (TStruct fs')) as [sub|] eqn:Esub; [|done]. cbn [mbind option_bind] in Hm.
        apply (IHloop all (S i) ((cons i <$> sub) ∪ acc)); [done|by apply heads_embedded| |by apply Hreach|done].
        apply separate_embedded; [done|done|]. by apply Hft.
      + by apply (IHloop all (S i) acc); [done|apply heads_mono|..].
      + done.
    - apply (IHloop all (S i) (<[field_name f := [i]]> acc)); [done|by apply heads_insert|by apply separate_insert| |done].
      intros v a p Hv Ha. destruct (decide (a = field_name f)) as [->|Hne].
      + rewrite lookup_insert_eq in Ha. simplify_eq. destruct (Hfield v Hv) as (l & w & -> & Hw & _). cbn. by rewrite Hw.
      + rewrite lookup_insert_ne in Ha by done. by eapply Hr. }
  apply (Hloop fs 0 ∅); [done| | | |exact Hm].
  - intros a p Ha. by rewrite lookup_empty in Ha.
  - intros a b p q Ha. by rewrite lookup_empty in Ha.
  - intros v a p _ Ha. by rewrite lookup_empty in Ha.
Qed.

(** ** Reading and writing fields *)

Lemma set_field_total v p x : is_Some (FieldByIndex v p) → is_Some (set_field v p x).
Proof.
  revert v. induction p as [|i p IH]; intros v Hv; [done|]. cbn in *. destruct v as [l|]; [|by destruct Hv].
  destruct (l !! i) as [w|]; [|by destruct Hv]. cbn in *. destruct (IH w Hv) as [w' ->]. by eexists.
Qed.

Lemma get_set_same v p x v' : set_field v p x = Some v' → FieldByIndex v' p = Some x.
Proof.
  revert v v'. induction p as [|i p IH]; intros v v' Hs; cbn in *; [by simplify_eq|]. destruct v as [l|]; [|done].
  destruct (l !! i) as [w|] eqn:Ew; [|done]. cbn in Hs. destruct (set_field w p x) as [w'|] eqn:Es; [|done].
  cbn in Hs. simplify_eq. cbn. rewrite list_lookup_insert_eq by (by eapply lookup_lt_Some). cbn. by eapply IH.
Qed.

Lemma get_set_other v p q x v' : set_field v p x = Some v' → ¬ p `prefix_of` q → ¬ q `prefix_of` p →
  FieldByIndex v' q = FieldByIndex v q.
Proof.
  revert v v' q. induction p as [|i p IH]; intros v v' q Hs Hpq Hqp; [by destruct Hpq; apply prefix_nil|].
  destruct q as [|j q]; [by destruct Hqp; apply prefix_nil|]. cbn in Hs. destruct v as [l|]; [|done].
  destruct (l !! i) as [w|] eqn:Ew; [|done]. cbn in Hs. destruct (set_field w p x) as [w'|] eqn:Es; [|done].
  cbn in Hs. simplify_eq. cbn. destruct (decide (j = i)) as [->|Hne].
  - rewrite list_lookup_insert_eq by (by eapply lookup_lt_Some). rewrite Ew. cbn. eapply IH; [done| |].
    + intros H. by apply Hpq, prefix_cons.
    + intros H. by apply Hqp, prefix_cons.
  - by rewrite list_lookup_insert_ne.
Qed.

Definition apart (p q : list nat) : Prop := ¬ p `prefix_of` q ∧ ¬ q `prefix_of` p.

Lemma scan_into_cons v p ps x row v1 : set_field v p x = Some v1 → scan_into v (p :: ps) (x :: row) = scan_into v1 ps row.
Proof. intros H. unfold scan_into. cbn. by rewrite H. Qed.

(** Fields that are apart are all written, and nothing else is. *)
Lemma scan_into_spec ps : ∀ row v, length row = length ps → Forall (λ p, is_Some (FieldByIndex v p)) ps →
  (∀ i j p q, ps !! i = Some p → ps !! j = Some q → i ≠ j → apart p q) →
  ∃ v', scan_into v ps row = Some v' ∧ map_values v' ps = Some row
    ∧ ∀ q, Forall (λ p, apart p q) ps → FieldByIndex v' q = FieldByIndex v q.
Proof.
  induction ps as [|p ps IH]; intros row v Hlen Hreach Hap; destruct row as [|x row]; try done.
  { exists v. by split. }
  apply Forall_cons in Hreach as [Hp Hps]. destruct (set_field_total v p x Hp) as [v1 Hv1].
  assert (∀ q, q ∈ ps → apart p q) as Hpq.
  { intros q (j & Hj)%list_elem_of_lookup. by apply (Hap 0 (S j)). }
  destruct (IH row v1) as (v' & Hs & Hm & Ho).
  - simpl in Hlen. lia.
  - rewrite Forall_forall in *. intros q Hq. destruct (Hpq q Hq) as [H1 H2].
    rewrite (get_set_other _ _ q _ _ Hv1) by done. by apply Hps.
  - intros i j a b Ha Hb Hij. apply (Hap (S i) (S j)); [done|done|lia].
  - exists v'. rewrite (scan_into_cons _ _ _ _ _ _ Hv1). split; [done|]. split.
    + unfold map_values in *. cbn. rewrite Ho.
      * by rewrite (get_set_same _ _ _ _ Hv1), Hm.
      * apply Forall_forall. intros q Hq. destruct (Hpq q Hq). by split.
    + intros q Hq. apply Forall_cons in Hq as [[H1 H2] Hq]. rewrite Ho by done. by eapply get_set_other.
Qed.

(** ** Rows through structs *)

Lemma column_paths_spec index columns : match column_paths index columns with
  | Ok ps => Forall2 (λ name p, index !! name = Some p) columns ps
  | Err (MissingName n) => n ∈ columns ∧ index !! n = None
  | Err _ => False end.
Proof.
  induction columns as [|n columns IH]; cbn [column_paths]; [constructor|].
  destruct (index !! n) as [p|] eqn:En; [|split; [constructor|done]].
  destruct (column_paths index columns) as [ps|[]]; cbn [mbind result_bind]; try done; [by constructor|].
  destruct IH as [H1 H2]. split; [by constructor|done].
Qed.

Lemma separate_apart m a b p q : separate m → m !! a = Some p → m !! b = Some q → a ≠ b → apart p q.
Proof. intros Hs Ha Hb Hne. split; intros H; apply Hne; [by eapply Hs|symmetry; by eapply Hs]. Qed.

(** The cache holds the indices of types. *)
Definition cache_ok (types : nat → gtype) (m : cache) : Prop := ∀ id index, m !! id = Some index → structIdx (types id) = Some index.

Lemma Map_index types m columns id v m' r : cache_ok types m →
  structMap_Map m columns (Pointer id (types id) v) = Some (m', r) → (∃ fs, types id = TStruct fs) →
  cache_ok types m' ∧ ∃ index, structIdx (types id) = Some index ∧ r = column_paths index columns.
Proof.
  intros Hm Hmap [fs Hfs]. cbn in Hmap. rewrite Hfs in Hmap. destruct (m !! id) as [index|] eqn:Ei.
  - simplify_eq. split; [done|]. exists index. split; [by apply Hm|done].
  - destruct (structIdx (TStruct fs)) as [index|] eqn:Es; [|done]. cbn in Hmap. simplify_eq. split.
    + intros id' index' Hi. destruct (decide (id' = id)) as [->|Hne].
      * rewrite lookup_insert_eq in Hi. simplify_eq. by rewrite Hfs.
      * rewrite lookup_insert_ne in Hi by done. by apply Hm.
    + exists index. by rewrite Hfs.
Qed.

(** C38: A struct carries a row. When every column has a field and no column is named twice,
    the pointers handed to Scan lead to fields that do not overlap: a row written through
    them is the row that is read from the struct with the same columns, and every field
    whose path is apart from theirs keeps its value, skipped, unexported and shadowed ones
    included, and with them every mapped field of another name. The cache of the mapping
    makes no difference. A column without a field is reported by its name. (A column named
    twice gives the same pointer twice.) *)
Theorem struct_rows_roundtrip (types : nat → gtype) (m m' : cache) (columns : list gostring) (id : nat) (v : gval)
    (r : result map_struct_err (list (list nat))) :
  cache_ok types m → typed v (types id) → (∃ fs, types id = TStruct fs) →
  structMap_Map m columns (Pointer id (types id) v) = Some (m', r) →
  cache_ok types m' ∧ option_map snd (structMap_Map ∅ columns (Pointer id (types id) v)) = Some r ∧
  match r with
  | Ok paths => NoDup columns → ∀ row, length row = length columns →
      ∃ v', scan_into v paths row = Some v' ∧ map_values v' paths = Some row
        ∧ (∀ q, Forall (λ p, apart p q) paths → FieldByIndex v' q = FieldByIndex v q)
        ∧ ∀ index name p, structIdx (types id) = Some index → index !! name = Some p → name ∉ columns →
            Forall (λ q, apart q p) paths
  | Err e => ∃ index name, e = MissingName name ∧ name ∈ columns ∧ structIdx (types id) = Some index ∧ index !! name = None
  end.
Proof.
  intros Hm Ht Hs Hmap. destruct (Map_index _ _ _ _ _ _ _ Hm Hmap Hs) as [Hm' (index & Hi & ->)].
  split; [done|]. split.
  { destruct Hs as [fs Hfs]. cbn. rewrite Hfs in *. by rewrite lookup_empty, Hi. }
  destruct (structIdx_ok _ _ Hi) as [Hsep Hreach]. pose proof (column_paths_spec index columns) as Hp.
  destruct (column_paths index columns) as [ps|e]; [|destruct e as [| | |n]; try done; destruct Hp; by exists index, n].
  intros Hnd row Hlen. pose proof (Forall2_length _ _ _ Hp) as Hl.
  destruct (scan_into_spec ps row v) as (v' & H1 & H2 & H3).
  - congruence.
  - apply Forall_forall. intros p (i & Hpi)%list_elem_of_lookup.
    destruct (Forall2_lookup_r _ _ _ _ _ Hp Hpi) as (n & _ & Hn). by eapply Hreach.
  - intros i j p q Hpi Hpj Hij.
    destruct (Forall2_lookup_r _ _ _ _ _ Hp Hpi) as (a & Ha & Hpa), (Forall2_lookup_r _ _ _ _ _ Hp Hpj) as (b & Hb & Hpb).
    eapply separate_apart; [done|done|done|]. intros ->. apply Hij. by eapply NoDup_lookup.
  - exists v'. split; [done|]. split; [done|]. split; [exact H3|]. intros index' name p Hi' Hn Hnot. simplify_eq.
    apply Forall_forall. intros q (i & Hq)%list_elem_of_lookup.
    destruct (Forall2_lookup_r _ _ _ _ _ Hp Hq) as (a & Ha & Hqa).
    eapply separate_apart; [done|done|done|]. intros ->. apply Hnot. by eapply list_elem_of_lookup_2.
Qed.

(** ** [scanSelect]: all rows into a slice *)

(** [rows]: what [ScanStruct] of each row gives, in a fresh element; [closeErr] and
    [rowsErr] are those of [Close] and [Err] at the end.  The slice is emptied first. *)
Fixpoint select_loop {E R} (dest : list R) (rows : list (result E R)) : list R * option E :=
  match rows with
  | [] => (dest, None)
  | Ok x :: rows => select_loop (dest ++ [x]) rows
  | Err e :: _ => (dest, Some e)
  end.

(** The destination of [Select]: by value, a nil pointer, a pointer to something else than a
    slice, or a pointer to a slice. *)
Inductive select_dest (R : Type) := DestValue | DestNil | DestNoSlice | DestSlice (l : list R).
Arguments DestValue {R}.
Arguments DestNil {R}.
Arguments DestNoSlice {R}.
Arguments DestSlice {R} l.

Inductive select_err (E : Type) := SelectNotPointer | SelectNilPointer | SelectNotSlice | SelectRows (e : E).
Arguments SelectNotPointer {E}.
Arguments SelectNilPointer {E}.
Arguments SelectNotSlice {E}.
Arguments SelectRows {E} e.

Definition scanSelect {E R} (dest : select_dest R) (query : result E (list (result E R))) (closeErr rowsErr : option E)
    : select_dest R * option (select_err E) :=
  match dest with
  | DestValue => (dest, Some SelectNotPointer)
  | DestNil => (dest, Some SelectNilPointer)
  | DestNoSlice => (dest, Some SelectNotSlice)
  | DestSlice _ =>
      match query with
      | Err e => (DestSlice [], Some (SelectRows e))
      | Ok rows =>
          match select_loop [] rows with
          | (d, Some e) => (DestSlice d, Some (SelectRows e))
          | (d, None) => (DestSlice d, SelectRows <$> match closeErr with Some e => Some e | None => rowsErr end)
          end
      end
  end.

Lemma select_loop_all {E R} (rows : list (result E R)) (dest : list R) : 
  match select_loop dest rows with
  | (d, None) => ∃ k, d = dest ++ k ∧ rows = Ok <$> k
  | (d, Some e) => ∃ k rest, d = dest ++ k ∧ rows = (Ok <$> k) ++ Err e :: rest
  end.
Proof.
  revert dest. induction rows as [|[x|e] rows IH]; intros dest; cbn.
  - exists []. by rewrite app_nil_r.
  - specialize (IH (dest ++ [x])). destruct (select_loop _ rows) as [d [e|]].
    + destruct IH as (k & rest & -> & ->). exists (x :: k), rest. by rewrite <- app_assoc.
    + destruct IH as (k & -> & ->). exists (x :: k). by rewrite <- app_assoc.
  - exists [], rows. by rewrite app_nil_r.
Qed.

(** [Select] reports no error only when every row is in the slice, in order and from its
    start; what was in the slice before is gone. *)
Lemma scanSelect_all {E R} (l d : list R) (rows : list (result E R)) c r :
  scanSelect (DestSlice l) (Ok rows) c r = (DestSlice d, None) → rows = Ok <$> d ∧ c = None ∧ r = None.
Proof.
  unfold scanSelect. pose proof (select_loop_all rows []) as H.
  destruct (select_loop [] rows) as [d1 [e|]]; [done|]. destruct H as (k & -> & ->).
  destruct c, r; cbn; intros [= <-]; done.
Qed.

(** ** [scan]: one row of a block into the destinations

    [ScanRow i row d] is the [ScanRow] of column [i] into the destination [d]. *)
Inductive scan_err (E : Type) := ScanCount (columns dest : nat) | ScanColumn (name : gostring) (e : E).
Arguments ScanCount {E} columns dest.
Arguments ScanColumn {E} name e.

Fixpoint scan_loop {E D} (ScanRow : nat → Z → D → result E D) (names : list gostring) (row : Z) (i : nat) (dest : list D)
    : list D * option (scan_err E) :=
  match dest with
  | [] => ([], None)
  | d :: ds =>
      match ScanRow i (row - 1)%Z d with
      | Err e => (d :: ds, Some (ScanColumn (default [] (names !! i)) e))
      | Ok d' => let '(ds', r) := scan_loop ScanRow names row (S i) ds in (d' :: ds', r)
      end
  end.

Definition scan {E D} (ScanRow : nat → Z → D → result E D) (names : list gostring) (row : Z) (dest : list D)
    : list D * option (scan_err E) :=
  if decide (length names = length dest) then scan_loop ScanRow names row 0 dest
  else (dest, Some (ScanCount (length names) (length dest))).

Lemma scan_loop_ok {E D} (ScanRow : nat → Z → D → result E D) names row dest i ds :
  scan_loop ScanRow names row i dest = (ds, None) →
  length ds = length dest ∧ ∀ j d, dest !! j = Some d → ∃ d', ds !! j = Some d' ∧ ScanRow (i + j) (row - 1)%Z d = Ok d'.
Proof.
  revert i ds. induction dest as [|d dest IH]; intros i ds H; cbn in H; [simplify_eq; by split|].
  destruct (ScanRow i (row - 1)%Z d) as [d'|e] eqn:Es; [|done].
  destruct (scan_loop ScanRow names row (S i) dest) as [ds' r] eqn:El. simplify_eq.
  destruct (IH _ _ El) as [Hl Hr]. split; [cbn; congruence|]. intros [|j] x Hx; cbn in Hx.
  - simplify_eq. exists d'. by rewrite Nat.add_0_r.
  - rewrite Nat.add_succ_r. by apply Hr.
Qed.

(** A row that is scanned without an error has every destination written by its column; the
    error of a column carries its name, and the destinations behind it are untouched. *)
Lemma scan_ok {E D} (ScanRow : nat → Z → D → result E D) names row dest ds :
  scan ScanRow names row dest = (ds, None) →
  length ds = length names ∧ ∀ j d, dest !! j = Some d → ∃ d', ds !! j = Some d' ∧ ScanRow j (row - 1)%Z d = Ok d'.
Proof.
  unfold scan. case_decide as Hl; [|done]. intros [H1 H2]%scan_loop_ok. split; [congruence|done].
Qed.
End map.

(** A struct with a tag, an embedded struct, a field left out and an unexported one. *)
Definition demo_struct : gtype :=
  TStruct [(MkHead (str "ID") [] true false, TScalar);
           (MkHead (str "Base") [] true true, TStruct [(MkHead (str "Created") (str "created_at") true false, TScalar)]);
           (MkHead (str "Cache") (str "-") true false, TPtr);
           (MkHead (str "note") [] false false, TScalar)].
Definition demo_value : @gval nat := GStruct [GLeaf 1; GStruct [GLeaf 2]; GLeaf 3; GLeaf 4].

Lemma struct_rows_roundtrip_witness :
  ∃ v', scan_into demo_value [[1; 0]; [0]] [GLeaf 20; GLeaf 10] = Some v'
    ∧ map_values v' [[1; 0]; [0]] = Some [GLeaf 20; GLeaf 10]
    ∧ FieldByIndex v' [2] = Some (GLeaf 3).
Proof.
  destruct (struct_rows_roundtrip (λ _, demo_struct) ∅ {[ 7 := {[ str "ID" := [0]; str "created_at" := [1; 0] ]} ]} [str "created_at"; str "ID"] 7 demo_value (Ok [[1; 0]; [0]]))
    as (_ & _ & H).
  - intros id index Hi. by rewrite lookup_empty in Hi.
  - repeat constructor.
  - by eexists.
  - reflexivity.
  - destruct (H ltac:(by apply (bool_decide_unpack _); vm_compute) [GLeaf 20; GLeaf 10] eq_refl) as (v' & H1 & H2 & H3 & _).
    exists v'. split; [done|]. split; [done|]. rewrite H3; [done|].
    apply (bool_decide_unpack _). by vm_compute.
Defined.

(** Go takes the field closest to the outside; here a field of an embedded struct that comes
    later takes the place of the field of the outer struct. *)
Lemma embedded_field_wins :
  structIdx (TStruct [(MkHead (str "ID") [] true false, TScalar);
                      (MkHead (str "Base") [] true true, TStruct [(MkHead (str "ID") [] true false, TScalar)])])
  = Some {[ str "ID" := [1; 0] ]}.
Proof. reflexivity. Qed.

(** An embedded type that is neither a struct nor a pointer is a panic. *)
Lemma embedded_scalar_panics :
  structIdx (TStruct [(MkHead (str "Kind") [] true true, TScalar)]) = None.
Proof. reflexivity. Qed.
