(* ===== verification/StdDriver.v ===== *)
(** * The driver of database/sql ([clickhouse_std.go])

    [database/sql] drives one connection through [stdDriver]: it checks the connection
    before every operation, prepares an INSERT as a batch that [Commit] sends, and reads
    rows with [stdRows].  What the connection and its batches do is a script of outcomes;
    every call is logged, so that the theorems speak of the calls made.  The rows of a
    result are those of [Rows.v], over every schedule of its channels. *)

From Stdlib Require Import ZifyBool.
From S2P Require Import Prelude GoStd FormatValue Bind Wire ProtoPackets Client Block Process Rows.

(** ** Errors *)

(** What an error wraps, from the outside in: [errors.Is] and [errors.As] look at all. *)
Inductive std_cause := CauseEOF | CauseEPIPE | CauseECONNRESET | CauseOpError | CauseOther (text : gostring).

Abbreviation std_error := (list std_cause).

Definition isConnBrokenError (err : std_error) : bool :=
  existsb (λ c, match c with CauseOther _ => false | _ => true end) err.

(** What [database/sql] gets: [driver.ErrBadConn], which makes it drop the connection and
    perhaps try again, or the error itself. *)
Inductive std_failure := ErrBadConn | StdErr (e : std_error) | ErrBatchMode.

Definition classify_error (err : std_error) : std_failure := if isConnBrokenError err then ErrBadConn else StdErr err.

(** ** The connector *)

(** [stdConnOpener.Connect]: [connID] is the global counter after its increment. *)
Definition std_Connect {R} (opener_err : option dial_error) (strategy : ConnOpenStrategy) (connID : Z) (rnd : nat → Z)
    (addrs : list gostring) (dial : gostring → result dial_error R) : option (result dial_error R) :=
  match opener_err with
  | Some e => Some (Err e)
  | None =>
      if decide (length addrs = 0) then Some (Err ErrAcquireConnNoAddress)
      else dial_loop strategy connID rnd addrs dial (length addrs) 0 None
  end.

(** The strategies are those of the other client. *)
Lemma std_Connect_dials {R} strategy connID rnd addrs (dial : gostring → result dial_error R) :
  std_Connect None strategy connID rnd addrs dial = DefaultDialStrategy strategy connID rnd addrs dial.
Proof. unfold std_Connect, DefaultDialStrategy. case_decide as H; [|done]. by rewrite H. Qed.

(** ** The connection *)

(** The calls to the connection and to its batches. *)
Inductive std_call :=
| CallHealth
| CallPing
| CallExec (query : gostring) (args : list barg)
| CallAsync (query : gostring) (wait : bool) (args : list barg)
| CallQuery (query : gostring) (args : list barg)
| CallPrepare (query : gostring)
| CallAppend (batch : nat) (row : list anon)
| CallSend (batch : nat)
| CallClose.

(** The outcomes to come, success when exhausted, and the calls made. *)
Record std_world := MkStdWorld { std_script : list (option std_error); std_trace : list std_call; std_batches : nat }.

Definition std_do (c : std_call) (w : std_world) : option std_error * std_world :=
  match std_script w with
  | [] => (None, MkStdWorld [] (std_trace w ++ [c]) (std_batches w))
  | o :: s => (o, MkStdWorld s (std_trace w ++ [c]) (std_batches w))
  end.

(** [stdDriver]: [commit] is the [Send] of a batch. *)
Record stdDriver := MkStd { std_commit : option nat }.

Definition std_result : Type := stdDriver * std_world * option std_failure.

(** [if err := std.conn.healthCheck(); err != nil { return driver.ErrBadConn }]. *)
Definition healthy_then (d : stdDriver) (w : std_world) (f : std_world → std_result) : std_result :=
  let '(e, w) := std_do CallHealth w in
  match e with Some _ => (d, w, Some ErrBadConn) | None => f w end.

Definition std_ResetSession (d : stdDriver) (w : std_world) : std_result := healthy_then d w (λ w, (d, w, None)).
Definition std_Begin (d : stdDriver) (w : std_world) : std_result := healthy_then d w (λ w, (d, w, None)).
Definition std_BeginTx (d : stdDriver) (w : std_world) : std_result := healthy_then d w (λ w, (d, w, None)).

Definition std_Ping (d : stdDriver) (w : std_world) : std_result :=
  healthy_then d w (λ w, let '(e, w) := std_do CallPing w in (d, w, StdErr <$> e)).

Definition std_Commit (d : stdDriver) (w : std_world) : std_result :=
  match std_commit d with
  | None => (d, w, None)
  | Some b => let '(e, w) := std_do (CallSend b) w in (MkStd None, w, classify_error <$> e)
  end.

Definition std_Rollback (d : stdDriver) (w : std_world) : std_result :=
  let '(_, w) := std_do CallClose w in (MkStd None, w, None).

Definition std_ExecContext (async : option bool) (query : gostring) (args : list (gostring * anon)) (d : stdDriver) (w : std_world) : std_result :=
  healthy_then d w (λ w,
    let '(e, w) := match async with
                   | Some wait => std_do (CallAsync query wait (rebind args)) w
                   | None => std_do (CallExec query (rebind args)) w
                   end in
    (d, w, classify_error <$> e)).

Definition std_QueryContext (query : gostring) (args : list (gostring * anon)) (d : stdDriver) (w : std_world) : std_result :=
  healthy_then d w (λ w, let '(e, w) := std_do (CallQuery query (rebind args)) w in (d, w, classify_error <$> e)).

(** [PrepareContext]: the statement is the next batch. *)
Definition std_PrepareContext (query : gostring) (d : stdDriver) (w : std_world) : std_result :=
  healthy_then d w (λ w,
    let '(e, w) := std_do (CallPrepare query) w in
    match e with
    | Some e => (d, w, Some (classify_error e))
    | None => (MkStd (Some (std_batches w)), MkStdWorld (std_script w) (std_trace w) (S (std_batches w)), None)
    end).

Definition std_Close (d : stdDriver) (w : std_world) : std_result :=
  let '(e, w) := std_do CallClose w in (d, w, classify_error <$> e).

(** [stdBatch]: [Exec], and [ExecContext], which drops the names. *)
Definition stmt_Exec (b : nat) (args : list anon) (d : stdDriver) (w : std_world) : std_result :=
  let '(e, w) := std_do (CallAppend b args) w in (d, w, StdErr <$> e).
Definition stmt_ExecContext (b : nat) (args : list (gostring * anon)) (d : stdDriver) (w : std_world) : std_result :=
  stmt_Exec b args.*2 d w.
Definition stmt_Query (d : stdDriver) (w : std_world) : std_result := (d, w, Some ErrBatchMode).
Definition stmt_Close (d : stdDriver) (w : std_world) : std_result := (d, w, None).

(** ** What [database/sql] may do *)

Inductive std_op :=
| OpReset | OpPing | OpBegin | OpBeginTx | OpCommit | OpRollback | OpClose
| OpExec (async : option bool) (query : gostring) (args : list (gostring * anon))
| OpQuery (query : gostring) (args : list (gostring * anon))
| OpPrepare (query : gostring)
| OpStmtExec (b : nat) (args : list (gostring * anon))
| OpStmtQuery | OpStmtClose.

Definition std_run_op (o : std_op) (d : stdDriver) (w : std_world) : std_result :=
  match o with
  | OpReset => std_ResetSession d w
  | OpPing => std_Ping d w
  | OpBegin => std_Begin d w
  | OpBeginTx => std_BeginTx d w
  | OpCommit => std_Commit d w
  | OpRollback => std_Rollback d w
  | OpClose => std_Close d w
  | OpExec async q args => std_ExecContext async q args d w
  | OpQuery q args => std_QueryContext q args d w
  | OpPrepare q => std_PrepareContext q d w
  | OpStmtExec b args => stmt_ExecContext b args d w
  | OpStmtQuery => stmt_Query d w
  | OpStmtClose => stmt_Close d w
  end.

Fixpoint std_run (os : list std_op) (d : stdDriver) (w : std_world) : stdDriver * std_world * list (option std_failure) :=
  match os with
  | [] => (d, w, [])
  | o :: os =>
      let '(d, w, r) := std_run_op o d w in
      let '(d, w, rs) := std_run os d w in (d, w, r :: rs)
  end.

(** The batches that were sent, in order. *)
Definition sends (tr : list std_call) : list nat := omap (λ c, match c with CallSend b => Some b | _ => None end) tr.

(** ** Transactions *)

(** The specification of a run: [Commit] sends the statement that was prepared last, unless
    it was committed or rolled back already; nothing else sends. *)
Fixpoint committed (n : nat) (cur : option nat) (os : list std_op) (rs : list (option std_failure)) : list nat :=
  match os, rs with
  | OpPrepare _ :: os, None :: rs => committed (S n) (Some n) os rs
  | OpCommit :: os, _ :: rs => match cur with Some b => b :: committed n None os rs | None => committed n None os rs end
  | OpRollback :: os, _ :: rs => committed n None os rs
  | _ :: os, _ :: rs => committed n cur os rs
  | _, _ => []
  end.

Lemma std_do_fst (c : std_call) w : (std_do c w).1 = mjoin (head (std_script w)).
Proof. unfold std_do. by destruct (std_script w) as [|o s]. Qed.

Lemma std_do_trace (c : std_call) w e w' : std_do c w = (e, w') →
  std_trace w' = std_trace w ++ [c] ∧ std_batches w' = std_batches w ∧ std_script w' = tail (std_script w).
Proof. unfold std_do. destruct (std_script w); by intros [= <- <-]. Qed.

Lemma sends_snoc (tr : list std_call) c : sends (tr ++ [c]) = sends tr ++ match c with CallSend b => [b] | _ => [] end.
Proof. unfold sends. rewrite omap_app. cbn. by destruct c. Qed.

(** One operation: what it sends, and the statement it leaves. *)
Definition op_spec (o : std_op) (d : stdDriver) (w : std_world) (res : std_result) : Prop :=
  let '(d', w', r) := res in
  match o, r with
  | OpPrepare _, None => sends (std_trace w') = sends (std_trace w) ∧ std_commit d' = Some (std_batches w) ∧ std_batches w' = S (std_batches w)
  | OpCommit, _ => sends (std_trace w') = sends (std_trace w) ++ option_list (std_commit d) ∧ std_commit d' = None ∧ std_batches w' = std_batches w
  | OpRollback, _ => sends (std_trace w') = sends (std_trace w) ∧ std_commit d' = None ∧ std_batches w' = std_batches w
  | _, _ => sends (std_trace w') = sends (std_trace w) ∧ std_commit d' = std_commit d ∧ std_batches w' = std_batches w
  end.

Lemma std_do_sends (c : std_call) w e w' : std_do c w = (e, w') → (∀ b, c ≠ CallSend b) →
  sends (std_trace w') = sends (std_trace w) ∧ std_batches w' = std_batches w.
Proof.
  intros (H1 & H2 & _)%std_do_trace Hc. rewrite H1, sends_snoc, H2. split; [|done].
  destruct c; rewrite ?app_nil_r; try done. by destruct (Hc batch).
Qed.

Lemma healthy_spec d w f (P : std_result → Prop) :
  (∀ w1, sends (std_trace w1) = sends (std_trace w) → std_batches w1 = std_batches w → P (f w1)) →
  (∀ w1, sends (std_trace w1) = sends (std_trace w) → std_batches w1 = std_batches w → P (d, w1, Some ErrBadConn)) →
  P (healthy_then d w f).
Proof.
  intros H1 H2. unfold healthy_then. destruct (std_do CallHealth w) as [e w1] eqn:E.
  destruct (std_do_sends _ _ _ _ E) as [T1 T2]; [done|]. destruct e; [by apply H2|by apply H1].
Qed.

(** Calls that are no [Send], and their outcomes. *)
Ltac std_calls := cbn beta; repeat match goal with
  | |- context [std_do ?c ?w] =>
      let E := fresh "E" in destruct (std_do c w) as [? ?] eqn:E; apply std_do_sends in E as [? ?]; [|done]
  end; unfold op_spec; cbn.

Lemma std_run_op_spec (o : std_op) d w : op_spec o d w (std_run_op o d w).
Proof.
  destruct o as [| | | | | | |async q args|q args|q|b args| |]; cbn [std_run_op].
  5: { unfold std_Commit. destruct (std_commit d) as [b|] eqn:Eb.
       - destruct (std_do (CallSend b) w) as [e w1] eqn:E. apply std_do_trace in E as (T1 & T2 & _). unfold op_spec. cbn.
         by rewrite T1, sends_snoc, Eb.
       - unfold op_spec. by rewrite Eb, app_nil_r. }
  5: { unfold std_Rollback. std_calls. split; [|split]; congruence. }
  5: { unfold std_Close. std_calls. split; [|split]; congruence. }
  8: { unfold stmt_ExecContext, stmt_Exec. std_calls. split; [|split]; congruence. }
  all: unfold std_ResetSession, std_Ping, std_Begin, std_BeginTx, std_ExecContext, std_QueryContext, std_PrepareContext.
  all: try (apply (healthy_spec d w _ (op_spec _ d w)); intros w1 H1 H2; [|done]).
  all: try destruct async; std_calls; try match goal with |- context [match ?e with Some _ => _ | None => _ end] => destruct e end; cbn.
  all: split; [|split]; try congruence. by transitivity (sends (std_trace w1)).
Qed.

Lemma committed_step n cur (o : std_op) os r rs :
  committed n cur (o :: os) (r :: rs)
  = match o with OpCommit => option_list cur | _ => [] end
    ++ committed (match o, r with OpPrepare _, None => S n | _, _ => n end)
         (match o, r with OpPrepare _, None => Some n | OpCommit, _ | OpRollback, _ => None | _, _ => cur end) os rs.
Proof. destruct o, r, cur; done. Qed.

(** The statements that may still be sent are new. *)
Lemma committed_new (os : list std_op) : ∀ n cur rs, (∀ b, cur = Some b → b < n) →
  Forall (λ b, cur = Some b ∨ n ≤ b) (committed n cur os rs) ∧ NoDup (committed n cur os rs).
Proof.
  induction os as [|o os IH]; intros n cur [|r rs] Hcur; try (destruct o; split; constructor); [by split; constructor..|].
  rewrite committed_step.
  assert (∀ n' cur', n ≤ n' → (∀ b, cur' = Some b → cur = Some b ∨ n ≤ b) → (∀ b, cur' = Some b → b < n') →
    Forall (λ b, cur = Some b ∨ n ≤ b) (committed n' cur' os rs) ∧ NoDup (committed n' cur' os rs)) as Hkeep.
  { intros n' cur' Hn H1 H2. destruct (IH n' cur' rs H2) as [F N]. split; [|done].
    eapply Forall_impl; [exact F|]. intros b [Hb|Hb]; [by apply H1|right; lia]. }
  destruct o; cbn -[committed]; try (apply Hkeep; [lia|by left|done]).
  - destruct cur as [b|]; [|apply Hkeep; [lia|done|done]]. destruct (IH n None rs ltac:(done)) as [F N].
    cbn. split.
    + constructor; [by left|]. eapply Forall_impl; [exact F|]. intros x [?|?]; [done|by right].
    + constructor; [|done]. intros Hin. rewrite Forall_forall in F. destruct (F _ Hin) as [?|Hle]; [done|].
      specialize (Hcur b eq_refl). lia.
  - destruct r; [apply Hkeep; [lia|by left|done]|]. apply Hkeep; [lia| |]; intros b [= <-]; [right|]; lia.
Qed.

Lemma std_run_sends (os : list std_op) : ∀ d w d' w' rs, std_run os d w = (d', w', rs) →
  sends (std_trace w') = sends (std_trace w) ++ committed (std_batches w) (std_commit d) os rs.
Proof.
  induction os as [|o os IH]; intros d w d' w' rs Hrun; cbn in Hrun; [injection Hrun as <- <- <-; by rewrite app_nil_r|].
  pose proof (std_run_op_spec o d w) as Hop. destruct (std_run_op o d w) as [[d1 w1] r].
  destruct (std_run os d1 w1) as [[d2 w2] rs'] eqn:E. injection Hrun as <- <- <-. rewrite (IH _ _ _ _ _ E).
  rewrite committed_step. unfold op_spec in Hop.
  destruct o; cbn [app]; try (destruct Hop as (-> & -> & ->); done).
  - destruct Hop as (-> & -> & ->). by rewrite <- app_assoc.
  - destruct r; destruct Hop as (-> & -> & ->); done.
Qed.

(** C35: What [database/sql] sends. In any sequence of operations with any outcomes of the
    connection, [Commit] sends the statement prepared last, once, and not after a [Rollback]
    or an earlier [Commit]; nothing else sends a statement, and no statement is sent twice.
    Each of the operations that check the connection first ([ResetSession], [Ping], [Begin],
    [BeginTx], [Exec], [Query], [Prepare]) reports a connection that fails the check as bad,
    makes no other call on it and changes nothing. [Commit], [Rollback] and the operations
    of a statement do not check, so that a batch prepared earlier can still be sent on such
    a connection. *)
Theorem std_commit_sends (os : list std_op) (s : list (option std_error)) d w rs :
  std_run os (MkStd None) (MkStdWorld s [] 0) = (d, w, rs) →
  sends (std_trace w) = committed 0 None os rs ∧ NoDup (sends (std_trace w))
  ∧ ∀ (o : std_op) d1 w1 e s1, match o with OpReset | OpPing | OpBegin | OpBeginTx | OpExec _ _ _ | OpQuery _ _ | OpPrepare _ => True | _ => False end →
      std_script w1 = Some e :: s1 →
      std_run_op o d1 w1 = (d1, MkStdWorld s1 (std_trace w1 ++ [CallHealth]) (std_batches w1), Some ErrBadConn).
Proof.
  intros Hrun. apply std_run_sends in Hrun. cbn in Hrun. rewrite Hrun. split; [done|]. split.
  - by apply committed_new.
  - intros o d1 w1 e s1 Ho Hs. assert (∀ f, healthy_then d1 w1 f
      = (d1, MkStdWorld s1 (std_trace w1 ++ [CallHealth]) (std_batches w1), Some ErrBadConn)) as Hh.
    { intros f. unfold healthy_then, std_do. by rewrite Hs. }
    destruct o; try done; apply Hh.
Qed.

(** One transaction. *)
Definition demo_tx : list std_op :=
  [OpBegin; OpPrepare (str "INSERT INTO t"); OpStmtExec 0 [([], plain_arg (VInt 1))]; OpCommit; OpCommit].

Lemma std_commit_sends_witness :
  ∃ d w rs, std_run demo_tx (MkStd None) (MkStdWorld [] [] 0) = (d, w, rs) ∧ sends (std_trace w) = [0].
Proof.
  destruct (std_run demo_tx (MkStd None) (MkStdWorld [] [] 0)) as [[d w] rs] eqn:E.
  destruct (std_commit_sends demo_tx [] d w rs E) as [H _]. exists d, w, rs. split; [done|]. rewrite H.
  vm_compute in E. injection E as _ _ <-. reflexivity.
Defined.

(** Two statements in one transaction: the rows of the first are gone, and no operation says so. *)
Lemma first_statement_is_dropped :
  let '(_, w, rs) := std_run [OpBegin; OpPrepare (str "INSERT INTO a"); OpStmtExec 0 [([], plain_arg (VInt 1))];
                              OpPrepare (str "INSERT INTO b"); OpStmtExec 1 [([], plain_arg (VInt 2))]; OpCommit]
                       (MkStd None) (MkStdWorld [] [] 0) in
  sends (std_trace w) = [1] ∧ rs = replicate 6 None.
Proof. split; reflexivity. Qed.

(** ** Rows *)

Section std_rows.
Context {CO : ColumnOps} {E D : Type}.

(** What [Row] returns: a [driver.Valuer], nil, a pointer or another value. *)
Inductive row_any := AnyValuer (r : result E D) | AnyNil | AnyPtr (v : D) | AnyPlain (v : D).

(** The column is a [*column.Nullable], and its [Row]. *)
Variable is_Nullable : col → bool.
Variable Row_any : col → nat → bool → row_any.

(** [dest[i]]; [None] of the outside is a panic: [Elem] of no pointer. *)
Definition dest_value (c : col) (row : nat) : option (result E (option D)) :=
  let nullable := is_Nullable c in
  match Row_any c row nullable with
  | AnyValuer (Ok v) => Some (Ok (Some v))
  | AnyValuer (Err e) => Some (Err e)
  | AnyNil => Some (Ok None)
  | AnyPtr v => Some (Ok (Some v))
  | AnyPlain v => if nullable then None else Some (Ok (Some v))
  end.

(** [for i := range dest]: the first error ends it; a column that is not there is a panic. *)
Fixpoint dest_values (cols : list col) (row n : nat) : option (result E (list (option D))) :=
  match n, cols with
  | O, _ => Some (Ok [])
  | S n, c :: cols =>
      r ← dest_value c row;
      match r with
      | Err e => Some (Err e)
      | Ok v => rs ← dest_values cols row n; Some (match rs with Ok vs => Ok (v :: vs) | Err e => Err e end)
      end
  | S _, [] => None
  end.

Inductive std_next_err := NextLength (expected got : nat) | NextValue (e : E) | NextRows (e : E) | NextEOF.

(** [stdRows.Next] into [n] destinations. *)
Definition std_Next (n : nat) (cs : list bool) (r : rows E) : option (rows E * list bool * result std_next_err (list (option D))) :=
  b ← r_block r;
  if decide (length (Columns b) ≠ n) then Some (r, cs, Err (NextLength (length (Columns b)) n))
  else
    '(ok, r, cs) ← Next cs r;
    if (ok : bool) then
      b ← r_block r;
      vs ← dest_values (Columns b) (r_row r - 1) n;
      Some (r, cs, match vs with Ok vs => Ok vs | Err e => Err (NextValue e) end)
    else Some (r, cs, Err (match r_err r with Some e => NextRows e | None => NextEOF end)).

Definition HasNextResultSet (r : rows E) : bool := match r_totals r with Some _ => true | None => false end.

(** [NextResultSet]: [false] is [io.EOF]. *)
Definition NextResultSet (r : rows E) : rows E * bool :=
  match r_totals r with
  | Some t => (with_totals (at_block r (r_row r) (Some t)) None, true)
  | None => (r, false)
  end.

(** The loop of [sql.Rows.Next] over one result set. *)
Fixpoint std_iterate (fuel n : nat) (cs : list bool) (r : rows E) : option (list (list (option D)) * rows E * list bool * std_next_err) :=
  match fuel with
  | O => None
  | S fuel =>
      '(r, cs, x) ← std_Next n cs r;
      match x with
      | Err e => Some ([], r, cs, e)
      | Ok vs => '(l, r, cs, e) ← std_iterate fuel n cs r; Some (vs :: l, r, cs, e)
      end
  end.

(** ** The rows, then the totals *)

Definition wide (n : nat) (b : Block) : Prop := length (Columns b) = n.

(** The values of a row. *)
Definition std_row (n : nat) (here : Block * nat) (vs : list (option D)) : Prop :=
  dest_values (Columns here.1) (here.2 - 1) n = Some (Ok vs).

Lemma rows_Close_place cs (r r' : rows E) e : rows_Close cs r = Some (r', e) → r_row r' = r_row r ∧ r_block r' = r_block r.
Proof.
  unfold rows_Close. cbn [set_closed r_errors r_stream]. destruct (r_errors r) as [es|], (r_stream r) as [st|].
  - destruct (close_loop _ _ _ _ _ _ _); [|done]. by intros [= <- <-].
  - by intros [= <- <-].
  - by intros [= <- <-].
  - by intros [= <- <-].
Qed.

Lemma next_loop_blocks n fuel cs (r r' : rows E) cs' ok st : r_stream r = Some st → Forall (λ pk, wide n pk.2) st →
  (∀ b, r_block r = Some b → wide n b) → next_loop fuel cs r = Some (ok, r', cs') →
  (∀ b, r_block r' = Some b → wide n b) ∧ (∃ st', r_stream r' = Some st' ∧ Forall (λ pk, wide n pk.2) st')
  ∧ (ok = true → ∀ b k, scan_position r' = Some (b, k) → r_block r' = Some b ∧ r_row r' = k)
  ∧ (ok = false → r_errors r = Some [] → is_Some (stream_totals st) → r_row r' = 0 ∧ r_block r' = None)
  ∧ (is_Some (r_errors r) → is_Some (r_errors r')).
Proof.
  revert cs r st. induction fuel as [|fuel IH]; intros cs r st Hs Hw Hb Hn; [done|]. cbn in Hn.
  destruct (r_block r) as [b|] eqn:Eb; [|done]. destruct (block_Rows b <=? r_row r) eqn:El.
  2:{ injection Hn as <- <- <-. split; [intros ? [= <-]; by apply Hb|]. split; [by exists st|]. split.
      - intros _ b' k. unfold scan_position. cbn. case_match; [done|]. by intros [= <- <-].
      - split; [intros Hf; exfalso; lia|done]. }
  rewrite Hs in Hn. destruct (picks_errors cs r) as [[|e es]|] eqn:Ep.
  - apply (IH (tail cs) r st Hs Hw); [by rewrite Eb|done].
  - injection Hn as <- <- <-. cbn. rewrite Eb. split; [done|]. split; [by exists st|]. split; [done|]. split; [|done].
    intros _ He. destruct cs as [|[] cs]; try done. cbn in Ep. congruence.
  - destruct st as [|[packet k] st].
    + injection Hn as <- <- <-. rewrite Eb. split; [done|]. split; [by exists []|]. split; [done|]. split; [by intros _ _ [? ?]|done].
    + inversion_clear Hw as [|? ? Hk Hw']. cbn [stream_totals]. destruct (beq packet ServerTotals).
      * injection Hn as <- <- <-. split; [done|]. split; [by exists st|]. by split.
      * apply (IH (tail cs) (at_block (with_stream r (Some st)) 0 (Some k)) st); [done|done| |done]. by intros ? [= <-].
Qed.

Lemma Next_blocks n cs (r r' : rows E) cs' ok st : r_stream r = Some st → Forall (λ pk, wide n pk.2) st → is_Some (r_block r) →
  (∀ b, r_block r = Some b → wide n b) → Next cs r = Some (ok, r', cs') →
  (ok = true → (∀ b, r_block r' = Some b → wide n b) ∧ (∃ st', r_stream r' = Some st' ∧ Forall (λ pk, wide n pk.2) st')
    ∧ ∀ b k, scan_position r' = Some (b, k) → r_block r' = Some b ∧ r_row r' = k)
  ∧ (ok = false → r_errors r = Some [] → (is_Some (stream_totals st) → r_row r' = 0 ∧ r_block r' = None)
      ∧ r_errors r' = Some [] ∧ r_stream r' = Some []).
Proof.
  intros Hs Hw [b0 Hb0] Hb Hn. unfold Next in Hn. rewrite Hb0 in Hn.
  destruct (next_loop _ cs r) as [[[ok1 r1] cs1]|] eqn:El; [|done]. cbn [mbind option_bind] in Hn.
  destruct (next_loop_blocks n _ _ _ _ _ _ st Hs Hw Hb El) as (H1 & (st1 & H2 & H2') & H3 & H4 & H5). destruct ok1.
  - injection Hn as <- <- <-. split; [|done]. intros _. split; [done|]. split; [by exists st1|by apply H3].
  - destruct (rows_Close cs1 r1) as [[r2 e]|] eqn:Ec; [|done]. injection Hn as <- <- <-. split; [done|].
    intros _ He. destruct (H5 ltac:(by rewrite He)) as [es1 He1].
    destruct (rows_Close_spec cs1 r1 es1 st1 He1 H2) as (r3 & Hr3 & _ & _ & Hr4). rewrite Ec in Hr3. injection Hr3 as <- _.
    split; [|done]. intros Ht. apply rows_Close_place in Ec as [-> ->]. by apply H4.
Qed.

Lemma std_iterate_spec n fuel : ∀ cs (r : rows E) st,
  is_Some (r_block r) → (∀ b, r_block r = Some b → wide n b) → r_errors r = Some [] → r_stream r = Some st → r_err r = None →
  Forall (λ pk, wide n pk.2) st → Forall (λ here, ∃ vs, std_row n here vs) (pending r) → (length (pending r) < fuel)%nat →
  ∃ l r' cs', std_iterate fuel n cs r = Some (l, r', cs', NextEOF) ∧ Forall2 (std_row n) (pending r) l
    ∧ r_totals r' = match stream_totals st with Some k => Some k | None => r_totals r end
    ∧ r_err r' = None ∧ r_errors r' = Some [] ∧ r_stream r' = Some []
    ∧ (is_Some (stream_totals st) → r_row r' = 0 ∧ r_block r' = None).
Proof.
  induction fuel as [|fuel IH]; intros cs r st Hb Hwb He Hs Hn Hw Hv Hf; [lia|]. cbn [std_iterate].
  unfold std_Next. destruct Hb as [b0 Hb0]. rewrite Hb0. cbn [mbind option_bind].
  rewrite decide_False by (intros Hne; by apply Hne, Hwb).
  destruct (Next_spec cs r [] st ltac:(by exists b0) He Hs Hn ltac:(cbn; lia)) as (ok & r1 & cs1 & Hnext & H). rewrite Hnext. cbn [mbind option_bind].
  destruct (Next_blocks n cs r r1 cs1 ok st Hs Hw ltac:(by exists b0) Hwb Hnext) as [Htrue Hfalse]. destruct ok.
  - destruct H as ([b k] & st1 & Hpos & Hp & Hb1 & He1 & Hn1 & Ht1 & Hs1 & Hst). destruct (Htrue eq_refl) as (Hwb1 & (st1' & Hs1' & Hw1) & Hscan).
    destruct (Hscan b k Hpos) as [Hrb Hrow]. rewrite Hrb. cbn [mbind option_bind]. rewrite Hp in Hv, Hf. cbn [length] in Hf.
    inversion_clear Hv as [|? ? Hvs Hv']. destruct Hvs as [vs Hvs]. unfold std_row in Hvs. cbn [fst snd] in Hvs. rewrite Hrow, Hvs. cbn [mbind option_bind].
    rewrite Hs1 in Hs1'. injection Hs1' as <-.
    destruct (IH cs1 r1 st1 Hb1 Hwb1 He1 Hs1 Hn1 Hw1 Hv' ltac:(lia)) as (l & r' & cs' & E1 & F & T & Rest). rewrite E1. cbn [mbind option_bind].
    exists (vs :: l), r', cs'. split; [done|]. split; [rewrite Hp; by constructor|]. rewrite T, Hst, Ht1. split; [done|]. by rewrite Hst in Rest.
  - destruct H as [Herr Hrest]. destruct (Hrest eq_refl) as [Hp Ht]. destruct (Hfalse eq_refl He) as (H1 & H2 & H3). cbn in Herr.
    rewrite Herr. exists [], r1, cs1. split; [done|]. rewrite Hp. by split.
Qed.

(** The result sets [database/sql] sees.  When the server ends its answer, whatever the
    schedule of the channels, the first result set is every row of the blocks, once and in
    order, ending in [io.EOF]; if the answer has totals there is one more result set, their
    rows, and then none. *)
Theorem std_result_sets n cs cs2 (r : rows E) st :
  is_Some (r_block r) → (∀ b, r_block r = Some b → wide n b) → r_errors r = Some [] → r_stream r = Some st → r_err r = None →
  r_totals r = None → Forall (λ pk, wide n pk.2) st →
  Forall (λ here, ∃ vs, std_row n here vs) (pending r ++ match stream_totals st with Some t => rest_rows t 0 | None => [] end) →
  ∃ l r1 cs1, std_iterate (S (length (pending r))) n cs r = Some (l, r1, cs1, NextEOF) ∧ Forall2 (std_row n) (pending r) l ∧
    match stream_totals st with
    | None => HasNextResultSet r1 = false ∧ (NextResultSet r1).2 = false
    | Some t =>
        HasNextResultSet r1 = true ∧
        ∃ r2 l2 r3 cs3, NextResultSet r1 = (r2, true)
          ∧ std_iterate (S (length (rest_rows t 0))) n cs2 r2 = Some (l2, r3, cs3, NextEOF)
          ∧ Forall2 (std_row n) (rest_rows t 0) l2 ∧ HasNextResultSet r3 = false
    end.
Proof.
  intros Hb Hwb He Hs Hn Ht Hw [Hv1 Hv2]%Forall_app.
  destruct (std_iterate_spec n (S (length (pending r))) cs r st Hb Hwb He Hs Hn Hw Hv1 ltac:(lia)) as (l & r1 & cs1 & E1 & F & T & N1 & N2 & N3 & N4).
  exists l, r1, cs1. split; [done|]. split; [done|]. unfold HasNextResultSet, NextResultSet.
  destruct (stream_totals st) as [t|] eqn:Et; rewrite T; [|by rewrite Ht].
  split; [done|]. destruct (N4 ltac:(by exists t)) as [R0 _]. rewrite R0.
  set (r2 := with_totals (at_block r1 0 (Some t)) None). exists r2.
  assert (wide n t) as Hwt.
  { clear -Et Hw. induction Hw as [|[p k] st Hk Hw IH]; [done|]. cbn in Et. destruct (beq p ServerTotals); [by injection Et as <-|by apply IH]. }
  assert (pending r2 = rest_rows t 0) as Hp by (unfold pending; cbn; rewrite N3; by rewrite app_nil_r).
  destruct (std_iterate_spec n (S (length (rest_rows t 0))) cs2 r2 []) as (l2 & r3 & cs3 & E2 & F2 & T2 & _).
  { by exists t. } { by intros ? [= <-]. } { exact N2. } { exact N3. } { exact N1. } { constructor. } { by rewrite Hp. } { rewrite Hp. lia. }
  exists l2, r3, cs3. split; [done|]. split; [done|]. rewrite Hp in F2. split; [done|]. by rewrite T2.
Qed.

(** After the last row of a result with totals the block is nil: a further call of [Next],
    which [database/sql] passes on as there is another result set, is a panic. *)
Lemma next_after_totals_panics n cs (r : rows E) : r_block r = None → r_totals r ≠ None →
  std_Next n cs r = None ∧ HasNextResultSet r = true.
Proof. intros Hb Ht. unfold std_Next, HasNextResultSet. rewrite Hb. by destruct (r_totals r). Qed.
End std_rows.

(** A result of two blocks and totals: three rows of two columns each, their names and places
    standing for the values. *)
Definition demo_any (c : col (ColumnOps := demo_columns)) (row : nat) (_ : bool) : @row_any nat nat := AnyPlain row.
Definition demo_rows_std : rows (CO := demo_columns) nat :=
  MkRows None 0 (Some demo_block) None (Some []) (Some [(ServerData, demo_block); (ServerTotals, demo_block)]) false.

Lemma std_result_sets_witness :
  ∃ l r1 cs1 r2 l2 r3 cs3,
    std_iterate (λ _, false) demo_any (S (length (pending demo_rows_std))) (length (Columns demo_block)) [true] demo_rows_std
      = Some (l, r1, cs1, NextEOF)
    ∧ NextResultSet r1 = (r2, true)
    ∧ std_iterate (λ _, false) demo_any (S (length (rest_rows demo_block 0))) (length (Columns demo_block)) [] r2 = Some (l2, r3, cs3, NextEOF).
Proof.
  destruct (std_result_sets (CO := demo_columns) (λ _, false) demo_any (length (Columns demo_block)) [true] [] demo_rows_std
    [(ServerData, demo_block); (ServerTotals, demo_block)]) as (l & r1 & cs1 & H1 & _ & _ & r2 & l2 & r3 & cs3 & H2 & H3 & _).
  - by eexists.
  - by intros b [= <-].
  - reflexivity.
  - reflexivity.
  - reflexivity.
  - reflexivity.
  - by repeat constructor.
  - repeat (constructor; [eexists; reflexivity|]). constructor.
  - by exists l, r1, cs1, r2, l2, r3, cs3.
Defined.
