(* ===== verification/Transport.v ===== *)
(** * The native connection ([conn.go], [conn_send_query.go], [conn_handshake.go])

    What the client puts on the wire: packets are collected in a buffer and written with
    [flush]; data blocks are encoded column by column, compressed from the block's start
    and flushed whenever the buffer reaches [maxCompressionBuffer].  The socket is the
    bytes written so far and a script of the outcomes of [Write]; the compressor is a
    parameter.  Operations are computations in a state and error monad whose errors keep
    the state; [None] is the nil-pointer panic of a buffer that [close] has dropped.
    Deadlines, logging and the texts of wrapped errors are left out. *)

From Stdlib Require Import ZifyBool.
From S2P Require Import Prelude GoStd FormatValue Wire ProtoPackets Block Process.
Local Open Scope Z_scope.

Definition ClientHello : byte := x00.
Definition ClientQuery : byte := x01.
Definition ClientData : byte := x02.
Definition ClientCancel : Z := 3.
Definition ClientPing : byte := x04.
Definition DBMS_MIN_PROTOCOL_VERSION_WITH_ADDENDUM : Z := 54458.

(** How a [Write] ends: all bytes, an error after [n] bytes, or [n] bytes and no error. *)
Inductive write_error := EPIPE | EOF | OpErr | OtherErr.
Inductive write_outcome := WriteOk | WriteErr (e : write_error) (n : nat) | WriteShort (n : nat).

Section transport.
Context {CO : ColumnOps} {W : Wire} {cmp_err : Type}.

Inductive transport_err :=
| TEClosed                       (* attempted sending on closed connection *)
| TEWrite (e : write_error)
| TEShort                        (* wrote less than expected *)
| TECompress (e : cmp_err)
| TEHeader (e : block_err)
| TEColumn (i : nat) (e : block_err)
| TEPartial (e : transport_err)  (* failed to flush partial block *)
| TEQuery (e : proto_err)
| TERead
| TEDecode (e : proto_err)
| TEException (e : Exception)
| TEUnexpected (packet : byte)
| TEUnsupportedRevision.

Record connect := MkConnect {
  closed : bool;
  buffer : option gostring;          (* nil after [close] *)
  wire : gostring;                   (* what the socket has accepted *)
  writes : list write_outcome;       (* outcomes to come; success when exhausted *)
  socket_closes : nat;
  revision : Z;
  server : option ServerHandshake;
  incoming : gostring                (* what the server will send *)
}.

Definition set_closed c := MkConnect true (buffer c) (wire c) (writes c) (socket_closes c) (revision c) (server c) (incoming c).
Definition set_buffer c b := MkConnect (closed c) b (wire c) (writes c) (socket_closes c) (revision c) (server c) (incoming c).
Definition set_wire c w ws := MkConnect (closed c) (buffer c) w ws (socket_closes c) (revision c) (server c) (incoming c).
Definition set_revision c r := MkConnect (closed c) (buffer c) (wire c) (writes c) (socket_closes c) r (server c) (incoming c).
Definition set_server c s := MkConnect (closed c) (buffer c) (wire c) (writes c) (socket_closes c) (revision c) s (incoming c).
Definition set_incoming c i := MkConnect (closed c) (buffer c) (wire c) (writes c) (socket_closes c) (revision c) (server c) i.
Definition close_socket c := MkConnect (closed c) (buffer c) (wire c) (writes c) (S (socket_closes c)) (revision c) (server c) (incoming c).

Definition io (A : Type) : Type := connect → option (connect * result transport_err A).

#[global] Instance io_ret : MRet io := λ A a c, Some (c, Ok a).
#[global] Instance io_bind : MBind io := λ A B f m c,
  match m c with
  | Some (c, Ok a) => f a c
  | Some (c, Err e) => Some (c, Err e)
  | None => None
  end.

Definition raise {A} (e : transport_err) : io A := λ c, Some (c, Err e).
Definition lift {A} (r : result transport_err A) : io A := λ c, Some (c, r).
Definition gets {A} (f : connect → A) : io A := λ c, Some (c, Ok (f c)).

(** [c.buffer.Put...]. *)
Definition put (b : gostring) : io unit := λ c,
  old ← buffer c; Some (set_buffer c (Some (old ++ b)), Ok ()).

(** [len(c.buffer.Buf)]. *)
Definition buf_len : io nat := λ c, b ← buffer c; Some (c, Ok (length b)).

(** [flush]: the buffer stays when the write fails. *)
Definition flush : io unit := λ c,
  b ← buffer c;
  match b with
  | [] => Some (c, Ok ())
  | _ =>
      let '(o, ws) := match writes c with [] => (WriteOk, []) | o :: ws => (o, ws) end in
      match o with
      | WriteOk => Some (set_buffer (set_wire c (wire c ++ b) ws) (Some []), Ok ())
      | WriteErr e n => Some (set_wire c (wire c ++ take n b) ws, Err (TEWrite e))
      | WriteShort n => Some (set_wire c (wire c ++ take n b) ws, Err TEShort)
      end
  end.

(** The connection's configuration. *)
Variable compression : bool.
Variable maxCompressionBuffer : Z.
Variable Compress : gostring → result cmp_err gostring.

Definition compressBuffer (start : nat) : io unit := λ c,
  b ← buffer c;
  if compression && negb (bool_decide (b = [])) then
    match Compress (drop start b) with
    | Err e => Some (c, Err (TECompress e))
    | Ok data => Some (set_buffer c (Some (take start b ++ data)), Ok ())
    end
  else Some (c, Ok ()).

(** An error of [flush] inside the loop is wrapped and the connection stays open. *)
Definition flush_partial : io unit := λ c,
  match flush c with
  | Some (c, Err e) => Some (c, Err (TEPartial e))
  | r => r
  end.

(** The error of the last [flush] marks the connection closed, whatever it is. *)
Definition flush_last : io unit := λ c,
  match flush c with
  | Some (c, Err e) => Some (set_closed c, Err e)
  | r => r
  end.

(** [for i := range block.Columns]; the offset compression starts from is 0 after a flush. *)
Fixpoint send_columns (block : Block) (idx : list nat) (offset : nat) : io nat :=
  match idx with
  | [] => mret offset
  | i :: idx =>
      rev ← gets revision;
      x ← lift (map_err (TEColumn i) (EncodeColumn block rev (Z.of_nat i)));
      _ ← put x;
      n ← buf_len;
      offset ← (if maxCompressionBuffer <=? Z.of_nat n
                then (_ ← compressBuffer offset; _ ← flush_partial; mret 0%nat)
                else mret offset);
      send_columns block idx offset
  end.

Definition sendData (block : Block) (name : gostring) : io unit :=
  cl ← gets closed;
  if (cl : bool) then raise TEClosed
  else
    _ ← put (PutByte ClientData ++ PutString name);
    offset ← buf_len;
    rev ← gets revision;
    h ← lift (map_err TEHeader (EncodeHeader block rev));
    _ ← put h;
    offset ← send_columns block (seq 0 (length (Columns block))) offset;
    _ ← compressBuffer offset;
    flush_last.

(** The external tables of a query, then the empty block. *)
Fixpoint send_tables (tables : list (gostring * Block)) : io unit :=
  match tables with
  | [] => mret ()
  | (name, b) :: tables => _ ← sendData b name; send_tables tables
  end.

Definition sendQuery (osUser hostname : gostring) (q : Query) (external : list (gostring * Block)) : io unit :=
  _ ← put (PutByte ClientQuery);
  rev ← gets revision;
  match Query_Encode osUser hostname q rev with
  | None => λ _, None
  | Some r =>
      bytes ← lift (map_err TEQuery r);
      _ ← put bytes;
      _ ← send_tables external;
      _ ← sendData NewBlock [];
      flush
  end.

(** [close]: the socket is closed once; its [Close] is taken to succeed. *)
Definition connect_close : io unit := λ c,
  if closed c then Some (c, Ok ())
  else Some (set_buffer (close_socket (set_closed c)) None, Ok ()).

Definition cancel : io unit := λ c,
  match (_ ← put (PutUVarInt ClientCancel); flush) c with
  | None => None
  | Some (c, w) => '(c, _) ← connect_close c; Some (c, w)
  end.

(** ** The handshake *)

Variable Load : gostring → bool.

Definition read {A} (e : transport_err) (rd : gostring → option (A * gostring)) : io A := λ c,
  match rd (incoming c) with
  | Some (x, s) => Some (set_incoming c s, Ok x)
  | None => Some (c, Err e)
  end.

(** [exception()]. *)
Definition read_exception : io unit := λ c,
  r ← Exception_Decode (incoming c);
  Some (match r with
        | Ok (e, s) => (set_incoming c s, Err (TEException e))
        | Err e => (c, Err (TEDecode e)) end).

Definition decode_server : io unit := λ c,
  match ServerHandshake_Decode Load (incoming c) with
  | Err e => Some (c, Err (TEDecode e))
  | Ok (h, s) => Some (set_server (set_incoming c s) (Some h), Ok ())
  end.

(** The revision is lowered to the server's. *)
Definition negotiate : io unit := λ c,
  match server c with
  | None => Some (c, Err TEUnsupportedRevision)      (* the zero value has revision 0 *)
  | Some h =>
      if Revision h <? DBMS_MIN_REVISION_WITH_CLIENT_INFO then Some (c, Err TEUnsupportedRevision)
      else if Revision h <? revision c then Some (set_revision c (Revision h), Ok ())
      else Some (c, Ok ())
  end.

Definition handshake_body (hello : ClientHandshake) (database username password : gostring) : io unit :=
  _ ← put (PutByte ClientHello ++ ClientHandshake_Encode hello
           ++ PutString database ++ PutString username ++ PutString password);
  _ ← flush;
  packet ← read TERead RByte;
  if beq packet ServerException then read_exception
  else if beq packet ServerHello then _ ← decode_server; negotiate
  else if beq packet ServerEndOfStream then mret ()
  else raise (TEUnexpected packet).

(** [defer c.buffer.Reset()]. *)
Definition handshake (hello : ClientHandshake) (database username password : gostring) : io unit := λ c,
  '(c, r) ← handshake_body hello database username password c;
  _ ← buffer c;
  Some (set_buffer c (Some []), r).

Definition sendAddendum : io unit :=
  rev ← gets revision;
  _ ← (if DBMS_MIN_PROTOCOL_VERSION_WITH_QUOTA_KEY <=? rev then put (PutString []) else mret ());
  flush.

(** [dial] from the point where the socket is open. *)
Definition dial_session (hello : ClientHandshake) (database username password : gostring) : io unit :=
  _ ← handshake hello database username password;
  rev ← gets revision;
  if DBMS_MIN_PROTOCOL_VERSION_WITH_ADDENDUM <=? rev then sendAddendum else mret ().
End transport.

(** ** What reaches the wire *)

Section theorems.
Context {CO : ColumnOps} {W : Wire} {cmp_err : Type}.
Variable compression : bool.
Variable maxCompressionBuffer : Z.
Variable Compress : gostring → result cmp_err gostring.
(** The compressor accepts whatever it is given. *)
Hypothesis compresses : ∀ x, compression = true → is_ok (Compress x) = true.

(** A stretch of a block as it is written. *)
Definition frame (x : gostring) : gostring :=
  if compression then match Compress x with Ok y => y | Err _ => [] end else x.

(** Fields that sending leaves alone. *)
Definition same_session (c c' : connect) : Prop :=
  closed c' = closed c ∧ writes c' = [] ∧ revision c' = revision c ∧ server c' = server c
  ∧ socket_closes c' = socket_closes c ∧ incoming c' = incoming c.

Lemma same_session_trans a b c : same_session a b → same_session b c → same_session a c.
Proof. intros (H1 & H2 & H3 & H4 & H5 & H6) (G1 & G2 & G3 & G4 & G5 & G6). unfold same_session. rewrite G1, G3, G4, G5, G6. done. Qed.

Lemma flush_ok c b :
  buffer c = Some b → writes c = [] →
  ∃ c', flush (cmp_err := cmp_err) c = Some (c', Ok ()) ∧ wire c' = wire c ++ b ∧ buffer c' = Some [] ∧ same_session c c'.
Proof.
  intros Hb Hw. unfold flush. rewrite Hb. cbn [mbind option_bind]. destruct b as [|x b].
  - exists c. rewrite app_nil_r. split; [done|]. split; [done|]. split; [done|]. split; done.
  - rewrite Hw. eexists. split; [done|]. split; [done|]. split; [done|]. split; done.
Qed.

(** Compressing from the block's part of the buffer and flushing writes the part before
    it as it is and the block's part as a frame. *)
Lemma compress_flush c head acc (fl : io (cmp_err := cmp_err) unit) :
  buffer c = Some (head ++ acc) → writes c = [] →
  (∀ c1 c2, flush (cmp_err := cmp_err) c1 = Some (c2, Ok ()) → fl c1 = Some (c2, Ok ())) →
  ∃ c' chunks, (_ ← compressBuffer compression Compress (length head); fl) c = Some (c', Ok ())
    ∧ concat chunks = acc ∧ wire c' = wire c ++ head ++ flat_map frame chunks
    ∧ buffer c' = Some [] ∧ same_session c c'.
Proof.
  intros Hb Hw Hfl. unfold mbind, io_bind, compressBuffer. rewrite Hb. cbn [mbind option_bind].
  destruct (compression && negb (bool_decide (head ++ acc = []))) eqn:Ec.
  - apply andb_true_iff in Ec as [Ec _]. rewrite drop_app_length, take_app_length.
    specialize (compresses acc Ec). destruct (Compress acc) as [data|] eqn:Ed; [|done].
    destruct (flush_ok (set_buffer c (Some (head ++ data))) (head ++ data) eq_refl Hw) as (c' & E & Hwire & Hb' & Hs).
    exists c', [acc]. split; [by apply Hfl|]. split; [by rewrite concat_cons, app_nil_r|].
    split; [|done]. rewrite Hwire. cbn [flat_map]. unfold frame. rewrite Ec, Ed. by rewrite !app_nil_r.
  - destruct (flush_ok c (head ++ acc) Hb Hw) as (c' & E & Hwire & Hb' & Hs).
    destruct compression eqn:E0.
    + cbn [andb] in Ec. apply negb_false_iff, bool_decide_eq_true in Ec. apply app_nil in Ec as [-> ->].
      exists c', []. split; [by apply Hfl|]. split; [done|]. split; [|done]. by rewrite Hwire.
    + exists c', [acc]. split; [by apply Hfl|]. split; [by rewrite concat_cons, app_nil_r|]. split; [|done].
      rewrite Hwire. cbn [flat_map]. unfold frame. by rewrite E0, app_nil_r.
Qed.

(** The loop over the columns: [head] is the part of the buffer that is not compressed,
    [acc] what has been encoded since. *)
Lemma send_columns_ok block idx bytes c head acc :
  buffer c = Some (head ++ acc) → writes c = [] → encode_columns block (revision c) idx = Ok bytes →
  ∃ c' chunks head' acc',
    send_columns compression maxCompressionBuffer Compress block idx (length head) c = Some (c', Ok (length head'))
    ∧ buffer c' = Some (head' ++ acc') ∧ concat chunks ++ acc' = acc ++ bytes
    ∧ wire c' ++ head' = wire c ++ head ++ flat_map frame chunks ∧ same_session c c'.
Proof.
  revert bytes c head acc. induction idx as [|i idx IH]; intros bytes c head acc Hb Hw He.
  { injection He as <-. exists c, [], head, acc. rewrite app_nil_r. split; [done|]. split; [done|]. split; [done|].
    split; [cbn; by rewrite app_nil_r|]. by split. }
  cbn [encode_columns] in He. destruct (EncodeColumn block (revision c) (Z.of_nat i)) as [x|] eqn:Ex; [|done].
  cbn [mbind result_bind] in He. destruct (encode_columns block (revision c) idx) as [r|] eqn:Er; [|done].
  injection He as <-. cbn [send_columns].
  unfold mbind at 1, io_bind at 1. cbn [gets]. unfold mbind at 1, io_bind at 1, lift. rewrite Ex. cbn [map_err].
  unfold mbind at 1, io_bind at 1, put. rewrite Hb. cbn [mbind option_bind].
  set (c1 := set_buffer c (Some ((head ++ acc) ++ x))).
  unfold mbind at 1, io_bind at 1, buf_len. cbn [c1 set_buffer buffer mbind option_bind]. fold c1.
  assert (buffer c1 = Some (head ++ (acc ++ x))) as Hb1 by (cbn; by rewrite <- app_assoc).
  destruct (maxCompressionBuffer <=? _).
  - destruct (compress_flush c1 head (acc ++ x) (_ ← flush_partial; mret ()) Hb1 Hw) as (c2 & ch & E2 & Hch & Hw2 & Hb2 & Hs2).
    { intros d1 d2 Hd. unfold mbind, io_bind, flush_partial. by rewrite Hd. }
    destruct (IH r c2 [] []) as (c3 & ch3 & head3 & acc3 & E3 & Hb3 & Hch3 & Hw3 & Hs3).
    { exact Hb2. } { by destruct Hs2 as (_ & ? & _). } { destruct Hs2 as (_ & _ & -> & _). exact Er. }
    exists c3, (ch ++ ch3), head3, acc3. split.
    { unfold mbind, io_bind in E2 |- *. destruct (compressBuffer _ _ _ c1) as [[d [u|e]]|]; [|done..].
      destruct (flush_partial d) as [[d2 [u2|e2]]|]; [|done..]. cbn in E2 |- *. injection E2 as <-. exact E3. }
    split; [done|]. split; [rewrite concat_app, <- app_assoc, Hch3, Hch; by rewrite <- app_assoc|].
    split.
    { rewrite Hw3, Hw2, flat_map_app. cbn. by rewrite <- !app_assoc. }
    exact (same_session_trans c c2 c3 Hs2 Hs3).
  - destruct (IH r c1 head (acc ++ x) Hb1 Hw Er) as (c3 & ch3 & head3 & acc3 & E3 & Hb3 & Hch3 & Hw3 & Hs3).
    exists c3, ch3, head3, acc3. split; [exact E3|]. split; [done|]. split; [by rewrite Hch3, <- app_assoc|].
    split; [exact Hw3|]. exact Hs3.
Qed.

(** A data packet: the name as it is, the block in frames. *)
Definition data_packet (name : gostring) (chunks : list gostring) : gostring :=
  PutByte ClientData ++ PutString name ++ flat_map frame chunks.

Lemma put_ok c old b : buffer c = Some old → put (cmp_err := cmp_err) b c = Some (set_buffer c (Some (old ++ b)), Ok ()).
Proof. intros H. unfold put. by rewrite H. Qed.

Lemma sendData_ok block name c pre bytes :
  closed c = false → buffer c = Some pre → writes c = [] → Block_Encode block (revision c) = Ok bytes →
  ∃ c' chunks, sendData compression maxCompressionBuffer Compress block name c = Some (c', Ok ())
    ∧ concat chunks = bytes ∧ wire c' = wire c ++ pre ++ data_packet name chunks
    ∧ buffer c' = Some [] ∧ same_session c c'.
Proof.
  intros Hc Hb Hw He. unfold Block_Encode in He.
  destruct (EncodeHeader block (revision c)) as [h|] eqn:Eh; [|done]. cbn [mbind result_bind] in He.
  destruct (encode_columns block (revision c) _) as [cols|] eqn:Ec; [|done]. injection He as <-.
  unfold sendData. unfold mbind at 1, io_bind at 1, gets at 1. rewrite Hc.
  unfold mbind at 1, io_bind at 1. rewrite (put_ok c pre) by done.
  set (head := pre ++ PutByte ClientData ++ PutString name). set (c1 := set_buffer c (Some head)).
  unfold mbind at 1, io_bind at 1, buf_len. cbn [c1 set_buffer buffer mbind option_bind]. fold c1.
  unfold mbind at 1, io_bind at 1, gets at 1. unfold mbind at 1, io_bind at 1, lift.
  change (revision c1) with (revision c). rewrite Eh. cbn [map_err].
  unfold mbind at 1, io_bind at 1. rewrite (put_ok c1 head) by done. set (c2 := set_buffer c1 _).
  destruct (send_columns_ok block (seq 0 (length (Columns block))) cols c2 head h eq_refl Hw Ec)
    as (c3 & ch & head' & acc' & E3 & Hb3 & Hch & Hw3 & Hs3).
  unfold mbind at 1, io_bind at 1. rewrite E3.
  destruct (compress_flush c3 head' acc' flush_last Hb3 (proj1 (proj2 Hs3))) as (c4 & ch4 & E4 & Hch4 & Hw4 & Hb4 & Hs4).
  { intros d1 d2 Hd. unfold flush_last. by rewrite Hd. }
  exists c4, (ch ++ ch4). split; [exact E4|]. split; [by rewrite concat_app, Hch4|]. split.
  { unfold data_packet. rewrite Hw4, flat_map_app. rewrite (app_assoc (wire c3)), Hw3. unfold head. cbn [wire c2 c1 set_buffer].
    by rewrite <- !app_assoc. }
  split; [done|]. exact (same_session_trans c c3 c4 Hs3 Hs4).
Qed.

(** C21: however large the block and however small the buffer limit, [sendData] puts
    exactly one data packet on the wire: the code and the table's name unframed, then
    the block's encoding cut into stretches, each compressed on its own, whose
    concatenation is the encoding; without compression the bytes are the encoding
    itself.  The buffer is empty afterwards. *)
Theorem sendData_frames block name c bytes :
  closed c = false → buffer c = Some [] → writes c = [] → Block_Encode block (revision c) = Ok bytes →
  ∃ c' chunks, sendData compression maxCompressionBuffer Compress block name c = Some (c', Ok ())
    ∧ concat chunks = bytes ∧ wire c' = wire c ++ data_packet name chunks ∧ buffer c' = Some []
    ∧ (compression = false → wire c' = wire c ++ PutByte ClientData ++ PutString name ++ bytes).
Proof.
  intros Hc Hb Hw He. destruct (sendData_ok block name c [] bytes Hc Hb Hw He) as (c' & ch & E & Hch & Hw' & Hb' & _).
  exists c', ch. split; [done|]. split; [done|]. split; [done|]. split; [done|]. intros E0. rewrite Hw'.
  unfold data_packet. cbn [app]. rewrite <- Hch. assert (flat_map frame ch = concat ch) as ->; [|done].
  clear -E0. induction ch as [|x ch IH]; [done|]. cbn [flat_map concat]. rewrite IH. unfold frame. by rewrite E0.
Qed.

Lemma send_tables_ok external c :
  closed c = false → buffer c = Some [] → writes c = [] →
  Forall (λ '(_, b), is_ok (Block_Encode b (revision c)) = true) external →
  ∃ c' chs, send_tables compression maxCompressionBuffer Compress external c = Some (c', Ok ())
    ∧ Forall2 (λ '(_, b) ch, Block_Encode b (revision c) = Ok (concat ch)) external chs
    ∧ wire c' = wire c ++ flat_map (λ '(n, ch), data_packet n ch) (zip external.*1 chs)
    ∧ buffer c' = Some [] ∧ same_session c c'.
Proof.
  revert c. induction external as [|[n b] external IH]; intros c Hc Hb Hw Hx.
  { exists c, []. split; [done|]. split; [done|]. split; [cbn; by rewrite app_nil_r|]. split; [done|]. by split. }
  apply Forall_cons in Hx as [Hx Hxs]. destruct (Block_Encode b (revision c)) as [bytes|] eqn:Eb; [|done].
  destruct (sendData_ok b n c [] bytes Hc Hb Hw Eb) as (c1 & ch & E1 & Hch & Hw1 & Hb1 & Hs1).
  pose proof Hs1 as (Hc1 & Hws1 & Hr1 & _).
  destruct (IH c1) as (c2 & chs & E2 & Hf & Hw2 & Hb2 & Hs2); [by rewrite Hc1|done|done|by rewrite Hr1|].
  exists c2, (ch :: chs). cbn [send_tables]. unfold mbind, io_bind. rewrite E1. split; [done|].
  split; [constructor; [by rewrite Hch|by rewrite Hr1 in Hf]|]. split.
  { rewrite Hw2, Hw1. cbn. by rewrite <- !app_assoc. }
  split; [done|]. exact (same_session_trans c c1 c2 Hs1 Hs2).
Qed.

(** [sendQuery] puts on the wire the query packet, the external tables as data
    packets in order, and the empty block that ends them, nothing else. *)
Theorem sendQuery_wire osUser hostname q external c bytes :
  closed c = false → buffer c = Some [] → writes c = [] →
  Query_Encode osUser hostname q (revision c) = Some (Ok bytes) →
  Forall (λ '(_, b), is_ok (Block_Encode b (revision c)) = true) external →
  ∃ c' chs ch0, sendQuery compression maxCompressionBuffer Compress osUser hostname q external c = Some (c', Ok ())
    ∧ Forall2 (λ '(_, b) ch, Block_Encode b (revision c) = Ok (concat ch)) external chs
    ∧ Block_Encode NewBlock (revision c) = Ok (concat ch0)
    ∧ buffer c' = Some []
    ∧ wire c' = wire c ++ PutByte ClientQuery ++ bytes
        ++ flat_map (λ '(n, ch), data_packet n ch) (zip external.*1 chs) ++ data_packet [] ch0
    ∧ same_session c c'.
Proof.
  intros Hc Hb Hw Hq Hx. unfold sendQuery. unfold mbind at 1, io_bind at 1. rewrite (put_ok c []) by done.
  set (c1 := set_buffer c _). unfold mbind at 1, io_bind at 1, gets. change (revision c1) with (revision c). rewrite Hq.
  unfold mbind at 1, io_bind at 1, lift. cbn [map_err]. unfold mbind at 1, io_bind at 1.
  rewrite (put_ok c1 _ _ eq_refl). set (c2 := set_buffer c1 _).
  assert (Block_Encode NewBlock (revision c) = Ok ((put_when (0 <? revision c) encodeBlockInfo
    ++ PutUVarInt 0 ++ PutUVarInt 0) ++ [])) as Hn by done.
  assert (∀ d pre, closed d = false → buffer d = Some pre → writes d = [] → revision d = revision c →
    ∃ d' ch0, (_ ← sendData compression maxCompressionBuffer Compress NewBlock []; flush) d = Some (d', Ok ())
      ∧ Block_Encode NewBlock (revision c) = Ok (concat ch0) ∧ buffer d' = Some []
      ∧ wire d' = wire d ++ pre ++ data_packet [] ch0 ∧ same_session d d') as Hend.
  { intros d pre Hd Hbd Hwd Hr. rewrite <- Hr in Hn.
    destruct (sendData_ok NewBlock [] d pre _ Hd Hbd Hwd Hn) as (d1 & ch & E & Hch & Hw1 & Hb1 & Hs1).
    destruct (flush_ok d1 [] Hb1 (proj1 (proj2 Hs1))) as (d2 & E2 & Hw2 & Hb2 & Hs2).
    exists d2, ch. split; [unfold mbind, io_bind; by rewrite E|]. split; [by rewrite <- Hr, Hch|]. split; [done|].
    split; [by rewrite Hw2, Hw1, app_nil_r|exact (same_session_trans d d1 d2 Hs1 Hs2)]. }
  destruct external as [|[n b] external].
  - cbn [send_tables]. unfold mbind at 1, io_bind at 1.
    destruct (Hend c2 _ Hc eq_refl Hw eq_refl) as (c' & ch0 & E & H0 & Hb' & Hw' & Hs').
    exists c', [], ch0. split; [exact E|]. split; [done|]. split; [done|]. split; [done|].
    split; [rewrite Hw'; cbn; by rewrite <- !app_assoc|exact Hs'].
  - apply Forall_cons in Hx as [Hx Hxs]. destruct (Block_Encode b (revision c)) as [bb|] eqn:Eb; [|done].
    cbn [send_tables]. destruct (sendData_ok b n c2 _ bb Hc eq_refl Hw Eb) as (c3 & ch & E3 & Hch & Hw3 & Hb3 & Hs3).
    pose proof Hs3 as (Hc3 & Hws3 & Hr3 & _).
    destruct (send_tables_ok external c3) as (c4 & chs & E4 & Hf & Hw4 & Hb4 & Hs4); [by rewrite Hc3|done|done|by rewrite Hr3|].
    pose proof Hs4 as (Hc4 & Hws4 & Hr4 & _).
    destruct (Hend c4 [] ltac:(by rewrite Hc4, Hc3) Hb4 Hws4 ltac:(by rewrite Hr4, Hr3)) as (c' & ch0 & E & H0 & Hb' & Hw' & Hs').
    exists c', (ch :: chs), ch0. split.
    { unfold mbind at 1, io_bind at 1. unfold mbind at 1, io_bind at 1. rewrite E3, E4. exact E. }
    split; [constructor; [by rewrite Eb, Hch|by rewrite Hr3 in Hf]|]. split; [done|]. split; [done|].
    split; [rewrite Hw', Hw4, Hw3; cbn; by rewrite <- !app_assoc|].
    exact (same_session_trans c c3 c' Hs3 (same_session_trans c3 c4 c' Hs4 Hs')).
Qed.
End theorems.

(** ** Opening a session *)

Section session.
Context {CO : ColumnOps} {W : Wire} {L : WireLaws W} {cmp_err : Type}.
Variable Load : gostring → bool.

Definition hello_bytes (hello : ClientHandshake) (database username password : gostring) : gostring :=
  PutByte ClientHello ++ ClientHandshake_Encode hello ++ PutString database ++ PutString username ++ PutString password.

Lemma hello_flushed hello db user pw c :
  buffer c = Some [] → writes c = [] →
  ∃ c1, (_ ← put (CO := CO) (cmp_err := cmp_err) (hello_bytes hello db user pw); flush) c = Some (c1, Ok ())
    ∧ wire c1 = wire c ++ hello_bytes hello db user pw ∧ buffer c1 = Some [] ∧ same_session c c1
    ∧ incoming c1 = incoming c.
Proof.
  intros Hb Hw. unfold mbind, io_bind. rewrite (put_ok c []) by done. cbn [app].
  set (h := hello_bytes hello db user pw). unfold flush. cbn [buffer set_buffer mbind option_bind writes].
  destruct h as [|x h]; [|rewrite Hw]; (eexists; split; [reflexivity|]; split; [|by repeat split]); cbn.
  - by rewrite app_nil_r.
  - done.
Qed.

(** C23: dialling sends the client's hello with the credentials, reads the server's
    hello and settles on the smaller of the two revisions, which every later packet is
    encoded and decoded with; the addendum is sent exactly from the revision that knows
    it, and what follows the hello stays in the input. *)
Theorem dial_negotiates hello db user pw h timezone rest c :
  buffer c = Some [] → writes c = [] → handshake_ok Load h timezone →
  DBMS_MIN_REVISION_WITH_CLIENT_INFO ≤ Revision h →
  incoming c = PutByte ServerHello ++ put_handshake h timezone ++ rest →
  let rev := Z.min (revision c) (Revision h) in
  ∃ c', dial_session (cmp_err := cmp_err) (CO := CO) Load hello db user pw c = Some (c', Ok ())
    ∧ revision c' = rev ∧ server c' = Some h ∧ incoming c' = rest ∧ buffer c' = Some []
    ∧ wire c' = wire c ++ hello_bytes hello db user pw
        ++ (if DBMS_MIN_PROTOCOL_VERSION_WITH_ADDENDUM <=? rev then PutString [] else []).
Proof.
  intros Hb Hw Hh Hmin Hin rev.
  destruct (hello_flushed hello db user pw c Hb Hw) as (c1 & E1 & Hw1 & Hb1 & (Hc1 & Hws1 & Hr1 & Hsv1 & _) & Hi1).
  assert (∃ c2, handshake (CO := CO) (cmp_err := cmp_err) Load hello db user pw c = Some (c2, Ok ()) ∧ revision c2 = rev
    ∧ server c2 = Some h ∧ incoming c2 = rest ∧ buffer c2 = Some [] ∧ wire c2 = wire c1 ∧ writes c2 = [])
    as (c2 & E2 & Hr2 & Hs2 & Hi2 & Hb2 & Hw2 & Hws2).
  { assert (∃ c3, handshake_body (CO := CO) (cmp_err := cmp_err) Load hello db user pw c = Some (c3, Ok ())
      ∧ revision c3 = rev ∧ server c3 = Some h ∧ incoming c3 = rest ∧ buffer c3 = Some [] ∧ wire c3 = wire c1
      ∧ writes c3 = []) as (c3 & E3 & H3).
    { unfold handshake_body. fold (hello_bytes hello db user pw). unfold mbind, io_bind in E1 |- *.
      destruct (put (hello_bytes hello db user pw) c) as [[d [[]|]]|]; [|done..]. rewrite E1. unfold read.
      rewrite Hi1, Hin, reads_Byte by done. change (beq ServerHello ServerException) with false. cbv iota.
      rewrite beq_refl. unfold decode_server. cbn [set_incoming incoming].
      rewrite ServerHandshake_reads by done. unfold negotiate. cbn [set_server server revision set_incoming].
      destruct (Z.ltb_spec (Revision h) DBMS_MIN_REVISION_WITH_CLIENT_INFO); [lia|].
      rewrite Hr1. destruct (Z.ltb_spec (Revision h) (revision c)); eexists; (split; [reflexivity|]); cbn;
        (split; [lia|]); done. }
    unfold handshake. rewrite E3. cbn [mbind option_bind]. destruct H3 as (? & ? & ? & Hb3 & ? & ?). rewrite Hb3.
    cbn [mbind option_bind]. eexists. split; [reflexivity|]. done. }
  unfold dial_session. unfold mbind at 1, io_bind at 1. rewrite E2. unfold mbind at 1, io_bind at 1, gets.
  rewrite Hr2. destruct (Z.leb_spec DBMS_MIN_PROTOCOL_VERSION_WITH_ADDENDUM rev) as [Ha|Ha].
  - unfold sendAddendum. unfold mbind at 1, io_bind at 1, gets. rewrite Hr2.
    change DBMS_MIN_PROTOCOL_VERSION_WITH_QUOTA_KEY with DBMS_MIN_PROTOCOL_VERSION_WITH_ADDENDUM.
    rewrite (proj2 (Z.leb_le _ _) Ha). unfold mbind, io_bind. rewrite (put_ok c2 []) by done. cbn [app].
    set (p := PutString []). unfold flush. cbn [buffer set_buffer mbind option_bind writes].
    destruct p as [|x p]; [|rewrite Hws2]; (eexists; split; [reflexivity|]); cbn; repeat split; try done.
    + rewrite Hw2, Hw1. by rewrite app_nil_r.
    + rewrite Hw2, Hw1. by rewrite <- app_assoc.
  - exists c2. split; [done|]. repeat split; try done. by rewrite Hw2, Hw1, app_nil_r.
Qed.
End session.

(** ** Error paths *)

Section errors.
Context {CO : ColumnOps} {W : Wire} {cmp_err : Type}.

Lemma flush_socket c c' r :
  flush (CO := CO) (cmp_err := cmp_err) c = Some (c', r) → socket_closes c' = socket_closes c ∧ closed c' = closed c.
Proof.
  unfold flush. destruct (buffer c) as [b|]; [|done]. cbn [mbind option_bind]. destruct b; [by intros [= <- <-]|].
  destruct (writes c) as [|[]]; by intros [= <- <-].
Qed.

Lemma handshake_socket Load hello db user pw c c' r :
  handshake (CO := CO) (cmp_err := cmp_err) Load hello db user pw c = Some (c', r) →
  socket_closes c' = socket_closes c ∧ closed c' = closed c.
Proof.
  unfold handshake. destruct (handshake_body _ hello db user pw c) as [[c1 r1]|] eqn:E; [|done]. cbn [mbind option_bind].
  destruct (buffer c1) eqn:Eb; [|done]. cbn [mbind option_bind]. intros [= <- <-]. cbn [set_buffer socket_closes closed].
  revert E. unfold handshake_body, mbind, io_bind, put. destruct (buffer c) as [b|]; [|done]. cbn [mbind option_bind].
  set (c2 := set_buffer c _). destruct (flush c2) as [[c3 [[]|e3]]|] eqn:Ef; [| |done].
  2:{ intros [= <- <-]. apply flush_socket in Ef. exact Ef. }
  apply flush_socket in Ef as [Ef1 Ef2]. cbn in Ef1, Ef2. rewrite <- Ef1, <- Ef2. clear Ef1 Ef2.
  unfold read. destruct (RByte (incoming c3)) as [[p s]|]; [|by intros [= <- <-]].
  destruct (beq p ServerException).
  { unfold read_exception. destruct (Exception_Decode _) as [[[? ?]|]|]; [|by intros [= <- <-]|done].
    cbn. by intros [= <- <-]. }
  destruct (beq p ServerHello); [|destruct (beq p ServerEndOfStream); by intros [= <- <-]].
  unfold decode_server. destruct (ServerHandshake_Decode _ _) as [[h t]|]; [|by intros [= <- <-]].
  unfold negotiate. cbn [server set_server]. destruct (_ <? _); [by intros [= <- <-]|].
  destruct (_ <? _); by intros [= <- <-].
Qed.

(** What the reading side looks at is the same. *)
Definition reads_same (c c' : connect) : Prop :=
  incoming c' = incoming c ∧ closed c' = closed c ∧ revision c' = revision c.

(** A step that reads nothing, and leaves the connection open when it succeeds. *)
Definition sends {A} (m : io (cmp_err := cmp_err) A) : Prop :=
  ∀ c c' r, m c = Some (c', r) → is_ok r = true → reads_same c c'.

Lemma sends_bind {A B} (m : io A) (f : A → io B) : sends m → (∀ a, sends (f a)) → sends (a ← m; f a).
Proof.
  intros Hm Hf c c' r. unfold mbind, io_bind. destruct (m c) as [[c1 [a|e]]|] eqn:E; [|by intros [= <- <-]|done].
  intros E' Hr. destruct (Hm _ _ _ E eq_refl) as (H1 & H2 & H3). destruct (Hf a _ _ _ E' Hr) as (H1' & H2' & H3').
  split; [congruence|]. split; congruence.
Qed.

Lemma sends_here {A} (f : connect → result transport_err A) : sends (λ c, Some (c, f c)).
Proof. by intros c c' r [= <- <-]. Qed.

Lemma sends_put b : sends (put b).
Proof. intros c c' r. unfold put. destruct (buffer c); [|done]. by intros [= <- <-]. Qed.

Lemma sends_buf_len : sends buf_len.
Proof. intros c c' r. unfold buf_len. destruct (buffer c); [|done]. by intros [= <- <-]. Qed.

Lemma sends_flush : sends flush.
Proof.
  intros c c' r. unfold flush. destruct (buffer c) as [[|b l]|]; [by intros [= <- <-]| |done]. cbn [mbind option_bind].
  destruct (writes c) as [|[| |] ws]; by intros [= <- <-].
Qed.

Lemma sends_flush_partial : sends flush_partial.
Proof. intros c c' r. unfold flush_partial. destruct (flush c) as [[c1 [?|e]]|] eqn:E; [|by intros [= <- <-]|done].
  intros [= <- <-]. by eapply sends_flush. Qed.

Lemma sends_flush_last : sends flush_last.
Proof. intros c c' r. unfold flush_last. destruct (flush c) as [[c1 [?|e]]|] eqn:E; [|by intros [= <- <-]|done].
  intros [= <- <-]. by eapply sends_flush. Qed.

Lemma sends_compress compression Compress start : sends (compressBuffer compression Compress start).
Proof.
  intros c c' r. unfold compressBuffer. destruct (buffer c) as [b|]; [|done]. cbn [mbind option_bind].
  destruct (_ && _); [|by intros [= <- <-]]. destruct (Compress _); by intros [= <- <-].
Qed.

Lemma sends_columns compression max Compress block idx offset : sends (send_columns compression max Compress block idx offset).
Proof.
  revert offset. induction idx as [|i idx IH]; intros offset; cbn [send_columns]; [apply sends_here|].
  apply sends_bind; [apply sends_here|]. intros rev. apply sends_bind; [apply sends_here|]. intros x.
  apply sends_bind; [apply sends_put|]. intros _. apply sends_bind; [apply sends_buf_len|]. intros n.
  apply sends_bind; [|done]. destruct (max <=? Z.of_nat n); [|apply sends_here].
  apply sends_bind; [apply sends_compress|]. intros _. apply sends_bind; [apply sends_flush_partial|].
  intros _. apply sends_here.
Qed.

Lemma sends_data compression max Compress block name : sends (sendData compression max Compress block name).
Proof.
  apply sends_bind; [apply sends_here|]. intros [|]; [apply sends_here|].
  apply sends_bind; [apply sends_put|]. intros _. apply sends_bind; [apply sends_buf_len|]. intros offset.
  apply sends_bind; [apply sends_here|]. intros rev. apply sends_bind; [apply sends_here|]. intros h.
  apply sends_bind; [apply sends_put|]. intros _. apply sends_bind; [apply sends_columns|]. intros offset'.
  apply sends_bind; [apply sends_compress|]. intros _. apply sends_flush_last.
Qed.

(** A query that was sent has read nothing. *)
Lemma sendQuery_sends compression max Compress osUser hostname q external :
  sends (sendQuery compression max Compress osUser hostname q external).
Proof.
  apply sends_bind; [apply sends_put|]. intros _. apply sends_bind; [apply sends_here|]. intros rev.
  destruct (Query_Encode osUser hostname q rev) as [r|]; [|by intros c c' r].
  apply sends_bind; [apply sends_here|]. intros bytes. apply sends_bind; [apply sends_put|]. intros _.
  apply sends_bind; [|intros _; apply sends_bind; [apply sends_data|intros _; apply sends_flush]].
  induction external as [|[name b] external IH]; cbn [send_tables]; [apply sends_here|].
  apply sends_bind; [apply sends_data|]. by intros _.
Qed.

(** A failed handshake gives the error back and leaves the socket as it is. *)
Lemma failed_handshake_leaves_socket Load hello db user pw c c' e :
  handshake (CO := CO) (cmp_err := cmp_err) Load hello db user pw c = Some (c', Err e) →
  socket_closes c' = socket_closes c ∧ closed c' = closed c.
Proof. apply handshake_socket. Qed.

(** A block whose columns differ in length is refused after its packet was begun: the
    code and the name stay in the buffer and go out with whatever is sent next. *)
Lemma refused_block_leaves_bytes compression max Compress block name c e :
  closed c = false → buffer c = Some [] → EncodeHeader block (revision c) = Err e →
  sendData (cmp_err := cmp_err) compression max Compress block name c
  = Some (set_buffer c (Some (PutByte ClientData ++ PutString name)), Err (TEHeader e)).
Proof.
  intros Hc Hb He. unfold sendData. unfold mbind at 1, io_bind at 1, gets at 1. rewrite Hc.
  unfold mbind at 1, io_bind at 1. rewrite (put_ok c []) by done. cbn [app].
  unfold mbind at 1, io_bind at 1, buf_len. cbn [set_buffer buffer mbind option_bind].
  unfold mbind at 1, io_bind at 1, gets at 1. unfold mbind at 1, io_bind at 1, lift. cbn [revision set_buffer].
  by rewrite He.
Qed.

(** On a closed connection [sendData] returns an error and touches nothing, and
    [close] is idempotent: however often it runs, the socket is closed once, and from
    then on nothing can reach the wire. *)
Theorem closed_is_final compression max Compress block name c :
  ∃ c', connect_close (CO := CO) (cmp_err := cmp_err) c = Some (c', Ok ()) ∧ closed c' = true
    ∧ wire c' = wire c ∧ socket_closes c' = (socket_closes c + if closed c then 0 else 1)%nat
    ∧ connect_close (CO := CO) (cmp_err := cmp_err) c' = Some (c', Ok ())
    ∧ sendData (cmp_err := cmp_err) compression max Compress block name c' = Some (c', Err TEClosed).
Proof.
  unfold connect_close. destruct (closed c) eqn:Ec.
  - exists c. rewrite Ec. do 3 (split; [done|]). split; [lia|]. split; [done|].
    unfold sendData, mbind, io_bind, gets. by rewrite Ec.
  - eexists. split; [done|]. do 2 (split; [done|]). split; [cbn; lia|]. done.
Qed.
End errors.

(** ** Concrete runs *)

Definition fresh (ws : list write_outcome) (inc : gostring) : connect :=
  MkConnect false (Some []) [] ws 0 54460 None inc.

(** Frames that carry their length. *)
Definition len_frame (x : gostring) : result unit gostring := Ok (PutString x).

Lemma sendData_frames_witness :
  ∃ c' chunks, sendData true 40 len_frame (CO := demo_columns) demo_block (str "t") (fresh [] []) = Some (c', Ok ())
    ∧ wire c' = data_packet true len_frame (str "t") chunks.
Proof.
  destruct (sendData_frames (CO := demo_columns) true 40 len_frame (λ _ _, eq_refl) demo_block (str "t") (fresh [] [])
    (match Block_Encode (CO := demo_columns) demo_block 54460 with Ok b => b | Err _ => [] end))
    as (c' & chunks & H & _ & Hw & _).
  - reflexivity.
  - reflexivity.
  - reflexivity.
  - vm_compute. reflexivity.
  - by exists c', chunks.
Defined.

Lemma sendQuery_wire_witness :
  ∃ c', sendQuery false 1000 len_frame (CO := demo_columns) (str "root") (str "host") demo_q [(str "t", demo_block)]
    (fresh [] []) = Some (c', Ok ()) ∧ buffer c' = Some [].
Proof.
  destruct (sendQuery_wire (CO := demo_columns) false 1000 len_frame (λ _ _, eq_refl) (str "root") (str "host") demo_q
    [(str "t", demo_block)] (fresh [] [])
    (match Query_Encode (str "root") (str "host") demo_q 54460 with Some (Ok b) => b | _ => [] end))
    as (c' & chs & ch0 & H & _ & _ & Hb & _).
  - reflexivity.
  - reflexivity.
  - reflexivity.
  - vm_compute. reflexivity.
  - constructor; [vm_compute; reflexivity|constructor].
  - by exists c'.
Defined.

Lemma dial_negotiates_witness :
  ∃ c', dial_session (CO := demo_columns) (cmp_err := unit) (λ _, true)
      (MkClientHandshake 54460 (str "clickhouse-go") (MkVersion 2 48 0)) (str "db") (str "u") (str "p")
      (fresh [] (PutByte ServerHello ++ put_handshake demo_h (str "Europe/Berlin") ++ str "x")) = Some (c', Ok ())
    ∧ revision c' = 54460 ∧ incoming c' = str "x".
Proof.
  destruct (dial_negotiates (CO := demo_columns) (cmp_err := unit) (λ _, true)
    (MkClientHandshake 54460 (str "clickhouse-go") (MkVersion 2 48 0)) (str "db") (str "u") (str "p") demo_h
    (str "Europe/Berlin") (str "x")
    (fresh [] (PutByte ServerHello ++ put_handshake demo_h (str "Europe/Berlin") ++ str "x")))
    as (c' & H & Hr & _ & Hi & _).
  - reflexivity.
  - reflexivity.
  - split; [repeat constructor|]. split; [repeat constructor; done|]. split; [done|]. split; [done|].
    split; discriminate.
  - vm_compute. discriminate.
  - reflexivity.
  - exists c'. split; [exact H|]. split; [exact Hr|exact Hi].
Defined.

(** A write that fails between two columns leaves the connection open with half a block
    on the wire; only a failure of the last write closes it. *)
Example partial_flush_keeps_open :
  ∃ c', sendData false 10 len_frame (CO := demo_columns) demo_block [] (fresh [WriteErr OtherErr 3] [])
    = Some (c', Err (TEPartial (TEWrite OtherErr))) ∧ closed c' = false ∧ length (wire c') = 3%nat.
Proof. eexists. split; [vm_compute; reflexivity|]. done. Qed.
