(* ===== verification/Statement.v ===== *)
(** * Statements over the native connection ([conn.go], [conn_exec.go],
    [conn_async_insert.go], [conn_query.go], [conn_process.go], [ext/ext.go])

    Where the components meet: an operation takes the options out of its context, binds
    the arguments, sends the query and reads the answer.  A session is a connection with
    the deadlines of its socket, the heap of the shared maps, and what the callbacks were
    given; [None] is a panic.  [dial] opens it.  The context may be done before the reading,
    or while it waits for the server, after some of the answer has come; when the reading
    has ended too, the [select] takes the one or the other. *)

From Stdlib Require Import ZifyBool SpecFloat.
From S2P Require Import Prelude GoStd Options FormatValue Bind QueryParams Wire ProtoPackets QueryContext Block Process Rows Transport.
Local Open Scope Z_scope.

(** ** External tables *)

Section ext.
Context {CO : ColumnOps}.

Record Table := MkTable { t_name : gostring; t_block : Block }.

(** [NewTable]: the columns in turn; the first error is returned. *)
Fixpoint add_columns (tbl : Table) (columns : list (gostring * gostring)) : result block_err Table :=
  match columns with
  | [] => Ok tbl
  | (name, ct) :: columns => b ← AddColumn (t_block tbl) name ct; add_columns (MkTable (t_name tbl) b) columns
  end.

Definition NewTable (name : gostring) (columns : list (gostring * gostring)) : result block_err Table :=
  add_columns (MkTable name NewBlock) columns.

Definition Structure (tbl : Table) : gostring :=
  strings_Join (map (λ c, colName c ++ str " " ++ colType c) (Columns (t_block tbl))) (str ", ").

Definition Table_Append (tbl : Table) (v : list cell) : Table * option block_err :=
  let '(b, e) := Append (t_block tbl) v in (MkTable (t_name tbl) b, e).

Lemma add_columns_spec tbl columns tbl' :
  add_columns tbl columns = Ok tbl' →
  t_name tbl' = t_name tbl
  ∧ ∃ cs, Forall2 (λ '(n, ct) c, newColumn n ct = Ok c) columns cs
      ∧ t_block tbl' = MkBlock (names (t_block tbl) ++ columns.*1) (Columns (t_block tbl) ++ cs).
Proof.
  revert tbl. induction columns as [|[n ct] columns IH]; intros tbl; cbn [add_columns].
  { intros [= <-]. split; [done|]. exists []. split; [done|]. cbn. rewrite !app_nil_r. by destruct tbl as [? []]. }
  unfold AddColumn. destruct (newColumn n ct) as [c|] eqn:Ec; [|done]. cbn [mbind result_bind]. intros E.
  destruct (IH _ E) as [Hn (cs & Hcs & Hb)]. cbn in Hn, Hb. split; [done|]. exists (c :: cs). split; [by constructor|].
  rewrite Hb. cbn. by rewrite <- !app_assoc.
Qed.

(** A table has the columns it was made with, in their order; [Structure] lists them as the
    columns name themselves. *)
Lemma NewTable_columns name columns tbl :
  NewTable name columns = Ok tbl →
  t_name tbl = name ∧ names (t_block tbl) = columns.*1
  ∧ Forall2 (λ '(n, ct) c, newColumn n ct = Ok c) columns (Columns (t_block tbl)).
Proof. intros E. destruct (add_columns_spec _ _ _ E) as [Hn (cs & Hcs & ->)]. done. Qed.
End ext.

(** ** Settings and parameters of a query *)

Definition settingToProtoSetting (k : gostring) (v : setting_any) : Setting :=
  match v with
  | CustomSetting s => MkSetting k (SString s) false true
  | AnyValue v => MkSetting k v true false
  end.

Section query.
(** The order in which [range] goes through a map. *)
Variable walk : settings_map → list (gostring * setting_any).
Variable walk_params : params_map → list (gostring * gostring).

(** [connect.settings]: those of the connection, then those of the query. *)
Definition settings (optSettings querySettings : settings_map) : list Setting :=
  map (uncurry settingToProtoSetting) (walk optSettings) ++ map (uncurry settingToProtoSetting) (walk querySettings).

Definition parametersToProtoParameters (parameters : params_map) : list ProtoParameter :=
  map (λ '(k, v), MkParameter k v) (walk_params parameters).
End query.

(** What a connection is dialled with. *)
Record conn_options := MkConnOptions {
  co_Settings : settings_map;
  co_ClientInfo : ClientInfo;
  co_readTimeout : Z;
  co_compression : bool;              (* a method other than none *)
  co_maxCompressionBuffer : Z
}.

Record deadlines := MkDeadlines { dl_read : option Z; dl_write : option Z }.

Section session.
Context {CO : ColumnOps} {W : Wire} {SO : ScanOps CO} {cmp_err : Type}.

Record session := MkSession {
  s_conn : connect;
  s_dl : deadlines;
  s_heap : heap;
  s_seen : list callback
}.

Inductive op_err :=
| OEBind (e : params_err)
| OETransport (e : transport_err (CO := CO) (cmp_err := cmp_err))
| OEProcess (e : process_err)
| OEContext                     (* ctx.Err() *)
| OENative.                     (* ErrFormatNativeUnsupported *)

Definition op (A : Type) : Type := session → option (session * result op_err A).

#[global] Instance op_ret : MRet op := λ A a s, Some (s, Ok a).
#[global] Instance op_bind : MBind op := λ A B f m s,
  match m s with
  | Some (s, Ok a) => f a s
  | Some (s, Err e) => Some (s, Err e)
  | None => None
  end.

Definition throw {A} (e : op_err) : op A := λ s, Some (s, Err e).
Definition peek {A} (f : session → A) : op A := λ s, Some (s, Ok (f s)).

(** [defer]: runs whatever the outcome is. *)
Definition finally {A} (m : op A) (d : op unit) : op A := λ s,
  '(s, r) ← m s; '(s, _) ← d s; Some (s, r).

Definition on_conn {A} (m : io (cmp_err := cmp_err) A) : op A := λ s,
  '(c, r) ← m (s_conn s); Some (MkSession c (s_dl s) (s_heap s) (s_seen s), map_err OETransport r).

(** The deadlines of the socket; [None] is the zero time. *)
Definition SetReadDeadline (t : option Z) : op unit := λ s,
  Some (MkSession (s_conn s) (MkDeadlines t (dl_write (s_dl s))) (s_heap s) (s_seen s), Ok ()).
Definition SetDeadline (t : option Z) : op unit := λ s,
  Some (MkSession (s_conn s) (MkDeadlines t t) (s_heap s) (s_seen s), Ok ()).

(** The clock, and what the rest of the program gives. *)
Variable now : Z.
Variable opt : conn_options.
Variable walk : settings_map → list (gostring * setting_any).
Variable walk_params : params_map → list (gostring * gostring).
Variable Compress : gostring → result cmp_err gostring.
Variable compressed_Decode : Z → gostring → option (result block_err (Block * gostring)).
Variable FormatFloat : spec_float → Z → gostring.
Variables osUser hostname localAddr goVersion goos : gostring.
Variable spans : nat → Span.             (* the trace context with a number *)
Variable tables : nat → Table.           (* the external table with a number *)

Definition deadline_of (ctx : context) : option Z := until ← c_until ctx; Some (now + until).

Definition startReadWriteTimeout (ctx : context) : op unit :=
  _ ← SetReadDeadline (Some (now + co_readTimeout opt));
  match deadline_of ctx with Some d => SetDeadline (Some d) | None => mret () end.

Definition clearReadWriteTimeout (ctx : context) : op unit :=
  _ ← SetReadDeadline None;
  match deadline_of ctx with Some _ => SetDeadline None | None => mret () end.

(** [queryOptions(ctx)]. *)
Definition take_options (ctx : context) : op QueryOptions := λ s,
  '(h, o) ← queryOptions ctx (s_heap s); Some (MkSession (s_conn s) (s_dl s) h (s_seen s), Ok o).

Definition write_setting (o : QueryOptions) (k : gostring) (v : Z) : op unit := λ s,
  h ← put_setting (o_settings o) k (AnyValue (SInt v)) (s_heap s);
  Some (MkSession (s_conn s) (s_dl s) h (s_seen s), Ok ()).

(** The name of [c.server.Timezone]; the nil location is called UTC. *)
Definition server_zone (c : connect) : gostring := default (str "UTC") (server c ≫= Timezone).

(** [bindQueryOrAppendParameters]: arguments that are sent as parameters are written to
    a new map of the options. *)
Definition bind_arguments (o : QueryOptions) (query : gostring) (args : list barg) : op (QueryOptions * gostring) := λ s,
  let old := read_params (s_heap s) (o_parameters o) in
  '(ps, r) ← bindQueryOrAppendParameters FormatFloat
               (DBMS_MIN_PROTOCOL_VERSION_WITH_PARAMETERS <=? revision (s_conn s)) old query (server_zone (s_conn s)) args;
  let '(h, o) := if decide (ps = old) then (s_heap s, o)
                 else let '(a, h) := new_params ps (s_heap s) in (h, set_parameters (Some a) o) in
  Some (MkSession (s_conn s) (s_dl s) h (s_seen s),
        match r with Ok body => Ok (o, body) | Err e => Err (OEBind e) end).

(** The packet [sendQuery] makes of the options. *)
Definition query_packet (h : heap) (o : QueryOptions) (body : gostring) : Query :=
  MkQuery (o_queryID o) (ClientInfo_String goVersion goos (ClientInfo_Append (co_ClientInfo opt) (o_clientInfo o)))
    (MkVersion 2 48 0) DBMS_TCP_PROTOCOL_VERSION (spans (o_span o)) body (o_quotaKey o)
    (settings walk (co_Settings opt) (read_settings h (o_settings o)))
    (parametersToProtoParameters walk_params (read_params h (o_parameters o)))
    (co_compression opt) [] localAddr.

Definition external_tables (h : heap) (o : QueryOptions) : list (gostring * Block) :=
  map (λ i, (t_name (tables i), t_block (tables i))) (read_slice h (o_external o)).

Definition send_query (body : gostring) (o : QueryOptions) : op unit :=
  h ← peek s_heap;
  on_conn (sendQuery (co_compression opt) (co_maxCompressionBuffer opt) Compress osUser hostname
             (query_packet h o body) (external_tables h o)).

(** [options.onProcess()]: no data callback; profile events only with a handler. *)
Definition on_process (o : QueryOptions) : onProcess := MkOn false (bool_decide (is_Some (o_profileEvents o))).

(** When the context ends: not before the answer, before the reading, or while the
    goroutine reads, which gets the first [n] bytes of the answer.  In the last case both
    the context and what the goroutine has sent can be ready at the final [select], which
    then picks either: [taken] says that it picks the context. *)
Inductive interruption := Lasts | DoneBefore | DoneDuring (n : nat) (taken : bool).

Definition reading_side (c : connect) : rconn := MkRConn (closed c) (revision c) (co_compression opt).

(** [processImpl] between its deadlines.  What is left to read after an error is not
    looked at again: the client closes a connection that failed.  [later] comes behind. *)
Definition process_loop (ctx : context) (on : onProcess) (arrived later : gostring) : op unit := λ s,
  '(s, _) ← startReadWriteTimeout ctx s;
  '(cbs, r) ← processImpl compressed_Decode (reading_side (s_conn s)) (S (length arrived)) on arrived;
  '(s, _) ← clearReadWriteTimeout ctx s;
  Some (MkSession (set_incoming (s_conn s) (match r with Ok rest => rest ++ later | Err _ => [] end)) (s_dl s) (s_heap s)
          (s_seen s ++ cbs),
        match r with Ok _ => Ok () | Err e => Err (OEProcess e) end).

(** [c.cancel(); return ctx.Err()]: the error of the cancellation is dropped.  Closing
    waits for the reader, so that the reading goroutine is over. *)
Definition abandon {A} : op A := λ s,
  '(s, _) ← on_conn cancel s; Some (s, Err OEContext).

Definition process (ctx : context) (i : interruption) (on : onProcess) : op unit := λ s,
  let answer := incoming (s_conn s) in
  match i with
  | DoneBefore => abandon s
  | DoneDuring n true => '(s, _) ← process_loop ctx on (take n answer) (drop n answer) s; abandon s
  | DoneDuring n false => process_loop ctx on (take n answer) (drop n answer) s
  | Lasts => process_loop ctx on answer [] s
  end.

Definition send_and_process (ctx : context) (i : interruption) (body : gostring) (o : QueryOptions) : op unit :=
  _ ← send_query body o; process ctx i (on_process o).

(** ** The operations *)

Definition exec (ctx : context) (i : interruption) (query : gostring) (args : list barg) : op unit :=
  o ← take_options ctx;
  '(o, body) ← bind_arguments o query args;
  _ ← SetReadDeadline (Some (now + co_readTimeout opt));
  finally
    match deadline_of ctx with
    | Some d => _ ← SetDeadline (Some d); finally (send_and_process ctx i body o) (SetDeadline None)
    | None => send_and_process ctx i body o
    end
    (SetReadDeadline None).

Definition asyncInsert (ctx : context) (i : interruption) (query : gostring) (wait : bool) (args : list barg) : op unit :=
  o ← take_options ctx;
  _ ← write_setting o (str "async_insert") 1;
  _ ← write_setting o (str "wait_for_async_insert") 0;
  _ ← (if wait then write_setting o (str "wait_for_async_insert") 1 else mret ());
  '(o, query) ← (if bool_decide (args = []) then mret (o, query) else bind_arguments o query args);
  send_and_process ctx i query o.

(** [query] with a context that lasts: every way out releases the connection once, the
    last one when the goroutine has read the answer; [release] is given the error. *)
Definition connect_query (ctx : context) (query : gostring) (args : list barg)
    : session → option (session * list (option op_err) * result op_err (rows (CO := CO) process_err)) := λ s,
  match (o ← take_options ctx; '(o', body) ← bind_arguments o query args; _ ← send_query body o'; mret o) s with
  | None => None
  | Some (s, Err e) => Some (s, [Some e], Err e)
  | Some (s, Ok o) =>
      '(cbs, r) ← query_rows compressed_Decode (reading_side (s_conn s)) (on_profileEvents (on_process o)) (incoming (s_conn s));
      let s := MkSession (s_conn s) (s_dl s) (s_heap s) (s_seen s ++ cbs) in
      Some (match r with
            | Err e => (s, [Some (OEProcess e)], Err (OEProcess e))
            | Ok rs => (s, [OEProcess <$> (r_errors rs ≫= head)], Ok rs)
            end)
  end.

(** [queryFormat] and [insertFormat]: the connection goes back unused. *)
Definition native_format {A} : session → option (session * list (option op_err) * result op_err A) := λ s,
  Some (s, [None], Err OENative).
End session.

(** ** The settings the server applies *)

(** The entries of the settings in turn: a later one replaces an earlier one. *)
Definition applied (es : list (gostring * Z * gostring)) : gmap gostring (Z * gostring) :=
  foldl (λ m '(k, f, t), <[k := (f, t)]> m) ∅ es.

Definition setting_wire (v : setting_any) : Z * gostring :=
  let '(_, f, t) := setting_entry (settingToProtoSetting [] v) in (f, t).

Lemma applied_walk (l : list (gostring * setting_any)) (m : gmap gostring (Z * gostring)) :
  NoDup l.*1 →
  foldl (λ m '(k, f, t), <[k := (f, t)]> m) m (map setting_entry (map (uncurry settingToProtoSetting) l))
  = (setting_wire <$> list_to_map l) ∪ m.
Proof.
  revert m. induction l as [|[k v] l IH]; intros m Hd.
  { cbn [map foldl]. change (list_to_map []) with (∅ : settings_map). by rewrite fmap_empty, (left_id_L ∅ (∪)). }
  cbn [fmap list_fmap] in Hd. apply NoDup_cons in Hd as [Hk Hd].
  assert (setting_entry (settingToProtoSetting k v) = (k, (setting_wire v).1, (setting_wire v).2)) as Ev
    by (destruct v; done).
  cbn [map foldl uncurry list_to_map fst snd foldr]. rewrite Ev, IH by done.
  rewrite fmap_insert. apply map_eq. intros j. rewrite lookup_union. destruct (decide (j = k)) as [-> |Hne].
  - rewrite lookup_fmap, not_elem_of_list_to_map_1 by done. cbn. rewrite (left_id_L None (∪)).
    rewrite lookup_insert_eq, lookup_union, lookup_insert_eq. by destruct (setting_wire v), (m !! k).
  - by rewrite lookup_insert_ne, lookup_union, lookup_insert_ne by done.
Qed.

(** Whatever the order of the maps: the settings of the query, over those of the
    connection. *)
Lemma applied_settings (walk : settings_map → list (gostring * setting_any)) (a b : settings_map) :
  (∀ m, walk m ≡ₚ map_to_list m) →
  applied (map setting_entry (settings walk a b)) = setting_wire <$> (b ∪ a).
Proof.
  intros Hw. assert (∀ m : settings_map, NoDup (walk m).*1) as Hd by (intros m; rewrite Hw; apply NoDup_fst_map_to_list).
  assert (∀ m : settings_map, list_to_map (walk m) = m) as Hm
    by (intros m; rewrite (list_to_map_proper _ _ (Hd m) (Hw m)); apply list_to_map_to_list).
  unfold applied, settings. rewrite map_app, foldl_app, !applied_walk, !Hm by done.
  rewrite (right_id_L ∅ (∪)). by rewrite map_fmap_union.
Qed.

(** ** Options of an operation's own *)

(** Taken out of a context with the options [q]: newer than its heap, with the same
    tables and other fields. *)
Definition prepared (h0 : heap) (q : QueryOptions) (h : heap) (o : QueryOptions) (m : settings_map) (p : params_map) : Prop :=
  extends h0 h ∧ fresh_for h0 o ∧ options_ok h o ∧ is_Some (o_settings o)
  ∧ view h o = (m, p, (view h0 q).2)
  ∧ set_parameters None (set_settings None o) = set_parameters None (set_settings None q).

Lemma write_prepared h0 q h o m p k v :
  prepared h0 q h o m p →
  ∃ h', put_setting (o_settings o) k v h = Some h' ∧ prepared h0 q h' o (<[k := v]> m) p.
Proof.
  intros (Hx & Hf & Hok & Hs & Hv & Hr). pose proof Hs as [a Ha]. unfold put_setting. rewrite Ha. cbn [mbind option_bind].
  eexists. split; [done|]. set (h' := MkHeap _ _ _).
  assert (same_size h h') as Hsz by (split; [cbn; rewrite length_alter; lia|split; cbn; lia]).
  split.
  { destruct Hx as (X1 & X2 & X3). split; [|done]. cbn. apply prefix_alter; [done|]. by apply Hf. }
  split; [done|]. split; [by eapply options_size|]. split; [done|]. split; [|done].
  unfold view, read_settings, read_params, read_slice in Hv |- *. rewrite Ha in Hv |- *. cbn.
  destruct Hok as (O1 & _). destruct (lookup_lt_is_Some_2 (h_settings h) a (O1 a Ha)) as [x Hx'].
  rewrite list_lookup_alter_eq. rewrite Hx' in Hv |- *. cbn in Hv |- *. injection Hv as <- <- Ht. by rewrite Ht.
Qed.

Lemma params_prepared h0 q h o m p ps :
  prepared h0 q h o m p →
  prepared h0 q (new_params ps h).2 (set_parameters (Some (length (h_params h))) o) m ps.
Proof.
  intros (Hx & Hf & Hok & Hs & Hv & Hr). pose proof (extends_params h ps) as Hp.
  split; [by etrans|]. split.
  { split; [apply Hf|]. intros a [= <-]. destruct Hx as (_ & X2 & _). by apply prefix_length. }
  pose proof (options_extends _ _ _ Hp Hok) as (O1 & _ & O3). split.
  { split; [done|]. split; [|done]. intros i [= <-]. cbn. rewrite length_app. simpl. lia. }
  split; [done|]. split; [|done].
  pose proof (view_extends _ _ _ Hp Hok) as Hv'. rewrite Hv in Hv'. unfold view in Hv' |- *. cbn in Hv' |- *.
  injection Hv' as -> _ ->. by rewrite lookup_app_r, Nat.sub_diag.
Qed.

(** The handlers are those of the context. *)
Lemma on_prepared h0 q h o m p : prepared h0 q h o m p → on_process o = on_process q.
Proof.
  intros (_ & _ & _ & _ & _ & Hr). unfold on_process. destruct o, q. unfold set_parameters, set_settings in Hr.
  cbn in Hr |- *. injection Hr. intros. by subst.
Qed.

(** The options of a context; those of a plain one are the zero options. *)
Definition options_in (ctx : context) : QueryOptions := default zeroOptions (c_options ctx).

(** The copy that [queryOptions] makes, before the deadline is looked at. *)
Lemma copy_prepared ctx h0 h o :
  context_ok h0 ctx →
  match c_options ctx with
  | Some o => clone o h0
  | None => let '(a, h) := new_settings ∅ h0 in (h, set_settings (Some a) zeroOptions) end = (h, o) →
  prepared h0 (options_in ctx) h o (view h0 (options_in ctx)).1.1 (view h0 (options_in ctx)).1.2.
Proof.
  intros Hc. unfold options_in. destruct (c_options ctx) as [q|] eqn:Hq; cbn [from_option id].
  - intros E. destruct (Hc q Hq) as [Hqok Hst]. destruct (clone_spec _ _ _ _ E Hqok) as (Hext & Hf & Hok & Hv & Hs & Hrest).
    split; [done|]. split; [done|]. split; [done|]. split; [by apply Hs|]. split; [|done]. rewrite Hv. by destruct (view h0 q) as [[] ?].
  - intros [= <- <-]. split; [apply (extends_settings h0 ∅)|]. split; [split; [intros a [= <-]; lia|by intros a [=]]|].
    split; [split; [intros i [= <-]; cbn; rewrite length_app; simpl; lia|split; intros i [=]]|]. split; [done|]. split; [|done].
    unfold view. cbn. by rewrite lookup_app_r, Nat.sub_diag.
Qed.

Lemma take_prepared ctx q h0 :
  context_ok h0 ctx → options_in ctx = q →
  ∃ h o, queryOptions ctx h0 = Some (h, o)
    ∧ prepared h0 q h o (with_deadline ctx (view h0 q).1.1) (view h0 q).1.2.
Proof.
  intros Hc <-. pose proof (copy_prepared ctx h0) as Hcopy. unfold queryOptions.
  destruct (match c_options ctx with Some _ => _ | None => _ end) as [h o]. specialize (Hcopy h o Hc eq_refl) as P.
  unfold with_deadline. destruct (c_until ctx ≫= max_execution_time) as [v|]; [|by exists h, o].
  destruct (write_prepared _ _ _ _ _ _ (str "max_execution_time") v P) as (h' & E' & P'). exists h', o. by rewrite E'.
Qed.

(** ** From the call to the answer *)

Section delivered.
Context {CO : ColumnOps} {W : Wire} {L : WireLaws W} {SO : ScanOps CO} {cmp_err : Type}.
Variable now : Z.
Variable opt : conn_options.
Variable walk : settings_map → list (gostring * setting_any).
Variable walk_params : params_map → list (gostring * gostring).
Variable Compress : gostring → result cmp_err gostring.
Variable compressed_Decode : Z → gostring → option (result block_err (Block * gostring)).
Variable FormatFloat : spec_float → Z → gostring.
Variables osUser hostname localAddr goVersion goos : gostring.
Variable spans : nat → Span.
Variable tables : nat → Table.

Abbreviation send := (send_query opt walk walk_params Compress osUser hostname localAddr goVersion goos spans tables).
Abbreviation binds := (bind_arguments (cmp_err := cmp_err) FormatFloat).
Abbreviation loop := (process_loop (cmp_err := cmp_err) now opt compressed_Decode).

Inductive statement := Exec | AsyncInsert (wait : bool).

Definition run (x : statement) (ctx : context) (i : interruption) (query : gostring) (args : list barg) : op (cmp_err := cmp_err) unit :=
  match x with
  | Exec => exec now opt walk walk_params Compress compressed_Decode FormatFloat osUser hostname localAddr goVersion goos spans tables ctx i query args
  | AsyncInsert wait => asyncInsert now opt walk walk_params Compress compressed_Decode FormatFloat osUser hostname localAddr goVersion goos spans tables ctx i query wait args
  end.

Definition statement_settings (x : statement) (m : settings_map) : settings_map :=
  match x with
  | Exec => m
  | AsyncInsert wait =>
      <[str "wait_for_async_insert" := AnyValue (SInt (if wait then 1 else 0))]> (<[str "async_insert" := AnyValue (SInt 1)]> m)
  end.

(** The packet of a query with the options [q], the settings [m] and the parameters [p]. *)
Definition packet_of (q : QueryOptions) (m : settings_map) (p : params_map) (body : gostring) : Query :=
  MkQuery (o_queryID q) (ClientInfo_String goVersion goos (ClientInfo_Append (co_ClientInfo opt) (o_clientInfo q)))
    (MkVersion 2 48 0) DBMS_TCP_PROTOCOL_VERSION (spans (o_span q)) body (o_quotaKey q)
    (settings walk (co_Settings opt) m) (parametersToProtoParameters walk_params p) (co_compression opt) [] localAddr.

(** A connection that waits for a statement, at a revision with settings as text. *)
Definition ready (c : connect) : Prop :=
  closed c = false ∧ buffer c = Some [] ∧ writes c = [] ∧ DBMS_MIN_REVISION_WITH_SETTINGS_SERIALIZED_AS_STRINGS < revision c.

Definition named_blocks (ts : list nat) : list (gostring * Block) := map (λ i, (t_name (tables i), t_block (tables i))) ts.

(** The external tables as data packets, and the empty block behind them. *)
Definition tables_bytes (rev : Z) (ts : list nat) (tail : gostring) : Prop :=
  ∃ chs ch0, Forall2 (λ '(_, b) ch, Block_Encode b rev = Ok (concat ch)) (named_blocks ts) chs
    ∧ Block_Encode NewBlock rev = Ok (concat ch0)
    ∧ tail = flat_map (λ '(n, ch), data_packet (co_compression opt) Compress n ch) (zip (named_blocks ts).*1 chs)
             ++ data_packet (co_compression opt) Compress [] ch0.

(** What the server reads off the wire behind what was there: the query, and its tables. *)
Definition sent (c c' : connect) (q : Query) (ts : list nat) : Prop :=
  ∃ bytes tail, wire c' = wire c ++ PutByte ClientQuery ++ bytes ++ tail
    ∧ read_query (revision c) (bytes ++ tail) = Some (query_view osUser hostname q (revision c), tail)
    ∧ tables_bytes (revision c) ts tail.

Hypothesis compresses : ∀ x, co_compression opt = true → is_ok (Compress x) = true.

Lemma packet_prepared h0 q h o m p body :
  prepared h0 q h o m p →
  query_packet opt walk walk_params localAddr goVersion goos spans h o body = packet_of q m p body
  ∧ external_tables tables h o = named_blocks (view h0 q).2.
Proof.
  intros (_ & _ & _ & _ & Hv & Hr). unfold view in Hv at 1. injection Hv as Hm Hp Ht.
  unfold query_packet, packet_of, external_tables. rewrite Hm, Hp, Ht. split; [|done].
  destruct o, q. unfold set_parameters, set_settings in Hr. cbn in Hr. injection Hr. intros. by subst.
Qed.

Lemma send_query_ok h0 q o m p body s :
  prepared h0 q (s_heap s) o m p → ready (s_conn s) →
  query_ok osUser hostname (packet_of q m p body) →
  Forall (λ '(_, b), is_ok (Block_Encode b (revision (s_conn s))) = true) (named_blocks (view h0 q).2) →
  ∃ c', send body o s = Some (MkSession c' (s_dl s) (s_heap s) (s_seen s), Ok ())
    ∧ sent (s_conn s) c' (packet_of q m p body) (view h0 q).2 ∧ buffer c' = Some [] ∧ same_session (s_conn s) c'.
Proof.
  intros P (Hc & Hb & Hw & Hrev) Hq Hx. destruct (packet_prepared _ _ _ _ _ _ body P) as [Hp Ht].
  destruct (Query_reads osUser hostname (packet_of q m p body) (revision (s_conn s)) [] Hrev Hq) as (bytes & Eb & _).
  destruct (sendQuery_wire _ (co_maxCompressionBuffer opt) Compress compresses osUser hostname (packet_of q m p body) _ (s_conn s) bytes Hc Hb Hw Eb Hx)
    as (c' & chs & ch0 & E & Hf & H0 & Hb' & Hw' & Hs).
  exists c'. split.
  { unfold send_query, mbind, op_bind, peek. cbn. rewrite Hp, Ht. unfold on_conn. rewrite E. done. }
  split; [|done]. exists bytes. eexists. split; [exact Hw'|]. split; [|by exists chs, ch0].
  destruct (Query_reads osUser hostname (packet_of q m p body) (revision (s_conn s))
    (flat_map (λ '(n, ch), data_packet (co_compression opt) Compress n ch) (zip (named_blocks (view h0 q).2).*1 chs)
             ++ data_packet (co_compression opt) Compress [] ch0) Hrev Hq) as (bytes' & Eb' & E'). congruence.
Qed.

Lemma bind_ok h0 q o m p ps query args body s :
  prepared h0 q (s_heap s) o m p →
  bindQueryOrAppendParameters FormatFloat (DBMS_MIN_PROTOCOL_VERSION_WITH_PARAMETERS <=? revision (s_conn s)) p query
    (server_zone (s_conn s)) args = Some (ps, Ok body) →
  ∃ h o', binds o query args s = Some (MkSession (s_conn s) (s_dl s) h (s_seen s), Ok (o', body))
    ∧ prepared h0 q h o' m ps.
Proof.
  intros P E. pose proof P as (_ & _ & _ & _ & Hv & _). unfold view in Hv at 1. injection Hv as _ Hp _.
  unfold bind_arguments. rewrite Hp, E. cbn [mbind option_bind]. case_decide as Hps.
  - subst. by exists (s_heap s), o.
  - eexists _, _. split; [done|]. exact (params_prepared _ _ _ _ _ _ ps P).
Qed.

(** The deadlines after a statement. *)
Definition cleared (ctx : context) (dl : deadlines) : deadlines :=
  MkDeadlines None (match c_until ctx with Some _ => None | None => dl_write dl end).

Definition outcome_of (t : stream_end) : result (op_err (cmp_err := cmp_err)) unit :=
  match t with EndOfStream => Ok () | Raised e chain => Err (OEProcess (PEException (received e chain))) end.

Lemma loop_ok ctx on packets t rest s :
  closed (s_conn s) = false →
  Forall (packet_ok compressed_Decode (reading_side opt (s_conn s)) on) packets → end_ok t →
  loop ctx on (flat_map (put_packet (reading_side opt (s_conn s))) packets ++ put_end t ++ rest) [] s
  = Some (MkSession (set_incoming (s_conn s) (match t with EndOfStream => rest | _ => [] end)) (cleared ctx (s_dl s))
            (s_heap s) (s_seen s ++ flat_map (callbacks_of on) packets), outcome_of t).
Proof.
  intros Hc Hp Ht. unfold process_loop, startReadWriteTimeout, clearReadWriteTimeout, deadline_of, cleared.
  pose proof (packets_length (reading_side opt (s_conn s)) Hc packets) as Hlen.
  destruct (c_until ctx) as [u|].
  all: unfold mbind, op_bind, option_bind, SetReadDeadline, SetDeadline; cbn -[processImpl put_end].
  all: rewrite processImpl_put by (done || (rewrite !length_app; lia)).
  all: destruct t; cbn [end_result outcome_of]; by rewrite ?app_nil_r.
Qed.

Lemma bind_none p query zone :
  ∀ support, bindQueryOrAppendParameters FormatFloat support p query zone [] = Some (p, Ok query).
Proof. intros support. unfold bindQueryOrAppendParameters. destruct (bool_decide _); [done|]. by rewrite andb_false_r. Qed.

(** Sending and reading with options of one's own. *)
Lemma send_and_process_ok ctx h0 q o m p body packets t rest s :
  prepared h0 q (s_heap s) o m p → ready (s_conn s) →
  query_ok osUser hostname (packet_of q m p body) →
  Forall (λ '(_, b), is_ok (Block_Encode b (revision (s_conn s))) = true) (named_blocks (view h0 q).2) →
  Forall (packet_ok compressed_Decode (reading_side opt (s_conn s)) (on_process q)) packets → end_ok t →
  incoming (s_conn s) = flat_map (put_packet (reading_side opt (s_conn s))) packets ++ put_end t ++ rest →
  ∃ c', send_and_process now opt walk walk_params Compress compressed_Decode osUser hostname localAddr goVersion goos spans
          tables ctx Lasts body o s
    = Some (MkSession c' (cleared ctx (s_dl s)) (s_heap s) (s_seen s ++ flat_map (callbacks_of (on_process q)) packets), outcome_of t)
    ∧ sent (s_conn s) c' (packet_of q m p body) (view h0 q).2 ∧ buffer c' = Some []
    ∧ incoming c' = match t with EndOfStream => rest | _ => [] end.
Proof.
  intros P Hr Hq Hx Hp Ht Hi. destruct (send_query_ok _ _ _ _ _ _ _ P Hr Hq Hx) as (c' & E & Hsent & Hb & Hs).
  pose proof Hs as (Hc & _ & Hrev & _ & _ & Hinc). pose proof Hr as (Hc0 & _).
  pose proof (on_prepared _ _ _ _ _ _ P) as Hon.
  assert (reading_side opt c' = reading_side opt (s_conn s)) as Hrc by (unfold reading_side; by rewrite Hc, Hrev).
  exists (set_incoming c' (match t with EndOfStream => rest | _ => [] end)). split; [|done].
  unfold send_and_process. unfold mbind, op_bind. rewrite E, Hon. unfold process. cbn [s_conn]. rewrite Hinc, Hi, <- Hrc.
  set (s1 := MkSession c' _ _ _).
  change c' with (s_conn s1). apply (loop_ok ctx (on_process q) packets t rest s1); [|by cbn [s1 s_conn]; rewrite Hrc|done].
  cbn. by rewrite Hc.
Qed.

(** Up to the sending, both operations are the binding with options of their own. *)
Definition runs_as (x : statement) ctx q query args s body ps : Prop :=
  ∃ h' o' dl, prepared (s_heap s) q h' o' (statement_settings x (with_deadline ctx (view (s_heap s) q).1.1)) ps ∧
    ∀ s1 r, send_and_process now opt walk walk_params Compress compressed_Decode osUser hostname localAddr goVersion goos spans
      tables ctx Lasts body o' (MkSession (s_conn s) dl h' (s_seen s)) = Some (s1, r) →
    s_dl s1 = cleared ctx dl →
    run x ctx Lasts query args s = Some (MkSession (s_conn s1) (cleared ctx (s_dl s)) (s_heap s1) (s_seen s1), r).

(** The deferred calls of [exec] clear the deadlines it has set. *)
Lemma exec_prepared ctx q query args s body ps :
  context_ok (s_heap s) ctx → options_in ctx = q →
  bindQueryOrAppendParameters FormatFloat (DBMS_MIN_PROTOCOL_VERSION_WITH_PARAMETERS <=? revision (s_conn s))
    (view (s_heap s) q).1.2 query (server_zone (s_conn s)) args = Some (ps, Ok body) →
  runs_as Exec ctx q query args s body ps.
Proof.
  intros Hctx Hq Hbind. destruct (take_prepared ctx q (s_heap s) Hctx Hq) as (h & o & E & P).
  destruct (bind_ok _ _ _ _ _ _ _ _ _ (MkSession (s_conn s) (s_dl s) h (s_seen s)) P Hbind) as (h' & o' & Eb & P').
  exists h', o', (match deadline_of now ctx with
                  | Some d => MkDeadlines (Some d) (Some d)
                  | None => MkDeadlines (Some (now + co_readTimeout opt)) (dl_write (s_dl s)) end).
  split; [done|]. intros s1 r Es Hdl. cbn [run]. unfold exec. unfold mbind at 1, op_bind at 1, take_options at 1.
  rewrite E. cbn [mbind option_bind]. unfold mbind at 1, op_bind at 1. rewrite Eb.
  unfold mbind at 1, op_bind at 1. cbn [SetReadDeadline]. unfold deadline_of, cleared in *.
  destruct (c_until ctx) as [u|]; cbn [mbind option_bind] in Es, Hdl |- *; unfold finally, mbind, op_bind, SetDeadline;
    cbn [s_conn s_dl s_heap s_seen dl_write]; rewrite Es; cbn; [done|by rewrite Hdl].
Qed.

Lemma async_prepared wait ctx q query args s body ps :
  context_ok (s_heap s) ctx → options_in ctx = q →
  bindQueryOrAppendParameters FormatFloat (DBMS_MIN_PROTOCOL_VERSION_WITH_PARAMETERS <=? revision (s_conn s))
    (view (s_heap s) q).1.2 query (server_zone (s_conn s)) args = Some (ps, Ok body) →
  runs_as (AsyncInsert wait) ctx q query args s body ps.
Proof.
  intros Hctx Hq Hbind. destruct (take_prepared ctx q (s_heap s) Hctx Hq) as (h & o & E & P).
  destruct (write_prepared _ _ _ _ _ _ (str "async_insert") (AnyValue (SInt 1)) P) as (h1 & E1 & P1).
  destruct (write_prepared _ _ _ _ _ _ (str "wait_for_async_insert") (AnyValue (SInt 0)) P1) as (h2 & E2 & P2).
  assert (∃ h3, (if wait then write_setting o (str "wait_for_async_insert") 1 else mret ())
      (MkSession (CO := CO) (s_conn s) (s_dl s) h2 (s_seen s))
      = Some (MkSession (s_conn s) (s_dl s) h3 (s_seen s), Ok (E := op_err (cmp_err := cmp_err)) ())
    ∧ prepared (s_heap s) q h3 o (statement_settings (AsyncInsert wait) (with_deadline ctx (view (s_heap s) q).1.1))
        (view (s_heap s) q).1.2) as (h3 & E3 & P3).
  { destruct wait; [|by exists h2].
    destruct (write_prepared _ _ _ _ _ _ (str "wait_for_async_insert") (AnyValue (SInt 1)) P2) as (h3 & E3 & P3).
    exists h3. split; [unfold write_setting; cbn [s_heap]; by rewrite E3|]. rewrite insert_insert_eq in P3. done. }
  assert (∃ h' o', (if bool_decide (args = []) then mret (o, query) else binds o query args)
      (MkSession (s_conn s) (s_dl s) h3 (s_seen s)) = Some (MkSession (s_conn s) (s_dl s) h' (s_seen s), Ok (o', body))
    ∧ prepared (s_heap s) q h' o' (statement_settings (AsyncInsert wait) (with_deadline ctx (view (s_heap s) q).1.1)) ps)
    as (h' & o' & Eb & P').
  { case_bool_decide as Ha; [|by apply (bind_ok _ _ _ _ _ _ _ _ _ (MkSession (s_conn s) (s_dl s) h3 (s_seen s)) P3)].
    subst args. rewrite bind_none in Hbind. simplify_eq. by exists h3, o. }
  exists h', o', (s_dl s). split; [done|]. intros s1 r Es Hdl. cbn [run]. unfold asyncInsert.
  unfold mbind at 1, op_bind at 1, take_options at 1. rewrite E. cbn [mbind option_bind].
  unfold mbind at 1, op_bind at 1, write_setting at 1. cbn [s_heap]. rewrite E1. cbn [mbind option_bind].
  unfold mbind at 1, op_bind at 1, write_setting at 1. cbn [s_heap s_conn s_dl s_seen]. rewrite E2. cbn [mbind option_bind].
  unfold mbind at 1, op_bind at 1. cbn [s_conn s_dl s_seen]. rewrite E3. unfold mbind at 1, op_bind at 1. rewrite Eb.
  rewrite Es, <- Hdl. by destruct s1.
Qed.

Hypothesis walk_ok : ∀ m, walk m ≡ₚ map_to_list m.

(** C7: A statement goes through. Take a connection that is open, idle, with an empty buffer
    and a revision above 54429, a context with or without query options that lasts to the
    end of the call, arguments that can be bound, a packet of Go's sizes ([query_ok]) and
    external tables that can be encoded, and an answer of well-formed packets. Then [exec]
    and [asyncInsert] put one query packet on the wire, from which the server reads the
    bound body, the parameters and the settings of the query over those of the connection
    (for [asyncInsert] with its two settings over all of them), and behind it each table and
    the empty block as data packets in their encoded form; the answer is read to its end and
    nothing behind it, the callbacks see its packets in order, an exception is the error;
    the deadlines of the socket are cleared, the buffer is empty, and no context has
    changed. *)
Theorem statement_delivered x ctx q query args s body ps packets t rest :
  let c := s_conn s in
  let m := statement_settings x (with_deadline ctx (view (s_heap s) q).1.1) in
  let rc := reading_side opt c in
  context_ok (s_heap s) ctx → options_in ctx = q → ready c →
  bindQueryOrAppendParameters FormatFloat (DBMS_MIN_PROTOCOL_VERSION_WITH_PARAMETERS <=? revision c)
    (view (s_heap s) q).1.2 query (server_zone c) args = Some (ps, Ok body) →
  query_ok osUser hostname (packet_of q m ps body) →
  Forall (λ '(_, b), is_ok (Block_Encode b (revision c)) = true) (named_blocks (view (s_heap s) q).2) →
  Forall (packet_ok compressed_Decode rc (on_process q)) packets → end_ok t →
  incoming c = flat_map (put_packet rc) packets ++ put_end t ++ rest →
  ∃ s', run x ctx Lasts query args s = Some (s', outcome_of t)
    ∧ sent c (s_conn s') (packet_of q m ps body) (view (s_heap s) q).2
    ∧ applied (map setting_entry (Settings (packet_of q m ps body))) = setting_wire <$> (m ∪ co_Settings opt)
    ∧ s_seen s' = s_seen s ++ flat_map (callbacks_of (on_process q)) packets
    ∧ incoming (s_conn s') = match t with EndOfStream => rest | _ => [] end
    ∧ buffer (s_conn s') = Some [] ∧ s_dl s' = cleared ctx (s_dl s)
    ∧ ∀ d, context_ok (s_heap s) d → view_of (s_heap s') d = view_of (s_heap s) d.
Proof.
  intros c m rc Hctx Hq Hr Hbind Hok Hx Hp Ht Hi.
  assert (runs_as x ctx q query args s body ps) as (h' & o' & dl & P' & Hrun)
    by (destruct x; [by apply exec_prepared|by apply async_prepared]).
  destruct (send_and_process_ok ctx (s_heap s) q o' m ps body packets t rest (MkSession c dl h' (s_seen s)) P' Hr Hok Hx Hp Ht Hi)
    as (c' & Es & Hsent & Hb & Hinc).
  eexists. split; [exact (Hrun _ _ Es eq_refl)|]. cbn.
  split; [done|]. split; [by apply applied_settings|]. split; [done|]. split; [done|]. split; [done|].
  split; [done|]. intros d Hd. unfold view_of. destruct (c_options d) as [od|] eqn:Ed; [|done]. cbn. f_equal.
  apply view_extends; [apply P'|]. by apply Hd.
Qed.

(** ** Whatever the outcome *)

(** Steps that leave the deadlines alone, never give the error of the context, and when
    they succeed have neither read nor closed the connection. *)
Definition quiet {A} (m : op (cmp_err := cmp_err) A) : Prop :=
  ∀ s s' r, m s = Some (s', r) →
    s_dl s' = s_dl s ∧ r ≠ Err OEContext ∧ (is_ok r = true → reads_same (s_conn s) (s_conn s')).

Lemma quiet_ret {A} (a : A) : quiet (mret a).
Proof. intros s s' r [= <- <-]. done. Qed.

Lemma quiet_take ctx : quiet (take_options ctx).
Proof. intros s s' r. unfold take_options. destruct (queryOptions ctx (s_heap s)) as [[h o]|]; [|done]. by intros [= <- <-]. Qed.

Lemma quiet_write o k v : quiet (write_setting o k v).
Proof. intros s s' r. unfold write_setting. destruct (put_setting _ _ _ _); [|done]. by intros [= <- <-]. Qed.

Lemma quiet_binds o query args : quiet (binds o query args).
Proof.
  intros s s' r. unfold bind_arguments. destruct (bindQueryOrAppendParameters _ _ _ _ _ _) as [[ps res]|]; [|done].
  cbn [mbind option_bind]. case_decide; intros [= <- <-]; (split; [done|split; [by destruct res|done]]).
Qed.

Lemma quiet_send body o : quiet (send body o).
Proof.
  intros s s' r. unfold send_query, mbind, op_bind, peek, on_conn. destruct (sendQuery _ _ _ _ _ _ _ _) as [[c res]|] eqn:E; [|done].
  cbn. intros [= <- <-]. split; [done|]. split; [by destruct res|]. intros Hr. apply (sendQuery_sends _ _ _ _ _ _ _ _ _ _ E).
  by destruct res.
Qed.

Definition free : deadlines := MkDeadlines None None.

(** The bytes the goroutine has read when the [select] takes its result. *)
Definition read_from (i : interruption) (answer : gostring) : option gostring :=
  match i with
  | Lasts => Some answer
  | DoneBefore | DoneDuring _ true => None
  | DoneDuring n false => Some (take n answer)
  end.

(** The end of the stream is in what was read. *)
Definition answered (i : interruption) (c : connect) : Prop :=
  ∃ arrived on cbs rest, read_from i (incoming c) = Some arrived
    ∧ processImpl compressed_Decode (reading_side opt c) (S (length arrived)) on arrived = Some (cbs, Ok rest).

(** What a step that may read the answer leaves behind. *)
Definition settles {A} (ctx : context) (i : interruption) (m : op (cmp_err := cmp_err) A) : Prop :=
  ∀ s s' r, m s = Some (s', r) →
    (c_until ctx = None → dl_write (s_dl s') = dl_write (s_dl s)) ∧ (s_dl s = free → s_dl s' = free)
    ∧ (is_ok r = true → answered i (s_conn s)) ∧ (r = Err OEContext → closed (s_conn s') = true).

Lemma loop_settles ctx on arrived later s s' r :
  loop ctx on arrived later s = Some (s', r) →
  s_dl s' = cleared ctx (s_dl s) ∧ r ≠ Err OEContext
  ∧ (is_ok r = true → ∃ cbs rest,
       processImpl compressed_Decode (reading_side opt (s_conn s)) (S (length arrived)) on arrived = Some (cbs, Ok rest)).
Proof.
  unfold process_loop, startReadWriteTimeout, clearReadWriteTimeout, deadline_of, cleared, mbind, op_bind, option_bind.
  destruct (c_until ctx); cbn -[processImpl]; destruct (processImpl _ _ _ _ _) as [[cbs res]|]; [|done| |done];
    intros [= <- <-]; (split; [done|]; split; [by destruct res|]); intros Hr; destruct res; [|done| |done]; eauto.
Qed.

Lemma abandon_closes s s' (r : result _ unit) :
  abandon (cmp_err := cmp_err) s = Some (s', r) → s_dl s' = s_dl s ∧ r = Err OEContext ∧ closed (s_conn s') = true.
Proof.
  unfold abandon, on_conn, cancel. destruct ((_ ← put _; flush) (s_conn s)) as [[c w]|]; [|done]. unfold connect_close.
  destruct (closed c) eqn:Ec; cbn; intros [= <- <-]; done.
Qed.

Lemma cleared_settles ctx dl : (c_until ctx = None → dl_write (cleared ctx dl) = dl_write dl) ∧ (dl = free → cleared ctx dl = free).
Proof. unfold cleared. split; [by intros ->|]. intros ->. by destruct (c_until ctx). Qed.

Lemma loop_settled ctx i on arrived later s s' r :
  read_from i (incoming (s_conn s)) = Some arrived → loop ctx on arrived later s = Some (s', r) →
  (c_until ctx = None → dl_write (s_dl s') = dl_write (s_dl s)) ∧ (s_dl s = free → s_dl s' = free)
  ∧ (is_ok r = true → answered i (s_conn s)) ∧ (r = Err OEContext → closed (s_conn s') = true).
Proof.
  intros Hi E. destruct (loop_settles _ _ _ _ _ _ _ E) as (-> & Hr & Hok). destruct (cleared_settles ctx (s_dl s)).
  split; [done|]. split; [done|]. split; [|done]. intros Ho. destruct (Hok Ho) as (cbs & rest & Ep). by exists arrived, on, cbs, rest.
Qed.

Lemma process_settles ctx i on : settles ctx i (process now opt compressed_Decode ctx i on).
Proof.
  intros s s' r. destruct i as [| |n []]; cbn [process]; [by apply loop_settled| | |by apply loop_settled].
  - intros E. destruct (abandon_closes _ _ _ E) as (-> & -> & Hc). done.
  - destruct (loop ctx on _ _ s) as [[s1 r1]|] eqn:E1; [|done]. cbn [mbind option_bind]. intros E.
    destruct (loop_settles _ _ _ _ _ _ _ E1) as [Hd _]. destruct (abandon_closes _ _ _ E) as (-> & -> & Hc).
    rewrite Hd. destruct (cleared_settles ctx (s_dl s)). done.
Qed.

Lemma answered_same i c c' : reads_same c c' → answered i c' → answered i c.
Proof.
  intros (Hi & Hc & Hr) (arrived & on & cbs & rest & Ha & E). rewrite Hi in Ha. exists arrived, on, cbs, rest. split; [done|].
  rewrite <- E. unfold reading_side. by rewrite Hc, Hr.
Qed.

Lemma settles_after {A B} ctx i (m : op A) (f : A → op B) : quiet m → (∀ a, settles ctx i (f a)) → settles ctx i (a ← m; f a).
Proof.
  intros Hm Hf s s' r. unfold mbind, op_bind. destruct (m s) as [[s1 [a|e]]|] eqn:E; [| |done].
  - intros E'. destruct (Hm _ _ _ E) as (<- & _ & Hs). destruct (Hf a _ _ _ E') as (H1 & H2 & H3 & H4).
    split; [done|]. split; [done|]. split; [|done]. intros Ho. eapply answered_same; [by apply Hs|by apply H3].
  - intros [= <- <-]. destruct (Hm _ _ _ E) as (-> & He & _). split; [done|]. split; [done|]. split; [done|]. congruence.
Qed.

Lemma exec_settles ctx i query args :
  settles ctx i (exec now opt walk walk_params Compress compressed_Decode FormatFloat osUser hostname localAddr goVersion goos
    spans tables ctx i query args).
Proof.
  apply settles_after; [apply quiet_take|]. intros o. apply settles_after; [apply quiet_binds|]. intros [o' body].
  assert (settles ctx i (send_and_process now opt walk walk_params Compress compressed_Decode osUser hostname localAddr goVersion
    goos spans tables ctx i body o')) as Hs by (apply settles_after; [apply quiet_send|intros; apply process_settles]).
  intros s s' r. unfold mbind, op_bind. cbn [SetReadDeadline]. unfold finally, SetDeadline, deadline_of.
  destruct (c_until ctx) as [u|] eqn:Eu; cbn [mbind option_bind].
  - destruct (send_and_process _ _ _ _ _ _ _ _ _ _ _ _ _ _ _ _ _ _) as [[s1 r1]|] eqn:E; [|done]. cbn. intros [= <- <-].
    destruct (Hs _ _ _ E) as (_ & _ & H3 & H4). done.
  - destruct (send_and_process _ _ _ _ _ _ _ _ _ _ _ _ _ _ _ _ _ _) as [[s1 r1]|] eqn:E; [|done]. cbn. intros [= <- <-].
    destruct (Hs _ _ _ E) as (H1 & _ & H3 & H4). specialize (H1 Eu). cbn in H1 |- *.
    split; [done|]. split; [|done]. intros Hf. unfold free. by rewrite H1, Hf.
Qed.

Lemma async_settles ctx i query wait args :
  settles ctx i (asyncInsert now opt walk walk_params Compress compressed_Decode FormatFloat osUser hostname localAddr goVersion
    goos spans tables ctx i query wait args).
Proof.
  apply settles_after; [apply quiet_take|]. intros o. do 2 (apply settles_after; [apply quiet_write|]; intros _).
  apply settles_after; [destruct wait; [apply quiet_write|apply quiet_ret]|]. intros _.
  apply settles_after; [case_bool_decide; [apply quiet_ret|apply quiet_binds]|]. intros [o' body].
  apply settles_after; [apply quiet_send|]. intros _. apply process_settles.
Qed.

(** C34: whatever happens to a statement (arguments that cannot be bound, a write that
    fails, any answer, a context that ends before the reading or in the middle of it), no
    deadline is left on the socket. It succeeds only when the end of the stream was in what
    had been read: never when the context was done before the reading or was taken by the
    final [select], and when the context ended during the reading only if the answer was
    complete by then. After the error of the context the connection is closed: what is left
    of the answer cannot be taken for that of a later statement. *)
Theorem statement_aftermath x ctx i query args s s' r :
  run x ctx i query args s = Some (s', r) → s_dl s = free →
  s_dl s' = free ∧ (is_ok r = true → answered i (s_conn s)) ∧ (r = Err OEContext → closed (s_conn s') = true).
Proof.
  intros E Hf. assert (settles ctx i (run x ctx i query args)) as Hs
    by (destruct x; [apply exec_settles|apply async_settles]).
  destruct (Hs _ _ _ E) as (_ & H2 & H3 & H4). split; [by apply H2|done].
Qed.

(** A query reaches the server like the other statements; the caller gets the first block
    and what the goroutine has put on the channels, and the connection is given back once,
    with the error of the stream. *)
Theorem query_sent ctx q query args s body ps ps0 bytes init packets t rest :
  let c := s_conn s in
  let m := with_deadline ctx (view (s_heap s) q).1.1 in
  let rc := reading_side opt c in
  let events := on_profileEvents (on_process q) in
  let es := match t with EndOfStream => [] | Raised e chain => [PEException (received e chain)] end in
  context_ok (s_heap s) ctx → options_in ctx = q → ready c →
  bindQueryOrAppendParameters FormatFloat (DBMS_MIN_PROTOCOL_VERSION_WITH_PARAMETERS <=? revision c)
    (view (s_heap s) q).1.2 query (server_zone c) args = Some (ps, Ok body) →
  query_ok osUser hostname (packet_of q m ps body) →
  Forall (λ '(_, b), is_ok (Block_Encode b (revision c)) = true) (named_blocks (view (s_heap s) q).2) →
  Forall (packet_ok compressed_Decode rc (MkOn false events)) ps0 → Forall (λ p, packet_code p ≠ ServerData) ps0 →
  reads_block compressed_Decode rc true bytes init →
  Forall (packet_ok compressed_Decode rc (MkOn true events)) packets → end_ok t →
  incoming c = put_answer rc ps0 bytes init packets t ++ rest →
  ∃ s' rs, connect_query opt walk walk_params Compress compressed_Decode FormatFloat osUser hostname localAddr goVersion goos spans tables
      ctx query args s = Some (s', [OEProcess <$> head es], Ok rs)
    ∧ sent c (s_conn s') (packet_of q m ps body) (view (s_heap s) q).2
    ∧ r_block rs = Some init ∧ r_errors rs = Some es
    ∧ r_stream rs = Some (streamed (flat_map (callbacks_of (MkOn true events)) packets))
    ∧ s_dl s' = s_dl s.
Proof.
  intros c m rc events es Hctx Hq Hr Hbind Hok Hx H0 Hd Hb Hp Ht Hi.
  destruct (take_prepared ctx q (s_heap s) Hctx Hq) as (h & o & E & P).
  destruct (bind_ok _ _ _ _ _ _ _ _ _ (MkSession (s_conn s) (s_dl s) h (s_seen s)) P Hbind) as (h' & o' & Eb & P').
  destruct (send_query_ok _ _ _ _ _ _ (MkSession (s_conn s) (s_dl s) h' (s_seen s)) P' Hr Hok Hx) as (c' & Es & Hsent & Hbuf & Hs).
  cbn [s_conn s_dl s_heap s_seen] in Eb, Es, Hs. pose proof Hs as (Hc & _ & Hrev & _ & _ & Hinc).
  pose proof (on_prepared _ _ _ _ _ _ P) as Hon.
  assert (reading_side opt c' = rc) as Hrc by (unfold reading_side; cbn in Hc, Hrev; by rewrite Hc, Hrev).
  unfold connect_query. unfold mbind at 1, op_bind at 1, take_options at 1. rewrite E. cbn [mbind option_bind].
  unfold mbind at 1, op_bind at 1. rewrite Eb. unfold mbind at 1, op_bind at 1. rewrite Es. cbn [mret op_ret s_conn].
  rewrite Hon, Hrc, Hinc. fold c. rewrite Hi.
  pose proof Hr as (Hopen & _).
  fold events. rewrite (query_rows_put compressed_Decode rc Hopen events ps0 bytes init packets t rest H0 Hd Hb Hp Ht).
  cbn [mbind option_bind]. eexists _, _. split; [done|]. done.
Qed.
End delivered.

(** ** Dialling *)

Section dial.
Context {CO : ColumnOps} {W : Wire} {cmp_err : Type}.

Inductive dial_err :=
| DESocket | DECompression | DEJWT | DESession (e : transport_err (CO := CO) (cmp_err := cmp_err)).

(** The methods of the native protocol. *)
Definition native_method (c : option (CompressionMethod * Z)) : option CompressionMethod :=
  match c with
  | None => Some CompressionNone
  | Some (m, _) =>
      match m with
      | CompressionLZ4 | CompressionLZ4HC | CompressionZSTD | CompressionNone => Some m
      | _ => None
      end
  end.

Definition jwtAuthMarker : gostring := str " JWT AUTHENTICATION ".

(** The user and the password: with a token source, the marker and the token. *)
Definition dial_auth (o : Options) (getJWT : option (option gostring)) : option (gostring * gostring) :=
  match getJWT with
  | None => Some (Username o, Password o)
  | Some token => jwt ← token; Some (jwtAuthMarker, jwt)
  end.

(** [dial]: the socket that was opened, as it is left, and the error. *)
Definition dial (Load : gostring → bool) (hello : ClientHandshake) (o : Options) (getJWT : option (option gostring))
    (socket : option connect) : option (option connect * result dial_err unit) :=
  match socket with
  | None => Some (None, Err DESocket)
  | Some c =>
      match native_method (opt_Compression o), dial_auth o getJWT with
      | None, _ => Some (Some c, Err DECompression)
      | _, None => Some (Some c, Err DEJWT)
      | Some _, Some (user, password) =>
          '(c, r) ← dial_session Load hello (Database o) user password c; Some (Some c, map_err DESession r)
      end
  end.

(** Every error behind the opening of the socket leaves it open, and the caller does not
    get the connection it would close it with. *)
Theorem dial_never_closes Load hello o getJWT c c' e :
  dial Load hello o getJWT (Some c) = Some (c', Err e) →
  ∃ d, c' = Some d ∧ socket_closes d = socket_closes c.
Proof.
  unfold dial. destruct (native_method _); [|intros [= <- <-]; by eexists].
  destruct (dial_auth o getJWT) as [[user pw]|]; [|intros [= <- <-]; by eexists].
  destruct (dial_session Load hello (Database o) user pw c) as [[d r]|] eqn:E; [|done].
  cbn [mbind option_bind]. intros [= <- Hr]. exists d. split; [done|]. destruct r as [[]|e']; [done|]. revert E.
  unfold dial_session. unfold mbind at 1, io_bind at 1.
  destruct (handshake Load hello (Database o) user pw c) as [[c1 [[]|e1]]|] eqn:E1; [| |done].
  2:{ intros [= <- <-]. by apply handshake_socket in E1 as [-> _]. }
  apply handshake_socket in E1 as [<- _]. unfold mbind at 1, io_bind at 1, gets.
  destruct (_ <=? _); [|done]. unfold sendAddendum, gets. unfold mbind at 1, io_bind at 1, mbind, io_bind.
  destruct (_ <=? _); cbn -[flush].
  - unfold put. destruct (buffer c1); [|done]. cbn -[flush]. intros Ef. by apply flush_socket in Ef as [-> _].
  - intros Ef. by apply flush_socket in Ef as [-> _].
Qed.
End dial.

(** ** Concrete runs *)

Import DemoScan.

(** An asynchronous insert with a setting of the connection, a context with a deadline and
    a setting of its own; something is behind the answer. *)
Definition demo_opt : conn_options :=
  MkConnOptions {[ str "max_threads" := AnyValue (SInt 8) ]} noInfo 300 false 1000.
Definition demo_session : session (CO := demo_columns) :=
  MkSession (fresh [] (PutByte ServerEndOfStream ++ str "x")) free demo_heap [].
Definition demo_float (f : spec_float) (bits : Z) : gostring := [].
Definition demo_span : nat → Span := λ _, MkSpan false (replicate 16 x00) (replicate 8 x00) [] x00.
Definition demo_tables : nat → Table (CO := demo_columns) := λ _, MkTable (str "t") demo_block.

Definition demo_run (x : statement) (i : interruption) :=
  run (CO := demo_columns) 0 demo_opt map_to_list map_to_list len_frame noCompression demo_float (str "root") (str "host")
    (str "addr") (str "1.24") (str "linux") demo_span demo_tables x demo_context i (str "INSERT") [] demo_session.

Lemma statement_delivered_witness :
  ∃ s', demo_run (AsyncInsert true) Lasts = Some (s', Ok ()) ∧ incoming (s_conn s') = str "x" ∧ s_dl s' = free.
Proof.
  destruct (statement_delivered (CO := demo_columns) 0 demo_opt map_to_list map_to_list len_frame noCompression demo_float
    (str "root") (str "host") (str "addr") (str "1.24") (str "linux") demo_span demo_tables (λ _ _, eq_refl) (λ _, reflexivity _)
    (AsyncInsert true) demo_context (set_queryID (str "q") (set_settings (Some 0%nat) zeroOptions)) (str "INSERT") [] demo_session
    (str "INSERT") ∅ [] EndOfStream (str "x")) as (s' & E & _ & _ & _ & Hi & _ & Hd & _).
  - intros o [= <-]. split; [|done]. split; [intros i [= <-]; simpl; lia|]. split; intros i; done.
  - reflexivity.
  - done.
  - reflexivity.
  - split; [repeat (constructor; [done|]); constructor|repeat (constructor; [done|]); constructor|done| |constructor].
    cbn [Settings packet_of]. match goal with |- Forall _ ?l => let l' := eval vm_compute in l in change l with l' end.
    repeat (constructor; [split; [split; [discriminate|repeat split; done]|discriminate]|]). constructor.
  - constructor.
  - constructor.
  - exact I.
  - reflexivity.
  - exists s'. split; [exact E|]. split; [exact Hi|]. rewrite Hd. reflexivity.
Defined.

Lemma statement_aftermath_witness :
  ∃ s', demo_run Exec (DoneDuring 0 true) = Some (s', Err OEContext) ∧ s_dl s' = free ∧ closed (s_conn s') = true.
Proof.
  assert (option_map snd (demo_run Exec (DoneDuring 0 true)) = Some (Err OEContext)) as Hr by (vm_compute; reflexivity).
  destruct (demo_run Exec (DoneDuring 0 true)) as [[s' r]|] eqn:E; [|discriminate]. injection Hr as ->. exists s'. split; [done|].
  destruct (statement_aftermath (CO := demo_columns) 0 demo_opt map_to_list map_to_list len_frame noCompression demo_float
    (str "root") (str "host") (str "addr") (str "1.24") (str "linux") demo_span demo_tables Exec demo_context (DoneDuring 0 true)
    (str "INSERT") [] demo_session s' (Err OEContext) E eq_refl) as (Hd & _ & Hc). split; [exact Hd|]. by apply Hc.
Defined.

(** The server refuses the login: the socket stays open. *)
Example refused_login_leaks :
  ∃ d, dial (CO := demo_columns) (cmp_err := unit) (λ _, true) (MkClientHandshake 54460 (str "c") (MkVersion 2 48 0)) newOptions None
         (Some (fresh [] [x63])) = Some (Some d, Err (DESession (TEUnexpected x63))) ∧ socket_closes d = 0%nat ∧ closed d = false.
Proof. eexists. split; [vm_compute; reflexivity|]. done. Qed.

(** The names of columns are not quoted in the structure of a table: one column can look
    like two. *)
Example structure_ambiguous :
  let one := NewTable (CO := demo_columns) (str "t") [(str "a Int8, b", str "Int8")] in
  let two := NewTable (CO := demo_columns) (str "t") [(str "a", str "Int8"); (str "b", str "Int8")] in
  match one, two with
  | Ok one, Ok two => Structure one = Structure two ∧ length (Columns (t_block one)) = 1%nat ∧ length (Columns (t_block two)) = 2%nat
  | _, _ => False
  end.
Proof. vm_compute. done. Qed.
