(* ===== verification/HttpSession.v ===== *)
(** * Opening and preparing over HTTP ([conn_http.go], [lib/proto/handshake.go])

    What a connection over HTTP is made from: the scheme and the compression, the hello
    query that stands for a handshake, and the request of a query with external tables,
    whose blocks travel as parts of a form.  The form is the list of its parts; the
    writer of [mime/multipart] and the compressors are not looked into. *)

From Stdlib Require Import ZifyBool.
From S2P Require Import Prelude GoStd Strconv Options Wire ProtoPackets QueryContext HttpRequest Block Statement.
Local Open Scope Z_scope.

(** ** Versions *)

(** [ver.Part, err = strconv.ParseUint(s, 10, 8)]: what is stored, and whether there is no
    error; a number that is too large is stored as the largest. *)
Definition version_part (s : gostring) : Z * bool :=
  match ParseUint 8 s with
  | Some v => (v, true)
  | None => (if all_digits s then 255 else 0, false)
  end.

Definition ParseVersion (v : gostring) : Version :=
  match strings_Split v "." with
  | a :: b :: c :: _ =>
      let '(major, ok) := version_part a in
      if ok then
        let '(minor, ok) := version_part b in
        if ok then let '(patch, _) := version_part c in MkVersion major minor patch
        else MkVersion major minor 0
      else MkVersion major 0 0
  | _ => MkVersion 0 0 0
  end.

Definition Version_String (v : Version) : gostring :=
  FormatInt (Major v) ++ str "." ++ FormatInt (Minor v) ++ str "." ++ FormatInt (Patch v).

(** ** The scheme, the compression and the reader of answers *)

Definition http_scheme (scheme : gostring) (p : Protocol) (tls : bool) : option gostring :=
  match scheme with
  | [] => match p with HTTP => Some (if tls then str "https" else str "http") | Native => None end
  | _ => Some scheme
  end.

(** [createCompressionPool]: the method of its members, [None] for a level that the writer
    of [gzip] or [zlib] refuses. *)
Definition createCompressionPool (c : option (CompressionMethod * Z)) : option CompressionMethod :=
  let '(m, level) := default (CompressionNone, 0) c in
  match m with
  | CompressionGZIP | CompressionDeflate => if (-2 <=? level) && (level <=? 9) then Some m else None
  | CompressionBrotli => Some m
  | _ => Some CompressionNone
  end.

(** [NewReader]: the method an answer is read with. *)
Definition response_method (m : CompressionMethod) (uncompressed : bool) (encoding : gostring) : CompressionMethod :=
  if negb uncompressed && bool_decide (CompressionMethod_String m = encoding) then
    match m with CompressionGZIP | CompressionDeflate | CompressionBrotli => m | _ => CompressionNone end
  else CompressionNone.

(** ** The request of a query *)

Section request.
Context {CO : ColumnOps} {W : Wire}.

Inductive request_body := BodyText (query : gostring) | BodyForm (parts : list (gostring * gostring)).

Record prepared_request := MkPrepared { pr_values : values; pr_body : request_body }.

Definition format_key (t : Table) : gostring := t_name t ++ str "_format".
Definition structure_key (t : Table) : gostring := t_name t ++ str "_structure".

Definition put_table (q : values) (t : Table) : values :=
  <[structure_key t := Structure t]> (<[format_key t := str "Native"]> q).

(** Blocks are sent with the revision 0. *)
Definition encodeRevision : Z := 0.

Fixpoint table_parts (tables : list Table) : result block_err (list (gostring * gostring)) :=
  match tables with
  | [] => Ok []
  | t :: tables =>
      b ← Block_Encode (t_block t) encodeRevision;
      ps ← table_parts tables;
      Ok ((t_name t, b) :: ps)
  end.

(** [createRequestWithExternalTables]. *)
Definition createRequestWithExternalTables (base : values) (o : request_options) (query : gostring) (tables : list Table)
    : result block_err prepared_request :=
  ps ← table_parts tables;
  Ok (MkPrepared (request_values (foldl put_table base tables) o) (BodyForm (ps ++ [(str "query", query)]))).

Definition prepareRequest (base : values) (o : request_options) (query : gostring) (tables : list Table)
    : result block_err prepared_request :=
  if bool_decide (tables = []) then Ok (MkPrepared (request_values base o) (BodyText query))
  else createRequestWithExternalTables base o query tables.

(** What the tables say in the query part. *)
Definition table_entries (tables : list Table) : list (gostring * gostring) :=
  flat_map (λ t, [(format_key t, str "Native"); (structure_key t, Structure t)]) tables.

Lemma put_table_entries (tables : list Table) (q : values) :
  foldl put_table q tables = foldl (λ q kv, <[kv.1 := kv.2]> q) q (table_entries tables).
Proof. revert q. induction tables as [|t tables IH]; intros q; [done|]. cbn. by rewrite IH. Qed.

Lemma key_ends (a b x y : gostring) : a ++ x = b ++ y → List.last x "0"%byte ≠ List.last y "0"%byte → x ≠ [] → y ≠ [] → False.
Proof.
  intros E Hl Hx Hy. apply Hl. rewrite (List.app_removelast_last "0"%byte Hx), (List.app_removelast_last "0"%byte Hy) in E.
  rewrite !app_assoc in E. by apply app_inj_tail in E as [_ E].
Qed.

(** Tables of different names have keys of their own. *)
Lemma NoDup_entries (tables : list Table) : NoDup (t_name <$> tables) → NoDup (table_entries tables).*1.
Proof.
  induction tables as [|t tables IH]; [constructor|]. cbn [fmap list_fmap]. intros [Ht Hd]%NoDup_cons.
  assert (∀ k t', t' ∈ tables → k ∈ [format_key t; structure_key t] → k ∈ [format_key t'; structure_key t'] → False) as Hk.
  { intros k t' Hin. rewrite !elem_of_cons, !elem_of_nil. unfold format_key, structure_key.
    assert (t_name t ≠ t_name t') by (intros E; apply Ht; rewrite E; by apply list_elem_of_fmap_2).
    intros [-> |[-> |[]]] [E|[E|[]]].
    - by apply app_inv_tail in E.
    - by apply key_ends in E.
    - by apply key_ends in E.
    - by apply app_inv_tail in E. }
  assert (∀ k, k ∈ (table_entries tables).*1 → ∃ t', t' ∈ tables ∧ k ∈ [format_key t'; structure_key t']) as Hin.
  { intros k (kv & -> & Hkv)%list_elem_of_fmap. unfold table_entries in Hkv. apply list_elem_of_In, in_flat_map in Hkv as (t' & Ht' & Hkv).
    exists t'. split; [by apply list_elem_of_In|]. cbn in Hkv. destruct Hkv as [<-|[<-|[]]]; cbn; set_solver. }
  cbn [table_entries flat_map app fmap list_fmap fst]. apply NoDup_cons. split.
  { intros [E|E]%elem_of_cons; [by apply key_ends in E|]. destruct (Hin _ E) as (t' & Ht' & Hk'). eapply Hk; [done| |done]. set_solver. }
  apply NoDup_cons. split; [|by apply IH]. intros E. destruct (Hin _ E) as (t' & Ht' & Hk'). eapply Hk; [done| |done]. set_solver.
Qed.

Lemma table_parts_ok (tables : list Table) (ps : list (gostring * gostring)) :
  table_parts tables = Ok ps → Forall2 (λ t p, p.1 = t_name t ∧ Block_Encode (t_block t) encodeRevision = Ok p.2) tables ps.
Proof.
  revert ps. induction tables as [|t tables IH]; intros ps; cbn [table_parts]; [by intros [= <-]|].
  destruct (Block_Encode (t_block t) encodeRevision) as [b|] eqn:E; [|done]. cbn [mbind result_bind].
  destruct (table_parts tables) as [ps'|]; [|done]. intros [= <-]. constructor; [done|]. by apply IH.
Qed.

(** A query with external tables over HTTP: every table is a part of the form, its block
    encoded as the server decodes it, behind them the statement; the query part has the
    format and the structure of each, where no setting or parameter of the query has the
    same name, and every other key as without tables.  Without tables the body is the
    statement. *)
Theorem tables_in_request (base : values) (o : request_options) (query : gostring) (tables : list Table) (r : prepared_request) :
  NoDup (ro_settings o).*1 → NoDup (ro_parameters o).*1 → NoDup (t_name <$> tables) →
  prepareRequest base o query tables = Ok r →
  (∀ k, pr_values r !! k = query_value o k ∪ ((list_to_map (table_entries tables) : values) !! k ∪ base !! k))
  ∧ match tables with
    | [] => pr_body r = BodyText query
    | _ => ∃ ps, pr_body r = BodyForm (ps ++ [(str "query", query)])
             ∧ Forall2 (λ t p, p.1 = t_name t ∧ Block_Encode (t_block t) encodeRevision = Ok p.2) tables ps
    end.
Proof.
  intros Hs Hp Hd. unfold prepareRequest. case_bool_decide as Ht.
  - subst tables. intros [= <-]. split; [|done]. intros k. cbn [pr_values table_entries flat_map].
    rewrite request_values_lookup by done. cbn. by rewrite lookup_empty, (left_id_L None (∪)).
  - unfold createRequestWithExternalTables. destruct (table_parts tables) as [ps|] eqn:E; [|done]. cbn [mbind result_bind].
    intros [= <-]. split.
    + intros k. cbn [pr_values]. rewrite request_values_lookup, put_table_entries by done.
      rewrite (foldl_insert_lookup fst snd) by by apply NoDup_entries. do 2 f_equal.
      rewrite (list_fmap_ext _ id), list_fmap_id; [done|]. by intros ? [] ?.
    + destruct tables; [done|]. exists ps. split; [done|]. by apply table_parts_ok.
Qed.
End request.

(** ** The hello query *)

Section hello.
Context {E : Type}.

Inductive hello_err := HelloQuery (e : E) | HelloNoRows | HelloScan (e : E) | HelloTimezone.

(** Display name, version, revision and time zone. *)
Record hello_row := MkHello { h_name : gostring; h_version : gostring; h_revision : Z; h_timezone : gostring }.

(** [queryHello]: [rows] is what the query gives, the first row if there is one, scanned. *)
Definition queryHello (Load : gostring → bool) (rows : result E (option (result E hello_row))) : result hello_err ServerHandshake :=
  match rows with
  | Err e => Err (HelloQuery e)
  | Ok None => Err HelloNoRows
  | Ok (Some (Err e)) => Err (HelloScan e)
  | Ok (Some (Ok r)) =>
      if Load (h_timezone r) then
        Ok (MkServerHandshake (h_name r) (h_name r) (h_revision r) (ParseVersion (h_version r)) (Some (h_timezone r)))
      else Err HelloTimezone
  end.

(** [ping]: the names of the columns of SELECT 1, or the error. *)
Definition http_ping (rows : result E (list gostring)) : result E bool :=
  match rows with Err e => Err e | Ok columns => Ok (bool_decide (columns = [str "1"])) end.

(** ** [dialHttp] *)

Record httpConnect := MkHttpConnect {
  hc_scheme : gostring;
  hc_values : values;
  hc_method : CompressionMethod;
  hc_revision : Z;
  hc_handshake : option ServerHandshake;
  hc_waitEndOfQuery : bool
}.

Inductive http_dial_err := HDScheme | HDCompression | HDTransport (e : E) | HDHello (e : hello_err).

(** [order] is the order of the loop over the settings; [hello] answers the hello query
    on the connection as it is then, at the revision of the client. *)
Definition dialHttp (o : Options) (settings : settings_map) (order : list (gostring * setting_any)) (transport : result E unit)
    (Load : gostring → bool) (hello : httpConnect → result E (option (result E hello_row))) : result http_dial_err httpConnect :=
  match http_scheme (opt_scheme o) (opt_Protocol o) (bool_decide (is_Some (TLS o))) with
  | None => Err HDScheme
  | Some scheme =>
      match createCompressionPool (opt_Compression o) with
      | None => Err HDCompression
      | Some m =>
          match transport with
          | Err e => Err (HDTransport e)
          | Ok _ =>
              let conn r h := MkHttpConnect scheme (dial_values (Database o) order) m r h
                                (settingEnabled settings (str "wait_end_of_query")) in
              match queryHello Load (hello (conn ClientTCPProtocolVersion None)) with
              | Err e => Err (HDHello e)
              | Ok h => Ok (conn (Revision h) (Some h))
              end
          end
      end
  end.
End hello.

(** ** Facts *)

Lemma version_part_text z : 0 ≤ z < 256 →
  version_part (FormatInt z) = (z, true) ∧ ("."%byte : byte) ∉ FormatInt z.
Proof.
  intros Hz. assert (FormatInt z = FormatUint z) as -> by (unfold FormatInt; by rewrite (proj2 (Z.ltb_ge z 0)) by lia).
  unfold version_part, ParseUint. rewrite all_digits_FormatUint, dec_val_FormatUint by lia. split.
  - by rewrite (proj2 (Z.ltb_lt z (2 ^ 8))) by (simpl; lia).
  - intros Hin. pose proof (FormatUint_digits z) as Hd. rewrite Forall_forall in Hd. by specialize (Hd _ Hin).
Qed.

(** A version survives its text, with or without a build number behind it. *)
Theorem ParseVersion_String (v : Version) (build : gostring) :
  Forall (λ z, 0 ≤ z < 256) [Major v; Minor v; Patch v] → build = [] ∨ head build = Some ("."%byte : byte) →
  ParseVersion (Version_String v ++ build) = v.
Proof.
  intros Hv Hb. repeat (apply Forall_cons in Hv as [?%version_part_text Hv]).
  destruct v as [a b c]. cbn [Major Minor Patch] in *. repeat match goal with H : _ ∧ _ |- _ => destruct H end.
  assert (∃ tl, strings_Split (FormatInt c ++ build) "." = FormatInt c :: tl) as [tl Htl].
  { destruct Hb as [-> |Hb]; [rewrite app_nil_r, strings_Split_free by done; by eexists|].
    destruct build as [|x build]; [done|]. injection Hb as ->. rewrite strings_Split_app by done. by eexists. }
  unfold ParseVersion, Version_String. cbn [Major Minor Patch]. rewrite <- !app_assoc.
  assert (∀ x, str "." ++ x = ("."%byte : byte) :: x) as Hdot by done. rewrite !Hdot.
  rewrite strings_Split_app, strings_Split_app, Htl by done.
  repeat match goal with H : version_part _ = _ |- _ => rewrite H; clear H; cbv beta iota zeta end. done.
Qed.

Lemma ParseVersion_String_witness :
  ParseVersion (str "25.8.3.66") = MkVersion 25 8 3 ∧ Forall (λ z, 0 ≤ z < 256) [25; 8; 3].
Proof.
  assert (Forall (λ z, 0 ≤ z < 256) [25; 8; 3]) as H by (repeat (constructor; [lia|]); constructor).
  split; [|exact H]. exact (ParseVersion_String (MkVersion 25 8 3) (str ".66") H (or_intror eq_refl)).
Defined.

(** Parts of more than a byte are cut to it, and the parts behind are lost. *)
Example version_cut : ParseVersion (str "2024.8.1") = MkVersion 255 0 0 ∧ ParseVersion (str "25.8") = MkVersion 0 0 0.
Proof. done. Qed.

Section revision.
Context {CO : ColumnOps} {W : Wire}.

Lemma decode_columns_revision n numRows r1 r2 s :
  (DBMS_MIN_REVISION_WITH_CUSTOM_SERIALIZATION <=? r1) = (DBMS_MIN_REVISION_WITH_CUSTOM_SERIALIZATION <=? r2) →
  decode_columns n numRows r1 s = decode_columns n numRows r2 s.
Proof.
  intros H. revert s. induction n as [|n IH]; intros s; [done|]. cbn [decode_columns].
  assert (decode_column numRows r1 s = decode_column numRows r2 s) as -> by (unfold decode_column; by rewrite H).
  destruct (decode_column numRows r2 s) as [[[name c] s1]|]; [|done]. cbn [mbind result_bind]. by rewrite IH.
Qed.

(** The server writes its blocks at the smaller of its revision and the one the client
    announced; the client reads them at the server's.  The two read alike. *)
Theorem http_revision_sound (server : Z) (s : gostring) :
  Block_Decode server s = Block_Decode (Z.min server ClientTCPProtocolVersion) s.
Proof.
  unfold Block_Decode.
  assert ((0 <? server) = (0 <? Z.min server ClientTCPProtocolVersion)) as -> by (unfold ClientTCPProtocolVersion, DBMS_TCP_PROTOCOL_VERSION, DBMS_MIN_PROTOCOL_VERSION_WITH_SERVER_QUERY_TIME_IN_PROGRES; lia).
  destruct (if 0 <? _ then _ else _) as [s1|]; [|done]. destruct (RUVarInt s1) as [[n s2]|]; [|done].
  destruct (RUVarInt s2) as [[m s3]|]; [|done]. destruct (_ <? m); [done|]. destruct (_ <=? n); [done|].
  rewrite (decode_columns_revision _ _ server (Z.min server ClientTCPProtocolVersion)); [done|].
  unfold ClientTCPProtocolVersion, DBMS_TCP_PROTOCOL_VERSION, DBMS_MIN_PROTOCOL_VERSION_WITH_SERVER_QUERY_TIME_IN_PROGRES,
    DBMS_MIN_REVISION_WITH_CUSTOM_SERIALIZATION. lia.
Qed.
End revision.

Lemma tables_in_request_witness :
  ∃ r, prepareRequest (CO := demo_columns) ∅ (MkRequestOptions [] [] [] []) (str "SELECT") [MkTable (str "t") demo_block] = Ok r
    ∧ pr_values r !! str "t_format" = Some (str "Native").
Proof.
  assert (is_ok (prepareRequest (CO := demo_columns) ∅ (MkRequestOptions [] [] [] []) (str "SELECT") [MkTable (str "t") demo_block]) = true)
    as Hok by (vm_compute; reflexivity).
  destruct (prepareRequest (CO := demo_columns) ∅ (MkRequestOptions [] [] [] []) (str "SELECT") [MkTable (str "t") demo_block])
    as [r|] eqn:E; [|discriminate Hok].
  exists r. split; [done|].
  rewrite (proj1 (tables_in_request (CO := demo_columns) ∅ (MkRequestOptions [] [] [] []) (str "SELECT") [MkTable (str "t") demo_block] r
    (NoDup_nil_2) (NoDup_nil_2) (NoDup_singleton _) E)). reflexivity.
Defined.

(** A connection with TLS at the revision of a newer server. *)
Example dial_http_demo :
  let o := MkOptions HTTP [] (Some (false, [])) [] (str "db") [] [] false ∅ (Some (CompressionLZ4, 0)) 0 0 0 0
             Client.ConnOpenInOrder [] 0 0 None [] 0 in
  match dialHttp (E := unit) o ∅ [] (Ok ()) (λ _, true) (λ _, Ok (Some (Ok (MkHello (str "ch") (str "25.8.1.2") 54478 (str "UTC"))))) with
  | Ok c => hc_scheme c = str "https" ∧ hc_revision c = 54478 ∧ hc_method c = CompressionNone
            ∧ hc_values c !! str "client_protocol_version" = Some (str "54460")
  | Err _ => False
  end.
Proof. vm_compute. done. Qed.
