(* ===== verification/LowCardinality.v ===== *)
(** * Dictionary-encoded columns ([lib/column/lowcardinality.go])

    A [LowCardinality] column keeps a dictionary (the index column) and one key per
    row.  Appending looks the value up in a Go map from values to dictionary positions;
    encoding chooses the narrowest key width.  The index column is any implementation
    of the column interface.  A value is what the Go map compares (for a pointer its
    address) and what the index column is given (its target at that moment). *)

From Stdlib Require Import ZifyBool.
From S2P Require Import Prelude GoStd Wire ProtoPackets Block.
Local Open Scope Z_scope.

Definition indexTypeMask : Z := 255.
Definition keyUInt8 : Z := 0.
Definition keyUInt16 : Z := 1.
Definition keyUInt32 : Z := 2.
Definition keyUInt64 : Z := 3.
Definition needGlobalDictionaryBit : Z := Z.shiftl 1 8.
Definition hasAdditionalKeysBit : Z := Z.shiftl 1 9.
Definition needUpdateDictionary : Z := Z.shiftl 1 10.
Definition updateAll : Z := Z.lor hasAdditionalKeysBit needUpdateDictionary.
Definition sharedDictionariesWithAdditionalKeys : Z := 1.

Section lc.
Context {CO : ColumnOps} {W : Wire} {K : Type} `{Countable K}.

(** The value [nil] as the index column receives it. *)
Variable nil_cell : cell.
(** A time as the map compares it, and as the index column receives it. *)
Variable time_key : gotime → K.
Variable time_cell : gotime → cell.

Inductive lc_value :=
| LNil                            (* nil, or a nil pointer *)
| LTime (t : gotime)
| LVal (k : K) (x : cell).

Inductive lc_err :=
| LCRead
| LCIndexVersion
| LCGlobalDictionary
| LCAdditionalKeys
| LCKeyVersion
| LCIndex (e : col_err).

(** [append.index] is [None] when the map is nil. *)
Record LowCardinality := MkLC {
  lc_key : Z;
  lc_rows : nat;
  index : col;
  nullable : bool;
  keys8 : list Z; keys16 : list Z; keys32 : list Z; keys64 : list Z;
  append_keys : list Z;
  append_index : option (gmap K Z)
}.

Definition lc_Reset (c : LowCardinality) : LowCardinality :=
  MkLC (lc_key c) 0 (colReset (index c)) (nullable c) [] [] [] [] [] (Some ∅).

(** [time.Time.Truncate(time.Second)]. *)
Definition Truncate (t : gotime) : gotime := MkTime (t_sec t) 0 (t_loc t) (t_off t).

(** [keys()]: the column of the current width. *)
Definition lc_keys (c : LowCardinality) : list Z :=
  if lc_key c =? keyUInt8 then keys8 c
  else if lc_key c =? keyUInt16 then keys16 c
  else if lc_key c =? keyUInt32 then keys32 c
  else keys64 c.

Definition key_width (key : Z) : nat :=
  if key =? keyUInt8 then 1 else if key =? keyUInt16 then 2 else if key =? keyUInt32 then 4 else 8.

Definition set_keys (c : LowCardinality) (l : list Z) : LowCardinality :=
  let '(MkLC k r ix n k8 k16 k32 k64 ak ai) := c in
  if k =? keyUInt8 then MkLC k r ix n l k16 k32 k64 ak ai
  else if k =? keyUInt16 then MkLC k r ix n k8 l k32 k64 ak ai
  else if k =? keyUInt32 then MkLC k r ix n k8 k16 l k64 ak ai
  else MkLC k r ix n k8 k16 k32 l ak ai.

Definition set_key (c : LowCardinality) (k : Z) : LowCardinality :=
  MkLC k (lc_rows c) (index c) (nullable c) (keys8 c) (keys16 c) (keys32 c) (keys64 c) (append_keys c) (append_index c).

(** The head of [AppendRow]: the row is counted, the map is made, and an empty
    dictionary gets its default value, and the null value when there is one. *)
Definition lc_begin (c : LowCardinality) : LowCardinality :=
  let ix := if Nat.eqb (colRows (index c)) 0 then
              let ix := fst (AppendRow (index c) nil_cell) in
              if nullable c then fst (AppendRow ix nil_cell) else ix
            else index c in
  MkLC (lc_key c) (lc_rows c + 1) ix (nullable c) (keys8 c) (keys16 c) (keys32 c) (keys64 c) (append_keys c)
    (Some (default ∅ (append_index c))).

Definition add_key (c : LowCardinality) (ix : col) (m : gmap K Z) (k : Z) : LowCardinality :=
  MkLC (lc_key c) (lc_rows c) ix (nullable c) (keys8 c) (keys16 c) (keys32 c) (keys64 c) (append_keys c ++ [k]) (Some m).

Definition set_index (c : LowCardinality) (ix : col) : LowCardinality :=
  MkLC (lc_key c) (lc_rows c) ix (nullable c) (keys8 c) (keys16 c) (keys32 c) (keys64 c) (append_keys c) (append_index c).

(** The rest of [AppendRow] for a value that is not nil. *)
Definition lc_append (c : LowCardinality) (k : K) (x : cell) : LowCardinality * option lc_err :=
  let m := default ∅ (append_index c) in
  match m !! k with
  | Some i => (add_key c (index c) m i, None)
  | None =>
      match AppendRow (index c) x with
      | (ix, Some e) => (set_index c ix, Some (LCIndex e))
      | (ix, None) =>
          let i := Z.of_nat (colRows ix) - 1 in
          (add_key c ix (<[k := i]> m) i, None)
      end
  end.

Definition lc_AppendRow (c : LowCardinality) (v : lc_value) : LowCardinality * option lc_err :=
  let c := lc_begin c in
  match v with
  | LNil => (add_key c (index c) (default ∅ (append_index c)) 0, None)
  | LTime t => lc_append c (time_key (Truncate t)) (time_cell (Truncate t))
  | LVal k x => lc_append c k x
  end.

(** [Append] of a slice: stops at the first error. *)
Fixpoint lc_Append (c : LowCardinality) (vs : list lc_value) : LowCardinality * option lc_err :=
  match vs with
  | [] => (c, None)
  | v :: vs => match lc_AppendRow c v with
               | (c, Some e) => (c, Some e)
               | (c, None) => lc_Append c vs end
  end.

(** The keys of the rows appended since, in the narrowest width; the conversions wrap. *)
Definition choose_keys (c : LowCardinality) : LowCardinality :=
  let ixLen := Z.of_nat (size (default ∅ (append_index c))) in
  let with_key k := set_keys (set_key c k) (lc_keys (set_key c k)
                      ++ map (λ v, v mod 256 ^ Z.of_nat (key_width k)) (append_keys c)) in
  if negb (Nat.eqb (length (lc_keys c)) 0) then c
  else if ixLen <? 255 then with_key keyUInt8
  else if ixLen <? 65535 then with_key keyUInt16
  else if ixLen <? 4294967295 then with_key keyUInt32
  else with_key keyUInt64.

(** [Encode]: the bytes, and the column afterwards. *)
Definition lc_Encode (c : LowCardinality) : gostring * LowCardinality :=
  if Nat.eqb (lc_rows c) 0 then ([], c)
  else
    let c := choose_keys c in
    (PutUInt64 (Z.lor updateAll (lc_key c)) ++ PutInt64 (Z.of_nat (colRows (index c))) ++ colEncode (index c)
     ++ PutInt64 (Z.of_nat (length (lc_keys c))) ++ PutVec (key_width (lc_key c)) (lc_keys c),
     MkLC (lc_key c) (lc_rows c) (index c) (nullable c) (keys8 c) (keys16 c) (keys32 c) (keys64 c) [] None).

Definition lread {A} (r : option A) : result lc_err A := match r with Some x => Ok x | None => Err LCRead end.

(** [Decode]; [int(indexRows)] of a negative count is left to the index column, here
    zero rows. *)
Definition lc_Decode (c : LowCardinality) (rows : nat) (s : gostring) : result lc_err (LowCardinality * gostring) :=
  if Nat.eqb rows 0 then Ok (c, s)
  else
    '(typ, s) ← lread (RUInt64 s);
    let key := Z.land typ indexTypeMask in
    if negb ((key =? keyUInt8) || (key =? keyUInt16) || (key =? keyUInt32) || (key =? keyUInt64)) then Err LCIndexVersion
    else if Z.land typ needGlobalDictionaryBit =? 1 then Err LCGlobalDictionary
    else if Z.land typ hasAdditionalKeysBit =? 0 then Err LCAdditionalKeys
    else
      '(indexRows, s) ← lread (RInt64 s);
      '(ix, s) ← map_err LCIndex (colDecode (index c) (Z.to_nat indexRows) s);
      '(keysRows, s) ← lread (RInt64 s);
      '(ks, s) ← lread (RVec (key_width key) (Z.to_nat keysRows) s);
      let c := MkLC key (Z.to_nat keysRows) ix (nullable c) (keys8 c) (keys16 c) (keys32 c) (keys64 c)
                 (append_keys c) (append_index c) in
      Ok (set_keys c (lc_keys c ++ ks), s).

Definition lc_WriteStatePrefix : gostring := PutUInt64 sharedDictionariesWithAdditionalKeys.

Definition lc_ReadStatePrefix (s : gostring) : result lc_err gostring :=
  '(v, s) ← lread (RUInt64 s);
  if negb (v =? sharedDictionariesWithAdditionalKeys) then Err LCKeyVersion else Ok s.

(** [Row]: [None] is NULL; [row] is the index column's [Row]. *)
Definition indexRowNum (c : LowCardinality) (i : nat) : option Z := lc_keys c !! i.

Definition lc_Row {V} (row : col → nat → option V) (c : LowCardinality) (i : nat) : option (option V) :=
  idx ← indexRowNum c i;
  if (idx =? 0) && nullable c then Some None
  else v ← row (index c) (Z.to_nat idx); Some (Some v).

(** A fresh column over an empty index column. *)
Definition lc_new (ix : col) (nullable : bool) : LowCardinality := MkLC 0 0 ix nullable [] [] [] [] [] (Some ∅).
End lc.
Arguments LowCardinality {CO} K {_ _}.
Arguments lc_value {CO} K.

(** What the index column promises: as long as it stays within the sizes of the wire
    ([ix_fits]), its rows are the values appended to it, for values it is meant for
    ([cell_ok]), among which is nil, and a column grown from the empty one [ix0] is read
    back by [ix0]. *)
Class IndexLaws (CO : ColumnOps) (W : Wire) (nil_cell : cell) (V : Type) := {
  ixvals : col → list V;
  store : cell → V;
  cell_ok : cell → Prop;
  ix_fits : col → Prop;
  ix_ok : col → col → Prop;
  ix_rows : ∀ ix0 c, ix_ok ix0 c → colRows c = length (ixvals c);
  ix_nil : ∀ ix0 c, ix_ok ix0 c → cell_ok nil_cell ∧ ∃ c', AppendRow c nil_cell = (c', None);
  ix_nil_grows : ∀ c, ix_fits (AppendRow c nil_cell).1 → ix_fits c;
  ix_grows : ∀ c x c', AppendRow c x = (c', None) → ix_fits c' → ix_fits c;
  ix_append : ∀ ix0 c x c', ix_ok ix0 c → cell_ok x → AppendRow c x = (c', None) → ix_fits c' →
    ix_ok ix0 c' ∧ ixvals c' = ixvals c ++ [store x];
  ix_roundtrip : ∀ ix0 c, ix_ok ix0 c → ix_fits c →
    ∃ c', ixvals c' = ixvals c ∧ ∀ rest, colDecode ix0 (colRows c) (colEncode c ++ rest) = Ok (c', rest)
}.

Section theorems.
Context {CO : ColumnOps} {W : Wire} {L : WireLaws W} {K : Type} `{Countable K}.
Variable nil_cell : cell.
Variable time_key : gotime → K.
Variable time_cell : gotime → cell.
Context {V : Type} {IL : IndexLaws CO W nil_cell V}.

Abbreviation AppendRow' := (lc_AppendRow nil_cell time_key time_cell).

(** A value as the dictionary sees it; [None] is nil. *)
Definition normal (v : lc_value K) : option (K * cell) :=
  match v with
  | LNil => None
  | LTime t => Some (time_key (Truncate t), time_cell (Truncate t))
  | LVal k x => Some (k, x)
  end.

(** The null and default values the dictionary starts with. *)
Definition reserved (nullable : bool) : nat := if nullable then 2 else 1.

(** Equal map keys mean equal contents. *)
Definition consistent (contents : K → cell) (vs : list (lc_value K)) : Prop :=
  ∀ v k x, v ∈ vs → normal v = Some (k, x) → x = contents k.

(** Values the index column is meant for. *)
Definition cells_ok (vs : list (lc_value K)) : Prop := ∀ v k x, v ∈ vs → normal v = Some (k, x) → cell_ok x.

(** The dictionary only grows. *)
Lemma begin_grows c : ix_fits (index (lc_begin (K := K) nil_cell c)) → ix_fits (index c).
Proof.
  unfold lc_begin. cbn [index]. destruct (Nat.eqb _ 0); [|done]. destruct (nullable c).
  - intros Hf%ix_nil_grows. by apply ix_nil_grows.
  - apply ix_nil_grows.
Qed.

Lemma row_grows c v c' : AppendRow' c v = (c', None) → ix_fits (index c') →
  ix_fits (index (lc_begin (K := K) nil_cell c)).
Proof.
  unfold lc_AppendRow. set (c1 := lc_begin nil_cell c).
  assert (∀ k x, lc_append c1 k x = (c', None) → ix_fits (index c') → ix_fits (index c1)) as Happ.
  { intros k x. unfold lc_append. destruct (_ !! k); [by intros [= <-]|].
    destruct (AppendRow (index c1) x) as [ix [e|]] eqn:Ea; [done|]. intros [= <-]. cbn. by apply (ix_grows _ x). }
  destruct v; [by intros [= <-]|apply Happ..].
Qed.

Lemma dict_grows vs : ∀ c c', lc_Append nil_cell time_key time_cell c vs = (c', None) → ix_fits (index c') → ix_fits (index c).
Proof.
  induction vs as [|v vs IH]; intros c c'; cbn [lc_Append]; [by intros [= <-]|].
  destruct (AppendRow' c v) as [c1 [e|]] eqn:E1; [done|]. intros E2 Hf.
  eapply begin_grows, row_grows; [exact E1|]. by eapply IH.
Qed.

(** The dictionary after the values [vs]. *)
Record dict_inv (contents : K → cell) (ix0 : col) (nl : bool) (vs : list (lc_value K)) (c : LowCardinality K)
    (m : gmap K Z) : Prop := {
  di_map : append_index c = Some m;
  di_null : nullable c = nl;
  di_rows : lc_rows c = length vs;
  di_keys : lc_key c = 0 ∧ keys8 c = [] ∧ keys16 c = [] ∧ keys32 c = [] ∧ keys64 c = [];
  di_ok : ix_ok ix0 (index c);
  di_start : vs = [] → index c = ix0 ∧ m = ∅;
  di_len : vs ≠ [] → length (ixvals (index c)) = (reserved nl + size m)%nat
             ∧ ixvals (index c) !! 0%nat = Some (store nil_cell);
  di_dict : ∀ k i, m !! k = Some i → (Z.of_nat (reserved nl) ≤ i < Z.of_nat (reserved nl + size m))
             ∧ ixvals (index c) !! Z.to_nat i = Some (store (contents k));
  di_row : Forall2 (λ v i, match normal v with None => i = 0 | Some (k, _) => m !! k = Some i end) vs (append_keys c)
}.

Lemma dict_new contents ix0 nl :
  ix_ok ix0 ix0 → ixvals ix0 = [] → dict_inv contents ix0 nl [] (lc_new ix0 nl) ∅.
Proof. intros Hok Hv. split; cbn; try done. Qed.

(** [lc_begin] on a dictionary with or without rows. *)
Lemma begin_index contents ix0 nl vs c m :
  ixvals ix0 = [] → dict_inv contents ix0 nl vs c m → ix_fits (index (lc_begin nil_cell c)) →
  ix_ok ix0 (index (lc_begin nil_cell c))
  ∧ length (ixvals (index (lc_begin nil_cell c))) = (reserved nl + size m)%nat
  ∧ ixvals (index (lc_begin nil_cell c)) !! 0%nat = Some (store nil_cell)
  ∧ (∀ k i, m !! k = Some i → ixvals (index (lc_begin nil_cell c)) !! Z.to_nat i = Some (store (contents k))).
Proof.
  intros H0 [Hm Hn Hr Hk Hok Hst Hlen Hd Hrow]. unfold lc_begin. cbn [index]. rewrite (ix_rows _ _ Hok), Hn.
  destruct vs as [|v vs].
  - destruct (Hst eq_refl) as [Eix ->]. rewrite Eix in *. rewrite H0. cbn [length Nat.eqb].
    destruct (ix_nil _ ix0 Hok) as [Hnil [ix1 E1]]. rewrite E1. cbn [fst]. intros Hf.
    destruct (ix_append _ _ _ _ Hok Hnil E1) as [O1 V1].
    { destruct nl; [by apply ix_nil_grows|done]. }
    rewrite H0 in V1. cbn in V1. destruct nl; cbn [reserved].
    + destruct (ix_nil _ ix1 O1) as [_ [ix2 E2]]. rewrite E2 in *. cbn [fst] in *.
      destruct (ix_append _ _ _ _ O1 Hnil E2 Hf) as [O2 V2]. rewrite V1 in V2.
      rewrite V2, map_size_empty. split; [done|]. split; [done|]. split; [done|]. intros k i. by rewrite lookup_empty.
    + rewrite V1, map_size_empty. split; [done|]. split; [done|]. split; [done|]. intros k i. by rewrite lookup_empty.
  - destruct (Hlen ltac:(done)) as [Hl Hz]. rewrite Hl.
    assert (reserved nl ≠ 0)%nat by (by destruct nl). destruct (Nat.eqb_spec (reserved nl + size m) 0); [lia|].
    intros _. split; [done|]. split; [done|]. split; [done|]. intros k i Hki. by apply Hd.
Qed.

Lemma dict_step contents ix0 nl vs c m v c' :
  ixvals ix0 = [] → dict_inv contents ix0 nl vs c m → (∀ k x, normal v = Some (k, x) → x = contents k ∧ cell_ok x) →
  AppendRow' c v = (c', None) → ix_fits (index c') → ∃ m', dict_inv contents ix0 nl (vs ++ [v]) c' m'.
Proof.
  intros H0 Hi Hv HA Hfits. pose proof (row_grows _ _ _ HA Hfits) as Hfits1.
  destruct (begin_index contents ix0 nl vs c m H0 Hi Hfits1) as (Hok & Hl & Hz & Hd).
  destruct Hi as [Hm Hn Hr Hk Hok0 Hst Hlen Hdict Hrow]. unfold lc_AppendRow in HA.
  set (c1 := lc_begin nil_cell c) in *.
  assert (default ∅ (append_index c1) = m) as Em by (unfold c1, lc_begin; cbn; by rewrite Hm).
  assert (Forall2 (λ v i, match normal v with None => i = 0 | Some (k, _) => m !! k = Some i end) vs (append_keys c1))
    as Hrow1 by exact Hrow.
  assert (vs ++ [v] ≠ []) as Hne by (by destruct vs).
  (* a key that is in the dictionary already, or the null key *)
  assert (∀ i, (match normal v with None => i = 0 | Some (k, _) => m !! k = Some i end) →
    dict_inv contents ix0 nl (vs ++ [v]) (add_key c1 (index c1) m i) m) as Hold.
  { intros i Hi. split; cbn; try done.
    - by rewrite length_app, Hr.
    - intros k j Hkj. split; [by apply Hdict with k|by apply Hd].
    - apply Forall2_app; [done|]. by constructor. }
  assert (∀ k x, normal v = Some (k, x) → lc_append c1 k x = (c', None) → ∃ m', dict_inv contents ix0 nl (vs ++ [v]) c' m')
    as Happ.
  { intros k x Hnv. unfold lc_append. rewrite Em. destruct (m !! k) as [i|] eqn:Ei.
    { intros [= <-]. exists m. apply Hold. by rewrite Hnv. }
    destruct (AppendRow (index c1) x) as [ix [e|]] eqn:Ea; [done|]. intros [= <-].
    destruct (Hv k x Hnv) as [Hx Hcx]. destruct (ix_append _ _ _ _ Hok Hcx Ea Hfits) as [Ho Va].
    rewrite (ix_rows _ _ Ho), Va, length_app, Hl. cbn [length].
    set (i := Z.of_nat (reserved nl + size m + 1) - 1). exists (<[k := i]> m).
    split; cbn; try done.
    - by rewrite length_app, Hr.
    - intros _. rewrite Va, length_app, Hl, map_size_insert_None by done. cbn [length]. split; [lia|].
      by rewrite lookup_app_l by (rewrite Hl; destruct nl; cbn; lia).
    - intros k' j. rewrite map_size_insert_None by done. rewrite Va. destruct (decide (k = k')) as [<-|Hkk].
      + rewrite lookup_insert_eq. intros [= <-]. subst i. split; [lia|].
        rewrite lookup_app_r by (rewrite Hl; lia). rewrite Hl.
        replace (Z.to_nat _ - _)%nat with 0%nat by lia. cbn. by rewrite Hx.
      + rewrite lookup_insert_ne by done. intros Hkj. destruct (Hdict k' j Hkj) as [? _]. split; [lia|].
        rewrite lookup_app_l by (rewrite Hl; lia). by apply Hd.
    - apply Forall2_app.
      + eapply Forall2_impl; [exact Hrow1|]. intros w j. cbv beta. destruct (normal w) as [[kw xw]|]; [|done].
        intros Hw. rewrite lookup_insert_ne; [done|]. intros ->. by rewrite Ei in Hw.
      + constructor; [|done]. rewrite Hnv. by rewrite lookup_insert_eq. }
  destruct v as [|t|k x]; cbn [normal] in *.
  - rewrite Em in HA. injection HA as <-. exists m. by apply Hold.
  - eapply Happ; [done|exact HA].
  - eapply Happ; [done|exact HA].
Qed.

Lemma dict_append contents ix0 nl vs0 vs c m c' :
  ixvals ix0 = [] → dict_inv contents ix0 nl vs0 c m → consistent contents (vs0 ++ vs) → cells_ok (vs0 ++ vs) →
  lc_Append nil_cell time_key time_cell c vs = (c', None) → ix_fits (index c') → ∃ m', dict_inv contents ix0 nl (vs0 ++ vs) c' m'.
Proof.
  intros H0. revert vs0 c m. induction vs as [|v vs IH]; intros vs0 c m Hi Hc Hcells; cbn [lc_Append].
  { intros [= <-] _. rewrite app_nil_r. by exists m. }
  destruct (AppendRow' c v) as [c1 [e|]] eqn:E1; [done|]. intros E2 Hf.
  destruct (dict_step contents ix0 nl vs0 c m v c1 H0 Hi) as [m1 H1]; [|done|by eapply dict_grows|].
  { intros k x Hn. assert (v ∈ vs0 ++ v :: vs) by (apply elem_of_app; right; by left).
    split; [by apply (Hc v k x)|by apply (Hcells v k x)]. }
  replace (vs0 ++ v :: vs) with ((vs0 ++ [v]) ++ vs) in * by (by rewrite <- app_assoc).
  by apply (IH (vs0 ++ [v]) c1 m1 H1).
Qed.

(** A map from keys to positions has no more entries than there are rows. *)
Lemma key_bound contents ix0 nl vs c m i :
  dict_inv contents ix0 nl vs c m → i ∈ append_keys c → 0 ≤ i < Z.of_nat (reserved nl + size m).
Proof.
  intros [Hm Hn Hr Hk Hok Hst Hlen Hd Hrow] Hi. apply list_elem_of_lookup in Hi as [j Hj].
  destruct (Forall2_lookup_r _ _ _ _ _ Hrow Hj) as (v & _ & Hv). cbv beta in Hv.
  destruct (normal v) as [[k x]|]; [destruct (Hd k i Hv) as [? _]; lia|]. subst i. destruct nl; cbn; lia.
Qed.

(** The width that [Encode] chooses holds every key. *)
Lemma choose_keys_fits contents ix0 nl vs c m :
  dict_inv contents ix0 nl vs c m → vs ≠ [] → Z.of_nat (size m) < 2 ^ 63 →
  let c' := choose_keys c in
  (0 ≤ lc_key c' ≤ 3) ∧ lc_keys c' = append_keys c ∧ Forall (uint (key_width (lc_key c'))) (lc_keys c')
  ∧ index c' = index c.
Proof.
  intros Hi Hne Hmax. pose proof (key_bound contents ix0 nl vs c m) as Hb. specialize (Hb).
  pose proof Hi as [Hm Hn Hr (Hk & H8 & H16 & H32 & H64) Hok Hst Hlen Hd Hrow].
  assert (lc_keys c = []) as Hk0 by (unfold lc_keys; by rewrite Hk).
  assert (∀ k, 0 ≤ k ≤ 3 → lc_keys (set_key c k) = []) as Hke.
  { intros k ?. unfold lc_keys, set_key. cbn. rewrite H8, H16, H32, H64. by repeat destruct (_ =? _). }
  assert (∀ k, 0 ≤ k ≤ 3 → Z.of_nat (reserved nl + size m) ≤ 256 ^ Z.of_nat (key_width k) →
    let c' := set_keys (set_key c k) (lc_keys (set_key c k) ++ map (λ v, v mod 256 ^ Z.of_nat (key_width k)) (append_keys c)) in
    (0 ≤ lc_key c' ≤ 3) ∧ lc_keys c' = append_keys c ∧ Forall (uint (key_width (lc_key c'))) (lc_keys c')
    ∧ index c' = index c) as Hw.
  { intros k Hk3 Hfit. rewrite Hke by done. cbn [app].
    assert (map (λ v, v mod 256 ^ Z.of_nat (key_width k)) (append_keys c) = append_keys c) as ->.
    { rewrite <- (map_id (append_keys c)) at 2. apply map_ext_in. intros i Hin%list_elem_of_In.
      apply Z.mod_small. specialize (Hb i Hi Hin). lia. }
    unfold set_keys, set_key. cbn. unfold lc_keys.
    assert (Forall (uint (key_width k)) (append_keys c)) as Hu.
    { apply Forall_forall. intros i Hin. specialize (Hb i Hi Hin). unfold uint. lia. }
    assert (k = 0 ∨ k = 1 ∨ k = 2 ∨ k = 3) as [ -> |[ -> |[ -> | -> ]]] by lia; cbn; (split; [lia|]); done. }
  unfold choose_keys. rewrite Hk0, Hm. cbn [length Nat.eqb negb default from_option id].
  assert (reserved nl ≤ 2)%nat by (destruct nl; cbn; lia).
  repeat match goal with |- context [?a <? ?b] => destruct (Z.ltb_spec a b) end;
    (apply Hw; [unfold keyUInt8, keyUInt16, keyUInt32, keyUInt64; lia|]);
    match goal with |- _ ≤ ?x => let y := eval vm_compute in x in change x with y end; lia.
Qed.

(** No wider than need be: with the two reserved values the dictionary does not fit a
    smaller width. *)
Lemma choose_keys_narrow contents ix0 nl vs c m (w : nat) :
  dict_inv contents ix0 nl vs c m → w ∈ [1; 2; 4]%nat → (w < key_width (lc_key (choose_keys c)))%nat →
  256 ^ Z.of_nat w < Z.of_nat (size m) + 2.
Proof.
  intros [Hm _ _ (Hk & H8 & _) _ _ _ _ _] Hw. unfold choose_keys, lc_keys. rewrite Hk, Hm.
  change (0 =? keyUInt8) with true. cbv iota. rewrite H8. cbn [length Nat.eqb negb default from_option id].
  assert (∀ k l, 0 ≤ k ≤ 3 → lc_key (set_keys (set_key c k) l) = k) as Hset.
  { intros k l ?. assert (k = 0 ∨ k = 1 ∨ k = 2 ∨ k = 3) as [ -> |[ -> |[ -> | -> ]]] by lia; done. }
  rewrite !elem_of_cons in Hw.
  repeat match goal with |- context [?a <? ?b] => destruct (Z.ltb_spec a b) end;
    rewrite Hset by (unfold keyUInt8, keyUInt16, keyUInt32, keyUInt64; lia);
    destruct Hw as [-> |[-> |[-> |[]%elem_of_nil]]];
    cbn [key_width]; intros Hlt; vm_compute in Hlt; try lia;
    match goal with |- ?x < _ => let y := eval vm_compute in x in change x with y end; lia.
Qed.

Lemma dict_size contents ix0 nl vs c m : dict_inv contents ix0 nl vs c m → consistent contents vs →
  (size m ≤ length (ixvals (index c)))%nat.
Proof.
  intros [Hm Hn Hr Hk Hok Hst Hlen Hd Hrow] _. destruct vs as [|v vs].
  - destruct (Hst eq_refl) as [_ ->]. rewrite map_size_empty. lia.
  - destruct (Hlen ltac:(done)). lia.
Qed.

(** What a row reads as: NULL, the default value for a nil in a column without NULL, or
    the value as the index column stores it. *)
Definition read_back (nl : bool) (v : lc_value K) : option V :=
  match normal v with
  | None => if nl then None else Some (store nil_cell)
  | Some (_, x) => Some (store x)
  end.

(** What [Encode] writes is read back row by row. *)
Lemma dictionary_carried contents ix0 nl vs c rest :
  ix_ok ix0 ix0 → ixvals ix0 = [] → vs ≠ [] → consistent contents vs → cells_ok vs →
  lc_Append nil_cell time_key time_cell (lc_new ix0 nl) vs = (c, None) → ix_fits (index c) →
  Z.of_nat (colRows (index c)) < 2 ^ 63 → Z.of_nat (length vs) < 2 ^ 63 →
  ∃ d, lc_Decode (lc_new (K := K) ix0 nl) (length vs) ((lc_Encode c).1 ++ rest) = Ok (d, rest)
    ∧ lc_rows d = length vs
    ∧ (∀ w : nat, w ∈ [1; 2; 4]%nat → (w < key_width (lc_key d))%nat →
         256 ^ Z.of_nat w < Z.of_nat (colRows (index c) - reserved nl) + 2)
    ∧ ∀ i v, vs !! i = Some v → lc_Row (λ c i, ixvals c !! i) d i = Some (read_back nl v).
Proof.
  intros Hok H0 Hne Hc Hcells HA Hfits Hrows Hlenvs.
  destruct (dict_append contents ix0 nl [] vs (lc_new ix0 nl) ∅ c H0 (dict_new contents ix0 nl Hok H0) Hc Hcells HA Hfits) as [m Hi].
  cbn [app] in Hi. pose proof (dict_size contents ix0 nl vs c m Hi Hc) as Hsz. rewrite <- (ix_rows _ _ (di_ok _ _ _ _ _ _ Hi)) in Hsz.
  destruct (ix_roundtrip ix0 (index c) (di_ok _ _ _ _ _ _ Hi) Hfits) as (ix' & Hvals & Hdec).
  destruct (choose_keys_fits contents ix0 nl vs c m Hi Hne ltac:(lia)) as (Hkey & Hkeys & Hfit & Hix).
  pose proof Hi as [Hm Hn Hr _ Hokc _ Hlen Hd Hrow].
  assert (length (lc_keys (choose_keys c)) = length vs) as Hlk by (rewrite Hkeys; symmetry; by eapply Forall2_length).
  unfold lc_Encode. rewrite Hr. destruct (Nat.eqb_spec (length vs) 0) as [E0|_]; [by destruct vs|]. cbn [fst].
  set (c1 := choose_keys c) in *. unfold lc_Decode. destruct (Nat.eqb_spec (length vs) 0) as [E0|_]; [by destruct vs|].
  rewrite <- !app_assoc.
  assert (uint64 (Z.lor updateAll (lc_key c1)) ∧ Z.land (Z.lor updateAll (lc_key c1)) indexTypeMask = lc_key c1
    ∧ (Z.land (Z.lor updateAll (lc_key c1)) needGlobalDictionaryBit =? 1) = false
    ∧ (Z.land (Z.lor updateAll (lc_key c1)) hasAdditionalKeysBit =? 0) = false
    ∧ (lc_key c1 =? keyUInt8) || (lc_key c1 =? keyUInt16) || (lc_key c1 =? keyUInt32) || (lc_key c1 =? keyUInt64) = true
    ∧ (0 < key_width (lc_key c1))%nat) as (Hu & Hmask & Hg & Ha & Hv & Hw).
  { assert (lc_key c1 = 0 ∨ lc_key c1 = 1 ∨ lc_key c1 = 2 ∨ lc_key c1 = 3) as [ -> |[ -> |[ -> | -> ]]] by lia;
      vm_compute; repeat split; (discriminate || lia). }
  rewrite reads_UInt64 by done. cbn [lread mbind result_bind]. rewrite Hmask, Hv, Hg, Ha. cbn [negb].
  rewrite reads_Int64 by (unfold int64; rewrite Hix; lia). cbn [lread mbind result_bind].
  rewrite Nat2Z.id, Hix. cbn [index lc_new]. rewrite Hdec. cbn [map_err mbind result_bind].
  rewrite reads_Int64 by (unfold int64; lia). cbn [lread mbind result_bind]. rewrite Nat2Z.id.
  rewrite reads_Vec by done. cbn [lread mbind result_bind].
  eexists. split; [done|].
  assert (lc_rows (set_keys (MkLC (lc_key c1) (length (lc_keys c1)) ix' nl [] [] [] [] [] (Some (∅ : gmap K Z))) (lc_keys c1))
      = length (lc_keys c1)
    ∧ lc_keys (set_keys (MkLC (lc_key c1) (length (lc_keys c1)) ix' nl [] [] [] [] [] (Some (∅ : gmap K Z))) (lc_keys c1))
      = lc_keys c1
    ∧ index (set_keys (MkLC (lc_key c1) (length (lc_keys c1)) ix' nl [] [] [] [] [] (Some (∅ : gmap K Z))) (lc_keys c1))
      = ix'
    ∧ nullable (set_keys (MkLC (lc_key c1) (length (lc_keys c1)) ix' nl [] [] [] [] [] (Some (∅ : gmap K Z))) (lc_keys c1))
      = nl
    ∧ lc_keys (MkLC (lc_key c1) (length (lc_keys c1)) ix' nl [] [] [] [] [] (Some (∅ : gmap K Z))) = [])
    as (E1 & E2 & E3 & E4 & E5).
  { assert (lc_key c1 = 0 ∨ lc_key c1 = 1 ∨ lc_key c1 = 2 ∨ lc_key c1 = 3) as [Ek|[Ek|[Ek|Ek]]] by lia;
      rewrite Ek; by repeat split. }
  cbn [lc_new keys8 keys16 keys32 keys64 append_keys append_index nullable]. rewrite E5. cbn [app].
  split; [by rewrite E1|]. split.
  { intros w Hwk. assert (lc_key (set_keys (MkLC (lc_key c1) (length (lc_keys c1)) ix' nl [] [] [] [] [] (Some (∅ : gmap K Z))) (lc_keys c1))
      = lc_key c1) as -> by (unfold set_keys; cbn; by repeat destruct (_ =? _)).
    intros Hlt. pose proof (choose_keys_narrow _ _ _ _ _ _ w Hi Hwk Hlt) as Hn2. rewrite (ix_rows _ _ Hokc). destruct (Hlen Hne) as [-> _]. lia. }
  intros i v Hiv.
  destruct (Forall2_lookup_l _ _ _ _ _ Hrow Hiv) as (key & Hkey_i & Hval). cbv beta in Hval.
  unfold lc_Row, indexRowNum. rewrite E2, E3, E4, Hkeys, Hkey_i, Hvals. cbn [mbind option_bind]. unfold read_back.
  destruct (normal v) as [[k x]|] eqn:Env.
  - destruct (Hd k key Hval) as [Hb Hx]. destruct (Z.eqb_spec key 0); [destruct nl; cbn in Hb; lia|].
    cbn [andb]. rewrite Hx. cbn [mbind option_bind]. do 3 f_equal. symmetry. eapply Hc; [|exact Env].
    by eapply list_elem_of_lookup_2.
  - subst key. cbn [Z.eqb andb]. destruct nl; [done|]. destruct (Hlen Hne) as [_ Hz].
    change (Z.to_nat 0) with 0%nat. rewrite Hz. done.
Qed.


(** No key is cut: whatever was appended, the keys that [Encode] converts to 8, 16, 32
    or 64 bits are the keys of the rows, each fits the width chosen, and each is a
    position of the dictionary that is sent.  The limits of the widths leave just enough
    room for the default value and the null value in front of the dictionary. *)
Theorem keys_never_cut contents ix0 nl vs c :
  ix_ok ix0 ix0 → ixvals ix0 = [] → vs ≠ [] → consistent contents vs → cells_ok vs →
  lc_Append nil_cell time_key time_cell (lc_new ix0 nl) vs = (c, None) → ix_fits (index c) →
  Z.of_nat (colRows (index c)) < 2 ^ 63 →
  let c' := choose_keys c in
  length (lc_keys c') = length vs ∧ lc_keys c' = append_keys c
  ∧ Forall (λ i, 0 ≤ i < 256 ^ Z.of_nat (key_width (lc_key c')) ∧ i < Z.of_nat (colRows (index c'))) (lc_keys c').
Proof.
  intros Hok H0 Hne Hc Hcells HA Hfits Hrows.
  destruct (dict_append contents ix0 nl [] vs (lc_new ix0 nl) ∅ c H0 (dict_new contents ix0 nl Hok H0) Hc Hcells HA Hfits) as [m Hi].
  cbn [app] in Hi. pose proof (dict_size contents ix0 nl vs c m Hi Hc) as Hsz. rewrite <- (ix_rows _ _ (di_ok _ _ _ _ _ _ Hi)) in Hsz.
  destruct (choose_keys_fits contents ix0 nl vs c m Hi Hne ltac:(lia)) as (Hkey & Hkeys & Hfit & Hix).
  cbv zeta. rewrite Hix, Hkeys in *. split; [|split; [done|]].
  - symmetry. apply (Forall2_length _ _ _ (di_row _ _ _ _ _ _ Hi)).
  - apply Forall_forall. intros i Hin. rewrite Forall_forall in Hfit. split; [by apply Hfit|].
    apply (key_bound _ _ _ _ _ _ _ Hi) in Hin. rewrite (ix_rows _ _ (di_ok _ _ _ _ _ _ Hi)). destruct (di_len _ _ _ _ _ _ Hi Hne) as [-> _]. lia.
Qed.
End theorems.

(** ** Concrete columns, and the edges of the encoding *)

(** A column of bytes that refuses 255. *)
Module ByteIndex.
#[export] Instance ops : ColumnOps := {|
  col := gostring; cell := byte; col_err := unit;
  colName _ := []; colType _ := []; colRows := length;
  AppendRow c x := if beq x xff then (c, Some ()) else (c ++ [x], None);
  colReset _ := []; newColumn _ _ := Ok []; WriteStatePrefix _ := None;
  colEncode c := c; ReadStatePrefix _ := None;
  colDecode c n s := if decide (n ≤ length s)%nat then Ok (c ++ take n s, drop n s) else Err ()
|}.

Definition zero : @cell ops := x00.

#[export] Instance laws : IndexLaws ops leb zero byte.
Proof.
  refine (@Build_IndexLaws ops leb zero byte (λ c, c) (λ x, x) (λ _, True) (λ _, True) (λ ix0 c, ix0 = []) _ _ _ _ _ _); try done.
  - intros ix0 c _. split; [done|]. by eexists.
  - intros ix0 c x c' Hi _. cbn. destruct (beq x xff); [done|]. by intros [= <-].
  - intros ix0 c -> _. exists c. split; [done|]. intros rest. cbn. rewrite decide_True by (rewrite length_app; lia).
    by rewrite take_app_length, drop_app_length.
Defined.

Definition val (k x : byte) : lc_value (CO := ops) byte := @LVal ops byte k x.
Definition nil_ : lc_value (CO := ops) byte := LNil.
Definition bytes_row (c : @col ops) (i : nat) : option byte := (c : gostring) !! i.

Definition appends (nl : bool) (vs : list (lc_value (CO := ops) byte)) :=
  lc_Append zero (λ _, x00) (λ _, zero) (lc_new (K := byte) ([] : @col ops) nl) vs.
End ByteIndex.
Import ByteIndex.


(** 254 values, the default and the null: 256 positions, the most a byte can name. *)
Definition full_byte_dictionary : list (lc_value (CO := ops) byte) :=
  map (λ n, val (zb (Z.of_nat n)) (zb (Z.of_nat n))) (seq 0 254).

Lemma keys_never_cut_witness :
  let c' := choose_keys (appends true full_byte_dictionary).1 in
  lc_key c' = keyUInt8 ∧ last (lc_keys c') = Some 255 ∧ colRows (index c') = 256%nat
  ∧ Forall (λ i, 0 ≤ i < 256 ^ Z.of_nat (key_width (lc_key c')) ∧ i < Z.of_nat (colRows (index c'))) (lc_keys c').
Proof.
  split; [vm_compute; reflexivity|]. split; [vm_compute; reflexivity|]. split; [vm_compute; reflexivity|].
  apply (keys_never_cut zero (λ _, x00) (λ _, zero) (λ k, k) [] true full_byte_dictionary).
  - reflexivity.
  - reflexivity.
  - discriminate.
  - intros v k x Hv. unfold full_byte_dictionary in Hv. apply list_elem_of_In, in_map_iff in Hv as (n & <- & _).
    cbn. by intros [= <- <-].
  - done.
  - fold (appends true full_byte_dictionary).
    assert ((appends true full_byte_dictionary).2 = None) as <- by (vm_compute; reflexivity). apply surjective_pairing.
  - done.
  - vm_compute. reflexivity.
Defined.

(** The test for a global dictionary compares the masked bit with 1, which it never is. *)
Lemma global_dictionary_never_refused typ : (Z.land typ needGlobalDictionaryBit =? 1) = false.
Proof.
  destruct (Z.eqb_spec (Z.land typ needGlobalDictionaryBit) 1) as [E|]; [|done].
  apply (f_equal (λ z, Z.testbit z 0)) in E. rewrite Z.land_spec in E. cbn in E. by rewrite andb_false_r in E.
Qed.

(** The map compares pointers by address: a variable that is reused for the next row is
    taken for the row before. *)
Lemma reused_pointer_repeats_value :
  ∃ d, lc_Decode (lc_new (CO := ops) (K := byte) [] false) 2
         ((lc_Encode (appends false [val x00 x41; val x00 x42]).1).1) = Ok (d, [])
    ∧ lc_Row bytes_row d 1 = Some (Some x41).
Proof. eexists. split; [vm_compute; reflexivity|]. reflexivity. Qed.

(** [Encode] forgets the keys of the rows it has written but keeps the column; rows that
    are appended then are counted but never encoded. *)
Lemma rows_after_encode_are_lost :
  let c := (lc_Encode (appends false [val x01 x01]).1).2 in
  let c' := (lc_AppendRow zero (λ _, x00) (λ _, zero) c (val x02 x02)).1 in
  lc_rows c' = 2%nat ∧ length (lc_keys (choose_keys c')) = 1%nat.
Proof. split; reflexivity. Qed.

(** A value that the dictionary refuses is counted as a row all the same. *)
Lemma refused_value_is_counted :
  let '(c, e) := appends false [val xff xff] in e = Some (LCIndex (CO := ops) ()) ∧ lc_rows c = 1%nat ∧ append_keys c = [].
Proof. done. Qed.
