(* ===== verification/Enum.v ===== *)
(** * Enumerations ([lib/column/enum.go], [enum8.go], [enum16.go])

    The parser of the type text [Enum8('a' = 1, ...)], the two columns it makes, and
    the appending of numbers and names.  [None] is a panic: a slice bound out of range
    while escapes are removed, or the dereference of a nil pointer. *)

From Stdlib Require Import ZifyBool.
From S2P Require Import Prelude GoStd Strconv Wire ProtoPackets.
Local Open Scope Z_scope.
#[local] Set Warnings "-register-all".

Definition enum8Type : gostring := str "Enum8".
Definition enum16Type : gostring := str "Enum16".

(** The variables of the loop. *)
Record enum_state := MkEnum {
  e_typ : gostring;
  bracketOpen : bool;
  stringOpen : bool;
  foundValueOffset : nat;
  foundValueLen : nat;
  skippedValueTokens : list nat;
  indexFound : bool;
  valueFound : bool;
  valueIndex : Z;
  e_values : list gostring;
  e_indexes : list Z
}.

Definition enum_start : enum_state := MkEnum [] false false 0 0 [] false false 0 [] [].

(** [foundName = append(foundName[:skipped], foundName[skipped+1:]...)] for each. *)
Fixpoint remove_skipped (name : gostring) (skipped : list nat) : option gostring :=
  match skipped with
  | [] => Some name
  | k :: skipped =>
      if decide (k < length name)%nat then remove_skipped (take k name ++ drop (k + 1) name) skipped else None
  end.

(** The bytes of the index: up to a comma or a closing bracket. *)
Definition index_text (src : gostring) (c : nat) : gostring :=
  fst (span (λ b, negb (beq b "," || beq b ")")) (drop (c + 1) src)).

(** One round of the loop at position [c]: [None] a panic, [Some None] the early
    return, otherwise the state and the position before the increment. *)
Definition enum_step (src : gostring) (c : nat) (token : byte) (s : enum_state) : option (option (enum_state * nat)) :=
  let '(MkEnum typ bo so off len sk fi fv vi vals idxs) := s in
  if beq token "(" && negb so then
    let typ := take c src in
    if negb (bool_decide (typ = enum8Type) || bool_decide (typ = enum16Type)) then Some None
    else Some (Some (MkEnum typ true so off len sk fi fv vi vals idxs, c))
  else if bo && beq token "'" && negb so then
    Some (Some (MkEnum typ bo true (c + 1) len sk fi fv vi vals idxs, c))
  else if beq token "'" && so then
    Some (Some (MkEnum typ bo false off (c - off) sk fi true vi vals idxs, c))
  else if beq token "\" && so then
    Some (Some (MkEnum typ bo so off len (sk ++ [(c - off)%nat]) fi fv vi vals idxs, c + 1))%nat
  else if beq token "=" && negb so then
    if negb fv then Some None
    else
      let t := index_text src c in
      match Atoi (TrimSpace t) with
      | None => Some None
      | Some idx => Some (Some (MkEnum typ bo so off len sk true fv idx vals idxs, c + length t))%nat
      end
  else if (beq token "," || beq token ")") && negb so then
    if negb fv then Some None
    else
      let vi := if fi then vi else vi + 1 in
      if (bool_decide (typ = enum8Type) && (255 <? vi)) || (bool_decide (typ = enum16Type) && (65535 <? vi))
      then Some None
      else
        name ← remove_skipped (take len (drop off src)) sk;
        Some (Some (MkEnum typ bo so off len sk false false vi (vals ++ [name]) (idxs ++ [vi]), c))
  else Some (Some (s, c)).

Fixpoint enum_loop (fuel : nat) (src : gostring) (c : nat) (s : enum_state) : option (option enum_state) :=
  match fuel with
  | O => None
  | S fuel =>
      match src !! c with
      | None => Some (Some s)
      | Some token =>
          r ← enum_step src c token s;
          match r with
          | None => Some None
          | Some (s, c) => enum_loop fuel src (c + 1) s
          end
      end
  end.

(** Type, values and indexes, or [Some None] when they are not valid. *)
Definition extractEnumNamedValues (chType : gostring) : option (option (gostring * list gostring * list Z)) :=
  r ← enum_loop (S (length chType)) chType 0 enum_start;
  match r with
  | None => Some None
  | Some s => if bool_decide (e_indexes s = []) then Some None else Some (Some (e_typ s, e_values s, e_indexes s))
  end.

(** ** The columns *)

Record Enum8 := MkEnum8 {
  iv8 : gmap gostring Z;
  vi8 : gmap Z gostring;
  enumValuesBitset : list Z;      (* four 64-bit words *)
  col8 : list Z
}.

Record Enum16 := MkEnum16 {
  iv16 : gmap gostring Z;
  vi16 : gmap Z gostring;
  continuous : bool;
  minEnum : Z;
  maxEnum : Z;
  col16 : list Z
}.

(** [enumValuesBitset[uint8(v)>>6] |= 1 << (v & 63)] and its test. *)
Definition word_of (z : Z) : nat := Z.to_nat (Z.shiftr (z mod 256) 6).
Definition bit_of (z : Z) : Z := Z.shiftl 1 (Z.land z 63).
Definition set_bit (bits : list Z) (v : Z) : list Z := alter (λ w, Z.lor w (bit_of v)) (word_of v) bits.
Definition test_bit (bits : list Z) (z : Z) : bool :=
  negb (Z.land (default 0 (bits !! word_of z)) (bit_of z) =? 0).

Definition enum8_add (e : Enum8) (ni : gostring * Z) : Enum8 :=
  let v := i8 (ni.2) in
  MkEnum8 (<[ni.1 := v]> (iv8 e)) (<[v := ni.1]> (vi8 e)) (set_bit (enumValuesBitset e) v) (col8 e).

Definition newEnum8 (values : list gostring) (indexes : list Z) : Enum8 :=
  foldl enum8_add (MkEnum8 ∅ ∅ [0; 0; 0; 0] []) (zip values indexes).

Definition enum16_add (e : Enum16) (ni : gostring * Z) : Enum16 :=
  let k := i16 (ni.2) in
  MkEnum16 (<[ni.1 := k]> (iv16 e)) (<[k := ni.1]> (vi16 e)) (continuous e)
    (if k <? minEnum e then k else minEnum e) (if maxEnum e <? k then k else maxEnum e) (col16 e).

Definition newEnum16 (values : list gostring) (indexes : list Z) : Enum16 :=
  let e := foldl enum16_add (MkEnum16 ∅ ∅ false 32767 (-32768) []) (zip values indexes) in
  MkEnum16 (iv16 e) (vi16 e) (i16 (i16 (maxEnum e - minEnum e) + 1) =? i16 (Z.of_nat (size (vi16 e))))
    (minEnum e) (maxEnum e) (col16 e).

Inductive enum_column := CEnum8 (e : Enum8) | CEnum16 (e : Enum16).

(** [Enum]: [Some None] is the error "invalid Enum". *)
Definition newEnum (chType : gostring) : option (option enum_column) :=
  r ← extractEnumNamedValues chType;
  Some (match r with
        | None => None
        | Some (typ, values, indexes) =>
            Some (if bool_decide (typ = enum8Type) then CEnum8 (newEnum8 values indexes)
                  else CEnum16 (newEnum16 values indexes)) end).

(** ** Appending *)

(** The Go values the columns tell apart: [EIntN] is the column's own integer type. *)
Inductive enum_any :=
| EIntN (z : Z)
| EIntNPtr (z : option Z)
| EInt (z : Z)
| EIntPtr (z : option Z)
| EStr (s : gostring)
| EStrPtr (s : option gostring)
| ENil
| EValuer (v : option enum_any)     (* driver.Valuer, [None]: Value fails *)
| EStringer (s : gostring)
| EOther.

Inductive enum_err := UnknownElement | UnknownName (s : gostring) | ConverterError.

Definition push8 (e : Enum8) (z : Z) : Enum8 := MkEnum8 (iv8 e) (vi8 e) (enumValuesBitset e) (col8 e ++ [i8 z]).

(** [case int]. *)
Definition enum8_int (e : Enum8) (z : Z) : result enum_err Enum8 :=
  if test_bit (enumValuesBitset e) z then Ok (push8 e z) else Err UnknownElement.

Definition enum8_str (e : Enum8) (s : gostring) : result enum_err Enum8 :=
  match iv8 e !! s with Some v => Ok (push8 e v) | None => Err (UnknownName s) end.

Fixpoint Enum8_AppendRow (e : Enum8) (v : enum_any) : option (result enum_err Enum8) :=
  match v with
  | EIntN z => Some (enum8_int e z)
  | EIntNPtr None => None
  | EIntNPtr (Some z) => Some (enum8_int e z)
  | EInt z => Some (enum8_int e z)
  | EIntPtr (Some z) => Some (enum8_int e z)
  | EIntPtr None => Some (Ok (push8 e 0))
  | EStr s => Some (enum8_str e s)
  | EStrPtr (Some s) => Some (enum8_str e s)
  | EStrPtr None => Some (Ok (push8 e 0))
  | ENil => Some (Ok (push8 e 0))
  | EValuer None => Some (Err ConverterError)
  | EValuer (Some v) => Enum8_AppendRow e v
  | EStringer s => Some (enum8_str e s)
  | EOther => Some (Err ConverterError)
  end.

(** [Row]: a number without a name reads as the empty string. *)
Definition Enum8_Row (e : Enum8) (i : nat) : option gostring := z ← col8 e !! i; Some (default [] (vi8 e !! z)).

Definition push16 (e : Enum16) (z : Z) : Enum16 :=
  MkEnum16 (iv16 e) (vi16 e) (continuous e) (minEnum e) (maxEnum e) (col16 e ++ [i16 z]).

Definition enum16_int (e : Enum16) (z : Z) : result enum_err Enum16 :=
  match vi16 e !! i16 z with Some _ => Ok (push16 e z) | None => Err UnknownElement end.

(** [case int16]: a range without gaps is tested by its ends. *)
Definition enum16_int16 (e : Enum16) (z : Z) : result enum_err Enum16 :=
  if continuous e && (minEnum e <=? z) && (z <=? maxEnum e) then Ok (push16 e z) else enum16_int e z.

Definition enum16_str (e : Enum16) (s : gostring) : result enum_err Enum16 :=
  match iv16 e !! s with Some v => Ok (push16 e v) | None => Err (UnknownName s) end.

Fixpoint Enum16_AppendRow (e : Enum16) (v : enum_any) : option (result enum_err Enum16) :=
  match v with
  | EIntN z => Some (enum16_int16 e z)
  | EIntNPtr None => None
  | EIntNPtr (Some z) => Some (enum16_int16 e z)
  | EInt z => Some (enum16_int e z)
  | EIntPtr (Some z) => Some (enum16_int e z)
  | EIntPtr None => Some (Ok (push16 e 0))
  | EStr s => Some (enum16_str e s)
  | EStrPtr (Some s) => Some (enum16_str e s)
  | EStrPtr None => Some (Ok (push16 e 0))
  | ENil => Some (Ok (push16 e 0))
  | EValuer None => Some (Err ConverterError)
  | EValuer (Some v) => Enum16_AppendRow e v
  | EStringer s => Some (enum16_str e s)
  | EOther => Some (Err ConverterError)
  end.

(** [Append]: the element types of the slices it takes. *)
Inductive enum_slice :=
| SIntN (l : list Z)
| SIntNPtr (l : list (option Z))
| SInt (l : list Z)
| SIntPtr (l : list (option Z))
| SStr (l : list gostring)
| SStrPtr (l : list (option gostring))
| SValuer (v : option enum_slice)
| SOther.

Section Append.
Context {E : Type} (AppendRow : E → enum_any → option (result enum_err E)).

(** The elements one by one; a nil element is appended as null.  What was appended before
    a refused element stays. *)
Fixpoint enum_append_loop (e : E) (l : list enum_any) (nulls : list bool) : option (E * result enum_err (list bool)) :=
  match l with
  | [] => Some (e, Ok nulls)
  | v :: l =>
      r ← AppendRow e v;
      match r with
      | Err err => Some (e, Err err)
      | Ok e => enum_append_loop e l (nulls ++ [match v with ENil => true | _ => false end])
      end
  end.

Definition elem {A} (f : option A → enum_any) (v : option A) : enum_any :=
  match v with None => ENil | Some _ => f v end.

Fixpoint enum_Append (e : E) (v : enum_slice) : option (E * result enum_err (list bool)) :=
  match v with
  | SIntN l => enum_append_loop e (map EIntN l) []
  | SIntNPtr l => enum_append_loop e (map (elem EIntNPtr) l) []
  | SInt l => enum_append_loop e (map EInt l) []
  | SIntPtr l => enum_append_loop e (map (elem EIntPtr) l) []
  | SStr l => enum_append_loop e (map EStr l) []
  | SStrPtr l => enum_append_loop e (map (elem EStrPtr) l) []
  | SValuer None => Some (e, Err ConverterError)
  | SValuer (Some v) => enum_Append e v
  | SOther => Some (e, Err ConverterError)
  end.
End Append.

Definition Enum8_Append := enum_Append Enum8_AppendRow.
Definition Enum16_Append := enum_Append Enum16_AppendRow.

Definition Enum16_Row (e : Enum16) (i : nat) : option gostring := z ← col16 e !! i; Some (default [] (vi16 e !! z)).

(** [ScanRow]: what is stored, by the destination. *)
Inductive enum_dest := DString | DStringPtr | DScanner | DOther.
Definition enum_ScanRow (value : gostring) (d : enum_dest) : result enum_err gostring :=
  match d with DOther => Err ConverterError | _ => Ok value end.

Definition Enum8_Reset (e : Enum8) : Enum8 := MkEnum8 (iv8 e) (vi8 e) (enumValuesBitset e) [].
Definition Enum16_Reset (e : Enum16) : Enum16 :=
  MkEnum16 (iv16 e) (vi16 e) (continuous e) (minEnum e) (maxEnum e) [].

(** ** Texts the parser gets wrong *)

Example enum_examples :
  extractEnumNamedValues (str "Enum8('a' = 1, 'b' = 2)") = Some (Some (enum8Type, [str "a"; str "b"], [1; 2]))
  ∧ extractEnumNamedValues (str "Enum8( 'a' , 'b' = 5 )") = Some (Some (enum8Type, [str "a"; str "b"], [1; 5]))
  ∧ extractEnumNamedValues (str "Enum8('a'=1,'b'=256)") = Some None
  ∧ extractEnumNamedValues (str "Enum8('a\'b'=1)") = Some (Some (enum8Type, [str "a'b"], [1])).
Proof. vm_compute. done. Qed.

(** Two escapes in one name: the second is looked for where it stood before the first
    was removed.  An escape of an earlier name: the list is never emptied, so that a byte
    of every later name is removed, or, when the name is too short, the slice panics. *)
Example enum_escapes :
  extractEnumNamedValues (str "Enum8('a\'b\'c' = 1)") = Some (Some (enum8Type, [str "a'b\c"], [1]))
  ∧ extractEnumNamedValues (str "Enum8('a\'b' = 1, 'cde' = 2)") = Some (Some (enum8Type, [str "a'b"; str "ce"], [1; 2]))
  ∧ extractEnumNamedValues (str "Enum8('ab\'c' = 1, 'x' = 2)") = None.
Proof. vm_compute. done. Qed.

(** ** Reading a well-formed type text *)

Definition entry_text (ni : gostring * Z) : gostring := str "'" ++ ni.1 ++ str "' = " ++ FormatInt ni.2.

Definition enum_text (typ : gostring) (l : list (gostring * Z)) : gostring :=
  typ ++ str "(" ++ strings_Join (map entry_text l) (str ", ") ++ str ")".

(** A name without quotes and backslashes. *)
Definition plain_name (n : gostring) : Prop := Forall (λ b, beq b "'" = false ∧ beq b "\" = false) n.

Lemma TrimSpace_index z : TrimSpace (x20 :: FormatInt z) = FormatInt z.
Proof.
  apply TrimSpace_space. assert (∀ n, Forall (λ b, graphic b = true) (FormatUint n)) as Hu.
  { intros n. eapply Forall_impl; [apply FormatUint_digits|]. cbv beta. intros b Hb. destruct b; (done || discriminate Hb). }
  apply trimmed_graphic.
  - unfold FormatInt. destruct (z <? 0); [done|apply FormatUint_nonempty].
  - unfold FormatInt. destruct (z <? 0); [constructor; [done|]|]; apply Hu.
Qed.

Lemma FormatInt_index z : Forall (λ b, negb (beq b "," || beq b ")") = true) (x20 :: FormatInt z).
Proof.
  assert (∀ n, Forall (λ b, negb (beq b "," || beq b ")") = true) (FormatUint n)) as Hu.
  { intros n. eapply Forall_impl; [apply FormatUint_digits|]. cbv beta. intros b Hb. destruct b; (done || discriminate Hb). }
  constructor; [done|]. unfold FormatInt. destruct (z <? 0); [constructor; [done|]|]; apply Hu.
Qed.

(** ** The loop as a run of steps *)

Inductive erun (src : gostring) : nat → enum_state → nat → enum_state → Prop :=
| erun_stop c s : erun src c s c s
| erun_step c s t c' s' c'' s'' :
    src !! c = Some t → enum_step src c t s = Some (Some (s', c')) → erun src (c' + 1) s' c'' s'' →
    erun src c s c'' s''.

Lemma erun_trans src c s c' s' c'' s'' : erun src c s c' s' → erun src c' s' c'' s'' → erun src c s c'' s''.
Proof. induction 1; eauto using erun_step. Qed.

(** Every step goes on. *)
Lemma enum_step_advances src c t s s' c' : enum_step src c t s = Some (Some (s', c')) → (c ≤ c')%nat.
Proof.
  destruct s. unfold enum_step. intros H. repeat (case_match; simplify_eq/=; try lia).
  all: apply bind_Some in H as (name & _ & H); simplify_eq; lia.
Qed.

Lemma erun_loop src c s c' s' fuel :
  erun src c s c' s' → src !! c' = None → (length src - c < fuel)%nat → enum_loop fuel src c s = Some (Some s').
Proof.
  intros Hrun. revert fuel. induction Hrun as [c s|c s t c' s' c'' s'' Ht Hs Hrun IH]; intros fuel Hend Hf;
    (destruct fuel as [|fuel]; [lia|]); cbn [enum_loop].
  - by rewrite Hend.
  - rewrite Ht, Hs. cbn [mbind option_bind]. apply IH; [done|].
    apply enum_step_advances in Hs. apply lookup_lt_Some in Ht. lia.
Qed.

(** The loop never runs out of its fuel: a [None] is a panic. *)
Lemma enum_loop_fuel src c s f1 f2 :
  (length src - c < f1)%nat → (length src - c < f2)%nat → enum_loop f1 src c s = enum_loop f2 src c s.
Proof.
  revert c s f2. induction f1 as [|f1 IH]; intros c s f2 H1 H2; [lia|]. destruct f2 as [|f2]; [lia|].
  cbn [enum_loop]. destruct (src !! c) as [t|] eqn:Et; [|done].
  destruct (enum_step src c t s) as [[[s' c']|]|] eqn:Es; cbn [mbind option_bind]; [|done..].
  apply enum_step_advances in Es. apply lookup_lt_Some in Et. apply IH; lia.
Qed.

(** Between two entries: the bracket is open, and no value is pending. *)
Definition between (typ : gostring) (s : enum_state) (vals : list gostring) (idxs : list Z) : Prop :=
  e_typ s = typ ∧ bracketOpen s = true ∧ stringOpen s = false ∧ skippedValueTokens s = []
  ∧ indexFound s = false ∧ valueFound s = false ∧ e_values s = vals ∧ e_indexes s = idxs.

Definition in_limit (typ : gostring) (z : Z) : Prop :=
  (typ = enum8Type ∧ z ≤ 255) ∨ (typ = enum16Type ∧ z ≤ 65535).

Lemma in_limit_test typ z : in_limit typ z →
  (bool_decide (typ = enum8Type) && (255 <? z)) || (bool_decide (typ = enum16Type) && (65535 <? z)) = false.
Proof.
  intros [[-> Hz]|[-> Hz]]; [rewrite (bool_decide_false (enum8Type = enum16Type)) by done
                            |rewrite (bool_decide_false (enum16Type = enum8Type)) by done]; cbn [andb orb]; lia.
Qed.

Lemma run_name src pre m suf s c :
  src = pre ++ m ++ suf → c = length pre → plain_name m → stringOpen s = true → erun src c s (c + length m) s.
Proof.
  intros -> -> Hm Ho. revert pre. induction Hm as [|b m [H1 H2] Hm IH]; intros pre.
  { rewrite Nat.add_0_r. constructor. }
  eapply erun_step.
  - cbn [app]. apply list_lookup_middle. done.
  - destruct s. cbn in Ho. subst. unfold enum_step. cbn [negb]. rewrite H1, H2, !andb_false_r. cbn [andb]. done.
  - specialize (IH (pre ++ [b])). rewrite length_app in IH. cbn [length] in IH |- *.
    rewrite <- app_assoc in IH. cbn [app] in IH |- *. by rewrite <- Nat.add_assoc in IH.
Qed.

(** A space outside a string. *)
Lemma run_space src pre suf s c :
  src = pre ++ x20 :: suf → c = length pre → stringOpen s = false → erun src c s (c + 1) s.
Proof.
  intros -> -> Ho. eapply erun_step; [by apply list_lookup_middle| |constructor].
  destruct s. cbn in Ho. subst. unfold enum_step. cbn. by rewrite andb_false_r.
Qed.

(** A quoted name. *)
Lemma run_quoted src pre n suf c typ off len sk fi fv vi vals idxs :
  src = pre ++ "'"%byte :: n ++ "'"%byte :: suf → c = length pre → plain_name n →
  erun src c (MkEnum typ true false off len sk fi fv vi vals idxs) (c + length n + 2)
    (MkEnum typ true false (c + 1) (length n) sk fi true vi vals idxs).
Proof.
  intros Hsrc Hc Hn. eapply erun_step; [rewrite Hsrc, Hc; by apply list_lookup_middle|done|].
  eapply erun_trans; [eapply (run_name _ (pre ++ ["'"%byte]) n); [|rewrite length_app; cbn; lia|done|done]|].
  { by rewrite Hsrc, <- app_assoc. }
  eapply erun_step.
  - replace (c + 1 + length n)%nat with (length (pre ++ "'"%byte :: n)) by (rewrite length_app; cbn; lia).
    replace src with ((pre ++ "'"%byte :: n) ++ "'"%byte :: suf) by by rewrite Hsrc, <- app_assoc.
    by apply list_lookup_middle.
  - by cbn.
  - replace (c + 1 + length n - (c + 1))%nat with (length n) by lia.
    replace (c + 1 + length n + 1)%nat with (c + length n + 2)%nat by lia. constructor.
Qed.

(** [= z]. *)
Lemma run_index src pre z t suf c typ off len sk fi vi vals idxs :
  src = pre ++ "="%byte :: x20 :: FormatInt z ++ t :: suf → c = length pre →
  beq t "," || beq t ")" = true → int64 z →
  erun src c (MkEnum typ true false off len sk fi true vi vals idxs) (c + length (FormatInt z) + 2)
    (MkEnum typ true false off len sk true true z vals idxs).
Proof.
  intros Hsrc Hc Ht Hz.
  assert (index_text src c = x20 :: FormatInt z) as Eidx.
  { unfold index_text. rewrite Hsrc.
    replace (c + 1)%nat with (length (pre ++ ["="%byte])) by (rewrite length_app; cbn; lia).
    replace (pre ++ "="%byte :: x20 :: FormatInt z ++ t :: suf)
      with ((pre ++ ["="%byte]) ++ (x20 :: FormatInt z) ++ t :: suf) by by rewrite <- app_assoc.
    rewrite drop_app_length, span_app; [done|apply FormatInt_index|]. cbn. by rewrite Ht. }
  eapply erun_step; [rewrite Hsrc, Hc; by apply list_lookup_middle| |].
  - unfold enum_step. cbn. rewrite Eidx, TrimSpace_index, Atoi_FormatInt by done. done.
  - cbn [length]. replace (c + S (length (FormatInt z)) + 1)%nat with (c + length (FormatInt z) + 2)%nat by lia. constructor.
Qed.

(** The comma or the bracket behind an entry. *)
Lemma run_separator src pre t suf c n typ off len vi vals idxs :
  src = pre ++ t :: suf → c = length pre → beq t "," || beq t ")" = true → in_limit typ vi →
  take len (drop off src) = n →
  erun src c (MkEnum typ true false off len [] true true vi vals idxs) (c + 1)
    (MkEnum typ true false off len [] false false vi (vals ++ [n]) (idxs ++ [vi])).
Proof.
  intros Hsrc Hc Ht Hl Hn. eapply erun_step; [rewrite Hsrc, Hc; by apply list_lookup_middle| |constructor].
  unfold enum_step. rewrite (in_limit_test typ vi Hl), Hn. apply orb_prop in Ht.
  destruct (beq_spec t ",") as [-> |]; [done|]. destruct (beq_spec t ")") as [-> |]; [done|]. by destruct Ht.
Qed.

Lemma run_entry src pre ni t suf c typ s vals idxs :
  src = pre ++ entry_text ni ++ t :: suf → c = length pre → beq t "," || beq t ")" = true →
  plain_name ni.1 → int64 ni.2 → in_limit typ ni.2 → between typ s vals idxs →
  ∃ s', erun src c s (c + length (entry_text ni) + 1) s' ∧ between typ s' (vals ++ [ni.1]) (idxs ++ [ni.2]).
Proof.
  destruct ni as [n z], s as [typ' bo so off len sk fi fv vi vals' idxs']. unfold between. cbn [fst snd].
  intros Hsrc Hc Ht Hn Hz Hl. cbn [e_typ bracketOpen stringOpen skippedValueTokens indexFound valueFound e_values e_indexes].
  intros (-> & -> & -> & -> & -> & -> & -> & ->). cbn in Hsrc.
  exists (MkEnum typ true false (c + 1) (length n) [] false false z (vals ++ [n]) (idxs ++ [z])).
  split; [|done]. rewrite <- app_assoc in Hsrc. cbn in Hsrc.
  eapply erun_trans; [by eapply run_quoted|].
  eapply erun_trans; [eapply (run_space _ (pre ++ "'"%byte :: n ++ ["'"%byte]))|].
  { by rewrite Hsrc, <- app_assoc, <- app_comm_cons, <- app_assoc. }
  { rewrite !length_app. cbn. rewrite length_app. cbn. lia. }
  { done. }
  eapply erun_trans; [eapply (run_index _ (pre ++ "'"%byte :: n ++ ["'"%byte; x20]) z t suf)|].
  { by rewrite Hsrc, <- app_assoc, <- app_comm_cons, <- app_assoc. }
  { rewrite !length_app. cbn. rewrite length_app. cbn. lia. }
  { done. }
  { done. }
  replace (c + length (entry_text (n, z)) + 1)%nat with (c + length n + 2 + 1 + length (FormatInt z) + 2 + 1)%nat
    by (unfold entry_text; rewrite !length_app; cbn; lia).
  eapply (run_separator _ (pre ++ entry_text (n, z))); [| |done|done|].
  - rewrite Hsrc. unfold entry_text. cbn. by rewrite <- !app_assoc, <- app_comm_cons, <- !app_assoc.
  - unfold entry_text. rewrite !length_app. cbn. lia.
  - rewrite Hsrc, (cons_middle _ pre), (app_assoc pre).
    replace (c + 1)%nat with (length (pre ++ ["'"%byte])) by (rewrite length_app; cbn; lia).
    rewrite drop_app_length. by rewrite take_app_length.
Qed.

Lemma run_entries l : ∀ src pre suf c typ s vals idxs, l ≠ [] →
  src = pre ++ strings_Join (map entry_text l) (str ", ") ++ ")"%byte :: suf → c = length pre →
  Forall (λ ni, plain_name ni.1 ∧ int64 ni.2 ∧ in_limit typ ni.2) l → between typ s vals idxs →
  ∃ s', erun src c s (c + length (strings_Join (map entry_text l) (str ", ")) + 1) s'
        ∧ between typ s' (vals ++ l.*1) (idxs ++ l.*2).
Proof.
  induction l as [|ni l IH]; intros src pre suf c typ s vals idxs Hne Hsrc Hc Hl Hs; [done|].
  apply Forall_cons in Hl as [(Hn & Hz & Hlim) Hl].
  destruct l as [|ni' l].
  { cbn [map strings_Join] in Hsrc |- *. eapply run_entry; try done. }
  rewrite map_cons in Hsrc |- *.
  change (strings_Join (entry_text ni :: map entry_text (ni' :: l)) (str ", "))
    with (entry_text ni ++ str ", " ++ strings_Join (map entry_text (ni' :: l)) (str ", ")) in Hsrc |- *.
  set (J := strings_Join (map entry_text (ni' :: l)) (str ", ")) in *. rewrite <- !app_assoc in Hsrc.
  destruct (run_entry src pre ni ","%byte (x20 :: J ++ ")"%byte :: suf) c typ s vals idxs) as (s1 & R1 & B1); try done.
  destruct (IH src (pre ++ entry_text ni ++ str ", ") suf (c + length (entry_text ni) + 1 + 1)%nat typ s1
              (vals ++ [ni.1]) (idxs ++ [ni.2])) as (s2 & R2 & B2); try done.
  - rewrite Hsrc, <- !app_assoc. done.
  - rewrite !length_app. cbn. lia.
  - exists s2. rewrite <- !app_assoc in B2. split; [|done].
    eapply erun_trans; [done|]. eapply erun_trans.
    + eapply (run_space _ (pre ++ entry_text ni ++ ["," %byte])); [|rewrite !length_app; cbn; lia|apply B1].
      by rewrite Hsrc, <- !app_assoc.
    + eapply eq_ind_r with (P := λ k, erun _ _ _ k _); [exact R2|]. fold J. rewrite !length_app. cbn. lia.
Qed.

(** The parser of enumeration types reads back every type text the server writes for
    names without quotes and backslashes: the names and the numbers, in order, whatever
    the numbers are, down to the smallest [int64]. *)
Theorem enum_parse_roundtrip typ l :
  typ = enum8Type ∨ typ = enum16Type → l ≠ [] →
  Forall (λ ni, plain_name ni.1 ∧ int64 ni.2 ∧ in_limit typ ni.2) l →
  extractEnumNamedValues (enum_text typ l) = Some (Some (typ, l.*1, l.*2)).
Proof.
  intros Htyp Hne Hl. unfold extractEnumNamedValues, enum_text.
  set (J := strings_Join (map entry_text l) (str ", ")).
  set (src := typ ++ str "(" ++ J ++ str ")").
  set (s1 := MkEnum typ true false 0 0 [] false false 0 [] []).
  assert (erun src 0 enum_start (length typ + 1) s1) as R1.
  { eapply erun_trans; [|eapply erun_step; [unfold src; by apply list_lookup_middle| |constructor]].
    - destruct Htyp as [-> | ->]; repeat (first [by apply erun_stop | eapply erun_step; [reflexivity|reflexivity|]; cbn [Nat.add]]).
    - unfold enum_step, enum_start, src. cbn. rewrite take_app_length.
      destruct Htyp as [-> | ->]; done. }
  destruct (run_entries l src (typ ++ str "(") [] (length typ + 1) typ s1 [] []) as (s2 & R2 & B2); try done.
  { unfold src. by rewrite <- app_assoc. }
  { rewrite length_app. done. }
  rewrite (erun_loop src 0 enum_start _ s2 _ (erun_trans _ _ _ _ _ _ _ R1 R2)).
  - cbn [mbind option_bind]. destruct B2 as (-> & _ & _ & _ & _ & _ & -> & ->). cbn [app].
    rewrite bool_decide_false; [done|]. by destruct l.
  - apply lookup_ge_None. unfold src. rewrite !length_app. fold J. cbn. lia.
  - lia.
Qed.

Lemma enum_parse_roundtrip_witness :
  extractEnumNamedValues (enum_text enum8Type [(str "hello", -5); (str "wor ld", 200)])
  = Some (Some (enum8Type, [str "hello"; str "wor ld"], [-5; 200])).
Proof.
  apply (enum_parse_roundtrip enum8Type [(str "hello", -5); (str "wor ld", 200)]); [by left|done|].
  repeat constructor; cbn; lia.
Defined.

(** ** The bit set of [Enum8] is the set of its numbers *)

Lemma land_bit w k : 0 ≤ k → negb (Z.land w (Z.shiftl 1 k) =? 0) = Z.testbit w k.
Proof.
  intros Hk. assert (Z.land w (Z.shiftl 1 k) = if Z.testbit w k then Z.shiftl 1 k else 0) as ->.
  { apply Z.bits_inj'. intros j Hj. rewrite Z.land_spec, Z.shiftl_1_l, Z.pow2_bits_eqb by lia.
    destruct (Z.eqb_spec k j) as [-> |Hne].
    - destruct (Z.testbit w j); [|by rewrite Z.testbit_0_l]. by rewrite Z.pow2_bits_true.
    - rewrite andb_false_r. destruct (Z.testbit w k); [|by rewrite Z.testbit_0_l].
      by rewrite Z.pow2_bits_false. }
  destruct (Z.testbit w k); [|done]. rewrite Z.shiftl_1_l. pose proof (Z.pow_pos_nonneg 2 k).
  destruct (Z.eqb_spec (2 ^ k) 0); [lia|done].
Qed.

Lemma bit_index z : Z.land z 63 = (z mod 256) mod 64.
Proof.
  change 63 with (Z.ones 6). rewrite Z.land_ones by lia. change (2 ^ 6) with 64.
  pose proof (Z.div_mod z 256). rewrite (Z.div_mod z 256) at 1 by lia.
  replace (256 * (z / 256) + z mod 256) with (z mod 256 + 4 * (z / 256) * 64) by lia. by rewrite Z.mod_add by lia.
Qed.

Lemma word_index z : word_of z = Z.to_nat ((z mod 256) / 64).
Proof. unfold word_of. by rewrite Z.shiftr_div_pow2 by lia. Qed.

Lemma word_lt z : (word_of z < 4)%nat.
Proof.
  rewrite word_index. pose proof (Z.mod_pos_bound z 256).
  assert ((z mod 256) / 64 < 4) by (apply Z.div_lt_upper_bound; lia).
  assert (0 ≤ (z mod 256) / 64) by (apply Z.div_pos; lia). lia.
Qed.

Lemma test_set_bit bits v z :
  length bits = 4%nat → test_bit (set_bit bits v) z = test_bit bits z || (z mod 256 =? v mod 256).
Proof.
  intros Hlen. unfold test_bit, bit_of. pose proof (Z.mod_pos_bound z 64). pose proof (Z.mod_pos_bound v 64).
  assert (∀ x, 0 ≤ Z.land x 63) as Hnn.
  { intros x. rewrite bit_index. apply Z.mod_pos_bound. lia. }
  rewrite !land_bit by apply Hnn. unfold set_bit.
  pose proof (word_lt v) as Hv. pose proof (word_lt z) as Hzw.
  pose proof (Z.div_mod (z mod 256) 64) as Dz. pose proof (Z.div_mod (v mod 256) 64) as Dv.
  pose proof (Z.mod_pos_bound z 256). pose proof (Z.mod_pos_bound v 256).
  assert (0 ≤ z mod 256 / 64) by (apply Z.div_pos; lia). assert (0 ≤ v mod 256 / 64) by (apply Z.div_pos; lia).
  destruct (decide (word_of v = word_of z)) as [E|Hne].
  - rewrite E, list_lookup_alter_eq. destruct (lookup_lt_is_Some_2 bits (word_of z)) as [w Hw]; [lia|].
    rewrite Hw. cbn [fmap option_fmap option_map default from_option id].
    unfold bit_of. rewrite Z.lor_spec, Z.shiftl_1_l, Z.pow2_bits_eqb by apply Hnn. f_equal.
    rewrite !bit_index. rewrite !word_index in E.
    destruct (Z.eqb_spec ((v mod 256) mod 64) ((z mod 256) mod 64)), (Z.eqb_spec (z mod 256) (v mod 256)); (done || lia || (exfalso; congruence)).
  - rewrite list_lookup_alter_ne by done. destruct (Z.eqb_spec (z mod 256) (v mod 256)) as [E|_]; [|by rewrite orb_false_r].
    destruct Hne. by rewrite !word_index, E.
Qed.

Lemma mod_swrap w z : 0 < w → (swrap w z) mod 2 ^ w = z mod 2 ^ w.
Proof.
  intros Hw. unfold swrap. rewrite Zminus_mod_idemp_l. f_equal. lia.
Qed.

(** Two numbers have the same low byte when they are the same [int8]. *)
Lemma i8_mod z v : i8 z = i8 v ↔ z mod 256 = v mod 256.
Proof.
  split; intros H.
  - pose proof (mod_swrap 8 z) as Hz. pose proof (mod_swrap 8 v) as Hv. unfold i8 in H. rewrite H in Hz.
    change (2 ^ 8) with 256 in *. rewrite <- Hz, <- Hv; lia.
  - unfold i8, swrap. change (2 ^ 8) with 256. change (2 ^ (8 - 1)) with 128.
    by rewrite <- (Zplus_mod_idemp_l z), <- (Zplus_mod_idemp_l v), H.
Qed.

Lemma i8_idem z : i8 (i8 z) = i8 z.
Proof. apply swrap_small; [lia|]. by apply (swrap_range 8). Qed.

Lemma i16_idem z : i16 (i16 z) = i16 z.
Proof. apply swrap_small; [lia|]. by apply (swrap_range 16). Qed.

(** What holds of every column: the bit set and the map hold the same numbers, every name
    has a number with a name, and the rows are numbers with a name, or the zero that
    stands for null. *)
Record enum8_ok (e : Enum8) : Prop := {
  e8_len : length (enumValuesBitset e) = 4%nat;
  e8_bits : ∀ z, test_bit (enumValuesBitset e) z = bool_decide (is_Some (vi8 e !! i8 z));
  e8_names : ∀ n z, iv8 e !! n = Some z → is_Some (vi8 e !! z) ∧ i8 z = z;
  e8_rows : Forall (λ z, (is_Some (vi8 e !! z) ∨ z = 0) ∧ i8 z = z) (col8 e)
}.

Lemma enum8_add_ok e ni : col8 e = [] → enum8_ok e → enum8_ok (enum8_add e ni) ∧ col8 (enum8_add e ni) = [].
Proof.
  intros Hc [Hlen Hbits Hnames Hrows]. destruct ni as [n z]. split; [|done]. constructor; cbn.
  - unfold set_bit. by rewrite length_alter.
  - intros z'. rewrite test_set_bit, Hbits by done.
    destruct (Z.eqb_spec (z' mod 256) (i8 z mod 256)) as [E|E].
    + apply i8_mod in E. rewrite i8_idem in E. rewrite E, lookup_insert_eq, orb_true_r. by rewrite bool_decide_true.
    + rewrite orb_false_r, lookup_insert_ne; [done|]. intros E'. apply E. symmetry.
      apply i8_mod. by rewrite i8_idem.
  - intros n' z'. destruct (decide (n = n')) as [-> |Hne].
    + rewrite lookup_insert_eq. intros [= <-]. rewrite lookup_insert_eq, i8_idem. by split.
    + rewrite lookup_insert_ne by done. intros [H1 H2]%Hnames. split; [|done].
      destruct (decide (i8 z = z')) as [-> |]; [by rewrite lookup_insert_eq|by rewrite lookup_insert_ne].
  - by rewrite Hc.
Qed.

Lemma newEnum8_ok values indexes : enum8_ok (newEnum8 values indexes) ∧ col8 (newEnum8 values indexes) = [].
Proof.
  unfold newEnum8. assert (enum8_ok (MkEnum8 ∅ ∅ [0; 0; 0; 0] []) ∧ col8 (MkEnum8 ∅ ∅ [0; 0; 0; 0] []) = []) as H0.
  { split; [|done]. constructor; cbn; [done| |by intros n z|done]. intros z. rewrite lookup_empty, bool_decide_false by by intros [??].
    unfold test_bit. pose proof (word_lt z) as Hw. destruct (word_of z) as [|[|[|[|]]]]; (done || lia). }
  revert H0. generalize (MkEnum8 ∅ ∅ [0; 0; 0; 0] []). induction (zip values indexes) as [|ni l IH]; intros e [He Hc]; [done|].
  cbn [foldl]. by apply IH, enum8_add_ok.
Qed.

Lemma enum8_push_ok e z : enum8_ok e → is_Some (vi8 e !! i8 z) ∨ i8 z = 0 → enum8_ok (push8 e z).
Proof.
  intros [Hlen Hbits Hnames Hrows] Hz. constructor; cbn; try done.
  apply Forall_app. split; [done|]. apply Forall_singleton. split; [done|apply i8_idem].
Qed.

Lemma enum8_int_ok e z e' : enum8_ok e → enum8_int e z = Ok e' → enum8_ok e'.
Proof.
  intros He. unfold enum8_int. destruct (test_bit (enumValuesBitset e) z) eqn:Et; [|done]. intros [= <-].
  apply enum8_push_ok; [done|]. left. rewrite (e8_bits e He) in Et. by apply bool_decide_eq_true in Et.
Qed.

Lemma enum8_str_ok e s e' : enum8_ok e → enum8_str e s = Ok e' → enum8_ok e'.
Proof.
  intros He. unfold enum8_str. destruct (iv8 e !! s) as [v|] eqn:Ev; [|done]. intros [= <-].
  destruct (e8_names e He s v Ev) as [Hv Hi]. apply enum8_push_ok; [done|]. left. by rewrite Hi.
Qed.

Lemma Enum8_AppendRow_ok v : ∀ e e', enum8_ok e → Enum8_AppendRow e v = Some (Ok e') → enum8_ok e'.
Proof.
  assert (∀ e, enum8_ok e → enum8_ok (push8 e 0)) as H0. { intros e He. apply enum8_push_ok; [done|by right]. }
  revert v. fix IH 1. intros v e e' He. destruct v as [z|[z|]|z|[z|]|s|[s|]| |[v|]|s|]; cbn [Enum8_AppendRow]; intros H;
    simplify_eq; eauto using enum8_int_ok, enum8_str_ok.
  all: try (apply (inj Some) in H; eauto using enum8_int_ok, enum8_str_ok).
Qed.

(** ** The range of [Enum16] *)

Definition e16_inv (e : Enum16) : Prop :=
  col16 e = [] ∧ (∀ z, is_Some (vi16 e !! z) → minEnum e ≤ z ≤ maxEnum e ∧ i16 z = z)
  ∧ (minEnum e ≤ maxEnum e → vi16 e ≠ ∅) ∧ - 2 ^ 15 ≤ minEnum e ∧ maxEnum e < 2 ^ 15
  ∧ (∀ n z, iv16 e !! n = Some z → is_Some (vi16 e !! z) ∧ i16 z = z).

Lemma enum16_add_inv e ni : e16_inv e → e16_inv (enum16_add e ni).
Proof.
  destruct ni as [n k]. intros (Hc & Hr & He & Hlo & Hhi & Hn). pose proof (swrap_range 16 k eq_refl) as Hk.
  change (swrap 16 k) with (i16 k) in Hk. change (2 ^ (16 - 1)) with (2 ^ 15) in Hk.
  split; [done|]. split; [|split; [|split; [|split]]]; cbn.
  - intros z. destruct (decide (i16 k = z)) as [<- |Hne].
    + intros _. rewrite i16_idem. split; [|done].
      destruct (Z.ltb_spec (i16 k) (minEnum e)), (Z.ltb_spec (maxEnum e) (i16 k)); lia.
    + rewrite lookup_insert_ne by done. intros [Hz Hi]%Hr. split; [|done].
      destruct (Z.ltb_spec (i16 k) (minEnum e)), (Z.ltb_spec (maxEnum e) (i16 k)); lia.
  - intros _. apply insert_non_empty.
  - case_match; lia.
  - case_match; lia.
  - intros n' z. destruct (decide (n = n')) as [-> |Hne].
    + rewrite lookup_insert_eq. intros [= <-]. rewrite lookup_insert_eq, i16_idem. by split.
    + rewrite lookup_insert_ne by done. intros [H1 H2]%Hn. split; [|done].
      destruct (decide (i16 k = z)) as [-> |]; [by rewrite lookup_insert_eq|by rewrite lookup_insert_ne].
Qed.

(** As many numbers as the range has places: no gaps, the wrap-around of the count included. *)
Lemma full_range (m : gmap Z gostring) lo hi :
  - 2 ^ 15 ≤ lo → hi < 2 ^ 15 → m ≠ ∅ → (∀ z, is_Some (m !! z) → lo ≤ z ≤ hi) →
  i16 (i16 (hi - lo) + 1) = i16 (Z.of_nat (size m)) → ∀ z, lo ≤ z ≤ hi → is_Some (m !! z).
Proof.
  intros Hlo Hhi Hne Hm Hc z Hz. set (R := list_to_set (seqZ lo (hi - lo + 1)) : gset Z).
  assert (dom m ⊆ R) as Hsub.
  { intros x Hx. apply elem_of_dom, Hm in Hx. apply elem_of_list_to_set, elem_of_seqZ. lia. }
  assert (size R = Z.to_nat (hi - lo + 1)) as HR.
  { unfold R. rewrite size_list_to_set by apply NoDup_seqZ. apply length_seqZ. }
  pose proof (subseteq_size _ _ Hsub) as Hle. rewrite size_dom, HR in Hle.
  assert (size m = Z.to_nat (hi - lo + 1)) as Hsz.
  { assert ((hi - lo + 1) mod 2 ^ 16 = Z.of_nat (size m) mod 2 ^ 16) as E.
    { unfold i16 in Hc. rewrite <- (mod_swrap 16 (Z.of_nat (size m))), <- Hc, mod_swrap by lia.
      rewrite <- (Zplus_mod_idemp_l (swrap _ _)), mod_swrap, Zplus_mod_idemp_l by lia. done. }
    change (2 ^ 15) with 32768 in *. change (2 ^ 16) with 65536 in *.
    destruct (decide (Z.of_nat (size m) = 65536)) as [E6|]; [lia|].
    destruct (decide (hi - lo + 1 = 65536)) as [E7|].
    - rewrite E7, (Z.mod_small (Z.of_nat _)) in E by lia. change (65536 mod 65536) with 0 in E.
      destruct Hne. apply map_size_empty_iff. lia.
    - rewrite !Z.mod_small in E by lia. lia. }
  apply elem_of_dom. rewrite (set_subseteq_size_eq (dom m) R) by (try done; rewrite size_dom, HR; lia).
  apply elem_of_list_to_set, elem_of_seqZ. lia.
Qed.

Record enum16_ok (e : Enum16) : Prop := {
  e16_cont : continuous e = true → ∀ z, minEnum e ≤ z ≤ maxEnum e → is_Some (vi16 e !! z);
  e16_small : ∀ z, is_Some (vi16 e !! z) → i16 z = z;
  e16_names : ∀ n z, iv16 e !! n = Some z → is_Some (vi16 e !! z) ∧ i16 z = z;
  e16_rows : Forall (λ z, (is_Some (vi16 e !! z) ∨ z = 0) ∧ i16 z = z) (col16 e)
}.

Lemma newEnum16_ok values indexes : enum16_ok (newEnum16 values indexes).
Proof.
  unfold newEnum16. assert (e16_inv (MkEnum16 ∅ ∅ false 32767 (-32768) [])) as H0.
  { split; [done|]. cbn. split; [by intros z [x Hx]|]. split; [lia|]. split; [lia|]. split; [lia|]. by intros n z Hx. }
  assert (∀ l e, e16_inv e → e16_inv (foldl enum16_add e l)) as Hfold.
  { intros l. induction l as [|ni l IH]; intros e He; [done|]. cbn [foldl]. by apply IH, enum16_add_inv. }
  apply (Hfold (zip values indexes)) in H0. cbv zeta. revert H0. generalize (foldl enum16_add (MkEnum16 ∅ ∅ false 32767 (-32768) []) (zip values indexes)).
  intros e (Hc & Hr & He & Hlo & Hhi & Hn). constructor; cbn.
  - intros Ec%Z.eqb_eq z Hz. apply (full_range (vi16 e) (minEnum e) (maxEnum e)); try done.
    + apply He. lia.
    + intros x Hx. by apply Hr.
  - intros z Hz. by apply Hr.
  - done.
  - by rewrite Hc.
Qed.

Lemma enum16_push_ok e z : enum16_ok e → is_Some (vi16 e !! i16 z) ∨ i16 z = 0 → enum16_ok (push16 e z).
Proof.
  intros [Hcont Hsmall Hnames Hrows] Hz. constructor; cbn; try done.
  apply Forall_app. split; [done|]. apply Forall_singleton. split; [done|apply i16_idem].
Qed.

(** The shortcut of a range without gaps agrees with the lookup. *)
Lemma enum16_shortcut e z : enum16_ok e → i16 z = z → enum16_int16 e z = enum16_int e z.
Proof.
  intros He Hz. unfold enum16_int16, enum16_int. rewrite Hz.
  destruct (continuous e) eqn:Ec; [|done]. cbn [andb].
  destruct (Z.leb_spec (minEnum e) z), (Z.leb_spec z (maxEnum e)); try done.
  by destruct (e16_cont e He Ec z) as [n ->].
Qed.

Lemma enum16_int_ok e z e' : enum16_ok e → enum16_int e z = Ok e' → enum16_ok e'.
Proof.
  intros He. unfold enum16_int. destruct (vi16 e !! i16 z) as [n|] eqn:En; [|done]. intros [= <-].
  apply enum16_push_ok; [done|]. left. by rewrite En.
Qed.

Lemma enum16_int16_ok e z e' : enum16_ok e → enum16_int16 e z = Ok e' → enum16_ok e'.
Proof.
  intros He. unfold enum16_int16. destruct (continuous e) eqn:Ec; [|by apply enum16_int_ok]. cbn [andb].
  destruct (Z.leb_spec (minEnum e) z), (Z.leb_spec z (maxEnum e)); try by apply enum16_int_ok.
  intros [= <-]. assert (is_Some (vi16 e !! z)) as Hs by by apply (e16_cont e He Ec).
  apply enum16_push_ok; [done|]. left. by rewrite (e16_small e He z Hs).
Qed.

Lemma enum16_str_ok e s e' : enum16_ok e → enum16_str e s = Ok e' → enum16_ok e'.
Proof.
  intros He. unfold enum16_str. destruct (iv16 e !! s) as [v|] eqn:Ev; [|done]. intros [= <-].
  destruct (e16_names e He s v Ev) as [Hv Hi]. apply enum16_push_ok; [done|]. left. by rewrite Hi.
Qed.

Lemma Enum16_AppendRow_ok v : ∀ e e', enum16_ok e → Enum16_AppendRow e v = Some (Ok e') → enum16_ok e'.
Proof.
  assert (∀ e, enum16_ok e → enum16_ok (push16 e 0)) as H0. { intros e He. apply enum16_push_ok; [done|by right]. }
  revert v. fix IH 1. intros v e e' He. destruct v as [z|[z|]|z|[z|]|s|[s|]| |[v|]|s|]; cbn [Enum16_AppendRow]; intros H;
    simplify_eq; eauto using enum16_int_ok, enum16_int16_ok, enum16_str_ok.
  all: try (apply (inj Some) in H; eauto using enum16_int_ok, enum16_int16_ok, enum16_str_ok).
Qed.

(** ** Columns in use *)

Section Use.
Context {E : Type} (AppendRow : E → enum_any → option (result enum_err E)) (Reset : E → E).

(** A column a program has appended to, by rows and by slices that may have failed, and
    has reset. *)
Inductive used (e0 : E) : E → Prop :=
| used_new : used e0 e0
| used_row e v e' : used e0 e → AppendRow e v = Some (Ok e') → used e0 e'
| used_slice e v e' r : used e0 e → enum_Append AppendRow e v = Some (e', r) → used e0 e'
| used_reset e : used e0 e → used e0 (Reset e).

Context (inv : E → Prop).
Hypothesis Hrow : ∀ v e e', inv e → AppendRow e v = Some (Ok e') → inv e'.
Hypothesis Hreset : ∀ e, inv e → inv (Reset e).

Lemma enum_append_loop_inv l : ∀ e nulls e' r, inv e → enum_append_loop AppendRow e l nulls = Some (e', r) → inv e'.
Proof.
  induction l as [|v l IH]; intros e nulls e' r He; cbn [enum_append_loop]; [intros; by simplify_eq|].
  destruct (AppendRow e v) as [[e1|err]|] eqn:Er; cbn [mbind option_bind]; [|intros; by simplify_eq|done].
  apply IH. by eapply Hrow.
Qed.

Lemma enum_Append_inv v e e' r : inv e → enum_Append AppendRow e v = Some (e', r) → inv e'.
Proof.
  intros He. revert v. fix IHv 1. intros v.
  destruct v as [l|l|l|l|l|l|[v|]|]; cbn [enum_Append]; [clear IHv; by apply enum_append_loop_inv..| | |].
  - apply IHv.
  - clear IHv. intros. by simplify_eq.
  - clear IHv. intros. by simplify_eq.
Qed.

Lemma used_inv e0 e : inv e0 → used e0 e → inv e.
Proof.
  intros H0. induction 1; eauto using enum_Append_inv.
Qed.
End Use.

Lemma Enum8_used values indexes e : used Enum8_AppendRow Enum8_Reset (newEnum8 values indexes) e → enum8_ok e.
Proof.
  apply used_inv; [apply Enum8_AppendRow_ok| |apply newEnum8_ok].
  intros e' [? ? ? ?]. by constructor.
Qed.

Lemma Enum16_used values indexes e : used Enum16_AppendRow Enum16_Reset (newEnum16 values indexes) e → enum16_ok e.
Proof.
  apply used_inv; [apply Enum16_AppendRow_ok| |apply newEnum16_ok].
  intros e' [? ? ? ?]. by constructor.
Qed.

(** ** What a value stands for *)

(** Null, a number or a name; [None] for values no row can be made of. *)
Fixpoint element (v : enum_any) : option (option (Z + gostring)) :=
  match v with
  | EIntN z | EIntNPtr (Some z) | EInt z | EIntPtr (Some z) => Some (Some (inl z))
  | EStr s | EStrPtr (Some s) | EStringer s => Some (Some (inr s))
  | EIntPtr None | EStrPtr None | ENil => Some None
  | EIntNPtr None | EValuer None | EOther => None
  | EValuer (Some v) => element v
  end.

(** A nil pointer to the column's own integer type, which is dereferenced. *)
Fixpoint nil_number (v : enum_any) : bool :=
  match v with EIntNPtr None => true | EValuer (Some v) => nil_number v | _ => false end.

(** The [int16] values are within their width. *)
Fixpoint within_int16 (v : enum_any) : Prop :=
  match v with
  | EIntN z | EIntNPtr (Some z) => - 2 ^ 15 ≤ z < 2 ^ 15
  | EValuer (Some v) => within_int16 v
  | _ => True
  end.

(** The elements of a slice; [None] for what is no slice of numbers or names. *)
Fixpoint elements (v : enum_slice) : option (list enum_any) :=
  match v with
  | SIntN l => Some (map EIntN l)
  | SIntNPtr l => Some (map (elem EIntNPtr) l)
  | SInt l => Some (map EInt l)
  | SIntPtr l => Some (map (elem EIntPtr) l)
  | SStr l => Some (map EStr l)
  | SStrPtr l => Some (map (elem EStrPtr) l)
  | SValuer (Some v) => elements v
  | SValuer None | SOther => None
  end.

Section Stores.
Context (names : gmap Z gostring) (numbers : gmap gostring Z) (wrap : Z → Z).

(** The number to be stored: 0 for null, the conversion of a number to the column's width
    when that has a name, or the number of a known name; otherwise the error. *)
Definition enum_stores (v : enum_any) : result enum_err Z :=
  match element v with
  | Some None => Ok 0
  | Some (Some (inl n)) => if bool_decide (is_Some (names !! wrap n)) then Ok (wrap n) else Err UnknownElement
  | Some (Some (inr s)) => match numbers !! s with Some z => Ok z | None => Err (UnknownName s) end
  | None => Err ConverterError
  end.

(** The rows of a slice, up to the first element that is refused, and the null marks. *)
Fixpoint rows_of (l : list enum_any) (nulls : list bool) : list Z * result enum_err (list bool) :=
  match l with
  | [] => ([], Ok nulls)
  | v :: l =>
      match enum_stores v with
      | Err err => ([], Err err)
      | Ok z => let '(zs, r) := rows_of l (nulls ++ [match v with ENil => true | _ => false end]) in (z :: zs, r)
      end
  end.

Definition slice_rows (v : enum_slice) : list Z * result enum_err (list bool) :=
  match elements v with Some l => rows_of l [] | None => ([], Err ConverterError) end.
End Stores.

Lemma elements_not_nil v l : elements v = Some l → Forall (λ x, nil_number x = false) l.
Proof.
  assert (∀ A (f : A → enum_any) (xs : list A), (∀ x, nil_number (f x) = false) → Forall (λ x, nil_number x = false) (map f xs)) as Hm.
  { intros A f xs Hf. apply Forall_map, Forall_true. intros x. apply Hf. }
  revert v l. fix IH 1. intros v l. destruct v as [xs|xs|xs|xs|xs|xs|[v|]|]; cbn [elements]; intros H; simplify_eq;
    [clear IH; apply Hm; by intros [x|] || by intros x ..|by apply (IH v)].
Qed.

(** A column with the rows [zs] behind its own. *)
Definition more8 (e : Enum8) (zs : list Z) : Enum8 := MkEnum8 (iv8 e) (vi8 e) (enumValuesBitset e) (col8 e ++ zs).
Definition more16 (e : Enum16) (zs : list Z) : Enum16 :=
  MkEnum16 (iv16 e) (vi16 e) (continuous e) (minEnum e) (maxEnum e) (col16 e ++ zs).

(** [AppendRow] and [Append] of a column that stores numbers by [stores] and adds them by
    [more]. *)
Section Slices.
Context {E : Type} (AppendRow : E → enum_any → option (result enum_err E)) (more : E → list Z → E).
Context (names : E → gmap Z gostring) (numbers : E → gmap gostring Z) (wrap : Z → Z).
Context (ok : E → Prop) (fits : enum_any → Prop).
Let stores (e : E) := enum_stores (names e) (numbers e) wrap.
Hypothesis more_nil : ∀ e, more e [] = e.
Hypothesis more_cons : ∀ e z zs, more (more e [z]) zs = more e (z :: zs).
Hypothesis more_names : ∀ e zs, names (more e zs) = names e.
Hypothesis more_numbers : ∀ e zs, numbers (more e zs) = numbers e.
Hypothesis row : ∀ v e, ok e → fits v → nil_number v = false →
  AppendRow e v = Some (match stores e v with Ok z => Ok (more e [z]) | Err err => Err err end).
Hypothesis row_ok : ∀ v e e', ok e → AppendRow e v = Some (Ok e') → ok e'.

Lemma enum_append_loop_rows l : ∀ e nulls, ok e → Forall fits l → Forall (λ x, nil_number x = false) l →
  enum_append_loop AppendRow e l nulls =
  Some (let '(zs, r) := rows_of (names e) (numbers e) wrap l nulls in (more e zs, r)).
Proof.
  induction l as [|v l IH]; intros e nulls He Hf Hn; cbn [enum_append_loop rows_of]; [by rewrite more_nil|].
  apply Forall_cons in Hf as [Hfv Hf]. apply Forall_cons in Hn as [Hnv Hn].
  pose proof (row v e He Hfv Hnv) as Hrow. rewrite Hrow. cbn [mbind option_bind]. unfold stores in *.
  destruct (enum_stores (names e) (numbers e) wrap v) as [z|err]; [|by rewrite more_nil].
  rewrite IH by eauto. rewrite more_names, more_numbers.
  destruct (rows_of _ _ _ l _) as [zs r]. by rewrite more_cons.
Qed.

Lemma enum_Append_rows v : ∀ e, ok e → Forall fits (default [] (elements v)) →
  enum_Append AppendRow e v =
  Some (let '(zs, r) := slice_rows (names e) (numbers e) wrap v in (more e zs, r)).
Proof.
  unfold slice_rows. revert v. fix IH 1. intros v e He.
  assert (∀ l, elements v = Some l → Forall (λ x, nil_number x = false) l) as Hn by apply elements_not_nil.
  destruct v as [xs|xs|xs|xs|xs|xs|[v|]|]; cbn [elements default from_option id enum_Append] in *; intros Hf;
    [clear IH; apply enum_append_loop_rows; auto..|by apply IH| |]; by rewrite more_nil.
Qed.
End Slices.

Lemma Enum8_AppendRow_stores v : ∀ e, enum8_ok e → nil_number v = false →
  Enum8_AppendRow e v =
  Some (match enum_stores (vi8 e) (iv8 e) i8 v with Ok z => Ok (more8 e [z]) | Err err => Err err end).
Proof.
  assert (∀ e z, enum8_ok e → enum8_int e z = match (if bool_decide (is_Some (vi8 e !! i8 z)) then Ok (i8 z) else Err UnknownElement) with
    Ok z => Ok (more8 e [z]) | Err err => Err err end) as Hi.
  { intros e z He. unfold enum8_int. rewrite (e8_bits e He). by case_bool_decide. }
  assert (∀ e s, enum8_ok e → enum8_str e s = match (match iv8 e !! s with Some z => Ok z | None => Err (UnknownName s) end) with
    Ok z => Ok (more8 e [z]) | Err err => Err err end) as Hs.
  { intros e s He. unfold enum8_str. destruct (iv8 e !! s) as [z|] eqn:Ez; [|done]. unfold push8. by rewrite (proj2 (e8_names e He s z Ez)). }
  unfold enum_stores. revert v. fix IH 1. intros v e He.
  destruct v as [z|[z|]|z|[z|]|s|[s|]| |[v|]|s|]; cbn [Enum8_AppendRow element nil_number]; intros Hn; try done;
    solve [clear IH; rewrite ?Hi, ?Hs by done; done | by apply IH].
Qed.

Lemma Enum16_AppendRow_stores v : ∀ e, enum16_ok e → within_int16 v → nil_number v = false →
  Enum16_AppendRow e v =
  Some (match enum_stores (vi16 e) (iv16 e) i16 v with Ok z => Ok (more16 e [z]) | Err err => Err err end).
Proof.
  assert (∀ e z, enum16_int e z = match (if bool_decide (is_Some (vi16 e !! i16 z)) then Ok (i16 z) else Err UnknownElement) with
    Ok z => Ok (more16 e [z]) | Err err => Err err end) as Hi.
  { intros e z. unfold enum16_int. case_bool_decide as H; destruct (vi16 e !! i16 z); try done; by destruct H. }
  assert (∀ e z, enum16_ok e → - 2 ^ 15 ≤ z < 2 ^ 15 → enum16_int16 e z = enum16_int e z) as Hi16.
  { intros e z He Hz. apply enum16_shortcut; [done|]. by apply swrap_small. }
  assert (∀ e s, enum16_ok e → enum16_str e s = match (match iv16 e !! s with Some z => Ok z | None => Err (UnknownName s) end) with
    Ok z => Ok (more16 e [z]) | Err err => Err err end) as Hs.
  { intros e s He. unfold enum16_str. destruct (iv16 e !! s) as [z|] eqn:Ez; [|done]. unfold push16. by rewrite (proj2 (e16_names e He s z Ez)). }
  unfold enum_stores. revert v. fix IH 1. intros v e He.
  destruct v as [z|[z|]|z|[z|]|s|[s|]| |[v|]|s|]; cbn [Enum16_AppendRow element nil_number within_int16]; intros Hw Hn; try done;
    solve [clear IH; rewrite ?Hi16, ?Hi, ?Hs by done; done | by apply IH].
Qed.

Lemma Enum8_Append_rows e v : enum8_ok e →
  Enum8_Append e v = Some (let '(zs, r) := slice_rows (vi8 e) (iv8 e) i8 v in (more8 e zs, r)).
Proof.
  intros He. apply (enum_Append_rows Enum8_AppendRow more8 vi8 iv8 i8 enum8_ok (λ _, True)); try done.
  - intros [????]. unfold more8. cbn. by rewrite app_nil_r.
  - intros [????] z zs. unfold more8. cbn. by rewrite <- app_assoc.
  - intros v' e' He' _ Hn. by apply Enum8_AppendRow_stores.
  - apply Enum8_AppendRow_ok.
  - by apply Forall_true.
Qed.

Lemma Enum16_Append_rows e v : enum16_ok e → Forall within_int16 (default [] (elements v)) →
  Enum16_Append e v = Some (let '(zs, r) := slice_rows (vi16 e) (iv16 e) i16 v in (more16 e zs, r)).
Proof.
  intros He Hw. apply (enum_Append_rows Enum16_AppendRow more16 vi16 iv16 i16 enum16_ok within_int16); try done.
  - intros [??????]. unfold more16. cbn. by rewrite app_nil_r.
  - intros [??????] z zs. unfold more16. cbn. by rewrite <- app_assoc.
  - intros v' e' He' Hw' Hn. by apply Enum16_AppendRow_stores.
  - apply Enum16_AppendRow_ok.
Qed.

(** C40: What an enumeration column stores. Whatever was appended to a column before, by
    rows or by slices, [AppendRow] stores a null as 0, a number as its conversion to the
    column's width when that has a name, a name as its number, and refuses every other
    number, every unknown name and every other value with the error of its kind, leaving the
    rows as they were; [Append] stores the elements of a slice in this way up to the first
    that is refused, and marks the nils. So every row is a number of the column's width that
    has a name, or the zero of a null. The shortcuts of the code (the bit set of [Enum8],
    the ends of a continuous range of [Enum16]) make no difference. A nil pointer to the
    column's own integer type is left out of [AppendRow]: it is dereferenced
    ([enum8_wraps_and_panics]). *)
Theorem enum_rows_typed values indexes :
  (∀ e, used Enum8_AppendRow Enum8_Reset (newEnum8 values indexes) e →
        Forall (λ z, (is_Some (vi8 e !! z) ∨ z = 0) ∧ i8 z = z) (col8 e)
        ∧ (∀ v, nil_number v = false →
             Enum8_AppendRow e v = Some (match enum_stores (vi8 e) (iv8 e) i8 v with
                                         | Ok z => Ok (more8 e [z]) | Err err => Err err end))
        ∧ (∀ v, Enum8_Append e v = Some (let '(zs, r) := slice_rows (vi8 e) (iv8 e) i8 v in (more8 e zs, r))))
  ∧ (∀ e, used Enum16_AppendRow Enum16_Reset (newEnum16 values indexes) e →
          Forall (λ z, (is_Some (vi16 e !! z) ∨ z = 0) ∧ i16 z = z) (col16 e)
          ∧ (∀ v, within_int16 v → nil_number v = false →
               Enum16_AppendRow e v = Some (match enum_stores (vi16 e) (iv16 e) i16 v with
                                            | Ok z => Ok (more16 e [z]) | Err err => Err err end))
          ∧ (∀ v, Forall within_int16 (default [] (elements v)) →
               Enum16_Append e v = Some (let '(zs, r) := slice_rows (vi16 e) (iv16 e) i16 v in (more16 e zs, r)))).
Proof.
  split; intros e He.
  - apply Enum8_used in He. split; [by apply e8_rows|]. split; intros v; [by apply Enum8_AppendRow_stores|by apply Enum8_Append_rows].
  - apply Enum16_used in He. split; [by apply e16_rows|]. split; intros v; [by apply Enum16_AppendRow_stores|by apply Enum16_Append_rows].
Qed.

Definition demo8 : Enum8 := newEnum8 [str "a"; str "b"] [1; 200].

Lemma enum_rows_typed_witness :
  Enum8_AppendRow demo8 (EStr (str "b")) = Some (Ok (more8 demo8 [-56]))
  ∧ Enum8_AppendRow demo8 (EStr (str "c")) = Some (Err (UnknownName (str "c")))
  ∧ Enum16_Append (newEnum16 [str "a"; str "b"] [3; 4]) (SIntN [4; 3; 7; 3])
    = Some (more16 (newEnum16 [str "a"; str "b"] [3; 4]) [4; 3], Err UnknownElement).
Proof.
  pose proof (proj1 (enum_rows_typed [str "a"; str "b"] [1; 200]) demo8 (used_new _ _ _)) as (_ & H8 & _).
  pose proof (proj2 (enum_rows_typed [str "a"; str "b"] [3; 4]) _ (used_new _ _ _)) as (_ & _ & H16).
  split; [by rewrite H8|]. split; [by rewrite H8|]. rewrite H16; [done|]. repeat constructor; lia.
Defined.

(** The two shortcuts by which a number is checked agree with the lookup in the map of
    names.  [Enum8]: the test of the 256-bit set; [Enum16]: the ends of a range declared
    continuous, the comparison of the wrapped 16-bit counts included.  A number is
    accepted exactly when its conversion to the column's width has a name, and is stored
    converted. *)
Theorem enum_membership values indexes :
  (∀ e z, used Enum8_AppendRow Enum8_Reset (newEnum8 values indexes) e →
    Enum8_AppendRow e (EInt z) =
    Some (match vi8 e !! i8 z with Some _ => Ok (push8 e z) | None => Err UnknownElement end))
  ∧ (∀ e z, used Enum16_AppendRow Enum16_Reset (newEnum16 values indexes) e → - 2 ^ 15 ≤ z < 2 ^ 15 →
      Enum16_AppendRow e (EIntN z) =
      Some (match vi16 e !! z with Some _ => Ok (push16 e z) | None => Err UnknownElement end)).
Proof.
  split.
  - intros e z He%Enum8_used. cbn [Enum8_AppendRow]. unfold enum8_int. rewrite (e8_bits e He).
    destruct (vi8 e !! i8 z); [by rewrite bool_decide_true|]. rewrite bool_decide_false; [done|]. by intros [??].
  - intros e z He%Enum16_used Hz. assert (i16 z = z) as Ez by by apply swrap_small.
    cbn [Enum16_AppendRow]. rewrite enum16_shortcut by done. unfold enum16_int. by rewrite Ez.
Qed.

Lemma enum_membership_witness :
  Enum8_AppendRow demo8 (EInt 257) = Some (Ok (push8 demo8 257))
  ∧ Enum16_AppendRow (newEnum16 [str "a"; str "b"] [3; 4]) (EIntN 5) = Some (Err UnknownElement).
Proof.
  split.
  - rewrite (proj1 (enum_membership [str "a"; str "b"] [1; 200]) demo8 257 (used_new _ _ _)). done.
  - rewrite (proj2 (enum_membership [str "a"; str "b"] [3; 4]) _ 5 (used_new _ _ _)); [done|lia].
Defined.

(** An [int] is cut to its low byte before it is checked, and a nil [*int8] is
    dereferenced. *)
Example enum8_wraps_and_panics :
  (∃ e, Enum8_AppendRow demo8 (EInt 257) = Some (Ok e) ∧ Enum8_Row e 0 = Some (str "a"))
  ∧ Enum8_AppendRow demo8 (EIntNPtr None) = None.
Proof. split; [|done]. eexists. split; vm_compute; reflexivity. Qed.
