(* ===== verification/Column.v ===== *)
(** * The column interface and the columns built from other columns
      ([lib/column/column.go], [nullable.go], [array.go], [array_gen.go], [map.go],
      [tuple.go], [simple_aggregate_function.go], [nested.go])

    Every column type of the driver implements [column.Interface]; [Interface] is that
    interface as a record of operations on a state of its own.  A column built from
    others is a function from their interfaces to an interface, written as the Go code
    is: against the interface only.  [Laws] says what one column promises to another,
    and each composite discharges it from the laws of its parts.

    [None] is a panic.  An [AppendRow] that fails may have changed the column. *)

From Stdlib Require Import ZifyBool.
From S2P Require Import Prelude GoStd Wire.
Local Open Scope Z_scope.
#[local] Set Warnings "-register-all".

(** ** Go values and their types *)

Inductive intkind := KInt | KInt8 | KInt16 | KInt32 | KInt64 | KUint | KUint8 | KUint16 | KUint32 | KUint64.

#[global] Instance intkind_eq : EqDecision intkind.
Proof. solve_decision. Defined.

(** The types of other packages that columns know: [time.Time], [uuid.UUID], [netip.Addr],
    [net.IP], [[16]byte], [proto.IPv6], [big.Int], [decimal.Decimal]. *)
Inductive extkind := KTime | KUUID | KAddr | KIP | KBytes16 | KIPv6 | KBig | KDecimal | KOther (name : gostring).

#[global] Instance extkind_eq : EqDecision extkind.
Proof. solve_decision. Defined.

(** [reflect.Type], as far as the columns tell types apart. *)
Inductive gotype :=
| GInt (k : intkind)
| GFloat (w : nat)
| GBool
| GString
| GDuration
| GNull (t : gotype)             (* sql.NullInt64 and its like *)
| GPtr (t : gotype)
| GSlice (t : gotype)
| GMap (k v : gotype)
| GAny
| GExt (k : extkind).

#[global] Instance gotype_eq : EqDecision gotype.
Proof. solve_decision. Defined.

(** [reflect.Type.Comparable]. *)
Definition Comparable (t : gotype) : bool := match t with GSlice _ | GMap _ _ => false | _ => true end.

(** [netip.Addr]: the zero value, four bytes as a number, or sixteen bytes with a zone. *)
Inductive addr := AddrNone | Addr4 (z : Z) | Addr6 (b zone : gostring).

(** A value of such a type; a [net.IP] may be nil. *)
Inductive ext :=
| XTime (t : gotime)
| XUUID (b : gostring)
| XAddr (a : addr)
| XIP (b : option gostring)
| XBytes16 (b : gostring)
| XIPv6 (b : gostring)
| XBig (z : Z)
| XDecimal (coef exp : Z)
| XOther (name : gostring) (id : Z).

Definition ext_kind (x : ext) : extkind :=
  match x with
  | XTime _ => KTime | XUUID _ => KUUID | XAddr _ => KAddr | XIP _ => KIP | XBytes16 _ => KBytes16
  | XIPv6 _ => KIPv6 | XBig _ => KBig | XDecimal _ _ => KDecimal | XOther n _ => KOther n
  end.

(** The elements of the types that are arrays or slices of bytes. *)
Definition ext_bytes (x : ext) : option gostring :=
  match x with
  | XUUID b | XBytes16 b | XIPv6 b => Some b
  | XIP b => Some (default [] b)
  | _ => None
  end.

(** What the methods of such a value return, where its type has them: [String] of the
    value and of a pointer to it, [Value] (of [driver.Valuer], a text) and
    [MarshalBinary]. *)
Record methods := MkMethods {
  String_method : option gostring;
  PtrString_method : option gostring;
  Value_method : option gostring;
  MarshalBinary_method : option gostring
}.

(** Basic values: an integer with its kind, a float as its bits. *)
Inductive prim :=
| PInt (k : intkind) (z : Z)
| PFloat (w : nat) (bits : Z)
| PBool (b : bool)
| PString (s : gostring)
| PDuration (z : Z)
| PStringer (s : gostring)       (* a type with a [String] method *)
| PExt (x : ext) (m : methods).

(** An [any].  [VNullable] is [sql.NullXxx], [None] being [Valid == false]; [VValuer]
    stands for the other implementations of [driver.Valuer], [None] when [Value] returns
    an error; a struct lists its fields: name, [json] tag, [ch] tag, exported, value.  A
    map lists its entries in the order of iteration; [VIter] and [VOrdered] are
    implementations of [IterableOrderedMap] and of [OrderedMap], whose [Get] may miss.
    A slice is not nil.  [VTuple] occurs only among the values read: the elements of a
    tuple. *)
Inductive value :=
| VNil
| VPrim (p : prim)
| VNullable (t : gotype) (p : option prim)
| VNilPtr (t : gotype)
| VPtr (v : value)
| VSlice (t : gotype) (l : list value)
| VNilMap (k v : gotype)
| VMap (k v : gotype) (l : list (value * value))
| VIter (l : list (value * value))
| VOrdered (l : list (value * option value))
| VStruct (fields : list (gostring * gostring * gostring * bool * value))
| VValuer (r : option value)
| VTuple (l : list value).

(** Calling [Value] on what may be a [driver.Valuer]. *)
Inductive valuer := NotValuer | ValuerPanics | ValuerFails | Gives (v : value).

(** [sql.NullInt16] and [sql.NullInt32] give an [int64]. *)
Definition driver_value (p : prim) : prim :=
  match p with PInt KInt16 z => PInt KInt64 z | PInt KInt32 z => PInt KInt64 z | _ => p end.

Definition null_value (p : option prim) : value :=
  match p with Some p => VPrim (driver_value p) | None => VNil end.

Definition Value (v : value) : valuer :=
  match v with
  | VNullable _ p | VPtr (VNullable _ p) => Gives (null_value p)
  | VValuer (Some v) | VPtr (VValuer (Some v)) => Gives v
  | VValuer None | VPtr (VValuer None) => ValuerFails
  | VNilPtr (GNull _ | GExt (KUUID | KDecimal)) => ValuerPanics
  | VPrim (PExt _ m) | VPtr (VPrim (PExt _ m)) =>
      match Value_method m with Some x => Gives (VPrim (PString x)) | None => NotValuer end
  | _ => NotValuer
  end.

(** ** The interface *)

Inductive cerr :=
| UnsupportedColumnTypeError (t : gostring)
| ColumnConverterError
| ColumnError (m : gostring)
| ReadError.

(** [CustomSerialization]. *)
Record CustomSerialization (S : Type) := MkCustom {
  WriteStatePrefix : S → result cerr gostring;
  ReadStatePrefix : S → gostring → result cerr (S * gostring)
}.
Arguments MkCustom {S}.
Arguments WriteStatePrefix {S}.
Arguments ReadStatePrefix {S}.

(** [Row] is the value a row holds: pointers, and maps or slices in the place of tuples,
    are presentation that [Row(i, ptr)] and [ScanRow] add to it. *)
Record Interface := MkInterface {
  state : Type;
  fresh : state;
  Name : gostring;
  chType : gostring;
  ScanType : gotype;
  Rows : state → nat;
  Row : state → nat → option value;
  AppendRow : state → value → option (state * option cerr);
  Append : state → value → option (state * result cerr (option (list Z)));
  Reset : state → state;
  Encode : state → gostring;
  Decode : state → nat → gostring → result cerr (state * gostring);
  custom : option (CustomSerialization state)
}.

(** [if serialize, ok := col.(CustomSerialization); ok { ... }]. *)
Definition write_prefix (I : Interface) (s : state I) : result cerr gostring :=
  match custom I with Some c => WriteStatePrefix c s | None => Ok [] end.

Definition read_prefix (I : Interface) (s : state I) (b : gostring) : result cerr (state I * gostring) :=
  match custom I with Some c => ReadStatePrefix c s b | None => Ok (s, b) end.

Definition rread {A} (r : option A) : result cerr A := match r with Some x => Ok x | None => Err ReadError end.

(** A loop of appends that stops at the first error: [AppendRow] of each element. *)
Fixpoint append_each {S A} (f : S → A → option (S * option cerr)) (s : S) (l : list A) : option (S * option cerr) :=
  match l with
  | [] => Some (s, None)
  | x :: l =>
      r ← f s x;
      match r with
      | (s, None) => append_each f s l
      | (s, Some e) => Some (s, Some e)
      end
  end.

(** [Append] of the columns that append row by row: no nulls are reported. *)
Definition append_rows {S} (f : S → value → option (S * option cerr)) (s : S) (l : list value)
  : option (S * result cerr (option (list Z))) :=
  r ← append_each f s l;
  Some (match r with (s, None) => (s, Ok None) | (s, Some e) => (s, Err e) end).

Section columns.
Context {W : Wire}.

(** ** Nullable *)

(** [enable] is off inside [LowCardinality]. *)
Record Nullable (B : Interface) := MkNullable { enable : bool; nulls : list Z; base : state B }.
#[global] Arguments MkNullable {B}.
#[global] Arguments enable {B}.
#[global] Arguments nulls {B}.
#[global] Arguments base {B}.

Section nullable.
Variable B : Interface.

Definition nullable_Rows (s : Nullable B) : nat := if enable s then length (nulls s) else Rows B (base s).

Definition nullable_Row (s : Nullable B) (i : nat) : option value :=
  if enable s then n ← nulls s !! i; if n =? 1 then Some VNil else Row B (base s) i
  else Row B (base s) i.

(** [**T] becomes [*T]. *)
Definition unpack (v : value) : value :=
  match v with
  | VPtr (VPtr w) => VPtr w
  | VPtr (VNilPtr t) => VNilPtr t
  | _ => v
  end.

(** The entry of the null mask: [None] a panic. *)
Definition null_mark (v : value) : option (result cerr Z) :=
  match v with
  | VNil | VNilPtr _ | VNilMap _ _ => Some (Ok 1)
  | _ => match Value v with
         | ValuerPanics => None
         | ValuerFails => Some (Err (ColumnError (str "Value")))
         | Gives VNil => Some (Ok 1)
         | Gives _ | NotValuer => Some (Ok 0) end
  end.

Definition nullable_AppendRow (s : Nullable B) (v : value) : option (Nullable B * option cerr) :=
  let v := unpack v in
  m ← null_mark v;
  match m with
  | Err e => Some (s, Some e)
  | Ok n =>
      '(b, e) ← AppendRow B (base s) v;
      Some (MkNullable (enable s) (nulls s ++ [n]) b, e)
  end.

Definition nullable_Append (s : Nullable B) (v : value) : option (Nullable B * result cerr (option (list Z))) :=
  '(b, r) ← Append B (base s) v;
  Some (match r with
        | Err e => (MkNullable (enable s) (nulls s) b, Err e)
        | Ok ns => (MkNullable (enable s) (nulls s ++ default [] ns) b, Ok ns) end).

Definition nullable_Decode (s : Nullable B) (rows : nat) (b : gostring) : result cerr (Nullable B * gostring) :=
  '(ns, b) ← (if enable s then '(l, b) ← rread (RVec 1 rows b); Ok (nulls s ++ l, b) else Ok (nulls s, b));
  '(bs, b) ← Decode B (base s) rows b;
  Ok (MkNullable (enable s) ns bs, b).

Definition nullable_Encode (s : Nullable B) : gostring :=
  (if enable s then PutVec 1 (nulls s) else []) ++ Encode B (base s).

Definition nullable_custom : CustomSerialization (Nullable B) :=
  MkCustom (λ s, write_prefix B (base s))
           (λ s b, '(bs, b) ← read_prefix B (base s) b; Ok (MkNullable (enable s) (nulls s) bs, b)).

Definition nullable_Reset (s : Nullable B) : Nullable B := MkNullable (enable s) [] (Reset B (base s)).

(** The scan type is a pointer, once. *)
Definition nullable_ScanType : gotype := match ScanType B with GPtr t => GPtr t | t => GPtr t end.

Definition NullableColumn (en : bool) (name : gostring) : Interface :=
  MkInterface (Nullable B) (MkNullable en [] (fresh B)) name (str "Nullable(" ++ chType B ++ str ")")
    nullable_ScanType nullable_Rows nullable_Row nullable_AppendRow nullable_Append nullable_Reset
    nullable_Encode nullable_Decode (Some nullable_custom).
End nullable.

(** ** Array *)

(** One list of offsets for each level of nesting, the outermost first. *)
Record Array (V : Interface) := MkArray { offsets : list (list Z); values : state V }.
#[global] Arguments MkArray {V}.
#[global] Arguments offsets {V}.
#[global] Arguments values {V}.

Section array.
Variable V : Interface.
Variable depth : nat.

Definition array_Rows (s : Array V) : nat := match offsets s with o :: _ => length o | [] => 0 end.

(** [appendOffset]: the offset of the row before is added; the sum wraps. *)
Definition next_offset (o : list Z) (n : nat) : list Z := o ++ [u64 (Z.of_nat n + List.last o 0)].
Definition appendOffset (s : Array V) (level n : nat) : Array V :=
  MkArray (alter (λ o, next_offset o n) level (offsets s)) (values s).

Definition append_value (s : Array V) (v : value) : option (Array V * option cerr) :=
  '(vs, e) ← AppendRow V (values s) v; Some (MkArray (offsets s) vs, e).

(** The elements of a string, and of a type that is an array or a slice of bytes. *)
Definition byte_elems (p : prim) : option gostring :=
  match p with PString b => Some b | PExt x _ => ext_bytes x | _ => None end.
Definition byte_value (c : byte) : value := VPrim (PInt KUint8 (bz c)).

(** [append(elem, level)]. *)
Fixpoint array_append (v : value) (level : nat) (s : Array V) {struct v} : option (Array V * option cerr) :=
  if (level <? depth)%nat then
    match v with
    | VPtr w => array_append w level s
    | VSlice _ l =>
        append_each (λ s x, x s) (appendOffset s level (length l)) (map (λ x s, array_append x (level + 1) s) l)
    | VPrim p =>
        match byte_elems p with
        | Some b =>
            append_each (λ s c, if (level + 1 <? depth)%nat then Some (s, Some ColumnConverterError)
                                else append_value s (byte_value c))
              (appendOffset s level (length b)) b
        | None => Some (s, Some ColumnConverterError)
        end
    | _ => Some (s, Some ColumnConverterError)
    end
  else append_value s (match v with VNilPtr _ => VNil | _ => v end).

Definition appendRowDefault (s : Array V) (v : value) : option (Array V * option cerr) :=
  match v with
  | VNil | VNilPtr _ => Some (s, Some ColumnConverterError)
  | VPtr w => array_append w 0 s
  | _ => array_append v 0 s
  end.

(** The element types the generated switch lists, as plain values and as pointers. *)
Definition plain_type (t : gotype) : bool :=
  match t with
  | GInt _ | GFloat _ | GBool | GString | GSlice (GInt KUint8) | GNull (GString | GBool | GExt KTime) | GExt _ => true
  | _ => false
  end.

(** [appendRowPlain] and [appendNullableRowPlain] of a typed slice, and the switch around
    them. *)
Definition appendPlain (s : Array V) (l : list value) : option (Array V * option cerr) :=
  append_each append_value (appendOffset s 0 (length l)) l.

Definition appendNullablePlain (s : Array V) (l : list value) : option (Array V * option cerr) :=
  append_each (λ s x, append_value s (match x with VNilPtr _ => VNil | _ => x end)) (appendOffset s 0 (length l)) l.

Fixpoint appendRowPlain (s : Array V) (v : value) {struct v} : option (Array V * option cerr) :=
  match v with
  | VSlice (GPtr t) l => if plain_type t then appendNullablePlain s l else appendRowDefault s v
  | VSlice t l => if plain_type t then appendPlain s l else appendRowDefault s v
  | VNullable _ p | VPtr (VNullable _ p) => appendRowDefault s (null_value p)
  | VValuer (Some w) | VPtr (VValuer (Some w)) => appendRowPlain s w
  | VValuer None | VPtr (VValuer None) => Some (s, Some ColumnConverterError)
  | VPrim (PExt _ m) | VPtr (VPrim (PExt _ m)) =>
      appendRowDefault s (match Value_method m with Some x => VPrim (PString x) | None => v end)
  | VNilPtr (GNull _ | GExt (KUUID | KDecimal)) => None
  | _ => appendRowDefault s v
  end.

Definition array_AppendRow (s : Array V) (v : value) : option (Array V * option cerr) :=
  if Nat.eqb depth 1 then appendRowPlain s v else appendRowDefault s v.

(** [Append] goes through [reflect.Value]: the reflective path for every element. *)
Definition array_Append (s : Array V) (v : value) : option (Array V * result cerr (option (list Z))) :=
  match v with
  | VSlice _ l | VPtr (VSlice _ l) => append_rows appendRowDefault s l
  | _ => Some (s, Err ColumnConverterError)
  end.

(** The rows a decoded level announces: its last offset. *)
Fixpoint decode_offsets (offs : list (list Z)) (rows : nat) (b : gostring)
  : result cerr (list (list Z) * nat * gostring) :=
  match offs with
  | [] => Ok ([], rows, b)
  | o :: offs =>
      '(l, b) ← rread (RVec 8 rows b);
      let o := o ++ l in
      '(os, n, b) ← decode_offsets offs (Z.to_nat (List.last o 0)) b;
      Ok (o :: os, n, b)
  end.

Definition array_Decode (s : Array V) (rows : nat) (b : gostring) : result cerr (Array V * gostring) :=
  '(os, n, b) ← decode_offsets (offsets s) rows b;
  '(vs, b) ← Decode V (values s) n b;
  Ok (MkArray os vs, b).

Definition array_Encode (s : Array V) : gostring :=
  concat (map (PutVec 8) (offsets s)) ++ Encode V (values s).

Definition array_custom : CustomSerialization (Array V) :=
  MkCustom (λ s, write_prefix V (values s))
           (λ s b, '(vs, b) ← read_prefix V (values s) b; Ok (MkArray (offsets s) vs, b)).

Definition array_Reset (s : Array V) : Array V := MkArray (map (λ _, []) (offsets s)) (Reset V (values s)).

(** [scanSlice]: row [row] of a level is the rows of the next one between two offsets. *)
Fixpoint scanSlice (offs : list (list Z)) (vs : state V) (row : nat) : option value :=
  match offs with
  | [] => Row V vs row
  | o :: offs =>
      e ← o !! row;
      st ← (if decide (row = 0)%nat then Some 0 else o !! (row - 1)%nat);
      l ← mapM (λ k, scanSlice offs vs (Z.to_nat st + k)) (seq 0 (Z.to_nat (e - st)));
      Some (VSlice GAny l)
  end.

Definition array_Row (s : Array V) (i : nat) : option value := scanSlice (offsets s) (values s) i.

Definition array_ScanType : gotype := Nat.iter depth GSlice (ScanType V).

Definition ArrayColumn (name t : gostring) : Interface :=
  MkInterface (Array V) (MkArray (replicate depth []) (fresh V)) name t array_ScanType
    array_Rows array_Row array_AppendRow array_Append array_Reset array_Encode array_Decode (Some array_custom).
End array.

(** ** Map *)

Record Map (K V : Interface) := MkMap { m_offsets : list Z; m_keys : state K; m_values : state V }.
#[global] Arguments MkMap {K V}.
#[global] Arguments m_offsets {K V}.
#[global] Arguments m_keys {K V}.
#[global] Arguments m_values {K V}.

Section map.
Variables K V : Interface.

Definition map_ScanType : gotype := GMap (ScanType K) (ScanType V).

(** One entry: the key, then the value. *)
Definition append_entry (s : Map K V) (kv : value * value) : option (Map K V * option cerr) :=
  '(ks, e) ← AppendRow K (m_keys s) kv.1;
  match e with
  | Some e => Some (MkMap (m_offsets s) ks (m_values s), Some e)
  | None => '(vs, e) ← AppendRow V (m_values s) kv.2; Some (MkMap (m_offsets s) ks vs, e)
  end.

(** [OrderedMap]: a key without a value is an error before the entry is counted. *)
Definition append_ordered (s : Map K V) (kv : value * option value) : option (Map K V * option cerr) :=
  match kv.2 with
  | None => Some (s, Some (ColumnError (str "no corresponding value")))
  | Some v => append_entry s (kv.1, v)
  end.

(** The offset is appended last; [int64] addition. *)
Definition append_size (n : nat) (r : Map K V * option cerr) : Map K V * option cerr :=
  match r with
  | (s, None) => (MkMap (m_offsets s ++ [i64 (List.last (m_offsets s) 0 + Z.of_nat n)]) (m_keys s) (m_values s), None)
  | (s, Some e) => (s, Some e)
  end.

(** [value.Type() == col.scanType]. *)
Definition is_scan_type (k v : gotype) : bool := bool_decide (GMap k v = map_ScanType).

Fixpoint map_AppendRow (s : Map K V) (v : value) {struct v} : option (Map K V * option cerr) :=
  match v with
  | VNil => Some (append_size 0 (s, None))
  | VMap kt vt l | VPtr (VMap kt vt l) =>
      if is_scan_type kt vt then r ← append_each append_entry s l; Some (append_size (length l) r)
      else Some (s, Some ColumnConverterError)
  | VNilMap kt vt | VPtr (VNilMap kt vt) =>
      if is_scan_type kt vt then Some (append_size 0 (s, None)) else Some (s, Some ColumnConverterError)
  | VIter l | VPtr (VIter l) => r ← append_each append_entry s l; Some (append_size (length l) r)
  | VOrdered l | VPtr (VOrdered l) => r ← append_each append_ordered s l; Some (append_size (length l) r)
  | VNilPtr _ => None                           (* [value.Type()] of the zero [reflect.Value] *)
  | VNullable _ p | VPtr (VNullable _ p) =>
      match p with
      | None => Some (append_size 0 (s, None))
      | Some _ => Some (s, Some ColumnConverterError)
      end
  | VValuer (Some w) | VPtr (VValuer (Some w)) => map_AppendRow s w
  | _ => Some (s, Some ColumnConverterError)
  end.

Fixpoint map_Append (s : Map K V) (v : value) {struct v} : option (Map K V * result cerr (option (list Z))) :=
  match v with
  | VSlice _ l | VPtr (VSlice _ l) => append_rows map_AppendRow s l
  | VValuer (Some w) | VPtr (VValuer (Some w)) => map_Append s w
  | VNilPtr (GNull _ | GExt (KUUID | KDecimal)) => None
  | _ => Some (s, Err ColumnConverterError)
  end.

Definition map_Decode (s : Map K V) (rows : nat) (b : gostring) : result cerr (Map K V * gostring) :=
  '(l, b) ← rread (RVec 8 rows b);
  let o := m_offsets s ++ l in
  if bool_decide (o = []) then Ok (MkMap o (m_keys s) (m_values s), b)
  else
    let size := Z.to_nat (i64 (List.last o 0)) in
    '(ks, b) ← Decode K (m_keys s) size b;
    '(vs, b) ← Decode V (m_values s) size b;
    Ok (MkMap o ks vs, b).

Definition map_Encode (s : Map K V) : gostring :=
  PutVec 8 (m_offsets s) ++ Encode K (m_keys s) ++ Encode V (m_values s).

Definition map_custom : CustomSerialization (Map K V) :=
  MkCustom (λ s, p ← write_prefix K (m_keys s); q ← write_prefix V (m_values s); Ok (p ++ q))
           (λ s b, '(ks, b) ← read_prefix K (m_keys s) b; '(vs, b) ← read_prefix V (m_values s) b;
                   Ok (MkMap (m_offsets s) ks vs, b)).

Definition map_Reset (s : Map K V) : Map K V := MkMap [] (Reset K (m_keys s)) (Reset V (m_values s)).

(** [orderedRow]: the entries of a row in order; [row] makes a Go map of them. *)
Definition orderedRow (s : Map K V) (n : nat) : option value :=
  e ← m_offsets s !! n;
  prev ← (if decide (n = 0)%nat then Some 0 else m_offsets s !! (n - 1)%nat);
  l ← mapM (λ k, x ← Row K (m_keys s) (Z.to_nat prev + k); y ← Row V (m_values s) (Z.to_nat prev + k); Some (x, y))
        (seq 0 (Z.to_nat (e - prev)));
  Some (VIter l).

Definition MapColumn (name t : gostring) : Interface :=
  MkInterface (Map K V) (MkMap [] (fresh K) (fresh V)) name t map_ScanType
    (λ s, length (m_offsets s)) orderedRow map_AppendRow map_Append map_Reset map_Encode map_Decode (Some map_custom).
End map.

(** ** Tuple *)

Fixpoint states (l : list Interface) : Type :=
  match l with [] => unit | C :: l => (state C * states l)%type end.

Section tuple.

Fixpoint fresh_all (l : list Interface) : states l :=
  match l with [] => tt | C :: l => (fresh C, fresh_all l) end.

Definition tuple_Rows (l : list Interface) : states l → nat :=
  match l with [] => λ _, 0%nat | C :: _ => λ ss, Rows C ss.1 end.

Fixpoint tuple_Reset (l : list Interface) : states l → states l :=
  match l with [] => λ ss, ss | C :: l => λ ss, (Reset C ss.1, tuple_Reset l ss.2) end.

Fixpoint tuple_Encode (l : list Interface) : states l → gostring :=
  match l with [] => λ _, [] | C :: l => λ ss, Encode C ss.1 ++ tuple_Encode l ss.2 end.

Fixpoint tuple_Decode (l : list Interface) : states l → nat → gostring → result cerr (states l * gostring) :=
  match l with
  | [] => λ ss _ b, Ok (ss, b)
  | C :: l => λ ss rows b,
      '(s, b) ← Decode C ss.1 rows b; '(ss, b) ← tuple_Decode l ss.2 rows b; Ok ((s, ss), b)
  end.

Fixpoint tuple_write (l : list Interface) : states l → result cerr gostring :=
  match l with
  | [] => λ _, Ok []
  | C :: l => λ ss, p ← write_prefix C ss.1; q ← tuple_write l ss.2; Ok (p ++ q)
  end.

Fixpoint tuple_read (l : list Interface) : states l → gostring → result cerr (states l * gostring) :=
  match l with
  | [] => λ ss b, Ok (ss, b)
  | C :: l => λ ss b, '(s, b) ← read_prefix C ss.1 b; '(ss, b) ← tuple_read l ss.2 b; Ok ((s, ss), b)
  end.

(** The elements of a row. *)
Fixpoint tuple_elements (l : list Interface) : states l → nat → option (list value) :=
  match l with
  | [] => λ _ _, Some []
  | C :: l => λ ss i, v ← Row C ss.1 i; vs ← tuple_elements l ss.2 i; Some (v :: vs)
  end.

(** [col.columns[i].AppendRow(v)]: [None] also when there is no such column. *)
Fixpoint append_at (l : list Interface) : states l → nat → value → option (states l * option cerr) :=
  match l with
  | [] => λ _ _ _, None
  | C :: l => λ ss i v,
      match i with
      | O => '(s, e) ← AppendRow C ss.1 v; Some ((s, ss.2), e)
      | S i => '(r, e) ← append_at l ss.2 i v; Some ((ss.1, r), e)
      end
  end.

(** [getStructFieldName]: the name, [None] when the field is omitted. *)
Definition getStructFieldName (name json ch : gostring) : option gostring :=
  if bool_decide (json = str "-") then None
  else if negb (bool_decide (json = [])) then Some (fst (span (λ b, negb (beq b ",")) json))
  else if bool_decide (ch = str "-") then None
  else if negb (bool_decide (ch = [])) then Some ch
  else Some name.

(** The exported fields that are not omitted, with their names. *)
Definition struct_fields (fields : list (gostring * gostring * gostring * bool * value)) : list (gostring * value) :=
  omap (λ '(name, json, ch, exported, v),
          if exported : bool then n ← getStructFieldName name json ch; Some (n, v) else None) fields.

(** [escapeColRegex] and [getMapFieldName]. *)
Definition ident_start (b : byte) : bool := in_range "a" "z" b || in_range "A" "Z" b || beq b "_".
Definition escapeColRegex (s : gostring) : bool :=
  match s with b :: s => ident_start b && forallb (λ c, ident_start c || isDigit c) s | [] => false end.
Definition colEscape (s : gostring) : gostring :=
  flat_map (λ b, if beq b "`" then str "\`" else if beq b "\" then str "\\" else [b]) s.
Definition getMapFieldName (name : gostring) : gostring :=
  if negb (escapeColRegex name) then str "`" ++ colEscape name ++ str "`" else colEscape name.

Variable l : list Interface.
Variable isNamed : bool.
Variable index : gmap gostring nat.

(** One named element. *)
Definition append_named (ss : states l) (nv : gostring * value) : option (states l * option cerr) :=
  match index !! nv.1 with
  | None => Some (ss, Some (ColumnError (str "sub column does not exist")))
  | Some i => append_at l ss i nv.2
  end.

Definition string_key (kv : value * value) : option (gostring * value) :=
  match kv.1 with VPrim (PString k) => Some (getMapFieldName k, kv.2) | _ => None end.

Definition tuple_struct (ss : states l) (fields : list (gostring * gostring * gostring * bool * value))
  : option (states l * option cerr) :=
  if negb isNamed then Some (ss, Some (ColumnError (str "unnamed tuple")))
  else
    let fs := struct_fields fields in
    let fieldNames : gset gostring := list_to_set fs.*1 in
    if negb (Nat.eqb (size fieldNames) (length l)) then Some (ss, Some (ColumnError (str "invalid size")))
    else append_each append_named ss fs.

Definition tuple_map (ss : states l) (k : gotype) (kvs : list (value * value)) : option (states l * option cerr) :=
  if negb isNamed then Some (ss, Some (ColumnError (str "unnamed tuple")))
  else if negb (bool_decide (k = GString)) then Some (ss, Some (ColumnError (str "map keys must be string")))
  else if negb (Nat.eqb (length kvs) (length l)) then Some (ss, Some (ColumnError (str "invalid size")))
  else append_each append_named ss (omap string_key kvs).

Definition tuple_slice (ss : states l) (vs : list value) : option (states l * option cerr) :=
  if negb (Nat.eqb (length vs) (length l)) then Some (ss, Some (ColumnError (str "invalid size")))
  else append_each (λ ss iv, append_at l ss iv.1 iv.2) ss (zip (seq 0 (length vs)) vs).

Fixpoint tuple_AppendRow (ss : states l) (v : value) {struct v} : option (states l * option cerr) :=
  match v with
  | VStruct fs | VPtr (VStruct fs) => tuple_struct ss fs
  | VMap k _ kvs | VPtr (VMap k _ kvs) => tuple_map ss k kvs
  | VNilMap k _ | VPtr (VNilMap k _) => tuple_map ss k []
  | VSlice _ vs | VPtr (VSlice _ vs) => tuple_slice ss vs
  | VPrim (PExt (XIP b) _) | VPtr (VPrim (PExt (XIP b) _)) => tuple_slice ss (map byte_value (default [] b))
  | VPrim (PExt (XTime _ | XAddr _ | XBig _) _) | VPtr (VPrim (PExt (XTime _ | XAddr _ | XBig _) _)) => tuple_struct ss []
  | VNilPtr (GNull _ | GExt (KUUID | KDecimal)) => None
  | VValuer (Some w) | VPtr (VValuer (Some w)) => tuple_AppendRow ss w
  | _ => Some (ss, Some ColumnConverterError)
  end.

Fixpoint tuple_Append (ss : states l) (v : value) {struct v} : option (states l * result cerr (option (list Z))) :=
  match v with
  | VSlice _ vs => append_rows tuple_AppendRow ss vs
  | VValuer (Some w) | VPtr (VValuer (Some w)) => tuple_Append ss w
  | VNilPtr (GNull _ | GExt (KUUID | KDecimal)) => None
  | _ => Some (ss, Err ColumnConverterError)
  end.

Definition tuple_ScanType : gotype := if isNamed then GMap GString GAny else GSlice GAny.

Definition TupleColumn (name t : gostring) : Interface :=
  MkInterface (states l) (fresh_all l) name t tuple_ScanType (tuple_Rows l)
    (λ ss i, vs ← tuple_elements l ss i; Some (VTuple vs)) tuple_AppendRow tuple_Append
    (tuple_Reset l) (tuple_Encode l) (tuple_Decode l) (Some (MkCustom (tuple_write l) (tuple_read l))).
End tuple.

(** ** SimpleAggregateFunction and Nested: the column inside, under another type *)

Definition wrapped (I : Interface) : CustomSerialization (state I) := MkCustom (write_prefix I) (read_prefix I).

Definition SimpleAggregateFunction (I : Interface) (name t : gostring) : Interface :=
  MkInterface (state I) (fresh I) name t (ScanType I) (Rows I) (Row I) (AppendRow I) (Append I) (Reset I)
    (Encode I) (Decode I) (Some (wrapped I)).

Definition Nested (I : Interface) : Interface :=
  MkInterface (state I) (fresh I) (Name I) (chType I) (ScanType I) (Rows I) (Row I) (AppendRow I) (Append I) (Reset I)
    (Encode I) (Decode I) (Some (wrapped I)).
End columns.
