(* ===== verification/ColumnLaws.v ===== *)
(** * What columns promise, and that the composite columns keep it

    [Laws] is the contract of the column interface.  A column in a consistent state
    ([wf]) that accepts a value grows by one row, which reads as the value stored, and
    the rows before it stay as they were; and what [Encode] writes, [Decode] of a fresh
    column reads back, row by row.  [fits] bounds the sizes by what the wire carries.

    Each instance below proves the contract of a composite column from the contracts of
    its parts. *)

From Stdlib Require Import ZifyBool.
From S2P Require Import Prelude GoStd Wire Column.
Local Open Scope Z_scope.

Class Laws (I : Interface) := {
  (** Consistent states. *)
  wf : state I → Prop;
  (** States within the sizes of the wire. *)
  fits : state I → Prop;
  (** Values the contract speaks about, and what is read for them. *)
  accepts : value → Prop;
  stored : value → value;
  law_fresh : wf (fresh I) ∧ Rows I (fresh I) = 0%nat;
  law_reset : ∀ s, wf s → wf (Reset I s) ∧ Rows I (Reset I s) = 0%nat;
  law_row : ∀ s i, wf s → (i < Rows I s)%nat → is_Some (Row I s i);
  law_grows : ∀ s v s', AppendRow I s v = Some (s', None) →
    (Rows I s ≤ Rows I s')%nat ∧ (fits s' → fits s);
  law_append : ∀ s v s', wf s → accepts v → AppendRow I s v = Some (s', None) → fits s' →
    wf s' ∧ Rows I s' = S (Rows I s)
    ∧ (∀ i, (i < Rows I s)%nat → Row I s' i = Row I s i)
    ∧ Row I s' (Rows I s) = Some (stored v);
  law_empty : ∀ s, wf s → Rows I s = 0%nat → Encode I s = [];
  law_codec : ∀ s p, wf s → fits s → write_prefix I s = Ok p →
    ∃ s1, (∀ rest, read_prefix I (fresh I) (p ++ rest) = Ok (s1, rest)) ∧ wf s1 ∧ Rows I s1 = 0%nat
    ∧ ∃ s2, (∀ rest, Decode I s1 (Rows I s) (Encode I s ++ rest) = Ok (s2, rest))
    ∧ wf s2 ∧ Rows I s2 = Rows I s ∧ ∀ i, (i < Rows I s)%nat → Row I s2 i = Row I s i
}.
Arguments wf I {_}.
Arguments fits I {_}.
Arguments accepts I {_}.
Arguments stored I {_}.

Section laws.
Context {W : Wire} {L : WireLaws W}.

Lemma uint_le (w : nat) z n : 0 ≤ z < n → n ≤ 256 ^ Z.of_nat w → uint w z.
Proof. unfold uint. lia. Qed.

(** ** Nullable *)

Section nullable.
Variable B : Interface.
Context {LB : Laws B}.

Definition nullable_wf (s : Nullable B) : Prop :=
  enable s = true ∧ length (nulls s) = Rows B (base s) ∧ wf B (base s) ∧ Forall (λ n, n = 0 ∨ n = 1) (nulls s).

Definition nullable_stored (v : value) : value :=
  let v := unpack v in match null_mark v with Some (Ok n) => if n =? 1 then VNil else stored B v | _ => VNil end.

Lemma null_mark_bit v n : null_mark v = Some (Ok n) → n = 0 ∨ n = 1.
Proof. unfold null_mark. intros H. repeat (case_match; simplify_eq; auto). Qed.

(** What a successful [AppendRow] has done. *)
Lemma nullable_AppendRow_inv s v s' :
  nullable_AppendRow B s v = Some (s', None) →
  ∃ n b, null_mark (unpack v) = Some (Ok n) ∧ AppendRow B (base s) (unpack v) = Some (b, None)
         ∧ s' = MkNullable (enable s) (nulls s ++ [n]) b.
Proof.
  unfold nullable_AppendRow. destruct (null_mark (unpack v)) as [[n|e]|]; cbn [mbind option_bind]; [|done..].
  destruct (AppendRow B (base s) (unpack v)) as [[b e]|]; cbn [mbind option_bind]; [|done].
  intros [= <- ->]. by exists n, b.
Qed.

#[export] Program Instance nullable_laws name : Laws (NullableColumn B true name) := {|
  wf := nullable_wf;
  fits := λ s : Nullable B, fits B (base s);
  accepts := λ v, accepts B (unpack v);
  stored := nullable_stored
|}.
Next Obligation.
  intros name. destruct (law_fresh (I := B)) as [H1 H2]. cbn. unfold nullable_wf, nullable_Rows. cbn.
  rewrite H2. done.
Qed.
Next Obligation.
  intros name s (He & Hl & Hw & Hn). destruct (law_reset _ Hw) as [H1 H2]. cbn. unfold nullable_wf, nullable_Rows. cbn.
  rewrite H2, He. done.
Qed.
Next Obligation.
  intros name s i (He & Hl & Hw & Hn). cbn. unfold nullable_Rows, nullable_Row. rewrite He. intros Hi.
  destruct (lookup_lt_is_Some_2 _ _ Hi) as [n ->]. cbn [mbind option_bind]. destruct (n =? 1); [done|].
  apply law_row; [done|]. by rewrite <- Hl.
Qed.
Next Obligation.
  intros name s v s' (n & b & Hn & Hb & ->)%nullable_AppendRow_inv. destruct (law_grows _ _ _ Hb) as [H1 H2].
  cbn. unfold nullable_Rows. cbn. rewrite length_app. destruct (enable s); (split; [lia|done]).
Qed.
Next Obligation.
  intros name s v s' (He & Hl & Hw & Hbits) Ha (n & b & Hn & Hb & ->)%nullable_AppendRow_inv Hf. cbn in Hf.
  destruct (law_append _ _ _ Hw Ha Hb Hf) as (Hw' & Hr & Hold & Hnew).
  cbn. unfold nullable_wf, nullable_Rows, nullable_Row. cbn. rewrite He, length_app. cbn [length].
  split; [|split; [lia|split]].
  - split; [done|]. split; [rewrite Hr; lia|]. split; [done|]. apply Forall_app. split; [done|].
    apply Forall_singleton. by eapply null_mark_bit.
  - intros i Hi. rewrite lookup_app_l by done. destruct (nulls s !! i) as [m|]; [|done]. cbn.
    destruct (m =? 1); [done|]. apply Hold. lia.
  - rewrite lookup_app_r, Nat.sub_diag by lia. cbn [lookup list_lookup mbind option_bind].
    unfold nullable_stored. rewrite Hn. destruct (n =? 1); [done|]. by rewrite Hl, Hnew.
Qed.
Next Obligation.
  intros name s (He & Hl & Hw & Hn). cbn. unfold nullable_Rows, nullable_Encode. rewrite He. intros Hr.
  rewrite (nil_length_inv _ Hr), PutVec_nil. apply law_empty; [done|congruence].
Qed.
Next Obligation.
  intros name s p (He & Hl & Hw & Hbits) Hf Hp. cbn in Hp.
  destruct (law_codec _ _ Hw Hf Hp) as (s1 & Hrd & Hw1 & Hr1 & s2 & Hd & Hw2 & Hr2 & Hrow).
  exists (MkNullable true [] s1). split.
  { intros rest. cbn. rewrite Hrd. done. }
  split; [unfold nullable_wf; cbn; by rewrite Hr1|]. split; [done|].
  exists (MkNullable true (nulls s) s2). split.
  { intros rest. cbn. unfold nullable_Decode, nullable_Encode, nullable_Rows. cbn. rewrite He, <- app_assoc.
    rewrite reads_Vec; [|lia|eapply Forall_impl; [done|]; cbv beta; unfold uint; cbn; lia].
    cbn [rread mbind result_bind app]. by rewrite Hl, Hd. }
  cbn. unfold nullable_wf, nullable_Rows, nullable_Row. cbn. rewrite He, Hr2.
  split; [done|]. split; [done|]. intros i Hi. destruct (nulls s !! i) as [m|]; [|done]. cbn.
  destruct (m =? 1); [done|]. apply Hrow. lia.
Qed.
End nullable.

(** ** Loops of appends *)

Lemma append_each_map {S A C} (f : S → C → option (S * option cerr)) (g : A → C) l : ∀ s,
  append_each f s (map g l) = append_each (λ s x, f s (g x)) s l.
Proof.
  induction l as [|x l IH]; intros s; [done|]. cbn [map append_each].
  destruct (f s (g x)) as [[s' [e|]]|]; [done| |done]. apply IH.
Qed.

Lemma append_each_rel {S A} (f : S → A → option (S * option cerr)) (R : S → S → Prop) `{!PreOrder R} l :
  (∀ s x s', f s x = Some (s', None) → R s s') → ∀ s s', append_each f s l = Some (s', None) → R s s'.
Proof.
  intros Hf. induction l as [|x l IH]; intros s s'; cbn [append_each]; [by intros [= <-]|].
  destruct (f s x) as [[s1 [e|]]|] eqn:E; cbn [mbind option_bind]; [done| |done].
  intros H. by etrans; [eapply Hf|apply IH].
Qed.

Lemma append_each_cons_inv {S A} (f : S → A → option (S * option cerr)) x l s s' :
  append_each f s (x :: l) = Some (s', None) → ∃ s1, f s x = Some (s1, None) ∧ append_each f s1 l = Some (s', None).
Proof.
  cbn [append_each]. destruct (f s x) as [[s1 [e|]]|]; cbn [mbind option_bind]; [done| |done]. by exists s1.
Qed.

Lemma mapM_seq_ext {A} (f g : nat → option A) n : (∀ k, (k < n)%nat → f k = g k) → mapM f (seq 0 n) = mapM g (seq 0 n).
Proof.
  intros H. assert (Forall (λ k, f k = g k) (seq 0 n)) as Hl.
  { apply Forall_forall. intros k Hk. apply elem_of_seq in Hk. apply H. lia. }
  induction Hl as [|k l Hk Hl IH]; [done|]. cbn [mapM]. by rewrite Hk, IH.
Qed.

(** ** Offsets are running sums *)

Definition psums (sizes : list nat) : list Z :=
  map (λ i, Z.of_nat (sum_list (take (S i) sizes))) (seq 0 (length sizes)).

Lemma sum_list_app (l k : list nat) : sum_list (l ++ k) = (sum_list l + sum_list k)%nat.
Proof. apply sum_list_with_app. Qed.

Lemma psums_snoc sizes n : psums (sizes ++ [n]) = psums sizes ++ [Z.of_nat (sum_list sizes + n)].
Proof.
  unfold psums. rewrite length_app. cbn [length]. rewrite seq_app, map_app. cbn [map seq]. f_equal.
  - apply map_ext_in. intros i Hi. apply in_seq in Hi. rewrite take_app_le by lia. done.
  - rewrite take_ge by (rewrite length_app; cbn; lia). rewrite sum_list_app. cbn. do 2 f_equal. lia.
Qed.

Lemma length_psums sizes : length (psums sizes) = length sizes.
Proof. unfold psums. by rewrite length_map, length_seq. Qed.

Lemma last_psums sizes : List.last (psums sizes) 0 = Z.of_nat (sum_list sizes).
Proof.
  destruct sizes as [|n sizes _] using rev_ind; [done|]. rewrite psums_snoc, sum_list_app, last_last. cbn. lia.
Qed.

Lemma lookup_psums sizes i : (i < length sizes)%nat → psums sizes !! i = Some (Z.of_nat (sum_list (take (S i) sizes))).
Proof.
  intros Hi. unfold psums. by rewrite (list_lookup_fmap _ (seq 0 (length sizes)) i : map _ _ !! i = _), lookup_seq_lt.
Qed.

(** Where a row begins and ends. *)
Lemma offset_range sizes i n :
  sizes !! i = Some n →
  psums sizes !! i = Some (Z.of_nat (sum_list (take i sizes) + n))
  ∧ (if decide (i = 0)%nat then Some 0 else psums sizes !! (i - 1)%nat) = Some (Z.of_nat (sum_list (take i sizes))).
Proof.
  intros Hn. pose proof (lookup_lt_Some _ _ _ Hn) as Hi. split.
  - rewrite (lookup_psums sizes i Hi), (take_S_r _ _ _ Hn), sum_list_app. cbn. by rewrite Nat.add_0_r.
  - destruct (decide (i = 0)%nat) as [-> |]; [done|]. rewrite lookup_psums by lia. by replace (S (i - 1)) with i by lia.
Qed.

Lemma offset_size a n : Z.to_nat (Z.of_nat (a + n) - Z.of_nat a) = n.
Proof. lia. Qed.

(** ** Array *)

Section array.
Variable V : Interface.
Context {LV : Laws V}.

(** [r] rows at the outermost level; every level has as many rows as the sizes of the
    level above add up to, and so have the values at the end. *)
Fixpoint chain (offs : list (list Z)) (r vr : nat) : Prop :=
  match offs with
  | [] => r = vr
  | o :: offs => ∃ sizes, o = psums sizes ∧ length sizes = r ∧ chain offs (sum_list sizes) vr
  end.

Definition within (offs : list (list Z)) (vs : state V) : Prop :=
  Forall (λ o, Z.of_nat (length o) < 2 ^ 63) offs ∧ Z.of_nat (Rows V vs) < 2 ^ 63 ∧ fits V vs.

Definition not_nil (v : value) : value := match v with VNilPtr _ => VNil | _ => v end.

(** What is read for a value appended with [k] levels to go, and the values it must have. *)
Fixpoint array_stored (k : nat) (v : value) {struct v} : value :=
  match k with
  | O => stored V (not_nil v)
  | S k' =>
      match v with
      | VPtr w => array_stored k w
      | VSlice _ l => VSlice GAny (map (array_stored k') l)
      | VPrim p => match byte_elems p with Some b => VSlice GAny (map (λ c, stored V (byte_value c)) b) | None => VNil end
      | _ => VNil
      end
  end.

Fixpoint array_accepts (k : nat) (v : value) {struct v} : Prop :=
  match k with
  | O => accepts V (not_nil v)
  | S k' =>
      match v with
      | VPtr w => array_accepts k w
      | VSlice _ l => foldr (λ x P, x ∧ P) True (map (array_accepts k') l)
      | VPrim p => match byte_elems p with Some b => Forall (λ c, accepts V (byte_value c)) b | None => True end
      | _ => True
      end
  end.

(** A level grown by the rows [ws]. *)
Record extends (offs : list (list Z)) (vs : state V) (r : nat) (offs' : list (list Z)) (vs' : state V)
  (ws : list value) : Prop := {
  ext_length : length offs' = length offs;
  ext_chain : chain offs' (r + length ws) (Rows V vs');
  ext_wf : wf V vs';
  ext_old : ∀ i, (i < r)%nat → scanSlice V offs' vs' i = scanSlice V offs vs i;
  ext_new : ∀ j w, ws !! j = Some w → scanSlice V offs' vs' (r + j) = Some w
}.

Lemma extends_refl offs vs r : chain offs r (Rows V vs) → wf V vs → extends offs vs r offs vs [].
Proof. intros. constructor; try done. cbn. by rewrite Nat.add_0_r. Qed.

Lemma extends_trans offs vs r offs1 vs1 ws1 offs2 vs2 ws2 :
  extends offs vs r offs1 vs1 ws1 → extends offs1 vs1 (r + length ws1) offs2 vs2 ws2 →
  extends offs vs r offs2 vs2 (ws1 ++ ws2).
Proof.
  intros [L1 C1 W1 O1 N1] [L2 C2 W2 O2 N2]. constructor.
  - by rewrite L2.
  - by rewrite length_app, Nat.add_assoc.
  - done.
  - intros i Hi. rewrite O2 by lia. by apply O1.
  - intros j w Hj. destruct (decide (j < length ws1)%nat) as [Hlt|Hge].
    + rewrite lookup_app_l in Hj by done. rewrite O2 by lia. by apply N1.
    + rewrite lookup_app_r in Hj by lia. specialize (N2 _ _ Hj).
      by replace (r + length ws1 + (j - length ws1))%nat with (r + j)%nat in N2 by lia.
Qed.

Lemma longer_refl (l : list (list Z)) : Forall2 (λ o o' : list Z, (length o ≤ length o')%nat) l l.
Proof. induction l; constructor; [lia|done]. Qed.

(** Appending never shrinks an array. *)
Definition grows (s s' : Array V) : Prop :=
  Forall2 (λ o o' : list Z, (length o ≤ length o')%nat) (offsets s) (offsets s')
  ∧ (Rows V (values s) ≤ Rows V (values s'))%nat ∧ (fits V (values s') → fits V (values s)).

#[local] Instance grows_preorder : PreOrder grows.
Proof.
  split.
  - intros s. split; [|by split]. apply longer_refl.
  - intros s1 s2 s3 (A1 & B1 & C1) (A2 & B2 & C2). split; [|split; [lia|auto]].
    eapply Forall2_trans; [|exact A1|exact A2]. intros x y z. apply Nat.le_trans.
Qed.

Lemma grows_within s s' : grows s s' → within (offsets s') (values s') → within (offsets s) (values s).
Proof.
  intros (A & B & C) (D & E & F). split; [|split; [lia|auto]]. clear -A D.
  induction A as [|o o' l l' Ho A IH]; [constructor|]. apply Forall_cons in D as [D1 D2].
  constructor; [lia|by apply IH].
Qed.

Lemma append_value_grows s v s' : append_value V s v = Some (s', None) → grows s s'.
Proof.
  unfold append_value. destruct (AppendRow V (values s) v) as [[vs e]|] eqn:E; [|done]. cbn. intros [= <- ->].
  destruct (law_grows _ _ _ E) as [H1 H2]. split; [|by split]. cbn. apply longer_refl.
Qed.

Lemma appendOffset_grows s level n : grows s (appendOffset V s level n).
Proof.
  split; [|done]. cbn. generalize (offsets s). clear s. intros l. revert level.
  induction l as [|o l IH]; intros [|level]; [constructor..| |].
  - constructor; [|apply longer_refl]. unfold next_offset. rewrite length_app. lia.
  - constructor; [lia|apply IH].
Qed.

Lemma array_append_grows depth v : ∀ level s s', array_append V depth v level s = Some (s', None) → grows s s'.
Proof.
  revert v. fix IH 1. intros v level s s'.
  destruct v as [|p|t p|t|w|t l|k v|k v l|l|l|fs|r|l]; cbn [array_append];
    (destruct (level <? depth)%nat; [|by apply append_value_grows]); try done.
  - destruct (byte_elems p) as [b|]; [|done]. intros H. etrans; [apply (appendOffset_grows s level (length b))|]. revert H.
    apply (append_each_rel _ grows). intros s1 c s2. destruct (level + 1 <? depth)%nat; [done|]. apply append_value_grows.
  - apply IH.
  - intros H. etrans; [apply (appendOffset_grows s level (length l))|]. revert H. rewrite append_each_map.
    generalize (appendOffset V s level (length l)). clear s. revert s'.
    induction l as [|x l IHl]; intros s' s; cbn [append_each]; [by intros [= <-]|].
    destruct (array_append V depth x (level + 1) s) as [[s1 [e|]]|] eqn:E; cbn [mbind option_bind]; [done| |done].
    intros H. etrans; [eapply (IH x); exact E|by apply IHl].
Qed.

(** Appending one row below the offsets [pre], as a step and as a loop. *)
Definition appends_one {A} (g : Array V → A → option (Array V * option cerr)) (pre : list (list Z)) (n : nat)
  (x : A) (w : value) : Prop :=
  ∀ offs vs r s', length offs = n → chain offs r (Rows V vs) → wf V vs →
    g (MkArray (pre ++ offs) vs) x = Some (s', None) → within (offsets s') (values s') →
    ∃ offs' vs', s' = MkArray (pre ++ offs') vs' ∧ extends offs vs r offs' vs' [w].

Lemma loop_extends {A} (g : Array V → A → option (Array V * option cerr)) (h : A → value) pre n l :
  (∀ s x s', g s x = Some (s', None) → grows s s') → Forall (λ x, appends_one g pre n x (h x)) l →
  ∀ offs vs r s', length offs = n → chain offs r (Rows V vs) → wf V vs →
    append_each g (MkArray (pre ++ offs) vs) l = Some (s', None) → within (offsets s') (values s') →
    ∃ offs' vs', s' = MkArray (pre ++ offs') vs' ∧ extends offs vs r offs' vs' (map h l).
Proof.
  intros Hg Hl. induction Hl as [|x l Hx Hl IH]; intros offs vs r s' Hn Hc Hw Ha Hwi.
  { cbn in Ha. injection Ha as <-. exists offs, vs. split; [done|by apply extends_refl]. }
  apply append_each_cons_inv in Ha as (s1 & Hs1 & Ha).
  assert (within (offsets s1) (values s1)) as Hw1.
  { eapply grows_within; [|done]. by eapply (append_each_rel g grows). }
  destruct (Hx offs vs r s1) as (offs1 & vs1 & -> & E1); try done.
  destruct (IH offs1 vs1 (r + 1)%nat s') as (offs2 & vs2 & -> & E2); try done.
  - by rewrite (ext_length _ _ _ _ _ _ E1).
  - apply (ext_chain _ _ _ _ _ _ E1).
  - apply (ext_wf _ _ _ _ _ _ E1).
  - exists offs2, vs2. split; [done|]. by apply (extends_trans _ _ _ _ _ [h x] _ _ (map h l) E1).
Qed.

Lemma append_value_one pre v : accepts V v → appends_one (append_value V) pre 0 v (stored V v).
Proof.
  intros Ha offs vs r s' Hn Hc Hw. apply nil_length_inv in Hn as ->. cbn in Hc. subst r.
  unfold append_value. cbn. destruct (AppendRow V vs v) as [[vs' e]|] eqn:E; [|done]. cbn. intros [= <- ->] (_ & _ & Hf).
  destruct (law_append _ _ _ Hw Ha E Hf) as (Hw' & Hr & Hold & Hnew).
  exists [], vs'. split; [done|]. constructor; try done.
  - cbn. lia.
  - intros [|j] w'; [|done]. cbn. intros [= <-]. by rewrite Nat.add_0_r.
Qed.

Lemma chain_lookup o offs r vr : chain (o :: offs) r vr → length o = r.
Proof. intros (sizes & -> & <- & _). apply length_psums. Qed.

(** A row of a level: as many rows of the next one as its size says. *)
Lemma scan_level sizes offs vs i n :
  sizes !! i = Some n →
  scanSlice V (psums sizes :: offs) vs i =
  (l ← mapM (λ k, scanSlice V offs vs (sum_list (take i sizes) + k)) (seq 0 n); Some (VSlice GAny l)).
Proof.
  intros Hn. destruct (offset_range _ _ _ Hn) as [E1 E2]. cbn [scanSlice]. rewrite E1, E2. cbn [mbind option_bind].
  by rewrite Nat2Z.id, offset_size.
Qed.

Lemma sum_take_le sizes i n : sizes !! i = Some n → (sum_list (take i sizes) + n ≤ sum_list sizes)%nat.
Proof.
  intros Hn. rewrite <- (take_drop (S i) sizes) at 2. rewrite (take_S_r _ _ _ Hn), !sum_list_app. cbn. lia.
Qed.

(** The new row of a level: the rows the next level has grown by. *)
Lemma extends_level sizes offs vs offs' vs' ws :
  extends offs vs (sum_list sizes) offs' vs' ws →
  extends (psums sizes :: offs) vs (length sizes) (psums (sizes ++ [length ws]) :: offs') vs' [VSlice GAny ws].
Proof.
  intros [L1 C1 W1 O1 N1]. constructor.
  - cbn. by rewrite L1.
  - exists (sizes ++ [length ws]). split; [done|]. split; [by rewrite length_app|]. rewrite sum_list_app. cbn.
    by rewrite Nat.add_0_r.
  - done.
  - intros i Hi. destruct (lookup_lt_is_Some_2 _ _ Hi) as [n Hn].
    rewrite (scan_level sizes _ _ _ n), (scan_level (sizes ++ _) _ _ _ n), take_app_le
      by (done || lia || by rewrite lookup_app_l).
    f_equal. apply sum_take_le in Hn.
    apply mapM_seq_ext. intros k Hk. apply O1. lia.
  - intros [|j] w; [|done]. cbn [lookup list_lookup]. intros [= <-]. rewrite Nat.add_0_r.
    rewrite (scan_level _ _ _ _ (length ws)) by (rewrite lookup_app_r, Nat.sub_diag by lia; done).
    rewrite take_app_length.
    assert (mapM (λ k, scanSlice V offs' vs' (sum_list sizes + k)) (seq 0 (length ws)) = Some ws) as ->; [|done].
    apply mapM_Some, Forall2_lookup. intros j. destruct (decide (j < length ws)%nat) as [Hj|Hj].
    + rewrite lookup_seq_lt by done. destruct (lookup_lt_is_Some_2 ws j Hj) as [w Hw]. rewrite Hw. constructor. by apply N1.
    + rewrite lookup_seq_ge, (lookup_ge_None_2 ws) by lia. constructor.
Qed.

Lemma next_offset_psums sizes n :
  Z.of_nat (sum_list sizes + n) < 2 ^ 64 → next_offset (psums sizes) n = psums (sizes ++ [n]).
Proof.
  intros Hb. unfold next_offset. rewrite psums_snoc, last_psums, u64_small by lia. do 2 f_equal. lia.
Qed.

(** The rows of the level below a grown one are within the bound. *)
Lemma within_sum offs r vs : chain offs r (Rows V vs) → within offs vs → Z.of_nat r < 2 ^ 63.
Proof.
  destruct offs as [|o offs]; [cbn; intros -> (_ & H & _); done|].
  intros H%chain_lookup (Hf & _ & _). apply Forall_cons in Hf as [Hf _]. by rewrite H in Hf.
Qed.

(** A slice: the offset of its length, then its elements one level below. *)
Lemma slice_one {A} (g : Array V → A → option (Array V * option cerr)) (h : A → value) level pre n l :
  level = length pre → (∀ s x s', g s x = Some (s', None) → grows s s') →
  (∀ pre', length pre' = S level → Forall (λ x, appends_one g pre' n x (h x)) l) →
  appends_one (λ s l, append_each g (appendOffset V s level (length l)) l) pre (S n) l (VSlice GAny (map h l)).
Proof.
  intros Hlev Hg Hl offs vs r s' Hn Hc Hw Ha Hwi. destruct offs as [|o offs]; [done|].
  destruct Hc as (sizes & -> & <- & Hc). injection Hn as Hn. subst level.
  assert (appendOffset V (MkArray (pre ++ psums sizes :: offs) vs) (length pre) (length l)
          = MkArray ((pre ++ [next_offset (psums sizes) (length l)]) ++ offs) vs) as Eo.
  { unfold appendOffset. cbn. replace (length pre) with (length pre + 0)%nat at 1 by lia. by rewrite alter_app_r, <- app_assoc. }
  rewrite Eo in Ha.
  destruct (loop_extends g h (pre ++ [next_offset (psums sizes) (length l)]) n l Hg
              ltac:(apply Hl; rewrite length_app; cbn; lia) offs vs (sum_list sizes) s') as (offs' & vs' & -> & E); try done.
  exists (psums (sizes ++ [length l]) :: offs'), vs'.
  assert (within offs' vs') as Hwi'.
  { destruct Hwi as (Hf & H2 & H3). cbn in Hf. apply Forall_app in Hf as [_ Hf]. by split. }
  pose proof (within_sum _ _ _ (ext_chain _ _ _ _ _ _ E) Hwi') as Hb. rewrite length_map in Hb.
  rewrite next_offset_psums, <- app_assoc by lia. split; [done|].
  apply extends_level in E. by rewrite length_map in E.
Qed.

Lemma appends_one_ext {A C} (f : Array V → A → option (Array V * option cerr))
  (g : Array V → C → option (Array V * option cerr)) pre n x y w :
  (∀ s, f s x = g s y) → appends_one g pre n y w → appends_one f pre n x w.
Proof. intros E H offs vs r s'. rewrite E. apply H. Qed.

Lemma array_append_one depth v : ∀ level pre n, level = length pre → depth = (level + n)%nat → array_accepts n v →
  appends_one (λ s x, array_append V depth x level s) pre n v (array_stored n v).
Proof.
  revert v. fix IH 1. intros v level pre n Hlev Hdep Hacc.
  destruct n as [|n].
  { assert ((level <? depth)%nat = false) as Hlt by lia. clear IH.
    assert (accepts V (not_nil v) ∧ array_stored 0 v = stored V (not_nil v)) as [Ha ->] by by destruct v.
    eapply appends_one_ext, append_value_one, Ha. intros s. destruct v; cbn [array_append]; by rewrite Hlt. }
  assert ((level <? depth)%nat = true) as Hlt by lia.
  destruct v as [|p|t p|t|w|t l|k v|k v l|l|l|fs|r|l];
    try (clear IH; intros offs vs r0 s' _ _ _; cbn [array_append]; rewrite Hlt; done).
  - clear IH. cbn [array_stored array_accepts] in *.
    destruct (byte_elems p) as [b|] eqn:Eb; [|intros offs vs r0 s' _ _ _; cbn [array_append]; rewrite Hlt, Eb; done].
    eapply (appends_one_ext _ (λ s b, append_each (λ s c, if (level + 1 <? depth)%nat then Some (s, Some ColumnConverterError)
              else append_value V s (byte_value c)) (appendOffset V s level (length b)) b) _ _ _ b);
      [intros s; cbn [array_append]; by rewrite Hlt, Eb|].
    apply (slice_one _ (λ c, stored V (byte_value c))); [done| |].
    { intros s x s'. destruct (level + 1 <? depth)%nat; [done|]. apply append_value_grows. }
    intros pre' Hp. destruct n as [|n].
    + eapply Forall_impl; [exact Hacc|]. cbv beta. intros c Hc. assert ((level + 1 <? depth)%nat = false) as -> by lia.
      eapply appends_one_ext, append_value_one, Hc. done.
    + assert ((level + 1 <? depth)%nat = true) as -> by lia. apply Forall_forall. intros c _ offs vs r s' _ _ _ [=].
  - cbn [array_stored array_accepts] in *. eapply (appends_one_ext _ (λ s x, array_append V depth x level s) _ _ _ w).
    + intros s. cbn [array_append]. by rewrite Hlt.
    + by apply IH.
  - cbn [array_stored array_accepts] in *.
    eapply (appends_one_ext _ (λ s l, append_each (λ s x, array_append V depth x (level + 1) s) (appendOffset V s level (length l)) l) _ _ _ l).
    + clear IH. intros s. cbn [array_append]. by rewrite Hlt, append_each_map.
    + apply slice_one; [done|intros s x s'; apply array_append_grows|]. intros pre' Hp. clear Hlev.
      induction l as [|x l IHl]; [constructor|]. destruct Hacc as [Hx Hl]. constructor.
      * apply IH; [lia|lia|done].
      * by apply IHl.
Qed.

(** A slice whose element type is no pointer type holds no nil pointers. *)
Definition well_typed (v : value) : Prop :=
  match v with VSlice t l => if plain_type t then Forall (λ x, not_nil x = x) l else True | _ => True end.

(** The value behind a [driver.Valuer]. *)
Fixpoint resolve (v : value) : value :=
  match v with
  | VNullable _ p | VPtr (VNullable _ p) => null_value p
  | VValuer (Some w) | VPtr (VValuer (Some w)) => resolve w
  | VPrim (PExt _ m) | VPtr (VPrim (PExt _ m)) => match Value_method m with Some x => VPrim (PString x) | None => v end
  | _ => v
  end.

Lemma append_each_ext {S A} (f g : S → A → option (S * option cerr)) l :
  Forall (λ x, ∀ s, f s x = g s x) l → ∀ s, append_each f s l = append_each g s l.
Proof.
  induction 1 as [|x l Hx Hl IH]; intros s; [done|]. cbn [append_each]. rewrite Hx.
  destruct (g s x) as [[s' [e|]]|]; [done| |done]. apply IH.
Qed.

(** The reflection-free path of one-dimensional arrays does what the reflective one does. *)
Lemma slice_paths_agree s t l : well_typed (VSlice t l) → appendRowPlain V 1 s (VSlice t l) = appendRowDefault V 1 s (VSlice t l).
Proof.
  intros Ht. cbn [appendRowDefault array_append]. change (0 <? 1)%nat with true. cbv iota. rewrite append_each_map.
  assert (∀ x s, array_append V 1 x (0 + 1) s = append_value V s (not_nil x)) as E by by intros [].
  assert (plain_type t = true → appendPlain V s l
          = append_each (λ s x, array_append V 1 x (0 + 1) s) (appendOffset V s 0 (length l)) l) as E1.
  { intros Hp. apply append_each_ext. cbn in Ht. rewrite Hp in Ht. eapply Forall_impl; [exact Ht|]. cbv beta.
    intros x Hx s1. by rewrite E, Hx. }
  assert (appendNullablePlain V s l
          = append_each (λ s x, array_append V 1 x (0 + 1) s) (appendOffset V s 0 (length l)) l) as E2.
  { apply append_each_ext, Forall_forall. intros x _ s1. by rewrite E. }
  assert (appendRowDefault V 1 s (VSlice t l)
          = append_each (λ s x, array_append V 1 x (0 + 1) s) (appendOffset V s 0 (length l)) l) as E3.
  { cbn [appendRowDefault array_append]. change (0 <? 1)%nat with true. cbv iota. by rewrite append_each_map. }
  assert ((if plain_type t then appendPlain V s l else appendRowDefault V 1 s (VSlice t l))
          = append_each (λ s x, array_append V 1 x (0 + 1) s) (appendOffset V s 0 (length l)) l) as E4.
  { destruct (plain_type t); [by apply E1|apply E3]. }
  destruct t as [k|w| | | |t|t|t|k v| |n]; try exact E4.
  cbn [appendRowPlain]. destruct (plain_type t); [apply E2|apply E3].
Qed.

Lemma appendRowPlain_resolve v : well_typed (resolve v) → ∀ s s',
  appendRowPlain V 1 s v = Some (s', None) → appendRowDefault V 1 s (resolve v) = Some (s', None).
Proof.
  revert v. fix IH 1. intros v.
  destruct v as [|p|t p|t|[|p|t p|t|w|t l|k v|k v l|l|l|fs|[r|]|l]|t l|k v|k v l|l|l|fs|[r|]|l]; cbn [resolve]; intros Ht s s';
    try (apply (IH r Ht)); clear IH; try done.
  - destruct p as [| | | | | |x m]; cbn [appendRowPlain]; try done; by destruct (Value_method m).
  - destruct t as [| | | | | | | | | |[]]; done.
  - destruct p as [| | | | | |x m]; cbn [appendRowPlain]; try done; by destruct (Value_method m).
  - by rewrite slice_paths_agree.
Qed.

Lemma appendRowDefault_append d s v s' :
  appendRowDefault V (S d) s v = Some (s', None) → array_append V (S d) v 0 s = Some (s', None).
Proof. by destruct v. Qed.

(** The value an array of depth [d] is given. *)
Definition array_arg (d : nat) (v : value) : value := if Nat.eqb d 1 then resolve v else v.

Lemma array_AppendRow_append d s v s' :
  well_typed (array_arg (S d) v) → array_AppendRow V (S d) s v = Some (s', None) →
  array_append V (S d) (array_arg (S d) v) 0 s = Some (s', None).
Proof.
  unfold array_AppendRow, array_arg. destruct d as [|d]; cbn [Nat.eqb].
  - intros Ht H. by apply appendRowDefault_append, appendRowPlain_resolve.
  - intros _. apply appendRowDefault_append.
Qed.

Lemma array_AppendRow_grows d s v s' : array_AppendRow V (S d) s v = Some (s', None) → grows s s'.
Proof.
  assert (∀ d v s', appendRowDefault V (S d) s v = Some (s', None) → grows s s') as Hd.
  { intros d' w s1 H. eapply array_append_grows. by apply appendRowDefault_append. }
  unfold array_AppendRow. destruct (Nat.eqb (S d) 1) eqn:E; [|apply Hd].
  apply Nat.eqb_eq in E as ->. revert v. fix IH 1. intros v.
  assert (∀ t l, appendRowPlain V 1 s (VSlice t l) = Some (s', None) → grows s s') as Hs.
  { clear IH v. intros t l H.
    assert (∀ f, (∀ s x s', f s x = Some (s', None) → grows s s') →
              append_each f (appendOffset V s 0 (length l)) l = Some (s', None) → grows s s') as Hf.
    { intros f Hf Hl. etrans; [apply (appendOffset_grows s 0 (length l))|]. by eapply (append_each_rel f grows). }
    assert (∀ u f, (∀ s x s', f s x = Some (s', None) → grows s s') →
              (if plain_type u then append_each f (appendOffset V s 0 (length l)) l else appendRowDefault V 1 s (VSlice t l))
              = Some (s', None) → grows s s') as Hu.
    { intros u f Hf'. destruct (plain_type u); [by apply Hf|apply Hd]. }
    assert (∀ t0, (if plain_type t0 then appendPlain V s l else appendRowDefault V 1 s (VSlice t l)) = Some (s', None) → grows s s') as H1.
    { intros t0. apply Hu, append_value_grows. }
    assert (∀ t0, (if plain_type t0 then appendNullablePlain V s l else appendRowDefault V 1 s (VSlice t l)) = Some (s', None) → grows s s') as H2.
    { intros t0. apply Hu. intros s1 x s2. apply append_value_grows. }
    destruct t as [k|w| | | |t|t|t|k v| |n]; 
      lazymatch type of H with context [VSlice (GPtr ?u)] => exact (H2 u H) | context [VSlice ?u] => exact (H1 u H) end. }
  destruct v as [|p|t p|t|[|p|t p|t|w|t l|k v|k v l|l|l|fs|[r|]|l]|t l|k v|k v l|l|l|fs|[r|]|l];
    try (apply (IH r)); clear IH; cbn [appendRowPlain]; try done; try apply Hd; try apply Hs.
  - destruct p; apply Hd.
  - destruct t as [| | | | | | | | | |[]]; done.
  - destruct p; apply Hd.
Qed.

Definition array_wf (d : nat) (s : Array V) : Prop :=
  length (offsets s) = d ∧ chain (offsets s) (array_Rows V s) (Rows V (values s)) ∧ wf V (values s).

Lemma chain_rows o offs r vr : chain (o :: offs) r vr → chain (o :: offs) (length o) vr.
Proof. intros H. by rewrite (chain_lookup _ _ _ _ H). Qed.

(** Every row of every level can be read. *)
Lemma scan_total offs : ∀ r vs i, chain offs r (Rows V vs) → wf V vs → (i < r)%nat → is_Some (scanSlice V offs vs i).
Proof.
  induction offs as [|o offs IH]; intros r vs i Hc Hw Hi; [cbn in *; subst r; by apply law_row|].
  destruct Hc as (sizes & -> & <- & Hc). destruct (lookup_lt_is_Some_2 _ _ Hi) as [n Hn].
  rewrite (scan_level _ _ _ _ n Hn).
  assert (is_Some (mapM (λ k, scanSlice V offs vs (sum_list (take i sizes) + k)) (seq 0 n))) as [l ->]; [|done].
  apply mapM_is_Some, Forall_forall. intros k Hk. apply elem_of_seq in Hk. apply sum_take_le in Hn.
  eapply IH; [done|done|lia].
Qed.

(** The rows depend on the rows of the values only. *)
Lemma scan_same offs vs vs' : ∀ r i, chain offs r (Rows V vs) →
  (∀ i, (i < Rows V vs)%nat → Row V vs' i = Row V vs i) → (i < r)%nat → scanSlice V offs vs' i = scanSlice V offs vs i.
Proof.
  induction offs as [|o offs IH]; intros r i Hc Hrow Hi; [cbn in *; subst r; by apply Hrow|].
  destruct Hc as (sizes & -> & <- & Hc). destruct (lookup_lt_is_Some_2 _ _ Hi) as [n Hn].
  rewrite !(scan_level _ _ _ _ n Hn). f_equal. apply sum_take_le in Hn. apply mapM_seq_ext.
  intros k Hk. eapply IH; [done|done|lia].
Qed.

Lemma psums_uint sizes : Z.of_nat (sum_list sizes) < 2 ^ 63 → Forall (uint 8) (psums sizes).
Proof.
  intros Hb. apply Forall_forall. intros z Hz. apply list_elem_of_fmap in Hz as (i & -> & Hi).
  assert (sum_list (take (S i) sizes) ≤ sum_list sizes)%nat as Hle.
  { rewrite <- (take_drop (S i) sizes) at 2. rewrite sum_list_app. lia. }
  unfold uint. change (256 ^ Z.of_nat 8) with (2 ^ 64). lia.
Qed.

Lemma decode_offsets_reads offs : ∀ r vs rest, chain offs r (Rows V vs) → within offs vs →
  decode_offsets (replicate (length offs) []) r (concat (map (PutVec 8) offs) ++ rest) = Ok (offs, Rows V vs, rest).
Proof.
  induction offs as [|o offs IH]; intros r vs rest Hc Hwi; [cbn in *; by subst|].
  destruct Hc as (sizes & -> & <- & Hc). cbn [length replicate decode_offsets map concat].
  assert (within offs vs) as Hwi'. { destruct Hwi as (Hf & H2 & H3). apply Forall_cons in Hf as [_ Hf]. by split. }
  pose proof (within_sum _ _ _ Hc Hwi') as Hb.
  rewrite <- app_assoc, <- length_psums, reads_Vec by (lia || by apply psums_uint).
  cbn [rread mbind result_bind app]. rewrite last_psums, Nat2Z.id, (IH _ vs rest Hc Hwi'). done.
Qed.

(** An array without rows has no offsets and no values at any level. *)
Lemma chain_empty offs vr : chain offs 0 vr → Forall (λ o, o = []) offs ∧ vr = 0%nat.
Proof.
  induction offs as [|o offs IH]; [by cbn|]. intros (sizes & -> & Hs & Hc). apply nil_length_inv in Hs as ->.
  destruct (IH Hc) as [E1 E2]. split; [|done]. by constructor.
Qed.

Lemma empty_chain_wf d vs : wf V vs → Rows V vs = 0%nat → array_wf (S d) (MkArray (replicate (S d) []) vs).
Proof.
  intros Hw Hr. split; [cbn; by rewrite length_replicate|]. split; [|done]. cbn. exists []. split; [done|].
  split; [done|]. rewrite Hr. clear. induction d as [|d IH]; [done|]. cbn. by exists [].
Qed.

#[export] Program Instance array_laws d name t : Laws (ArrayColumn V (S d) name t) := {|
  wf := array_wf (S d);
  fits := λ s : Array V, within (offsets s) (values s);
  accepts := λ v, well_typed (array_arg (S d) v) ∧ array_accepts (S d) (array_arg (S d) v);
  stored := λ v, array_stored (S d) (array_arg (S d) v)
|}.
Next Obligation.
  intros d name t. destruct (law_fresh (I := V)) as [H1 H2]. split; [by apply empty_chain_wf|done].
Qed.
Next Obligation.
  intros d name t [offs vs] (Hl & Hc & Hw). destruct (law_reset _ Hw) as [H1 H2]. cbn in *.
  destruct offs as [|o offs]; [done|]. split; [|done]. split; [cbn; by rewrite length_map|]. split; [|done].
  exists []. split; [done|]. split; [done|]. cbn. rewrite H2. clear.
  induction offs as [|o offs IH]; [done|]. cbn. by exists [].
Qed.
Next Obligation. intros d name t s i (Hl & Hc & Hw). by apply scan_total. Qed.
Next Obligation.
  intros d name t s v s' H%array_AppendRow_grows. split; [|by apply grows_within].
  destruct H as [H _]. cbn. unfold array_Rows. destruct H; [done|lia].
Qed.
Next Obligation.
  intros d name t [offs vs] v s' (Hl & Hc & Hw) [Ht Ha] Happ%array_AppendRow_append Hf; [|done].
  destruct (array_append_one (S d) (array_arg (S d) v) 0 [] (S d) eq_refl eq_refl Ha offs vs _ s' Hl Hc Hw Happ Hf)
    as (offs' & vs' & -> & [L1 C1 W1 O1 N1]). cbn [app] in *.
  destruct offs as [|o offs]; [done|]. destruct offs' as [|o' offs']; [done|].
  assert (array_Rows V (MkArray (o' :: offs') vs') = S (length o)) as Hr.
  { cbn. rewrite (chain_lookup _ _ _ _ C1). cbn. lia. }
  split; [|split; [exact Hr|split]].
  - split; [by rewrite <- Hl|]. split; [|done]. rewrite Hr. cbn [length] in C1. by rewrite Nat.add_1_r in C1.
  - exact O1.
  - specialize (N1 0%nat _ eq_refl). by rewrite Nat.add_0_r in N1.
Qed.
Next Obligation.
  intros d name t [offs vs] (Hl & Hc & Hw) Hr. cbn in *. unfold array_Encode. cbn [offsets values].
  destruct offs as [|o offs]; [done|]. rewrite Hr in Hc.
  destruct (chain_empty _ _ Hc) as [E1 E2]. rewrite law_empty, app_nil_r by done.
  clear -L E1. induction E1 as [|o' l -> _ IH]; [done|]. cbn. by rewrite PutVec_nil.
Qed.
Next Obligation.
  intros d name t s p (Hl & Hc & Hw) Hf Hp. cbn in Hp. pose proof Hf as (_ & _ & Hfv).
  destruct (law_codec _ _ Hw Hfv Hp) as (s1 & Hrd & Hw1 & Hr1 & s2 & Hd & Hw2 & Hr2 & Hrow).
  exists (MkArray (replicate (S d) []) s1). split.
  { intros rest. cbn. rewrite Hrd. done. }
  split; [by apply empty_chain_wf|]. split; [done|].
  exists (MkArray (offsets s) s2). split.
  { intros rest. unfold ArrayColumn. cbn [Decode Encode Rows]. unfold array_Decode, array_Encode. cbn [offsets values].
    rewrite <- Hl, <- app_assoc, (decode_offsets_reads _ _ (values s) _ Hc Hf). cbn [mbind result_bind]. by rewrite Hd. }
  split; [|split; [done|]].
  - split; [done|]. split; [|done]. cbn [values offsets]. rewrite Hr2. exact Hc.
  - intros i Hi. by eapply scan_same.
Qed.
End array.

(** ** Map *)

Section map.
Variables K V : Interface.
Context {LK : Laws K} {LV : Laws V}.

(** The entries a value stands for. *)
Fixpoint map_entries (v : value) : list (value * value) :=
  match v with
  | VMap _ _ l | VPtr (VMap _ _ l) | VIter l | VPtr (VIter l) => l
  | VOrdered l | VPtr (VOrdered l) => omap (λ kv, v ← kv.2; Some (kv.1, v)) l
  | VValuer (Some w) | VPtr (VValuer (Some w)) => map_entries w
  | _ => []
  end.

Definition map_wf (s : Map K V) : Prop :=
  ∃ sizes, m_offsets s = psums sizes ∧ Rows K (m_keys s) = sum_list sizes ∧ Rows V (m_values s) = sum_list sizes
    ∧ wf K (m_keys s) ∧ wf V (m_values s).

Definition map_fits (s : Map K V) : Prop :=
  Z.of_nat (Rows K (m_keys s)) < 2 ^ 63 ∧ fits K (m_keys s) ∧ fits V (m_values s).

Definition entry_ok (kv : value * value) : Prop := accepts K kv.1 ∧ accepts V kv.2.
Definition entry_stored (kv : value * value) : value * value := (stored K kv.1, stored V kv.2).

Definition map_grows (s s' : Map K V) : Prop :=
  m_offsets s' = m_offsets s ∧ (Rows K (m_keys s) ≤ Rows K (m_keys s'))%nat ∧ (map_fits s' → map_fits s).

#[local] Instance map_grows_preorder : PreOrder map_grows.
Proof.
  split; [by intros s|]. intros s1 s2 s3 (A1 & B1 & C1) (A2 & B2 & C2). split; [congruence|]. split; [lia|auto].
Qed.

Lemma append_entry_inv s kv s' :
  append_entry K V s kv = Some (s', None) →
  ∃ ks vs, AppendRow K (m_keys s) kv.1 = Some (ks, None) ∧ AppendRow V (m_values s) kv.2 = Some (vs, None)
           ∧ s' = MkMap (m_offsets s) ks vs.
Proof.
  unfold append_entry. destruct (AppendRow K (m_keys s) kv.1) as [[ks [e|]]|]; cbn [mbind option_bind]; [done| |done].
  destruct (AppendRow V (m_values s) kv.2) as [[vs e]|]; cbn [mbind option_bind]; [|done].
  intros [= <- ->]. by exists ks, vs.
Qed.

Lemma append_entry_grows s kv s' : append_entry K V s kv = Some (s', None) → map_grows s s'.
Proof.
  intros (ks & vs & Hk & Hv & ->)%append_entry_inv. destruct (law_grows _ _ _ Hk), (law_grows _ _ _ Hv).
  split; [done|]. split; [done|]. unfold map_fits. cbn. intros (A & B & C). split; [lia|auto].
Qed.

(** The entries one by one. *)
Lemma entries_extend l : Forall entry_ok l → ∀ s s' r,
  append_each (append_entry K V) s l = Some (s', None) → map_fits s' →
  Rows K (m_keys s) = r → Rows V (m_values s) = r → wf K (m_keys s) → wf V (m_values s) →
  Rows K (m_keys s') = (r + length l)%nat ∧ Rows V (m_values s') = (r + length l)%nat
  ∧ wf K (m_keys s') ∧ wf V (m_values s')
  ∧ (∀ i, (i < r)%nat → Row K (m_keys s') i = Row K (m_keys s) i ∧ Row V (m_values s') i = Row V (m_values s) i)
  ∧ (∀ j kv, l !! j = Some kv → Row K (m_keys s') (r + j) = Some (stored K kv.1)
                               ∧ Row V (m_values s') (r + j) = Some (stored V kv.2)).
Proof.
  induction 1 as [|kv l [Hk Hv] Hl IH]; intros s s' r Ha Hf HrK HrV HwK HwV.
  { injection Ha as <-. cbn [length]. rewrite Nat.add_0_r. do 5 (split; [done|]). intros j kv [=]. }
  apply append_each_cons_inv in Ha as (s1 & H1 & Ha).
  assert (map_fits s1) as Hf1.
  { eapply (append_each_rel _ map_grows); [apply append_entry_grows|exact Ha|done]. }
  apply append_entry_inv in H1 as (ks & vs & HK & HV & ->). pose proof Hf1 as (_ & HfK & HfV). cbn in HfK, HfV.
  destruct (law_append _ _ _ HwK Hk HK HfK) as (W1 & R1 & O1 & N1).
  destruct (law_append _ _ _ HwV Hv HV HfV) as (W2 & R2 & O2 & N2).
  destruct (IH _ _ (S r) Ha Hf) as (E1 & E2 & E3 & E4 & E5 & E6); cbn; try done; [congruence|congruence|].
  cbn [length] in *. split; [lia|]. split; [lia|]. split; [done|]. split; [done|]. split.
  - intros i Hi. destruct (E5 i) as [-> ->]; [lia|]. cbn. rewrite O1, O2 by lia. done.
  - intros [|j] kv' Hj.
    + injection Hj as <-. rewrite Nat.add_0_r. destruct (E5 r) as [-> ->]; [lia|]. cbn. rewrite <- HrK at 1. by rewrite N1, <- HrV, N2.
    + replace (r + S j)%nat with (S r + j)%nat by lia. by apply E6.
Qed.

Lemma append_ordered_entries l : ∀ s s', append_each (append_ordered K V) s l = Some (s', None) →
  append_each (append_entry K V) s (omap (λ kv, v ← kv.2; Some (kv.1, v)) l) = Some (s', None)
  ∧ length (omap (λ kv : value * option value, v ← kv.2; Some (kv.1, v)) l) = length l.
Proof.
  induction l as [|[k [v|]] l IH]; intros s s' H; [done| |done].
  apply append_each_cons_inv in H as (s1 & H1 & H). destruct (IH _ _ H) as [E1 E2].
  cbn in H1 |- *. rewrite H1. cbn [mbind option_bind]. rewrite E2. done.
Qed.

Lemma map_AppendRow_inv v s s' :
  map_AppendRow K V s v = Some (s', None) →
  ∃ s1, append_each (append_entry K V) s (map_entries v) = Some (s1, None)
        ∧ s' = (append_size K V (length (map_entries v)) (s1, None)).1.
Proof.
  assert (∀ l, (r ← append_each (append_entry K V) s l; Some (append_size K V (length l) r)) = Some (s', None) →
    ∃ s1, append_each (append_entry K V) s l = Some (s1, None) ∧ s' = (append_size K V (length l) (s1, None)).1) as Hl.
  { intros l. destruct (append_each (append_entry K V) s l) as [[s1 [e|]]|]; cbn [mbind option_bind]; [done| |done].
    intros H. exists s1. split; [done|]. by injection H as <-. }
  assert (∀ l, (r ← append_each (append_ordered K V) s l; Some (append_size K V (length l) r)) = Some (s', None) →
    ∃ s1, append_each (append_entry K V) s (omap (λ kv, v ← kv.2; Some (kv.1, v)) l) = Some (s1, None)
      ∧ s' = (append_size K V (length (omap (λ kv : value * option value, v ← kv.2; Some (kv.1, v)) l)) (s1, None)).1) as Ho.
  { intros l. destruct (append_each (append_ordered K V) s l) as [[s1 [e|]]|] eqn:E; cbn [mbind option_bind]; [done| |done].
    intros H. apply append_ordered_entries in E as [E1 E2]. exists s1. split; [done|]. rewrite E2. by injection H as <-. }
  assert (Some (append_size K V 0 (s, None)) = Some (s', None) →
    ∃ s1, append_each (append_entry K V) s [] = Some (s1, None) ∧ s' = (append_size K V 0 (s1, None)).1) as H0.
  { intros H. exists s. split; [done|]. by injection H as <-. }
  revert v. fix IH 1. intros v.
  destruct v as [|p|t [p|]|t|[|p|t [p|]|t|w|t l|k v|k v l|l|l|fs|[r|]|l]|t l|k v|k v l|l|l|fs|[r|]|l]; cbn [map_AppendRow map_entries];
    try (destruct (is_scan_type K V k v)); try (apply (IH r)); clear IH; try done; try apply Hl; try apply Ho; try apply H0.
Qed.

Lemma last_offset sizes n : Z.of_nat (sum_list sizes + n) < 2 ^ 63 →
  psums sizes ++ [i64 (List.last (psums sizes) 0 + Z.of_nat n)] = psums (sizes ++ [n]).
Proof. intros Hb. rewrite psums_snoc, last_psums, i64_small by lia. do 2 f_equal. lia. Qed.

(** A row of a map: the entries between two offsets. *)
Lemma orderedRow_psums sizes ks vs i n :
  sizes !! i = Some n →
  orderedRow K V (MkMap (psums sizes) ks vs) i =
  (l ← mapM (λ k, x ← Row K ks (sum_list (take i sizes) + k); y ← Row V vs (sum_list (take i sizes) + k); Some (x, y))
         (seq 0 n); Some (VIter l)).
Proof.
  intros Hn. destruct (offset_range _ _ _ Hn) as [E1 E2]. unfold orderedRow. cbn [m_offsets m_keys m_values].
  rewrite E1, E2. cbn [mbind option_bind]. by rewrite Nat2Z.id, offset_size.
Qed.

(** The rows of a map depend on the rows of its columns only. *)
Lemma orderedRow_same sizes ks vs ks' vs' i n :
  sizes !! i = Some n → (∀ k, (k < sum_list sizes)%nat → Row K ks' k = Row K ks k ∧ Row V vs' k = Row V vs k) →
  orderedRow K V (MkMap (psums sizes) ks' vs') i = orderedRow K V (MkMap (psums sizes) ks vs) i.
Proof.
  intros Hn H. rewrite !(orderedRow_psums _ _ _ _ n Hn). f_equal. apply sum_take_le in Hn.
  apply mapM_seq_ext. intros k Hk. destruct (H (sum_list (take i sizes) + k)%nat) as [-> ->]; [lia|done].
Qed.

#[export] Program Instance map_laws name t : Laws (MapColumn K V name t) := {|
  wf := map_wf;
  fits := map_fits;
  accepts := λ v, Forall entry_ok (map_entries v);
  stored := λ v, VIter (map entry_stored (map_entries v))
|}.
Next Obligation.
  intros name t. destruct (law_fresh (I := K)), (law_fresh (I := V)). split; [|done]. by exists [].
Qed.
Next Obligation.
  intros name t s (sizes & Ho & HrK & HrV & HwK & HwV). destruct (law_reset _ HwK), (law_reset _ HwV).
  split; [|done]. by exists [].
Qed.
Next Obligation.
  intros name t [o ks vs] i (sizes & Ho & HrK & HrV & HwK & HwV) Hi. cbn in *. subst o. rewrite length_psums in Hi.
  destruct (lookup_lt_is_Some_2 _ _ Hi) as [n Hn]. rewrite (orderedRow_psums _ _ _ _ n Hn).
  apply sum_take_le in Hn.
  assert (is_Some (mapM (λ k, x ← Row K ks (sum_list (take i sizes) + k); y ← Row V vs (sum_list (take i sizes) + k); Some (x, y))
         (seq 0 n))) as [l ->]; [|done].
  apply mapM_is_Some, Forall_forall. intros k Hk. unfold compose. apply elem_of_seq in Hk.
  destruct (law_row ks (sum_list (take i sizes) + k) HwK) as [x ->]; [lia|].
  destruct (law_row vs (sum_list (take i sizes) + k) HwV) as [y ->]; [lia|]. done.
Qed.
Next Obligation.
  intros name t s v s' (s1 & Ha & ->)%map_AppendRow_inv.
  apply (append_each_rel _ map_grows) in Ha as (H1 & H2 & H3); [|apply append_entry_grows].
  cbn. rewrite length_app, H1. split; [lia|]. intros H. apply H3. exact H.
Qed.
Next Obligation.
  intros name t [o ks vs] v s' (sizes & Ho & HrK & HrV & HwK & HwV) Hok (s1 & Ha & ->)%map_AppendRow_inv Hf. cbn in Ho. subst o.
  pose proof Ha as Hg. apply (append_each_rel _ map_grows) in Hg as (H1 & _ & _); [|apply append_entry_grows].
  destruct (entries_extend _ Hok _ _ _ Ha Hf HrK HrV HwK HwV) as (E1 & E2 & E3 & E4 & E5 & E6).
  destruct s1 as [o1 ks1 vs1]. cbn in H1, E1, E2, E3, E4, E5, E6, Hf |- *. subst o1.
  pose proof Hf as (Hb & _ & _). cbn in Hb. rewrite E1 in Hb. rewrite last_offset by done.
  split; [|split; [by rewrite !length_psums, length_app, Nat.add_1_r|split]].
  - exists (sizes ++ [length (map_entries v)]). cbn. rewrite sum_list_app. cbn [sum_list sum_list_with].
    rewrite Nat.add_0_r. done.
  - intros i Hi. rewrite length_psums in Hi. destruct (lookup_lt_is_Some_2 _ _ Hi) as [n Hn].
    rewrite (orderedRow_psums sizes _ _ _ n), (orderedRow_psums (sizes ++ _) _ _ _ n), take_app_le
      by (done || lia || by rewrite lookup_app_l).
    f_equal. apply sum_take_le in Hn. apply mapM_seq_ext. intros k Hk.
    destruct (E5 (sum_list (take i sizes) + k)%nat) as [-> ->]; [lia|done].
  - rewrite length_psums, (orderedRow_psums _ _ _ _ (length (map_entries v)))
      by (rewrite lookup_app_r, Nat.sub_diag by lia; done).
    rewrite take_app_length.
    match goal with |- (_ ← ?m; _) = _ => assert (m = Some (map entry_stored (map_entries v))) as ->; [|done] end.
    apply mapM_Some, Forall2_lookup. intros j. destruct (decide (j < length (map_entries v))%nat) as [Hj|Hj].
    + rewrite lookup_seq_lt by done. destruct (lookup_lt_is_Some_2 _ _ Hj) as [kv Hkv].
      rewrite (list_lookup_fmap entry_stored _ _ : map _ _ !! _ = _), Hkv. constructor.
      destruct (E6 _ _ Hkv) as [F1 F2]. change (0 + j)%nat with j. by rewrite F1, F2.
    + rewrite lookup_seq_ge, (lookup_ge_None_2 (map _ _)) by (rewrite ?length_map; lia). constructor.
Qed.
Next Obligation.
  intros name t [o ks vs] (sizes & Ho & HrK & HrV & HwK & HwV) Hr. cbn in *. subst o. rewrite length_psums in Hr.
  apply nil_length_inv in Hr as ->. cbn in HrK, HrV. unfold map_Encode. cbn. by rewrite PutVec_nil, !law_empty.
Qed.
Next Obligation.
  intros name t [o ks vs] p (sizes & Ho & HrK & HrV & HwK & HwV) (Hb & HfK & HfV) Hp. cbn in *. subst o.
  destruct (write_prefix K ks) as [pk|] eqn:Ek; [|done]. cbn in Hp.
  destruct (write_prefix V vs) as [pv|] eqn:Ev; [|done]. cbn in Hp. injection Hp as <-.
  destruct (law_codec _ _ HwK HfK Ek) as (k1 & Hk1 & Wk1 & Rk1 & k2 & Hk2 & Wk2 & Rk2 & Ok2).
  destruct (law_codec _ _ HwV HfV Ev) as (v1 & Hv1 & Wv1 & Rv1 & v2 & Hv2 & Wv2 & Rv2 & Ov2).
  exists (MkMap [] k1 v1). split.
  { intros rest. cbn. rewrite <- app_assoc, Hk1. cbn. by rewrite Hv1. }
  split; [by exists []|]. split; [done|].
  destruct (decide (sizes = [])) as [-> |Hne].
  { exists (MkMap [] k1 v1). cbn in HrK, HrV. split; [|split; [by exists []|]; split; [done|intros i Hi; cbn in Hi; lia]].
    intros rest. cbn. unfold map_Decode, map_Encode. cbn. rewrite PutVec_nil, !law_empty by done. cbn.
    pose proof (reads_Vec 8 [] rest) as HR. rewrite PutVec_nil in HR. cbn in HR. by rewrite HR by (lia || constructor). }
  exists (MkMap (psums sizes) k2 v2). split; [|split; [|split]].
  - intros rest. cbn. unfold map_Decode, map_Encode. cbn [m_offsets m_keys m_values]. rewrite <- !app_assoc, reads_Vec
      by (lia || (apply psums_uint; lia)).
    cbn [rread mbind result_bind app]. rewrite bool_decide_false.
    2: { intros E. apply Hne, nil_length_inv. by rewrite <- length_psums, E. }
    rewrite last_psums, i64_small, Nat2Z.id, <- HrK, Hk2 by lia. cbn [mbind result_bind]. by rewrite HrK, <- HrV, Hv2.
  - exists sizes. cbn. split; [done|]. split; [congruence|]. split; [congruence|done].
  - done.
  - intros i Hi. cbn in Hi. rewrite length_psums in Hi. destruct (lookup_lt_is_Some_2 _ _ Hi) as [n Hn].
    apply (orderedRow_same _ _ _ _ _ _ n Hn). intros k Hk. rewrite Ok2, Ov2 by lia. done.
Qed.
End map.

(** ** Tuple *)

Fixpoint all_laws (l : list Interface) : Type :=
  match l with [] => unit | C :: l => (Laws C * all_laws l)%type end.
Class LawsAll (l : list Interface) := laws_of : all_laws l.
#[export] Instance laws_nil : LawsAll [] := tt.
#[export] Instance laws_cons C l `{LC : Laws C} `{LL : LawsAll l} : LawsAll (C :: l) := (LC, LL).

Fixpoint wf_all (l : list Interface) : all_laws l → states l → nat → Prop :=
  match l with
  | [] => λ _ _ _, True
  | C :: l => λ H ss r, @wf C H.1 ss.1 ∧ Rows C ss.1 = r ∧ wf_all l H.2 ss.2 r
  end.

Fixpoint fits_all (l : list Interface) : all_laws l → states l → Prop :=
  match l with [] => λ _ _, True | C :: l => λ H ss, @fits C H.1 ss.1 ∧ fits_all l H.2 ss.2 end.

Fixpoint accepts_all (l : list Interface) : all_laws l → (nat → value) → Prop :=
  match l with [] => λ _ _, True | C :: l => λ H f, @accepts C H.1 (f 0%nat) ∧ accepts_all l H.2 (λ i, f (S i)) end.

Fixpoint stored_all (l : list Interface) : all_laws l → (nat → value) → list value :=
  match l with [] => λ _ _, [] | C :: l => λ H f, @stored C H.1 (f 0%nat) :: stored_all l H.2 (λ i, f (S i)) end.

(** Which columns have been given a value. *)
Fixpoint touched (l : list Interface) : (nat → option value) → states l → states l → Prop :=
  match l with
  | [] => λ _ _ _, True
  | C :: l => λ m ss ss',
      match m 0%nat with Some v => AppendRow C ss.1 v = Some (ss'.1, None) | None => ss'.1 = ss.1 end
      ∧ touched l (λ i, m (S i)) ss.2 ss'.2
  end.

Lemma touched_ext l : ∀ m m' ss ss', (∀ i, m i = m' i) → touched l m ss ss' → touched l m' ss ss'.
Proof.
  induction l as [|C l IH]; intros m m' ss ss' E H; [done|]. destruct H as [H1 H2]. split; [by rewrite <- E|].
  eapply IH; [|exact H2]. intros i. apply E.
Qed.

Lemma touched_none l ss : touched l (λ _, None) ss ss.
Proof. induction l as [|C l IH]; [done|]. by split. Qed.

Lemma touched_step l : ∀ m ss ss1 i v ss2, touched l m ss ss1 → m i = None → append_at l ss1 i v = Some (ss2, None) →
  touched l (λ j, if decide (j = i) then Some v else m j) ss ss2.
Proof.
  induction l as [|C l IH]; intros m ss ss1 i v ss2 Ht Hm Ha; [done|]. destruct Ht as [Ht1 Ht2].
  destruct i as [|i]; cbn in Ha.
  - destruct (AppendRow C ss1.1 v) as [[s e]|] eqn:E; [|done]. cbn in Ha. injection Ha as <- ->.
    rewrite Hm in Ht1. split.
    + rewrite decide_True by done. cbn. by rewrite <- Ht1.
    + cbn. eapply touched_ext; [|exact Ht2]. intros j. by rewrite decide_False by lia.
  - destruct (append_at l ss1.2 i v) as [[s e]|] eqn:E; [|done]. cbn in Ha. injection Ha as <- ->.
    split.
    + by rewrite decide_False by lia.
    + cbn. eapply touched_ext; [|eapply (IH (λ j, m (S j)))]; [|done|done|done].
      intros j. cbv beta. destruct (decide (j = i)) as [-> |]; [by rewrite decide_True|by rewrite decide_False by lia].
Qed.

(** Distinct columns, each given its value. *)
Lemma touched_each l ps : ∀ m ss ss1 ss', touched l m ss ss1 → NoDup ps.*1 → (∀ i, i ∈ ps.*1 → m i = None) →
  append_each (λ ss iv, append_at l ss iv.1 iv.2) ss1 ps = Some (ss', None) →
  touched l (λ i, match (list_to_map ps : gmap nat value) !! i with Some v => Some v | None => m i end) ss ss'.
Proof.
  induction ps as [|[i v] ps IH]; intros m ss ss1 ss' Ht Hnd Hm Ha.
  { injection Ha as <-. eapply touched_ext; [|exact Ht]. intros i. cbn. by rewrite lookup_empty. }
  apply append_each_cons_inv in Ha as (s1 & H1 & Ha). cbn in Hnd, H1. apply NoDup_cons in Hnd as [Hi Hnd].
  pose proof (touched_step _ _ _ _ _ _ _ Ht (Hm i ltac:(set_solver)) H1) as Ht1.
  specialize (IH _ _ _ ss' Ht1 Hnd). eapply touched_ext; [|apply IH; [|exact Ha]].
  - intros j. cbn. destruct (decide (j = i)) as [-> |Hne].
    + rewrite lookup_insert_eq. rewrite not_elem_of_list_to_map_1 by done. done.
    + by rewrite lookup_insert_ne by done.
  - intros j Hj. cbv beta. destruct (decide (j = i)) as [-> |]; [done|]. apply Hm. set_solver.
Qed.

(** All columns given a value. *)
Lemma touched_append l : ∀ (H : all_laws l) m f ss ss' r, (∀ i, (i < length l)%nat → m i = Some (f i)) →
  wf_all l H ss r → accepts_all l H f → touched l m ss ss' → fits_all l H ss' →
  wf_all l H ss' (S r) ∧ (∀ i, (i < r)%nat → tuple_elements l ss' i = tuple_elements l ss i)
  ∧ tuple_elements l ss' r = Some (stored_all l H f).
Proof.
  induction l as [|C l IH]; intros H m f ss ss' r Hm Hw Ha Ht Hf; [done|].
  destruct Hw as (W1 & R1 & W2), Ha as [A1 A2], Ht as [T1 T2], Hf as [F1 F2].
  rewrite (Hm 0%nat) in T1 by (cbn; lia).
  destruct (@law_append C H.1 _ _ _ W1 A1 T1 F1) as (E1 & E2 & E3 & E4).
  destruct (IH H.2 (λ i, m (S i)) (λ i, f (S i)) ss.2 ss'.2 r) as (G1 & G2 & G3); try done.
  { intros i Hi. apply Hm. cbn. lia. }
  split; [split; [done|]; split; [congruence|done]|]. split.
  - intros i Hi. cbn. rewrite E3 by lia. by rewrite G2.
  - cbn. rewrite <- R1 at 1. rewrite E4. cbn. by rewrite G3.
Qed.

Lemma tuple_elements_total l : ∀ (H : all_laws l) ss r i, wf_all l H ss r → (i < r)%nat → is_Some (tuple_elements l ss i).
Proof.
  induction l as [|C l IH]; intros H ss r i Hw Hi; [done|]. destruct Hw as (W1 & R1 & W2). cbn.
  destruct (@law_row C H.1 ss.1 i W1) as [x ->]; [lia|]. cbn. by destruct (IH _ _ _ _ W2 Hi) as [y ->].
Qed.

Lemma tuple_fresh l : ∀ H : all_laws l, wf_all l H (fresh_all l) 0.
Proof.
  induction l as [|C l IH]; intros H; [done|]. destruct (@law_fresh C H.1). split; [done|]. split; [done|apply IH].
Qed.

Lemma tuple_reset l : ∀ (H : all_laws l) ss r, wf_all l H ss r → wf_all l H (tuple_Reset l ss) 0.
Proof.
  induction l as [|C l IH]; intros H ss r Hw; [done|]. destruct Hw as (W1 & R1 & W2).
  destruct (@law_reset C H.1 _ W1). split; [done|]. split; [done|]. by eapply IH.
Qed.

Lemma tuple_empty l : ∀ (H : all_laws l) ss, wf_all l H ss 0 → tuple_Encode l ss = [].
Proof.
  induction l as [|C l IH]; intros H ss Hw; [done|]. destruct Hw as (W1 & R1 & W2). cbn.
  rewrite (@law_empty C H.1) by done. by eapply IH.
Qed.

(** Prefixes of all columns, then the data of all columns. *)
Lemma tuple_codec l : ∀ (H : all_laws l) ss r p, wf_all l H ss r → fits_all l H ss → tuple_write l ss = Ok p →
  ∃ ss1, (∀ rest, tuple_read l (fresh_all l) (p ++ rest) = Ok (ss1, rest)) ∧ wf_all l H ss1 0
  ∧ ∃ ss2, (∀ rest, tuple_Decode l ss1 r (tuple_Encode l ss ++ rest) = Ok (ss2, rest)) ∧ wf_all l H ss2 r
  ∧ ∀ i, (i < r)%nat → tuple_elements l ss2 i = tuple_elements l ss i.
Proof.
  induction l as [|C l IH]; intros H ss r p Hw Hf Hp.
  { injection Hp as <-. exists tt. split; [done|]. split; [done|]. by exists tt. }
  destruct Hw as (W1 & R1 & W2), Hf as [F1 F2]. cbn in Hp.
  destruct (write_prefix C ss.1) as [p1|] eqn:E1; [|done]. cbn in Hp.
  destruct (tuple_write l ss.2) as [p2|] eqn:E2; [|done]. injection Hp as <-.
  destruct (@law_codec C H.1 _ _ W1 F1 E1) as (s1 & A1 & A2 & A3 & s2 & A4 & A5 & A6 & A7).
  destruct (IH H.2 _ _ _ W2 F2 E2) as (t1 & B1 & B2 & t2 & B3 & B4 & B5).
  exists (s1, t1). split; [intros rest; cbn; rewrite <- app_assoc, A1; cbn; by rewrite B1|].
  split; [by split|]. exists (s2, t2). split; [|split].
  - intros rest. cbn. rewrite <- app_assoc, <- R1, A4. cbn. by rewrite R1, B3.
  - split; [done|]. split; [cbn; congruence|done].
  - intros i Hi. cbn. rewrite A7 by lia. by rewrite B5.
Qed.

Section tuple.
Variable l : list Interface.
Variable isNamed : bool.
Variable index : gmap gostring nat.

(** The elements a value names, with their positions. *)
Definition named_pairs (fs : list (gostring * value)) : list (nat * value) :=
  omap (λ nv : gostring * value, i ← index !! nv.1; Some (i, nv.2)) fs.

Fixpoint tuple_pairs (v : value) : list (nat * value) :=
  match v with
  | VStruct fs | VPtr (VStruct fs) => named_pairs (struct_fields fs)
  | VMap _ _ kvs | VPtr (VMap _ _ kvs) => named_pairs (omap string_key kvs)
  | VSlice _ vs | VPtr (VSlice _ vs) => zip (seq 0 (length vs)) vs
  | VPrim (PExt (XIP b) _) | VPtr (VPrim (PExt (XIP b) _)) =>
      let vs := map byte_value (default [] b) in zip (seq 0 (length vs)) vs
  | VValuer (Some w) | VPtr (VValuer (Some w)) => tuple_pairs w
  | _ => []
  end.

(** The value given to column [i]. *)
Definition tuple_arg (v : value) (i : nat) : value := default VNil ((list_to_map (tuple_pairs v) : gmap nat value) !! i).

Lemma append_named_pairs fs : ∀ ss ss', append_each (append_named l index) ss fs = Some (ss', None) →
  append_each (λ ss iv, append_at l ss iv.1 iv.2) ss (named_pairs fs) = Some (ss', None).
Proof.
  induction fs as [|[n v] fs IH]; intros ss ss' H; [done|].
  apply append_each_cons_inv in H as (s1 & H1 & H). unfold append_named in H1. cbn in H1 |- *.
  destruct (index !! n) as [i|]; [|done]. cbn. rewrite H1. cbn. by apply IH.
Qed.

Lemma tuple_AppendRow_pairs v ss ss' : tuple_AppendRow l isNamed index ss v = Some (ss', None) →
  append_each (λ ss iv, append_at l ss iv.1 iv.2) ss (tuple_pairs v) = Some (ss', None).
Proof.
  assert (∀ fs, tuple_struct l isNamed index ss fs = Some (ss', None) →
    append_each (λ ss iv, append_at l ss iv.1 iv.2) ss (named_pairs (struct_fields fs)) = Some (ss', None)) as Hs.
  { intros fs. unfold tuple_struct. destruct isNamed; [|done]. cbn [negb]. case_match; [done|]. apply append_named_pairs. }
  assert (∀ k kvs, tuple_map l isNamed index ss k kvs = Some (ss', None) →
    append_each (λ ss iv, append_at l ss iv.1 iv.2) ss (named_pairs (omap string_key kvs)) = Some (ss', None)) as Hm.
  { intros k kvs. unfold tuple_map. destruct isNamed; [|done]. cbn [negb]. do 2 (case_match; [done|]). apply append_named_pairs. }
  assert (∀ vs, tuple_slice l ss vs = Some (ss', None) →
    append_each (λ ss iv, append_at l ss iv.1 iv.2) ss (zip (seq 0 (length vs)) vs) = Some (ss', None)) as Hv.
  { intros vs. unfold tuple_slice. case_match; [done|]. done. }
  revert v. fix IH 1. intros v.
  destruct v as [|p|t [p|]|t|[|p|t [p|]|t|w|t vs|k v|k v vs|vs|vs|fs|[r|]|vs]|t vs|k v|k v vs|vs|vs|fs|[r|]|vs];
    cbn [tuple_AppendRow tuple_pairs]; try (apply (IH r)); clear IH; try done; try apply Hs; try apply Hv; try apply Hm.
  - destruct p as [| | | | | |[] m]; try done; first [apply Hv | apply (Hs [])].
  - destruct t as [| | | | | | | | | |[]]; done.
  - destruct p as [| | | | | |[] m]; try done; first [apply Hv | apply (Hs [])].
Qed.

Context {H : LawsAll l}.

Definition tuple_grows (ss ss' : states l) : Prop :=
  (tuple_Rows l ss ≤ tuple_Rows l ss')%nat ∧ (fits_all l H ss' → fits_all l H ss).

#[export] Instance tuple_grows_preorder : PreOrder tuple_grows.
Proof. split; [by intros ss|]. intros s1 s2 s3 [A1 B1] [A2 B2]. split; [lia|auto]. Qed.
End tuple.

Lemma append_at_grows l : ∀ (H : all_laws l) ss i v ss', append_at l ss i v = Some (ss', None) →
  (tuple_Rows l ss ≤ tuple_Rows l ss')%nat ∧ (fits_all l H ss' → fits_all l H ss).
Proof.
  induction l as [|C l IH]; intros H ss i v ss' Ha; [done|]. destruct i as [|i]; cbn in Ha.
  - destruct (AppendRow C ss.1 v) as [[s e]|] eqn:E; [|done]. cbn in Ha. injection Ha as <- ->.
    destruct (@law_grows C H.1 _ _ _ E) as [G1 G2]. split; [done|]. cbn. intros [F1 F2]. auto.
  - destruct (append_at l ss.2 i v) as [[s e]|] eqn:E; [|done]. cbn in Ha. injection Ha as <- ->.
    destruct (IH H.2 _ _ _ _ E) as [G1 G2]. split; [done|]. cbn. intros [F1 F2]. auto.
Qed.

Section tuple_laws.
Variable C : Interface.
Variable l : list Interface.
Variable isNamed : bool.
Variable index : gmap gostring nat.
Context {LC : Laws C} {LL : LawsAll l}.

Lemma tuple_touched v (ss ss' : states (C :: l)) :
  (tuple_pairs index v).*1 ≡ₚ seq 0 (length (C :: l)) →
  tuple_AppendRow (C :: l) isNamed index ss v = Some (ss', None) →
  ∃ m, touched (C :: l) m ss ss' ∧ ∀ i, (i < length (C :: l))%nat → m i = Some (tuple_arg index v i).
Proof.
  intros Hp Ha%tuple_AppendRow_pairs. eexists. split.
  - eapply touched_each; [apply touched_none| |done|exact Ha]. rewrite Hp. apply NoDup_seq.
  - intros i Hi. cbv beta. unfold tuple_arg.
    assert (i ∈ (tuple_pairs index v).*1) as Hin by (rewrite Hp; apply elem_of_seq; lia).
    destruct (list_to_map (tuple_pairs index v) !! i) as [w|] eqn:E; [done|].
    by apply not_elem_of_list_to_map_2 in E.
Qed.

#[export] Program Instance tuple_laws name t : Laws (TupleColumn (C :: l) isNamed index name t) := {|
  wf := λ ss : states (C :: l), wf_all (C :: l) (LC, LL) ss (tuple_Rows (C :: l) ss);
  fits := fits_all (C :: l) (LC, LL);
  accepts := λ v, (tuple_pairs index v).*1 ≡ₚ seq 0 (length (C :: l)) ∧ accepts_all (C :: l) (LC, LL) (tuple_arg index v);
  stored := λ v, VTuple (stored_all (C :: l) (LC, LL) (tuple_arg index v))
|}.
Next Obligation.
  intros name t. pose proof (tuple_fresh (C :: l) (LC, LL)) as Hw.
  assert (tuple_Rows (C :: l) (fresh_all (C :: l)) = 0%nat) as Hr by apply Hw. split; [|exact Hr].
  cbv beta. change (fresh _) with (fresh_all (C :: l)). by rewrite Hr.
Qed.
Next Obligation.
  intros name t ss Hw%tuple_reset.
  assert (tuple_Rows (C :: l) (tuple_Reset (C :: l) ss) = 0%nat) as Hr by apply Hw. split; [|exact Hr].
  cbv beta. change (Reset _ ss) with (tuple_Reset (C :: l) ss). by rewrite Hr.
Qed.
Next Obligation.
  intros name t ss i Hw Hi. cbn -[tuple_elements]. by destruct (tuple_elements_total _ _ _ _ i Hw Hi) as [x ->].
Qed.
Next Obligation.
  intros name t ss v ss' Ha%tuple_AppendRow_pairs.
  apply (@append_each_rel _ _ _ _ (tuple_grows_preorder (C :: l) (H := (LC, LL)))) in Ha; [exact Ha|]. intros s1 [i w] s2. apply append_at_grows.
Qed.
Next Obligation.
  intros name t ss v ss' Hw [Hp Hacc] Ha Hf. destruct (tuple_touched v ss ss' Hp Ha) as (m & Ht & Hm).
  destruct (touched_append _ _ _ _ _ _ _ Hm Hw Hacc Ht Hf) as (W1 & O1 & N1).
  assert (tuple_Rows (C :: l) ss' = S (tuple_Rows (C :: l) ss)) as Hr by apply W1.
  split; [by rewrite Hr|]. split; [done|]. split.
  - intros i Hi. cbn -[tuple_elements]. by rewrite O1.
  - cbn [Row Rows TupleColumn]. by rewrite N1.
Qed.
Next Obligation.
  intros name t ss Hw Hr. apply (tuple_empty (C :: l) (LC, LL)).
  change (wf_all (C :: l) (LC, LL) ss (tuple_Rows (C :: l) ss)) in Hw.
  change (tuple_Rows (C :: l) ss = 0%nat) in Hr. by rewrite <- Hr.
Qed.
Next Obligation.
  intros name t ss p Hw Hf Hp. destruct (tuple_codec _ _ _ _ _ Hw Hf Hp) as (s1 & A1 & A2 & s2 & A3 & A4 & A5).
  assert (tuple_Rows (C :: l) s1 = 0%nat) as R1 by apply A2.
  assert (tuple_Rows (C :: l) s2 = tuple_Rows (C :: l) ss) as R2 by apply A4.
  exists s1. split; [exact A1|]. split; [by rewrite R1|]. split; [done|]. exists s2. split; [exact A3|].
  split; [by rewrite R2|]. split; [done|]. intros i Hi. cbn -[tuple_elements]. by rewrite A5.
Qed.
End tuple_laws.

(** ** SimpleAggregateFunction and Nested *)

#[export] Instance simple_aggregate_laws I `{LI : Laws I} name t : Laws (SimpleAggregateFunction I name t) := {|
  wf := wf I : state (SimpleAggregateFunction I name t) → Prop; fits := fits I : state (SimpleAggregateFunction I name t) → Prop;
  accepts := accepts I; stored := stored I;
  law_fresh := @law_fresh I LI; law_reset := @law_reset I LI; law_row := @law_row I LI; law_grows := @law_grows I LI;
  law_append := @law_append I LI; law_empty := @law_empty I LI; law_codec := @law_codec I LI
|}.

#[export] Instance nested_laws I `{LI : Laws I} : Laws (Nested I) := {|
  wf := wf I : state (Nested I) → Prop; fits := fits I : state (Nested I) → Prop; accepts := accepts I; stored := stored I;
  law_fresh := @law_fresh I LI; law_reset := @law_reset I LI; law_row := @law_row I LI; law_grows := @law_grows I LI;
  law_append := @law_append I LI; law_empty := @law_empty I LI; law_codec := @law_codec I LI
|}.
End laws.
