(* ===== verification/ColumnLeaf.v ===== *)
(** * Columns of numbers, booleans and strings
      ([lib/column/column_gen.go], [bool.go], [string.go], [fixed_string.go], [lib/binary])

    The generated columns of integers are one definition over the kind; the differences
    the template makes between the types are in it.  Floating-point conversions are left
    to [conv_float]: the language leaves them to the implementation when the value does
    not fit. *)

From Stdlib Require Import ZifyBool.
From S2P Require Import Prelude GoStd Wire Column ColumnLaws.
Local Open Scope Z_scope.

(** ** Integers *)

Definition width (k : intkind) : nat :=
  match k with
  | KInt8 | KUint8 => 1
  | KInt16 | KUint16 => 2
  | KInt32 | KUint32 => 4
  | KInt | KInt64 | KUint | KUint64 => 8
  end.

Definition signed (k : intkind) : bool :=
  match k with KInt | KInt8 | KInt16 | KInt32 | KInt64 => true | _ => false end.

(** The conversion of an integer to the kind. *)
Definition wrap (k : intkind) (z : Z) : Z :=
  if signed k then swrap (8 * Z.of_nat (width k)) z else z mod 256 ^ Z.of_nat (width k).

Definition in_kind (k : intkind) (z : Z) : Prop := wrap k z = z.

(** The kinds with a [sql.NullXxx] of their own. *)
Definition has_null (k : intkind) : bool := match k with KInt16 | KInt32 | KInt64 => true | _ => false end.

Section leaves.
Context {W : Wire}.
Variable conv_float : intkind → nat → Z → Z.

(** A column over one of the vectors of ch-go: the rows are its elements. *)
Definition ListColumn {A} (val : A → value) (scan : gotype) (ap : list A → value → option (list A * option cerr))
  (aps : list A → value → option (list A * result cerr (option (list Z)))) (enc : list A → gostring)
  (dec : nat → gostring → option (list A * gostring)) (name t : gostring) : Interface :=
  MkInterface (list A) [] name t scan length (λ s i, x ← s !! i; Some (val x)) ap aps (λ _, []) enc
    (λ s rows b, '(l, b) ← rread (dec rows b); Ok (s ++ l, b)) None.

Section int_column.
Variable k : intkind.

Definition int_push (s : list Z) (z : Z) : option (list Z * option cerr) := Some (s ++ [z], None).
Definition refuse {S} (s : S) : option (S * option cerr) := Some (s, Some ColumnConverterError).

Definition bool_int (b : bool) : Z := if b then 1 else 0.

(** A value that is no pointer and no valuer: the cases of the switch, then
    [reflect.Value.Convert]. *)
Definition int_prim (s : list Z) (p : prim) : option (list Z * option cerr) :=
  match p with
  | PInt k' z => int_push s (if decide (k' = k) then z else wrap k z)
  | PBool b => match k with KInt8 | KUint8 => int_push s (bool_int b) | _ => refuse s end
  | PDuration z => int_push s (if decide (k = KInt64) then z else wrap k z)
  | PFloat w b => int_push s (conv_float k w b)
  | PString _ | PStringer _ | PExt _ _ => refuse s
  end.

(** [sql.NullXxx] of the column's own type, or what [Value] gives. *)
Definition int_null (s : list Z) (t : gotype) (p : option prim) : option (list Z * option cerr) :=
  match p with
  | None => int_push s 0
  | Some q => if has_null k && bool_decide (t = GInt k) then int_prim s q else int_prim s (driver_value q)
  end.

Fixpoint int_AppendRow (s : list Z) (v : value) {struct v} : option (list Z * option cerr) :=
  match v with
  | VPrim p => int_prim s p
  | VPtr (VPrim (PInt k' z)) => if decide (k' = k) then int_push s z else refuse s
  | VNilPtr (GInt k') => if decide (k' = k) then int_push s 0 else refuse s
  | VNil => int_push s 0
  | VPtr (VPrim (PBool b)) => match k with KInt8 => int_push s (bool_int b) | _ => refuse s end
  | VNilPtr GBool => match k with KInt8 => None | _ => refuse s end
  | VPtr (VPrim (PDuration z)) => match k with KInt64 => int_push s z | _ => refuse s end
  | VNilPtr GDuration => match k with KInt64 => None | _ => refuse s end
  | VNullable t p | VPtr (VNullable t p) => int_null s t p
  | VNilPtr (GNull _ | GExt (KUUID | KDecimal)) => None
  | VValuer (Some w) | VPtr (VValuer (Some w)) => int_AppendRow s w
  | _ => refuse s
  end.

(** [Append]: slices of the column's type and of pointers to it, which report nulls;
    slices of [sql.NullXxx], which report none. *)
Definition int_elem (v : value) : Z :=
  match v with VPrim (PInt _ z) | VPtr (VPrim (PInt _ z)) => z | VPrim (PBool b) | VPtr (VPrim (PBool b)) => bool_int b | _ => 0 end.
Definition nil_mark (v : value) : Z := match v with VNilPtr _ => 1 | _ => 0 end.

Fixpoint int_Append (s : list Z) (v : value) {struct v} : option (list Z * result cerr (option (list Z))) :=
  match v with
  | VSlice (GInt k') l =>
      if decide (k' = k) then Some (s ++ map int_elem l, Ok (Some (map (λ _, 0) l))) else Some (s, Err ColumnConverterError)
  | VSlice (GPtr (GInt k')) l =>
      if decide (k' = k) then Some (s ++ map int_elem l, Ok (Some (map nil_mark l))) else Some (s, Err ColumnConverterError)
  | VSlice (GNull (GInt k')) l =>
      if has_null k && bool_decide (k' = k) then
        '(s, _) ← append_each int_AppendRow s l; Some (s, Ok (Some (map (λ _, 0) l)))
      else Some (s, Err ColumnConverterError)
  | VSlice (GPtr (GNull (GInt k'))) l =>
      if has_null k && bool_decide (k' = k) then
        '(s, _) ← append_each int_AppendRow s l; Some (s, Ok (Some (map nil_mark l)))
      else Some (s, Err ColumnConverterError)
  | VSlice GBool l =>
      match k with KInt8 => Some (s ++ map int_elem l, Ok (Some (map (λ _, 0) l))) | _ => Some (s, Err ColumnConverterError) end
  | VSlice (GPtr GBool) l =>
      match k with KInt8 => Some (s ++ map int_elem l, Ok (Some (map nil_mark l))) | _ => Some (s, Err ColumnConverterError) end
  | VValuer (Some w) | VPtr (VValuer (Some w)) => int_Append s w
  | VNilPtr (GNull _ | GExt (KUUID | KDecimal)) => None
  | _ => Some (s, Err ColumnConverterError)
  end.

(** [ScanRow]: what is stored, by the type the destination points to; [None] when it is
    refused.  A [sql.Scanner] receives the value itself. *)
Definition int_ScanRow (z : Z) (dest : gotype) (scanner : bool) : option value :=
  match dest with
  | GInt k' => if decide (k' = k) then Some (VPrim (PInt k z)) else None
  | GPtr (GInt k') => if decide (k' = k) then Some (VPtr (VPrim (PInt k z))) else None
  | GDuration => match k with KInt64 => Some (VPrim (PDuration z)) | _ => None end
  | GNull (GInt k') => if has_null k && bool_decide (k' = k) then Some (VNullable dest (Some (PInt k z))) else None
  | GBool => match k with KInt8 | KUint8 => Some (VPrim (PBool (negb (z =? 0)))) | _ => None end
  | _ => if scanner then Some (VPrim (PInt k z)) else None
  end.

Definition int_Encode (s : list Z) : gostring := PutVec (width k) (map (λ z, z mod 256 ^ Z.of_nat (width k)) s).
Definition int_Decode (rows : nat) (b : gostring) : option (list Z * gostring) :=
  '(l, b) ← RVec (width k) rows b; Some (map (wrap k) l, b).

Definition IntColumn : gostring → gostring → Interface :=
  ListColumn (λ z, VPrim (PInt k z)) (GInt k) int_AppendRow int_Append int_Encode int_Decode.
End int_column.

(** The eight generated columns. *)
Definition Int8 (name : gostring) : Interface := IntColumn KInt8 name (str "Int8").
Definition Int16 (name : gostring) : Interface := IntColumn KInt16 name (str "Int16").
Definition Int32 (name : gostring) : Interface := IntColumn KInt32 name (str "Int32").
Definition Int64 (name : gostring) : Interface := IntColumn KInt64 name (str "Int64").
Definition UInt8 (name : gostring) : Interface := IntColumn KUint8 name (str "UInt8").
Definition UInt16 (name : gostring) : Interface := IntColumn KUint16 name (str "UInt16").
Definition UInt32 (name : gostring) : Interface := IntColumn KUint32 name (str "UInt32").
Definition UInt64 (name : gostring) : Interface := IntColumn KUint64 name (str "UInt64").

(** ** Floating-point numbers

    A number is its bits.  [to_float] converts a number of another type. *)

Section float_column.
Variable to_float : nat → prim → Z.
(** The bytes of the type: 4 or 8. *)
Variable w : nat.

Definition float_prim (s : list Z) (p : prim) : option (list Z * option cerr) :=
  match p with
  | PFloat w' b => int_push s (if decide (w' = w) then b else to_float w p)
  | PInt _ _ | PDuration _ => int_push s (to_float w p)
  | PBool _ | PString _ | PStringer _ | PExt _ _ => refuse s
  end.

(** [sql.NullFloat64] gives the number it holds, here as everywhere. *)
Definition float_null (s : list Z) (p : option prim) : option (list Z * option cerr) :=
  match p with None => int_push s 0 | Some q => float_prim s (driver_value q) end.

Fixpoint float_AppendRow (s : list Z) (v : value) {struct v} : option (list Z * option cerr) :=
  match v with
  | VPrim p => float_prim s p
  | VPtr (VPrim (PFloat w' b)) => if decide (w' = w) then int_push s b else refuse s
  | VNilPtr (GFloat w') => if decide (w' = w) then int_push s 0 else refuse s
  | VNil => int_push s 0
  | VNullable _ p | VPtr (VNullable _ p) => float_null s p
  | VNilPtr (GNull _ | GExt (KUUID | KDecimal)) => None
  | VValuer (Some u) | VPtr (VValuer (Some u)) => float_AppendRow s u
  | _ => refuse s
  end.

Definition float_elem (v : value) : Z := match v with VPrim (PFloat _ b) | VPtr (VPrim (PFloat _ b)) => b | _ => 0 end.

(** Only [Float64] has the cases of [sql.NullFloat64]. *)
Fixpoint float_Append (s : list Z) (v : value) {struct v} : option (list Z * result cerr (option (list Z))) :=
  match v with
  | VSlice (GFloat w') l =>
      if decide (w' = w) then Some (s ++ map float_elem l, Ok (Some (map (λ _, 0) l))) else Some (s, Err ColumnConverterError)
  | VSlice (GPtr (GFloat w')) l =>
      if decide (w' = w) then Some (s ++ map float_elem l, Ok (Some (map nil_mark l))) else Some (s, Err ColumnConverterError)
  | VSlice (GNull (GFloat w')) l =>
      if Nat.eqb w 8 && Nat.eqb w' 8 then
        '(s, _) ← append_each float_AppendRow s l; Some (s, Ok (Some (map (λ _, 0) l)))
      else Some (s, Err ColumnConverterError)
  | VSlice (GPtr (GNull (GFloat w'))) l =>
      if Nat.eqb w 8 && Nat.eqb w' 8 then
        '(s, _) ← append_each float_AppendRow s l; Some (s, Ok (Some (map nil_mark l)))
      else Some (s, Err ColumnConverterError)
  | VValuer (Some u) | VPtr (VValuer (Some u)) => float_Append s u
  | VNilPtr (GNull _ | GExt (KUUID | KDecimal)) => None
  | _ => Some (s, Err ColumnConverterError)
  end.

Definition FloatColumn : gostring → gostring → Interface :=
  ListColumn (λ b, VPrim (PFloat w b)) (GFloat w) float_AppendRow float_Append (PutVec w) (RVec w).
End float_column.

Definition Float32 (to_float : nat → prim → Z) (name : gostring) : Interface := FloatColumn to_float 4 name (str "Float32").
Definition Float64 (to_float : nat → prim → Z) (name : gostring) : Interface := FloatColumn to_float 8 name (str "Float64").

(** ** Booleans *)

Definition bool_push (s : list bool) (b : bool) : option (list bool * option cerr) := Some (s ++ [b], None).

Definition bool_null (s : list bool) (t : gotype) (p : option prim) : option (list bool * option cerr) :=
  match p with None => bool_push s false | Some (PBool b) => bool_push s b | Some _ => refuse s end.

Fixpoint bool_AppendRow (s : list bool) (v : value) {struct v} : option (list bool * option cerr) :=
  match v with
  | VPrim (PBool b) | VPtr (VPrim (PBool b)) => bool_push s b
  | VNilPtr GBool | VNil => bool_push s false
  | VNullable t p | VPtr (VNullable t p) => bool_null s t p
  | VNilPtr (GNull _ | GExt (KUUID | KDecimal)) => None
  | VValuer (Some w) | VPtr (VValuer (Some w)) => bool_AppendRow s w
  | _ => refuse s
  end.

Definition bool_elem (v : value) : bool := match v with VPrim (PBool b) | VPtr (VPrim (PBool b)) => b | _ => false end.

(** [Append]: a [[]bool] reports no nulls at all; the elements of a [[]sql.NullBool] are
    given to [Append], not to [AppendRow], which refuses them: the error is dropped. *)
Fixpoint bool_Append (s : list bool) (v : value) {struct v} : option (list bool * result cerr (option (list Z))) :=
  match v with
  | VSlice GBool l => Some (s ++ map bool_elem l, Ok None)
  | VSlice (GPtr GBool) l => Some (s ++ map bool_elem l, Ok (Some (map nil_mark l)))
  | VSlice (GNull GBool) l => Some (s, Ok (Some (map (λ _, 0) l)))
  | VSlice (GPtr (GNull GBool)) l =>
      if forallb (λ x, negb (nil_mark x =? 1)) l then Some (s, Ok (Some (map nil_mark l))) else None
  | VValuer (Some w) | VPtr (VValuer (Some w)) => bool_Append s w
  | VNilPtr (GNull _ | GExt (KUUID | KDecimal)) => None
  | _ => Some (s, Err ColumnConverterError)
  end.

Definition bool_Encode (s : list bool) : gostring := PutVec 1 (map bool_int s).
Definition bool_Decode (rows : nat) (b : gostring) : option (list bool * gostring) :=
  '(l, b) ← RVec 1 rows b; Some (map (λ z, z =? 1) l, b).

Definition BoolColumn (name : gostring) : Interface :=
  ListColumn (λ b, VPrim (PBool b)) GBool bool_AppendRow bool_Append bool_Encode bool_Decode name (str "Bool").

(** ** Strings *)

(** [time.Duration] has a [String] method. *)
Variable duration_string : Z → gostring.

Definition string_push (s : list gostring) (x : gostring) : option (list gostring * option cerr) := Some (s ++ [x], None).

(** A [[]byte]. *)
Definition bytes_of (l : list value) : gostring := map (λ v, zb (int_elem v)) l.

(** [String] of a nil pointer: a panic, except for [*big.Int]. *)
Definition nil_String (t : gotype) : option (option gostring) :=
  match t with
  | GDuration | GExt (KTime | KUUID | KAddr | KIP | KIPv6 | KDecimal) => None
  | GExt KBig => Some (Some (str "<nil>"))
  | _ => Some None
  end.

(** The text of a value, or of a pointer to one: [Value] comes before [String]. *)
Definition text_of (ptr : bool) (p : prim) : option gostring :=
  match p with
  | PString x | PStringer x => Some x
  | PDuration z => Some (duration_string z)
  | PExt _ m => match Value_method m with
                | Some x => Some x
                | None => if ptr then PtrString_method m else String_method m end
  | _ => None
  end.

Definition string_prim (ptr : bool) (s : list gostring) (p : prim) : option (list gostring * option cerr) :=
  match text_of ptr p with Some x => string_push s x | None => refuse s end.

Fixpoint string_AppendRow (s : list gostring) (v : value) {struct v} : option (list gostring * option cerr) :=
  match v with
  | VPrim p => string_prim false s p
  | VPtr (VPrim p) => string_prim true s p
  | VNilPtr GString | VNil => string_push s []
  | VNullable _ (Some p) | VPtr (VNullable _ (Some p)) => string_prim false s (driver_value p)
  | VNullable _ None | VPtr (VNullable _ None) => string_push s []
  | VSlice (GInt KUint8) l | VPtr (VSlice (GInt KUint8) l) => string_push s (bytes_of l)
  | VNilPtr (GSlice (GInt KUint8) | GNull _) => None
  | VNilPtr t => x ← nil_String t; match x with Some x => string_push s x | None => refuse s end
  | VValuer (Some w) | VPtr (VValuer (Some w)) => string_AppendRow s w
  | _ => refuse s
  end.

Definition string_elem (v : value) : gostring :=
  match v with
  | VPrim (PString x) | VPtr (VPrim (PString x)) => x
  | VSlice (GInt KUint8) l => bytes_of l
  | _ => []
  end.

(** [string(b)] of a byte: its UTF-8 encoding as a code point. *)
Definition rune_string (z : Z) : gostring := if z <? 128 then [zb z] else [zb (192 + z / 64); zb (128 + z mod 64)].

Fixpoint string_Append (s : list gostring) (v : value) {struct v} : option (list gostring * result cerr (option (list Z))) :=
  match v with
  | VSlice GString l | VSlice (GSlice (GInt KUint8)) l => Some (s ++ map string_elem l, Ok (Some (map (λ _, 0) l)))
  | VSlice (GPtr GString) l => Some (s ++ map string_elem l, Ok (Some (map nil_mark l)))
  | VSlice (GNull GString) l =>
      '(s, _) ← append_each string_AppendRow s l; Some (s, Ok (Some (map (λ _, 0) l)))
  | VSlice (GPtr (GNull GString)) l =>
      '(s, _) ← append_each string_AppendRow s l; Some (s, Ok (Some (map nil_mark l)))
  | VSlice (GInt KUint8) l => Some (s ++ map (λ x, rune_string (int_elem x)) l, Ok (Some (map (λ _, 0) l)))
  | VSlice (GPtr (GInt KUint8)) l =>
      if forallb (λ x, negb (nil_mark x =? 1)) l
      then Some (s ++ map (λ x, rune_string (int_elem x)) l, Ok (Some (map (λ _, 0) l))) else None
  | VValuer (Some w) | VPtr (VValuer (Some w)) => string_Append s w
  | VNilPtr (GNull _ | GExt (KUUID | KDecimal)) => None
  | _ => Some (s, Err ColumnConverterError)
  end.

Definition string_Encode (s : list gostring) : gostring := concat (map PutString s).

Fixpoint string_Decode (rows : nat) (b : gostring) : option (list gostring * gostring) :=
  match rows with
  | O => Some ([], b)
  | S rows => '(x, b) ← RStr b; '(l, b) ← string_Decode rows b; Some (x :: l, b)
  end.

Definition StringColumn (name : gostring) : Interface :=
  ListColumn (λ x, VPrim (PString x)) GString string_AppendRow string_Append string_Encode string_Decode name (str "String").

(** ** Fixed strings *)

Record FixedString := MkFixed { Size : nat; Buf : gostring }.

(** [binary.Str2Bytes]. *)
Definition Str2Bytes (x : gostring) (expectedLen : nat) : gostring := x ++ replicate (expectedLen - length x) x00.

Definition safeAppendRow (s : FixedString) (v : gostring) : option (FixedString * option cerr) :=
  let size := if Nat.eqb (Size s) 0 then length v else Size s in
  if (size <? length v)%nat then Some (MkFixed size (Buf s), Some (ColumnError (str "exceeds FixedString capacity")))
  else Some (MkFixed size (Buf s ++ v ++ replicate (size - length v) x00), None).

(** [encoding.BinaryMarshaler], then an array of bytes of the column's size, then text. *)
Definition byte_array (x : ext) : option gostring := match x with XIP _ => None | _ => ext_bytes x end.

Definition fixed_text (ptr : bool) (s : FixedString) (p : prim) : option (FixedString * option cerr) :=
  match text_of ptr p with Some x => safeAppendRow s (Str2Bytes x (Size s)) | None => refuse s end.

Definition fixed_prim (ptr : bool) (s : FixedString) (p : prim) : option (FixedString * option cerr) :=
  match p with
  | PExt x m =>
      match MarshalBinary_method m, (if ptr then None else byte_array x) with
      | Some b, _ => safeAppendRow s b
      | None, Some b => if Nat.eqb (length b) (Size s) then safeAppendRow s b else refuse s
      | None, None => fixed_text ptr s p
      end
  | _ => fixed_text ptr s p
  end.

Fixpoint fixed_AppendRow (s : FixedString) (v : value) {struct v} : option (FixedString * option cerr) :=
  match v with
  | VSlice (GInt KUint8) l => safeAppendRow s (bytes_of l)
  | VPrim p => fixed_prim false s p
  | VPtr (VPrim p) => fixed_prim true s p
  | VNilPtr GString | VNil => safeAppendRow s []
  | VNullable _ (Some p) | VPtr (VNullable _ (Some p)) => fixed_prim false s (driver_value p)
  | VNullable _ None | VPtr (VNullable _ None) => safeAppendRow s []
  | VNilPtr (GNull _) => None
  | VNilPtr t => x ← nil_String t; match x with Some x => safeAppendRow s (Str2Bytes x (Size s)) | None => refuse s end
  | VValuer (Some w) | VPtr (VValuer (Some w)) => fixed_AppendRow s w
  | _ => refuse s
  end.

(** The elements of the slices [Append] takes: a longer [[]byte] is cut, a longer string
    is refused. *)
Definition fixed_elem (s : FixedString) (v : value) : option (FixedString * option cerr) :=
  match v with
  | VPrim (PString x) | VPtr (VPrim (PString x)) =>
      if bool_decide (x = []) then safeAppendRow s [] else safeAppendRow s (Str2Bytes x (Size s))
  | VSlice _ l => let b := bytes_of l in safeAppendRow s (if (Size s <=? length b)%nat then take (Size s) b else b)
  | VPrim (PExt x _) => safeAppendRow s (default [] (ext_bytes x))
  | _ => safeAppendRow s []
  end.

Fixpoint fixed_Append (s : FixedString) (v : value) {struct v} : option (FixedString * result cerr (option (list Z))) :=
  let each l nulls := '(s, e) ← append_each fixed_elem s l;
                      Some (s, match e with None => Ok (Some nulls) | Some e => Err e end) in
  match v with
  | VSlice GString l | VSlice (GSlice (GInt KUint8)) l => each l (map (λ _, 0) l)
  | VSlice (GPtr GString) l => each l (map nil_mark l)
  | VSlice (GExt (KUUID | KBytes16 | KIPv6)) l => each l (map (λ _, 0) l)
  | VPrim (PExt _ m) | VPtr (VPrim (PExt _ m)) =>
      match MarshalBinary_method m with
      | Some b =>
          '(s, e) ← safeAppendRow s b;
          Some (s, match e with None => Ok (Some (replicate (length b / Size s) 0)) | Some e => Err e end)
      | None => Some (s, Err ColumnConverterError)
      end
  | VValuer (Some w) | VPtr (VValuer (Some w)) => fixed_Append s w
  | VNilPtr (GNull _ | GExt (KTime | KUUID | KAddr | KDecimal)) => None
  | _ => Some (s, Err ColumnConverterError)
  end.

Definition fixed_Rows (s : FixedString) : nat := if Nat.eqb (Size s) 0 then 0 else length (Buf s) / Size s.

Definition fixed_Row (s : FixedString) (i : nat) : option value :=
  b ← slice (Buf s) (i * Size s) ((i + 1) * Size s); Some (VPrim (PString b)).

Definition fixed_Decode (s : FixedString) (rows : nat) (b : gostring) : result cerr (FixedString * gostring) :=
  '(l, b) ← rread (RVec 1 (rows * Size s) b); Ok (MkFixed (Size s) (Buf s ++ map zb l), b).

Definition FixedStringColumn (n : nat) (name : gostring) : Interface :=
  MkInterface FixedString (MkFixed n []) name (str "FixedString(" ++ FormatInt (Z.of_nat n) ++ str ")") GString
    fixed_Rows fixed_Row fixed_AppendRow fixed_Append (λ s, MkFixed (Size s) [])
    (λ s, PutVec 1 (map bz (Buf s))) fixed_Decode None.
End leaves.

(** ** The contract *)

Section laws.
Context {W : Wire} {L : WireLaws W}.

(** A successful append adds one element, which does not depend on the elements before. *)
Definition pushes {A} (ap : list A → value → option (list A * option cerr)) : Prop :=
  ∀ s v s', ap s v = Some (s', None) → ∃ x, s' = s ++ [x] ∧ ap [] v = Some ([x], None).

Section list_laws.
Context {A : Type} (val : A → value) (scan : gotype) (ap : list A → value → option (list A * option cerr))
  (aps : list A → value → option (list A * result cerr (option (list Z)))) (enc : list A → gostring)
  (dec : nat → gostring → option (list A * gostring)) (name t : gostring) (ok : A → Prop) (fit : A → Prop).
Hypothesis Hpush : pushes ap.
Hypothesis Hnil : enc [] = [].
Hypothesis Hcodec : ∀ l rest, Forall ok l → Forall fit l → dec (length l) (enc l ++ rest) = Some (l, rest).

(** The element a value becomes. *)
Definition pushed (v : value) : option A := match ap [] v with Some ([x], None) => Some x | _ => None end.

Definition list_accepts (v : value) : Prop := match pushed v with Some x => ok x | None => True end.
Definition list_stored (v : value) : value := match pushed v with Some x => val x | None => VNil end.

Program Definition list_laws : Laws (ListColumn val scan ap aps enc dec name t) := {|
  wf := λ s : list A, Forall ok s;
  fits := λ s : list A, Forall fit s;
  accepts := list_accepts;
  stored := list_stored
|}.
Next Obligation. done. Qed.
Next Obligation. done. Qed.
Next Obligation. intros s i Hw Hi. cbn in *. by destruct (lookup_lt_is_Some_2 _ _ Hi) as [x ->]. Qed.
Next Obligation.
  intros s v s' (x & -> & _)%Hpush. cbn. rewrite length_app. split; [lia|]. by intros [H _]%Forall_app.
Qed.
Next Obligation.
  intros s v s' Hw Ha (x & -> & Hx)%Hpush Hf. cbn in *. unfold list_accepts, list_stored, pushed in *. rewrite Hx in *. rewrite length_app. cbn [length].
  split; [apply Forall_app; split; [done|by apply Forall_singleton]|]. split; [lia|]. split.
  - intros i Hi. by rewrite lookup_app_l.
  - by rewrite lookup_app_r, Nat.sub_diag by lia.
Qed.
Next Obligation. intros s Hw Hr. apply nil_length_inv in Hr as ->. exact Hnil. Qed.
Next Obligation.
  intros s p Hw Hf Hp. injection Hp as <-. exists []. split; [done|]. split; [done|]. split; [done|].
  exists s. split; [|done]. intros rest. cbn. by rewrite Hcodec.
Qed.
End list_laws.

(** ** Integers *)

Variable conv_float : intkind → nat → Z → Z.
Variable duration_string : Z → gostring.

Lemma wrap_mod k z : wrap k (z mod 256 ^ Z.of_nat (width k)) = wrap k z.
Proof.
  unfold wrap. assert (256 ^ Z.of_nat (width k) = 2 ^ (8 * Z.of_nat (width k))) as E by by destruct k.
  destruct (signed k); [|by rewrite Z.mod_mod by (rewrite E; apply Z.pow_nonzero; lia)].
  rewrite E. apply swrap_mod. destruct k; cbn; lia.
Qed.

Lemma int_prim_pushes k p s s' : int_prim conv_float k s p = Some (s', None) →
  ∃ x, s' = s ++ [x] ∧ int_prim conv_float k [] p = Some ([x], None).
Proof.
  unfold int_prim, int_push, refuse. intros H. repeat (case_match; simplify_eq; eauto).
Qed.

Lemma int_pushes k : pushes (int_AppendRow conv_float k).
Proof.
  intros s v s'.
  pose proof (int_prim_pushes k) as Hp.
  assert (∀ z, int_push s z = Some (s', None) → ∃ x, s' = s ++ [x] ∧ int_push [] z = Some ([x], None)) as Hz.
  { unfold int_push. intros z [= <-]. by exists z. }
  revert v. fix IH 1. intros v.
  destruct v as [|p|t [p|]|t|[|[k' z|w b|b|x|z|x|x z]|t [p|]|t|w|t l|k0 v|k0 v l|l|l|fs|[r|]|l]|t l|k0 v|k0 v l|l|l|fs|[r|]|l];
    try (apply (IH r)); clear IH; cbn [int_AppendRow int_null]; try done; try apply Hp; try apply Hz;
    try (case_match; first [apply Hp|apply Hz|done]).
  destruct t; try done; repeat (case_match; try done); apply Hz.
Qed.

#[export] Instance int_laws k name t : Laws (IntColumn conv_float k name t).
Proof.
  refine (list_laws _ _ _ _ _ _ _ _ (in_kind k) (λ _, True) (int_pushes k) _ _).
  - unfold int_Encode. apply PutVec_nil.
  - intros l rest Hl _. unfold int_Decode, int_Encode.
    rewrite <- (length_map (λ z, z mod 256 ^ Z.of_nat (width k)) l), reads_Vec.
    + cbn. do 2 f_equal. rewrite map_map. induction Hl as [|z l Hz Hl IH]; [done|]. cbn. rewrite wrap_mod, IH. by rewrite Hz.
    + destruct k; cbn; lia.
    + apply Forall_map, Forall_forall. intros z _. cbv beta. apply Z.mod_pos_bound. apply Z.pow_pos_nonneg; lia.
Defined.

(** ** Floating-point numbers *)

Section float_laws.
Variable to_float : nat → prim → Z.

Lemma float_pushes w : pushes (float_AppendRow to_float w).
Proof.
  intros s v s'.
  assert (∀ z, int_push s z = Some (s', None) → ∃ x, s' = s ++ [x] ∧ int_push [] z = Some ([x], None)) as Hz.
  { unfold int_push. intros z [= <-]. by exists z. }
  assert (∀ p, float_prim to_float w s p = Some (s', None) → ∃ x, s' = s ++ [x] ∧ float_prim to_float w [] p = Some ([x], None)) as Hp.
  { intros []; cbn [float_prim]; (done || apply Hz). }
  revert v. fix IH 1. intros v.
  destruct v as [|p|t [p|]|t|[|[k' z|w' b|b|x|z|x|x z]|t [p|]|t|u|t l|k0 v|k0 v l|l|l|fs|[r|]|l]|t l|k0 v|k0 v l|l|l|fs|[r|]|l];
    try (apply (IH r)); clear IH; cbn [float_AppendRow float_null]; try done; try apply Hp; try apply Hz;
    try (case_match; first [apply Hp|apply Hz|done]).
  destruct t; try done; case_match; (done || apply Hz).
Qed.

Definition float_laws (w : nat) name t (Hw : (0 < w ≤ 8)%nat) : Laws (FloatColumn to_float w name t).
Proof.
  refine (list_laws _ _ _ _ _ _ _ _ (uint w) (λ _, True) (float_pushes w) (PutVec_nil w) _).
  intros l rest Hl _. by rewrite reads_Vec by (done || lia).
Defined.

#[export] Instance Float32_laws name : Laws (Float32 to_float name).
Proof. apply float_laws. lia. Defined.
#[export] Instance Float64_laws name : Laws (Float64 to_float name).
Proof. apply float_laws. lia. Defined.
End float_laws.

Lemma bool_pushes : pushes bool_AppendRow.
Proof.
  intros s v s'.
  assert (∀ z, bool_push s z = Some (s', None) → ∃ x, s' = s ++ [x] ∧ bool_push [] z = Some ([x], None)) as Hz.
  { unfold bool_push. intros z [= <-]. by exists z. }
  revert v. fix IH 1. intros v.
  destruct v as [|[k' z|w b|b|x|z|x|x z]|t [p|]|t|[|[k' z|w b|b|x|z|x|x z]|t [p|]|t|w|t l|k0 v|k0 v l|l|l|fs|[r|]|l]|t l|k0 v|k0 v l|l|l|fs|[r|]|l];
    try (apply (IH r)); clear IH; cbn [bool_AppendRow bool_null]; try done; try apply Hz.
  - destruct p; (done || apply Hz).
  - destruct t as [| | | | | | | | | |[]]; (done || apply Hz).
  - destruct p; (done || apply Hz).
Qed.

#[export] Instance bool_laws name : Laws (BoolColumn name).
Proof.
  refine (list_laws _ _ _ _ _ _ _ _ (λ _, True) (λ _, True) bool_pushes _ _).
  - unfold bool_Encode. apply PutVec_nil.
  - intros l rest _ _. unfold bool_Decode, bool_Encode. rewrite <- (length_map bool_int l), reads_Vec.
    + cbn. do 2 f_equal. rewrite map_map. induction l as [|[] l IH]; [done|..]; cbn; by rewrite IH.
    + lia.
    + apply Forall_map, Forall_forall. intros [] _; unfold uint; cbn; lia.
Defined.

Lemma string_pushes : pushes (string_AppendRow duration_string).
Proof.
  intros s v s'.
  assert (∀ z, string_push s z = Some (s', None) → ∃ x, s' = s ++ [x] ∧ string_push [] z = Some ([x], None)) as Hz.
  { unfold string_push. intros z [= <-]. by exists z. }
  assert (∀ b p, string_prim duration_string b s p = Some (s', None) →
    ∃ x, s' = s ++ [x] ∧ string_prim duration_string b [] p = Some ([x], None)) as Hp.
  { intros b p. unfold string_prim. case_match; (done || apply Hz). }
  assert (∀ t, (x ← nil_String t; match x with Some x => string_push s x | None => refuse s end) = Some (s', None) →
    ∃ x, s' = s ++ [x] ∧ (x ← nil_String t; match x with Some x => string_push [] x | None => refuse [] end) = Some ([x], None)) as Ht.
  { intros t. destruct (nil_String t) as [[x|]|]; cbn; (done || apply Hz). }
  revert v. fix IH 1. intros v.
  destruct v as [|p|t [p|]|t|[|p|t [p|]|t|w|t l|k0 v|k0 v l|l|l|fs|[r|]|l]|t l|k0 v|k0 v l|l|l|fs|[r|]|l];
    try (apply (IH r)); clear IH; cbn [string_AppendRow]; try done; try apply Hz; try apply Hp.
  - destruct t as [| | | | | | |[[]| | | | | | | | | |]| | |k]; first [done | apply Hz | apply (Ht _)].
  - destruct t as [[]| | | | | | | | | |]; (done || apply Hz).
  - destruct t as [[]| | | | | | | | | |]; (done || apply Hz).
Qed.

#[export] Instance string_laws name : Laws (StringColumn duration_string name).
Proof.
  refine (list_laws _ _ _ _ _ _ _ _ (λ _, True) go_len string_pushes _ _); [done|].
  intros l rest _ Hl. induction Hl as [|x l Hx Hl IH]; [done|]. cbn. unfold string_Encode in *. cbn [map concat].
  rewrite <- app_assoc, reads_Str by done. cbn. by rewrite IH.
Defined.

(** ** Refused values leave these columns alone *)

Definition keeps {A} (ap : list A → value → option (list A * option cerr)) : Prop :=
  ∀ v s s' e, ap s v = Some (s', Some e) → s' = s.

(** Induction along the values that [driver.Valuer]s give. *)
Lemma valuer_induction (P : value → Prop) :
  (∀ v, match v with VValuer (Some r) | VPtr (VValuer (Some r)) => P r | _ => True end → P v) → ∀ v, P v.
Proof.
  intros H. fix IH 1. intros v. apply H.
  destruct v as [| | | |[| | | | | | | | | | |[r|]|]| | | | | | |[r|]|]; done || apply IH.
Qed.

Ltac solve_keeps :=
  intros v; induction v as [v IH] using valuer_induction; intros s s' e H;
  destruct v as [|[]|? [[]|]|[]|[|[]|? [[]|]|[]| | | | | | | |[?|]|]| | | | | | |[?|]|];
  cbn in H; try exact (IH _ _ _ H); clear IH;
  repeat (unfold string_prim, refuse, int_push, bool_push, string_push in H; first [done | injection H; congruence | case_match; simplify_eq; try done]).

Lemma int_keeps k : keeps (int_AppendRow conv_float k).
Proof. solve_keeps. Qed.
Lemma float_keeps to_float w : keeps (float_AppendRow to_float w).
Proof. solve_keeps. Qed.
Lemma bool_keeps : keeps bool_AppendRow.
Proof. solve_keeps. Qed.
Lemma string_keeps : keeps (string_AppendRow duration_string).
Proof. solve_keeps. Qed.

(** ** Fixed strings *)

Lemma safeAppendRow_size s v s' e : safeAppendRow s v = Some (s', e) →
  (Size s = 0%nat ∨ Size s' = Size s) ∧ (length (Buf s) ≤ length (Buf s'))%nat.
Proof.
  unfold safeAppendRow. destruct (Nat.eqb_spec (Size s) 0) as [E|E]; case_match; intros [= <- <-]; cbn;
    rewrite ?length_app; (split; [auto|lia]).
Qed.

(** Every way of appending ends in [safeAppendRow], of bytes that depend on the size
    only, or is refused. *)
Lemma fixed_AppendRow_safe v s s' : fixed_AppendRow duration_string s v = Some (s', None) →
  ∃ f : nat → gostring, ∀ s0, Size s0 = Size s → fixed_AppendRow duration_string s0 v = safeAppendRow s0 (f (Size s0)).
Proof.
  assert (∀ b, ∃ f : nat → gostring, ∀ s0, Size s0 = Size s → safeAppendRow s0 b = safeAppendRow s0 (f (Size s0))) as Hb.
  { intros b. by exists (λ _, b). }
  assert (∀ x, ∃ f : nat → gostring, ∀ s0, Size s0 = Size s →
    safeAppendRow s0 (Str2Bytes x (Size s0)) = safeAppendRow s0 (f (Size s0))) as Hx.
  { intros x. by exists (λ n, Str2Bytes x n). }
  assert (∀ b p, fixed_prim duration_string b s p = Some (s', None) →
    ∃ f : nat → gostring, ∀ s0, Size s0 = Size s → fixed_prim duration_string b s0 p = safeAppendRow s0 (f (Size s0))) as Hp.
  { assert (∀ b p, fixed_text duration_string b s p = Some (s', None) →
      ∃ f : nat → gostring, ∀ s0, Size s0 = Size s → fixed_text duration_string b s0 p = safeAppendRow s0 (f (Size s0))) as Ht.
    { intros b p. unfold fixed_text. case_match; [intros _; apply Hx|done]. }
    intros b p. unfold fixed_prim. destruct p as [| | | | | |x m]; try apply Ht.
    destruct (MarshalBinary_method m) as [d|]; [intros _; apply Hb|].
    destruct (if b then None else byte_array x) as [d|]; [|apply Ht].
    destruct (Nat.eqb (length d) (Size s)) eqn:E; [|done]. intros _. exists (λ _, d). intros s0 Es. by rewrite Es, E. }
  assert (∀ t, (x ← nil_String t; match x with Some x => safeAppendRow s (Str2Bytes x (Size s)) | None => refuse s end) = Some (s', None) →
    ∃ f : nat → gostring, ∀ s0, Size s0 = Size s →
      (x ← nil_String t; match x with Some x => safeAppendRow s0 (Str2Bytes x (Size s0)) | None => refuse s0 end)
      = safeAppendRow s0 (f (Size s0))) as Ht.
  { intros t. destruct (nil_String t) as [[x|]|]; [intros _; apply Hx|done..]. }
  revert v. fix IH 1. intros v.
  destruct v as [|p|t [p|]|t|[|p|t [p|]|t|w|t l|k0 v|k0 v l|l|l|fs|[r|]|l]|t l|k0 v|k0 v l|l|l|fs|[r|]|l];
    try (apply (IH r)); clear IH; cbn [fixed_AppendRow]; try done; try apply Hp; try (intros _; apply Hb).
  - destruct t; first [done | apply (Ht _) | intros _; apply Hb].
  - destruct t as [[]| | | | | | | | | |]; try done; intros _; apply Hb.
Qed.

Section fixed.
Variable n : nat.
Hypothesis Hn : (0 < n)%nat.

Lemma safe_row b : (length b ≤ n)%nat → ∀ buf,
  safeAppendRow (MkFixed n buf) b = Some (MkFixed n (buf ++ b ++ replicate (n - length b) x00), None).
Proof.
  intros Hb buf. unfold safeAppendRow. cbn [Size Buf]. rewrite (proj2 (Nat.eqb_neq n 0)) by lia.
  by rewrite (proj2 (Nat.ltb_ge n (length b))) by lia.
Qed.

Lemma safe_row_inv b s s' : Size s = n → safeAppendRow s b = Some (s', None) → (length b ≤ n)%nat.
Proof.
  intros Hs. unfold safeAppendRow. rewrite Hs. destruct (Nat.eqb_spec n 0); [lia|]. case_match; [done|]. intros _. lia.
Qed.

(** A successful append adds one row of [n] bytes, whatever was there. *)
Lemma fixed_pushes s v s' : Size s = n → fixed_AppendRow duration_string s v = Some (s', None) →
  ∃ b, length b = n ∧ s' = MkFixed n (Buf s ++ b) ∧ fixed_AppendRow duration_string (MkFixed n []) v = Some (MkFixed n b, None).
Proof.
  intros Hs Ha. destruct (fixed_AppendRow_safe _ _ _ Ha) as [f Hf]. rewrite (Hf s eq_refl), Hs in Ha.
  pose proof (safe_row_inv _ _ _ Hs Ha) as Hb. destruct s as [sz buf]. cbn in Hs. subst sz.
  rewrite safe_row in Ha by done. injection Ha as <-.
  exists (f n ++ replicate (n - length (f n)) x00). split; [rewrite length_app, length_replicate; lia|].
  split; [done|]. rewrite (Hf (MkFixed n []) eq_refl). cbn [Size]. by rewrite safe_row.
Qed.

Definition rows_of (s : FixedString) (rows : list gostring) : Prop :=
  Size s = n ∧ Buf s = concat rows ∧ Forall (λ b, length b = n) rows.

Lemma rows_length s rows : rows_of s rows → length (Buf s) = (length rows * n)%nat.
Proof.
  intros (_ & -> & Hr). induction Hr as [|b rows Hb Hr IH]; [done|]. cbn. rewrite length_app, Hb, IH. done.
Qed.

Lemma rows_count s rows : rows_of s rows → fixed_Rows s = length rows.
Proof.
  intros H. pose proof (rows_length _ _ H) as Hl. destruct H as (Hs & _ & _). unfold fixed_Rows. rewrite Hs, Hl.
  destruct (Nat.eqb_spec n 0); [lia|]. by rewrite Nat.div_mul.
Qed.

Lemma rows_lookup s rows i : rows_of s rows → (i < length rows)%nat → fixed_Row s i = (b ← rows !! i; Some (VPrim (PString b))).
Proof.
  intros H Hi. pose proof (rows_length _ _ H) as Hl. destruct H as (Hs & Hb & Hr). unfold fixed_Row. rewrite Hs.
  rewrite slice_Some by nia. replace ((i + 1) * n - i * n)%nat with n by nia.
  destruct (lookup_lt_is_Some_2 _ _ Hi) as [b Hi']. rewrite Hi'. cbn. do 3 f_equal. rewrite Hb. clear s Hs Hb Hl Hi.
  revert i Hi'. induction Hr as [|x rows Hx Hr IH]; intros [|i] Hi'; [done..| |]; cbn in *.
  - injection Hi' as ->. by rewrite drop_0, take_app_length'.
  - rewrite drop_app_ge by lia. replace (n + i * n - length x)%nat with (i * n)%nat by lia. by apply IH.
Qed.

#[export] Program Instance fixed_laws name : Laws (FixedStringColumn duration_string n name) := {|
  wf := λ s : FixedString, ∃ rows, rows_of s rows;
  fits := λ _, True;
  accepts := λ _, True;
  stored := λ v, match fixed_AppendRow duration_string (MkFixed n []) v with Some (s, _) => VPrim (PString (Buf s)) | None => VNil end
|}.
Next Obligation. intros name. split; [by exists []|]. cbn. unfold fixed_Rows. cbn. by destruct n. Qed.
Next Obligation.
  intros name s (rows & Hs & _). split; [exists []; by split|]. cbn. unfold fixed_Rows. cbn. by destruct (Size s).
Qed.
Next Obligation.
  intros name s i (rows & Hr). cbn. rewrite (rows_count _ _ Hr). intros Hi. rewrite (rows_lookup _ _ _ Hr Hi).
  by destruct (lookup_lt_is_Some_2 _ _ Hi) as [b ->].
Qed.
Next Obligation.
  intros name s v s' Ha. split; [|done]. destruct (fixed_AppendRow_safe _ _ _ Ha) as [f Hf]. cbn in Ha. rewrite (Hf s eq_refl) in Ha.
  apply safeAppendRow_size in Ha as [[E|E] Hl]; cbn; unfold fixed_Rows; [rewrite E; cbn; lia|]. rewrite E.
  destruct (Nat.eqb_spec (Size s) 0); [done|]. by apply Nat.Div0.div_le_mono.
Qed.
Next Obligation.
  intros name s v s' (rows & Hr) _ Ha _. destruct (fixed_pushes _ _ _ (proj1 Hr) Ha) as (b & Hb & -> & Hv).
  pose proof Hr as (Hs & HB & HF).
  assert (rows_of (MkFixed n (Buf s ++ b)) (rows ++ [b])) as Hr'.
  { split; [done|]. cbn. rewrite HB, concat_app. cbn. rewrite app_nil_r. split; [done|]. apply Forall_app. by split; [|constructor]. }
  split; [by eexists|]. cbn. rewrite (rows_count _ _ Hr'), (rows_count _ _ Hr), length_app. cbn [length].
  split; [lia|]. split.
  - intros i Hi. rewrite (rows_lookup _ _ i Hr' ltac:(rewrite length_app; lia)), (rows_lookup _ _ _ Hr Hi).
    by rewrite lookup_app_l.
  - rewrite (rows_lookup _ _ (length rows) Hr' ltac:(rewrite length_app; cbn; lia)), list_lookup_middle by done.
    by rewrite Hv.
Qed.
Next Obligation.
  intros name s (rows & Hr) Hz. cbn in Hz |- *. rewrite (rows_count _ _ Hr) in Hz. apply nil_length_inv in Hz as ->.
  destruct Hr as (_ & -> & _). apply PutVec_nil.
Qed.
Next Obligation.
  intros name s p (rows & Hr) _ Hp. injection Hp as <-. exists (MkFixed n []). split; [done|]. split; [by exists []|].
  split; [cbn; unfold fixed_Rows; cbn; by destruct n|]. exists s. split; [|split; [by exists rows|done]].
  intros rest. cbn. unfold fixed_Decode. cbn. rewrite (rows_count _ _ Hr), <- (rows_length _ _ Hr), <- (length_map bz (Buf s)).
  rewrite reads_Vec; [|lia|apply Forall_map, Forall_forall; intros b _; pose proof (bz_range b); unfold uint; cbn; lia].
  cbn. rewrite map_map. destruct Hr as (Hs & _ & _). destruct s as [sz buf]. cbn in *. subst sz. do 3 f_equal.
  rewrite <- (map_id buf) at 2. apply map_ext. intros b. apply zb_bz.
Qed.
End fixed.
End laws.
