(* ===== verification/ColumnCell.v ===== *)
(** * Columns with one fixed-width cell per row

    Dates, times, UUIDs, addresses, wide integers and decimals share a shape: the state is
    a ch-go vector of numbers of [w] bytes, [AppendRow] is a switch over Go types that
    turns a value into such a number, and [Append] does the same for the slices it knows.
    [CellColumn] is that shape over the two switches; the contract of a column is proved
    for it once. *)

From Stdlib Require Import ZifyBool.
From S2P Require Import Prelude GoStd Wire Column ColumnLaws ColumnLeaf.
Local Open Scope Z_scope.

(** How [Append] takes a slice of some type: element by element, up to the first error,
    with or without null marks; with [AppendRow] of each element, whose error is dropped;
    or after all elements have been parsed. *)
Inductive slice_case :=
| Each (elem : value → option (result cerr Z)) (marks : option (value → Z))
| Dropping (marks : value → Z)
| Whole (parse : value → result cerr addr) (put : addr → option Z) (marks : value → Z).

Section cell.
Context {W : Wire}.
(** The bytes of a cell; the switch of [AppendRow] ([None] is a panic); the slices. *)
Variable w : nat.
Variable conv : value → option (result cerr Z).
Variable cases : gotype → option slice_case.

Definition cell_push (s : list Z) (r : result cerr Z) : list Z * option cerr :=
  match r with Ok z => (s ++ [z mod 256 ^ Z.of_nat w], None) | Err e => (s, Some e) end.

Fixpoint cell_AppendRow (s : list Z) (v : value) {struct v} : option (list Z * option cerr) :=
  match v with
  | VValuer (Some u) | VPtr (VValuer (Some u)) => cell_AppendRow s u
  | _ => r ← conv v; Some (cell_push s r)
  end.

(** [col.AppendRow(v[i])] as a statement. *)
Fixpoint append_dropping (s : list Z) (l : list value) : option (list Z) :=
  match l with [] => Some s | v :: l => '(s, _) ← cell_AppendRow s v; append_dropping s l end.

Fixpoint parse_all {A} (f : value → result cerr A) (l : list value) : result cerr (list A) :=
  match l with [] => Ok [] | v :: l => x ← f v; xs ← parse_all f l; Ok (x :: xs) end.

Definition append_slice (s : list Z) (c : slice_case) (l : list value) : option (list Z * result cerr (option (list Z))) :=
  match c with
  | Each elem marks =>
      '(s, e) ← append_each (λ s x, r ← elem x; Some (cell_push s r)) s l;
      Some (s, match e with None => Ok (match marks with Some m => Some (map m l) | None => None end) | Some e => Err e end)
  | Dropping marks => s ← append_dropping s l; Some (s, Ok (Some (map marks l)))
  | Whole parse put marks =>
      match parse_all parse l with
      | Err e => Some (s, Err e)
      | Ok xs => zs ← mapM put xs; Some (s ++ map (λ z, z mod 256 ^ Z.of_nat w) zs, Ok (Some (map marks l)))
      end
  end.

Fixpoint cell_Append (s : list Z) (v : value) {struct v} : option (list Z * result cerr (option (list Z))) :=
  match v with
  | VSlice t l => match cases t with Some c => append_slice s c l | None => Some (s, Err ColumnConverterError) end
  | VValuer (Some u) | VPtr (VValuer (Some u)) => cell_Append s u
  | VNilPtr (GNull _ | GExt (KUUID | KDecimal)) => None
  | _ => Some (s, Err ColumnConverterError)
  end.

Definition CellColumn (val : Z → value) (scan : gotype) : gostring → gostring → Interface :=
  ListColumn val scan cell_AppendRow cell_Append (PutVec w) (RVec w).
End cell.

(** Every element marked present, and the marks of pointers. *)
Definition no_marks (v : value) : Z := 0.

(** [v], appended to the rows of [s], is a row of the column that another column decodes,
    and reads as [x] there. *)
Definition reads_as (C : Interface) (s : state C) (v x : value) : Prop :=
  ∃ s', AppendRow C s v = Some (s', None) ∧ Rows C s' = S (Rows C s)
    ∧ ∀ rest, ∃ s'', Decode C (fresh C) (Rows C s') (Encode C s' ++ rest) = Ok (s'', rest) ∧ Row C s'' (Rows C s) = Some x.

(** ** The contract *)

Section laws.
Context {W : Wire} {L : WireLaws W}.
Variable w : nat.
Hypothesis Hw : (0 < w)%nat.
Variable conv : value → option (result cerr Z).
Variable cases : gotype → option slice_case.

Lemma cell_AppendRow_plain s v : (match v with VValuer (Some _) | VPtr (VValuer (Some _)) => False | _ => True end) →
  cell_AppendRow w conv s v = (r ← conv v; Some (cell_push w s r)).
Proof. by destruct v as [| | | |[| | | | | | | | | | |[]|]| | | | | | |[]|]. Qed.

Lemma cell_pushes : pushes (cell_AppendRow w conv).
Proof.
  intros s v. induction v as [v IH] using valuer_induction. intros s'.
  assert ((r ← conv v; Some (cell_push w s r)) = Some (s', None) →
    ∃ x, s' = s ++ [x] ∧ (r ← conv v; Some (cell_push w [] r)) = Some ([x], None)) as H.
  { destruct (conv v) as [[z|e]|]; cbn; [|done..]. intros [= <-]. by eexists. }
  destruct v as [| | | |[| | | | | | | | | | |[r|]|]| | | | | | |[r|]|]; try exact H; apply IH.
Qed.

Lemma cell_keeps : keeps (cell_AppendRow w conv).
Proof.
  intros v. induction v as [v IH] using valuer_induction. intros s s' e.
  assert ((r ← conv v; Some (cell_push w s r)) = Some (s', Some e) → s' = s) as H.
  { destruct (conv v) as [[z|e']|]; cbn; [done| |done]. by intros [= <- _]. }
  destruct v as [| | | |[| | | | | | | | | | |[r|]|]| | | | | | |[r|]|]; try exact H; apply IH.
Qed.

Definition cell_laws val scan name t : Laws (CellColumn w conv cases val scan name t).
Proof.
  refine (list_laws _ _ _ _ _ _ _ _ (uint w) (λ _, True) cell_pushes (PutVec_nil w) _).
  intros l rest Hl _. by rewrite reads_Vec.
Defined.

(** Every value the column takes fits its cells. *)
Lemma cell_accepts val scan name t v : @accepts _ (cell_laws val scan name t) v.
Proof.
  cbn. unfold list_accepts, pushed.
  destruct (cell_AppendRow w conv [] v) as [[[|x [|]] [e|]]|] eqn:E; try done. revert E.
  induction v as [v IH] using valuer_induction.
  assert ((r ← conv v; Some (cell_push w [] r)) = Some ([x], None) → uint w x) as H.
  { destruct (conv v) as [[z|e]|]; cbn; [|done..]. intros [= <-]. apply Z.mod_pos_bound. apply Z.pow_pos_nonneg; lia. }
  destruct v as [| | | |[| | | | | | | | | | |[r|]|]| | | | | | |[r|]|]; try exact H; apply IH.
Qed.

(** What a row reads as. *)
Lemma cell_stored val scan name t v z :
  (match v with VValuer (Some _) | VPtr (VValuer (Some _)) => False | _ => True end) → conv v = Some (Ok z) →
  @stored _ (cell_laws val scan name t) v = val (z mod 256 ^ Z.of_nat w).
Proof.
  intros Hv Hc. cbn. unfold list_stored, pushed. rewrite cell_AppendRow_plain, Hc by done. done.
Qed.

Lemma cell_reads_as val scan name t s v z : Forall (uint w) s →
  (match v with VValuer (Some _) | VPtr (VValuer (Some _)) => False | _ => True end) → conv v = Some (Ok z) →
  reads_as (CellColumn w conv cases val scan name t) s v (val (z mod 256 ^ Z.of_nat w)).
Proof.
  intros Hs Hv Hc. exists (s ++ [z mod 256 ^ Z.of_nat w]). cbn -[PutVec RVec].
  split; [rewrite cell_AppendRow_plain by done; by rewrite Hc|]. split; [rewrite length_app; cbn; lia|].
  intros rest. exists (s ++ [z mod 256 ^ Z.of_nat w]). split.
  - rewrite reads_Vec; [done|done|]. apply Forall_app. split; [done|]. repeat constructor;
      (apply Z.mod_pos_bound, Z.pow_pos_nonneg; lia).
  - by rewrite lookup_app_r, Nat.sub_diag by lia.
Qed.
End laws.
