(* ===== verification/ColumnTime.v ===== *)
(** * Columns of dates and times
      ([lib/column/date.go], [date32.go], [datetime.go], [datetime64.go], [time.go],
      [time64.go], [time_helper.go], [lib/timezone])

    The cells are ch-go's; the conversions between a [time.Time] and a cell belong to
    ch-go and are the class [ChTime], with what their documentation says of them in
    [ChTimeLaws].  [local] is [time.Local]. *)

From Stdlib Require Import ZifyBool.
From S2P Require Import Prelude GoStd GoTime Strconv Wire ProtoPackets Column ColumnLaws ColumnLeaf ColumnCell.
Local Open Scope Z_scope.
#[local] Set Warnings "-register-all".

(** [ToDate(t)], [ToDateTime(t)], ... and back; a vector of date-times has a location,
    one of [DateTime64] also a precision. *)
Class ChTime := {
  ToDate : gotime → Z;
  Date_Time : Z → gotime;
  ToDate32 : gotime → Z;
  Date32_Time : Z → gotime;
  ToDateTime : gotime → Z;
  DateTime_Row : option location → Z → gotime;
  ToDateTime64 : Z → gotime → Z;
  DateTime64_Row : Z → option location → Z → gotime;
  IntoTime32 : Z → Z;
  Time32_Duration : Z → Z;
  IntoTime64WithPrecision : Z → Z → Z;
  ToDurationWithPrecision : Z → Z → Z
}.

(** [getTimeWithDifferentLocation]. *)
Definition getTimeWithDifferentLocation (t : gotime) (loc : location) : gotime :=
  let '(year, month, day) := time_civil t in
  let '(hour, minute, sec) := time_Clock t in
  time_Date year month day hour minute sec (t_nsec t) loc.

Definition defaultDateFormatNoZone : list chunk := layout_date.
Definition defaultDateFormatWithZone : list chunk := layout_date ++ layout_zone.
Definition defaultDateTimeFormatNoZone : list chunk := layout_datetime.
Definition defaultDateTimeFormatWithZone : list chunk := layout_datetime ++ layout_zone.
Definition defaultDateTime64FormatNoZone : list chunk := layout_datetime ++ [CFrac].
Definition defaultDateTime64FormatWithZone : list chunk := layout_datetime ++ CFrac :: layout_zone.

Definition refused : option (result cerr Z) := Some (Err ColumnConverterError).

Section time_columns.
Context {W : Wire} {T : ChTime}.
Variable local : location.
Variable duration_string : Z → gostring.
Variable time_methods : gotime → methods.

(** With the zone of the text, or else without one, in the location given. *)
Definition parse_time (withZone noZone : list chunk) (loc : location) (value : gostring) : result cerr gotime :=
  match time_Parse local withZone value with
  | Some tv => Ok tv
  | None =>
      match time_Parse local noZone value with
      | Some tv => Ok (getTimeWithDifferentLocation tv loc)
      | None => Err (ColumnError (str "parsing time"))
      end
  end.

(** A date without a zone is one of the column's location, a time one of [time.Local]. *)
Definition parseDate (location : option location) : gostring → result cerr gotime :=
  parse_time defaultDateFormatWithZone defaultDateFormatNoZone (default local location).
Definition DateTime_parseDateTime : gostring → result cerr gotime :=
  parse_time defaultDateTimeFormatWithZone defaultDateTimeFormatNoZone local.
Definition DateTime64_parseDateTime : gostring → result cerr gotime :=
  parse_time defaultDateTime64FormatWithZone defaultDateTime64FormatNoZone local.

(** ** The switches of [AppendRow] *)

Section switch.
(** What becomes of a time; the parser of texts; whether [*string] is a case; what an
    [int64] stands for. *)
Variable put : gotime → Z.
Variable text : gostring → result cerr gotime.
Variable string_pointers : bool.
Variable int_time : option (Z → gotime).

Definition put_time (t : gotime) : option (result cerr Z) := Some (Ok (put t)).
Definition put_text (x : gostring) : option (result cerr Z) := Some (t ← text x; Ok (put t)).

(** What is no time: an [int64], or the text of [Value] or [String]. *)
Definition time_prim (ptr : bool) (p : prim) : option (result cerr Z) :=
  match p, int_time with
  | PExt (XTime t) _, _ => put_time t
  | PInt KInt64 z, Some f => put_time (f z)
  | PString x, _ =>
      if negb ptr then put_text x
      else if string_pointers then if bool_decide (x = []) then put_time zero_time else put_text x
      else refused
  | _, _ => match text_of duration_string ptr p with Some x => put_text x | None => refused end
  end.

Definition time_conv (v : value) : option (result cerr Z) :=
  match v with
  | VPrim p => time_prim false p
  | VPtr (VPrim p) => time_prim true p
  | VNilPtr (GExt KTime) | VNil | VNullable _ None | VPtr (VNullable _ None) => put_time zero_time
  | VNilPtr GString => if string_pointers then put_time zero_time else refused
  | VNilPtr (GInt KInt64) => match int_time with Some _ => put_time zero_time | None => refused end
  | VNullable _ (Some p) | VPtr (VNullable _ (Some p)) => time_prim false (driver_value p)
  | VNilPtr (GNull _) => None
  | VNilPtr t => x ← nil_String t; match x with Some x => put_text x | None => refused end
  | _ => refused
  end.

(** ** The slices of [Append] *)

Definition string_mark (v : value) : Z :=
  match v with VNilPtr _ | VPtr (VPrim (PString [])) => 1 | _ => 0 end.

(** The cases all four columns have; [times_marked] is off where a [[]time.Time] reports
    no null marks. *)
Definition time_cases (times_marked : bool) (t : gotype) : option slice_case :=
  match t with
  | GExt KTime => Some (Each time_conv (if times_marked then Some no_marks else None))
  | GPtr (GExt KTime) => Some (Each time_conv (Some nil_mark))
  | GNull (GExt KTime) => Some (Dropping no_marks)
  | GPtr (GNull (GExt KTime)) => Some (Dropping nil_mark)
  | GString => Some (Each time_conv (Some no_marks))
  | GPtr GString => if string_pointers then Some (Each time_conv (Some string_mark)) else None
  | GInt KInt64 => match int_time with Some _ => Some (Each time_conv (Some no_marks)) | None => None end
  | GPtr (GInt KInt64) => match int_time with Some _ => Some (Each time_conv (Some nil_mark)) | None => None end
  | _ => None
  end.
End switch.

(** [ScanRow]: what is stored behind the destination; [unix] is what an [*int64] gets. *)
Definition time_ScanRow (t : gotime) (unix : option Z) (dest : gotype) (scanner : bool) : option value :=
  let v := VPrim (PExt (XTime t) (time_methods t)) in
  match dest with
  | GExt KTime => Some v
  | GPtr (GExt KTime) => Some (VPtr v)
  | GInt KInt64 => match unix with Some z => Some (VPrim (PInt KInt64 z)) | None => None end
  | GPtr (GInt KInt64) => match unix with Some z => Some (VPtr (VPrim (PInt KInt64 z))) | None => None end
  | GNull (GExt KTime) => Some (VNullable dest (Some (PExt (XTime t) (time_methods t))))
  | _ => if scanner then Some v else None
  end.

(** ** The columns *)

Definition time_value (t : gotime) : value := VPrim (PExt (XTime t) (time_methods t)).

(** Dates: [proto.Date] is a [uint16], [proto.Date32] an [int32]. *)
Definition in_location (location : option location) (t : gotime) : gotime :=
  match location with None | Some UTC => t | Some loc => getTimeWithDifferentLocation t loc end.

Definition Date_row (loc : option location) (z : Z) : gotime := in_location loc (Date_Time z).
Definition Date_AppendRow (loc : option location) : value → option (result cerr Z) :=
  time_conv ToDate (parseDate loc) true None.
Definition Date_Append (loc : option location) : gotype → option slice_case :=
  time_cases ToDate (parseDate loc) true None false.
Definition DateColumn (loc : option location) (name : gostring) : Interface :=
  CellColumn 2 (Date_AppendRow loc) (Date_Append loc) (λ z, time_value (Date_row loc z)) (GExt KTime) name (str "Date").

Definition Date32_row (loc : option location) (z : Z) : gotime := in_location loc (Date32_Time (swrap 32 z)).
Definition Date32_AppendRow (loc : option location) : value → option (result cerr Z) :=
  time_conv ToDate32 (parseDate loc) true None.
Definition Date32_Append (loc : option location) : gotype → option slice_case :=
  time_cases ToDate32 (parseDate loc) true None false.
Definition Date32Column (loc : option location) (name : gostring) : Interface :=
  CellColumn 4 (Date32_AppendRow loc) (Date32_Append loc) (λ z, time_value (Date32_row loc z)) (GExt KTime) name (str "Date32").

(** Date-times: seconds as [uint32]; an [int64] is a number of seconds. *)
Definition DateTime_AppendRow : value → option (result cerr Z) :=
  time_conv ToDateTime DateTime_parseDateTime true (Some (λ z, time_Unix local z 0)).
Definition DateTime_Append : gotype → option slice_case :=
  time_cases ToDateTime DateTime_parseDateTime true (Some (λ z, time_Unix local z 0)) true.
Definition DateTimeColumn (loc : option location) (name t : gostring) : Interface :=
  CellColumn 4 DateTime_AppendRow DateTime_Append (λ z, time_value (DateTime_Row loc z)) (GExt KTime) name t.

(** [DateTime64]: ticks of the precision as [int64]; an [int64] is a number of
    milliseconds; a nil pointer in a [[]*int64] is the start of 1970. *)
Section datetime64.
Variable precision : Z.
Definition DateTime64_AppendRow : value → option (result cerr Z) :=
  time_conv (ToDateTime64 precision) DateTime64_parseDateTime false (Some (time_UnixMilli local)).
Definition DateTime64_Append (t : gotype) : option slice_case :=
  match t with
  | GPtr (GInt KInt64) =>
      Some (Each (λ v, match v with VNilPtr _ => Some (Ok (ToDateTime64 precision (time_UnixMilli local 0))) | _ => DateTime64_AppendRow v end)
                 (Some nil_mark))
  | _ => time_cases (ToDateTime64 precision) DateTime64_parseDateTime false (Some (time_UnixMilli local)) true t
  end.
Definition DateTime64Column (loc : option location) (name t : gostring) : Interface :=
  CellColumn 8 DateTime64_AppendRow DateTime64_Append (λ z, time_value (DateTime64_Row precision loc (swrap 64 z))) (GExt KTime) name t.
End datetime64.

(** ** Times of day: [time.Duration]s, and nothing else, not even [nil] *)

Section durations.
Variable into : Z → Z.
Definition duration_conv (v : value) : option (result cerr Z) :=
  match v with
  | VPrim (PDuration d) | VPtr (VPrim (PDuration d)) => Some (Ok (into d))
  | VNilPtr GDuration => Some (Ok (into 0))
  | VNilPtr (GNull _ | GExt (KUUID | KDecimal)) => None
  | _ => refused
  end.

Definition duration_cases (t : gotype) : option slice_case :=
  match t with
  | GDuration => Some (Each duration_conv (Some no_marks))
  | GPtr GDuration => Some (Each duration_conv (Some nil_mark))
  | _ => None
  end.
End durations.

Definition duration_ScanRow (d : Z) (dest : gotype) (scanner : bool) : option value :=
  match dest with
  | GDuration => Some (VPrim (PDuration d))
  | GPtr GDuration => Some (VPtr (VPrim (PDuration d)))
  | _ => if scanner then Some (VPrim (PDuration d)) else None
  end.

Definition TimeColumn (name : gostring) : Interface :=
  CellColumn 4 (duration_conv IntoTime32) (duration_cases IntoTime32)
    (λ z, VPrim (PDuration (Time32_Duration (swrap 32 z)))) GDuration name (str "Time").

Definition Time64Column (precision : Z) (name t : gostring) : Interface :=
  CellColumn 8 (duration_conv (IntoTime64WithPrecision precision)) (duration_cases (IntoTime64WithPrecision precision))
    (λ z, VPrim (PDuration (ToDurationWithPrecision precision (swrap 64 z)))) GDuration name t.
End time_columns.

(** ** Time zones by name ([lib/timezone]) *)

Section timezone.
(** [time.LoadLocation]. *)
Variable LoadLocation : gostring → option location.

(** [fixedOffsetName]: Fixed/UTC, a sign, hours of any two digits, minutes and seconds. *)
Definition sixty (a b : byte) : bool := in_range "0" "5" a && isDigit b.
Definition fixed_fields (name : gostring) : option (byte * Z * Z * Z) :=
  if bool_decide (take 9 name = str "Fixed/UTC") then
    match drop 9 name with
    | [sg; h1; h2; c1; m1; m2; c2; s1; s2] =>
        if (beq sg "+" || beq sg "-") && isDigit h1 && isDigit h2 && beq c1 ":" && sixty m1 m2 && beq c2 ":" && sixty s1 s2
        then Some (sg, dec_val [h1; h2], dec_val [m1; m2], dec_val [s1; s2]) else None
    | _ => None
    end
  else None.

(** [time.Parse("-07:00:00", ...)] refuses more than 24 hours; an offset of -1 second is
    its mark for a text without an offset. *)
Definition loadLocation (name : gostring) : option location :=
  match fixed_fields name with
  | Some (sg, h, m, s) =>
      if 24 <? h then None
      else let off := (h * 60 + m) * 60 + s in
           let off := if beq sg "-" then - off else off in
           Some (FixedZone name (if off =? -1 then 0 else off))
  | None => LoadLocation name
  end.

(** [Load]: what was found once is kept. *)
Definition cache_entry (c : list (gostring * location)) (name : gostring) : option location :=
  snd <$> List.find (λ nl, bool_decide (nl.1 = name)) c.

Definition Load (c : list (gostring * location)) (name : gostring) : list (gostring * location) * option location :=
  match cache_entry c name with
  | Some tz => (c, Some tz)
  | None => match loadLocation name with Some tz => ((name, tz) :: c, Some tz) | None => (c, None) end
  end.

Fixpoint Load_all (c : list (gostring * location)) (names : list gostring) : list (gostring * location) * list (option location) :=
  match names with
  | [] => (c, [])
  | n :: names => let '(c, r) := Load c n in let '(c, rs) := Load_all c names in (c, r :: rs)
  end.

(** The cache does not show: any sequence of loads gives what loading afresh gives. *)
Lemma Load_transparent names : ∀ c, Forall (λ nl, loadLocation nl.1 = Some nl.2) c →
  (Load_all c names).2 = map loadLocation names ∧ Forall (λ nl, loadLocation nl.1 = Some nl.2) (Load_all c names).1.
Proof.
  induction names as [|n names IH]; intros c Hc; [done|]. cbn [Load_all map]. unfold Load.
  assert (∀ tz, cache_entry c n = Some tz → loadLocation n = Some tz) as Hf.
  { intros tz. unfold cache_entry. destruct (List.find _ c) as [[k l]|] eqn:E; [|done]. cbn. intros [= <-].
    apply find_some in E as [Hin Hk]. apply bool_decide_eq_true in Hk. cbn in Hk. subst k.
    rewrite List.Forall_forall in Hc. exact (Hc _ Hin). }
  destruct (cache_entry c n) as [tz|].
  - rewrite (Hf tz eq_refl). specialize (IH c Hc). destruct (Load_all c names). cbn in *. destruct IH as [-> H]. done.
  - destruct (loadLocation n) as [tz|] eqn:E.
    + specialize (IH ((n, tz) :: c) ltac:(by constructor)). destruct (Load_all _ names). cbn in *. destruct IH as [-> H]. done.
    + specialize (IH c Hc). destruct (Load_all c names). cbn in *. destruct IH as [-> H]. done.
Qed.

Example fixed_zones :
  map (λ n, (λ l, lookup_offset l 0) <$> loadLocation (str n))
    ["Fixed/UTC+05:30:15"%string; "Fixed/UTC-00:00:01"%string; "Fixed/UTC-11:00:00"%string; "Fixed/UTC+25:00:00"%string]
  = [Some 19815; Some 0; Some (-39600); None].
Proof. vm_compute. reflexivity. Qed.
End timezone.

(** ** What ch-go's conversions do *)

Definition day_1900 : Z := -25567.

Class ChTimeLaws (T : ChTime) : Prop := {
  law_ToDate : ∀ t, 0 ≤ wall t / 86400 < 2 ^ 16 → ToDate t = wall t / 86400;
  law_Date_Time : ∀ d, 0 ≤ d < 2 ^ 16 → Date_Time d = time_Unix UTC (d * 86400) 0;
  law_ToDate32 : ∀ t, day_1900 ≤ wall t / 86400 < 2 ^ 31 → 0 ≤ wall t ∨ wall t mod 86400 = 0 → ToDate32 t = wall t / 86400;
  law_Date32_Time : ∀ d, - 2 ^ 31 ≤ d < 2 ^ 31 → Date32_Time d = time_Unix UTC (d * 86400) 0;
  law_ToDateTime : ∀ t, 0 ≤ t_sec t < 2 ^ 32 → ToDateTime t = t_sec t;
  law_DateTime_Row : ∀ loc z, 0 ≤ z < 2 ^ 32 → DateTime_Row (Some loc) z = time_Unix loc z 0;
  law_ToDateTime64 : ∀ p t, 0 ≤ p ≤ 9 → int64 (t_sec t * 10 ^ 9 + t_nsec t) → t_nsec t mod 10 ^ (9 - p) = 0 →
    ToDateTime64 p t = t_sec t * 10 ^ p + t_nsec t / 10 ^ (9 - p);
  law_DateTime64_Row : ∀ p loc z, 0 ≤ p ≤ 9 → int64 (z * 10 ^ (9 - p)) →
    DateTime64_Row p (Some loc) z = time_Unix loc (z / 10 ^ p) (z mod 10 ^ p * 10 ^ (9 - p))
}.

(** Conversions with these laws. *)
#[global] Instance plain_time : ChTime := {
  ToDate t := wall t / 86400;
  Date_Time d := time_Unix UTC (d * 86400) 0;
  ToDate32 t := Z.quot (wall t) 86400;
  Date32_Time d := time_Unix UTC (d * 86400) 0;
  ToDateTime t := t_sec t;
  DateTime_Row loc z := time_Unix (default UTC loc) z 0;
  ToDateTime64 p t := t_sec t * 10 ^ p + t_nsec t / 10 ^ (9 - p);
  DateTime64_Row p loc z := time_Unix (default UTC loc) (z / 10 ^ p) (z mod 10 ^ p * 10 ^ (9 - p));
  IntoTime32 d := d / 10 ^ 9;
  Time32_Duration z := z * 10 ^ 9;
  IntoTime64WithPrecision p d := d / 10 ^ (9 - p);
  ToDurationWithPrecision p z := z * 10 ^ (9 - p)
}.

#[global] Instance plain_time_laws : ChTimeLaws plain_time.
Proof.
  split; try done. intros t _ [H|H]; cbn.
  - by rewrite Z.quot_div_nonneg.
  - apply Z.div_exact in H; [|done]. rewrite H at 1. rewrite Z.mul_comm. by rewrite Z.quot_mul.
Qed.

Section dates.
Context {W : Wire} {L : WireLaws W} {T : ChTime} {TL : ChTimeLaws T}.
Variable local : location.
Variable duration_string : Z → gostring.
Variable time_methods : gotime → methods.
Variable loc : option location.

(** The same clock, moved into a location. *)
Lemma different_location t l : getTimeWithDifferentLocation t l = time_Unix l (instant l (wall t)) (t_nsec t).
Proof.
  unfold getTimeWithDifferentLocation, time_civil, time_Clock.
  pose proof (Z.mod_pos_bound (wall t) 86400 ltac:(lia)) as Hs. pose proof (time_Date_day (wall t / 86400) _ (t_nsec t) l Hs) as H.
  destruct (civil_from_days (wall t / 86400)) as [[y m] d]. rewrite H. do 2 f_equal.
  pose proof (Z.div_mod (wall t) 86400). lia.
Qed.

Lemma day_of_midnight d : d * 86400 / 86400 = d.
Proof. by apply Z.div_mul. Qed.

Lemma FormatDate_day t : FormatDate t = date_text (wall t / 86400).
Proof. done. Qed.

(** A day's midnight shown in the column's location is a time of that day. *)
Lemma row_day d : clock_exists (default local loc) (d * 86400) →
  wall (in_location loc (time_Unix UTC (d * 86400) 0)) / 86400 = d.
Proof.
  intros H. assert (wall (time_Unix UTC (d * 86400) 0) = d * 86400) as E by (unfold wall; cbn; lia).
  destruct loc as [[|n f]|]; cbn [in_location]; [by rewrite E, day_of_midnight| |by rewrite E, day_of_midnight].
  rewrite different_location, E, wall_unix by done. apply day_of_midnight.
Qed.

(** The text of a day is read as a time of that day. *)
Lemma parseDate_day d : four_digit_year d → clock_exists (default local loc) (d * 86400) →
  ∃ t, parseDate local loc (date_text d) = Ok t ∧ wall t = d * 86400.
Proof.
  intros Hy Hc. unfold parseDate, parse_time.
  assert (time_Parse local defaultDateFormatWithZone (date_text d) = None) as ->.
  { unfold time_Parse, defaultDateFormatWithZone. pose proof (parse_date_text d layout_zone [] no_fields Hy) as Hp.
    rewrite app_nil_r in Hp. destruct (civil_from_days d) as [[y m] dd]. by rewrite Hp. }
  unfold defaultDateFormatNoZone. rewrite time_Parse_date by done. eexists. split; [done|].
  rewrite different_location. assert (wall (time_Unix UTC (d * 86400) 0) = d * 86400) as -> by (unfold wall; cbn; lia).
  by rewrite wall_unix.
Qed.

Lemma Date_conv_time t : Date_AppendRow local duration_string loc (time_value time_methods t) = Some (Ok (ToDate t)).
Proof. done. Qed.

(** Both ways of giving a day: a time, or its text. *)
Definition day_value (t : gotime) (v : value) : Prop := v = time_value time_methods t ∨ v = VPrim (PString (FormatDate t)).

(** The day a date column stores. *)
Lemma day_stored (put : gotime → Z) t v :
  (v = time_value time_methods t → put t = wall t / 86400) → (∀ t', wall t' = wall t / 86400 * 86400 → put t' = wall t / 86400) →
  four_digit_year (wall t / 86400) → clock_exists (default local loc) (wall t / 86400 * 86400) → day_value t v →
  time_conv duration_string put (parseDate local loc) true None v = Some (Ok (wall t / 86400)).
Proof.
  intros Hval Hput Hy Hc [->| ->]; cbn [time_value time_conv time_prim negb].
  - unfold put_time. by rewrite Hval.
  - rewrite FormatDate_day. unfold put_text. destruct (parseDate_day _ Hy Hc) as (t' & -> & Hw). cbn.
    by rewrite (Hput t' Hw).
Qed.

Lemma day_shown t z : clock_exists (default local loc) (wall t / 86400 * 86400) → z = time_Unix UTC (wall t / 86400 * 86400) 0 →
  FormatDate (in_location loc z) = FormatDate t.
Proof. intros Hc ->. by rewrite !FormatDate_day, row_day. Qed.

Lemma day_value_plain t v : day_value t v → match v with VValuer (Some _) | VPtr (VValuer (Some _)) => False | _ => True end.
Proof. by intros [->| ->]. Qed.

(** C10: A date does not shift. A time, in whatever zone it is, or the text of a date is
    stored as the day it shows, and the row that is read shows the same day (in the location
    of the column, in UTC when it has none). For [Date] this holds for the days from 1970 to
    2149-06-06, for [Date32] from 1900 to 9999, where a time before 1970 has to be midnight
    of its own clock (ch-go divides towards zero; texts are midnights). The midnight of that
    day has to exist in the location of the column ([time.Local] when it has none), where
    texts are read. *)
Theorem dates_survive name t v s s32 :
  Forall (uint 2) s → Forall (uint 4) s32 → four_digit_year (wall t / 86400) →
  clock_exists (default local loc) (wall t / 86400 * 86400) → day_value t v →
  (day_1900 ≤ wall t / 86400 → (v = time_value time_methods t → 0 ≤ wall t ∨ wall t mod 86400 = 0) →
   ∃ t', reads_as (Date32Column local duration_string time_methods loc name) s32 v (time_value time_methods t')
         ∧ FormatDate t' = FormatDate t)
  ∧ (0 ≤ wall t / 86400 < 2 ^ 16 →
     ∃ t', reads_as (DateColumn local duration_string time_methods loc name) s v (time_value time_methods t')
           ∧ FormatDate t' = FormatDate t).
Proof.
  intros Hs Hs32 Hy Hc Hv. pose proof (four_digit_range _ Hy) as Hr. split.
  - intros H1900 Hmid. eexists. split.
    + apply (cell_reads_as 4 ltac:(lia) _ _ (λ z, time_value time_methods (Date32_row loc z)) _ _ _ _ _ (wall t / 86400));
        [done|by eapply day_value_plain|]. apply day_stored; try done.
      * intros E. apply law_ToDate32; [lia|by apply Hmid].
      * intros t' E. rewrite law_ToDate32; rewrite E, ?day_of_midnight; [done|lia|right; by apply Z.mod_mul].
    + unfold Date32_row. apply day_shown; [done|]. rewrite law_Date32_Time; [f_equal; f_equal|];
        change (256 ^ Z.of_nat 4) with (2 ^ 32); rewrite swrap_mod, swrap_small; lia.
  - intros Hd. eexists. split.
    + apply (cell_reads_as 2 ltac:(lia) _ _ (λ z, time_value time_methods (Date_row loc z)) _ _ _ _ _ (wall t / 86400));
        [done|by eapply day_value_plain|]. apply day_stored; try done.
      * intros E. by apply law_ToDate.
      * intros t' E. rewrite law_ToDate; rewrite E, ?day_of_midnight; done.
    + unfold Date_row. apply day_shown; [done|]. rewrite law_Date_Time by (apply Z.mod_pos_bound; lia).
      by rewrite Z.mod_small.
Qed.
End dates.

Section instants.
Context {W : Wire} {L : WireLaws W} {T : ChTime} {TL : ChTimeLaws T}.
Variable local : location.
Variable duration_string : Z → gostring.
Variable time_methods : gotime → methods.

(** The text of a time is read in [time.Local]. *)
Lemma parseDateTime_local l t : four_digit_year (wall t / 86400) → l = [] ∨ l = [CFrac] →
  parse_time local (layout_datetime ++ l ++ layout_zone) (layout_datetime ++ l) local (FormatDateTime t)
  = Ok (time_Unix local (instant local (wall t)) 0).
Proof.
  intros Hy Hl. unfold parse_time.
  assert (time_Parse local (layout_datetime ++ l ++ layout_zone) (FormatDateTime t) = None) as ->.
  { pose proof (time_Parse_datetime local l t Hy Hl) as H. unfold time_Parse in *.
    destruct (parse_chunks (layout_datetime ++ l) (FormatDateTime t) no_fields) as [f|] eqn:E; [|done].
    assert (∀ l1 s f0 f1, parse_chunks l1 s f0 = Some f1 → parse_chunks (l1 ++ layout_zone) s f0 = None) as Hz.
    { clear. assert (∀ l, next_is_frac (l ++ layout_zone) = next_is_frac l) as Hn'.
      { induction l as [|[] l IH]; cbn; congruence. }
      induction l1 as [|c l1 IH]; intros s [y mo d h mi se ns z] f1; cbn [app parse_chunks].
      - case_bool_decide; [|done]. subst s. intros _. reflexivity.
      - destruct c; rewrite ?Hn'; repeat (case_match; try done);
          unfold mbind, option_bind; repeat (case_match; try done); eauto. }
    rewrite app_assoc. by erewrite Hz. }
  rewrite time_Parse_datetime by done. f_equal. rewrite different_location.
  by assert (wall (time_Unix UTC (wall t) 0) = wall t) as -> by (unfold wall; cbn; lia).
Qed.

Lemma ticks_back p t : 0 ≤ p ≤ 9 → time_wf t → t_nsec t mod 10 ^ (9 - p) = 0 →
  let z := t_sec t * 10 ^ p + t_nsec t / 10 ^ (9 - p) in
  z / 10 ^ p = t_sec t ∧ z mod 10 ^ p * 10 ^ (9 - p) = t_nsec t ∧ z * 10 ^ (9 - p) = t_sec t * 10 ^ 9 + t_nsec t.
Proof.
  intros Hp Hw Hm z. unfold time_wf in Hw.
  assert (0 < 10 ^ p) as P1 by (apply Z.pow_pos_nonneg; lia). assert (0 < 10 ^ (9 - p)) as P2 by (apply Z.pow_pos_nonneg; lia).
  assert (10 ^ p * 10 ^ (9 - p) = 10 ^ 9) as P3 by (rewrite <- Z.pow_add_r by lia; f_equal; lia).
  apply Z.div_exact in Hm; [|lia]. set (q := t_nsec t / 10 ^ (9 - p)) in *.
  assert (0 ≤ q < 10 ^ p) as Hq by (change (10 ^ 9) with 1000000000 in P3; nia).
  subst z. rewrite Z.add_comm, Z.div_add, Z_mod_plus_full, (Z.div_small q), (Z.mod_small q) by lia.
  split; [lia|]. split; [lia|]. rewrite <- P3. lia.
Qed.

(** A value that is stored as the ticks of [t] is read as [t]. *)
Lemma ticks_survive loc name ty64 t v p s64 :
  Forall (uint 8) s64 → time_wf t → 0 ≤ p ≤ 9 → int64 (t_sec t * 10 ^ 9 + t_nsec t) → t_nsec t mod 10 ^ (9 - p) = 0 →
  match v with VValuer (Some _) | VPtr (VValuer (Some _)) => False | _ => True end →
  DateTime64_AppendRow local duration_string p v = Some (Ok (t_sec t * 10 ^ p + t_nsec t / 10 ^ (9 - p))) →
  reads_as (DateTime64Column local duration_string time_methods p (Some loc) name ty64) s64 v
    (time_value time_methods (time_Unix loc (t_sec t) (t_nsec t))).
Proof.
  intros Hs64 Hw Hp Hi Hm Hv Ha. destruct (ticks_back p t Hp Hw Hm) as (E1 & E2 & E3).
  set (z := t_sec t * 10 ^ p + t_nsec t / 10 ^ (9 - p)) in *.
  assert (int64 z) as Hz.
  { unfold int64 in *. assert (1 ≤ 10 ^ (9 - p)) by (apply (Z.pow_le_mono_r 10 0); lia). nia. }
  replace (time_Unix loc (t_sec t) (t_nsec t)) with (DateTime64_Row p (Some loc) z)
    by (rewrite law_DateTime64_Row by (done || by rewrite E3); congruence).
  assert (swrap 64 (z mod 256 ^ Z.of_nat 8) = z) as Ez
    by (change (256 ^ Z.of_nat 8) with (2 ^ 64); rewrite swrap_mod, swrap_small by (unfold int64 in Hz; lia); done).
  rewrite <- Ez.
  by apply (cell_reads_as 8 ltac:(lia) _ _ (λ z, time_value time_methods (DateTime64_Row p (Some loc) (swrap 64 z))) _ _ _ _ _ z).
Qed.

(** The Go values that give a time, and those that give it as a number. *)
Definition time_forms (t : gotime) : list value :=
  let v := time_value time_methods t in
  let n := VNullable (GNull (GExt KTime)) (Some (PExt (XTime t) (time_methods t))) in
  [v; VPtr v; n; VPtr n].
Definition int_forms (z : Z) : list value := [VPrim (PInt KInt64 z); VPtr (VPrim (PInt KInt64 z))].

Lemma forms_plain t z v : v ∈ time_forms t ∨ v ∈ int_forms z →
  match v with VValuer (Some _) | VPtr (VValuer (Some _)) => False | _ => True end.
Proof.
  unfold time_forms, int_forms. rewrite !elem_of_cons, elem_of_nil.
  by intros [[->|[->|[->|[->|[]]]]]|[->|[->|[]]]].
Qed.

(** Whatever its form, a time is handed to the conversion of the column. *)
Lemma time_forms_stored put text sp f t v : v ∈ time_forms t → time_conv duration_string put text sp f v = Some (Ok (put t)).
Proof. unfold time_forms. rewrite !elem_of_cons, elem_of_nil. by intros [->|[->|[->|[->|[]]]]]. Qed.

Lemma int_forms_stored put text sp f z v : v ∈ int_forms z → time_conv duration_string put text sp (Some f) v = Some (Ok (put (f z))).
Proof. unfold int_forms. rewrite !elem_of_cons, elem_of_nil. by intros [->|[->|[]]]. Qed.

(** The milliseconds of a time that has no finer digits. *)
Lemma millis_back t : time_wf t → t_nsec t mod 10 ^ 6 = 0 →
  let u := time_UnixMilli local (t_sec t * 1000 + t_nsec t / 10 ^ 6) in t_sec u = t_sec t ∧ t_nsec u = t_nsec t.
Proof. unfold time_wf, time_UnixMilli. change (10 ^ 6) with 1000000. intros Hw Hm. cbn. Z.to_euclidean_division_equations. lia. Qed.

(** C11: An instant does not shift. A time in any zone, appended to a [DateTime] column with
    a location as a time, a sql.NullTime, the int64 of its seconds or a pointer to one of
    these, is read back as the same second, shown in that location, when its seconds are
    from 0 to below 2^32 (1970 to 2106); appended to a [DateTime64] column of precision 0 to
    9, as a time, a sql.NullTime, a pointer, or the int64 of its milliseconds when it has no
    finer digits, as the same instant, exactly, when it has no digits beyond the precision
    and its nanoseconds since 1970 fit an int64. A text without a zone, of a year of four
    digits, is for both columns the instant its clock names in [time.Local], not in the
    column's location, within the same ranges. The conversions of ch-go between times and
    stored numbers are assumed as its documentation has them. *)
Theorem instants_survive loc name ty64 t v p s s64 :
  Forall (uint 4) s → Forall (uint 8) s64 → time_wf t →
  (v ∈ time_forms t ++ int_forms (t_sec t) → 0 ≤ t_sec t < 2 ^ 32 →
   reads_as (DateTimeColumn local duration_string time_methods (Some loc) name (str "DateTime")) s
     v (time_value time_methods (time_Unix loc (t_sec t) 0)))
  ∧ (v ∈ time_forms t ∨ t_nsec t mod 10 ^ 6 = 0 ∧ v ∈ int_forms (t_sec t * 1000 + t_nsec t / 10 ^ 6) →
     0 ≤ p ≤ 9 → int64 (t_sec t * 10 ^ 9 + t_nsec t) → t_nsec t mod 10 ^ (9 - p) = 0 →
     reads_as (DateTime64Column local duration_string time_methods p (Some loc) name ty64) s64
       v (time_value time_methods (time_Unix loc (t_sec t) (t_nsec t))))
  ∧ (four_digit_year (wall t / 86400) → 0 ≤ instant local (wall t) < 2 ^ 32 →
     reads_as (DateTimeColumn local duration_string time_methods (Some loc) name (str "DateTime")) s
       (VPrim (PString (FormatDateTime t))) (time_value time_methods (time_Unix loc (instant local (wall t)) 0)))
  ∧ (four_digit_year (wall t / 86400) → 0 ≤ p ≤ 9 → int64 (instant local (wall t) * 10 ^ 9) →
     reads_as (DateTime64Column local duration_string time_methods p (Some loc) name ty64) s64
       (VPrim (PString (FormatDateTime t))) (time_value time_methods (time_Unix loc (instant local (wall t)) 0))).
Proof.
  intros Hs Hs64 Hw. split; [|split; [|split]].
  - intros Hv Ht. apply elem_of_app in Hv. rewrite <- law_DateTime_Row by done.
    rewrite <- (Z.mod_small (t_sec t) (256 ^ Z.of_nat 4)) by lia.
    apply (cell_reads_as 4 ltac:(lia) _ _ (λ z, time_value time_methods (DateTime_Row (Some loc) z)) _ _ _ _ _ (t_sec t));
      [done|by eapply forms_plain|]. unfold DateTime_AppendRow.
    destruct Hv as [Hv|Hv]; [rewrite (time_forms_stored _ _ _ _ t)|rewrite (int_forms_stored _ _ _ _ (t_sec t))]; try done;
      by rewrite law_ToDateTime.
  - intros Hv Hp Hi Hm. apply ticks_survive; try done; [apply (forms_plain t (t_sec t * 1000 + t_nsec t / 10 ^ 6)); naive_solver|].
    unfold DateTime64_AppendRow. destruct Hv as [Hv|[Hms Hv]].
    + rewrite (time_forms_stored _ _ _ _ t) by done. by rewrite law_ToDateTime64.
    + rewrite (int_forms_stored _ _ _ _ _ _ Hv). destruct (millis_back t Hw Hms) as [E1 E2].
      rewrite law_ToDateTime64; by rewrite ?E1, ?E2.
  - intros Hy Hi. rewrite <- law_DateTime_Row by done. rewrite <- (Z.mod_small (instant local (wall t)) (256 ^ Z.of_nat 4)) by lia.
    apply (cell_reads_as 4 ltac:(lia) _ _ (λ z, time_value time_methods (DateTime_Row (Some loc) z)) _ _ _ _ _ (instant local (wall t))); [done..|].
    unfold DateTime_AppendRow. cbn [time_conv time_prim negb]. unfold put_text, DateTime_parseDateTime.
    pose proof (parseDateTime_local [] t Hy ltac:(by left)) as Hx. rewrite app_nil_r in Hx. cbn [app] in Hx.
    unfold defaultDateTimeFormatWithZone, defaultDateTimeFormatNoZone. rewrite Hx. cbn. by rewrite law_ToDateTime.
  - intros Hy Hp Hi. set (u := time_Unix local (instant local (wall t)) 0).
    assert (t_nsec u mod 10 ^ (9 - p) = 0) as Hm by (apply Z.mod_0_l, Z.pow_nonzero; lia).
    apply (ticks_survive loc name ty64 u); try done; [by unfold u; cbn; rewrite Z.add_0_r|].
    unfold DateTime64_AppendRow. cbn [time_conv time_prim negb]. unfold put_text, DateTime64_parseDateTime.
    pose proof (parseDateTime_local [CFrac] t Hy ltac:(by right)) as Hx.
    unfold defaultDateTime64FormatWithZone, defaultDateTime64FormatNoZone. cbn [app] in Hx. rewrite Hx. cbn [mbind result_bind].
    rewrite law_ToDateTime64; [done|done|by unfold u; cbn; rewrite Z.add_0_r|done].
Qed.
End instants.

(** ** Concrete times, and the edges *)

Section demo.
#[local] Existing Instance leb.
Let ds : Z → gostring := λ _, [].
Let tm : gotime → methods := λ _, MkMethods None None None None.
(** 2024-03-09 22:30 UTC, shown as 2024-03-10 03:30 at five hours east. *)
Let demo_time : gotime := MkTime 1710023400 250000000 (str "E5") 18000.
Let west : location := FixedZone (str "W8") (-28800).

Lemma dates_survive_witness :
  FormatDate demo_time = str "2024-03-10"
  ∧ (∃ t', reads_as (DateColumn UTC ds tm (Some west) (str "d")) [1; 2] (VPrim (PString (FormatDate demo_time))) (time_value tm t')
           ∧ FormatDate t' = FormatDate demo_time)
  ∧ ∃ t', reads_as (Date32Column UTC ds tm (Some west) (str "d")) [] (time_value tm demo_time) (time_value tm t')
          ∧ FormatDate t' = FormatDate demo_time.
Proof.
  split; [reflexivity|]. split.
  - apply (dates_survive UTC ds tm (Some west) (str "d") demo_time (VPrim (PString (FormatDate demo_time))) [1; 2] []).
    + repeat constructor; unfold uint; cbn; lia.
    + constructor.
    + by vm_compute.
    + apply clock_exists_fixed.
    + by right.
    + by vm_compute.
  - apply (dates_survive UTC ds tm (Some west) (str "d") demo_time (time_value tm demo_time) [] []).
    + constructor.
    + constructor.
    + by vm_compute.
    + apply clock_exists_fixed.
    + by left.
    + by vm_compute.
    + intros _. left. by vm_compute.
Defined.

Lemma instants_survive_witness :
  reads_as (DateTimeColumn west ds tm (Some UTC) (str "t") (str "DateTime")) [7]
    (VPtr (time_value tm demo_time)) (time_value tm (time_Unix UTC 1710023400 0))
  ∧ reads_as (DateTime64Column west ds tm 3 (Some west) (str "t") (str "DateTime64(3)")) []
      (VPrim (PInt KInt64 1710023400250)) (time_value tm (time_Unix west 1710023400 250000000))
  ∧ reads_as (DateTimeColumn west ds tm (Some UTC) (str "t") (str "DateTime")) [7]
      (VPrim (PString (str "2024-03-10 03:30:00"))) (time_value tm (time_Unix UTC 1710070200 0)).
Proof.
  pose proof (instants_survive west ds tm UTC (str "t") (str "DateTime64(3)") demo_time (VPtr (time_value tm demo_time)) 3 [7] [])
    as (H1 & _ & H3 & _).
  - repeat constructor; unfold uint; cbn; lia.
  - constructor.
  - unfold time_wf. cbn. lia.
  - pose proof (instants_survive west ds tm west (str "t") (str "DateTime64(3)") demo_time (VPrim (PInt KInt64 1710023400250)) 3 [7] [])
      as (_ & H2 & _).
    + repeat constructor; unfold uint; cbn; lia.
    + constructor.
    + unfold time_wf. cbn. lia.
    + split; [apply H1; [right; left|cbn; lia]|]. split; [|apply H3; by vm_compute].
      apply H2; [right; split; [reflexivity|left]|lia|unfold int64; cbn; lia|reflexivity].
Defined.

(** [Append([]time.Time)] of dates reports no null marks: under [Nullable] the rows are
    not counted. *)
Lemma nullable_dates_vanish :
  let N := NullableColumn (DateColumn UTC ds tm None (str "d")) true (str "d") in
  ∃ s, Append N (fresh N) (VSlice (GExt KTime) [time_value tm demo_time]) = Some (s, Ok None)
       ∧ Rows N s = 0%nat ∧ length (base s) = 1%nat.
Proof. eexists. split; [reflexivity|]. split; reflexivity. Qed.

(** A [Nullable(Time)] column refuses NULL, and keeps the null mark. *)
Lemma nullable_time_refuses_null :
  let N := NullableColumn (TimeColumn (str "t")) true (str "t") in
  ∃ s, AppendRow N (fresh N) VNil = Some (s, Some ColumnConverterError) ∧ nulls s = [1] ∧ length (base s) = 0%nat.
Proof. eexists. split; [reflexivity|]. split; reflexivity. Qed.

(** A nil [*int64] is one time in a slice and another one alone. *)
Lemma datetime64_nil_pointers_differ :
  let C := DateTime64Column UTC ds tm 0 None (str "t") (str "DateTime64(0)") in
  AppendRow C (fresh C) (VNilPtr (GInt KInt64)) = Some ([(-62135596800) mod 2 ^ 64], None)
  ∧ Append C (fresh C) (VSlice (GPtr (GInt KInt64)) [VNilPtr (GInt KInt64)]) = Some ([0], Ok (Some [1])).
Proof. split; reflexivity. Qed.

(** The bounds of the type are handed to [parseDate] and not looked at. *)
Lemma dates_out_of_range_are_parsed :
  is_ok (parseDate UTC None (str "2200-01-01")) = true ∧ is_ok (parseDate UTC None (str "1066-10-14")) = true.
Proof. by vm_compute. Qed.
End demo.
