(* ===== verification/ColumnBig.v ===== *)
(** * Columns of wide integers and decimals ([lib/column/bigint.go], [decimal.go])

    A [big.Int] becomes the two's complement of 16 or 32 bytes, little endian, by filling a
    big-endian buffer with its magnitude, or with that of its complement, and swapping the
    buffer in place; reading goes the other way.  A panic ([FillBytes] of a number that is
    too long) is [None].  The arithmetic of decimals is the library's: the class
    [Decimals], with its documented behaviour in [DecimalLaws]. *)

From Stdlib Require Import ZifyBool.
From S2P Require Import Prelude GoStd Wire Column ColumnLaws ColumnLeaf ColumnCell.
Local Open Scope Z_scope.
#[local] Set Warnings "-register-all".

(** ** Byte order *)

(** [^b] of a byte. *)
Definition bnot (b : byte) : byte := zb (255 - bz b).
Definition flip (not : bool) (b : byte) : byte := if not then bnot b else b.

(** The loop of [endianSwap]: positions [i] and [len(src)-i-1] are exchanged. *)
Fixpoint swap_loop (n i : nat) (not : bool) (src : gostring) : option gostring :=
  match n with
  | O => Some src
  | S n =>
      a ← src !! i; b ← src !! (length src - i - 1)%nat;
      swap_loop n (i + 1) not (<[(length src - i - 1)%nat := flip not a]> (<[i := flip not b]> src))
  end.

Definition endianSwap (src : gostring) (not : bool) : option gostring := swap_loop (length src / 2) 0 not src.

(** [FillBytes]: big endian, [None] when the number is too long. *)
Definition FillBytes (size : nat) (z : Z) : option gostring :=
  if z <? 256 ^ Z.of_nat size then Some (reverse (le_put size z)) else None.

(** [SetBytes]. *)
Definition SetBytes (b : gostring) : Z := le_get (reverse b).

Definition bigIntToRaw (size : nat) (v : Z) : option gostring :=
  if v <? 0 then dest ← FillBytes size (- v - 1); endianSwap dest true
  else dest ← FillBytes size v; endianSwap dest false.

Definition rawToBigInt (v : gostring) (signed : bool) : option Z :=
  v ← endianSwap v false;
  Some (match v with
        | b :: _ => if signed && (128 <=? bz b) then - SetBytes (map bnot v) - 1 else SetBytes v
        | [] => SetBytes v
        end).

(** The words of ch-go's integers: [Low] and [High], and again for 256 bits. *)
Fixpoint le_words (n : nat) (b : gostring) : list Z :=
  match n with O => [] | S n => le_get (take 8 b) :: le_words n (drop 8 b) end.
Definition words_number (ws : list Z) : Z := foldr (λ w z, w + 2 ^ 64 * z) 0 ws.
Fixpoint number_words (n : nat) (z : Z) : list Z :=
  match n with O => [] | S n => z mod 2 ^ 64 :: number_words n (z / 2 ^ 64) end.

(** ** What the loops compute *)

Lemma bnot_bz b : bz (bnot b) = 255 - bz b.
Proof. unfold bnot. pose proof (bz_range b). rewrite bz_zb, Z.mod_small; lia. Qed.

Lemma bnot_bnot b : bnot (bnot b) = b.
Proof. unfold bnot at 1. rewrite bnot_bz. replace (255 - (255 - bz b)) with (bz b) by lia. apply zb_bz. Qed.

(** The outer [k] positions exchanged, the inner ones still to do. *)
Lemma swap_loop_spec not pre mid post : length pre = length post → ∀ n, (n = length mid / 2)%nat →
  swap_loop n (length pre) not (pre ++ mid ++ post)
  = Some (pre ++ map (flip not) (reverse (drop (length mid - n) mid)) ++ take (length mid - 2 * n) (drop n mid)
          ++ map (flip not) (reverse (take n mid)) ++ post).
Proof.
  intros Hl n. revert pre mid post Hl. induction n as [|n IH]; intros pre mid post Hl Hn.
  { cbn [swap_loop]. rewrite !Nat.sub_0_r, drop_all, take_ge by (rewrite length_drop; lia). by rewrite drop_0. }
  destruct mid as [|a mid]; [done|]. destruct mid as [|b mid _] using rev_ind; [done|].
  cbn [length] in Hn. rewrite length_app in Hn. cbn [length] in Hn.
  assert (n = length mid / 2)%nat as Hn'.
  { replace (S (length mid + 1))%nat with (length mid + 1 * 2)%nat in Hn by lia. rewrite Nat.div_add in Hn by lia. lia. }
  cbn [swap_loop]. rewrite !length_app. cbn [length]. rewrite !length_app. cbn [length].
  replace (length pre + (S (length mid + 1) + length post) - length pre - 1)%nat with (length pre + S (length mid))%nat by lia.
  assert ((pre ++ (a :: mid ++ [b]) ++ post) !! length pre = Some a) as -> by by rewrite lookup_app_r, Nat.sub_diag by lia.
  assert ((pre ++ (a :: mid ++ [b]) ++ post) !! (length pre + S (length mid))%nat = Some b) as ->.
  { rewrite lookup_app_r by lia. replace (length pre + S (length mid) - length pre)%nat with (S (length mid)) by lia.
    cbn [app]. rewrite lookup_cons. rewrite <- app_assoc. cbn [app].
    by apply list_lookup_middle. }
  cbn [mbind option_bind].
  assert (<[(length pre + S (length mid))%nat := flip not a]> (<[length pre := flip not b]> (pre ++ (a :: mid ++ [b]) ++ post))
          = (pre ++ [flip not b]) ++ mid ++ ([flip not a] ++ post)) as ->.
  { rewrite (insert_app_r_alt pre _ (length pre)), Nat.sub_diag, insert_app_r_alt by lia.
    replace (length pre + S (length mid) - length pre)%nat with (S (length mid)) by lia.
    rewrite <- !app_assoc. f_equal. change (flip not b :: <[length mid := flip not a]> ((mid ++ [b]) ++ post)
      = flip not b :: mid ++ [flip not a] ++ post). f_equal. rewrite <- app_assoc.
    by rewrite insert_app_r_alt, Nat.sub_diag by lia. }
  replace (length pre + 1)%nat with (length (pre ++ [flip not b])) by (rewrite length_app; cbn; lia).
  rewrite IH; [|rewrite !length_app; cbn; lia|done]. f_equal.
  pose proof (Nat.Div0.mul_div_le (length mid) 2) as Hle. rewrite <- Hn' in Hle.
  replace (S (length mid + 1) - S n)%nat with (S (length mid - n))%nat by lia.
  cbn [drop take]. rewrite drop_app_le, take_app_le by lia. rewrite reverse_app, (reverse_cons (take n mid)). change (reverse [b]) with [b].
  rewrite drop_app_le by lia. rewrite take_app_le by (rewrite length_drop; lia).
  replace (S (length mid + 1) - 2 * S n)%nat with (length mid - 2 * n)%nat by lia.
  rewrite !map_app. cbn [map]. rewrite <- !app_assoc. done.
Qed.

(** An even number of bytes is reversed, and complemented. *)
Lemma endianSwap_even src not : Nat.even (length src) = true → endianSwap src not = Some (map (flip not) (reverse src)).
Proof.
  intros He. apply Nat.even_spec in He as [k Hk]. unfold endianSwap.
  assert (length src / 2 = k)%nat as Hd by (rewrite Hk, Nat.mul_comm; by apply Nat.div_mul). rewrite Hd.
  pose proof (swap_loop_spec not [] src [] eq_refl k ltac:(lia)) as H. cbn [length app] in H. rewrite !app_nil_r in H. rewrite H.
  f_equal. rewrite Hk. replace (2 * k - 2 * k)%nat with 0%nat by lia.
  replace (2 * k - k)%nat with k by lia. rewrite take_0, app_nil_l. rewrite <- map_app, <- reverse_app. by rewrite take_drop.
Qed.

Lemma SetBytes_reverse b : SetBytes (reverse b) = le_get b.
Proof. unfold SetBytes. by rewrite reverse_involutive. Qed.

Lemma le_get_bnot b : le_get (map bnot b) = 256 ^ Z.of_nat (length b) - 1 - le_get b.
Proof.
  induction b as [|c b IH]; [done|]. cbn [map le_get length]. rewrite bnot_bz, IH, Nat2Z.inj_succ, Z.pow_succ_r by lia. lia.
Qed.

Lemma map_flip_false b : map (flip false) b = b.
Proof. induction b; cbn; congruence. Qed.

(** Two's complement. *)
Lemma bigIntToRaw_spec size v : Nat.even size = true → - 256 ^ Z.of_nat size ≤ v < 256 ^ Z.of_nat size →
  bigIntToRaw size v = Some (le_put size v).
Proof.
  intros He Hv. unfold bigIntToRaw, FillBytes.
  assert (∀ z, Nat.even (length (reverse (le_put size z))) = true) as Hl by (intros z; by rewrite length_reverse, length_le_put).
  destruct (Z.ltb_spec v 0) as [Hn|Hn].
  - rewrite (proj2 (Z.ltb_lt (- v - 1) (256 ^ Z.of_nat size))) by lia. cbn [mbind option_bind].
    rewrite endianSwap_even, reverse_involutive by done. f_equal. cbn [flip].
    set (b := map (flip true) (le_put size (- v - 1))). assert (length b = size) as Hb by (unfold b; by rewrite length_map, length_le_put).
    assert (le_get b = v mod 256 ^ Z.of_nat size) as Hg.
    { unfold b. change (map (flip true)) with (map bnot). rewrite le_get_bnot, length_le_put, le_get_put, (Z.mod_small (- v - 1)) by lia.
      replace (256 ^ Z.of_nat size - 1 - (- v - 1)) with (v + 1 * 256 ^ Z.of_nat size) by lia.
      rewrite <- (Z_mod_plus_full v 1), Z.mod_small by lia. done. }
    rewrite <- (le_put_get b), Hb, Hg. apply le_put_mod.
  - rewrite (proj2 (Z.ltb_lt v (256 ^ Z.of_nat size))) by lia. cbn [mbind option_bind].
    by rewrite endianSwap_even, reverse_involutive, map_flip_false.
Qed.

Lemma last_byte_sign b : (0 < length b)%nat →
  ∃ c r, reverse b = c :: r ∧ (128 <=? bz c) = (256 ^ Z.of_nat (length b) / 2 <=? le_get b).
Proof.
  intros Hl. destruct b as [|c b _] using rev_ind; [cbn in Hl; lia|]. exists c, (reverse b). rewrite reverse_app. split; [done|].
  assert (le_get (b ++ [c]) = le_get b + 256 ^ Z.of_nat (length b) * bz c) as ->.
  { clear. induction b as [|x b IH]; cbn [app le_get length]; [change (256 ^ Z.of_nat 0) with 1; lia|].
    rewrite IH, Nat2Z.inj_succ, Z.pow_succ_r by lia. lia. }
  rewrite length_app. cbn [length]. rewrite Nat2Z.inj_add, Z.pow_add_r by lia. change (256 ^ Z.of_nat 1) with (128 * 2).
  rewrite Z.mul_assoc, Z.div_mul by lia. pose proof (le_get_range b). pose proof (bz_range c).
  set (m := 256 ^ Z.of_nat (length b)) in *. destruct (Z.leb_spec 128 (bz c)), (Z.leb_spec (m * 128) (le_get b + m * bz c)); try done; nia.
Qed.

Lemma rawToBigInt_spec b signed : Nat.even (length b) = true → (0 < length b)%nat →
  rawToBigInt b signed = Some (if signed then swrap (8 * Z.of_nat (length b)) (le_get b) else le_get b).
Proof.
  intros He Hl. unfold rawToBigInt. rewrite endianSwap_even, map_flip_false by done. cbn [mbind option_bind].
  destruct (last_byte_sign b Hl) as (c & r & Hr & Hc). rewrite Hr. rewrite <- Hr. f_equal. rewrite Hc. clear c r Hr Hc.
  pose proof (le_get_range b) as Hg.
  assert (256 ^ Z.of_nat (length b) = 2 ^ (8 * Z.of_nat (length b))) as Ep by (rewrite Z.pow_mul_r by lia; done).
  assert (2 ^ (8 * Z.of_nat (length b)) = 2 * 2 ^ (8 * Z.of_nat (length b) - 1)) as Eh.
  { rewrite <- Z.pow_succ_r by lia. f_equal. lia. }
  assert (0 < 2 ^ (8 * Z.of_nat (length b) - 1)) as Hp by (apply Z.pow_pos_nonneg; lia).
  rewrite SetBytes_reverse. destruct signed; cbn [andb]; [|done].
  unfold swrap. set (h := 2 ^ (8 * Z.of_nat (length b) - 1)) in *. rewrite Ep, Eh in *.
  replace (2 * h / 2) with h by (rewrite Z.mul_comm, Z.div_mul; lia).
  destruct (Z.leb_spec h (le_get b)).
  - assert (SetBytes (map bnot (reverse b)) = 2 * h - 1 - le_get b) as ->.
    { unfold SetBytes. rewrite <- fmap_reverse, reverse_involutive. change (bnot <$> b) with (map bnot b). rewrite le_get_bnot. lia. }
    replace (le_get b + h) with (le_get b - h + 1 * (2 * h)) by lia. rewrite Z_mod_plus_full, Z.mod_small by lia. lia.
  - rewrite Z.mod_small by lia. lia.
Qed.

(** The words carry the bytes. *)
Lemma words_number_le n : ∀ b, length b = (8 * n)%nat → words_number (le_words n b) = le_get b.
Proof.
  induction n as [|n IH]; intros b Hb; [by apply nil_length_inv in Hb as ->|].
  cbn [le_words]. unfold words_number. cbn [foldr]. fold (words_number (le_words n (drop 8 b))).
  rewrite IH by (rewrite length_drop; lia). rewrite <- (take_drop 8 b) at 3.
  assert (∀ x y, le_get (x ++ y) = le_get x + 256 ^ Z.of_nat (length x) * le_get y) as ->.
  { clear. intros x y. induction x as [|c x IH]; cbn [app le_get length]; [change (256 ^ Z.of_nat 0) with 1; lia|].
    rewrite IH, Nat2Z.inj_succ, Z.pow_succ_r by lia. lia. }
  rewrite length_take, Nat.min_l by lia. done.
Qed.

Lemma le_put_app m : ∀ k z, le_put (m + k) z = le_put m z ++ le_put k (z / 256 ^ Z.of_nat m).
Proof.
  induction m as [|m IH]; intros k z; [change (256 ^ Z.of_nat 0) with 1; by rewrite Z.div_1_r|].
  cbn [Nat.add le_put app]. rewrite IH, Nat2Z.inj_succ, Z.pow_succ_r, Z.div_div by (apply Z.pow_pos_nonneg || lia; lia). done.
Qed.

Lemma number_words_put n : ∀ z, flat_map (le_put 8) (number_words n z) = le_put (8 * n) z.
Proof.
  induction n as [|n IH]; intros z; [done|]. cbn [number_words flat_map]. rewrite IH.
  change (2 ^ 64) with (256 ^ Z.of_nat 8). rewrite le_put_mod. replace (8 * S n)%nat with (8 + 8 * n)%nat by lia.
  by rewrite le_put_app.
Qed.

(** ** Wide integers *)

Section bigint.
Context {W : Wire}.
Variable size : nat.
Variable sgn : bool.
Variable big_methods : Z → methods.

(** [append]: the bytes, cut into words; [row]: the words, put together. *)
Definition BigInt_append (v : Z) : option Z := dest ← bigIntToRaw size v; Some (words_number (le_words (size / 8) dest)).
Definition BigInt_row (z : Z) : option Z := rawToBigInt (flat_map (le_put 8) (number_words (size / 8) z)) sgn.

Definition big_prim (p : prim) : option (result cerr Z) :=
  match p with PExt (XBig v) _ => z ← BigInt_append v; Some (Ok z) | _ => Some (Err ColumnConverterError) end.

Definition BigInt_AppendRow (v : value) : option (result cerr Z) :=
  match v with
  | VPrim p | VPtr (VPrim p) => big_prim p
  | VNilPtr (GExt KBig) | VNil | VNullable _ None | VPtr (VNullable _ None) => z ← BigInt_append 0; Some (Ok z)
  | VNullable _ (Some p) | VPtr (VNullable _ (Some p)) => big_prim (driver_value p)
  | VNilPtr (GNull _ | GExt (KUUID | KDecimal)) => None
  | _ => Some (Err ColumnConverterError)
  end.

Definition BigInt_Append (t : gotype) : option slice_case :=
  match t with
  | GExt KBig => Some (Each BigInt_AppendRow (Some no_marks))
  | GPtr (GExt KBig) => Some (Each BigInt_AppendRow (Some nil_mark))
  | _ => None
  end.

Definition big_value (z : Z) : value := VPrim (PExt (XBig z) (big_methods z)).

Definition BigInt (name t : gostring) : Interface :=
  CellColumn size BigInt_AppendRow BigInt_Append (λ z, big_value (default 0 (BigInt_row z))) (GExt KBig) name t.
End bigint.

Section bigint_laws.
Context {W : Wire} {L : WireLaws W}.
Variable n : nat.
Hypothesis Hn : (0 < n)%nat.
Abbreviation size := (8 * n)%nat.

Lemma size_even : Nat.even size = true.
Proof. apply Nat.even_spec. exists (4 * n)%nat. lia. Qed.

Lemma size_words : (size / 8 = n)%nat.
Proof. rewrite Nat.mul_comm. by apply Nat.div_mul. Qed.

Lemma BigInt_append_spec v : - 256 ^ Z.of_nat size ≤ v < 256 ^ Z.of_nat size →
  BigInt_append size v = Some (v mod 256 ^ Z.of_nat size).
Proof.
  intros Hv. unfold BigInt_append. rewrite bigIntToRaw_spec by (apply size_even || done). cbn [mbind option_bind].
  by rewrite size_words, words_number_le, le_get_put by apply length_le_put.
Qed.

Lemma BigInt_row_spec sgn v : - 256 ^ Z.of_nat size ≤ v < 256 ^ Z.of_nat size →
  BigInt_row size sgn (v mod 256 ^ Z.of_nat size)
  = Some (if sgn then swrap (8 * Z.of_nat size) v else v mod 256 ^ Z.of_nat size).
Proof.
  intros Hv. unfold BigInt_row. rewrite size_words, number_words_put, le_put_mod, rawToBigInt_spec
    by (rewrite length_le_put; apply size_even || lia).
  rewrite length_le_put, le_get_put. destruct sgn; [|done]. f_equal.
  assert (256 ^ Z.of_nat size = 2 ^ (8 * Z.of_nat size)) as -> by (rewrite Z.pow_mul_r by lia; done).
  apply swrap_mod. lia.
Qed.

(** What every value in two's complement reach becomes. *)
Lemma bigint_reads_as sgn ms name t s v : Forall (uint size) s → - 256 ^ Z.of_nat size ≤ v < 256 ^ Z.of_nat size →
  reads_as (BigInt size sgn ms name t) s (big_value ms v)
    (big_value ms (if sgn then swrap (8 * Z.of_nat size) v else v mod 256 ^ Z.of_nat size)).
Proof.
  intros Hs Hv.
  assert (big_value ms (if sgn then swrap (8 * Z.of_nat size) v else v mod 256 ^ Z.of_nat size)
    = big_value ms (default 0 (BigInt_row size sgn (v mod 256 ^ Z.of_nat size mod 256 ^ Z.of_nat size)))) as ->.
  { rewrite Z.mod_mod, BigInt_row_spec by lia. done. }
  apply (cell_reads_as size ltac:(lia) _ _ (λ z, big_value ms (default 0 (BigInt_row size sgn z))) _ _ _ _ _ (v mod 256 ^ Z.of_nat size)); [done..|].
  cbn [big_value BigInt_AppendRow big_prim]. by rewrite BigInt_append_spec.
Qed.
End bigint_laws.

(** ** Decimals *)

(** A decimal is a coefficient and a power of ten; [NewFromString], [IntPart], [BigInt] and
    the [String] of a value belong to the library. *)
Class Decimals := {
  NewFromString : gostring → option (Z * Z);
  IntPart : Z → Z → Z;
  Decimal_BigInt : Z → Z → Z;
  decimal_methods : Z → Z → methods
}.

(** The integer part, where it fits. *)
Definition integer_part (c e : Z) : Z := if 0 <=? e then c * 10 ^ e else Z.quot c (10 ^ (- e)).

Class DecimalLaws (D : Decimals) : Prop := {
  law_IntPart : ∀ c e, int64 (integer_part c e) → IntPart c e = integer_part c e;
  law_BigInt : ∀ c e, Decimal_BigInt c e = integer_part c e
}.

Section decimal.
Context {W : Wire} {D : Decimals}.
Variable precision scale : Z.

(** The ch-go column the precision asks for. *)
Definition decimal_width : nat :=
  if precision <=? 9 then 4 else if precision <=? 18 then 8 else if precision <=? 38 then 16 else 32.

(** [append]: the coefficient at the column's scale, cut to the width; the exponents are
    [int32]. *)
Definition Decimal_append (c e : Z) : option Z :=
  let e := i32 (e + scale) in
  if precision <=? 18 then Some (IntPart c e mod 256 ^ Z.of_nat decimal_width)
  else BigInt_append decimal_width (Decimal_BigInt c e).

Definition Decimal_row (z : Z) : Z :=
  if precision <=? 18 then swrap (8 * Z.of_nat decimal_width) z
  else default 0 (BigInt_row decimal_width true z).

Definition put_decimal (c e : Z) : option (result cerr Z) := z ← Decimal_append c e; Some (Ok z).
Definition decimal_string (x : gostring) : option (result cerr Z) :=
  match NewFromString x with
  | Some (c, e) => put_decimal c e
  | None => Some (Err (ColumnError (str "could not convert to decimal")))
  end.

Definition decimal_prim (p : prim) : option (result cerr Z) :=
  match p with
  | PExt (XDecimal c e) _ => put_decimal c e
  | PString x => decimal_string x
  | PExt _ m => match Value_method m with Some x => decimal_string x | None => Some (Err ColumnConverterError) end
  | _ => Some (Err ColumnConverterError)
  end.

Definition Decimal_AppendRow (v : value) : option (result cerr Z) :=
  match v with
  | VPrim p | VPtr (VPrim p) => decimal_prim p
  | VNilPtr (GExt KDecimal | GString) | VNil | VNullable _ None | VPtr (VNullable _ None) => put_decimal 0 0
  | VNullable _ (Some p) | VPtr (VNullable _ (Some p)) => decimal_prim (driver_value p)
  | VNilPtr (GNull _ | GExt KUUID) => None
  | _ => Some (Err ColumnConverterError)
  end.

Definition Decimal_Append (t : gotype) : option slice_case :=
  match t with
  | GExt KDecimal | GString => Some (Each Decimal_AppendRow (Some no_marks))
  | GPtr (GExt KDecimal | GString) => Some (Each Decimal_AppendRow (Some nil_mark))
  | _ => None
  end.

(** The exponent of a row is [int32(-scale)]. *)
Definition decimal_value (c e : Z) : value := VPrim (PExt (XDecimal c e) (decimal_methods c e)).

Definition Decimal (name t : gostring) : Interface :=
  CellColumn decimal_width Decimal_AppendRow Decimal_Append (λ z, decimal_value (Decimal_row z) (i32 (- scale))) (GExt KDecimal) name t.

Definition Decimal_ScanRow (c e : Z) (dest : gotype) (scanner : bool) : option value :=
  match dest with
  | GExt KDecimal => Some (decimal_value c e)
  | GPtr (GExt KDecimal) => Some (VPtr (decimal_value c e))
  | _ => if scanner then Some (decimal_value c e) else None
  end.
End decimal.

Section decimal_laws.
Context {W : Wire} {L : WireLaws W} {D : Decimals} {DL : DecimalLaws D}.

(** A number of [precision] digits fits the width, with its sign. *)
Lemma precision_fits precision z : 1 ≤ precision ≤ 76 → - 10 ^ precision < z < 10 ^ precision →
  - 2 ^ (8 * Z.of_nat (decimal_width precision) - 1) ≤ z < 2 ^ (8 * Z.of_nat (decimal_width precision) - 1)
  ∧ (precision ≤ 18 → int64 z).
Proof.
  intros Hp Hz. unfold decimal_width, int64.
  assert (∀ q, precision ≤ q → 10 ^ precision ≤ 10 ^ q) as Hle by (intros q Hq; apply Z.pow_le_mono_r; lia).
  pose proof (Hle 9). pose proof (Hle 18). pose proof (Hle 38). pose proof (Hle 76).
  assert (10 ^ 9 < 2 ^ 31) by done. assert (10 ^ 18 < 2 ^ 63) by done. assert (10 ^ 38 < 2 ^ 127) by done.
  assert (10 ^ 76 < 2 ^ 255) by done.
  change (2 ^ 63) with (2 ^ (64 - 1)) in *.
  destruct (Z.leb_spec precision 9); [change (8 * Z.of_nat 4 - 1) with 31; lia|].
  destruct (Z.leb_spec precision 18); [change (8 * Z.of_nat 8 - 1) with 63 in *; change (64 - 1) with 63 in *; lia|].
  destruct (Z.leb_spec precision 38); [change (8 * Z.of_nat 16 - 1) with 127; lia|].
  change (8 * Z.of_nat 32 - 1) with 255. lia.
Qed.

Lemma decimal_reads_as precision scale name t s c e : Forall (uint (decimal_width precision)) s →
  1 ≤ precision ≤ 76 → 0 ≤ scale ≤ precision → int32 (e + scale) →
  - 10 ^ precision < integer_part c (e + scale) < 10 ^ precision →
  reads_as (Decimal precision scale name t) s (decimal_value c e) (decimal_value (integer_part c (e + scale)) (- scale)).
Proof.
  intros Hs Hp Hsc He Hz. destruct (precision_fits _ _ Hp Hz) as [Hf Hi]. set (z := integer_part c (e + scale)) in *.
  assert (i32 (e + scale) = e + scale) as Ee by (apply swrap_small; unfold int32 in He; lia).
  assert (i32 (- scale) = - scale) as Es by (apply swrap_small; lia).
  set (w := decimal_width precision) in *.
  assert (0 < w)%nat as Hw by (unfold w, decimal_width; repeat case_match; lia).
  assert (256 ^ Z.of_nat w = 2 ^ (8 * Z.of_nat w)) as Ew by (rewrite Z.pow_mul_r by lia; done).
  assert (2 ^ (8 * Z.of_nat w) = 2 * 2 ^ (8 * Z.of_nat w - 1)) as E2 by (rewrite <- Z.pow_succ_r by lia; f_equal; lia).
  assert (0 < 2 ^ (8 * Z.of_nat w - 1)) as Hpos by (apply Z.pow_pos_nonneg; lia).
  assert (∃ r, Decimal_append precision scale c e = Some r ∧ r mod 256 ^ Z.of_nat w = z mod 256 ^ Z.of_nat w
               ∧ Decimal_row precision (z mod 256 ^ Z.of_nat w) = z) as (r & Hr & Hm & Hrow).
  { unfold Decimal_append, Decimal_row. rewrite Ee. fold w. destruct (Z.leb_spec precision 18) as [H18|H18].
    - eexists. split; [done|]. rewrite law_IntPart by (apply Hi; done). fold z. rewrite Z.mod_mod by lia. split; [done|].
      rewrite Ew, swrap_mod by lia. by apply swrap_small; [lia|].
    - rewrite law_BigInt. fold z.
      assert (∃ n, (0 < n)%nat ∧ w = (8 * n)%nat) as (n & Hn & En).
      { unfold w, decimal_width. rewrite (proj2 (Z.leb_gt precision 9)), (proj2 (Z.leb_gt precision 18)) by lia.
        case_match; [exists 2%nat|exists 4%nat]; lia. }
      rewrite En in *. rewrite BigInt_append_spec, BigInt_row_spec by lia. eexists. split; [done|].
      rewrite Z.mod_mod by lia. split; [done|]. cbn [default]. by apply swrap_small; [lia|]. }
  assert (decimal_value z (- scale) = decimal_value (Decimal_row precision (r mod 256 ^ Z.of_nat w)) (i32 (- scale))) as ->.
  { by rewrite Hm, Hrow, Es. }
  apply (cell_reads_as w Hw _ _ (λ z, decimal_value (Decimal_row precision z) (i32 (- scale))) _ _ _ _ _ r); [done..|].
  cbn [decimal_value Decimal_AppendRow decimal_prim]. unfold put_decimal. by rewrite Hr.
Qed.

(** Wide numbers survive.  An integer within the range of [Int128], [UInt128], [Int256]
    or [UInt256] is read back exactly: filling, complementing and swapping the bytes is two's
    complement, and is undone.  A decimal with at most the precision's digits is read
    back at the column's scale, in all four widths: the same number when it has no digits
    beyond the scale, and without these digits otherwise.  Nothing panics. *)
Theorem wide_numbers_survive n ms name t s v precision scale sd c e :
  (0 < n)%nat → Forall (uint (8 * n)) s →
  1 ≤ precision ≤ 76 → 0 ≤ scale ≤ precision → int32 (e + scale) → Forall (uint (decimal_width precision)) sd →
  (- 2 ^ (8 * Z.of_nat (8 * n) - 1) ≤ v < 2 ^ (8 * Z.of_nat (8 * n) - 1) →
   reads_as (BigInt (8 * n) true ms name t) s (big_value ms v) (big_value ms v))
  ∧ (0 ≤ v < 2 ^ (8 * Z.of_nat (8 * n)) → reads_as (BigInt (8 * n) false ms name t) s (big_value ms v) (big_value ms v))
  ∧ (- 10 ^ precision < integer_part c (e + scale) < 10 ^ precision →
     reads_as (Decimal precision scale name t) sd (decimal_value c e) (decimal_value (integer_part c (e + scale)) (- scale))
     ∧ (- scale ≤ e → integer_part c (e + scale) = c * 10 ^ (e + scale))).
Proof.
  intros Hn Hs Hp Hsc He Hsd.
  assert (256 ^ Z.of_nat (8 * n) = 2 ^ (8 * Z.of_nat (8 * n))) as Ew by (rewrite Z.pow_mul_r by lia; done).
  assert (2 ^ (8 * Z.of_nat (8 * n)) = 2 * 2 ^ (8 * Z.of_nat (8 * n) - 1)) as E2 by (rewrite <- Z.pow_succ_r by lia; f_equal; lia).
  assert (0 < 2 ^ (8 * Z.of_nat (8 * n) - 1)) as Hpos by (apply Z.pow_pos_nonneg; lia).
  split; [|split].
  - intros Hv. pose proof (bigint_reads_as n Hn true ms name t s v Hs ltac:(lia)) as H. cbv iota in H.
    by rewrite swrap_small in H by lia.
  - intros Hv. pose proof (bigint_reads_as n Hn false ms name t s v Hs ltac:(lia)) as H. cbv iota in H.
    by rewrite Z.mod_small in H by lia.
  - intros Hz. split; [by apply decimal_reads_as|]. intros Hle. unfold integer_part. by rewrite (proj2 (Z.leb_le 0 (e + scale))) by lia.
Qed.
End decimal_laws.

Section demo.
#[local] Existing Instance leb.
#[export] Instance plain_decimals : Decimals := {
  NewFromString x := (λ z, (z.1, - Z.of_nat z.2)) <$> read_number x;
  IntPart := integer_part;
  Decimal_BigInt := integer_part;
  decimal_methods _ _ := MkMethods None None None None
}.
#[export] Instance plain_decimal_laws : DecimalLaws plain_decimals.
Proof. by split. Qed.
Let bm : Z → methods := λ _, MkMethods None None None None.

Lemma wide_numbers_survive_witness :
  reads_as (BigInt 16 true bm (str "n") (str "Int128")) [5] (big_value bm (- 2 ^ 100)) (big_value bm (- 2 ^ 100))
  ∧ reads_as (BigInt 16 false bm (str "n") (str "Int128")) [5] (big_value bm (2 ^ 127)) (big_value bm (2 ^ 127))
  ∧ reads_as (Decimal 20 4 (str "n") (str "Int128")) [] (decimal_value (-12345) (-2)) (decimal_value (-1234500) (-4)).
Proof.
  assert (Forall (uint (8 * 2)) [5]) as Hs by (repeat constructor; unfold uint; cbn; lia).
  pose proof (wide_numbers_survive 2 bm (str "n") (str "Int128") [5] (- 2 ^ 100) 20 4 [] (-12345) (-2)) as (H1 & _ & H3);
    [lia|exact Hs|lia|lia|unfold int32; lia|constructor|].
  pose proof (wide_numbers_survive 2 bm (str "n") (str "Int128") [5] (2 ^ 127) 20 4 [] (-12345) (-2)) as (_ & H2 & _);
    [lia|exact Hs|lia|lia|unfold int32; lia|constructor|].
  split; [apply H1; by vm_compute|]. split; [apply H2; by vm_compute|]. apply H3. by vm_compute.
Defined.

(** Outside the range the value changes without an error: a negative number in an unsigned
    column, and the number one above the largest of a signed one.  Beyond that it
    panics. *)
Lemma big_integers_wrap :
  BigInt_append 16 (-1) = BigInt_append 16 (2 ^ 128 - 1)
  ∧ (z ← BigInt_append 16 (2 ^ 127); BigInt_row 16 true z) = Some (- 2 ^ 127)
  ∧ BigInt_append 16 (2 ^ 128) = None.
Proof. by vm_compute. Qed.

(** A decimal of more digits than the precision is cut to the width: ten billion in a
    [Decimal(9, 2)]. *)
Lemma decimals_are_cut : Decimal_append 9 2 10000000000 0 = Some 3567587328 ∧ Decimal_row 9 3567587328 = -727379968.
Proof. by vm_compute. Qed.

(** With an odd number of bytes the middle one would not be complemented; the sizes used
    are even. *)
Lemma odd_sizes_are_not_complemented : endianSwap [x00; x00; x00] true = Some [xff; x00; xff].
Proof. reflexivity. Qed.
End demo.
