(* ===== verification/ColumnAddr.v ===== *)
(** * Columns of UUIDs and internet addresses ([lib/column/uuid.go], [ipv4.go], [ipv6.go])

    [netip.ParseAddr] and [net.IP] are the standard library's and written out here; the
    conversions of ch-go ([ToIPv4] panics on what is no IPv4 address) and the parser of
    UUIDs are the class [ChAddr], with their documented behaviour in [ChAddrLaws]. *)

From Stdlib Require Import ZifyBool.
From S2P Require Import Prelude GoStd GoTime ChUrl Strconv Wire Column ColumnLaws ColumnLeaf ColumnCell.
Local Open Scope Z_scope.
#[local] Set Warnings "-register-all".

(** ** [net/netip] *)

(** Big-endian bytes. *)
Definition be_put (n : nat) (z : Z) : gostring := reverse (le_put n z).
Definition be_get (b : gostring) : Z := le_get (reverse b).

(** Four decimal fields without leading zeros. *)
Definition ip4_field (s : gostring) : option Z :=
  if forallb isDigit s && (1 <=? length s)%nat && (length s <=? 3)%nat
     && (negb (bool_decide (head s = Some "0"%byte)) || Nat.eqb (length s) 1) && (dec_val s <=? 255)
  then Some (dec_val s) else None.

Definition ip4_fields (s : gostring) : option gostring :=
  fs ← mapM ip4_field (strings_Split s "."); if Nat.eqb (length fs) 4 then Some (map zb fs) else None.

(** The loop of [parseIPv6]: the bytes so far and where the ellipsis is. *)
Definition ip6_finish (b : gostring) (ellipsis : option nat) : option gostring :=
  match ellipsis with
  | None => if Nat.eqb (length b) 16 then Some b else None
  | Some e => if (length b <? 16)%nat then Some (take e b ++ replicate (16 - length b) x00 ++ drop e b) else None
  end.

Definition hex_val (s : gostring) : Z := foldl (λ a c, 16 * a + default 0 (unhex c)) 0 s.

Fixpoint ip6_loop (fuel : nat) (s b : gostring) (ellipsis : option nat) : option gostring :=
  match fuel with
  | O => None
  | S fuel =>
      if (16 <=? length b)%nat then if bool_decide (s = []) then ip6_finish b ellipsis else None
      else
        let '(group, r) := span ishex s in
        if (4 <? length group)%nat || bool_decide (group = []) then None
        else
          let b' := b ++ be_put 2 (hex_val group) in
          match r with
          | [] => ip6_finish b' ellipsis
          | c :: t =>
              if beq c "." then
                if match ellipsis with None => Nat.eqb (length b) 12 | Some _ => true end && (length b + 4 <=? 16)%nat
                then f ← ip4_fields s; ip6_finish (b ++ f) ellipsis else None
              else if negb (beq c ":") then None
              else match t with
                   | [] => None
                   | c2 :: t2 =>
                       if beq c2 ":" then
                         match ellipsis, t2 with
                         | Some _, _ => None
                         | None, [] => ip6_finish b' (Some (length b'))
                         | None, _ => ip6_loop fuel t2 b' (Some (length b'))
                         end
                       else ip6_loop fuel t b' ellipsis
                   end
          end
  end.

Definition ip6_parse (in_ : gostring) : option addr :=
  let '(s, zone, found) := strings_Cut in_ "%" in
  if found && bool_decide (zone = []) then None
  else
    b ← (if HasPrefix s (str "::") then
           if bool_decide (drop 2 s = []) then Some (replicate 16 x00) else ip6_loop 9 (drop 2 s) [] (Some 0%nat)
         else ip6_loop 9 s [] None);
    Some (Addr6 b zone).

(** [netip.ParseAddr]. *)
Definition netip_ParseAddr (s : gostring) : option addr :=
  match (span (λ c, negb (beq c "." || beq c ":" || beq c "%")) s).2 with
  | [] => None
  | c :: _ =>
      if beq c "." then f ← ip4_fields s; Some (Addr4 (be_get f))
      else if beq c ":" then ip6_parse s
      else None
  end.

(** [Addr.As16]; the bytes of an IPv4 address are mapped. *)
Definition mapped (b : gostring) : gostring := replicate 10 x00 ++ [xff; xff] ++ b.
Definition As16 (a : addr) : gostring :=
  match a with AddrNone => replicate 16 x00 | Addr4 z => mapped (be_put 4 z) | Addr6 b _ => b end.

Example parse_addresses :
  map (λ s, As16 <$> netip_ParseAddr (str s)) ["127.0.0.1"; "127.0.0.01"; "::1"; "1::2:ffff:1.2.3.4%eth"; "1:2:3:4:5:6:7:8:9"; "::%"]%string
  = [Some (mapped [x7f; x00; x00; x01]); None; Some (replicate 15 x00 ++ [x01]);
     Some ([x00; x01] ++ replicate 6 x00 ++ [x00; x02; xff; xff; x01; x02; x03; x04]); None; None].
Proof. vm_compute. reflexivity. Qed.

(** ** The columns *)

Class ChAddr := {
  ToIPv4 : addr → option Z;
  IPv4_ToIP : Z → addr;
  ToIPv6 : addr → gostring;
  uuid_Parse : gostring → option gostring;
  uuid_cell : gostring → Z;
  cell_uuid : Z → gostring;
  ip_methods : gostring → methods;
  uuid_methods : gostring → methods
}.

Section addresses.
Context {W : Wire} {A : ChAddr}.
Variable duration_string : Z → gostring.

Definition conv_err : option (result cerr Z) := Some (Err ColumnConverterError).
Definition put_cell (z : Z) : option (result cerr Z) := Some (Ok z).

(** ** IPv4 *)

Definition strToIPV4 (strIp : gostring) : result cerr addr :=
  match netip_ParseAddr strIp with Some ip => Ok ip | None => Err ColumnConverterError end.

Definition netIPToNetIPAddr (ip : gostring) : addr :=
  if Nat.eqb (length ip) 4 then Addr4 (be_get ip)
  else if Nat.eqb (length ip) 16 then Addr4 (be_get (drop 12 ip))
  else AddrNone.

Definition put_v4 (a : addr) : option (result cerr Z) := z ← ToIPv4 a; put_cell z.
Definition put_v4_text (x : gostring) : option (result cerr Z) :=
  match strToIPV4 x with Ok a => put_v4 a | Err e => Some (Err e) end.

(** An empty [net.IP] is zero when it is given as a value, and only then. *)
Definition ipv4_prim (ptr : bool) (p : prim) : option (result cerr Z) :=
  match p with
  | PString x => put_v4_text x
  | PInt KUint32 z => put_cell z
  | PExt (XAddr a) _ => put_v4 a
  | PExt (XIP b) _ =>
      let ip := default [] b in
      if negb ptr && Nat.eqb (length ip) 0 then put_cell 0 else put_v4 (netIPToNetIPAddr ip)
  | PExt _ m => match Value_method m with Some x => put_v4_text x | None => conv_err end
  | _ => conv_err
  end.

Definition IPv4_AppendRow (v : value) : option (result cerr Z) :=
  match v with
  | VPrim p => ipv4_prim false p
  | VPtr (VPrim p) => ipv4_prim true p
  | VNilPtr (GString | GInt KUint32 | GExt (KAddr | KIP)) | VNil | VNullable _ None | VPtr (VNullable _ None) => put_cell 0
  | VNullable _ (Some p) | VPtr (VNullable _ (Some p)) => ipv4_prim false (driver_value p)
  | VNilPtr (GNull _ | GExt (KUUID | KDecimal)) => None
  | _ => conv_err
  end.

(** The elements of the slices: a [net.IP] is not tested for being empty. *)
Definition ipv4_elem (v : value) : option (result cerr Z) :=
  match v with VPrim (PExt (XIP b) _) => put_v4 (netIPToNetIPAddr (default [] b)) | _ => IPv4_AppendRow v end.

Definition addr_text (parse : gostring → result cerr addr) (v : value) : result cerr addr :=
  match v with VPrim (PString x) | VPtr (VPrim (PString x)) => parse x | _ => Ok AddrNone end.

Definition IPv4_Append (t : gotype) : option slice_case :=
  match t with
  | GString => Some (Whole (addr_text strToIPV4) ToIPv4 no_marks)
  | GPtr GString => Some (Whole (addr_text strToIPV4) ToIPv4 nil_mark)
  | GExt (KAddr | KIP) | GInt KUint32 => Some (Each ipv4_elem (Some no_marks))
  | GPtr (GExt (KAddr | KIP) | GInt KUint32) => Some (Each ipv4_elem (Some nil_mark))
  | _ => None
  end.

Definition ip_value (b : gostring) : value := VPrim (PExt (XIP (Some b)) (ip_methods b)).

(** [row]: four bytes. *)
Definition IPv4_row (z : Z) : gostring :=
  match IPv4_ToIP z with Addr4 z => be_put 4 z | a => drop 12 (As16 a) end.

Definition IPv4Column (name : gostring) : Interface :=
  CellColumn 4 IPv4_AppendRow IPv4_Append (λ z, ip_value (IPv4_row z)) (GExt KIP) name (str "IPv4").

(** [ScanRow], by the type behind the destination; [text] is [String] of the row. *)
Definition IPv4_ScanRow (z : Z) (text : gostring) (dest : gotype) (scanner : bool) : option value :=
  let ip := ip_value (IPv4_row z) in
  let a := VPrim (PExt (XAddr (IPv4_ToIP z)) (ip_methods (IPv4_row z))) in
  let n := VPrim (PInt KUint32 (be_get (IPv4_row z))) in
  match dest with
  | GString => Some (VPrim (PString text))
  | GPtr GString => Some (VPtr (VPrim (PString text)))
  | GExt KIP => Some ip
  | GPtr (GExt KIP) => Some (VPtr ip)
  | GExt KAddr => Some a
  | GPtr (GExt KAddr) => Some (VPtr a)
  | GInt KUint32 => Some n
  | GPtr (GInt KUint32) => Some (VPtr n)
  | _ => if scanner then Some ip else None
  end.

(** ** IPv6 *)

Definition strToIPV6 (strIp : gostring) : result cerr addr :=
  match netip_ParseAddr strIp with Some ip => Ok ip | None => Err ColumnConverterError end.

(** [IPv6ToBytes]: [None] when fewer than sixteen bytes are indexed. *)
Definition IPv6ToBytes (ip : option gostring) : option gostring :=
  match ip with
  | None => Some (replicate 16 x00)
  | Some ip =>
      let ip := if Nat.eqb (length ip) 4 then mapped ip else ip in
      if (16 <=? length ip)%nat then Some (take 16 ip) else None
  end.

Definition put_16 (b : gostring) : option (result cerr Z) := put_cell (le_get b).
Definition put_v6_bytes (ip : option gostring) : option (result cerr Z) := b ← IPv6ToBytes ip; put_16 (ToIPv6 (Addr6 b [])).
Definition put_v6_text (x : gostring) : option (result cerr Z) :=
  match strToIPV6 x with Ok a => put_16 (As16 a) | Err e => Some (Err e) end.
Definition zero16 : gostring := replicate 16 x00.

Definition ipv6_prim (p : prim) : option (result cerr Z) :=
  match p with
  | PString x => put_v6_text x
  | PExt (XAddr a) _ => put_16 (ToIPv6 a)
  | PExt (XIP b) _ => put_v6_bytes b
  | PExt (XBytes16 b | XIPv6 b) _ => put_16 b
  | PExt _ m => match Value_method m with Some x => put_v6_text x | None => conv_err end
  | _ => conv_err
  end.

Definition IPv6_AppendRow (v : value) : option (result cerr Z) :=
  match v with
  | VPrim p | VPtr (VPrim p) => ipv6_prim p
  | VSlice (GInt KUint8) l | VPtr (VSlice (GInt KUint8) l) => put_v6_bytes (Some (bytes_of l))
  | VNilPtr (GString | GSlice (GInt KUint8) | GExt (KAddr | KIP | KBytes16 | KIPv6)) | VNil
  | VNullable _ None | VPtr (VNullable _ None) => put_16 zero16
  | VNullable _ (Some p) | VPtr (VNullable _ (Some p)) => ipv6_prim (driver_value p)
  | VNilPtr (GNull _ | GExt (KUUID | KDecimal)) => None
  | _ => conv_err
  end.

(** [[][16]byte] and [[]proto.IPv6] report no null marks. *)
Definition IPv6_Append (t : gotype) : option slice_case :=
  match t with
  | GString => Some (Whole (addr_text strToIPV6) (λ a, Some (le_get (ToIPv6 a))) no_marks)
  | GPtr GString => Some (Whole (addr_text strToIPV6) (λ a, Some (le_get (ToIPv6 a))) nil_mark)
  | GExt (KBytes16 | KIPv6) => Some (Each IPv6_AppendRow None)
  | GExt (KAddr | KIP) | GSlice (GInt KUint8) => Some (Each IPv6_AppendRow (Some no_marks))
  | GPtr (GExt (KAddr | KIP | KBytes16 | KIPv6) | GSlice (GInt KUint8)) => Some (Each IPv6_AppendRow (Some nil_mark))
  | _ => None
  end.

Definition IPv6Column (name : gostring) : Interface :=
  CellColumn 16 IPv6_AppendRow IPv6_Append (λ z, ip_value (le_put 16 z)) (GExt KIP) name (str "IPv6").

(** ** UUID *)

Definition put_uuid_text (x : gostring) : option (result cerr Z) :=
  match uuid_Parse x with Some b => put_cell (uuid_cell b) | None => Some (Err (ColumnError (str "invalid UUID"))) end.

Definition uuid_prim (ptr : bool) (p : prim) : option (result cerr Z) :=
  match p with
  | PExt (XUUID b) _ => put_cell (uuid_cell b)
  | _ => match text_of duration_string ptr p with Some x => put_uuid_text x | None => conv_err end
  end.

Definition UUID_AppendRow (v : value) : option (result cerr Z) :=
  match v with
  | VPrim p => uuid_prim false p
  | VPtr (VPrim p) => uuid_prim true p
  | VNilPtr (GString | GExt KUUID) | VNil | VNullable _ None | VPtr (VNullable _ None) => put_cell (uuid_cell zero16)
  | VNullable _ (Some p) | VPtr (VNullable _ (Some p)) => uuid_prim false (driver_value p)
  | VNilPtr (GNull _) => None
  | VNilPtr t => x ← nil_String t; match x with Some x => put_uuid_text x | None => conv_err end
  | _ => conv_err
  end.

Definition UUID_Append (t : gotype) : option slice_case :=
  match t with
  | GString | GExt KUUID => Some (Each UUID_AppendRow (Some no_marks))
  | GPtr (GString | GExt KUUID) => Some (Each UUID_AppendRow (Some nil_mark))
  | _ => None
  end.

Definition uuid_value (b : gostring) : value := VPrim (PExt (XUUID b) (uuid_methods b)).

Definition UUIDColumn (name : gostring) : Interface :=
  CellColumn 16 UUID_AppendRow UUID_Append (λ z, uuid_value (cell_uuid z)) (GExt KUUID) name (str "UUID").
End addresses.

(** ** What is documented of ch-go's conversions and of the UUID parser *)

Class ChAddrLaws (A : ChAddr) : Prop := {
  law_ToIPv4 : ∀ z, 0 ≤ z < 2 ^ 32 → ToIPv4 (Addr4 z) = Some z;
  law_ToIPv4_none : ToIPv4 AddrNone = None;
  law_ToIPv4_v6 : ∀ b zone, take 12 b ≠ take 12 (mapped []) → ToIPv4 (Addr6 b zone) = None;
  law_IPv4_ToIP : ∀ z, 0 ≤ z < 2 ^ 32 → IPv4_ToIP z = Addr4 z;
  law_ToIPv6 : ∀ a, ToIPv6 a = As16 a;
  law_uuid : ∀ b, length b = 16%nat → uint 16 (uuid_cell b) ∧ cell_uuid (uuid_cell b) = b
}.

#[global] Instance plain_addr : ChAddr := {
  ToIPv4 a := match a with
              | Addr4 z => Some z
              | Addr6 b _ => if bool_decide (take 12 b = take 12 (mapped [])) then Some (be_get (drop 12 b)) else None
              | AddrNone => None end;
  IPv4_ToIP z := Addr4 z;
  ToIPv6 := As16;
  uuid_Parse x := if Nat.eqb (length x) 16 then Some x else None;
  uuid_cell := le_get;
  cell_uuid := le_put 16;
  ip_methods _ := MkMethods None None None None;
  uuid_methods _ := MkMethods None None None None
}.

#[global] Instance plain_addr_laws : ChAddrLaws plain_addr.
Proof.
  split; try done.
  - intros b zone H. cbn. by rewrite bool_decide_false.
  - intros b Hb. pose proof (le_get_range b) as H. pose proof (le_put_get b) as E. rewrite Hb in *. by split.
Qed.

(** The dotted text of an address. *)
Definition dotted (z : Z) : gostring := strings_Join (map (λ b, FormatUint (bz b)) (be_put 4 z)) (str ".").

Lemma ip4_field_text b : ip4_field (FormatUint (bz b)) = Some (bz b).
Proof.
  pose proof (bz_range b) as Hb.
  pose proof (all_below_spec 256 (λ n, bool_decide (ip4_field (FormatUint n) = Some n)) 0 (bz b)) as H.
  apply (bool_decide_eq_true (ip4_field (FormatUint (bz b)) = Some (bz b))), H; [vm_compute; reflexivity|lia].
Qed.

Lemma digits_no_dot n : "."%byte ∉ FormatUint n.
Proof.
  intros H. pose proof (FormatUint_digits n) as HF. rewrite List.Forall_forall in HF.
  apply list_elem_of_In in H. specialize (HF _ H). by vm_compute in HF.
Qed.

Lemma be_put_get n z : be_get (be_put n z) = z mod 256 ^ Z.of_nat n.
Proof. unfold be_get, be_put. by rewrite reverse_involutive, le_get_put. Qed.

Lemma be_get_put b : be_put (length b) (be_get b) = b.
Proof.
  unfold be_get, be_put. rewrite <- (length_reverse b), le_put_get. apply reverse_involutive.
Qed.

Lemma length_be_put n z : length (be_put n z) = n.
Proof. unfold be_put. by rewrite length_reverse, length_le_put. Qed.

Lemma ParseAddr_dotted z : 0 ≤ z < 2 ^ 32 → netip_ParseAddr (dotted z) = Some (Addr4 z).
Proof.
  intros Hz. unfold netip_ParseAddr, dotted. pose proof (length_be_put 4 z) as Hl.
  pose proof (be_put_get 4 z) as Hg. change (256 ^ Z.of_nat 4) with (2 ^ 32) in Hg. rewrite Z.mod_small in Hg by done.
  set (b := be_put 4 z) in *. destruct b as [|b1 [|b2 [|b3 [|b4 [|]]]]] eqn:Eb; try done.
  set (fs := map (λ b, FormatUint (bz b)) [b1; b2; b3; b4]).
  assert (strings_Join fs (str ".") = FormatUint (bz b1) ++ "."%byte :: strings_Join (map (λ b, FormatUint (bz b)) [b2; b3; b4]) (str ".")) as E by done.
  assert ((span (λ c, negb (beq c "." || beq c ":" || beq c "%")) (strings_Join fs (str "."))).2
    = "."%byte :: strings_Join (map (λ b, FormatUint (bz b)) [b2; b3; b4]) (str ".")) as ->.
  { rewrite E, span_app; [done| |done]. pose proof (FormatUint_digits (bz b1)) as HF. eapply Forall_impl; [exact HF|].
    cbv beta. intros c Hc. destruct (beq_spec c ".") as [->|]; [by vm_compute in Hc|].
    destruct (beq_spec c ":") as [->|]; [by vm_compute in Hc|]. by destruct (beq_spec c "%") as [->|]; [vm_compute in Hc|]. }
  cbn [beq]. change (beq "." ".") with true. cbv iota. unfold ip4_fields. change (str ".") with ["."%byte].
  rewrite strings_Split_Join; [|done|].
  - assert (mapM ip4_field fs = Some (map bz [b1; b2; b3; b4])) as ->.
    { unfold fs. cbn [map mapM]. by rewrite !ip4_field_text. }
    cbn [mbind option_bind length Nat.eqb map]. rewrite !zb_bz. by rewrite Hg.
  - unfold fs. repeat constructor; apply digits_no_dot.
Qed.

Section addr_laws.
Context {W : Wire} {L : WireLaws W} {A : ChAddr} {AL : ChAddrLaws A}.
Variable duration_string : Z → gostring.

(** The ways of giving an IPv4 address. *)
Definition v4_value (z : Z) (v : value) : Prop :=
  ∃ m, v = VPrim (PString (dotted z)) ∨ v = VPrim (PInt KUint32 z) ∨ v = VPrim (PExt (XAddr (Addr4 z)) m)
       ∨ v = VPrim (PExt (XIP (Some (be_put 4 z))) m) ∨ v = VPrim (PExt (XIP (Some (mapped (be_put 4 z)))) m).

Lemma v4_stored z v : 0 ≤ z < 2 ^ 32 → v4_value z v → IPv4_AppendRow v = Some (Ok z).
Proof.
  intros Hz (m & [->|[->|[->|[->| ->]]]]); cbn [IPv4_AppendRow ipv4_prim from_option id negb andb].
  - unfold put_v4_text, strToIPV4. rewrite ParseAddr_dotted by done. unfold put_v4. by rewrite law_ToIPv4.
  - done.
  - unfold put_v4. by rewrite law_ToIPv4.
  - rewrite length_be_put. cbn [Nat.eqb]. unfold netIPToNetIPAddr. rewrite length_be_put, be_put_get. cbn [Nat.eqb].
    change (256 ^ Z.of_nat 4) with (2 ^ 32). unfold put_v4. by rewrite Z.mod_small, law_ToIPv4 by done.
  - assert (length (mapped (be_put 4 z)) = 16%nat) as Hl by (unfold mapped; rewrite !length_app, length_be_put; done).
    rewrite Hl. cbn [Nat.eqb]. unfold netIPToNetIPAddr. rewrite Hl. cbn [Nat.eqb].
    assert (drop 12 (mapped (be_put 4 z)) = be_put 4 z) as -> by done. rewrite be_put_get.
    change (256 ^ Z.of_nat 4) with (2 ^ 32). unfold put_v4. by rewrite Z.mod_small, law_ToIPv4 by done.
Qed.

(** The ways of giving sixteen bytes. *)
Definition v6_value (b : gostring) (v : value) : Prop :=
  ∃ m zone, v = VPrim (PExt (XAddr (Addr6 b zone)) m) ∨ v = VPrim (PExt (XIP (Some b)) m) ∨ v = VPrim (PExt (XBytes16 b) m)
       ∨ v = VPrim (PExt (XIPv6 b) m) ∨ v = VSlice (GInt KUint8) (map byte_value b).

Lemma bytes_of_values b : bytes_of (map byte_value b) = b.
Proof. unfold bytes_of. rewrite map_map. rewrite <- (map_id b) at 2. apply map_ext. intros c. cbn. apply zb_bz. Qed.

Lemma v6_stored b v : length b = 16%nat → v6_value b v → IPv6_AppendRow v = Some (Ok (le_get b)).
Proof.
  intros Hl (m & zone & H).
  assert (put_v6_bytes (Some b) = Some (Ok (le_get b))) as Hb.
  { unfold put_v6_bytes, IPv6ToBytes. rewrite Hl. cbn [Nat.eqb]. change (16 <=? length b)%nat with (16 <=? length b)%nat.
    rewrite Hl. cbn [Nat.leb mbind option_bind]. rewrite law_ToIPv6. cbn [As16]. rewrite take_ge by lia. done. }
  destruct H as [->|[->|[->|[->| ->]]]]; cbn [IPv6_AppendRow ipv6_prim]; try done.
  - unfold put_16. by rewrite law_ToIPv6.
  - by rewrite bytes_of_values.
Qed.

(** Addresses and identifiers survive.  However an IPv4 address is given (dotted text, a
    number, a [netip.Addr], a [net.IP] of four bytes or in mapped form), it is read back as
    its four bytes; sixteen bytes in any of the forms an IPv6 column takes are read back
    as these bytes; a UUID, or a text the UUID parser accepts, is read back as the
    UUID. *)
Theorem addresses_survive name z v4 b v6 u x m s s6 su :
  Forall (uint 4) s → Forall (uint 16) s6 → Forall (uint 16) su →
  0 ≤ z < 2 ^ 32 → v4_value z v4 → length b = 16%nat → v6_value b v6 → length u = 16%nat → uuid_Parse x = Some u →
  reads_as (IPv4Column name) s v4 (ip_value (be_put 4 z))
  ∧ reads_as (IPv6Column name) s6 v6 (ip_value b)
  ∧ reads_as (UUIDColumn duration_string name) su (VPrim (PExt (XUUID u) m)) (uuid_value u)
  ∧ reads_as (UUIDColumn duration_string name) su (VPrim (PString x)) (uuid_value u).
Proof.
  intros Hs H6 Hu Hz H4 Hb Hv6 Hlu Hx.
  assert (∀ v z b', match v with VValuer (Some _) | VPtr (VValuer (Some _)) => False | _ => True end →
    UUID_AppendRow duration_string v = Some (Ok z) → cell_uuid (z mod 256 ^ Z.of_nat 16) = b' →
    reads_as (UUIDColumn duration_string name) su v (uuid_value b')) as HU.
  { intros v z' b' Hv Hc <-.
    by apply (cell_reads_as 16 ltac:(lia) _ _ (λ z, uuid_value (cell_uuid z)) _ _ _ _ _ z'). }
  destruct (law_uuid u Hlu) as [Hr Hcu].
  split; [|split; [|split]].
  - assert (ip_value (be_put 4 z) = ip_value (IPv4_row (z mod 256 ^ Z.of_nat 4))) as ->.
    { unfold IPv4_row. change (256 ^ Z.of_nat 4) with (2 ^ 32). by rewrite Z.mod_small, law_IPv4_ToIP by done. }
    apply (cell_reads_as 4 ltac:(lia) _ _ (λ z, ip_value (IPv4_row z)) _ _ _ _ _ z); [done| |by apply v4_stored].
    by destruct H4 as (? & [->|[->|[->|[->| ->]]]]).
  - assert (ip_value b = ip_value (le_put 16 (le_get b mod 256 ^ Z.of_nat 16))) as ->.
    { rewrite le_put_mod. rewrite <- Hb. by rewrite le_put_get. }
    apply (cell_reads_as 16 ltac:(lia) _ _ (λ z, ip_value (le_put 16 z)) _ _ _ _ _ (le_get b)); [done| |by apply v6_stored].
    by destruct Hv6 as (? & ? & [->|[->|[->|[->| ->]]]]).
  - apply (HU _ (uuid_cell u)); [done..|]. by rewrite Z.mod_small by exact Hr.
  - apply (HU _ (uuid_cell u)); [done| |by rewrite Z.mod_small by exact Hr].
    cbn [UUID_AppendRow uuid_prim text_of]. unfold put_uuid_text. by rewrite Hx.
Qed.

(** The text of an IPv6 address given to an IPv4 column, and a nil pointer in a slice of
    strings, panic. *)
Lemma ipv4_panics :
  IPv4_AppendRow (VPrim (PString (str "::1"))) = None
  ∧ ∀ s, Append (IPv4Column (str "a")) s (VSlice (GPtr GString) [VNilPtr GString]) = None.
Proof.
  split.
  - cbn [IPv4_AppendRow ipv4_prim]. unfold put_v4_text, strToIPV4.
    assert (netip_ParseAddr (str "::1") = Some (Addr6 (replicate 15 x00 ++ [x01]) [])) as -> by by vm_compute.
    unfold put_v4. rewrite law_ToIPv4_v6; [done|]. by vm_compute.
  - intros s. cbn. by rewrite law_ToIPv4_none.
Qed.
End addr_laws.

Section demo.
#[local] Existing Instance leb.

Lemma addresses_survive_witness :
  reads_as (IPv4Column (str "a")) [1] (VPrim (PString (str "192.168.0.7"))) (ip_value [xc0; xa8; x00; x07])
  ∧ reads_as (IPv6Column (str "a")) [] (VSlice (GInt KUint8) (map byte_value (replicate 16 x2a))) (ip_value (replicate 16 x2a))
  ∧ reads_as (UUIDColumn (λ _, []) (str "a")) [] (VPrim (PString (str "0123456789abcdef"))) (uuid_value (str "0123456789abcdef")).
Proof.
  pose (none := MkMethods None None None None).
  destruct (addresses_survive (λ _, []) (str "a") 3232235527 (VPrim (PString (str "192.168.0.7"))) (replicate 16 x2a)
    (VSlice (GInt KUint8) (map byte_value (replicate 16 x2a))) (str "0123456789abcdef") (str "0123456789abcdef") none [1] [] [])
    as (H1 & H2 & _ & H3).
  - repeat constructor; unfold uint; cbn; lia.
  - constructor.
  - constructor.
  - lia.
  - exists none. left. by vm_compute.
  - done.
  - exists none, []. by do 4 right.
  - done.
  - done.
  - split; [exact H1|]. split; [exact H2|exact H3].
Defined.

(** A [net.IP] of sixteen bytes keeps its last four in an IPv4 column, whatever the others
    are; an empty [net.IP] is zero alone and a panic in a slice. *)
Lemma ipv4_keeps_last_bytes :
  IPv4_AppendRow (VPrim (PExt (XIP (Some (replicate 12 x2a ++ [x01; x02; x03; x04]))) (MkMethods None None None None)))
  = Some (Ok (be_get [x01; x02; x03; x04]))
  ∧ IPv4_AppendRow (VPrim (PExt (XIP None) (MkMethods None None None None))) = Some (Ok 0)
  ∧ ipv4_elem (VPrim (PExt (XIP None) (MkMethods None None None None))) = None.
Proof. by vm_compute. Qed.

(** [Append([][16]byte)] of a [Nullable(IPv6)] column: the rows are not counted. *)
Lemma nullable_ipv6_vanish :
  let N := NullableColumn (IPv6Column (str "a")) true (str "a") in
  ∃ s, Append N (fresh N) (VSlice (GExt KBytes16) [VPrim (PExt (XBytes16 zero16) (MkMethods None None None None))]) = Some (s, Ok None)
       ∧ Rows N s = 0%nat ∧ length (base s) = 1%nat.
Proof. eexists. split; [reflexivity|]. split; reflexivity. Qed.
End demo.
