(* ===== verification/ColumnScan.v ===== *)
(** * Rows read into variables ([lib/column/tuple.go], [array.go], [nullable.go])

    [ScanRow] of a tuple or an array builds a value of the type of the variable by
    reflection: maps, structs and slices as deep as the column.  A type is a tree, a value
    is held with its type (the dynamic one inside an interface), and a store that Go
    refuses because the types differ is a panic, [None].  The columns of plain values are
    given by the results of [Row]; conversions of package [reflect], [sql.Scanner] and the
    parsers of texts are arguments.  Fields of structs are exported and not embedded. *)

From Stdlib Require Import ZifyBool.
From S2P Require Import Prelude GoStd Column.
#[local] Set Warnings "-register-all".

(** ** Types and values *)

Record ftag := MkFtag { f_name : gostring; f_json : gostring; f_ch : gostring }.

#[global] Instance ftag_eq_dec : EqDecision ftag.
Proof. solve_decision. Defined.

Inductive gtype :=
| TBasic (name : gostring)            (* a named type of another kind *)
| TString
| TTime | TDecimal | TIP | TUUID
| TInterface
| TPtr (e : gtype)
| TStruct (fields : list (ftag * gtype))
| TMap (key elem : gtype)
| TSlice (elem : gtype).

#[global] Instance gtype_eq_dec : EqDecision gtype.
Proof.
  refine (fix go x y : Decision (x = y) := let _ : EqDecision gtype := @go in
    match x, y with
    | TBasic a, TBasic b => cast_if (decide (a = b))
    | TString, TString | TTime, TTime | TDecimal, TDecimal | TIP, TIP | TUUID, TUUID | TInterface, TInterface => left eq_refl
    | TPtr a, TPtr b | TSlice a, TSlice b => cast_if (decide (a = b))
    | TStruct a, TStruct b => cast_if (decide (a = b))
    | TMap a b, TMap c d => cast_if_and (decide (a = c)) (decide (b = d))
    | _, _ => right _
    end); first [clear go; abstract congruence | congruence].
Defined.

Inductive gkind := KStruct | KMap | KSlice | KInterface | KPtr | KString | KOther.

#[global] Instance gkind_eq_dec : EqDecision gkind.
Proof. solve_decision. Defined.

Definition kind (t : gtype) : gkind :=
  match t with
  | TStruct _ | TTime | TDecimal => KStruct
  | TMap _ _ => KMap
  | TSlice _ | TIP => KSlice
  | TInterface => KInterface
  | TPtr _ => KPtr
  | TString => KString
  | TBasic _ | TUUID => KOther
  end.

(** [Type.Elem]; a panic for the other kinds. *)
Definition elem_of_type (t : gtype) : option gtype :=
  match t with
  | TPtr e | TSlice e | TMap _ e => Some e
  | TIP => Some (TBasic (str "uint8"))
  | _ => None
  end.

Inductive gval :=
| GZero                                         (* the zero value of a plain type, nil *)
| GNum (z : Z)
| GText (s : gostring)
| GStruct (fields : list (gtype * gval))
| GMap (entries : list (gostring * (gtype * gval)))
| GSlice (elems : list (gtype * gval)).

Abbreviation tval := (gtype * gval)%type.

Fixpoint zero (t : gtype) : gval :=
  match t with
  | TStruct fs => GStruct (map (λ f, (f.2, zero f.2)) fs)
  | _ => GZero
  end.

(** [map[string]any] and [[]any]. *)
Definition scanTypeMap : gtype := TMap TString TInterface.
Definition scanTypeSlice : gtype := TSlice TInterface.

(** ** Outcomes *)

Inductive scan_err :=
| SEKind (t : gtype)               (* needs a map, a struct, a slice or any *)
| SEKeys                           (* map keys must be a string *)
| SEUnnamed                        (* cannot use maps for unnamed tuples *)
| SENotTuple
| SEParse (t : gtype)
| SEConvert (to from : gtype).

(** [None] is a panic. *)
Definition outcome (A : Type) : Type := option (result scan_err A).

#[global] Instance outcome_ret : MRet outcome := λ A a, Some (Ok a).
#[global] Instance outcome_bind : MBind outcome := λ A B f m,
  match m with Some (Ok a) => f a | Some (Err e) => Some (Err e) | None => None end.

Definition fails {A} (e : scan_err) : outcome A := Some (Err e).
Definition must {A} (o : option A) : outcome A := match o with Some a => Some (Ok a) | None => None end.

(** Storing a value of type [from] where the type is [to]. *)
Definition assignable (from to : gtype) : bool := bool_decide (from = to) || bool_decide (kind to = KInterface).
Definition store (to : gtype) (v : tval) : outcome tval := if assignable v.1 to then mret v else None.

Fixpoint put_entry (k : gostring) (v : tval) (l : list (gostring * tval)) : list (gostring * tval) :=
  match l with
  | [] => [(k, v)]
  | (k', w) :: l => if decide (k = k') then (k, v) :: l else (k', w) :: put_entry k v l
  end.

(** ** Names *)

(** [colUnEscape]. *)
Fixpoint colUnEscape (s : gostring) : gostring :=
  match s with
  | "\"%byte :: ("`"%byte as c) :: r | "\"%byte :: ("\"%byte as c) :: r => c :: colUnEscape r
  | c :: r => c :: colUnEscape r
  | [] => []
  end.

(** The name between backticks, if it stands between two; a single backtick is cut out of
    range.  The empty name stays empty. *)
Definition unescapeColName (name : gostring) : option gostring :=
  match name with
  | "`"%byte :: r =>
      match r with
      | [] => None
      | _ => Some (colUnEscape (if beq (List.last r x00) "`" then removelast r else name))
      end
  | _ => Some (colUnEscape name)
  end.

(** [getStructFieldValue]: the first field with the name in a tag, else the field of that
    name. *)
Definition tag_matches (name : gostring) (f : ftag * gtype) : bool :=
  bool_decide (f_json f.1 = name) || bool_decide (f_ch f.1 = name).

Fixpoint find_index {A} (p : A → bool) (l : list A) : option nat :=
  match l with [] => None | x :: l => if p x then Some 0 else S <$> find_index p l end.

Definition getStructFieldValue (fields : list (ftag * gtype)) (name : gostring) : option nat :=
  match find_index (tag_matches name) fields with
  | Some i => Some i
  | None => find_index (λ f, bool_decide (f_name f.1 = name)) fields
  end.

Definition fields_of (t : gtype) : list (ftag * gtype) := match t with TStruct fs => fs | _ => [] end.

Section scan.
(** [Value.Convert] ([None] when [CanConvert] is false), [Scan] of a pointer to the type,
    and the parsers. *)
Variable convert : gtype → tval → option gval.
Variable sql_Scan : gtype → tval → option gval.
Variables time_Parse decimal_Parse uuid_Parse : gostring → option gval.
Variable ParseIP : gostring → gval.

Definition text_of (v : tval) : option gostring :=
  match kind v.1, v.2 with KString, GText s => Some s | KString, _ => Some [] | _, _ => None end.

(** The rest of [setJSONFieldValue], for types that are not parsed. *)
Definition set_converted (field : gtype) (value : tval) : outcome tval :=
  match convert field value with
  | Some v => mret (if bool_decide (kind field = KInterface) then value else (field, v))
  | None =>
      match (if bool_decide (kind field = KPtr) then None else sql_Scan field value) with
      | Some v => mret (field, v)
      | None => fails (SEConvert field value.1)
      end
  end.

Definition parsed (field : gtype) (r : option gval) : outcome tval :=
  match r with Some v => mret (field, v) | None => fails (SEParse field) end.

Definition setJSONFieldValue (field : gtype) (value : tval) : outcome tval :=
  match field, text_of value with
  | TTime, Some s => parsed field (time_Parse s)
  | TDecimal, Some s => match s with [] => mret (field, zero field) | _ => parsed field (decimal_Parse s) end
  | TIP, Some s => mret (field, ParseIP s)
  | TUUID, Some s => parsed field (uuid_Parse s)
  | _, _ => set_converted field value
  end.

(** ** What a column does in each place *)

Record colops := MkOps {
  op_name : gostring;
  op_scanType : gtype;
  op_inMap : gtype → nat → outcome tval;               (* as an entry of a map *)
  op_inStruct : gtype → nat → outcome (option tval);   (* as a field; [None]: the field is left *)
  op_inSlice : gtype → nat → outcome tval;             (* as an element of a tuple in a slice; [scan] *)
  op_inArray : gtype → nat → outcome tval;             (* as an element of an array *)
  op_tuple : option ((gtype → nat → outcome tval) * (gtype → nat → outcome tval)) (* scanMap, scanStruct *)
}.

(** *** Plain columns *)

(** [Row(row, ptr)]: [None] is an index out of range. *)
Section leaf.
Variables (name : gostring) (isNullable : bool) (scanType : gtype).
Variable Row : nat → bool → option (option tval).

Definition leaf_inMap (_ : gtype) (row : nat) : outcome tval :=
  val ← must (Row row false);
  match val with
  | Some v => setJSONFieldValue v.1 v
  | None =>
      if isNullable then mret (scanType, zero scanType)
      else e ← must (elem_of_type scanType); mret (e, zero e)
  end.

Definition leaf_inStruct (field : gtype) (row : nat) : outcome (option tval) :=
  val ← must (Row row false);
  match val with Some v => w ← setJSONFieldValue field v; mret (Some w) | None => mret None end.

Definition leaf_inSlice (_ : gtype) (row : nat) : outcome tval :=
  val ← must (Row row false);
  match val with Some v => setJSONFieldValue scanType v | None => mret (scanType, zero scanType) end.

Definition leaf_inArray (elem : gtype) (row : nat) : outcome tval :=
  val ← must (Row row (bool_decide (kind scanType = KPtr)));
  setJSONFieldValue elem (default (scanType, zero scanType) val).

Definition leaf_ops : colops :=
  MkOps name scanType leaf_inMap leaf_inStruct leaf_inSlice leaf_inArray None.
End leaf.

(** *** Tuples *)

Section tuple.
Variables (name : gostring) (isNamed : bool) (columns : list colops).

Fixpoint scan_entries (os : list colops) (key elem : gtype) (row : nat) (acc : list (gostring * tval)) : outcome (list (gostring * tval)) :=
  match os with
  | [] => mret acc
  | o :: os =>
      colName ← must (unescapeColName (op_name o));
      v ← op_inMap o elem row;
      _ ← store key (TString, GText colName);
      v ← store elem v;
      scan_entries os key elem row (put_entry colName v acc)
  end.

Definition scanMap (t : gtype) (row : nat) : outcome tval :=
  match t with
  | TMap key elem =>
      if bool_decide (kind key = KString) then es ← scan_entries columns key elem row []; mret (t, GMap es)
      else fails SEKeys
  | _ => None
  end.

Fixpoint set_fields (os : list colops) (fields : list (ftag * gtype)) (row : nat) (acc : list tval) : outcome (list tval) :=
  match os with
  | [] => mret acc
  | o :: os =>
      match getStructFieldValue fields (op_name o) with
      | None => set_fields os fields row acc
      | Some i =>
          f ← must (fields !! i);
          v ← op_inStruct o f.2 row;
          acc ← match v with
                | Some v => v ← store f.2 v; mret (<[i := v]> acc)
                | None => mret acc
                end;
          set_fields os fields row acc
      end
  end.

Definition scanStruct (t : gtype) (row : nat) : outcome tval :=
  let fields := fields_of t in
  vs ← set_fields columns fields row (map (λ f, (f.2, zero f.2)) fields);
  mret (t, match t with TStruct _ => GStruct vs | _ => zero t end).

Fixpoint slice_elems (os : list colops) (elem : gtype) (row : nat) : outcome (list tval) :=
  match os with
  | [] => mret []
  | o :: os => v ← op_inSlice o elem row; v ← store elem v; vs ← slice_elems os elem row; mret (v :: vs)
  end.

Definition tuple_scanSlice (t : gtype) (row : nat) : outcome tval :=
  elem ← must (elem_of_type t); vs ← slice_elems columns elem row; mret (t, GSlice vs).

(** As a value of a map or a struct. *)
Definition tuple_inObject (t : gtype) (row : nat) : outcome tval :=
  match kind t with
  | KStruct => scanStruct t row
  | KMap => scanMap t row
  | KInterface => scanMap scanTypeMap row
  | _ => fails (SEKind t)
  end.

Definition tuple_scan (t : gtype) (row : nat) : outcome tval :=
  match kind t with
  | KStruct => scanStruct t row
  | KMap => if isNamed then scanMap t row else fails SEUnnamed
  | KSlice => tuple_scanSlice t row
  | KInterface => if isNamed then scanMap scanTypeMap row else fails SEUnnamed
  | _ => fails (SEKind t)
  end.

Definition tuple_ops : colops :=
  MkOps name (if isNamed then scanTypeMap else scanTypeSlice) tuple_inObject
    (λ t row, v ← tuple_inObject t row; mret (Some v)) tuple_scan tuple_scan (Some (scanMap, scanStruct)).
End tuple.

(** *** Arrays *)

Section array.
Variables (name : gostring) (nested : bool) (offsets : list (list nat)) (values : colops).

(** The elements of a row: from the end of the row before to its own. *)
Definition row_range (o : list nat) (row : nat) : option (list nat) :=
  hi ← o !! row;
  lo ← (match row with O => Some 0 | S r => o !! r end);
  if (lo <=? hi)%nat then Some (seq lo (hi - lo)) else None.

(** [offset.scanType], with as many levels below. *)
Definition slices_of (t : gtype) (levels : nat) : gtype := Nat.iter levels TSlice t.

Fixpoint each (f : nat → outcome tval) (ks : list nat) : outcome (list tval) :=
  match ks with [] => mret [] | i :: ks => v ← f i; vs ← each f ks; mret (v :: vs) end.

(** [scanSlice] from a level on. *)
Fixpoint scanSlice (levels : list (list nat)) (t : gtype) (row : nat) : outcome tval :=
  match levels with
  | [] => None
  | o :: levels =>
      ks ← must (row_range o row);
      sliceType ← match kind t with
                  | KInterface => mret (slices_of (op_scanType values) (S (length levels)))
                  | KSlice => mret t
                  | _ => fails (SEKind t)
                  end;
      elem ← must (elem_of_type sliceType);
      vs ← each (λ i, v ← match levels with [] => op_inArray values elem i | _ => scanSlice levels elem i end; store elem v) ks;
      mret (sliceType, GSlice vs)
  end.

(** [scanSliceOfMaps] and [scanSliceOfStructs]: always with the first level of offsets. *)
Definition scanSliceOf (pick : (gtype → nat → outcome tval) * (gtype → nat → outcome tval) → gtype → nat → outcome tval)
    (t : gtype) (row : nat) : outcome tval :=
  match op_tuple values with
  | None => fails SENotTuple
  | Some tuple =>
      o ← must (head offsets);
      ks ← must (row_range o row);
      elem ← must (elem_of_type t);
      vs ← each (λ i, v ← pick tuple elem i; store elem v) ks;
      mret (t, GSlice vs)
  end.
Definition scanSliceOfMaps := scanSliceOf fst.
Definition scanSliceOfStructs := scanSliceOf snd.

Definition scanSliceOfObjects (t : gtype) (row : nat) : outcome tval :=
  match kind t with
  | KInterface => scanSliceOfMaps (TSlice scanTypeMap) row
  | KSlice =>
      elem ← must (elem_of_type t);
      match kind elem with
      | KStruct => scanSliceOfStructs t row
      | KMap => scanSliceOfMaps t row
      | KSlice => scanSlice offsets t row
      | KInterface => scanSliceOfMaps (TSlice scanTypeMap) row
      | _ => fails (SEKind elem)
      end
  | _ => fails (SEKind t)
  end.

Definition array_scan (t : gtype) (row : nat) : outcome tval :=
  match op_tuple values with Some _ => scanSliceOfObjects t row | None => scanSlice offsets t row end.

Definition array_ops : colops :=
  MkOps name (slices_of (op_scanType values) (length offsets)) array_scan
    (λ t row, v ← array_scan t row; mret (Some v)) array_scan
    (λ t row, if nested then scanSliceOfObjects t row else scanSlice offsets t row) None.
End array.

(** *** Columns *)

Inductive scol :=
| SLeaf (name : gostring) (isNullable : bool) (scanType : gtype) (Row : nat → bool → option (option tval))
| STuple (name : gostring) (isNamed : bool) (columns : list scol)
| SArray (name : gostring) (nested : bool) (offsets : list (list nat)) (values : scol).

Fixpoint ops (c : scol) : colops :=
  match c with
  | SLeaf name n t Row => leaf_ops name n t Row
  | STuple name named cs => tuple_ops name named (map ops cs)
  | SArray name nested offs v => array_ops name nested offs (ops v)
  end.

(** [ScanRow] of a tuple or an array into a variable of type [t]. *)
Definition ScanRow (c : scol) (t : gtype) (row : nat) : outcome tval := v ← op_inSlice (ops c) t row; store t v.

(** What an array gives to an [sql.Scanner]. *)
Definition scanner_value (c : scol) (row : nat) : outcome tval := op_inSlice (ops c) TInterface row.
End scan.

(** ** What a row is *)

Definition scol_name (c : scol) : gostring :=
  match c with SLeaf n _ _ _ | STuple n _ _ | SArray n _ _ _ => n end.

Fixpoint scol_type (c : scol) : gtype :=
  match c with
  | SLeaf _ _ t _ => t
  | STuple _ named _ => if named then scanTypeMap else scanTypeSlice
  | SArray _ _ offs v => slices_of (scol_type v) (length offs)
  end.

(** The elements of an array under some levels of offsets. *)
Fixpoint array_tree (f : nat → option tval) (t : gtype) (levels : list (list nat)) (row : nat) : option tval :=
  match levels with
  | [] => f row
  | o :: levels =>
      ks ← row_range o row;
      vs ← mapM (array_tree f t levels) ks;
      Some (slices_of t (S (length levels)), GSlice vs)
  end.

(** The reference: a tuple is the map of its names to its elements, an array the list of
    its elements, a plain value is itself, NULL the nil pointer of its type. *)
Fixpoint tree (c : scol) (row : nat) : option tval :=
  match c with
  | SLeaf _ _ t Row => v ← Row row false; Some (default (t, zero t) v)
  | STuple _ _ cs =>
      es ← mapM (λ c, n ← unescapeColName (scol_name c); v ← tree c row; Some (n, v)) cs;
      Some (scanTypeMap, GMap es)
  | SArray _ _ offs v =>
      array_tree (λ i, match v with
                       | SLeaf _ _ t Row => x ← Row i (bool_decide (kind t = KPtr)); Some (default (t, zero t) x)
                       | _ => tree v i
                       end) (scol_type v) offs row
  end.

(** Columns as the server and the parser make them: a plain column gives values of its type
    and nil only when it is Nullable; tuples are named, with names that differ; an array of
    tuples has one level, which is what the code takes. *)
Fixpoint well (c : scol) : Prop :=
  match c with
  | SLeaf _ n t Row =>
      (∀ i, Row i false = Some None → n = true)
      ∧ (∀ i v, Row i (bool_decide (kind t = KPtr)) = Some (Some v) → v.1 = t)
  | STuple _ named cs => named = true ∧ NoDup (unescapeColName ∘ scol_name <$> cs) ∧ foldr (λ c P, well c ∧ P) True cs
  | SArray _ nested offs v =>
      well v ∧ offs ≠ [] ∧ match v with STuple _ _ _ => length offs = 1 | _ => nested = false end
  end.

(** Induction with a hypothesis for each element of a tuple. *)
Lemma scol_ind' (P : scol → Prop) :
  (∀ name n t Row, P (SLeaf name n t Row)) →
  (∀ name named cs, Forall P cs → P (STuple name named cs)) →
  (∀ name nested offs v, P v → P (SArray name nested offs v)) →
  ∀ c, P c.
Proof.
  intros Hl Ht Ha. fix IH 1. intros [name n t Row|name named cs|name nested offs v]; [apply Hl|apply Ht|by apply Ha].
  induction cs as [|c cs IHcs]; constructor; [apply IH|exact IHcs].
Qed.

Section any.
Variable convert : gtype → tval → option gval.
Variable sql_Scan : gtype → tval → option gval.
Variables time_Parse decimal_Parse uuid_Parse : gostring → option gval.
Variable ParseIP : gostring → gval.
(** A value converts to its own type. *)
Hypothesis convert_same : ∀ t v, convert t (t, v) = Some v.

Abbreviation ops := (ops convert sql_Scan time_Parse decimal_Parse uuid_Parse ParseIP).
Abbreviation set := (setJSONFieldValue convert sql_Scan time_Parse decimal_Parse uuid_Parse ParseIP).

Lemma set_same (v : tval) : set v.1 v = Some (Ok v).
Proof.
  destruct v as [t x]. assert (set_converted convert sql_Scan t (t, x) = Some (Ok (t, x))) as H.
  { unfold set_converted. rewrite convert_same. by destruct (bool_decide _). }
  unfold setJSONFieldValue, text_of. by destruct t.
Qed.

Lemma store_same (t : gtype) (v : tval) : v.1 = t → store t v = Some (Ok v).
Proof. intros <-. unfold store, assignable. by rewrite bool_decide_true. Qed.

Lemma store_any (v : tval) : store TInterface v = Some (Ok v).
Proof. unfold store, assignable. by rewrite (bool_decide_true (kind TInterface = KInterface)), orb_true_r by done. Qed.

Lemma ops_type c : op_scanType (ops c) = scol_type c.
Proof. induction c as [| |? ? ? ? IH] using scol_ind'; [done|done|]. cbn. by rewrite IH. Qed.

Lemma ops_name c : op_name (ops c) = scol_name c.
Proof. by destruct c. Qed.

Lemma put_entry_new k v l : k ∉ l.*1 → put_entry k v l = l ++ [(k, v)].
Proof.
  induction l as [|[k' w] l IH]; [done|]. cbn. intros [Hk Hl]%not_elem_of_cons. rewrite decide_False by done. by rewrite IH.
Qed.

Lemma each_spec f g ks vs :
  mapM g ks = Some vs → (∀ i v, g i = Some v → f i = Some (Ok v)) → each f ks = Some (Ok vs).
Proof.
  intros E%mapM_Some Hf. induction E as [|i v ks vs Ei E IH]; [done|]. cbn [each].
  unfold mbind at 1, outcome_bind at 1. rewrite (Hf _ _ Ei). unfold mbind, outcome_bind. by rewrite IH.
Qed.

(** What a column gives in each place, into [any]. *)
Definition reads_tree (c : scol) : Prop :=
  well c → ∀ row v,
    (tree c row = Some v → op_inMap (ops c) TInterface row = Some (Ok v))
    ∧ (match c with
       | SLeaf _ _ t Row => x ← Row row (bool_decide (kind t = KPtr)); Some (default (t, zero t) x)
       | _ => tree c row
       end = Some v → op_inArray (ops c) (scol_type c) row = Some (Ok v) ∧ v.1 = scol_type c)
    ∧ match c with
      | SLeaf _ _ _ _ => True
      | _ => tree c row = Some v → op_inSlice (ops c) TInterface row = Some (Ok v)
      end
    ∧ match op_tuple (ops c) with Some tu => tree c row = Some v → fst tu scanTypeMap row = Some (Ok v) | None => True end.

Lemma leaf_reads name n t Row : reads_tree (SLeaf name n t Row).
Proof.
  intros [Hn Ht] row v. cbn. split; [|split; [|done]].
  - unfold leaf_inMap. destruct (Row row false) as [[x|]|] eqn:E; cbn; [| |done]; intros [= <-]; [apply set_same|].
    by rewrite (Hn _ E).
  - unfold leaf_inArray. destruct (Row row _) as [[x|]|] eqn:E; cbn; [| |done]; intros [= <-].
    + pose proof (Ht _ _ E) as Hx. split; [|done]. rewrite <- Hx at 1. apply set_same.
    + split; [|done]. apply (set_same (t, zero t)).
Qed.

Lemma scan_entries_spec cs row es acc :
  Forall reads_tree cs → foldr (λ c P, well c ∧ P) True cs →
  mapM (λ c, n ← unescapeColName (scol_name c); v ← tree c row; Some (n, v)) cs = Some es →
  NoDup (acc.*1 ++ es.*1) →
  scan_entries (map ops cs) TString TInterface row acc = Some (Ok (acc ++ es)).
Proof.
  intros Hcs Hw E%mapM_Some. revert acc Hw. induction E as [|c [n v] cs es Ec E IH]; intros acc Hw Hd; [by rewrite app_nil_r|].
  apply Forall_cons in Hcs as [Hc Hcs]. destruct Hw as [Hwc Hw].
  destruct (unescapeColName (scol_name c)) as [n'|] eqn:En; [|done]. cbn in Ec.
  destruct (tree c row) as [v'|] eqn:Ev; [|done]. cbn in Ec. injection Ec as -> ->.
  cbn [map scan_entries]. rewrite ops_name, En. unfold must. unfold mbind at 1, outcome_bind at 1.
  rewrite (proj1 (Hc Hwc row v) Ev). unfold mbind at 1, outcome_bind at 1.
  rewrite (store_same TString) by done. unfold mbind at 1, outcome_bind at 1. rewrite store_any.
  unfold mbind at 1, outcome_bind at 1.
  rewrite put_entry_new by (intros Hin; rewrite NoDup_app in Hd; destruct Hd as (_ & Hd & _); apply (Hd _ Hin); cbn; by left).
  rewrite (IH Hcs (acc ++ [(n, v)]) Hw); [by rewrite <- app_assoc|]. rewrite fmap_app, <- app_assoc. exact Hd.
Qed.

Lemma tuple_reads name named cs : Forall reads_tree cs → reads_tree (STuple name named cs).
Proof.
  intros Hcs (-> & Hd & Hw) row v. assert (tree (STuple name true cs) row = Some v →
    scanMap (map ops cs) scanTypeMap row = Some (Ok v) ∧ v.1 = scanTypeMap) as H.
  { cbn [tree]. destruct (mapM _ cs) as [es|] eqn:E; [|done]. intros [= <-]. split; [|done]. unfold scanMap, scanTypeMap at 1.
    rewrite bool_decide_true by done. rewrite (scan_entries_spec cs row es []); [done|done|done|done|].
    assert (unescapeColName ∘ scol_name <$> cs = Some <$> es.*1) as He.
    { apply mapM_Some in E. clear -E. induction E as [|c [n v] cs es Ec E IH]; [done|]. cbn. rewrite <- IH. f_equal.
      destruct (unescapeColName (scol_name c)); [|done]. cbn in Ec. destruct (tree c row); [|done]. cbn in Ec. by simplify_eq. }
    rewrite He in Hd. cbn. by apply NoDup_fmap_1 in Hd. }
  split; [intros E; apply (H E)|]. split; [intros E; exact (H E)|]. split; intros E; apply (H E).
Qed.

Lemma scanSlice_tree (vo : colops) f T levels : (∀ i y, f i = Some y → op_inArray vo T i = Some (Ok y) ∧ y.1 = T) →
  op_scanType vo = T → ∀ t row x, levels ≠ [] → t = TInterface ∨ t = slices_of T (length levels) →
  array_tree f T levels row = Some x → scanSlice vo levels t row = Some (Ok x) ∧ x.1 = slices_of T (length levels).
Proof.
  intros Hf HT. induction levels as [|o levels IH]; intros t row x Hne Ht; [done|]. cbn [array_tree scanSlice].
  destruct (row_range o row) as [ks|]; [|done]. cbn [mbind option_bind].
  destruct (mapM (array_tree f T levels) ks) as [vs|] eqn:E; [|done]. cbn [mbind option_bind]. intros [= <-]. split; [|done].
  unfold must at 1. unfold mbind at 1, outcome_bind at 1.
  assert (match kind t with
          | KInterface => mret (slices_of (op_scanType vo) (S (length levels)))
          | KSlice => mret t | _ => fails (SEKind t) end = mret (M := outcome) (slices_of T (S (length levels)))) as ->
    by (destruct Ht as [-> | ->]; cbn; by rewrite ?HT).
  unfold mbind at 1, outcome_bind at 1, mret at 1, outcome_ret at 1.
  change (elem_of_type (slices_of T (S (length levels)))) with (Some (slices_of T (length levels))).
  unfold must, mbind at 1, outcome_bind at 1. erewrite each_spec; [done|exact E|]. intros i y Ey. destruct levels as [|o' levels].
  - change (slices_of T (length [])) with T. destruct (Hf i y Ey) as [-> Hy]. unfold mbind, outcome_bind. by apply store_same.
  - destruct (IH (slices_of T (length (o' :: levels))) i y ltac:(done) (or_intror eq_refl) Ey) as [E' Hy].
    rewrite E'. unfold mbind, outcome_bind. by apply store_same.
Qed.

Lemma maps_tree name nested o n named cs row x (v := STuple n named cs) : reads_tree v → well v →
  tree (SArray name nested [o] v) row = Some x →
  scanSliceOfMaps [o] (ops v) (TSlice scanTypeMap) row = Some (Ok x) ∧ x.1 = TSlice scanTypeMap.
Proof.
  intros Hv Hw. pose proof Hw as (Hn & _). cbn [tree array_tree v length].
  destruct (row_range o row) as [ks|] eqn:Ek; [|done]. cbn [mbind option_bind].
  destruct (mapM _ ks) as [vs|] eqn:E; [|done]. cbn [mbind option_bind]. intros [= <-].
  rewrite Hn. cbn [scol_type slices_of Nat.iter fst]. split; [|done].
  unfold scanSliceOfMaps, scanSliceOf. change (op_tuple (ops v)) with (Some (scanMap (map ops cs), scanStruct (map ops cs))).
  cbn [head]. unfold must. unfold mbind at 1, outcome_bind at 1. rewrite Ek. unfold mbind at 1, outcome_bind at 1.
  cbn [elem_of_type]. unfold mbind at 1, outcome_bind at 1. erewrite each_spec; [done|exact E|].
  intros i y Ey. destruct (Hv Hw i y) as (_ & Ha & _ & Ht). destruct (Ha Ey) as [_ Hy].
  assert (scanMap (map ops cs) scanTypeMap i = Some (Ok y)) as Ht' by exact (Ht Ey). cbn [fst]. rewrite Ht'. unfold mbind, outcome_bind. apply store_same. rewrite Hy. cbn. by rewrite Hn.
Qed.

Lemma array_reads name nested offs v : reads_tree v → reads_tree (SArray name nested offs v).
Proof.
  intros Hv (Hw & Hne & Hs) row x.
  assert (∀ t, t = TInterface ∨ t = slices_of (scol_type v) (length offs) → tree (SArray name nested offs v) row = Some x →
    scanSlice (ops v) offs t row = Some (Ok x) ∧ x.1 = slices_of (scol_type v) (length offs)) as Hslice.
  { intros t Ht. cbn [tree]. apply scanSlice_tree; [|apply ops_type|done|done]. intros i y Ey. by apply (Hv Hw i y). }
  destruct v as [vn vb vt vR|vn named cs|vn vnested voffs vv].
  - cbn [ops array_ops op_inMap op_inArray op_inSlice op_tuple]. unfold array_scan. cbn [op_tuple]. rewrite Hs.
    split; [intros E; by apply Hslice; [left|]|]. split; [intros E; by apply Hslice; [right|]|].
    split; [|done]. intros E; by apply Hslice; [left|].
  - destruct offs as [|o [|]]; [done| |done]. pose proof Hw as (-> & _).
    pose proof (λ E, maps_tree name nested o vn true cs row x Hv Hw E) as Hm.
    cbn [ops array_ops op_inMap op_inArray op_inSlice op_tuple]. unfold array_scan. cbn [op_tuple tuple_ops].
    split; [intros E; by apply Hm|]. split; [|split; [intros E; by apply Hm|done]].
    intros E. destruct nested; [by apply Hm|]. apply Hslice; [by right|done].
  - cbn [ops array_ops op_inMap op_inArray op_inSlice op_tuple]. unfold array_scan. cbn [op_tuple]. rewrite Hs.
    split; [intros E; by apply Hslice; [left|]|]. split; [intros E; by apply Hslice; [right|]|].
    split; [|done]. intros E; by apply Hslice; [left|].
Qed.

Lemma all_read c : reads_tree c.
Proof. induction c using scol_ind'; [apply leaf_reads|by apply tuple_reads|by apply array_reads]. Qed.

(** C33: A row of tuples and arrays read into a variable of type [any] is the tree of its
    values: a tuple is the map of its unescaped names to its elements, an array or a Nested
    the slice of its elements, a NULL the nil pointer of its type; there is no error and no
    panic. Required ([well]): tuples are named, with names that stay distinct when
    unescaped; an array of tuples has one level; a column other than Nullable has no NULL,
    and leaves give values of their scan type. Outside these conditions the code differs: an
    Array(Array(Tuple)) is misread ([two_levels_misread]), a NULL in
    LowCardinality(Nullable) reads as the empty value ([hidden_null_is_empty]), an unnamed
    tuple is an error. *)
Theorem scan_into_any (c : scol) (row : nat) (v : tval) :
  well c → (match c with SLeaf _ _ _ _ => False | _ => True end) → tree c row = Some v →
  ScanRow convert sql_Scan time_Parse decimal_Parse uuid_Parse ParseIP c TInterface row = Some (Ok v).
Proof.
  intros Hw Hc E. destruct (all_read c Hw row v) as (_ & _ & H & _). unfold ScanRow.
  assert (op_inSlice (ops c) TInterface row = Some (Ok v)) as -> by (destruct c; [done|by apply H|by apply H]).
  apply store_any.
Qed.
End any.

(** ** Structs *)

(** The columns that name a field. *)
Definition naming (fields : list (ftag * gtype)) (i : nat) (os : list colops) : list colops :=
  List.filter (λ o, bool_decide (getStructFieldValue fields (op_name o) = Some i)) os.

Lemma set_fields_spec os fields row acc vs :
  set_fields os fields row acc = Some (Ok vs) → length acc = length fields →
  length vs = length fields ∧
  ∀ i f, fields !! i = Some f →
    (naming fields i os = [] → vs !! i = acc !! i)
    ∧ (∀ o, naming fields i os = [o] → ∃ w, op_inStruct o f.2 row = Some (Ok w)
         ∧ vs !! i = match w with Some x => Some x | None => acc !! i end).
Proof.
  revert acc. induction os as [|o os IH]; intros acc; cbn [set_fields]; [by intros [= <-]|].
  destruct (getStructFieldValue fields (op_name o)) as [j|] eqn:Ej.
  2:{ intros E Hl. destruct (IH acc E Hl) as [H1 H2]. split; [done|]. intros i f Hi. unfold naming. cbn [List.filter].
      rewrite Ej, bool_decide_false by done. by apply H2. }
  destruct (fields !! j) as [g|] eqn:Eg; [|done]. cbn [must]. unfold mbind at 1, outcome_bind at 1.
  destruct (op_inStruct o g.2 row) as [[w|]|] eqn:Ew; [|done..]. unfold mbind at 1, outcome_bind at 1.
  destruct (match w with Some x => x ← store g.2 x; mret (<[j := x]> acc) | None => mret acc end) as [[acc'|]|] eqn:Ea;
    unfold mbind at 1, outcome_bind at 1; [|done..].
  assert (acc' = match w with Some x => <[j := x]> acc | None => acc end) as Hacc.
  { destruct w as [x|]; [|by injection Ea]. unfold store in Ea. destruct (assignable x.1 g.2); [|done]. by injection Ea. }
  intros E Hl. assert (length acc' = length fields) as Hl' by (subst acc'; destruct w; by rewrite ?length_insert).
  destruct (IH acc' E Hl') as [H1 H2]. split; [done|]. intros i f Hi. destruct (H2 i f Hi) as [H3 H4]. unfold naming. cbn [List.filter].
  rewrite Ej. destruct (decide (j = i)) as [-> |Hne].
  - rewrite bool_decide_true by done. split; [done|]. intros o' [= <- Hno]. simplify_eq. exists w. split; [done|].
    rewrite (H3 Hno). destruct w; [|by subst]. subst. apply list_lookup_insert_eq. rewrite Hl. by eapply lookup_lt_Some.
  - rewrite bool_decide_false by congruence. assert (acc' !! i = acc !! i) as Hsame
      by (subst acc'; destruct w; [by apply list_lookup_insert_ne|done]).
    rewrite Hsame in H3, H4. done.
Qed.

(** A tuple read into a struct: a field gets the value of the column that names it, by a
    tag or by its own name, converted to its type; a NULL and a field that no column names
    leave the zero value. *)
Theorem scan_into_struct convert sql_Scan time_Parse decimal_Parse uuid_Parse ParseIP name named cs fields row v :
  let os := map (ops convert sql_Scan time_Parse decimal_Parse uuid_Parse ParseIP) cs in
  ScanRow convert sql_Scan time_Parse decimal_Parse uuid_Parse ParseIP (STuple name named cs) (TStruct fields) row = Some (Ok v) →
  ∃ vs, v = (TStruct fields, GStruct vs) ∧ length vs = length fields
    ∧ ∀ i f, fields !! i = Some f →
        (naming fields i os = [] → vs !! i = Some (f.2, zero f.2))
        ∧ (∀ o, naming fields i os = [o] → ∃ w, op_inStruct o f.2 row = Some (Ok w) ∧ vs !! i = Some (default (f.2, zero f.2) w)).
Proof.
  intros os. unfold ScanRow. cbn [ops tuple_ops op_inSlice]. fold os. unfold tuple_scan, scanStruct. cbn [kind fields_of].
  destruct (set_fields os fields row _) as [[vs|]|] eqn:E; [|done..]. unfold mbind, outcome_bind, mret, outcome_ret.
  unfold store. destruct (assignable _ _); [|done]. intros [= <-]. exists vs. split; [done|].
  destruct (set_fields_spec _ _ _ _ _ E) as [Hl H]; [by rewrite length_map|]. split; [done|]. intros i f Hi.
  assert (map (λ f : ftag * gtype, (f.2, zero f.2)) fields !! i = Some (f.2, zero f.2)) as Hz
    by (rewrite list_lookup_fmap, Hi; done).
  destruct (H i f Hi) as [H1 H2]. rewrite Hz in H1, H2. split; [done|]. intros o Ho. destruct (H2 o Ho) as (w & Ew & Hw).
  exists w. split; [done|]. by destruct w.
Qed.

(** ** Names *)

Lemma colUnEscape_escape s : colUnEscape (colEscape s) = s.
Proof.
  induction s as [|b s IH]; [done|]. cbn [colEscape flat_map]. fold (colEscape s).
  destruct (beq_spec b "`") as [-> |H1]; [cbn; by rewrite IH|]. destruct (beq_spec b "\") as [-> |H2]; [cbn; by rewrite IH|].
  cbn [app]. assert (colUnEscape (b :: colEscape s) = b :: colUnEscape (colEscape s)) as -> by (destruct b; done). by rewrite IH.
Qed.

(** The name a key of a map is stored under is read back as the key, whatever bytes it has. *)
Theorem unescape_getMapFieldName (key : gostring) : unescapeColName (getMapFieldName key) = Some key.
Proof.
  unfold getMapFieldName. destruct (escapeColRegex key) eqn:E; cbn [negb].
  - destruct key as [|b key]; [done|]. cbn [escapeColRegex] in E. apply andb_true_iff in E as [E _].
    assert (colEscape (b :: key) = b :: colEscape key ∧ b ≠ "`"%byte) as [Hc Hb] by (destruct b; done).
    pose proof (colUnEscape_escape (b :: key)) as Hu. rewrite Hc in Hu |- *.
    assert (unescapeColName (b :: colEscape key) = Some (colUnEscape (b :: colEscape key))) as -> by (destruct b; done).
    by rewrite Hu.
  - cbn [str app]. change (str "`" ++ colEscape key ++ str "`") with (("`"%byte : byte) :: colEscape key ++ ["`"%byte : byte]).
    unfold unescapeColName. destruct (colEscape key ++ ["`"%byte]) as [|x r] eqn:Er; [by destruct (colEscape key)|].
    rewrite <- Er, List.last_last, beq_refl, List.removelast_last. by rewrite colUnEscape_escape.
Qed.

(** ** NULL *)

(** The types whose pointers [scanNullInto] sets to nil. *)
Definition null_types : list gtype :=
  map (TBasic ∘ str) ["uint64"; "int64"; "uint32"; "int32"; "uint16"; "int16"; "uint8"; "int8"]
  ++ [TString] ++ map (TBasic ∘ str) ["float32"; "float64"] ++ [TTime].

(** [dest] points to a variable of type [t]; [scanner] is what its [Scan] makes of nil. *)
Definition scanNullInto (scanner : option gval) (t : gtype) (old : gval) : gval :=
  match scanner with
  | Some v => v
  | None => match t with TPtr e => if decide (e ∈ null_types) then GZero else old | _ => old end
  end.

(** ** Concrete rows *)

Definition demo_convert (t : gtype) (v : tval) : option gval := if decide (t = v.1 ∨ kind t = KInterface) then Some v.2 else None.
Definition no_parse (s : gostring) : option gval := None.
Definition demo_scan := ScanRow demo_convert (λ _ _, None) no_parse no_parse no_parse (λ _, GZero).

Definition column_of (name : string) (nullable : bool) (t : gtype) (vs : list (option gval)) : scol :=
  SLeaf (str name) nullable t (λ i _, option_map (pair t) <$> vs !! i).

(** [Array(Tuple(a Int64, `b-c` Nullable(String)))]: rows of one and of two tuples. *)
Definition demo_ptr : gtype := TPtr TString.
Definition int64 : gtype := TBasic (str "int64").
Definition demo_tuple : scol :=
  STuple (str "t") true [column_of "a" false int64 (map (Some ∘ GNum) [1; 2; 3]%Z);
                         column_of "`b-c`" true demo_ptr [Some (GText (str "x")); None; Some (GText (str "y"))]].
Definition demo_array : scol := SArray (str "t") false [[1; 3]] demo_tuple.

Definition entry (n : Z) (s : gval) : tval := (scanTypeMap, GMap [(str "a", (int64, GNum n)); (str "b-c", (demo_ptr, s))]).

Lemma scan_into_any_witness :
  demo_scan demo_array TInterface 1 = Some (Ok (TSlice scanTypeMap, GSlice [entry 2 GZero; entry 3 (GText (str "y"))])).
Proof.
  apply (scan_into_any demo_convert (λ _ _, None) no_parse no_parse no_parse (λ _, GZero)).
  - intros t v. unfold demo_convert. by rewrite decide_True by (by left).
  - split; [|split; [done|reflexivity]]. split; [reflexivity|]. split; [by apply (bool_decide_unpack _); vm_compute|].
    cbn [foldr]. split; [|split; [|done]]; (split; [|intros i v]).
    + intros i. do 3 (destruct i as [|i]; [discriminate|]). discriminate.
    + destruct i as [|[|[|i]]]; cbn; by intros [= <-].
    + done.
    + destruct i as [|[|[|i]]]; cbn; by intros [= <-].
  - exact I.
  - vm_compute. reflexivity.
Defined.

(** A struct with one of the names in a tag. *)
Definition demo_fields : list (ftag * gtype) :=
  [(MkFtag (str "Skipped") (str "z") [], int64); (MkFtag (str "A") [] (str "a"), int64)].

Lemma scan_into_struct_witness :
  ∃ vs, demo_scan demo_tuple (TStruct demo_fields) 2 = Some (Ok (TStruct demo_fields, GStruct vs))
    ∧ vs !! 0 = Some (int64, GZero).
Proof.
  destruct (scan_into_struct demo_convert (λ _ _, None) no_parse no_parse no_parse (λ _, GZero) (str "t") true
    [column_of "a" false int64 (map (Some ∘ GNum) [1; 2; 3]%Z);
     column_of "`b-c`" true demo_ptr [Some (GText (str "x")); None; Some (GText (str "y"))]] demo_fields 2
    (TStruct demo_fields, GStruct [(int64, GZero); (int64, GNum 3)]) ltac:(vm_compute; reflexivity)) as (vs & E & _ & H).
  exists vs. rewrite <- E. split; [vm_compute; reflexivity|].
  apply (H 0 (MkFtag (str "Skipped") (str "z") [], int64)); reflexivity.
Defined.

(** *** Limits *)

(** A variable of type [[]any] is given a slice of maps, which is a panic. *)
Example slice_of_any_panics : demo_scan demo_array scanTypeSlice 0 = None.
Proof. vm_compute. reflexivity. Qed.

(** Two levels of arrays over tuples: into [any] the first level of offsets is taken for
    rows of the tuple. *)
Example two_levels_misread :
  let c := SArray (str "t") false [[1; 2]; [2; 3]] demo_tuple in
  demo_scan c TInterface 0 = Some (Ok (TSlice scanTypeMap, GSlice [entry 1 (GText (str "x"))]))
  ∧ tree c 0 = Some (TSlice (TSlice scanTypeMap),
                     GSlice [(TSlice scanTypeMap, GSlice [entry 1 (GText (str "x")); entry 2 GZero])]).
Proof. vm_compute. done. Qed.

(** A NULL of a column that is not Nullable itself, as LowCardinality(Nullable(String)) is,
    becomes the empty value in a map. *)
Example hidden_null_is_empty :
  demo_scan (STuple (str "t") true [column_of "a" false demo_ptr [None]]) TInterface 0
  = Some (Ok (scanTypeMap, GMap [(str "a", (TString, GZero))])).
Proof. vm_compute. reflexivity. Qed.

(** Elements without a name all go to the first field without a json tag. *)
Example unnamed_into_struct :
  let fields := [(MkFtag (str "A") [] [], int64); (MkFtag (str "B") [] [], int64)] in
  demo_scan (STuple (str "t") false [column_of "" false int64 [Some (GNum 1)]; column_of "" false int64 [Some (GNum 2)]]) (TStruct fields) 0
  = Some (Ok (TStruct fields, GStruct [(int64, GNum 2); (int64, GZero)])).
Proof. vm_compute. reflexivity. Qed.

(** Options behind the name in a json tag: a field is written under the name, and not found
    when it is read. *)
Example tag_options_not_read :
  getStructFieldName (str "Field") (str "a,omitempty") [] = Some (str "a")
  ∧ getStructFieldValue [(MkFtag (str "Field") (str "a,omitempty") [], int64)] (str "a") = None.
Proof. vm_compute. done. Qed.

(** A name in backticks is read into a map without them, and looked for with them in a
    struct. *)
Example escaped_not_in_struct :
  let fields := [(MkFtag (str "B") (str "b-c") [], demo_ptr)] in
  demo_scan demo_tuple (TStruct fields) 0 = Some (Ok (TStruct fields, GStruct [(demo_ptr, GZero)])).
Proof. vm_compute. reflexivity. Qed.

(** A tuple read into a slice of another type is a panic and not an error. *)
Example wrong_slice_panics : demo_scan demo_tuple (TSlice TString) 0 = None.
Proof. vm_compute. reflexivity. Qed.

(** NULL leaves a pointer to a type that is not in the list, like bool, as the row before
    has set it. *)
Example null_keeps_old_bool : scanNullInto None (TPtr (TBasic (str "bool"))) (GNum 1) = GNum 1.
Proof. vm_compute. reflexivity. Qed.
