(* ===== verification/ColumnGeo.v ===== *)
(** * Columns of geometries ([lib/column/geo_point.go], [geo_ring.go], [geo_polygon.go],
      [geo_multi_polygon.go], [geo_linestring.go], [geo_multi_linestring.go])

    A Point column holds pairs of float64; the others wrap an array of the next smaller
    geometry: a ring is an array of points, a polygon of rings, and so on.  The values are
    those of the package orb; each is an opaque value of its type that carries its
    coordinates, a float64 being its bits. *)

From Stdlib Require Import ZifyBool.
From S2P Require Import Prelude GoStd Wire Column ColumnLaws ColumnLeaf.
Local Open Scope Z_scope.
#[local] Set Warnings "-register-all".

(** ** Values of the package orb *)

Definition no_methods : methods := MkMethods None None None None.

Section orb.
Context {A : Type} `{Countable A}.

Definition orb (n : gostring) (a : A) : value := VPrim (PExt (XOther n (Z.pos (encode a))) no_methods).

Definition as_orb (n : gostring) (p : prim) : option A :=
  match p with
  | PExt (XOther m (Z.pos q)) _ => if decide (m = n) then decode q else None
  | _ => None
  end.

Lemma as_orb_orb n a : as_orb n (PExt (XOther n (Z.pos (encode a))) no_methods) = Some a.
Proof. cbn. by rewrite decide_True, decode_encode. Qed.
End orb.

Abbreviation point := (Z * Z)%type.

Definition GOrb (n : gostring) : gotype := GExt (KOther n).
Definition orb_Point : gostring := str "orb.Point".
Definition orb_Ring : gostring := str "orb.Ring".
Definition orb_Polygon : gostring := str "orb.Polygon".
Definition orb_MultiPolygon : gostring := str "orb.MultiPolygon".
Definition orb_LineString : gostring := str "orb.LineString".
Definition orb_MultiLineString : gostring := str "orb.MultiLineString".

(** [proto.ColPoint] of ch-go. *)
Class PointVec := { PutPoints : list point → gostring; RPoints : nat → gostring → option (list point * gostring) }.

Section geo.
Context {W : Wire} {P : PointVec}.

(** What an [AppendRow] does with a value that is not of its type: [rec] is the call with
    what [Value] gives; a nil pointer to its type is dereferenced. *)
Definition nil_pointer {S} (n : gostring) (s : S) (t : gotype) : option (S * option cerr) :=
  match t with
  | GExt (KOther m) => if decide (m = n) then None else refuse s
  | GNull _ | GExt (KUUID | KDecimal) => None
  | _ => refuse s
  end.

(** ** Point *)

Fixpoint point_AppendRow (s : list point) (v : value) {struct v} : option (list point * option cerr) :=
  match v with
  | VPrim p | VPtr (VPrim p) => match as_orb orb_Point p with Some x => Some (s ++ [x], None) | None => refuse s end
  | VNilPtr t => nil_pointer orb_Point s t
  | VValuer (Some w) | VPtr (VValuer (Some w)) => point_AppendRow s w
  | _ => refuse s
  end.

(** An element of a slice of points or of pointers to points. *)
Definition point_elem (v : value) : point :=
  match v with VPrim p | VPtr (VPrim p) => default (0, 0) (as_orb orb_Point p) | _ => (0, 0) end.

Fixpoint point_Append (s : list point) (v : value) {struct v} : option (list point * result cerr (option (list Z))) :=
  match v with
  | VSlice (GExt (KOther n)) l =>
      if decide (n = orb_Point) then Some (s ++ map point_elem l, Ok (Some (map (λ _, 0) l))) else Some (s, Err ColumnConverterError)
  | VSlice (GPtr (GExt (KOther n))) l =>
      if decide (n = orb_Point) then Some (s ++ map point_elem l, Ok (Some (map nil_mark l))) else Some (s, Err ColumnConverterError)
  | VValuer (Some w) | VPtr (VValuer (Some w)) => point_Append s w
  | VNilPtr (GNull _ | GExt (KUUID | KDecimal)) => None
  | _ => Some (s, Err ColumnConverterError)
  end.

Definition PointColumn (name : gostring) : Interface :=
  ListColumn (orb orb_Point) (GOrb orb_Point) point_AppendRow point_Append PutPoints RPoints name (str "Point").

(** ** The others *)

Section wrapped.
Context {A : Type} `{Countable A}.
(** The type of orb and of its elements, and the array the column wraps. *)
Variable self elem : gostring.
Variable Set_ : Interface.

(** [[]orb.Point(v)] and its like. *)
Definition elems (l : list A) : value := VSlice (GOrb elem) (map (orb elem) l).

Fixpoint geo_AppendRow (s : state Set_) (v : value) {struct v} : option (state Set_ * option cerr) :=
  match v with
  | VPrim p | VPtr (VPrim p) => match as_orb (A := list A) self p with Some l => AppendRow Set_ s (elems l) | None => refuse s end
  | VNilPtr t => nil_pointer self s t
  | VValuer (Some w) | VPtr (VValuer (Some w)) => geo_AppendRow s w
  | _ => refuse s
  end.

(** An element of a slice; a nil pointer is an empty geometry. *)
Definition geo_elem (v : value) : value :=
  match v with VPrim p | VPtr (VPrim p) => elems (default [] (as_orb self p)) | _ => elems [] end.

(** [Append]: the null marks are those of the array, not those of the pointers. *)
Fixpoint geo_Append (s : state Set_) (v : value) {struct v} : option (state Set_ * result cerr (option (list Z))) :=
  match v with
  | VSlice (GExt (KOther n)) l | VSlice (GPtr (GExt (KOther n))) l =>
      if decide (n = self) then Append Set_ s (VSlice (GSlice (GOrb elem)) (map geo_elem l)) else Some (s, Err ColumnConverterError)
  | VValuer (Some w) | VPtr (VValuer (Some w)) => geo_Append s w
  | VNilPtr (GNull _ | GExt (KUUID | KDecimal)) => None
  | _ => Some (s, Err ColumnConverterError)
  end.

(** [row]: the array is scanned into a slice; a failure leaves it nil. *)
Definition geo_slice (v : value) : list A :=
  match v with
  | VSlice _ l => default [] (mapM (λ x, match x with VPrim p => as_orb elem p | _ => None end) l)
  | _ => []
  end.
Definition geo_Row (s : state Set_) (i : nat) : option value := v ← Row Set_ s i; Some (orb self (geo_slice v)).

Definition GeoColumn (name t : gostring) : Interface :=
  MkInterface (state Set_) (fresh Set_) name t (GOrb self) (Rows Set_) geo_Row geo_AppendRow geo_Append (Reset Set_)
    (Encode Set_) (Decode Set_) None.
End wrapped.

(** The columns that [Type.Column] makes. *)
Definition RingColumn (name : gostring) : Interface :=
  GeoColumn (A := point) orb_Ring orb_Point (ArrayColumn (PointColumn name) 1 name (str "Ring")) name (str "Ring").
Definition PolygonColumn (name : gostring) : Interface :=
  GeoColumn (A := list point) orb_Polygon orb_Ring (ArrayColumn (RingColumn name) 1 name (str "Polygon")) name (str "Polygon").
Definition MultiPolygonColumn (name : gostring) : Interface :=
  GeoColumn (A := list (list point)) orb_MultiPolygon orb_Polygon (ArrayColumn (PolygonColumn name) 1 name (str "MultiPolygon")) name (str "MultiPolygon").
Definition LineStringColumn (name : gostring) : Interface :=
  GeoColumn (A := point) orb_LineString orb_Point (ArrayColumn (PointColumn name) 1 name (str "LineString")) name (str "LineString").
Definition MultiLineStringColumn (name : gostring) : Interface :=
  GeoColumn (A := list point) orb_MultiLineString orb_LineString (ArrayColumn (LineStringColumn name) 1 name (str "MultiLineString")) name (str "MultiLineString").
End geo.

(** ** Geometries survive *)

Definition point_ok (p : point) : Prop := uint 8 p.1 ∧ uint 8 p.2.

Class PointLaws (P : PointVec) : Prop := {
  PutPoints_nil : PutPoints [] = [];
  reads_points : ∀ l rest, Forall point_ok l → RPoints (length l) (PutPoints l ++ rest) = Some (l, rest)
}.

(** What a column of geometries promises to the column of the next larger ones. *)
Record geometry {A} `{Countable A} (C : Interface) (n : gostring) (ok : A → Prop) := {
  g_laws : Laws C;
  g_custom : custom C = None;
  g_accepts : ∀ a, ok a → @accepts C g_laws (orb n a);
  g_stored : ∀ a : A, @stored C g_laws (orb n a) = orb n a;
  g_total : ∀ s (a : A), ∃ s', AppendRow C s (orb n a) = Some (s', None)
}.
Arguments g_laws {A _ _ C n ok}.
Arguments g_custom {A _ _ C n ok}.
Arguments g_accepts {A _ _ C n ok}.
Arguments g_stored {A _ _ C n ok}.
Arguments g_total {A _ _ C n ok}.

(** Rows appended one after the other. *)
Lemma append_each_rows (C : Interface) {LC : Laws C} vs : ∀ s s', wf C s → Forall (accepts C) vs →
  append_each (AppendRow C) s vs = Some (s', None) → fits C s' →
  wf C s' ∧ Rows C s' = (Rows C s + length vs)%nat ∧ (∀ i, (i < Rows C s)%nat → Row C s' i = Row C s i)
  ∧ ∀ i v, vs !! i = Some v → Row C s' (Rows C s + i) = Some (stored C v).
Proof.
  induction vs as [|v vs IH]; intros s s' Hw Ha Hs Hf.
  { injection Hs as <-. split; [done|]. split; [cbn; lia|]. by split. }
  apply append_each_cons_inv in Hs as (s1 & H1 & H2). apply Forall_cons in Ha as [Hv Ha].
  assert (fits C s1) as Hf1.
  { assert (PreOrder (λ a b, fits C b → fits C a)) as HP by (split; [by intros a|intros a b c Hab Hbc Hc; auto]).
    revert Hf. apply (append_each_rel (AppendRow C) (λ a b, fits C b → fits C a) vs) with (s := s1); [|done].
    intros a x b Hab. by apply (law_grows _ _ _ Hab). }
  destruct (law_append s v s1 Hw Hv H1 Hf1) as (A1 & A2 & A3 & A4).
  destruct (IH s1 s' A1 Ha H2 Hf) as (I1 & I2 & I3 & I4). rewrite A2 in *. split; [done|]. split; [cbn; lia|]. split.
  - intros i Hi. rewrite I3 by lia. by apply A3.
  - intros [|i] w Hi; [injection Hi as <-; rewrite Nat.add_0_r, I3 by lia; done|]. rewrite <- (I4 i w Hi). f_equal. lia.
Qed.

Section laws.
Context {W : Wire} {L : WireLaws W} {P : PointVec} {PL : PointLaws P}.

Lemma point_pushes : pushes point_AppendRow.
Proof.
  intros s v. revert v s. fix IH 1. intros v s s'.
  assert (∀ p, match as_orb orb_Point p with Some x => Some (s ++ [x], None) | None => refuse s end = Some (s', None) →
    ∃ x, s' = s ++ [x] ∧ match as_orb orb_Point p with Some x => Some ([] ++ [x], None) | None => refuse [] end = Some ([x], None)) as Hp.
  { intros p. destruct (as_orb orb_Point p) as [x|]; [|done]. intros [= <-]. by exists x. }
  destruct v as [|p|t p|t|[|p|t p|t|w|t l|k v|k v l|l|l|fs|[r|]|l]|t l|k v|k v l|l|l|fs|[r|]|l];
    try (apply (IH r)); clear IH; cbn [point_AppendRow]; try done; try apply Hp.
  unfold nil_pointer. destruct t as [| | | | | | | | | |[]]; try done. by destruct (decide _).
Qed.

Definition point_geometry name : geometry (PointColumn name) orb_Point point_ok.
Proof.
  refine {| g_laws := list_laws (orb orb_Point) (GOrb orb_Point) point_AppendRow point_Append PutPoints RPoints name (str "Point")
                        point_ok (λ _, True) point_pushes PutPoints_nil (λ l rest Hl _, reads_points l rest Hl) |}.
  - done.
  - intros a Ha. cbn [accepts list_laws]. unfold list_accepts, pushed, orb, point_AppendRow. by rewrite as_orb_orb.
  - intros a. cbn [stored list_laws]. unfold list_stored, pushed, orb, point_AppendRow. by rewrite as_orb_orb.
  - intros s a. eexists. cbn [AppendRow PointColumn ListColumn]. unfold orb, point_AppendRow. by rewrite as_orb_orb.
Defined.

Section wrapped.
Context {A : Type} `{Countable A}.
Variable V : Interface.
Variable self elem : gostring.
Variable ok : A → Prop.
Variable G : geometry V elem ok.
Variable name t : gostring.

Abbreviation S_ := (ArrayColumn V 1 name t).
#[local] Instance elem_laws : Laws V := g_laws G.
#[local] Instance set_laws : Laws S_ := array_laws V 0 name t.

Lemma elems_accepted l : Forall ok l → accepts S_ (elems elem l).
Proof.
  intros Hl. split.
  - cbn. apply Forall_map, Forall_forall. done.
  - cbn. induction Hl as [|a l Ha Hl IH]; [done|]. cbn. split; [by apply (g_accepts G)|done].
Qed.

Lemma elems_stored (l : list A) : stored S_ (elems elem l) = VSlice GAny (map (orb elem) l).
Proof. cbn. f_equal. rewrite map_map. apply map_ext. intros a. cbn. apply (g_stored G). Qed.

Lemma geo_slice_back (l : list A) : geo_slice elem (VSlice GAny (map (orb elem) l)) = l.
Proof.
  cbn [geo_slice]. replace (mapM _ _) with (Some l); [done|]. induction l as [|a l IH]; [done|]. cbn [map mapM].
  rewrite <- IH. unfold orb. rewrite as_orb_orb. done.
Qed.

Lemma elems_total (s : state S_) (l : list A) : ∃ s', AppendRow S_ s (elems elem l) = Some (s', None).
Proof.
  cbn. unfold appendPlain. generalize (appendOffset V s 0 (length (map (orb elem) l))). induction l as [|a l IH]; intros s1; [by eexists|].
  destruct (g_total G (values s1) a) as [s2 Hs2]. cbn [map append_each].
  assert (append_value V s1 (orb elem a) = Some (MkArray (offsets s1) s2, None)) as -> by (unfold append_value; by rewrite Hs2). apply IH.
Qed.

Lemma geo_AppendRow_set v : ∀ s s', geo_AppendRow (A := A) self elem S_ s v = Some (s', None) → ∃ w, AppendRow S_ s w = Some (s', None).
Proof.
  revert v. fix IH 1. intros v s s'.
  assert (∀ p, match as_orb (A := list A) self p with Some l => AppendRow S_ s (elems elem l) | None => refuse s end = Some (s', None) →
    ∃ w, AppendRow S_ s w = Some (s', None)) as Hp.
  { intros p. destruct (as_orb self p) as [l|]; [|done]. intros Hl. by exists (elems elem l). }
  destruct v as [|p|u p|u|[|p|u p|u|w|u l|k v|k v l|l|l|fs|[r|]|l]|u l|k v|k v l|l|l|fs|[r|]|l];
    try (apply (IH r)); clear IH; cbn [geo_AppendRow]; try done; try apply Hp.
  unfold nil_pointer. destruct u as [| | | | | | | | | |[]]; try done. by destruct (decide _).
Qed.

Lemma set_prefix (s : state S_) : write_prefix S_ s = Ok [] ∧ ∀ rest, read_prefix S_ (fresh S_) rest = Ok (fresh S_, rest).
Proof. unfold write_prefix, read_prefix. cbn. unfold write_prefix, read_prefix. rewrite (g_custom G). done. Qed.

Abbreviation G_ := (GeoColumn (A := A) self elem S_ name t).

Lemma geo_AppendRow_orb (s : state S_) (l : list A) : AppendRow G_ s (orb self l) = AppendRow S_ s (elems elem l).
Proof. cbn [AppendRow GeoColumn]. unfold orb at 1. cbn [geo_AppendRow]. by rewrite as_orb_orb. Qed.

Definition geo_stored (v : value) : value :=
  match v with VPrim p => orb self (default ([] : list A) (as_orb self p)) | _ => VNil end.

Lemma geo_Row_eq (s : state S_) i : Row G_ s i = v ← Row S_ s i; Some (orb self (geo_slice (A := A) elem v)).
Proof. done. Qed.

Program Definition geo_laws : Laws G_ := {|
  wf := (wf S_ : state G_ → Prop);
  fits := (fits S_ : state G_ → Prop);
  accepts := λ v, ∃ l, v = orb self l ∧ Forall ok l;
  stored := geo_stored
|}.
Next Obligation. exact (law_fresh (I := S_)). Qed.
Next Obligation. exact (law_reset (I := S_)). Qed.
Next Obligation. intros s i Hs Hi. destruct (law_row (I := S_) s i Hs Hi) as [x Hx]. rewrite geo_Row_eq, Hx. done. Qed.
Next Obligation. intros s v s' (w & Hw)%geo_AppendRow_set. exact (law_grows (I := S_) _ _ _ Hw). Qed.
Next Obligation.
  intros s v s' Hs (l & -> & Hl) Ha Hf. rewrite geo_AppendRow_orb in Ha.
  destruct (law_append (I := S_) s (elems elem l) s' Hs (elems_accepted l Hl) Ha Hf) as (A1 & A2 & A3 & A4).
  split; [done|]. split; [done|]. split.
  - intros i Hi. by rewrite !geo_Row_eq, A3.
  - rewrite geo_Row_eq. change (Rows G_ s) with (Rows S_ s). rewrite A4. cbn [mbind option_bind]. rewrite elems_stored, geo_slice_back. unfold geo_stored. unfold orb at 2. by rewrite as_orb_orb.
Qed.
Next Obligation. exact (law_empty (I := S_)). Qed.
Next Obligation.
  intros s p Hs Hf [= <-]. destruct (set_prefix s) as [E1 E2].
  destruct (law_codec (I := S_) s [] Hs Hf E1) as (s1 & B1 & B2 & B3 & s2 & B4 & B5 & B6 & B7).
  specialize (B1 []) as B0. cbn [app] in B0. rewrite E2 in B0. injection B0 as <-.
  exists (fresh S_). split; [done|]. split; [done|]. split; [done|]. exists s2. split; [done|]. split; [done|]. split; [done|].
  intros i Hi. by rewrite !geo_Row_eq, B7.
Qed.

Definition geo_geometry : geometry G_ self (Forall ok).
Proof.
  refine {| g_laws := geo_laws |}.
  - done.
  - intros l Hl. by exists l.
  - intros l. cbn [stored geo_laws geo_stored orb]. by rewrite as_orb_orb.
  - intros s l. rewrite geo_AppendRow_orb. apply elems_total.
Defined.
End wrapped.

Definition ring_ok : list point → Prop := Forall point_ok.
Definition polygon_ok : list (list point) → Prop := Forall ring_ok.
Definition multi_ok : list (list (list point)) → Prop := Forall polygon_ok.

Definition ring_geometry name : geometry (RingColumn name) orb_Ring ring_ok :=
  geo_geometry (PointColumn name) orb_Ring orb_Point point_ok (point_geometry name) name (str "Ring").
Definition polygon_geometry name : geometry (PolygonColumn name) orb_Polygon polygon_ok :=
  geo_geometry (RingColumn name) orb_Polygon orb_Ring ring_ok (ring_geometry name) name (str "Polygon").
Definition multi_polygon_geometry name : geometry (MultiPolygonColumn name) orb_MultiPolygon multi_ok :=
  geo_geometry (PolygonColumn name) orb_MultiPolygon orb_Polygon polygon_ok (polygon_geometry name) name (str "MultiPolygon").
Definition line_geometry name : geometry (LineStringColumn name) orb_LineString ring_ok :=
  geo_geometry (PointColumn name) orb_LineString orb_Point point_ok (point_geometry name) name (str "LineString").
Definition multi_line_geometry name : geometry (MultiLineStringColumn name) orb_MultiLineString polygon_ok :=
  geo_geometry (LineStringColumn name) orb_MultiLineString orb_LineString ring_ok (line_geometry name) name (str "MultiLineString").

(** A list of geometries is appended, and read back on the other side when the counts fit
    the wire. *)
Definition survives {A} `{Countable A} (C : Interface) (LC : Laws C) (n : gostring) (l : list A) : Prop :=
  ∃ s, append_each (AppendRow C) (fresh C) (map (orb n) l) = Some (s, None)
  ∧ (@fits C LC s → ∃ s2, (∀ rest, Decode C (fresh C) (length l) (Encode C s ++ rest) = Ok (s2, rest))
       ∧ ∀ i a, l !! i = Some a → Row C s2 i = Some (orb n a)).

Lemma geometry_survives {A} `{Countable A} C n ok (G : geometry (A := A) C n ok) l : Forall ok l → survives C (g_laws G) n l.
Proof.
  intros Hl. set (LC := g_laws G).
  assert (∀ s0, ∃ s, append_each (AppendRow C) s0 (map (orb n) l) = Some (s, None)) as Htot.
  { clear Hl. induction l as [|a l IH]; intros s0; [by eexists|]. cbn [map append_each]. destruct (g_total G s0 a) as [s1 ->]. apply IH. }
  destruct (Htot (fresh C)) as [s Hs]. exists s. split; [done|]. intros Hf.
  destruct (law_fresh (I := C)) as [F1 F2].
  destruct (append_each_rows C (map (orb n) l) (fresh C) s F1) as (R1 & R2 & _ & R4); [|done|done|].
  { apply Forall_map. eapply Forall_impl; [exact Hl|]. intros a. apply (g_accepts G). }
  rewrite F2, length_map in R2. cbn in R2.
  assert (write_prefix C s = Ok []) as Ew by (unfold write_prefix; by rewrite (g_custom G)).
  destruct (law_codec s [] R1 Hf Ew) as (s1 & B1 & _ & _ & s2 & B4 & _ & _ & B7).
  specialize (B1 []). unfold read_prefix in B1. rewrite (g_custom G) in B1. injection B1 as <-. rewrite R2 in B4, B7.
  exists s2. split; [done|]. intros i a Hi. rewrite B7 by (by eapply lookup_lt_Some).
  specialize (R4 i (orb n a)). rewrite F2 in R4. cbn [Nat.add] in R4. rewrite R4 by (by rewrite list_lookup_fmap, Hi). f_equal. apply (g_stored G).
Qed.

(** Geometries survive.  Points, rings, polygons, multi-polygons, lines and multi-lines
    with any numbers of parts, empty ones too, are always accepted and are read back as they
    were, the arrays inside one another included. *)
Theorem geometries_survive (name : gostring) (points : list point) (rings : list (list point)) (polygons : list (list (list point)))
  (multis : list (list (list (list point)))) :
  Forall point_ok points → Forall ring_ok rings → Forall polygon_ok polygons → Forall multi_ok multis →
  survives (PointColumn name) (g_laws (point_geometry name)) orb_Point points
  ∧ survives (RingColumn name) (g_laws (ring_geometry name)) orb_Ring rings
  ∧ survives (PolygonColumn name) (g_laws (polygon_geometry name)) orb_Polygon polygons
  ∧ survives (MultiPolygonColumn name) (g_laws (multi_polygon_geometry name)) orb_MultiPolygon multis
  ∧ survives (LineStringColumn name) (g_laws (line_geometry name)) orb_LineString rings
  ∧ survives (MultiLineStringColumn name) (g_laws (multi_line_geometry name)) orb_MultiLineString polygons.
Proof.
  intros H1 H2 H3 H4. split; [by apply geometry_survives|]. split; [by apply geometry_survives|]. split; [by apply geometry_survives|].
  split; [by apply geometry_survives|]. split; by apply geometry_survives.
Qed.
End laws.

(** ** An example, and limits *)

(** The points as two vectors, of which the second follows the first. *)
#[global] Instance two_vectors : PointVec := {
  PutPoints l := PutVec (Wire := leb) 8 l.*1 ++ PutVec (Wire := leb) 8 l.*2;
  RPoints n b := '(xs, b) ← RVec (Wire := leb) 8 n b; '(ys, b) ← RVec (Wire := leb) 8 n b; Some (zip xs ys, b)
}.

#[global] Instance two_vectors_laws : PointLaws two_vectors.
Proof.
  split; [done|]. intros l rest Hl. unfold PutPoints, RPoints, two_vectors. rewrite <- app_assoc.
  assert (Forall (uint 8) l.*1 ∧ Forall (uint 8) l.*2) as [H1 H2].
  { split; apply Forall_fmap; (eapply Forall_impl; [exact Hl|]); intros p [? ?]; done. }
  rewrite <- (length_fmap fst l) at 1. rewrite reads_Vec by (lia || done). cbn [mbind option_bind].
  rewrite <- (length_fmap snd l) at 1. rewrite reads_Vec by (lia || done). cbn [mbind option_bind].
  by rewrite zip_fst_snd.
Qed.

Definition demo_square : list point := [(0, 0); (4607182418800017408, 0); (0, 0)].
Definition demo_polygons : list (list (list point)) := [[demo_square; []]; []].

Lemma demo_polygons_ok : Forall polygon_ok demo_polygons.
Proof.
  assert (Forall point_ok demo_square) as Hs by (repeat (constructor; [split; unfold uint; cbn; lia|]); constructor).
  constructor; [|constructor; constructor]. constructor; [exact Hs|]. constructor; constructor.
Qed.

Abbreviation demo_geo := (PolygonColumn (W := leb) []).
Definition geo_state : state demo_geo := MkArray (V := RingColumn (W := leb) []) [[2; 2]] (MkArray (V := PointColumn []) [[3; 3]] demo_square).

Lemma geometries_survive_witness :
  ∃ s2, append_each (AppendRow demo_geo) (fresh demo_geo) (map (orb orb_Polygon) demo_polygons) = Some (geo_state, None)
    ∧ Decode demo_geo (fresh demo_geo) 2 (Encode demo_geo geo_state) = Ok (s2, [])
    ∧ Row demo_geo s2 0 = Some (orb orb_Polygon [demo_square; []])
    ∧ Row demo_geo s2 1 = Some (orb orb_Polygon ([] : list (list point))).
Proof.
  destruct (geometries_survive (W := leb) [] [] [] demo_polygons []) as (_ & _ & (s & Hs & Hf) & _).
  - constructor.
  - constructor.
  - exact demo_polygons_ok.
  - constructor.
  - assert (append_each (AppendRow demo_geo) (fresh demo_geo) (map (orb orb_Polygon) demo_polygons) = Some (geo_state, None)) as E
      by reflexivity.
    rewrite E in Hs. injection Hs as <-.
    destruct Hf as (s2 & D & R).
    + split; [repeat constructor|]. split; [done|]. split; [repeat constructor|]. split; [done|]. repeat constructor.
    + exists s2. split; [done|]. split; [rewrite <- (app_nil_r (Encode _ _)); apply D|]. split; by apply R.
Defined.

(** A nil pointer is an empty geometry in a slice, and a panic as a row. *)
Lemma nil_geometries_differ :
  AppendRow (PointColumn []) [] (VNilPtr (GOrb orb_Point)) = None
  ∧ Append (PointColumn []) [] (VSlice (GPtr (GOrb orb_Point)) [VNilPtr (GOrb orb_Point)]) = Some ([(0, 0)], Ok (Some [1]))
  ∧ AppendRow (RingColumn (W := leb) []) (fresh (RingColumn (W := leb) [])) (VNilPtr (GOrb orb_Ring)) = None.
Proof. by repeat split. Qed.
