(* ===== verification/ColumnQBit.v ===== *)
(** * Columns of vectors ([lib/column/qbit.go])

    A QBit column holds vectors of one dimension.  The bits are laid out by [proto.ColQBit]
    of ch-go, which is an argument: whether it takes a vector, what it keeps of it (with the
    element type BFloat16 the precision is lower), and its bytes.  A float is its bits; an
    element that is a nil slice is [VNil]. *)

From Stdlib Require Import ZifyBool.
From S2P Require Import Prelude GoStd Wire Column ColumnLaws ColumnLeaf ColumnCell.
Local Open Scope Z_scope.
#[local] Set Warnings "-register-all".

(** [ParseQBitType], [ColQBit] and the conversion of float64 to float32. *)
Class ColQBit := {
  ParseQBitType : gostring → option (gostring * nat);
  NewColQBit : gostring → nat → bool;
  qbit_store : gostring → nat → list Z → option (list Z);
  qbit_put : gostring → nat → list (list Z) → gostring;
  qbit_read : gostring → nat → nat → gostring → option (list (list Z) * gostring);
  float32 : Z → Z
}.

Record QBit := MkQBit { elementType : gostring; dimension : nat }.

Section qbit.
Context {Q : ColQBit}.

Definition qbit_parse (t : gostring) : option QBit :=
  '(e, n) ← ParseQBitType t;
  if NewColQBit e n then Some (MkQBit e n) else None.

Variable q : QBit.

(** [col.col.Append]. *)
Definition qbit_add (s : list (list Z)) (vec : list Z) : option (list (list Z) * option cerr) :=
  match qbit_store (elementType q) (dimension q) vec with
  | Some vec => Some (s ++ [vec], None)
  | None => refuse s
  end.

Definition float_bits (v : value) : Z := match v with VPrim (PFloat _ b) | VPtr (VPrim (PFloat _ b)) => b | _ => 0 end.

(** The vector of a slice, [None] for other types.  A nil pointer counts as zero; the values
    of float64 are narrowed. *)
Definition qbit_vec (v : value) : option (list Z) :=
  match v with
  | VSlice (GFloat 4) l => Some (map float_bits l)
  | VSlice (GFloat 8) l => Some (map (λ x, float32 (float_bits x)) l)
  | VSlice (GPtr (GFloat 4)) l => Some (map float_bits l)
  | VSlice (GPtr (GFloat 8)) l => Some (map (λ x, if nil_mark x =? 1 then 0 else float32 (float_bits x)) l)
  | _ => None
  end.

Definition zeroVec : list Z := replicate (dimension q) 0.

Fixpoint qbit_AppendRow (s : list (list Z)) (v : value) {struct v} : option (list (list Z) * option cerr) :=
  match v with
  | VSlice _ _ => match qbit_vec v with Some vec => qbit_add s vec | None => refuse s end
  | VPtr (VSlice (GFloat w) l) => match qbit_vec (VSlice (GFloat w) l) with Some vec => qbit_add s vec | None => refuse s end
  | VNilPtr (GSlice (GFloat (4 | 8))) | VNil => qbit_add s zeroVec
  | VNilPtr (GNull _ | GExt (KUUID | KDecimal)) => None
  | VNullable _ None | VPtr (VNullable _ None) => qbit_add s zeroVec
  | VValuer (Some w) | VPtr (VValuer (Some w)) => qbit_AppendRow s w
  | _ => refuse s
  end.

(** The elements of [[][]*float32], nil slices with a mark. *)
Definition qbit_elem (v : value) : list Z := match v with VSlice _ l => map float_bits l | _ => zeroVec end.
Definition qbit_mark (v : value) : Z := match v with VNil => 1 | _ => 0 end.

Definition add_each (s : list (list Z)) (l : list (list Z)) (marks : option (list Z)) : option (list (list Z) * result cerr (option (list Z))) :=
  '(s, e) ← append_each qbit_add s l; Some (s, match e with Some e => Err e | None => Ok marks end).

Fixpoint qbit_Append (s : list (list Z)) (v : value) {struct v} : option (list (list Z) * result cerr (option (list Z))) :=
  match v with
  | VSlice (GSlice (GFloat 4)) l => add_each s (map (λ x, match x with VSlice _ e => map float_bits e | _ => [] end) l) None
  | VSlice (GSlice (GFloat 8)) l => add_each s (map (λ x, match x with VSlice _ e => map (λ y, float32 (float_bits y)) e | _ => [] end) l) None
  | VSlice (GSlice (GPtr (GFloat 4))) l => add_each s (map qbit_elem l) (Some (map qbit_mark l))
  | VValuer (Some w) | VPtr (VValuer (Some w)) => qbit_Append s w
  | VNilPtr (GNull _ | GExt (KUUID | KDecimal)) => None
  | _ => Some (s, Err ColumnConverterError)
  end.

(** The rows are vectors of float32. *)
Definition QBitColumn (name t : gostring) : Interface :=
  ListColumn (λ vec, VSlice (GFloat 4) (map (λ b, VPrim (PFloat 4 b)) vec)) (GSlice (GFloat 4)) qbit_AppendRow qbit_Append
    (qbit_put (elementType q) (dimension q)) (qbit_read (elementType q) (dimension q)) name t.

(** ** Vectors survive *)

Lemma qbit_add_pushes s vec s' : qbit_add s vec = Some (s', None) → ∃ x, s' = s ++ [x] ∧ qbit_add [] vec = Some ([x], None).
Proof. unfold qbit_add. destruct (qbit_store _ _ vec) as [x|]; [|done]. intros [= <-]. by exists x. Qed.

Lemma qbit_pushes : pushes qbit_AppendRow.
Proof.
  intros s v. revert v s. fix IH 1. intros v s s'.
  assert (∀ o, match o with Some vec => qbit_add s vec | None => refuse s end = Some (s', None) →
    ∃ x, s' = s ++ [x] ∧ match o with Some vec => qbit_add [] vec | None => refuse [] end = Some ([x], None)) as Ho.
  { intros [vec|]; [|done]. apply qbit_add_pushes. }
  destruct v as [|p|t p|t|[|p|t p|t|w|t l|k v|k v l|l|l|fs|[r|]|l]|t l|k v|k v l|l|l|fs|[r|]|l];
    try (apply (IH r)); clear IH; cbn [qbit_AppendRow]; try done; try apply Ho; try apply qbit_add_pushes.
  - destruct p; [done|]. apply qbit_add_pushes.
  - destruct t as [|[|[|[|[|[|[|[|[|w]]]]]]]]| | | | | |[]| | |[]]; try done; try apply qbit_add_pushes;
      repeat (case_match; try done; try apply qbit_add_pushes).
  - destruct p; [done|]. apply qbit_add_pushes.
  - destruct t; try done. apply Ho.
Qed.

(** A vector as the column keeps it. *)
Definition kept_vec (x : list Z) : Prop := ∃ vec, qbit_store (elementType q) (dimension q) vec = Some x.
End qbit.

Class ColQBitLaws (Q : ColQBit) : Prop := {
  qbit_put_nil : ∀ e n, qbit_put e n [] = [];
  qbit_reads : ∀ e n l rest, Forall (kept_vec (MkQBit e n)) l → qbit_read e n (length l) (qbit_put e n l ++ rest) = Some (l, rest)
}.

Section laws.
Context {Q : ColQBit} {QL : ColQBitLaws Q}.
Variable q : QBit.

#[export] Instance qbit_laws name t : Laws (QBitColumn q name t).
Proof.
  refine (list_laws _ _ _ _ _ _ _ _ (kept_vec q) (λ _, True) (qbit_pushes q) (qbit_put_nil _ _) _).
  intros l rest Hl _. destruct q. by apply qbit_reads.
Defined.

Definition float_slice (w : nat) (vec : list Z) : value := VSlice (GFloat w) (map (λ b, VPrim (PFloat w b)) vec).

(** A vector of float32 is read back as ch-go keeps it, one of float64 after narrowing; nil is
    the zero vector. *)
Lemma vectors_survive name t s vec x : Forall (kept_vec q) s → qbit_store (elementType q) (dimension q) vec = Some x →
  reads_as (QBitColumn q name t) s (float_slice 4 vec) (float_slice 4 x)
  ∧ (∀ wide, map float32 wide = vec → reads_as (QBitColumn q name t) s (float_slice 8 wide) (float_slice 4 x))
  ∧ (vec = zeroVec q → reads_as (QBitColumn q name t) s VNil (float_slice 4 x)).
Proof.
  intros Hs Hx.
  assert (∀ v, AppendRow (QBitColumn q name t) s v = qbit_add q s vec → reads_as (QBitColumn q name t) s v (float_slice 4 x)) as H.
  { intros v Hv. assert (Forall (kept_vec q) (s ++ [x])) as Hk by (apply Forall_app; split; [done|constructor; [by exists vec|constructor]]).
    exists (s ++ [x]). split; [rewrite Hv; unfold qbit_add; by rewrite Hx|]. split; [cbn; rewrite length_app; cbn; lia|].
    intros rest. exists (s ++ [x]). split.
    - cbn -[length]. destruct q. rewrite qbit_reads by done. done.
    - cbn. by rewrite list_lookup_middle. }
  assert (∀ w l, map (λ y, y) (map float_bits (map (λ b, VPrim (PFloat w b)) l)) = l) as E.
  { intros w l. rewrite !map_map. cbn. by rewrite map_id. }
  split; [|split].
  - apply H. cbn. by rewrite <- (E 4%nat vec) at 2; rewrite map_id.
  - intros wide Hw. apply H. cbn. rewrite map_map. cbn. change (map (λ x0, float32 x0) wide) with (map float32 wide). by rewrite Hw.
  - intros ->. by apply H.
Qed.
End laws.

(** A nil pointer in a vector of float32 is zero, and a nil vector in a slice is marked. *)
Lemma nil_vectors `{ColQBit} q s : dimension q = 2%nat → (∀ v, qbit_store (elementType q) 2 v = Some v) →
  qbit_AppendRow q s (VSlice (GPtr (GFloat 4)) [VNilPtr (GFloat 4); VPtr (VPrim (PFloat 4 7))]) = Some (s ++ [[0; 7]], None)
  ∧ qbit_Append q s (VSlice (GSlice (GPtr (GFloat 4))) [VNil]) = Some (s ++ [[0; 0]], Ok (Some [1])).
Proof.
  intros Hd Hst. unfold qbit_AppendRow, qbit_Append, add_each. cbn. unfold qbit_add, zeroVec. rewrite !Hd. cbn. by rewrite !Hst.
Qed.
