(* ===== verification/OrderedMap.v ===== *)
(** * Ordered maps ([lib/column/orderedmap/orderedmap.go])

    The container offered for Map columns whose entries are to be sent in order: a slice of
    entries that is filled by [Put], sorted once, and read through an iterator.  A Go map is
    a finite map, walked in some order; [slices.SortFunc] is an argument, of which only its
    documentation is used. *)

From stdpp Require Import sorting.
From S2P Require Import Prelude.

Section ordered.
Context {K V : Type} `{Countable K}.

Abbreviation Map := (list (K * V)).

(** [Put] of a key and a value of the types of the map; others are a panic. *)
Definition om_Put (om : Map) (k : K) (v : V) : Map := om ++ [(k, v)].

(** [slices.SortFunc] with the comparison of the keys. *)
Variable SortFunc : (K → K → comparison) → Map → Map.

(** [CollectNFunc]; the number of entries to make room for changes nothing. *)
Definition CollectNFunc (seq : list (K * V)) (n : nat) (compare : K → K → comparison) : Map :=
  SortFunc compare (foldl (λ om kv, om_Put om kv.1 kv.2) [] seq).
Definition CollectFunc (seq : list (K * V)) (compare : K → K → comparison) : Map := CollectNFunc seq 8 compare.

(** [FromMapFunc]: [walk] is the order in which the map is walked. *)
Definition FromMapFunc (walk : gmap K V → list (K * V)) (m : gmap K V) (compare : K → K → comparison) : Map :=
  SortFunc compare (foldl (λ om kv, om_Put om kv.1 kv.2) [] (walk m)).

Definition ToMap (om : Map) : gmap K V := foldl (λ m e, <[e.1 := e.2]> m) ∅ om.

(** [All], [Keys] and [Values]: [yield] says whether to go on; what it has seen is the
    state. *)
Fixpoint All {S} (yield : S → K → V → S * bool) (om : Map) (s : S) : S :=
  match om with
  | [] => s
  | (k, v) :: om => let '(s, go) := yield s k v in if go : bool then All yield om s else s
  end.
Definition Keys {S} (yield : S → K → S * bool) (om : Map) (s : S) : S := All (λ s k _, yield s k) om s.
Definition Values {S} (yield : S → V → S * bool) (om : Map) (s : S) : S := All (λ s _ v, yield s v) om s.

(** The iterator of the driver: [i] is -1 at first; [Key] and [Value] are out of range before
    [Next] and after it was false. *)
Record iterator := MkIter { it_om : Map; it_i : Z }.
Definition Iterator (om : Map) : iterator := MkIter om (-1).
Definition it_Next (it : iterator) : iterator * bool :=
  let i := (it_i it + 1)%Z in (MkIter (it_om it) i, (i <? Z.of_nat (length (it_om it)))%Z).
Definition entry_at (it : iterator) : option (K * V) := if (it_i it <? 0)%Z then None else it_om it !! Z.to_nat (it_i it).
Definition it_Key (it : iterator) : option K := fst <$> entry_at it.
Definition it_Value (it : iterator) : option V := snd <$> entry_at it.

(** [for it.Next() { ... it.Key(), it.Value() ... }] *)
Fixpoint iterate (fuel : nat) (it : iterator) : option (list (K * V)) :=
  match fuel with
  | O => None
  | S fuel =>
      let '(it, more) := it_Next it in
      if more then k ← it_Key it; v ← it_Value it; l ← iterate fuel it; Some ((k, v) :: l) else Some []
  end.

(** ** The entries in order *)

Lemma iterate_from om n : ∀ i, (0 ≤ i)%nat → length om - i < n → i ≤ length om →
  iterate n (MkIter om (Z.of_nat i - 1)) = Some (drop i om).
Proof.
  induction n as [|n IH]; intros i _ Hn Hi; [lia|]. cbn [iterate it_Next it_i it_om]. replace (Z.of_nat i - 1 + 1)%Z with (Z.of_nat i) by lia.
  destruct (Z.ltb_spec (Z.of_nat i) (Z.of_nat (length om))) as [Hl|Hl].
  - destruct (lookup_lt_is_Some_2 om i ltac:(lia)) as [[k v] Hkv]. unfold it_Key, it_Value, entry_at. cbn [it_i it_om].
    replace (Z.of_nat i <? 0)%Z with false by lia. rewrite Nat2Z.id, Hkv. cbn [fmap option_fmap option_map mbind option_bind fst snd].
    specialize (IH (S i) ltac:(lia) ltac:(lia) ltac:(lia)). replace (Z.of_nat (S i) - 1)%Z with (Z.of_nat i) in IH by lia. rewrite IH. cbn.
    by rewrite (drop_S om (k, v) i Hkv).
  - rewrite drop_ge by lia. done.
Qed.

(** The iterator gives all entries, once and in order, and ends. *)
Lemma iterator_complete om : iterate (S (length om)) (Iterator om) = Some om.
Proof. apply (iterate_from om (S (length om)) 0); lia. Qed.

Lemma puts om l : foldl (λ om kv, om_Put om kv.1 kv.2) om l = om ++ l.
Proof. revert om. induction l as [|[k v] l IH]; intros om; cbn; [by rewrite app_nil_r|]. rewrite IH. unfold om_Put. by rewrite <- app_assoc. Qed.

Lemma ToMap_list om : NoDup om.*1 → ToMap om = list_to_map om.
Proof.
  intros Hnd. unfold ToMap. enough (∀ m : gmap K V, (∀ k, k ∈ om.*1 → m !! k = None) → foldl (λ m e, <[e.1 := e.2]> m) m om = list_to_map om ∪ m) as E.
  { rewrite E; [by rewrite (right_id_L ∅ (∪))|]. intros k _. apply lookup_empty. }
  revert Hnd. induction om as [|[k v] om IH]; intros Hnd m Hm; [by rewrite list_to_map_nil, (left_id_L ∅ (∪))|].
  rewrite fmap_cons in Hnd. apply NoDup_cons in Hnd as [Hk Hnd]. cbn [foldl fst snd]. rewrite IH; [|done|].
  - rewrite list_to_map_cons, <- insert_union_l, insert_union_r; [done|]. by apply not_elem_of_list_to_map_1.
  - intros q Hq. rewrite lookup_insert_ne by (intros ->; done). apply Hm. rewrite fmap_cons. set_solver.
Qed.
End ordered.

(** A comparison as [slices.SortFunc] asks for: a total order up to equal keys. *)
Record total_order {K} (compare : K → K → comparison) : Prop := {
  compare_opp : ∀ a b, compare b a = CompOpp (compare a b);
  compare_trans : ∀ a b c, compare a b ≠ Gt → compare b c ≠ Gt → compare a c ≠ Gt
}.

Section sorted.
Context {K V : Type} `{Countable K}.
Variable SortFunc : (K → K → comparison) → list (K * V) → list (K * V).
Hypothesis sort_permutes : ∀ compare l, SortFunc compare l ≡ₚ l.
Hypothesis sort_sorts : ∀ compare l, total_order compare → Sorted (λ a b, compare a.1 b.1 ≠ Gt) (SortFunc compare l).
Variable walk : gmap K V → list (K * V).
Hypothesis walk_all : ∀ m, walk m ≡ₚ map_to_list m.

(** An ordered map is the map it is made from, in order.  [FromMap] gives the entries of
    the map, each once and sorted by the comparison; the iterator that the driver uses gives
    them in that order and ends; [ToMap] gives the map back. *)
Theorem ordered_map_faithful (m : gmap K V) (compare : K → K → comparison) : total_order compare →
  let om := FromMapFunc SortFunc walk m compare in
  om ≡ₚ map_to_list m ∧ Sorted (λ a b, compare a.1 b.1 ≠ Gt) om ∧ iterate (S (size m)) (Iterator om) = Some om ∧ ToMap om = m.
Proof.
  intros Hc om. assert (om ≡ₚ map_to_list m) as Hp by (unfold om, FromMapFunc; rewrite sort_permutes, puts; apply walk_all).
  assert (NoDup om.*1) as Hn by (rewrite Hp; apply NoDup_fst_map_to_list).
  split; [done|]. split; [by apply sort_sorts|]. split.
  - rewrite <- length_map_to_list, <- Hp. apply iterator_complete.
  - rewrite ToMap_list by done. rewrite (list_to_map_proper _ _ Hn Hp). apply list_to_map_to_list.
Qed.
End sorted.

(** ** An example *)

Definition entry_le {K V} (compare : K → K → comparison) (a b : K * V) : Prop := compare a.1 b.1 ≠ Gt.
#[local] Instance entry_le_dec {K V} compare (a b : K * V) : Decision (entry_le compare a b).
Proof. unfold entry_le. apply _. Defined.

Definition merge_entries (compare : Z → Z → comparison) (l : list (Z * bool)) : list (Z * bool) := merge_sort (entry_le compare) l.

Lemma merge_entries_sorted compare l : total_order compare → Sorted (λ a b, compare a.1 b.1 ≠ Gt) (merge_entries compare l).
Proof.
  intros [Ho Ht]. assert (Total (entry_le (V := bool) compare)) as HT.
  { intros a b. unfold entry_le. rewrite (Ho a.1 b.1). destruct (compare a.1 b.1); [by left|by left|by right]. }
  apply (Sorted_merge_sort (entry_le compare)).
Qed.

Lemma Zcompare_order : total_order Z.compare.
Proof.
  split; [intros a b; apply Z.compare_antisym|]. intros a b c H1 H2. exact (Z.le_trans a b c H1 H2).
Qed.

Lemma ordered_map_faithful_witness :
  let om := FromMapFunc merge_entries map_to_list {[ 3%Z := true; 1%Z := false ]} Z.compare in
  om = [(1%Z, false); (3%Z, true)] ∧ iterate 3 (Iterator om) = Some om ∧ ToMap om = {[ 3%Z := true; 1%Z := false ]}.
Proof.
  destruct (ordered_map_faithful merge_entries (λ compare l, merge_sort_Permutation (entry_le compare) l) merge_entries_sorted map_to_list
    (λ m, reflexivity (map_to_list m)) {[ 3%Z := true; 1%Z := false ]} Z.compare Zcompare_order) as (_ & _ & H3 & H4).
  split; [by vm_compute|]. by split.
Defined.
