(* ===== verification/ColumnType.v ===== *)
(** * From type texts to columns ([lib/column/column.go], [column_gen.go], and the
      [parse] methods of the composite columns)

    [Column] is [Type.Column]: the columns of [Column.v] and [ColumnLeaf.v] are built by
    the code's own parsers; the other types are left to [other].  Types nest, so the
    recursion is bounded by [fuel].  [None] is a panic, or fuel that ran out. *)

From Stdlib Require Import ZifyBool.
From S2P Require Import Prelude GoStd Wire ProtoPackets Column ColumnLaws ColumnLeaf.
Local Open Scope Z_scope.
#[local] Set Warnings "-register-all,-level-tolerance".

(** [Type.params]. *)
Definition params (t : gostring) : gostring :=
  match strings_Index t "(", strings_LastIndex t ")" with
  | Some start, Some e =>
      if Nat.eqb start 0 || Nat.eqb e 0 || (e <? start)%nat then [] else take (e - (start + 1)) (drop (start + 1) t)
  | _, _ => []
  end.

Definition TrimSuffix (s : gostring) (b : byte) : gostring :=
  match last s with Some c => if beq c b then removelast s else s | None => s end.

(** The loop of [Array.parse]: the depth and the innermost type. *)
Fixpoint strip_arrays (fuel depth : nat) (s : gostring) : nat * gostring :=
  match fuel with
  | O => (depth, s)
  | S fuel => if HasPrefix s (str "Array(") then strip_arrays fuel (S depth) (TrimSuffix (drop 6 s) ")") else (depth, s)
  end.

(** [Map.parse]: the two parameters, split at the first comma, or behind the first
    bracket when the key is an enumeration. *)
Definition map_types (p : gostring) : gostring * gostring :=
  let idx := if HasPrefix p (str "Enum")
             then match strings_IndexSub p (str "),") with Some i => i + 1 | None => 0 end%nat
             else default 0%nat (strings_Index p ",") in
  if (0 <? idx)%nat then (take idx p, drop (idx + 1) p) else ([], []).

(** [Tuple.parse]: one element, its name if it has one. *)
Definition element_of (element : gostring) : gostring * gostring :=
  let cType := TrimSpace element in
  match strings_Cut cType x20 with
  | (a, b, true) => if strings_Contains a "(" then ([], TrimSpace cType) else (a, TrimSpace b)
  | _ => ([], TrimSpace cType)
  end.

Definition appendElement (elements : list (gostring * gostring)) (element : gostring) : list (gostring * gostring) :=
  if bool_decide (element = []) then elements else elements ++ [element_of element].

Fixpoint split_elements (brackets : Z) (element : gostring) (elements : list (gostring * gostring)) (s : gostring)
  : list (gostring * gostring) :=
  match s with
  | [] => appendElement elements element
  | r :: s =>
      if beq r "(" then split_elements (brackets + 1) (element ++ [r]) elements s
      else if beq r ")" then split_elements (brackets - 1) (element ++ [r]) elements s
      else if beq r "," && (brackets =? 0) then split_elements brackets [] (appendElement elements element) s
      else split_elements brackets (element ++ [r]) elements s
  end.

(** [nestedColumns]: [nBegin] and [begin] are positions in [raw]. *)
Fixpoint nested_loop (raw : gostring) (i nBegin begin : nat) (brackets : Z) (s : gostring) : list (gostring * gostring) :=
  match s with
  | [] => []
  | r :: s =>
      if beq r "(" then nested_loop raw (i + 1) nBegin begin (brackets + 1) s
      else if beq r ")" then nested_loop raw (i + 1) nBegin begin (brackets - 1) s
      else if beq r x20 && (brackets =? 0) then nested_loop raw (i + 1) nBegin (i + 1) brackets s
      else if beq r "," && (brackets =? 0) then
        (TrimSpace (take (begin - nBegin) (drop nBegin raw)), take (i - begin) (drop begin raw))
        :: nested_loop raw (i + 1) (i + 1) (i + 1) brackets s
      else nested_loop raw (i + 1) nBegin begin brackets s
  end.

Definition asDDL (cols : list (gostring * gostring)) : gostring :=
  strings_Join (map (λ c, c.1 ++ str " " ++ c.2) cols) (str ", ").

Fixpoint nestedColumns (fuel : nat) (raw : gostring) : list (gostring * gostring) :=
  match fuel with
  | O => []
  | S fuel =>
      map (λ c : gostring * gostring,
             if HasPrefix c.2 (str "Nested(")
             then (c.1, str "Array(Tuple(" ++ asDDL (nestedColumns fuel (params c.2)) ++ str "))")
             else c)
        (nested_loop raw 0 0 0 0 (raw ++ str ","))
  end.

(** [FixedString(n)]. *)
Definition fixed_size (t : gostring) : option nat :=
  let '(d, r) := span isDigit (drop 12 t) in
  if HasPrefix t (str "FixedString(") && negb (bool_decide (d = [])) && bool_decide (r = str ")")
  then Some (Z.to_nat (dec_val d)) else None.

(** The integer types. *)
Definition int_types : list (gostring * intkind) :=
  [(str "Int8", KInt8); (str "Int16", KInt16); (str "Int32", KInt32); (str "Int64", KInt64);
   (str "UInt8", KUint8); (str "UInt16", KUint16); (str "UInt32", KUint32); (str "UInt64", KUint64)].

Definition int_type (t : gostring) : option intkind := snd <$> List.find (λ nk, bool_decide (t = nk.1)) int_types.

(** The two switches of [Type.Column]: names, then prefixes, in their order. *)
Inductive type_class :=
| TcInt (k : intkind) | TcFloat32 | TcFloat64 | TcBool | TcString | TcMap | TcTuple | TcNested | TcArray | TcNullable
| TcFixed (n : nat) | TcSimple | TcOther.

Definition classify (t : gostring) : type_class :=
  match int_type t with
  | Some k => TcInt k
  | None =>
      if bool_decide (t = str "Float32") then TcFloat32
      else if bool_decide (t = str "Float64") then TcFloat64
      else if bool_decide (t = str "Bool") || bool_decide (t = str "Boolean") then TcBool
      else if bool_decide (t = str "String") then TcString
      else if HasPrefix t (str "Map(") then TcMap
      else if HasPrefix t (str "Tuple(") then TcTuple
      else if HasPrefix t (str "Nested(") then TcNested
      else if HasPrefix t (str "Array(") then TcArray
      else if HasPrefix t (str "Nullable") then TcNullable
      else match fixed_size t with
           | Some n => TcFixed n
           | None => if HasPrefix t (str "SimpleAggregateFunction") then TcSimple else TcOther
           end
  end.

Section types.
Context {W : Wire}.
Variable conv_float : intkind → nat → Z → Z.
Variable to_float : nat → prim → Z.
Variable duration_string : Z → gostring.
(** The columns that are not modelled: dates, decimals, addresses and so on. *)
Variable other : gostring → gostring → result cerr Interface.

(** The generated column of an integer type. *)
Definition int_column (k : intkind) (name : gostring) : Interface :=
  match k with
  | KInt8 => Int8 conv_float name
  | KInt16 => Int16 conv_float name
  | KInt32 => Int32 conv_float name
  | KInt64 | KInt => Int64 conv_float name
  | KUint8 => UInt8 conv_float name
  | KUint16 => UInt16 conv_float name
  | KUint32 => UInt32 conv_float name
  | KUint64 | KUint => UInt64 conv_float name
  end.

(** [col.index[ct.name] = i]: a later element of the same name wins. *)
Definition tuple_index (names : list gostring) : gmap gostring nat :=
  foldl (λ m ni, <[ni.1 := ni.2]> m) ∅ (zip names (seq 0 (length names))).

Definition tuple_of (name t : gostring) (l : list (gostring * Interface)) : result cerr Interface :=
  if bool_decide (length l = 0%nat) then Err (UnsupportedColumnTypeError t)
  else Ok (TupleColumn l.*2 (forallb (λ n, negb (bool_decide (n = []))) l.*1) (tuple_index l.*1) name t).

(** The columns of the elements, in order; the first error ends it. *)
Fixpoint element_columns (column : gostring → gostring → option (result cerr Interface)) (l : list (gostring * gostring))
  : option (result cerr (list (gostring * Interface))) :=
  match l with
  | [] => Some (Ok [])
  | (n, t) :: l =>
      r ← column n t;
      match r with
      | Err e => Some (Err e)
      | Ok C => rs ← element_columns column l; Some (match rs with Ok l => Ok ((n, C) :: l) | Err e => Err e end)
      end
  end.

Definition array_of (column : gostring → gostring → option (result cerr Interface)) (name t : gostring)
  : option (result cerr Interface) :=
  match strip_arrays (length t) 0 t with
  | (O, _) => Some (Err (UnsupportedColumnTypeError t))
  | (S d, s) => r ← column name s; Some (match r with Ok C => Ok (ArrayColumn C (S d) name t) | Err e => Err e end)
  end.

Fixpoint Column (fuel : nat) (name t : gostring) : option (result cerr Interface) :=
  match fuel with
  | O => None
  | S fuel =>
      match classify t with
      | TcInt k => Some (Ok (int_column k name))
      | TcFloat32 => Some (Ok (Float32 to_float name))
      | TcFloat64 => Some (Ok (Float64 to_float name))
      | TcBool => Some (Ok (BoolColumn name))
      | TcString => Some (Ok (StringColumn duration_string name))
      | TcMap =>
          match map_types (params t) with
          | ([], _) | (_, []) => Some (Err (UnsupportedColumnTypeError t))
          | (kt, vt) =>
              k ← Column fuel name (TrimSpace kt);
              match k with
              | Err e => Some (Err e)
              | Ok K =>
                  v ← Column fuel name (TrimSpace vt);
                  Some (match v with
                        | Err e => Err e
                        | Ok V => if Comparable (ScanType K) then Ok (MapColumn K V name t)
                                  else Err (UnsupportedColumnTypeError t) end)
              end
          end
      | TcTuple =>
          r ← element_columns (Column fuel) (split_elements 0 [] [] (params t));
          Some (match r with Ok l => tuple_of name t l | Err e => Err e end)
      | TcNested =>
          r ← array_of (Column fuel) name (str "Array(Tuple(" ++ asDDL (nestedColumns (length t) (params t)) ++ str "))");
          Some (match r with Ok C => Ok (Nested C) | Err e => Err e end)
      | TcArray => array_of (Column fuel) name t
      | TcNullable =>
          r ← Column fuel name (params t);
          Some (match r with Ok B => Ok (NullableColumn B true name) | Err e => Err e end)
      | TcFixed n => Some (Ok (FixedStringColumn duration_string n name))
      | TcSimple =>
          match strings_Cut (params t) "," with
          | (_, b, true) =>
              r ← Column fuel name (TrimSpace b);
              Some (match r with Ok C => Ok (SimpleAggregateFunction C name t)
                    | Err _ => Err (UnsupportedColumnTypeError t) end)
          | _ => None
          end
      | TcOther => Some (other name t)
      end
  end.

(** ** Types as trees *)

Inductive ty :=
| TInt (k : intkind)
| TFloat32
| TFloat64
| TBool
| TString
| TFixed (n : nat)
| TNullable (t : ty)
| TArray (d : nat) (t : ty)                   (* [d + 1] levels *)
| TMap (k v : ty)
| TTuple (l : list (gostring * ty))           (* an empty name: an unnamed element *)
| TSimple (f : gostring) (t : ty)
| TOther (t : gostring).

Definition int_name (k : intkind) : gostring :=
  match k with
  | KInt8 => str "Int8" | KInt16 => str "Int16" | KInt32 => str "Int32" | KInt64 => str "Int64"
  | KUint8 => str "UInt8" | KUint16 => str "UInt16" | KUint32 => str "UInt32" | KUint64 => str "UInt64"
  | KInt | KUint => []
  end.

Definition in_brackets (s : gostring) : gostring := "("%byte :: s ++ str ")".

Fixpoint arrays (d : nat) (s : gostring) : gostring :=
  match d with O => s | S d => str "Array" ++ in_brackets (arrays d s) end.

Definition element_text (n t : gostring) : gostring := if bool_decide (n = []) then t else n ++ x20 :: t.

(** The text the server writes. *)
Fixpoint type_text (t : ty) : gostring :=
  match t with
  | TInt k => int_name k
  | TFloat32 => str "Float32"
  | TFloat64 => str "Float64"
  | TBool => str "Bool"
  | TString => str "String"
  | TFixed n => str "FixedString" ++ in_brackets (FormatUint (Z.of_nat n))
  | TNullable t => str "Nullable" ++ in_brackets (type_text t)
  | TArray d t => arrays (S d) (type_text t)
  | TMap k v => str "Map" ++ in_brackets (type_text k ++ str ", " ++ type_text v)
  | TTuple l => str "Tuple" ++ in_brackets (strings_Join (map (λ nt, element_text nt.1 (type_text nt.2)) l) (str ", "))
  | TSimple f t => str "SimpleAggregateFunction" ++ in_brackets (f ++ str ", " ++ type_text t)
  | TOther t => t
  end.

(** The column a type stands for. *)
Fixpoint column_of (name : gostring) (t : ty) : result cerr Interface :=
  match t with
  | TInt k => Ok (int_column k name)
  | TFloat32 => Ok (Float32 to_float name)
  | TFloat64 => Ok (Float64 to_float name)
  | TBool => Ok (BoolColumn name)
  | TString => Ok (StringColumn duration_string name)
  | TFixed n => Ok (FixedStringColumn duration_string n name)
  | TNullable t => B ← column_of name t; Ok (NullableColumn B true name)
  | TArray d t' => C ← column_of name t'; Ok (ArrayColumn C (S d) name (type_text t))
  | TMap k v =>
      K ← column_of name k; V ← column_of name v;
      if Comparable (ScanType K) then Ok (MapColumn K V name (type_text t)) else Err (UnsupportedColumnTypeError (type_text t))
  | TTuple l =>
      cs ← foldr (λ nc r, C ← nc.2; cs ← r; Ok ((nc.1, C) :: cs)) (Ok []) (map (λ nt, (nt.1, column_of nt.1 nt.2)) l);
      tuple_of name (type_text t) cs
  | TSimple f t' =>
      match column_of name t' with
      | Ok C => Ok (SimpleAggregateFunction C name (type_text t))
      | Err _ => Err (UnsupportedColumnTypeError (type_text t))
      end
  | TOther t => other name t
  end.

Fixpoint ty_depth (t : ty) : nat :=
  match t with
  | TNullable t | TArray _ t | TSimple _ t => S (ty_depth t)
  | TMap k v => S (Nat.max (ty_depth k) (ty_depth v))
  | TTuple l => S (foldr Nat.max 0%nat (map (λ nt, ty_depth nt.2) l))
  | _ => 1%nat
  end.

(** Bytes that mean nothing to the parsers. *)
Definition inert (b : byte) : bool := graphic b && negb (beq b "(" || beq b ")" || beq b ",").

(** A word, or a word with parameters that have no brackets themselves. *)
Definition no_bracket (b : byte) : bool := negb (beq b "(" || beq b ")").
Definition other_text (t : gostring) : bool :=
  match span inert t with
  | ([], _) => false
  | (_, []) => true
  | (_, o :: args) => beq o "(" && bool_decide (last args = Some ")"%byte) && forallb no_bracket (removelast args)
  end.

(** The types whose text can be read: the key of a map has no comma in it and is no
    enumeration; names of elements are plain words. *)
Fixpoint ty_ok (t : ty) : Prop :=
  match t with
  | TInt k => k ≠ KInt ∧ k ≠ KUint
  | TFloat32 | TFloat64 | TBool | TString | TFixed _ => True
  | TNullable t => ty_ok t
  | TArray _ t => ty_ok t ∧ HasPrefix (type_text t) (str "Array(") = false
  | TMap k v => ty_ok k ∧ ty_ok v ∧ ","%byte ∉ type_text k ∧ HasPrefix (type_text k) (str "Enum") = false
  | TTuple l => l ≠ [] ∧ foldr and True (map (λ nt, (forallb inert nt.1 = true) ∧ ty_ok nt.2) l)
  | TSimple f t => (forallb inert f = true) ∧ f ≠ [] ∧ ty_ok t
  | TOther t => other_text t = true ∧ classify t = TcOther
  end.
End types.

(** ** Reading types *)

Lemma params_brackets pre s : "("%byte ∉ pre → pre ≠ [] → params (pre ++ in_brackets s) = s.
Proof.
  intros Hp Hne. unfold params, in_brackets. rewrite Index_found by done.
  assert (pre ++ "("%byte :: s ++ str ")" = (pre ++ "("%byte :: s) ++ ")"%byte :: []) as E by by rewrite <- app_assoc.
  assert (length pre ≠ 0)%nat as Hl by (by destruct pre).
  rewrite E at 1. rewrite LastIndex_found by set_solver. rewrite length_app. cbn [length].
  rewrite !(proj2 (Nat.eqb_neq _ 0)), (proj2 (Nat.ltb_ge _ _)) by lia. cbn [orb].
  rewrite drop_app_add. cbn [drop]. rewrite drop_0.
  replace (length pre + S (length s) - (length pre + 1))%nat with (length s) by lia. by rewrite take_app_length.
Qed.

(** Text the loop over tuple elements runs through from bracket level [n] on. *)
Definition passes (n : Z) (s : gostring) : Prop :=
  ∀ br el els rest, n ≤ br → split_elements br el els (s ++ rest) = split_elements br (el ++ s) els rest.

Lemma passes_app n s t : passes n s → passes n t → passes n (s ++ t).
Proof. intros Hs Ht br el els rest Hbr. by rewrite <- app_assoc, Hs, Ht, <- app_assoc by done. Qed.

Lemma passes_mono n m s : n ≤ m → passes n s → passes m s.
Proof. intros Hnm Hs br el els rest Hbr. apply Hs. lia. Qed.

Lemma passes_inert s : forallb inert s = true → passes 0 s.
Proof.
  induction s as [|b s IH]; intros H br el els rest Hbr; [by rewrite app_nil_r|].
  cbn in H. apply andb_prop in H as [Hb Hs]. cbn [app split_elements].
  unfold inert in Hb. apply andb_prop in Hb as [_ Hb].
  destruct (beq b "("), (beq b ")"), (beq b ","); try done. cbn [andb].
  rewrite IH by done. by rewrite <- app_assoc.
Qed.

Lemma passes_space : passes 0 [x20].
Proof. intros br el els rest Hbr. done. Qed.

Lemma passes_comma : passes 1 (str ", ").
Proof.
  intros br el els rest Hbr. cbn. assert (br =? 0 = false) as -> by lia. cbn. by rewrite <- app_assoc.
Qed.

Lemma passes_brackets s : passes 1 s → passes 0 (in_brackets s).
Proof.
  intros Hs br el els rest Hbr. unfold in_brackets. cbn [app split_elements]. rewrite beq_refl, <- app_assoc, Hs by lia.
  cbn. rewrite <- !app_assoc. cbn. by replace (br + 1 - 1) with br by lia.
Qed.

(** What every text of a type has: no spaces around it, balanced brackets with the commas
    inside them, and no space before the first bracket. *)
Record good (s : gostring) : Prop := {
  good_trimmed : trimmed s;
  good_passes : passes 0 s;
  good_word : ∀ a b, strings_Cut s x20 = (a, b, true) → "("%byte ∈ a
}.

Lemma inert_not_space s : forallb inert s = true → x20 ∉ s ∧ "("%byte ∉ s ∧ ","%byte ∉ s ∧ Forall (λ b, graphic b = true) s.
Proof.
  intros H. rewrite forallb_forall in H.
  assert (∀ b, b ∈ s → inert b = true) as H' by (intros b Hb; apply H; by apply list_elem_of_In).
  split; [intros Hb; by apply H' in Hb|]. split; [intros Hb; by apply H' in Hb|]. split; [intros Hb; by apply H' in Hb|].
  apply Forall_forall. intros b Hb. apply H' in Hb. unfold inert in Hb. by apply andb_prop in Hb as [? _].
Qed.

Lemma good_inert s : forallb inert s = true → s ≠ [] → good s.
Proof.
  intros Hs Hne. destruct (inert_not_space s Hs) as (H1 & _ & _ & H2). constructor.
  - by apply trimmed_graphic.
  - by apply passes_inert.
  - intros a b. by rewrite Cut_missing.
Qed.

Lemma good_brackets pre s : forallb inert pre = true → pre ≠ [] → passes 1 s → good (pre ++ in_brackets s).
Proof.
  intros Hp Hne Hs. destruct (inert_not_space pre Hp) as (H1 & _ & _ & H2). constructor.
  - unfold in_brackets. rewrite (app_comm_cons s (str ")") "("%byte), (app_assoc pre).
    rewrite <- (app_assoc pre). apply (trimmed_app pre ("("%byte :: s) (str ")")); [by apply trimmed_graphic|].
    by apply trimmed_graphic; [|repeat constructor].
  - apply passes_app; [by apply passes_inert|by apply passes_brackets].
  - intros a b. unfold strings_Cut, in_brackets.
    destruct (span (not_byte x20) (pre ++ "("%byte :: s ++ str ")")) as [m r] eqn:E.
    assert (pre ++ ["("%byte] `prefix_of` m) as [k Hk].
    { revert m r E H1. clear. generalize (s ++ str ")"). clear s. intros s. induction pre as [|c pre IH]; intros m r E Hc.
      - cbn [app span] in E. change (not_byte x20 "("%byte) with true in E. cbv iota in E.
        destruct (span (not_byte x20) s) as [m' r']. injection E as <- <-. by exists m'.
      - apply not_elem_of_cons in Hc as [Hc1 Hc2]. cbn [app span] in E. unfold not_byte at 1 in E.
        rewrite beq_ne in E by done. cbn [negb] in E.
        destruct (span (not_byte x20) (pre ++ "("%byte :: s)) as [m' r'] eqn:E'. injection E as <- <-.
        destruct (IH _ _ eq_refl Hc2) as [k ->]. by exists k. }
    destruct r as [|c r]; [done|]. intros [= <- <-]. subst m. set_solver.
Qed.
Example Column_examples {W : Wire} cf tf ds other :
  (Column cf tf ds other 9 (str "c") (str "Map(String, Array(Array(Nullable(UInt8))))")
     ≫= λ r, match r with Ok C => Some (ScanType C) | Err _ => None end)
  = Some (GMap GString (GSlice (GSlice (GPtr (GInt KUint8)))))
  ∧ Column cf tf ds other 9 (str "c") (str "SimpleAggregateFunction") = None
  ∧ nestedColumns 9 (str "a String, b Nested(c Int8, d Map(String, UInt8))")
    = [(str "a", str "String"); (str "b", str "Array(Tuple(c Int8, d Map(String, UInt8)))")].
Proof. split; [|split]; vm_compute; reflexivity. Qed.

Lemma ty_induction (P : ty → Prop) :
  (∀ k, P (TInt k)) → P TFloat32 → P TFloat64 → P TBool → P TString → (∀ n, P (TFixed n)) → (∀ t, P t → P (TNullable t)) →
  (∀ d t, P t → P (TArray d t)) → (∀ k v, P k → P v → P (TMap k v)) →
  (∀ l, Forall (λ nt, P nt.2) l → P (TTuple l)) → (∀ f t, P t → P (TSimple f t)) → (∀ t, P (TOther t)) → ∀ t, P t.
Proof.
  intros Hi H32 H64 Hb Hs Hf Hn Ha Hm Ht Hg Ho. fix IH 1.
  intros [k| | | | |n|t|d t|k v|l|f t|t]; [apply Hi|exact H32|exact H64|exact Hb|exact Hs|apply Hf|
    by apply Hn|by apply Ha|by apply Hm| |by apply Hg|apply Ho].
  apply Ht. induction l as [|nt l IHl]; constructor; [apply IH|apply IHl].
Qed.

Lemma foldr_and {A} (P : A → Prop) l : foldr and True (map P l) ↔ Forall P l.
Proof.
  induction l as [|x l IH]; cbn; [by split|]. rewrite Forall_cons, IH. done.
Qed.

Lemma element_text_passes n t : forallb inert n = true → passes 0 t → passes 0 (element_text n t).
Proof.
  intros Hn Ht. unfold element_text. case_bool_decide; [done|].
  apply passes_app; [by apply passes_inert|]. by apply (passes_app 0 [x20]); [apply passes_space|].
Qed.

Lemma join_passes l : Forall (passes 0) l → passes 1 (strings_Join l (str ", ")).
Proof.
  induction 1 as [|s l Hs Hl IH]; [intros br el els rest _; by rewrite app_nil_r|].
  apply (passes_mono 0 1) in Hs; [|lia]. destruct l as [|s' l]; [done|].
  change (strings_Join (s :: s' :: l) (str ", ")) with (s ++ str ", " ++ strings_Join (s' :: l) (str ", ")).
  apply passes_app; [done|]. apply passes_app; [apply passes_comma|done].
Qed.

Lemma digits_inert n : forallb inert (FormatUint n) = true.
Proof.
  apply forallb_forall. intros b Hb. pose proof (FormatUint_digits n) as HF. rewrite List.Forall_forall in HF.
  specialize (HF b Hb). destruct b; (done || discriminate HF).
Qed.

Lemma span_split p s m r : span p s = (m, r) → s = m ++ r ∧ forallb p m = true.
Proof.
  revert m r. induction s as [|b s IH]; intros m r; cbn [span]; [by intros [= <- <-]|].
  destruct (p b) eqn:E; [|by intros [= <- <-]]. destruct (span p s) as [m' r']. intros [= <- <-].
  destruct (IH _ _ eq_refl) as [-> Hm]. split; [done|]. cbn. by rewrite E.
Qed.

Lemma passes_no_bracket s : forallb no_bracket s = true → passes 1 s.
Proof.
  induction s as [|b s IH]; intros H br el els rest Hbr; [by rewrite app_nil_r|].
  cbn in H. apply andb_prop in H as [Hb Hs]. cbn [app split_elements]. unfold no_bracket in Hb.
  destruct (beq b "("), (beq b ")"); try done. assert (br =? 0 = false) as -> by lia. rewrite andb_false_r.
  rewrite IH by done. by rewrite <- app_assoc.
Qed.

Lemma good_other t : other_text t = true → good t.
Proof.
  unfold other_text. destruct (span inert t) as [m r] eqn:E. destruct (span_split _ _ _ _ E) as [-> Hm].
  destruct m as [|b m]; [done|]. destruct r as [|o args]; [intros _; rewrite app_nil_r; by apply good_inert|].
  intros H. apply andb_prop in H as [H Hn]. apply andb_prop in H as [Ho Hl]. apply bool_decide_eq_true in Hl.
  destruct (beq_spec o "(") as [->|]; [|done].
  assert (args = removelast args ++ str ")") as Ea.
  { destruct args as [|a args _] using rev_ind; [done|]. rewrite last_snoc in Hl. injection Hl as ->. by rewrite removelast_last. }
  rewrite Ea. apply (good_brackets (b :: m) (removelast args)); [done|done|by apply passes_no_bracket].
Qed.

(** Every readable type has a good text. *)
Lemma type_good t : ty_ok t → good (type_text t).
Proof.
  assert (∀ s, passes 0 s → passes 1 s) as H01. { intros s. by apply passes_mono. }
  induction t as [k| | | | |n|t IH|d t IH|k v IHk IHv|l IHl|f t IH|t] using ty_induction; cbn [ty_ok type_text].
  - intros [H1 H2]. apply good_inert; by destruct k.
  - intros _. by apply good_inert.
  - intros _. by apply good_inert.
  - intros _. by apply good_inert.
  - intros _. by apply good_inert.
  - intros _. apply good_brackets; [done|done|]. apply H01, passes_inert, digits_inert.
  - intros Ht%IH. apply good_brackets; [done|done|]. by apply H01, good_passes.
  - intros [Ht%IH _]. revert Ht. generalize (type_text t). intros s Hs.
    assert (∀ s, good s → good (str "Array" ++ in_brackets s)) as Ha.
    { intros u Hu. apply good_brackets; [done|done|]. by apply H01, good_passes. }
    induction d as [|d IHd]; [by apply Ha|]. apply Ha. exact IHd.
  - intros (Hk%IHk & Hv%IHv & _). apply good_brackets; [done|done|].
    apply passes_app; [by apply H01, good_passes|]. apply passes_app; [apply passes_comma|by apply H01, good_passes].
  - intros [Hne Hl]. apply foldr_and in Hl. apply good_brackets; [done|done|]. apply join_passes.
    induction IHl as [|nt l Hnt IHl IH]; [constructor|]. apply Forall_cons in Hl as [[Hn Ht] Hl]. constructor.
    + apply element_text_passes; [done|]. by apply good_passes, Hnt.
    + destruct l; [constructor|]. by apply IH.
  - intros (Hf & Hne & Ht%IH). apply good_brackets; [done|done|].
    apply passes_app; [by apply H01, passes_inert|]. apply passes_app; [apply passes_comma|by apply H01, good_passes].
  - intros [Ho _]. by apply good_other.
Qed.

(** ** The pieces of the parsers *)

Lemma TrimSuffix_snoc s b : TrimSuffix (s ++ [b]) b = s.
Proof. unfold TrimSuffix. rewrite last_snoc, beq_refl. apply removelast_last. Qed.

Lemma strip_arrays_text s : HasPrefix s (str "Array(") = false → ∀ d fuel k, (d < fuel)%nat →
  strip_arrays fuel k (arrays d s) = ((k + d)%nat, s).
Proof.
  intros Hs d. induction d as [|d IH]; intros fuel k Hf; (destruct fuel as [|fuel]; [lia|]).
  - cbn [arrays strip_arrays]. by rewrite Hs, Nat.add_0_r.
  - cbn [arrays]. set (u := arrays d s).
    change (str "Array" ++ in_brackets u) with (str "Array(" ++ u ++ [")"%byte]). cbn [strip_arrays].
    assert (HasPrefix (str "Array(" ++ u ++ [")"%byte]) (str "Array(") = true) as -> by done.
    change (drop 6 (str "Array(" ++ u ++ [")"%byte])) with (u ++ [")"%byte]). rewrite TrimSuffix_snoc.
    unfold u. rewrite IH by lia. f_equal. lia.
Qed.

Lemma map_types_text k v : ","%byte ∉ k → HasPrefix k (str "Enum") = false → trimmed k →
  map_types (k ++ str ", " ++ v) = (k, x20 :: v).
Proof.
  intros Hc He (b & m & _ & _ & -> & _). unfold map_types.
  assert (HasPrefix ((b :: m) ++ str ", " ++ v) (str "Enum") = false) as ->.
  { unfold HasPrefix in *. apply bool_decide_eq_false in He. apply bool_decide_eq_false. intros E. apply He.
    revert E Hc. generalize (b :: m). clear. intros u. do 5 (destruct u as [|? u]; cbn; [intros; simplify_eq; set_solver|]).
    intros; simplify_eq. done. }
  change (str ", " ++ v) with (","%byte :: x20 :: v). rewrite Index_found by done. cbn [default from_option id length].
  cbn [Nat.ltb Nat.leb]. f_equal.
  - by rewrite (take_app_length (b :: m)).
  - change (S (length m)) with (length (b :: m)). by rewrite (drop_app_add (b :: m)).
Qed.

Lemma trimmed_word n t : forallb inert n = true → trimmed t → trimmed (element_text n t).
Proof.
  intros Hn Ht. unfold element_text. case_bool_decide as Hne; [done|].
  apply (trimmed_app n [x20] t); [|done]. apply trimmed_graphic; [done|]. by apply inert_not_space.
Qed.

Lemma element_of_text el n t : el = [] ∨ el = [x20] → forallb inert n = true → good t →
  element_of (el ++ element_text n t) = (n, t).
Proof.
  intros Hel Hn Ht. pose proof (good_trimmed t Ht) as Htr. pose proof (trimmed_word n t Hn Htr) as Hw.
  unfold element_of. assert (TrimSpace (el ++ element_text n t) = element_text n t) as ->.
  { destruct Hel as [-> | ->]; [by apply TrimSpace_trimmed|by apply TrimSpace_space]. }
  unfold element_text in *. case_bool_decide as Hne.
  - rewrite (TrimSpace_trimmed t Htr). subst n. destruct (strings_Cut t x20) as [[a b] []] eqn:E; [|done].
    apply good_word in E; [|done]. apply Contains_spec in E. by rewrite E.
  - destruct (inert_not_space n Hn) as (H1 & H2 & _ & _). rewrite Cut_found by done.
    assert (strings_Contains n "(" = false) as ->.
    { destruct (strings_Contains n "(") eqn:E; [|done]. by apply Contains_spec in E. }
    by rewrite TrimSpace_trimmed.
Qed.

(** A list of named types is split into its elements. *)
Lemma split_text l : l ≠ [] → Forall (λ nt, forallb inert nt.1 = true ∧ good nt.2) l → ∀ el els, el = [] ∨ el = [x20] →
  split_elements 0 el els (strings_Join (map (λ nt, element_text nt.1 nt.2) l) (str ", ")) = els ++ l.
Proof.
  intros Hne Hl. induction Hl as [|[n t] l [Hn Ht] Hl IH]; intros el els Hel; [done|]. cbn [fst snd] in *.
  assert (passes 0 (element_text n t)) as Hp by (apply element_text_passes; [done|by apply good_passes]).
  assert (∀ els, appendElement els (el ++ element_text n t) = els ++ [(n, t)]) as Ha.
  { intros els'. unfold appendElement. rewrite bool_decide_false, element_of_text; [done|done|done|done|].
    destruct (trimmed_word n t Hn (good_trimmed t Ht)) as (b & m & _ & _ & -> & _).
    intros E. apply app_eq_nil in E as [_ E]. done. }
  destruct l as [|nt l].
  - cbn [map strings_Join]. rewrite <- (app_nil_r (element_text _ _)). rewrite Hp by lia. apply Ha.
  - change (strings_Join (map (λ nt, element_text nt.1 nt.2) ((n, t) :: nt :: l)) (str ", "))
      with (element_text n t ++ str ", " ++ strings_Join (map (λ nt, element_text nt.1 nt.2) (nt :: l)) (str ", ")).
    rewrite Hp by lia. change (str ", " ++ ?x) with (","%byte :: x20 :: x).
    set (J := strings_Join (map (λ nt, element_text nt.1 nt.2) (nt :: l)) (str ", ")) in *.
    change (split_elements 0 ?e ?els (","%byte :: x20 :: J)) with (split_elements 0 [x20] (appendElement els e) J).
    rewrite Ha, IH by (done || by right). by rewrite <- app_assoc.
Qed.

Lemma fixed_size_text n : fixed_size (str "FixedString" ++ in_brackets (FormatUint (Z.of_nat n))) = Some n.
Proof.
  unfold fixed_size. change (drop 12 (str "FixedString" ++ in_brackets ?s)) with (s ++ str ")").
  rewrite span_app by (apply FormatUint_digits || done). cbn [andb].
  rewrite bool_decide_false by apply FormatUint_nonempty.
  assert (HasPrefix (str "FixedString" ++ in_brackets (FormatUint (Z.of_nat n))) (str "FixedString(") = true) as -> by done.
  cbn [andb negb]. by rewrite bool_decide_true, dec_val_FormatUint, Nat2Z.id by lia || done.
Qed.

Lemma classify_fixed n : classify (str "FixedString" ++ in_brackets (FormatUint (Z.of_nat n))) = TcFixed n.
Proof.
  pose proof (fixed_size_text n) as E. unfold classify. rewrite E.
  assert (∀ u, int_type (str "FixedString" ++ in_brackets u) = None) as -> by done. done.
Qed.

(** A byte that does not occur in a literal. *)
Ltac literal_free := first [done | apply (bool_decide_unpack _); vm_compute; exact I].

Section parse.
Context {W : Wire}.
Variable conv_float : intkind → nat → Z → Z.
Variable to_float : nat → prim → Z.
Variable duration_string : Z → gostring.
Variable other : gostring → gostring → result cerr Interface.
Abbreviation parse := (Column conv_float to_float duration_string other).
Abbreviation meaning := (column_of conv_float to_float duration_string other).

Lemma element_columns_text l fuel :
  Forall (λ nt, ∀ name, parse fuel name (type_text nt.2) = Some (meaning name nt.2)) l →
  element_columns (parse fuel) (map (λ nt, (nt.1, type_text nt.2)) l)
  = Some (foldr (λ nc r, C ← nc.2; cs ← r; Ok ((nc.1, C) :: cs)) (Ok []) (map (λ nt, (nt.1, meaning nt.1 nt.2)) l)).
Proof.
  induction 1 as [|[n t] l Ht Hl IH]; [done|]. cbn [map element_columns fst snd foldr] in *. rewrite Ht. cbn [mbind option_bind].
  destruct (meaning n t) as [C|e]; [|done]. rewrite IH. cbn [mbind option_bind result_bind].
  by destruct (foldr _ _ _).
Qed.

(** Enough fuel: a level of nesting each. *)
Lemma Column_text t : ∀ name fuel, ty_ok t → (ty_depth t ≤ fuel)%nat → parse fuel name (type_text t) = Some (meaning name t).
Proof.
  induction t as [k| | | | |n|t IH|d t IH|k v IHk IHv|l IHl|f t IH|t] using ty_induction;
    intros name fuel Hok Hf; (destruct fuel as [|fuel]; [cbn in Hf; lia|]); cbn [Column].
  - destruct Hok as [H1 H2]. by destruct k.
  - done.
  - done.
  - done.
  - done.
  - cbn [type_text]. by rewrite classify_fixed.
  - cbn [type_text]. assert (∀ s, classify (str "Nullable" ++ in_brackets s) = TcNullable) as -> by done.
    rewrite params_brackets by literal_free. rewrite IH by (done || cbn in Hf; lia). cbn [mbind option_bind].
    cbn [column_of]. by destruct (meaning name t).
  - cbn [type_text]. assert (∀ s, classify (str "Array" ++ in_brackets s) = TcArray) as E by done.
    destruct Hok as [Ht Ha]. cbn [arrays]. rewrite E. clear E.
    change (str "Array" ++ in_brackets (arrays d (type_text t))) with (arrays (S d) (type_text t)).
    unfold array_of. rewrite strip_arrays_text; [|done|].
    + cbn [Nat.add]. rewrite IH by (done || cbn in Hf; lia). cbn [mbind option_bind column_of type_text].
      by destruct (meaning name t).
    + clear. induction d as [|d IH]; cbn in *; [rewrite ?length_app; lia|]. rewrite !length_app in *. cbn in *. lia.
  - destruct Hok as (Hk & Hv & Hc & He). pose proof (type_good k Hk) as Gk. pose proof (type_good v Hv) as Gv.
    cbn [type_text]. assert (∀ s, classify (str "Map" ++ in_brackets s) = TcMap) as -> by done.
    rewrite params_brackets by literal_free. rewrite map_types_text by (done || by apply good_trimmed).
    pose proof (good_trimmed _ Gk) as Tk. pose proof Tk as (b & m & _ & _ & Eb & _).
    cbn in Hf. assert (∀ x, match (type_text k, x20 :: type_text v) with
      | ([], _) | (_, []) => x | (kt, vt) => (k0 ← parse fuel name (TrimSpace kt);
          match k0 with
          | Ok K => v0 ← parse fuel name (TrimSpace vt);
              Some (match v0 with
                    | Ok V => if Comparable (ScanType K) then Ok (MapColumn K V name (type_text (TMap k v)))
                              else Err (UnsupportedColumnTypeError (type_text (TMap k v)))
                    | Err e => Err e end)
          | Err e => Some (Err e) end) end = Some (meaning name (TMap k v))) as H; [|apply H].
    intros x. rewrite Eb, <- Eb. rewrite (TrimSpace_trimmed _ Tk), (TrimSpace_space _ (good_trimmed _ Gv)).
    rewrite IHk by (done || lia). cbn [mbind option_bind]. cbn [column_of].
    destruct (meaning name k) as [K|e]; [|done]. cbn [mbind result_bind]. rewrite IHv by (done || lia). cbn [mbind option_bind].
    by destruct (meaning name v).
  - destruct Hok as [Hne Hl]. apply foldr_and in Hl. cbn [type_text].
    assert (∀ s, classify (str "Tuple" ++ in_brackets s) = TcTuple) as -> by done. rewrite params_brackets by literal_free.
    assert (map (λ nt, element_text nt.1 (type_text nt.2)) l
            = map (λ nt, element_text nt.1 nt.2) (map (λ nt : gostring * ty, (nt.1, type_text nt.2)) l)) as ->
      by by rewrite map_map.
    rewrite split_text; [|by destruct l| |by left].
    2: { apply Forall_map. eapply Forall_impl; [exact Hl|]. cbn. intros nt [H1 H2]. split; [done|]. by apply type_good. }
    cbn [app]. rewrite element_columns_text; [cbn [mbind option_bind column_of]; rewrite map_map; by destruct (foldr _ _ _)|].
    cbn in Hf. assert (Forall (λ nt, ty_depth nt.2 ≤ fuel)%nat l) as Hd.
    { clear -Hf. induction l as [|nt l IH]; constructor; cbn in *; [lia|apply IH; lia]. }
    clear Hne Hf. induction IHl as [|nt l Hnt IHl IH]; [constructor|].
    apply Forall_cons in Hl as [[H1 H2] Hl]. apply Forall_cons in Hd as [Hd1 Hd]. constructor; [|by apply IH].
    intros name'. by apply Hnt.
  - destruct Hok as (Hfn & Hne & Ht). pose proof (type_good t Ht) as Gt. cbn [type_text].
    assert (∀ s, classify (str "SimpleAggregateFunction" ++ in_brackets s) = TcSimple) as -> by done.
    rewrite params_brackets by literal_free. destruct (inert_not_space f Hfn) as (_ & _ & Hc & _).
    change (str ", " ++ type_text t) with (","%byte :: x20 :: type_text t). rewrite Cut_found by done.
    rewrite (TrimSpace_space _ (good_trimmed _ Gt)), IH by (done || cbn in Hf; lia). cbn [mbind option_bind column_of type_text].
    by destruct (meaning name t).
  - destruct Hok as (_ & Hc). cbn [type_text]. by rewrite Hc.
Qed.
End parse.

(** ** Rows survive the wire *)

Section wire.
Context {W : Wire} {L : WireLaws W}.

(** Values appended to a column that has [r] rows. *)
Lemma appended_rows I `{LI : Laws I} vs : Forall (accepts I) vs → ∀ s s',
  wf I s → append_each (AppendRow I) s vs = Some (s', None) → fits I s' →
  wf I s' ∧ Rows I s' = (Rows I s + length vs)%nat
  ∧ (∀ i, (i < Rows I s)%nat → Row I s' i = Row I s i)
  ∧ ∀ j v, vs !! j = Some v → Row I s' (Rows I s + j) = Some (stored I v).
Proof.
  induction 1 as [|v vs Hv Hvs IH]; intros s s' Hw Ha Hf.
  { injection Ha as <-. cbn. rewrite Nat.add_0_r. done. }
  apply append_each_cons_inv in Ha as (s1 & H1 & Ha).
  assert (fits I s1) as Hf1.
  { assert (∀ l (s s' : state I), append_each (AppendRow I) s l = Some (s', None) → fits I s' → fits I s) as Hm.
    { intros l. induction l as [|x l IHl]; intros t t' Ht Hft; [by injection Ht as <-|].
      apply append_each_cons_inv in Ht as (t1 & Ht1 & Ht). eapply law_grows; [exact Ht1|]. by eapply IHl. }
    by eapply Hm. }
  destruct (law_append _ _ _ Hw Hv H1 Hf1) as (Hw1 & Hr1 & Ho1 & Hn1).
  destruct (IH s1 s' Hw1 Ha Hf) as (Hw2 & Hr2 & Ho2 & Hn2).
  split; [done|]. split; [cbn; lia|]. split.
  - intros i Hi. rewrite Ho2 by lia. by apply Ho1.
  - intros [|j] x Hx.
    + injection Hx as <-. rewrite Nat.add_0_r, Ho2 by lia. done.
    + replace (Rows I s + S j)%nat with (Rows I s1 + j)%nat by lia. by apply Hn2.
Qed.

(** What is appended is what is read back: values appended one by one to a fresh column
    become its rows, in order and unchanged by the rows after them; what the column
    writes, prefix and data, is read back by a fresh column without touching what
    follows, and every row reads as the value stored. *)
Lemma rows_survive_the_wire I `{LI : Laws I} vs s p rest :
  Forall (accepts I) vs → append_each (AppendRow I) (fresh I) vs = Some (s, None) → fits I s →
  write_prefix I s = Ok p →
  Rows I s = length vs ∧
  ∃ s1 s2, read_prefix I (fresh I) (p ++ Encode I s ++ rest) = Ok (s1, Encode I s ++ rest)
    ∧ Decode I s1 (length vs) (Encode I s ++ rest) = Ok (s2, rest)
    ∧ ∀ i v, vs !! i = Some v → Row I s2 i = Some (stored I v) ∧ Row I s i = Some (stored I v).
Proof.
  intros Hv Ha Hf Hp. destruct (law_fresh (I := I)) as [Hw0 Hr0].
  destruct (appended_rows I vs Hv _ _ Hw0 Ha Hf) as (Hw & Hr & _ & Hn). rewrite Hr0 in Hr, Hn. cbn in Hr.
  split; [done|]. destruct (law_codec _ _ Hw Hf Hp) as (s1 & Hrd & _ & _ & s2 & Hd & _ & _ & Hrow).
  exists s1, s2. split; [apply Hrd|]. split; [rewrite <- Hr; apply Hd|].
  intros i v Hi. specialize (Hn i v Hi). split; [|done]. rewrite Hrow; [done|].
  rewrite Hr. by eapply lookup_lt_Some.
Qed.

(** ** The contract of every type *)

Record lawful_column := MkLawful { col_of : Interface; col_laws : Laws col_of }.
#[local] Existing Instance col_laws.

Variable conv_float : intkind → nat → Z → Z.
Variable to_float : nat → prim → Z.
Variable duration_string : Z → gostring.
(** The types that are not modelled, with columns that keep the contract. *)
Variable lawful_other : gostring → gostring → result cerr lawful_column.

Definition int_column_laws k name : Laws (int_column conv_float k name).
Proof. destruct k; apply int_laws. Defined.

Fixpoint all_lawful (l : list (gostring * lawful_column)) : LawsAll (map (λ nc, col_of nc.2) l) :=
  match l with [] => tt | nc :: l => (col_laws nc.2, all_lawful l) end.

(** A type with the contract of its column, put together level by level; the size of a
    fixed string is positive. *)
Fixpoint lawful (name : gostring) (t : ty) : result cerr lawful_column :=
  match t with
  | TInt k => Ok (MkLawful _ (int_column_laws k name))
  | TFloat32 => Ok (MkLawful _ (Float32_laws to_float name))
  | TFloat64 => Ok (MkLawful _ (Float64_laws to_float name))
  | TBool => Ok (MkLawful _ (bool_laws name))
  | TString => Ok (MkLawful _ (string_laws duration_string name))
  | TFixed n =>
      match decide (0 < n)%nat with
      | left Hn => Ok (MkLawful _ (fixed_laws duration_string n Hn name))
      | right _ => Err (UnsupportedColumnTypeError (type_text t))
      end
  | TNullable t => B ← lawful name t; Ok (MkLawful _ (nullable_laws (col_of B) name))
  | TArray d t' => C ← lawful name t'; Ok (MkLawful _ (array_laws (col_of C) d name (type_text t)))
  | TMap k v =>
      K ← lawful name k; V ← lawful name v;
      if Comparable (ScanType (col_of K)) then Ok (MkLawful _ (map_laws (col_of K) (col_of V) name (type_text t)))
      else Err (UnsupportedColumnTypeError (type_text t))
  | TTuple l =>
      cs ← foldr (λ nc r, C ← nc.2; cs ← r; Ok ((nc.1, C) :: cs)) (Ok []) (map (λ nt, (nt.1, lawful nt.1 nt.2)) l);
      match cs with
      | [] => Err (UnsupportedColumnTypeError (type_text t))
      | nc :: cs' =>
          let names := map fst (nc :: cs') in
          Ok (MkLawful _ (tuple_laws (col_of nc.2) (map (λ nc, col_of nc.2) cs')
                (forallb (λ n, negb (bool_decide (n = []))) names) (tuple_index names)
                (LC := col_laws nc.2) (LL := all_lawful cs') name (type_text t)))
      end
  | TSimple f t' =>
      match lawful name t' with
      | Ok C => Ok (MkLawful _ (simple_aggregate_laws (col_of C) name (type_text t)))
      | Err _ => Err (UnsupportedColumnTypeError (type_text t))
      end
  | TOther t => lawful_other name t
  end.

Variable other : gostring → gostring → result cerr Interface.
Hypothesis Hother : ∀ n t C, lawful_other n t = Ok C → other n t = Ok (col_of C).
Abbreviation meaning := (column_of conv_float to_float duration_string other).

Lemma lawful_elements (l : list (gostring * ty)) cs :
  Forall (λ nt, ∀ name C, lawful name nt.2 = Ok C → meaning name nt.2 = Ok (col_of C)) l →
  foldr (λ nc r, C ← nc.2; cs ← r; Ok ((nc.1, C) :: cs)) (Ok []) (map (λ nt, (nt.1, lawful nt.1 nt.2)) l) = Ok cs →
  foldr (λ nc r, C ← nc.2; cs ← r; Ok ((nc.1, C) :: cs)) (Ok []) (map (λ nt, (nt.1, meaning nt.1 nt.2)) l)
  = Ok (map (λ nc, (nc.1, col_of nc.2)) cs).
Proof.
  intros H. revert cs. induction H as [|[n t] l Ht Hl IH]; intros cs; cbn [map foldr fst snd] in *; [by intros [= <-]|].
  destruct (lawful n t) as [C|e] eqn:E; [|done]. rewrite (Ht _ _ E). cbn [mbind result_bind].
  destruct (foldr _ _ (map (λ nt : gostring * ty, (nt.1, lawful nt.1 nt.2)) l)) as [cs'|e]; [|done].
  rewrite (IH cs' eq_refl). by intros [= <-].
Qed.

Lemma lawful_column_of t : ∀ name C, lawful name t = Ok C → meaning name t = Ok (col_of C).
Proof.
  induction t as [k| | | | |n|t IH|d t IH|k v IHk IHv|l IHl|f t IH|t] using ty_induction; intros name C; cbn [lawful column_of];
    try (by intros [= <-]).
  - case_decide; [|done]. by intros [= <-].
  - destruct (lawful name t) as [B|e] eqn:E; [|done]. intros [= <-]. by rewrite (IH _ _ E).
  - destruct (lawful name t) as [B|e] eqn:E; [|done]. intros [= <-]. by rewrite (IH _ _ E).
  - destruct (lawful name k) as [K|e] eqn:Ek; [|done]. cbn [mbind result_bind].
    destruct (lawful name v) as [V|e] eqn:Ev; [|done]. cbn [mbind result_bind].
    rewrite (IHk _ _ Ek), (IHv _ _ Ev). cbn [mbind result_bind]. case_match; [|done]. by intros [= <-].
  - destruct (foldr _ _ (map (λ nt : gostring * ty, (nt.1, lawful nt.1 nt.2)) l)) as [cs|e] eqn:E; [|done].
    rewrite (lawful_elements l cs IHl E). cbn [mbind result_bind]. destruct cs as [|nc cs]; [done|]. intros [= <-].
    unfold tuple_of. rewrite bool_decide_false by done. cbn [col_of].
    assert ((map (λ nc : gostring * lawful_column, (nc.1, col_of nc.2)) (nc :: cs)).*1 = map fst (nc :: cs)) as ->
      by apply map_map.
    by assert ((map (λ nc : gostring * lawful_column, (nc.1, col_of nc.2)) (nc :: cs)).*2
            = col_of nc.2 :: map (λ nc, col_of nc.2) cs) as -> by apply map_map.
  - destruct (lawful name t) as [B|e] eqn:E; [|done]. intros [= <-]. by rewrite (IH _ _ E).
  - apply Hother.
Qed.

(** What is inserted is what is selected, for every type.  The column of a type text,
    nested to any depth, takes the values appended to it as its rows, in order and
    unchanged by the rows after them; what it writes, prefix and data, is read by the
    column the reader builds from the same text without touching what follows, and every
    row reads as the value stored.  What is accepted and what is stored for it is put
    together from the contracts of the parts: numbers, booleans, strings and fixed
    strings in nullables, arrays, maps, tuples and aggregate states. *)
Theorem typed_rows_survive t C name fuel vs s p rest :
  ty_ok t → (ty_depth t ≤ fuel)%nat → lawful name t = Ok C →
  Forall (accepts (col_of C)) vs → append_each (AppendRow (col_of C)) (fresh (col_of C)) vs = Some (s, None) →
  fits (col_of C) s → write_prefix (col_of C) s = Ok p →
  Column conv_float to_float duration_string other fuel name (type_text t) = Some (Ok (col_of C))
  ∧ Rows (col_of C) s = length vs
  ∧ ∃ s1 s2, read_prefix (col_of C) (fresh (col_of C)) (p ++ Encode (col_of C) s ++ rest) = Ok (s1, Encode (col_of C) s ++ rest)
    ∧ Decode (col_of C) s1 (length vs) (Encode (col_of C) s ++ rest) = Ok (s2, rest)
    ∧ ∀ i v, vs !! i = Some v → Row (col_of C) s2 i = Some (stored (col_of C) v) ∧ Row (col_of C) s i = Some (stored (col_of C) v).
Proof.
  intros Ht Hf HC Hv Ha Hs Hp. split; [rewrite Column_text by done; f_equal; by apply lawful_column_of|].
  by apply (rows_survive_the_wire (col_of C)).
Qed.

(** C24: The parser of type texts reads back the types of the grammar [ty], nested to any
    depth: integers, floats, Bool, String, FixedString, Nullable, Array of one or more
    levels, Map, Tuple with or without names, and SimpleAggregateFunction; the column it
    builds is the one the type stands for, level by level, errors of unsupported element
    types included, and a level of fuel for each level of nesting is enough. Required
    ([ty_ok]): the text of the key type of a map has no comma and is no Enum (there the
    parser cuts in the wrong place, [commas_and_spaces_split_types]), names of elements and
    functions are plain words. Types outside the grammar, Nested among them, are texts
    handed on to a parameter, provided they contain nothing the parser would cut at. *)
Theorem type_text_roundtrip t name fuel :
  ty_ok t → (ty_depth t ≤ fuel)%nat →
  Column conv_float to_float duration_string other fuel name (type_text t) = Some (meaning name t).
Proof. apply Column_text. Qed.
End wire.

Section demo.
#[local] Existing Instance leb.
Let cf : intkind → nat → Z → Z := λ _ _ _, 0.
Let tf : nat → prim → Z := λ _ _, 0.
Let ds : Z → gostring := λ _, [].
Let oth : gostring → gostring → result cerr Interface := λ _ t, Err (UnsupportedColumnTypeError t).

Definition demo_ty : ty := TTuple [(str "a", TMap TString (TArray 1 (TNullable (TInt KUint8)))); (str "b", TFixed 3)].

Lemma type_text_roundtrip_witness :
  type_text demo_ty = str "Tuple(a Map(String, Array(Array(Nullable(UInt8)))), b FixedString(3))"
  ∧ Column cf tf ds oth 6 (str "c") (type_text demo_ty) = Some (column_of cf tf ds oth (str "c") demo_ty).
Proof. split; [by vm_compute|]. apply (type_text_roundtrip cf tf ds oth demo_ty (str "c") 6); [|cbn; lia]. cbn. set_solver. Defined.

Definition demo_int : Interface := IntColumn (λ _ _ _, 0) KUint8 (str "c") (str "UInt8").
Definition demo_null : Interface := NullableColumn demo_int true (str "c").
Definition demo_array : Interface := ArrayColumn demo_null 1 (str "c") (str "Array(Nullable(UInt8))").
Definition demo_str : Interface := StringColumn (λ _, []) (str "c").
Definition demo_map : Interface := MapColumn demo_str demo_array (str "c") (str "Map(String, Array(Nullable(UInt8)))").

Definition demo_slice (l : list value) : value := VSlice (GPtr (GInt KUint8)) l.
Definition demo_rows : list value :=
  [VMap GString (GSlice (GPtr (GInt KUint8)))
     [(VPrim (PString (str "x")), demo_slice [VPtr (VPrim (PInt KUint8 7)); VNilPtr (GInt KUint8)]);
      (VPrim (PString (str "y")), demo_slice [])];
   VNil].

Definition demo_state : state demo_map :=
  @MkMap demo_str demo_array [2; 2] [str "x"; str "y"]
    (@MkArray demo_null [[2; 2]] (@MkNullable demo_int true [0; 1] [7; 0])).

(** The typed loops that spare one-dimensional arrays the reflection (a generated
    switch over some forty slice types) do what the reflective loop does: the same
    offset, the same elements in the same order, the same error at the same element, for
    slices of values and of pointers, nil pointers included. *)
Theorem array_paths_agree V s t l :
  well_typed (VSlice t l) → appendRowPlain V 1 s (VSlice t l) = appendRowDefault V 1 s (VSlice t l).
Proof. apply slice_paths_agree. Qed.

Lemma array_paths_agree_witness :
  plain_type (GInt KUint8) = true
  ∧ appendRowPlain demo_null 1 (fresh demo_array) (demo_slice [VPtr (VPrim (PInt KUint8 7)); VNilPtr (GInt KUint8)])
    = appendRowDefault demo_null 1 (fresh demo_array) (demo_slice [VPtr (VPrim (PInt KUint8 7)); VNilPtr (GInt KUint8)])
  ∧ appendRowPlain demo_null 1 (fresh demo_array) (demo_slice [VPtr (VPrim (PInt KUint8 7)); VNilPtr (GInt KUint8)])
    = Some (@MkArray demo_null [[2]] (@MkNullable demo_int true [0; 1] [7; 0]), None).
Proof.
  split; [reflexivity|]. split; [|reflexivity].
  apply (array_paths_agree demo_null (fresh demo_array) (GPtr (GInt KUint8))). repeat constructor.
Defined.

Definition demo_type : ty := TMap TString (TArray 0 (TNullable (TInt KUint8))).
Let no_other : gostring → gostring → result cerr lawful_column := λ _ t, Err (UnsupportedColumnTypeError t).
Definition demo_column : { C | lawful cf tf ds no_other (str "c") demo_type = Ok C }.
Proof.
  eexists. unfold demo_type. cbn [lawful mbind result_bind].
  match goal with |- context [if ?b then _ else _] => change b with true end. reflexivity.
Defined.

Lemma typed_rows_survive_witness :
  append_each (AppendRow demo_map) (fresh demo_map) demo_rows = Some (demo_state, None)
  ∧ Column cf tf ds oth 4 (str "c") (str "Map(String, Array(Nullable(UInt8)))") = Some (Ok demo_map)
  ∧ ∃ s1 s2,
      read_prefix demo_map (fresh demo_map) (Encode demo_map demo_state ++ str "tail") = Ok (s1, Encode demo_map demo_state ++ str "tail")
      ∧ Decode demo_map s1 2 (Encode demo_map demo_state ++ str "tail") = Ok (s2, str "tail")
      ∧ Row demo_map s2 0 = Some (VIter [(VPrim (PString (str "x")), VSlice GAny [VPrim (PInt KUint8 7); VNil]);
                                         (VPrim (PString (str "y")), VSlice GAny [])]).
Proof.
  assert (ty_ok demo_type) as Hok by (cbn; set_solver).
  assert (append_each (AppendRow demo_map) (fresh demo_map) demo_rows = Some (demo_state, None)) as Ea by reflexivity.
  split; [exact Ea|].
  assert (∀ n t D, no_other n t = Ok D → oth n t = Ok (col_of D)) as Ho by done.
  pose proof (typed_rows_survive cf tf ds no_other oth Ho demo_type (proj1_sig demo_column) (str "c") 4 demo_rows) as T.
  destruct (T demo_state [] (str "tail")) as (H0 & _ & s1 & s2 & H1 & H2 & H3).
  - exact Hok.
  - cbn. lia.
  - exact (proj2_sig demo_column).
  - repeat constructor.
  - exact Ea.
  - repeat constructor.
  - reflexivity.
  - split; [exact H0|]. exists s1, s2. split; [exact H1|]. split; [exact H2|]. exact (proj1 (H3 0%nat _ eq_refl)).
Defined.
End demo.

(** ** What the columns do to values at the edges *)

Section edges.
#[local] Existing Instance leb.
Let bool_col : Interface := BoolColumn (str "c").
Let int64_col : Interface := IntColumn (λ _ _ _, 0) KInt64 (str "c") (str "Int64").
Let nullable_of (B : Interface) : Interface := NullableColumn B true (str "c").

(** [Append([]bool)] of a [Nullable(Bool)] column fills the values and not the null mask:
    the column says it has no rows. *)
Lemma nullable_bools_vanish :
  ∃ s, Append (nullable_of bool_col) (fresh _) (VSlice GBool [VPrim (PBool true)]) = Some (s, Ok None)
       ∧ Rows (nullable_of bool_col) s = 0%nat ∧ Rows bool_col (base s) = 1%nat.
Proof. eexists. split; [reflexivity|]. done. Qed.

(** [Append([]sql.NullBool)] reports success and appends nothing. *)
Lemma null_bools_vanish :
  Append bool_col (fresh _) (VSlice (GNull GBool) [VNullable GBool (Some (PBool true))]) = Some ([], Ok (Some [0])).
Proof. reflexivity. Qed.

(** [Append([]sql.NullInt64)] of a nullable column stores zero where [Valid] is false. *)
Lemma null_ints_become_zero :
  ∃ s, Append (nullable_of int64_col) (fresh _) (VSlice (GNull (GInt KInt64)) [VNullable (GInt KInt64) None]) = Some (s, Ok (Some [0]))
       ∧ Row (nullable_of int64_col) s 0 = Some (VPrim (PInt KInt64 0)).
Proof. eexists. split; [reflexivity|]. done. Qed.

(** Nil pointers that panic: a nil [*sql.NullInt64] or [*time.Duration] for a nullable
    integer column, and a nil [*map] for a map column. *)
Lemma nil_pointers_panic :
  AppendRow (nullable_of int64_col) (fresh _) (VNilPtr (GNull (GInt KInt64))) = None
  ∧ AppendRow (nullable_of int64_col) (fresh _) (VNilPtr GDuration) = None
  ∧ AppendRow demo_map (fresh _) (VNilPtr (GMap GString (GSlice (GPtr (GInt KUint8))))) = None.
Proof. done. Qed.

(** A number of another type is cut to the column's width. *)
Lemma wide_numbers_are_cut : AppendRow demo_int (fresh _) (VPrim (PInt KInt 300)) = Some ([44], None).
Proof. reflexivity. Qed.

(** A refused value leaves a null mark without a value, or an offset that counts elements
    that are not there: the column can no longer be encoded consistently. *)
Lemma refused_values_leave_marks :
  (∃ s e, AppendRow demo_null (fresh _) (VPrim (PString (str "x"))) = Some (s, Some e)
          ∧ Rows demo_null s = 1%nat ∧ Rows demo_int (base s) = 0%nat)
  ∧ ∃ s e, AppendRow demo_array (fresh _) (VSlice GAny [VPrim (PInt KUint8 1); VPrim (PString (str "x"))]) = Some (s, Some e)
           ∧ Rows demo_array s = 1%nat ∧ offsets s = [[2]] ∧ Rows demo_int (base (values s)) = 1%nat.
Proof. split; eexists _, _; (split; [reflexivity|]); done. Qed.

(** A [driver.Valuer] is accepted by arrays of one dimension only. *)
Lemma valuer_for_one_dimension :
  let v := VValuer (Some (VSlice (GInt KUint8) [])) in
  (∃ s, AppendRow (ArrayColumn demo_int 1 [] []) (fresh _) v = Some (s, None))
  ∧ AppendRow (ArrayColumn demo_int 2 [] []) (fresh _) v = Some (fresh (ArrayColumn demo_int 2 [] []), Some ColumnConverterError).
Proof. split; [eexists|]; reflexivity. Qed.

(** Two fields of one name: the size check counts names, the loop appends fields. *)
Lemma twin_fields_unbalance_tuple :
  let T := TupleColumn [demo_int; demo_int] true (tuple_index [str "a"; str "b"]) [] [] in
  let f n := (n, [], [], true, VPrim (PInt KUint8 1)) in
  AppendRow T (fresh T) (VStruct [f (str "a"); f (str "b"); (str "B", str "b", [], true, VPrim (PInt KUint8 2))])
  = Some (([1], ([1; 2], tt)), None).
Proof. reflexivity. Qed.

(** The key of a map is cut at its first comma, also inside brackets; a quoted name of a
    tuple element ends at its first space. *)
Lemma commas_and_spaces_split_types :
  map_types (str "Decimal(9, 2), String") = (str "Decimal(9", str " 2), String")
  ∧ split_elements 0 [] [] (str "`a b` Int8") = [(str "`a", str "b` Int8")].
Proof. vm_compute. done. Qed.
End edges.
