(* ===== verification/ColumnOther.v ===== *)
(** * The type texts of dates, numbers and addresses
      (the cases of [Type.Column] for them, and [parse] of [datetime.go], [datetime64.go],
      [time64.go], [decimal.go], [interval.go]; [nothing.go])

    [cell_type] completes [Type.Column] of [ColumnType.v] with the columns of one cell per
    row; what is still left ([LowCardinality], enumerations, [Variant], [Dynamic], [JSON],
    geometry and so on) is [rest].  [cell_lawful] gives each of them its contract. *)

From Stdlib Require Import ZifyBool.
From S2P Require Import Prelude GoStd GoTime ChUrl Strconv Wire ProtoPackets Column ColumnLaws ColumnLeaf ColumnCell ColumnTime ColumnBig ColumnAddr ColumnType.
Local Open Scope Z_scope.
#[local] Set Warnings "-register-all".

(** ** Columns that are only read *)

Section read_only.
Context {W : Wire}.

(** [Interval]: numbers with a unit; nothing can be appended and nothing is written. *)
Definition Interval_row (t : gostring) (val : Z) : gostring :=
  FormatInt val ++ str " " ++ TrimPrefix t (str "Interval") ++ (if 1 <? val then str "s" else []).

Definition not_storable {S} (s : S) : option (S * option cerr) :=
  Some (s, Some (ColumnError (str "data type values can't be stored in tables"))).

Definition Interval (name t : gostring) : Interface :=
  MkInterface (list Z) [] name t GString length (λ s i, z ← s !! i; Some (VPrim (PString (Interval_row t z))))
    (λ s _, not_storable s) (λ s _, Some (s, Err (ColumnError (str "data type values can't be stored in tables"))))
    (λ _, []) (λ _, []) (λ s rows b, '(l, b) ← rread (RVec 8 rows b); Ok (s ++ map (swrap 64) l, b)) None.

Definition interval_types : list gostring :=
  map str ["IntervalNanosecond"; "IntervalMicrosecond"; "IntervalMillisecond"; "IntervalSecond"; "IntervalMinute"; "IntervalHour";
           "IntervalDay"; "IntervalWeek"; "IntervalMonth"; "IntervalQuarter"; "IntervalYear"].

Definition Interval_parse (name t : gostring) : result cerr Interface :=
  if existsb (λ x, bool_decide (t = x)) interval_types then Ok (Interval name t) else Err (UnsupportedColumnTypeError t).

(** [Nothing]: no rows, whatever is decoded. *)
Definition Nothing (name : gostring) : Interface :=
  MkInterface unit tt name (str "Nothing") (GPtr GAny) (λ _, 0%nat) (λ _ _, Some VNil) (λ s _, not_storable s)
    (λ s _, Some (s, Err (ColumnError (str "data type values can't be stored in tables"))))
    (λ s, s) (λ _, []) (λ s rows b, '(_, b) ← rread (RVec 1 rows b); Ok (s, b)) None.
End read_only.

(** ** Parameters of types *)

(** [Decimal.parse]: precision and scale. *)
Definition Decimal_parse (t : gostring) : result cerr (Z * Z) :=
  match strings_Split (params t) "," with
  | [a; b] =>
      match Atoi (TrimSpace a) with
      | None => Err (ColumnError (str "is not Decimal type"))
      | Some precision =>
          if precision <? 1 then Err (ColumnError (str "wrong precision of Decimal type"))
          else match Atoi (TrimSpace b) with
               | None => Err (ColumnError (str "is not Decimal type"))
               | Some scale =>
                   if (scale <? 0) || (precision <? scale) then Err (ColumnError (str "wrong scale of Decimal type"))
                   else Ok (precision, scale)
               end
      end
  | _ => Err (ColumnError (str "invalid Decimal format"))
  end.

(** [strings.TrimSuffix]. *)
Definition TrimTail (s suf : gostring) : gostring := reverse (TrimPrefix (reverse s) (reverse suf)).

(** [Time64.parse]: the precision, three when none is given. *)
Definition Time64_parse (t : gostring) : result cerr Z :=
  if HasPrefix t (str "Time64(") then
    match ParseInt 8 (TrimTail (TrimPrefix t (str "Time64(")) (str ")")) with
    | Some p => Ok (p mod 256)
    | None => Err (ColumnError (str "invalid precision"))
    end
  else Ok 3.

Section zones.
Variable LoadLocation : gostring → option location.
(** [sc.Timezone]. *)
Variable tz : option location.

(** [DateTime.parse]: the location. *)
Definition DateTime_parse (t : gostring) : result cerr (option location) :=
  if bool_decide (t = str "DateTime") then Ok tz
  else match loadLocation LoadLocation (TrimTail (TrimPrefix t (str "DateTime('")) (str "')")) with
       | Some l => Ok (Some l)
       | None => Err (ColumnError (str "unknown time zone"))
       end.

(** [DateTime64.parse]: precision and location.  The quotes around the zone are cut off by
    position: [None] when the text is too short for it. *)
Definition DateTime64_parse (t : gostring) : option (result cerr (Z * option location)) :=
  match strings_Split (params t) "," with
  | [a; b] =>
      match ParseInt 8 a with
      | None => Some (Err (ColumnError (str "invalid precision")))
      | Some p =>
          name ← slice b 2 (length b - 1);
          Some (match loadLocation LoadLocation name with
                | Some l => Ok (p mod 256, Some l)
                | None => Err (ColumnError (str "unknown time zone"))
                end)
      end
  | [a] => Some (match ParseInt 8 a with Some p => Ok (p mod 256, tz) | None => Err (ColumnError (str "invalid precision")) end)
  | _ => Some (Err (UnsupportedColumnTypeError t))
  end.
End zones.

(** ** [Type.Column] for these types *)

Section other.
Context {W : Wire} {T : ChTime} {D : Decimals} {A : ChAddr}.
Variable local : location.
Variable tz : option location.
Variable LoadLocation : gostring → option location.
Variable duration_string : Z → gostring.
Variable time_methods : gotime → methods.
Variable big_methods : Z → methods.
Variable rest : gostring → gostring → result cerr Interface.

Definition big_types : list (gostring * (nat * bool)) :=
  [(str "Int128", (2%nat, true)); (str "UInt128", (2%nat, false)); (str "Int256", (4%nat, true)); (str "UInt256", (4%nat, false))].
Definition big_type (t : gostring) : option (nat * bool) := snd <$> List.find (λ nk, bool_decide (t = nk.1)) big_types.

(** [None] is a panic of the parser. *)
Definition cell_type (name t : gostring) : option (result cerr Interface) :=
  match big_type t with
  | Some (n, sgn) => Some (Ok (BigInt (8 * n) sgn big_methods name t))
  | None =>
      if bool_decide (t = str "IPv4") then Some (Ok (IPv4Column name))
      else if bool_decide (t = str "IPv6") then Some (Ok (IPv6Column name))
      else if bool_decide (t = str "Date") then Some (Ok (DateColumn local duration_string time_methods tz name))
      else if bool_decide (t = str "Date32") then Some (Ok (Date32Column local duration_string time_methods tz name))
      else if bool_decide (t = str "UUID") then Some (Ok (UUIDColumn duration_string name))
      else if bool_decide (t = str "Nothing") then Some (Ok (Nothing name))
      else if bool_decide (t = str "Time") then Some (Ok (TimeColumn name))
      else if HasPrefix t (str "Decimal(") then
        Some (match Decimal_parse t with Ok (p, s) => Ok (Decimal p s name t) | Err e => Err e end)
      else if HasPrefix t (str "Interval") then Some (Interval_parse name t)
      else if HasPrefix t (str "DateTime64") then
        r ← DateTime64_parse LoadLocation tz t;
        Some (match r with
              | Ok (p, l) => Ok (DateTime64Column local duration_string time_methods p l name t)
              | Err e => Err e end)
      else if HasPrefix t (str "DateTime") then
        Some (match DateTime_parse LoadLocation tz t with
              | Ok l => Ok (DateTimeColumn local duration_string time_methods l name t)
              | Err e => Err e end)
      else if HasPrefix t (str "Time64") then
        Some (match Time64_parse t with Ok p => Ok (Time64Column p name t) | Err e => Err e end)
      else Some (rest name t)
  end.

(** As the error the application would not see: a panic ends it. *)
Definition other_type (name t : gostring) : result cerr Interface :=
  match cell_type name t with Some r => r | None => Err (ColumnError (str "panic")) end.
End other.

(** ** The contracts *)

Section lawful.
Context {W : Wire} {L : WireLaws W} {T : ChTime} {D : Decimals} {A : ChAddr}.
Variable local : location.
Variable tz : option location.
Variable LoadLocation : gostring → option location.
Variable duration_string : Z → gostring.
Variable time_methods : gotime → methods.
Variable big_methods : Z → methods.
Variable rest : gostring → gostring → result cerr Interface.

Definition lawful_cell (w : nat) (Hw : (0 < w)%nat) conv cases val scan name t : lawful_column :=
  MkLawful _ (cell_laws w Hw conv cases val scan name t).

Lemma width_positive p : (0 < decimal_width p)%nat.
Proof. unfold decimal_width. repeat case_match; lia. Qed.

Lemma words_positive n : (0 < 8 * S n)%nat.
Proof. lia. Qed.

Lemma two_positive : (0 < 2)%nat. Proof. lia. Qed.
Lemma four_positive : (0 < 4)%nat. Proof. lia. Qed.
Lemma eight_positive : (0 < 8)%nat. Proof. lia. Qed.
Lemma sixteen_positive : (0 < 16)%nat. Proof. lia. Qed.

(** The columns that can be written, with the contract. *)
Definition cell_lawful (name t : gostring) : result cerr lawful_column :=
  let no := Err (UnsupportedColumnTypeError t) in
  match big_type t with
  | Some (S n, sgn) =>
      Ok (lawful_cell (8 * S n) (words_positive n) (BigInt_AppendRow (8 * S n)) (BigInt_Append (8 * S n))
            (λ z, big_value big_methods (default 0 (BigInt_row (8 * S n) sgn z))) (GExt KBig) name t)
  | Some (O, _) => no
  | None =>
      if bool_decide (t = str "IPv4")
      then Ok (lawful_cell 4 four_positive IPv4_AppendRow IPv4_Append (λ z, ip_value (IPv4_row z)) (GExt KIP) name (str "IPv4"))
      else if bool_decide (t = str "IPv6")
      then Ok (lawful_cell 16 sixteen_positive IPv6_AppendRow IPv6_Append (λ z, ip_value (le_put 16 z)) (GExt KIP) name (str "IPv6"))
      else if bool_decide (t = str "Date")
      then Ok (lawful_cell 2 two_positive (Date_AppendRow local duration_string tz) (Date_Append local duration_string tz)
                 (λ z, time_value time_methods (Date_row tz z)) (GExt KTime) name (str "Date"))
      else if bool_decide (t = str "Date32")
      then Ok (lawful_cell 4 four_positive (Date32_AppendRow local duration_string tz) (Date32_Append local duration_string tz)
                 (λ z, time_value time_methods (Date32_row tz z)) (GExt KTime) name (str "Date32"))
      else if bool_decide (t = str "UUID")
      then Ok (lawful_cell 16 sixteen_positive (UUID_AppendRow duration_string) (UUID_Append duration_string)
                 (λ z, uuid_value (cell_uuid z)) (GExt KUUID) name (str "UUID"))
      else if bool_decide (t = str "Nothing") then no
      else if bool_decide (t = str "Time")
      then Ok (lawful_cell 4 four_positive (duration_conv IntoTime32) (duration_cases IntoTime32)
                 (λ z, VPrim (PDuration (Time32_Duration (swrap 32 z)))) GDuration name (str "Time"))
      else if HasPrefix t (str "Decimal(") then
        match Decimal_parse t with
        | Ok (p, s) => Ok (lawful_cell (decimal_width p) (width_positive p) (Decimal_AppendRow p s) (Decimal_Append p s)
                             (λ z, decimal_value (Decimal_row p z) (i32 (- s))) (GExt KDecimal) name t)
        | Err e => Err e
        end
      else if HasPrefix t (str "Interval") then no
      else if HasPrefix t (str "DateTime64") then
        match DateTime64_parse LoadLocation tz t with
        | Some (Ok (p, l)) => Ok (lawful_cell 8 eight_positive (DateTime64_AppendRow local duration_string p) (DateTime64_Append local duration_string p)
                                    (λ z, time_value time_methods (DateTime64_Row p l (swrap 64 z))) (GExt KTime) name t)
        | Some (Err e) => Err e
        | None => no
        end
      else if HasPrefix t (str "DateTime") then
        match DateTime_parse LoadLocation tz t with
        | Ok l => Ok (lawful_cell 4 four_positive (DateTime_AppendRow local duration_string) (DateTime_Append local duration_string)
                        (λ z, time_value time_methods (DateTime_Row l z)) (GExt KTime) name t)
        | Err e => Err e
        end
      else if HasPrefix t (str "Time64") then
        match Time64_parse t with
        | Ok p => Ok (lawful_cell 8 eight_positive (duration_conv (IntoTime64WithPrecision p)) (duration_cases (IntoTime64WithPrecision p))
                        (λ z, VPrim (PDuration (ToDurationWithPrecision p (swrap 64 z)))) GDuration name t)
        | Err e => Err e
        end
      else no
  end.

(** The contract is that of the column the parser builds, under the name and the type
    asked for. *)
Lemma cell_lawful_type name t C : cell_lawful name t = Ok C →
  other_type local tz LoadLocation duration_string time_methods big_methods rest name t = Ok (col_of C)
  ∧ Name (col_of C) = name ∧ chType (col_of C) = t.
Proof.
  unfold cell_lawful, other_type, cell_type.
  destruct (big_type t) as [[[|n] sgn]|]; [done|by intros [= <-]|].
  do 5 (case_bool_decide; [subst t; by intros [= <-]|]).
  case_bool_decide; [done|]. case_bool_decide; [subst t; by intros [= <-]|].
  destruct (HasPrefix t (str "Decimal(")); [destruct (Decimal_parse t) as [[p s]|]; [by intros [= <-]|done]|].
  destruct (HasPrefix t (str "Interval")); [done|].
  destruct (HasPrefix t (str "DateTime64")); [destruct (DateTime64_parse LoadLocation tz t) as [[[p l]|]|]; [by intros [= <-]|done..]|].
  destruct (HasPrefix t (str "DateTime")); [destruct (DateTime_parse LoadLocation tz t) as [l|]; [by intros [= <-]|done]|].
  destruct (HasPrefix t (str "Time64")); [destruct (Time64_parse t) as [p|]; [by intros [= <-]|done]|done].
Qed.
End lawful.

Example type_parameters :
  Decimal_parse (str "Decimal(38, 10)") = Ok (38, 10)
  ∧ is_ok (Decimal_parse (str "Decimal(9, 10)")) = false
  ∧ DateTime64_parse (λ n, Some (FixedZone n 0)) (Some UTC) (str "DateTime64(6)") = Some (Ok (6, Some UTC))
  ∧ (match DateTime64_parse (λ n, Some (FixedZone n 0)) None (str "DateTime64(3, 'Asia/Tokyo')") with
     | Some (Ok (3, Some l)) => loc_name l = str "Asia/Tokyo" | _ => False end)
  ∧ DateTime64_parse (λ n, None) None (str "DateTime64(3,)") = None
  ∧ (match DateTime_parse (λ n, Some (FixedZone n 0)) None (str "DateTime('Fixed/UTC+01:00:00')") with
     | Ok (Some l) => lookup_offset l 0 = 3600 | _ => False end)
  ∧ Time64_parse (str "Time64(6)") = Ok 6 ∧ Interval_row (str "IntervalDay") 2 = str "2 Days".
Proof. vm_compute. repeat split. Qed.
