(* ===== verification/ColumnVariant.v ===== *)
(** * Variant columns ([lib/column/variant.go], [lib/chcol/variant.go])

    A Variant column holds one column for each of its types and, for each row, the number
    of the type it has, 255 for NULL.  A row is given as a [chcol.Variant], a value with the
    name of its type or without one; without one the columns are tried in turn.  The place
    of a row within its column is computed by [Decode] only.  The column is the top one of a
    block: a row of it is a pair of a value and a type. *)

From Stdlib Require Import ZifyBool.
From S2P Require Import Prelude GoStd Wire ProtoPackets Column ColumnLaws ColumnLeaf ColumnType.

Definition VariantNullDiscriminator : nat := 255.
Definition SupportedVariantSerializationVersion : Z := 0.

(** [uint8(i)]. *)
Definition variant_uint8 (i : nat) : nat := i mod 256.

(** What [AppendRow] tells apart: nil, a [chcol.Variant] or a pointer to one, a nil pointer
    to one, and every other value. *)
Inductive variant_arg :=
| ArgNil
| ArgVariant (v : value) (ty : gostring)
| ArgNilPointer
| ArgPlain (v : value).

(** The rest of [chcol.Variant]: the text of a value and [Scan]. *)
Record chcol_Variant := MkVariant { cv_value : value; cv_type : gostring }.
Definition NewVariant (v : value) : chcol_Variant := MkVariant v [].
Definition NewVariantWithType (v : value) (ty : gostring) : chcol_Variant := MkVariant v ty.
Definition WithType (c : chcol_Variant) (ty : gostring) : chcol_Variant := MkVariant (cv_value c) ty.
Definition variant_Nil (c : chcol_Variant) : bool := match cv_value c with VNil => true | _ => false end.
(** [HasType] tells the opposite of its name. *)
Definition HasType (c : chcol_Variant) : bool := bool_decide (cv_type c = []).
(** A [Variant] given to [Scan] is copied with its type, another value keeps the old type. *)
Definition variant_Scan (c : chcol_Variant) (arg : chcol_Variant + value) : chcol_Variant :=
  match arg with inl d => d | inr v => MkVariant v (cv_type c) end.

(** [Variant.parse]: the types between the brackets; a name in front of a type is dropped.
    [column] is [Type.Column]. *)
Definition variant_parse (column : gostring → gostring → option (result cerr Interface)) (t : gostring)
    : option (result cerr (list Interface)) :=
  r ← element_columns column (pair [] <$> (split_elements 0 [] [] (params t)).*2);
  Some (match r with
        | Err e => Err e
        | Ok [] => Err (UnsupportedColumnTypeError t)
        | Ok l => Ok l.*2
        end).

Section variant.
Context {W : Wire}.
Variable l : list Interface.

Record Variant := MkVar { discriminators : list nat; v_offsets : list nat; v_columns : states l }.

Definition variant_fresh : Variant := MkVar [] [] (fresh_all l).

(** [columnTypeIndex]: the last column of a type. *)
Fixpoint type_index (cols : list Interface) (i : nat) (ty : gostring) : option nat :=
  match cols with
  | [] => None
  | C :: cols => match type_index cols (S i) ty with
                 | Some j => Some j
                 | None => if decide (chType C = ty) then Some i else None end
  end.
Definition columnTypeIndex (ty : gostring) : option nat := variant_uint8 <$> type_index l 0 ty.

Definition push (d : nat) (ss : states l) (s : Variant) : Variant := MkVar (discriminators s ++ [d]) (v_offsets s) ss.

(** The columns in turn; one that fails keeps what it has appended before the failure. *)
Fixpoint try_columns (n i : nat) (s : Variant) (v : value) : option (Variant * option cerr) :=
  match n with
  | O => Some (s, Some ColumnConverterError)
  | S n =>
      '(ss, e) ← append_at l (v_columns s) i v;
      match e with
      | None => Some (push (variant_uint8 i) ss s, None)
      | Some _ => try_columns n (S i) (MkVar (discriminators s) (v_offsets s) ss) v
      end
  end.

Definition append_typed (s : Variant) (v : value) (ty : gostring) : option (Variant * option cerr) :=
  match columnTypeIndex ty with
  | None => Some (s, Some ColumnConverterError)
  | Some i =>
      '(ss, e) ← append_at l (v_columns s) i v;
      match e with
      | None => Some (push i ss s, None)
      | Some e => Some (MkVar (discriminators s) (v_offsets s) ss, Some e)
      end
  end.

Definition variant_AppendRow (s : Variant) (a : variant_arg) : option (Variant * option cerr) :=
  match a with
  | ArgNil | ArgPlain VNil => Some (push VariantNullDiscriminator (v_columns s) s, None)
  | ArgNilPointer => None
  | ArgVariant VNil _ => Some (push VariantNullDiscriminator (v_columns s) s, None)
  | ArgVariant v ty => if decide (ty = []) then try_columns (length l) 0 s v else append_typed s v ty
  | ArgPlain v => try_columns (length l) 0 s v
  end.

(** [Append] of a slice of variants. *)
Definition variant_Append (s : Variant) (args : list variant_arg) : option (Variant * option cerr) :=
  append_each variant_AppendRow s args.

Fixpoint row_at (cols : list Interface) : states cols → nat → nat → option (value * gostring) :=
  match cols with
  | [] => λ _ _ _, None
  | C :: cols => λ ss d k, match d with
                           | O => v ← Row C ss.1 k; Some (v, chType C)
                           | S d => row_at cols ss.2 d k end
  end.

(** A row: [Some None] is NULL; [None] an index out of range. *)
Definition variant_Row (s : Variant) (i : nat) : option (option (value * gostring)) :=
  d ← discriminators s !! i;
  k ← v_offsets s !! i;
  if (d =? VariantNullDiscriminator)%nat then Some None
  else r ← row_at l (v_columns s) d k; Some (Some r).

(** [ScanRow] into a [chcol.Variant] or into any other destination [dest], which a NULL
    leaves as it is; [scan] is the [ScanRow] of the columns. *)
Definition variant_ScanRow {D} (scan : nat → nat → D → option (result cerr D)) (s : Variant) (i : nat) (dest : chcol_Variant + D)
    : option (result cerr (chcol_Variant + D)) :=
  d ← discriminators s !! i;
  k ← v_offsets s !! i;
  match dest with
  | inl _ =>
      if (d =? VariantNullDiscriminator)%nat then Some (Ok (inl (MkVariant VNil [])))
      else '(v, ty) ← row_at l (v_columns s) d k; Some (Ok (inl (MkVariant v ty)))
  | inr x =>
      if (d =? VariantNullDiscriminator)%nat then Some (Ok (inr x))
      else _ ← row_at l (v_columns s) d k; r ← scan d k x; Some (match r with Ok x => Ok (inr x) | Err e => Err e end)
  end.

Definition variant_Reset (s : Variant) : Variant := MkVar [] (v_offsets s) (tuple_Reset l (v_columns s)).

Definition variant_Encode (s : Variant) : gostring :=
  PutVec 1 (Z.of_nat <$> discriminators s) ++ tuple_Encode l (v_columns s).

Definition variant_WriteStatePrefix (s : Variant) : result cerr gostring :=
  p ← tuple_write l (v_columns s); Ok (PutUInt64 SupportedVariantSerializationVersion ++ p).

Definition variant_ReadStatePrefix (s : Variant) (b : gostring) : result cerr (Variant * gostring) :=
  '(version, b) ← rread (RUInt64 b);
  if (version =? SupportedVariantSerializationVersion)%Z then
    '(ss, b) ← tuple_read l (v_columns s) b; Ok (MkVar (discriminators s) (v_offsets s) ss, b)
  else Err (ColumnError (str "unsupported variant discriminator version")).

(** The loop over the discriminators: the place of each row, and the rows of each type. *)
Fixpoint place_rows (ds : list nat) (rowCountByType : gmap nat nat) : list nat * gmap nat nat :=
  match ds with
  | [] => ([], rowCountByType)
  | d :: ds =>
      let n := default 0 (rowCountByType !! d) in
      let n := if (n =? 0)%nat then 1 else n + 1 in
      let '(os, m) := place_rows ds (<[d := n]> rowCountByType) in
      (n - 1 :: os, m)
  end.

(** [rows i] is the number of rows of column [i]. *)
Fixpoint decode_each (rows : nat → nat) (cols : list Interface) : states cols → nat → gostring → result cerr (states cols * gostring) :=
  match cols with
  | [] => λ ss _ b, Ok (ss, b)
  | C :: cols => λ ss i b,
      '(s, b) ← Decode C ss.1 (rows i) b;
      '(ss, b) ← decode_each rows cols ss.2 (S i) b;
      Ok ((s, ss), b)
  end.

Definition variant_Decode (s : Variant) (rows : nat) (b : gostring) : result cerr (Variant * gostring) :=
  '(ds, b) ← rread (RVec 1 rows b);
  let ds := Z.to_nat <$> ds in
  let '(os, m) := place_rows ds ∅ in
  '(ss, b) ← decode_each (λ i, default 0 (m !! variant_uint8 i)) l (v_columns s) 0 b;
  Ok (MkVar ds os ss, b).
End variant.
Arguments MkVar {l}.
Arguments discriminators {l}.
Arguments v_offsets {l}.
Arguments v_columns {l}.

(** ** Rows in their columns *)

Lemma variant_uint8_small k : k < 256 → variant_uint8 k = k.
Proof. apply Nat.mod_small. Qed.


(** The number of rows of a type among the first ones. *)
Definition count (d : nat) (ds : list nat) : nat := length (List.filter (Nat.eqb d) ds).

Lemma count_app d a b : count d (a ++ b) = count d a + count d b.
Proof. unfold count. by rewrite List.filter_app, length_app. Qed.

Lemma count_one d e : count d [e] = if (d =? e)%nat then 1 else 0.
Proof. unfold count. cbn. by destruct (d =? e)%nat. Qed.

Lemma count_cons d e ds : count d (e :: ds) = (if (d =? e)%nat then 1 else 0) + count d ds.
Proof. change (e :: ds) with ([e] ++ ds). by rewrite count_app, count_one. Qed.

Lemma count_take ds i d : ds !! i = Some d → count d (take i ds) < count d ds.
Proof.
  intros H. rewrite <- (take_drop i ds) at 2. rewrite count_app, (drop_S ds d i H).
  change (d :: drop (S i) ds) with ([d] ++ drop (S i) ds). rewrite count_app, count_one, Nat.eqb_refl. lia.
Qed.

(** [Decode] finds for each row the number of rows of its type before it. *)
Lemma place_rows_spec ds : ∀ m,
  (∀ i d, ds !! i = Some d → (place_rows ds m).1 !! i = Some (default 0 (m !! d) + count d (take i ds)))
  ∧ (∀ d, default 0 ((place_rows ds m).2 !! d) = default 0 (m !! d) + count d ds).
Proof.
  induction ds as [|e ds IH]; intros m; cbn [place_rows]; [split; [done|intros d; cbn; lia]|].
  set (n := default 0 (m !! e)). set (n' := if (n =? 0)%nat then 1 else n + 1).
  assert (n' = S n) as Hn by (unfold n'; destruct (n =? 0)%nat eqn:E; lia).
  destruct (IH (<[e := n']> m)) as [H1 H2]. destruct (place_rows ds (<[e := n']> m)) as [os m']. cbn [fst snd] in *.
  assert (∀ d, default 0 (<[e := n']> m !! d) = default 0 (m !! d) + count d [e]) as Hcount.
  { intros d. rewrite count_one. destruct (decide (d = e)) as [->|Hne].
    - rewrite lookup_insert_eq, Nat.eqb_refl. cbn. fold n. lia.
    - rewrite lookup_insert_ne by done. rewrite (proj2 (Nat.eqb_neq d e) Hne). lia. }
  split.
  - intros [|i] d Hd.
    + injection Hd as ->. change (Some (n' - 1) = Some (n + count d [])). f_equal. cbn. lia.
    + change (os !! i = Some (default 0 (m !! d) + count d (e :: take i ds))). rewrite (H1 i d Hd), Hcount. f_equal. change (e :: take i ds) with ([e] ++ take i ds). rewrite count_app. lia.
  - intros d. rewrite H2, Hcount. change (e :: ds) with ([e] ++ ds). rewrite (count_app d [e]). lia.
Qed.

Section laws.
Context {W : Wire} {L : WireLaws W}.

(** Every column holds the rows of its type. *)
Fixpoint holds_rows (cols : list Interface) : all_laws cols → states cols → nat → list nat → Prop :=
  match cols with
  | [] => λ _ _ _ _, True
  | C :: cols => λ H ss i ds, @wf C H.1 ss.1 ∧ Rows C ss.1 = count i ds ∧ holds_rows cols H.2 ss.2 (S i) ds
  end.

Fixpoint accepts_at (cols : list Interface) : all_laws cols → nat → value → Prop :=
  match cols with
  | [] => λ _ _ _, False
  | C :: cols => λ H i v, match i with O => @accepts C H.1 v | S i => accepts_at cols H.2 i v end
  end.

Fixpoint stored_at (cols : list Interface) : all_laws cols → nat → value → value :=
  match cols with
  | [] => λ _ _ v, v
  | C :: cols => λ H i v, match i with O => @stored C H.1 v | S i => stored_at cols H.2 i v end
  end.

(** A row of a type that no column has is not there: columns other than the one appended to
    keep their rows, and that one gets the new one. *)
Lemma holds_other cols : ∀ H ss i ds d, holds_rows cols H ss i ds → (d < i ∨ i + length cols ≤ d)%nat →
  holds_rows cols H ss i (ds ++ [d]).
Proof.
  induction cols as [|C cols IH]; intros H ss i ds d Hh Hd; [done|]. destruct Hh as (H1 & H2 & H3). cbn in Hd.
  split; [done|]. split; [|apply IH; [done|lia]].
  rewrite count_app, count_one, (proj2 (Nat.eqb_neq i d)) by lia. lia.
Qed.

Lemma append_holds cols : ∀ (H : all_laws cols) ss i ds k v ss',
  holds_rows cols H ss i ds → accepts_at cols H k v → append_at cols ss k v = Some (ss', None) → fits_all cols H ss' →
  holds_rows cols H ss' i (ds ++ [i + k])
  ∧ (∀ d n, n < count (i + d) ds → row_at cols ss' d n = row_at cols ss d n)
  ∧ row_at cols ss' k (count (i + k) ds) = (λ C, (stored_at cols H k v, chType C)) <$> cols !! k.
Proof.
  induction cols as [|C cols IH]; intros H ss i ds k v ss' Hh Ha Happ Hf; [done|].
  destruct Hh as (H1 & H2 & H3), Hf as [F1 F2]. destruct k as [|k]; cbn in Happ, Ha.
  - destruct (AppendRow C ss.1 v) as [[s e]|] eqn:Ea; [|done]. cbn in Happ. injection Happ as <- ->. cbn in F1, F2.
    destruct (@law_append C H.1 _ _ _ H1 Ha Ea F1) as (A1 & A2 & A3 & A4).
    split; [|split].
    + split; [done|]. split; [|apply holds_other; [done|lia]]. cbn. rewrite A2, Nat.add_0_r, count_app, count_one, Nat.eqb_refl. lia.
    + intros [|d] n Hn; [|done]. cbn. rewrite A3; [done|]. rewrite H2, Nat.add_0_r in *. done.
    + cbn. rewrite Nat.add_0_r, <- H2, A4. done.
  - destruct (append_at cols ss.2 k v) as [[r e]|] eqn:Ea; [|done]. cbn in Happ. injection Happ as <- ->. cbn in F1, F2.
    destruct (IH H.2 ss.2 (S i) ds k v r H3 Ha Ea F2) as (A1 & A2 & A3).
    replace (S i + k)%nat with (i + S k)%nat in * by lia. split; [|split].
    + split; [done|]. split; [|done]. cbn. rewrite count_app, count_one, (proj2 (Nat.eqb_neq i (i + S k))) by lia. lia.
    + intros [|d] n Hn; [done|]. cbn. apply A2. by replace (S i + d)%nat with (i + S d)%nat by lia.
    + cbn. exact A3.
Qed.

Lemma holds_fresh cols : ∀ (H : all_laws cols) i, holds_rows cols H (fresh_all cols) i [].
Proof.
  induction cols as [|C cols IH]; intros H i; [done|]. destruct (@law_fresh C H.1). split; [done|]. by split; [|apply IH].
Qed.

(** The prefixes, and the columns with the rows of their types, are read back. *)
Lemma decode_holds rows cols : ∀ (H : all_laws cols) ss i ds p,
  holds_rows cols H ss i ds → fits_all cols H ss → (∀ d, i ≤ d < i + length cols → rows d = count d ds) → tuple_write cols ss = Ok p →
  ∃ ss1, (∀ rest, tuple_read cols (fresh_all cols) (p ++ rest) = Ok (ss1, rest))
  ∧ ∃ ss2, (∀ rest, decode_each rows cols ss1 i (tuple_Encode cols ss ++ rest) = Ok (ss2, rest))
  ∧ ∀ d n, n < count (i + d) ds → row_at cols ss2 d n = row_at cols ss d n.
Proof.
  induction cols as [|C cols IH]; intros H ss i ds p Hh Hf Hm Hp.
  { injection Hp as <-. exists tt. split; [done|]. exists tt. by split. }
  destruct Hh as (H1 & H2 & H3), Hf as [F1 F2]. cbn in Hp.
  destruct (write_prefix C ss.1) as [p1|] eqn:E1; [|done]. cbn in Hp.
  destruct (tuple_write cols ss.2) as [p2|] eqn:E2; [|done]. injection Hp as <-.
  destruct (@law_codec C H.1 _ _ H1 F1 E1) as (s1 & A1 & A2 & A3 & s2 & A4 & A5 & A6 & A7).
  destruct (IH H.2 _ (S i) ds _ H3 F2 ltac:(intros; apply Hm; cbn; lia) E2) as (t1 & B1 & t2 & B2 & B3).
  exists (s1, t1). split; [intros rest; cbn; rewrite <- app_assoc, A1; cbn; by rewrite B1|].
  exists (s2, t2). split.
  - intros rest. cbn. rewrite <- app_assoc, (Hm i) by (cbn; lia). rewrite <- H2, A4. cbn. by rewrite B2.
  - intros [|d] n Hn; cbn.
    + rewrite A7; [done|]. rewrite H2. by rewrite Nat.add_0_r in Hn.
    + apply B3. by replace (S i + d)%nat with (i + S d)%nat by lia.
Qed.

Lemma append_at_fits cols : ∀ (HL : all_laws cols) ss k v ss', append_at cols ss k v = Some (ss', None) →
  fits_all cols HL ss' → fits_all cols HL ss.
Proof.
  induction cols as [|C cols IH]; intros HL ss k v ss' Ha Hf; [done|]. destruct Hf as [F1 F2].
  destruct k as [|k]; cbn in Ha.
  - destruct (AppendRow C ss.1 v) as [[s e]|] eqn:E; [|done]. cbn in Ha. injection Ha as <- ->.
    split; [by apply (@law_grows C HL.1 _ _ _ E)|done].
  - destruct (append_at cols ss.2 k v) as [[r e]|] eqn:E; [|done]. cbn in Ha. injection Ha as <- ->.
    split; [done|]. by eapply IH.
Qed.

Lemma append_at_lt cols : ∀ ss k v r, append_at cols ss k v = Some r → k < length cols.
Proof.
  induction cols as [|C cols IH]; intros ss k v r Ha; [done|]. destruct k as [|k]; cbn in Ha; [cbn; lia|].
  destruct (append_at cols ss.2 k v) as [x|] eqn:E; cbn in Ha; [|done]. apply IH in E. cbn. lia.
Qed.

Lemma accepts_at_lt cols : ∀ (HL : all_laws cols) k v, accepts_at cols HL k v → k < length cols.
Proof.
  induction cols as [|C cols IH]; intros HL k v Ha; [done|]. destruct k as [|k]; cbn; [lia|]. apply IH in Ha. lia.
Qed.

(** Rows appended one after the other: each to one of the columns, or to none. *)
Inductive columns_run (cols : list Interface) : states cols → list (option (nat * value)) → states cols → Prop :=
| run_done ss : columns_run cols ss [] ss
| run_null ss pls ss' : columns_run cols ss pls ss' → columns_run cols ss (None :: pls) ss'
| run_row ss k v ss1 pls ss' :
    append_at cols ss k v = Some (ss1, None) → columns_run cols ss1 pls ss' → columns_run cols ss (Some (k, v) :: pls) ss'.

(** The number of a row, [null] for a row in no column. *)
Definition disc (null : nat) (pl : option (nat * value)) : nat := match pl with Some (k, _) => k | None => null end.

Definition place_ok (cols : list Interface) (HL : all_laws cols) (pl : option (nat * value)) : Prop :=
  match pl with Some (k, v) => accepts_at cols HL k v | None => True end.

Lemma run_fits cols HL ss pls ss' : columns_run cols ss pls ss' → fits_all cols HL ss' → fits_all cols HL ss.
Proof. induction 1 as [| |ss k v ss1 pls ss' Ha Hrun IH]; [done|done|]. intros Hf. eapply append_at_fits; [done|by apply IH]. Qed.

(** The rows appended, in their columns. *)
Lemma run_columns cols HL null ss pls ss' : length cols ≤ null → columns_run cols ss pls ss' → Forall (place_ok cols HL) pls →
  ∀ ds, holds_rows cols HL ss 0 ds → fits_all cols HL ss' →
  holds_rows cols HL ss' 0 (ds ++ (disc null <$> pls))
  ∧ (∀ d n, n < count d ds → row_at cols ss' d n = row_at cols ss d n)
  ∧ (∀ i k v, pls !! i = Some (Some (k, v)) →
      row_at cols ss' k (count k (ds ++ take i (disc null <$> pls)))
      = (λ C, (stored_at cols HL k v, chType C)) <$> cols !! k).
Proof.
  intros Hnull Hrun. induction Hrun as [ss|ss pls ss' Hrun IH|ss k v ss1 pls ss' Happ Hrun IH]; intros Hok ds Hh Hf.
  - rewrite app_nil_r. by split.
  - inversion_clear Hok. rewrite fmap_cons. cbn [disc].
    destruct (IH ltac:(done) (ds ++ [null]) ltac:(apply holds_other; [done|cbn; lia]) Hf) as (I1 & I2 & I3).
    split; [by rewrite <- app_assoc in I1|]. split.
    + intros d n Hn. apply I2. rewrite count_app. lia.
    + intros [|i] k v Hi; [done|]. cbn [take]. rewrite <- (I3 i k v Hi), <- app_assoc. done.
  - inversion_clear Hok as [|? ? Hacc Hok']. rewrite fmap_cons. cbn [disc].
    destruct (append_holds cols HL ss 0 ds k v ss1 Hh Hacc Happ (run_fits _ _ _ _ _ Hrun Hf)) as (G1 & G2 & G3).
    cbn [Nat.add] in G1, G2, G3.
    destruct (IH Hok' (ds ++ [k]) G1 Hf) as (I1 & I2 & I3).
    split; [by rewrite <- app_assoc in I1|]. split.
    + intros d n Hn. rewrite I2; [by apply G2|]. rewrite count_app. lia.
    + intros [|i] k' v' Hi.
      * injection Hi as -> ->. rewrite take_0, app_nil_r. rewrite I2; [done|]. rewrite count_app, count_one, Nat.eqb_refl. lia.
      * cbn [take]. rewrite <- (I3 i k' v' Hi), <- app_assoc. done.
Qed.

Variable l : list Interface.
Variable H : all_laws l.

(** The column a row lands in. *)
Definition refuses_at (k : nat) (v : value) : Prop := ∀ ss, ∃ e, append_at l ss k v = Some (ss, Some e).
Definition takes_at (k : nat) (v : value) : Prop := ∀ ss ss' e, append_at l ss k v ≠ Some (ss', Some e).

Inductive lands : variant_arg → option (nat * value) → Prop :=
| lands_nil : lands ArgNil None
| lands_null ty : lands (ArgVariant VNil ty) None
| lands_typed v ty k :
    v ≠ VNil → ty ≠ [] → columnTypeIndex l ty = Some k → accepts_at l H k v → lands (ArgVariant v ty) (Some (k, v))
| lands_untyped a v k :
    a = ArgPlain v ∨ a = ArgVariant v [] → v ≠ VNil → k < length l →
    (∀ j, j < k → refuses_at j v) → takes_at k v → accepts_at l H k v → lands a (Some (k, v)).

Lemma try_columns_lands v k : (∀ j, j < k → refuses_at j v) → takes_at k v →
  ∀ n i s s', i ≤ k → k < i + n → try_columns l n i s v = Some (s', None) →
  ∃ ss, append_at l (v_columns s) k v = Some (ss, None) ∧ s' = push l (variant_uint8 k) ss s.
Proof.
  intros Hr Ht. induction n as [|n IH]; intros i s s' Hi Hn Hs; [lia|]. cbn [try_columns] in Hs.
  destruct (append_at l (v_columns s) i v) as [[ss e]|] eqn:Ea; [|done]. cbn in Hs.
  destruct (decide (i = k)) as [->|Hne].
  - destruct e as [e|]; [by destruct (Ht _ _ _ Ea)|]. injection Hs as <-. by exists ss.
  - destruct (Hr i ltac:(lia) (v_columns s)) as [e' Ea']. rewrite Ea in Ea'. injection Ea' as -> ->.
    destruct (IH (S i) _ _ ltac:(lia) ltac:(lia) Hs) as (ss & E1 & ->). by exists ss.
Qed.

Lemma lands_step a pl s s' : lands a pl → variant_AppendRow l s a = Some (s', None) →
  match pl with
  | None => s' = push l VariantNullDiscriminator (v_columns s) s
  | Some (k, v) => accepts_at l H k v ∧ ∃ ss, append_at l (v_columns s) k v = Some (ss, None) ∧ s' = push l (variant_uint8 k) ss s
  end.
Proof.
  intros Hl Hs. destruct Hl as [|ty|v ty k Hv Hty Hk Ha|a v k Ha Hv Hk Hr Ht Hacc]; cbn in Hs; [by simplify_eq..| |].
  - split; [done|]. assert (append_typed l s v ty = Some (s', None)) as E.
    { rewrite <- Hs. destruct v; try done; by rewrite decide_False. }
    unfold append_typed in E. rewrite Hk in E. destruct (append_at l (v_columns s) k v) as [[ss [e|]]|]; cbn in E; [done| |done].
    injection E as <-. exists ss. split; [done|]. f_equal. unfold columnTypeIndex in Hk.
    destruct (type_index l 0 ty) as [j|]; [|done]. injection Hk as <-. unfold variant_uint8. by rewrite Nat.Div0.mod_mod.
  - split; [done|]. apply (try_columns_lands v k Hr Ht (length l) 0 s s'); [lia|lia|].
    destruct Ha as [->| ->]; cbn in Hs; destruct v; done.
Qed.

(** The rows of a run. *)
Lemma run_variant args places : Forall2 lands args places → length l < VariantNullDiscriminator → ∀ s s',
  variant_Append l s args = Some (s', None) →
  discriminators s' = discriminators s ++ (disc VariantNullDiscriminator <$> places)
  ∧ columns_run l (v_columns s) places (v_columns s').
Proof.
  intros Hall Hlen. induction Hall as [|a pl args places Ha Hall IH]; intros s s' Hrun.
  { injection Hrun as <-. split; [by rewrite app_nil_r|constructor]. }
  apply append_each_cons_inv in Hrun as (s1 & H1 & Hrun). destruct (IH s1 s' Hrun) as [I1 I2].
  pose proof (lands_step _ _ _ _ Ha H1) as Hstep. destruct pl as [[k v]|].
  - destruct Hstep as (Hacc & ss & Happ & ->).
    rewrite variant_uint8_small in * by (pose proof (accepts_at_lt l H k v Hacc); unfold VariantNullDiscriminator in *; lia).
    split; [rewrite I1; cbn [push discriminators]; by rewrite <- app_assoc|]. by eapply run_row.
  - subst s1. split; [rewrite I1; cbn [push discriminators]; by rewrite <- app_assoc|]. by apply run_null.
Qed.

Lemma lands_ok a pl : lands a pl → place_ok l H pl.
Proof. by destruct 1. Qed.

Lemma disc_byte null pls : Forall (λ pl, disc null pl < 256) pls → Forall (uint 1) (Z.of_nat <$> (disc null <$> pls)).
Proof. intros Hd. apply Forall_fmap, Forall_fmap. eapply Forall_impl; [exact Hd|]. intros pl Hp. change (0 ≤ Z.of_nat (disc null pl) < 256)%Z. cbn beta in Hp. lia. Qed.

Lemma lands_lt a pl : lands a pl → length l < VariantNullDiscriminator →
  disc VariantNullDiscriminator pl < 256 ∧ ∀ k v, pl = Some (k, v) → k < length l.
Proof.
  intros Ha Hlen. unfold VariantNullDiscriminator in Hlen.
  assert (∀ k v, pl = Some (k, v) → k < length l) as Hk.
  { intros k v ->. inversion Ha; subst; [by eapply accepts_at_lt|done]. }
  split; [|done]. destruct pl as [[k v]|]; unfold disc; [|unfold VariantNullDiscriminator; lia]. specialize (Hk k v eq_refl). lia.
Qed.

(** C29: The rows of a Variant column of fewer than 255 types survive the wire. Rows that
    were accepted, NULLs, values with the name of their type, and values without one that a
    column takes after every column before it has refused them and stayed as it was
    ([lands]), are read back by the other side in order, each as the value its column stores
    and with the type of that column. The condition on values without a type is needed: a
    column that refuses a value and has already stored part of it corrupts the rows
    ([untyped_append_corrupts]). The element columns keep their contracts and can be sent.
    *)
Theorem variant_survives (args : list variant_arg) (places : list (option (nat * value))) (s : Variant l) (p : gostring) :
  length l < VariantNullDiscriminator → Forall2 lands args places →
  variant_Append l (variant_fresh l) args = Some (s, None) →
  fits_all l H (v_columns s) → variant_WriteStatePrefix l s = Ok p →
  ∃ s1 s2,
    (∀ rest, variant_ReadStatePrefix l (variant_fresh l) (p ++ rest) = Ok (s1, rest))
    ∧ (∀ rest, variant_Decode l s1 (length args) (variant_Encode l s ++ rest) = Ok (s2, rest))
    ∧ ∀ i pl, places !! i = Some pl →
        variant_Row l s2 i = Some (match pl with
                                   | None => None
                                   | Some (k, v) => (λ C, (stored_at l H k v, chType C)) <$> l !! k end).
Proof.
  intros Hlen Hall Hrun Hf Hp.
  destruct (run_variant _ _ Hall Hlen (variant_fresh l) s Hrun) as [R1 R0]. cbn [variant_fresh discriminators app] in R1.
  assert (Forall (place_ok l H) places) as Hok.
  { clear -Hall. induction Hall as [|a pl args places Ha _ IH]; constructor; [by eapply lands_ok|done]. }
  destruct (run_columns l H VariantNullDiscriminator _ _ _ ltac:(lia) R0 Hok [] (holds_fresh l H 0) Hf) as (R2 & _ & R4).
  cbn [app] in R2, R4. rewrite <- R1 in R2.
  unfold variant_WriteStatePrefix in Hp. destruct (tuple_write l (v_columns s)) as [q|] eqn:Eq; [|done]. injection Hp as <-.
  destruct (place_rows_spec (discriminators s) ∅) as [P1 P2].
  destruct (place_rows (discriminators s) ∅) as [os m] eqn:Epl. cbn [fst snd] in P1, P2.
  destruct (decode_holds (λ i, default 0 (m !! variant_uint8 i)) l H (v_columns s) 0 (discriminators s) q R2 Hf) as (ss1 & D1 & ss2 & D2 & D3).
  { intros d Hd. unfold VariantNullDiscriminator in Hlen. rewrite variant_uint8_small by lia. by rewrite P2, lookup_empty. } { done. }
  assert (Forall (λ pl, disc VariantNullDiscriminator pl < 256) places) as Hbyte.
  { clear -Hall Hlen. induction Hall as [|a pl args places Ha _ IH]; constructor; [by apply (lands_lt a)|done]. }
  assert (∀ i k v, places !! i = Some (Some (k, v)) → k < length l) as Hlt.
  { clear -Hall Hlen. intros i k v Hi. destruct (Forall2_lookup_r _ _ _ _ _ Hall Hi) as (a & _ & Ha).
    by eapply (lands_lt a). }
  exists (MkVar [] [] ss1), (MkVar (discriminators s) os ss2). split; [|split].
  - intros rest. unfold variant_ReadStatePrefix. rewrite <- app_assoc, (reads_UInt64 SupportedVariantSerializationVersion) by done.
    cbn. by rewrite D1.
  - intros rest. unfold variant_Decode, variant_Encode. rewrite <- app_assoc.
    cbn [v_columns].
    replace (length args) with (length (Z.of_nat <$> discriminators s)).
    2:{ rewrite length_fmap, R1, length_fmap. symmetry. by eapply Forall2_length. }
    rewrite reads_Vec; [|lia|rewrite R1; by apply disc_byte]. cbn [mbind result_bind rread].
    replace (Z.to_nat <$> (Z.of_nat <$> discriminators s)) with (discriminators s).
    2:{ rewrite <- list_fmap_compose. symmetry. rewrite <- (list_fmap_id (discriminators s)) at 2.
        apply list_fmap_ext. intros j x _. apply Nat2Z.id. }
    rewrite Epl, D2. done.
  - intros i pl Hi. assert (discriminators s !! i = Some (disc VariantNullDiscriminator pl)) as Hd by (rewrite R1, list_lookup_fmap, Hi; done).
    unfold variant_Row. cbn [discriminators v_offsets v_columns]. rewrite Hd. cbn [mbind option_bind].
    rewrite (P1 i _ Hd), lookup_empty. cbn [mbind option_bind from_option id].
    destruct pl as [[k v]|]; cbn [disc]; [|done].
    pose proof (Hlt i k v Hi) as Hk. rewrite (proj2 (Nat.eqb_neq _ _)) by lia.
    cbn [Nat.add]. rewrite D3 by (cbn; by apply count_take).
    specialize (R4 i k v Hi). rewrite <- R1 in R4. rewrite R4.
    destruct (lookup_lt_is_Some_2 l k Hk) as [C HC]. by rewrite HC.
Qed.
End laws.

(** ** A column of Int64 and String *)

Definition demo_cf : intkind → nat → Z → Z := λ _ _ _, 0%Z.
Definition demo_ds : Z → gostring := λ _, [].

Definition demo_types : list Interface := [Int64 (W := leb) demo_cf []; StringColumn (W := leb) demo_ds []].
Definition demo_args : list variant_arg :=
  [ArgVariant (VPrim (PString (str "a"))) (str "String"); ArgNil; ArgPlain (VPrim (PInt KInt64 7))].
Definition demo_variant_laws : all_laws demo_types :=
  (int_laws (W := leb) demo_cf KInt64 [] (str "Int64"), (string_laws (W := leb) demo_ds [], tt)).
Definition demo_variant : Variant demo_types := @MkVar demo_types [1; 255; 0] [] ([7%Z], ([str "a"], tt)).

Lemma variant_survives_witness :
  ∃ s1 s2, variant_ReadStatePrefix (W := leb) demo_types (variant_fresh demo_types) (PutUInt64 (Wire := leb) 0) = Ok (s1, [])
    ∧ variant_Decode (W := leb) demo_types s1 3 (variant_Encode (W := leb) demo_types demo_variant) = Ok (s2, [])
    ∧ variant_Row demo_types s2 0 = Some (Some (VPrim (PString (str "a")), str "String"))
    ∧ variant_Row demo_types s2 1 = Some None
    ∧ variant_Row demo_types s2 2 = Some (Some (VPrim (PInt KInt64 7), str "Int64")).
Proof.
  destruct (variant_survives (W := leb) demo_types demo_variant_laws demo_args
    [Some (1, VPrim (PString (str "a"))); None; Some (0, VPrim (PInt KInt64 7))] demo_variant (PutUInt64 (Wire := leb) 0))
    as (s1 & s2 & H1 & H2 & H3).
  - vm_compute. lia.
  - constructor; [|constructor; [|constructor; [|constructor]]].
    + apply lands_typed; [done|done|reflexivity|]. exact I.
    + constructor.
    + apply (lands_untyped _ _ _ _ 0); [by left|done|cbn; lia|lia| |].
      * intros ss ss' e. cbn. done.
      * vm_compute. done.
  - reflexivity.
  - split; [repeat constructor|]. split; [|done]. constructor; [vm_compute; done|constructor].
  - reflexivity.
  - exists s1, s2. split; [exact (H1 [])|]. split; [|].
    + pose proof (H2 []) as E. rewrite app_nil_r in E. exact E.
    + split; [exact (H3 0 _ eq_refl)|]. split; [exact (H3 1 _ eq_refl)|exact (H3 2 _ eq_refl)].
Defined.

(** ** Limits *)

(** A column that refuses a value may have appended a part of it.  With two types of arrays
    a slice of texts leaves a row without elements in the array of numbers: the row is not
    counted and goes to the server, where the row of texts is read as another one. *)
Definition demo_arrays : list Interface :=
  [ArrayColumn (W := leb) (Int64 (W := leb) demo_cf []) 1 [] (str "Array(Int64)");
   ArrayColumn (W := leb) (StringColumn (W := leb) demo_ds []) 1 [] (str "Array(String)")].

Lemma untyped_append_corrupts :
  ∃ s s2 rest, variant_Append demo_arrays (variant_fresh demo_arrays) [ArgPlain (VSlice GString [VPrim (PString (str "a"))])] = Some (s, None)
    ∧ discriminators s = [1] ∧ offsets (v_columns s).1 = [[1%Z]]
    ∧ variant_Decode (W := leb) demo_arrays (variant_fresh demo_arrays) 1 (variant_Encode (W := leb) demo_arrays s) = Ok (s2, rest)
    ∧ variant_Row demo_arrays s2 0 = Some (Some (VSlice GAny [VPrim (PString [x00])], str "Array(String)")).
Proof.
  do 3 eexists. split; [reflexivity|]. split; [reflexivity|]. split; [reflexivity|]. split; reflexivity.
Qed.

(** Rows of a column that was appended to and not decoded have no place: reading one is an
    index out of range. *)
Lemma appended_rows_unreadable : variant_Row demo_types demo_variant 0 = None.
Proof. reflexivity. Qed.

(** [HasType] is true of a value without a type. *)
Lemma HasType_inverted v : HasType (NewVariant v) = true ∧ HasType (NewVariantWithType v (str "Int64")) = false.
Proof. done. Qed.
