(* ===== verification/ColumnDynamic.v ===== *)
(** * Dynamic columns ([lib/column/dynamic.go], [dynamic_deprecated.go], [dynamic_gen.go],
      [sharedvariant.go])

    A Dynamic column makes a column for every type of value it is given.  A row is given as
    a [chcol.Dynamic], which is [chcol.Variant]: with the name of a type, or without one;
    then the columns there are tried in turn, and at last a type is taken from the Go type
    of the value.  The server is told the names of the types, and for each row the number of
    its column; servers before 25.6 get an older form with the columns in the order of their
    names.  A column is its interface with its state; [None] is a panic. *)

From Stdlib Require Import ZifyBool.
From stdpp Require Import sorting.
From S2P Require Import Prelude GoStd Strconv Wire ProtoPackets Column ColumnLaws ColumnLeaf ColumnType ColumnVariant.
Local Open Scope Z_scope.
#[local] Set Warnings "-register-all".

(** ** The type of a Go value ([dynamic_gen.go]) *)

Definition prim_type (p : prim) : option gotype :=
  match p with
  | PInt k _ => Some (GInt k)
  | PFloat w _ => Some (GFloat w)
  | PBool _ => Some GBool
  | PString _ => Some GString
  | PDuration _ => Some GDuration
  | PStringer _ => None
  | PExt x _ => Some (GExt (ext_kind x))
  end.

Fixpoint value_type (v : value) : option gotype :=
  match v with
  | VPrim p => prim_type p
  | VNullable t _ => Some (GNull t)
  | VNilPtr t => Some (GPtr t)
  | VPtr v => GPtr <$> value_type v
  | VSlice t _ => Some (GSlice t)
  | VNilMap k v | VMap k v _ => Some (GMap k v)
  | _ => None
  end.

(** The types of the package orb, by their names. *)
Definition orb_types : list (gostring * gostring) :=
  (λ n, (str "orb." ++ n, n)) <$>
    [str "LineString"; str "MultiLineString"; str "MultiPolygon"; str "Point"; str "Polygon"; str "Ring"].

Definition infer_scalar (t : gotype) : option gostring :=
  match t with
  | GFloat 4 => Some (str "Float32")
  | GFloat 8 => Some (str "Float64")
  | GInt (KInt | KUint) => None
  | GInt k => Some (int_name k)
  | GString | GNull GString => Some (str "String")
  | GBool | GNull GBool => Some (str "Bool")
  | GExt KTime | GNull (GExt KTime) => Some (str "DateTime64(3)")
  | GExt KUUID => Some (str "UUID")
  | GExt KIPv6 => Some (str "IPv6")
  | GExt (KOther n) =>
      if bool_decide (n = str "json.RawMessage") then Some (str "String")
      else snd <$> List.find (λ on, bool_decide (on.1 = n)) orb_types
  | _ => None
  end.

(** A slice of bytes is no array of numbers. *)
Definition infer_type (t : gotype) : option gostring :=
  match t with
  | GPtr t => infer_scalar t
  | GSlice (GInt KUint8) => None
  | GSlice (GPtr t) | GSlice t => (λ n, str "Array(" ++ n ++ str ")") <$> infer_scalar t
  | GMap GString t => (λ n, str "Map(String, " ++ n ++ str ")") <$> infer_scalar t
  | t => infer_scalar t
  end.

Definition inferClickHouseTypeFromGoType (v : value) : gostring :=
  default [] (t ← value_type v; infer_type t).

(** ** The column *)

Definition DynamicSerializationVersion : Z := 3.
Definition DynamicDeprecatedSerializationVersion : Z := 1.
Definition DynamicNullDiscriminator : Z := -1.
Definition DefaultMaxDynamicTypes : Z := 32.

Definition supportsFlatDynamicJSON (major minor : Z) : bool := (25 <? major) || ((major =? 25) && (6 <=? minor)).

(** A column with its state. *)
Definition column_value : Type := { C : Interface & state C }.
Definition ctype (c : column_value) : gostring := chType (projT1 c).
Definition new_column (C : Interface) : column_value := existT C (fresh C).

Record Dynamic := MkDynamic {
  serializationVersion : Z;
  totalTypes : Z;
  dyn_discriminators : list Z;
  dyn_offsets : list nat;
  dyn_columns : list column_value;
  columnIndexByType : gmap gostring nat;
  maxTypes : Z;
  typeNames : list gostring
}.

Definition dyn_empty : Dynamic := MkDynamic 0 0 [] [] [] ∅ 0 [].

Definition addColumn (s : Dynamic) (c : column_value) : Dynamic * nat :=
  let names := typeNames s ++ [ctype c] in
  let colIndex := (length names - 1)%nat in
  (MkDynamic (serializationVersion s) (totalTypes s + 1) (dyn_discriminators s) (dyn_offsets s) (dyn_columns s ++ [c])
     (<[ctype c := colIndex]> (columnIndexByType s)) (maxTypes s) names, colIndex).

Definition appendDiscriminatorRow (d : Z) (s : Dynamic) : Dynamic :=
  MkDynamic (serializationVersion s) (totalTypes s) (dyn_discriminators s ++ [d]) (dyn_offsets s) (dyn_columns s)
    (columnIndexByType s) (maxTypes s) (typeNames s).

Definition with_columns (cs : list column_value) (s : Dynamic) : Dynamic :=
  MkDynamic (serializationVersion s) (totalTypes s) (dyn_discriminators s) (dyn_offsets s) cs
    (columnIndexByType s) (maxTypes s) (typeNames s).

Section dynamic.
Context {W : Wire}.
Variable duration_string : Z → gostring.
(** [Type.Column] with an empty name. *)
Variable column : gostring → option (result cerr Interface).
(** [supportsFlatDynamicJSON] of the server. *)
Variable flat : bool.

(** A String column under another type ([sharedvariant.go]). *)
Definition SharedVariant : Interface :=
  let I := StringColumn duration_string [] in
  MkInterface (state I) (fresh I) [] (str "SharedVariant") (ScanType I) (Rows I) (Row I) (AppendRow I) (Append I) (Reset I)
    (Encode I) (Decode I) None.

(** [max_types=N] of an older server; a text that is no number leaves the default. *)
Definition parse_max_types (p : gostring) : option Z :=
  if HasPrefix p (str "max_types=") then Atoi (drop 10 p) else None.

Definition dynamic_parse (t : gostring) : result cerr Dynamic :=
  let s := if flat then dyn_empty
           else let s := (addColumn dyn_empty (new_column SharedVariant)).1 in
                MkDynamic 0 0 [] [] (dyn_columns s) (columnIndexByType s) DefaultMaxDynamicTypes (typeNames s) in
  if bool_decide (t = str "Dynamic") then Ok s
  else if negb (HasPrefix t (str "Dynamic(")) || negb (HasPrefix (reverse t) (str ")")) then Err (UnsupportedColumnTypeError t)
  else if flat then Ok s
  else match parse_max_types (TrimSuffix (drop 8 t) ")") with
       | Some n => Ok (MkDynamic 0 0 [] [] (dyn_columns s) (columnIndexByType s) n (typeNames s))
       | None => Ok s
       end.

(** [col.AppendRow(v)] of the column at [i]. *)
Definition append_column (cs : list column_value) (i : nat) (v : value) : option (list column_value * option cerr) :=
  c ← cs !! i;
  '(st, e) ← AppendRow (projT1 c) (projT2 c) v;
  Some (<[i := existT (projT1 c) st]> cs, e).

Definition append_to (s : Dynamic) (i : nat) (v : value) : option (Dynamic * option cerr) :=
  '(cs, e) ← append_column (dyn_columns s) i v;
  match e with
  | None => Some (appendDiscriminatorRow (Z.of_nat i) (with_columns cs s), None)
  | Some e => Some (with_columns cs s, Some e)
  end.

Definition append_requested (s : Dynamic) (v : value) (ty : gostring) : option (Dynamic * option cerr) :=
  match columnIndexByType s !! ty with
  | Some i => append_to s i v
  | None =>
      r ← column ty;
      match r with
      | Err e => Some (s, Some e)
      | Ok C => let '(s, i) := addColumn s (new_column C) in append_to s i v
      end
  end.

(** The columns in turn; a SharedVariant is passed over.  One that fails keeps what it has
    appended before the failure. *)
Fixpoint try_each (n i : nat) (s : Dynamic) (v : value) : option (Dynamic * bool) :=
  match n with
  | O => Some (s, false)
  | S n =>
      name ← typeNames s !! i;
      if bool_decide (name = str "SharedVariant") then try_each n (S i) s v
      else '(s, e) ← append_to s i v;
           match e with None => Some (s, true) | Some _ => try_each n (S i) s v end
  end.

Definition append_any (s : Dynamic) (v : value) : option (Dynamic * option cerr) :=
  '(s, found) ← try_each (length (dyn_columns s)) 0 s v;
  if found : bool then Some (s, None)
  else match inferClickHouseTypeFromGoType v with
       | [] => Some (s, Some ColumnConverterError)
       | ty => append_requested s v ty
       end.

Definition dynamic_AppendRow (s : Dynamic) (a : variant_arg) : option (Dynamic * option cerr) :=
  match a with
  | ArgNil | ArgPlain VNil | ArgVariant VNil _ => Some (appendDiscriminatorRow DynamicNullDiscriminator s, None)
  | ArgNilPointer => None
  | ArgVariant v ty => if decide (ty = []) then append_any s v else append_requested s v ty
  | ArgPlain v => append_any s v
  end.

Definition dynamic_Append (s : Dynamic) (args : list variant_arg) : option (Dynamic * option cerr) :=
  append_each dynamic_AppendRow s args.

(** The number that stands for NULL in rows that were read. *)
Definition null_index (s : Dynamic) : Z :=
  if serializationVersion s =? DynamicDeprecatedSerializationVersion then DynamicNullDiscriminator else totalTypes s.

(** [c.columns[typeIndex].Row(offsetIndex)]. *)
Definition column_row (cs : list column_value) (d : Z) (k : nat) : option (value * gostring) :=
  if d <? 0 then None
  else c ← cs !! Z.to_nat d; v ← Row (projT1 c) (projT2 c) k; Some (v, ctype c).

Definition dynamic_Row (s : Dynamic) (i : nat) : option (option (value * gostring)) :=
  d ← dyn_discriminators s !! i;
  k ← dyn_offsets s !! i;
  if d =? null_index s then Some None
  else r ← column_row (dyn_columns s) d k; Some (Some r).

(** [ScanRow]: see [variant_ScanRow]. *)
Definition dynamic_ScanRow {D} (scan : nat → nat → D → option (result cerr D)) (s : Dynamic) (i : nat) (dest : chcol_Variant + D)
    : option (result cerr (chcol_Variant + D)) :=
  r ← dynamic_Row s i;
  match dest, r with
  | inl _, None => Some (Ok (inl (MkVariant VNil [])))
  | inl _, Some (v, ty) => Some (Ok (inl (MkVariant v ty)))
  | inr x, None => Some (Ok (inr x))
  | inr x, Some _ =>
      d ← dyn_discriminators s !! i; k ← dyn_offsets s !! i;
      y ← scan (Z.to_nat d) k x; Some (match y with Ok x => Ok (inr x) | Err e => Err e end)
  end.

Definition dynamic_Reset (s : Dynamic) : Dynamic :=
  MkDynamic (serializationVersion s) (totalTypes s) [] (dyn_offsets s)
    ((λ c, existT (projT1 c) (Reset (projT1 c) (projT2 c))) <$> dyn_columns s)
    (columnIndexByType s) (maxTypes s) (typeNames s).

(** ** Writing *)

Fixpoint write_columns (cs : list column_value) : result cerr gostring :=
  match cs with
  | [] => Ok []
  | c :: cs => p ← write_prefix (projT1 c) (projT2 c); q ← write_columns cs; Ok (p ++ q)
  end.

Definition dyn_encode_columns (cs : list column_value) : gostring :=
  concat ((λ c, Encode (projT1 c) (projT2 c)) <$> cs).

Definition encodeHeader (s : Dynamic) : result cerr gostring :=
  p ← write_columns (dyn_columns s);
  Ok (PutUInt64 DynamicSerializationVersion ++ PutUVarInt (totalTypes s)
      ++ concat ((λ c, PutString (ctype c)) <$> dyn_columns s) ++ p).

(** [discriminatorWriter] and [discriminatorReader]: the bytes of a number. *)
Definition discriminator_width (total : Z) : nat :=
  if total <=? 2 ^ 8 - 1 then 1 else if total <=? 2 ^ 16 - 1 then 2 else if total <=? 2 ^ 32 - 1 then 4 else 8.

Definition discriminatorWriter (total d : Z) : Z := d mod 256 ^ Z.of_nat (discriminator_width total).

Definition encodeData (s : Dynamic) : gostring :=
  PutVec (discriminator_width (totalTypes s))
    ((λ d, discriminatorWriter (totalTypes s) (if d =? DynamicNullDiscriminator then totalTypes s else d)) <$> dyn_discriminators s)
  ++ dyn_encode_columns (dyn_columns s).

(** [sortColumnsForEncoding] of an older server.  The new slice of columns begins with nils;
    a nil that stays there, which takes two columns of one type, is a panic later. *)
Fixpoint name_leb (a b : gostring) : bool :=
  match a, b with
  | [], _ => true
  | _ :: _, [] => false
  | x :: a, y :: b => (bz x <? bz y) || ((bz x =? bz y) && name_leb a b)
  end.
Definition name_le (a b : gostring) : Prop := name_leb a b = true.
#[local] Instance name_le_dec a b : Decision (name_le a b).
Proof. unfold name_le. apply _. Defined.

Definition sort_names (l : list gostring) : list gostring := merge_sort name_le l.

Definition index_names (m : gmap gostring nat) (names : list gostring) : gmap gostring nat :=
  foldl (λ m ni, <[ni.1 := ni.2]> m) m (zip names (seq 0 (length names))).

Fixpoint place_columns (m : gmap gostring nat) (names : list gostring) (cs : list column_value) (sorted : list (option column_value))
    : option (list nat * list (option column_value)) :=
  match names, cs with
  | [], _ => Some ([], sorted)
  | name :: names, c :: cs =>
      let j := default 0%nat (m !! name) in
      sorted ← set_index sorted j (Some c);
      '(ds, sorted) ← place_columns m names cs sorted;
      Some (j :: ds, sorted)
  | _ :: _, [] => None
  end.

Definition sortColumnsForEncoding (s : Dynamic) : option Dynamic :=
  let names := sort_names (typeNames s) in
  let index := index_names (columnIndexByType s) names in
  '(moved, sorted) ← place_columns index (typeNames s) (dyn_columns s) (replicate (length (dyn_columns s)) None);
  cs ← mapM id sorted;
  ds ← mapM (λ d, if d =? DynamicNullDiscriminator then Some d
                  else if d <? 0 then None else Z.of_nat <$> moved !! Z.to_nat d) (dyn_discriminators s);
  Some (MkDynamic (serializationVersion s) (totalTypes s) ds (dyn_offsets s) cs index (maxTypes s) names).

Definition encodeHeader_v1 (s : Dynamic) : option (Dynamic * result cerr gostring) :=
  s ← sortColumnsForEncoding s;
  Some (s, p ← write_columns (dyn_columns s);
           Ok (PutUInt64 DynamicDeprecatedSerializationVersion ++ PutUVarInt (maxTypes s) ++ PutUVarInt (totalTypes s)
               ++ concat (PutString <$> List.filter (λ n, negb (bool_decide (n = str "SharedVariant"))) (typeNames s))
               ++ PutUInt64 SupportedVariantSerializationVersion ++ p)).

Definition encodeData_v1 (s : Dynamic) : gostring :=
  PutVec 1 ((λ d, (if d =? DynamicNullDiscriminator then Z.of_nat VariantNullDiscriminator else d) mod 256) <$> dyn_discriminators s)
  ++ dyn_encode_columns (dyn_columns s).

Definition dynamic_WriteStatePrefix (s : Dynamic) : option (Dynamic * result cerr gostring) :=
  if flat then Some (s, encodeHeader s) else encodeHeader_v1 s.

Definition dynamic_Encode (s : Dynamic) : gostring := if flat then encodeData s else encodeData_v1 s.

(** ** Reading *)

(** The columns of the names, added in order; a panic of [Type.Column] is [None]. *)
Fixpoint add_names (s : Dynamic) (names : list gostring) : option (result cerr Dynamic) :=
  match names with
  | [] => Some (Ok s)
  | n :: names =>
      r ← column n;
      match r with Err e => Some (Err e) | Ok C => add_names (addColumn s (new_column C)).1 names end
  end.

Fixpoint read_columns (cs : list column_value) (b : gostring) : result cerr (list column_value * gostring) :=
  match cs with
  | [] => Ok ([], b)
  | c :: cs =>
      '(st, b) ← read_prefix (projT1 c) (projT2 c) b;
      '(cs, b) ← read_columns cs b;
      Ok (existT (projT1 c) st :: cs, b)
  end.

(** [decodeHeader]: a name is read and its column made, then the next. *)
Fixpoint read_types (n : nat) (s : Dynamic) (b : gostring) : option (result cerr (Dynamic * gostring)) :=
  match n with
  | O => Some (Ok (s, b))
  | S n =>
      match RStr b with
      | None => Some (Err ReadError)
      | Some (name, b) =>
          r ← column name;
          match r with Err e => Some (Err e) | Ok C => read_types n (addColumn s (new_column C)).1 b end
      end
  end.

Definition read_prefixes (s : Dynamic) (b : gostring) : result cerr (Dynamic * gostring) :=
  '(cs, b) ← read_columns (dyn_columns s) b; Ok (with_columns cs s, b).

Definition decodeHeader (s : Dynamic) (b : gostring) : option (result cerr (Dynamic * gostring)) :=
  match RUVarInt b with
  | None => Some (Err ReadError)
  | Some (total, b) =>
      let s := MkDynamic (serializationVersion s) (totalTypes s) (dyn_discriminators s) (dyn_offsets s) [] ∅ (maxTypes s) (typeNames s) in
      r ← read_types (Z.to_nat total) s b;
      Some (match r with Err e => Err e | Ok (s, b) => read_prefixes s b end)
  end.

(** The places of the rows: [rowCountByType] is a slice with [totalTypes] entries. *)
Fixpoint place_types (ds : list Z) (total : Z) (rowCountByType : list nat) : option (list nat * list nat) :=
  match ds with
  | [] => Some ([], rowCountByType)
  | d :: ds =>
      if d =? total then '(os, m) ← place_types ds total rowCountByType; Some (0%nat :: os, m)
      else k ← rowCountByType !! Z.to_nat d;
           '(os, m) ← place_types ds total (<[Z.to_nat d := S k]> rowCountByType);
           Some (k :: os, m)
  end.

(** The rows of each column; [None] of [count] is an index out of range. *)
Fixpoint dyn_decode_columns (count : nat → option nat) (i : nat) (cs : list column_value) (b : gostring)
    : option (result cerr (list column_value * gostring)) :=
  match cs with
  | [] => Some (Ok ([], b))
  | c :: cs =>
      n ← count i;
      match Decode (projT1 c) (projT2 c) n b with
      | Err e => Some (Err e)
      | Ok (st, b) =>
          r ← dyn_decode_columns count (S i) cs b;
          Some (match r with Err e => Err e | Ok (cs, b) => Ok (existT (projT1 c) st :: cs, b) end)
      end
  end.

Definition with_rows (ds : list Z) (os : list nat) (s : Dynamic) (r : result cerr (list column_value * gostring))
    : result cerr (Dynamic * gostring) :=
  '(cs, b) ← r;
  Ok (MkDynamic (serializationVersion s) (totalTypes s) ds os cs (columnIndexByType s) (maxTypes s) (typeNames s), b).

Definition decodeData (s : Dynamic) (rows : nat) (b : gostring) : option (result cerr (Dynamic * gostring)) :=
  match RVec (discriminator_width (totalTypes s)) rows b with
  | None => Some (Err ReadError)
  | Some (ds, b) =>
      '(os, counts) ← place_types ds (totalTypes s) (replicate (Z.to_nat (totalTypes s)) 0%nat);
      r ← dyn_decode_columns (λ i, counts !! i) 0 (dyn_columns s) b;
      Some (with_rows ds os s r)
  end.

Fixpoint read_names (n : nat) (b : gostring) : option (list gostring * gostring) :=
  match n with
  | O => Some ([], b)
  | S n => '(name, b) ← RStr b; '(names, b) ← read_names n b; Some (name :: names, b)
  end.

Definition decodeHeader_v1 (s : Dynamic) (b : gostring) : option (result cerr (Dynamic * gostring)) :=
  match (max ← RUVarInt b; total ← RUVarInt max.2; names ← read_names (Z.to_nat total.1) total.2; Some (max.1, total.1, names)) with
  | None => Some (Err ReadError)
  | Some (max, total, (names, b)) =>
      let names := sort_names (names ++ [str "SharedVariant"]) in
      let s := MkDynamic (serializationVersion s) (totalTypes s) (dyn_discriminators s) (dyn_offsets s) [] ∅ (i64 max) [] in
      r ← add_names s names;
      Some (match r with
            | Err e => Err e
            | Ok s =>
                let s := MkDynamic (serializationVersion s) (i64 total) (dyn_discriminators s) (dyn_offsets s) (dyn_columns s)
                           (columnIndexByType s) (maxTypes s) (typeNames s) in
                '(version, b) ← rread (RUInt64 b);
                if version =? SupportedVariantSerializationVersion then read_prefixes s b
                else Err (ColumnError (str "unsupported variant discriminator version"))
            end)
  end.

Definition decodeData_v1 (s : Dynamic) (rows : nat) (b : gostring) : option (result cerr (Dynamic * gostring)) :=
  match RVec 1 rows b with
  | None => Some (Err ReadError)
  | Some (bs, b) =>
      let '(os, m) := place_rows (Z.to_nat <$> bs) ∅ in
      let ds := (λ d, if d =? Z.of_nat VariantNullDiscriminator then DynamicNullDiscriminator else d) <$> bs in
      r ← dyn_decode_columns (λ i, Some (if (i =? VariantNullDiscriminator)%nat then 0%nat else default 0%nat (m !! i))) 0 (dyn_columns s) b;
      Some (with_rows ds os s r)
  end.

Definition with_version (v : Z) (s : Dynamic) : Dynamic :=
  MkDynamic v (totalTypes s) (dyn_discriminators s) (dyn_offsets s) (dyn_columns s) (columnIndexByType s) (maxTypes s) (typeNames s).

Definition dynamic_ReadStatePrefix (s : Dynamic) (b : gostring) : option (result cerr (Dynamic * gostring)) :=
  match RUInt64 b with
  | None => Some (Err ReadError)
  | Some (version, b) =>
      let s := with_version version s in
      if version =? DynamicSerializationVersion then decodeHeader s b
      else if version =? DynamicDeprecatedSerializationVersion then decodeHeader_v1 s b
      else Some (Err (ColumnError (str "unsupported dynamic serialization version")))
  end.

Definition dynamic_Decode (s : Dynamic) (rows : nat) (b : gostring) : option (result cerr (Dynamic * gostring)) :=
  if serializationVersion s =? DynamicSerializationVersion then decodeData s rows b
  else if serializationVersion s =? DynamicDeprecatedSerializationVersion then decodeData_v1 s rows b
  else Some (Err (ColumnError (str "unsupported dynamic serialization version"))).
End dynamic.

(** ** The columns of a Dynamic column as those of a Variant column

    The states of the columns of the last types [l]; columns that are made later stand
    there as new ones. *)
Fixpoint agree (l : list Interface) : states l → list column_value → Prop :=
  match l with
  | [] => λ _ cs, cs = []
  | C :: l => λ ss cs, match cs with
                       | [] => ss = fresh_all (C :: l)
                       | c :: cs => c = existT C ss.1 ∧ agree l ss.2 cs
                       end
  end.

Section laws.
Context {W : Wire} {L : WireLaws W}.

Lemma agree_nil l : agree l (fresh_all l) [].
Proof. by destruct l. Qed.

Lemma agree_length l ss cs : agree l ss cs → (length cs ≤ length l)%nat.
Proof.
  revert cs. induction l as [|C l IH]; intros [|c cs] Ha; cbn; try lia; [done|]. destruct Ha as [_ Ha]. specialize (IH _ _ Ha). lia.
Qed.

Lemma agree_add l ss cs C : agree l ss cs → l !! length cs = Some C → agree l ss (cs ++ [new_column C]).
Proof.
  revert cs. induction l as [|C' l IH]; intros [|c cs] Ha Hl; try done.
  - injection Hl as ->. cbn in Ha. subst ss. split; [done|apply agree_nil].
  - destruct Ha as [-> Ha]. split; [done|]. by apply IH.
Qed.

Lemma append_column_cons c cs i v :
  append_column (c :: cs) (S i) v = '(cs', e) ← append_column cs i v; Some (c :: cs', e).
Proof.
  unfold append_column. change ((c :: cs) !! S i) with (cs !! i). destruct (cs !! i) as [d|]; [|done].
  cbn [mbind option_bind]. by destruct (AppendRow (projT1 d) (projT2 d) v) as [[st e]|].
Qed.

Lemma agree_append l ss cs i v cs' e : agree l ss cs → append_column cs i v = Some (cs', e) →
  ∃ ss', append_at l ss i v = Some (ss', e) ∧ agree l ss' cs' ∧ projT1 <$> cs' = projT1 <$> cs.
Proof.
  revert cs i cs'. induction l as [|C l IH]; intros [|c cs] i cs' Ha Happ; try done.
  destruct Ha as [-> Ha]. destruct i as [|i].
  - unfold append_column in Happ. cbn in Happ.
    destruct (AppendRow C ss.1 v) as [[st e']|] eqn:E; [|done]. cbn in Happ. injection Happ as <- ->.
    exists (st, ss.2). cbn. by rewrite E.
  - rewrite append_column_cons in Happ. destruct (append_column cs i v) as [[cs1 e1]|] eqn:E; [|done].
    injection Happ as <- ->. destruct (IH ss.2 cs i cs1 Ha E) as (ss' & H1 & H2 & H3).
    exists (ss.1, ss'). cbn. rewrite H1. split; [done|]. split; [done|]. by f_equal.
Qed.

(** With all columns made, writing and reading are those of the states. *)
Fixpoint pack (l : list Interface) : states l → list column_value :=
  match l with [] => λ _, [] | C :: l => λ ss, existT C ss.1 :: pack l ss.2 end.

Lemma agree_pack l ss cs : agree l ss cs → length cs = length l → cs = pack l ss.
Proof.
  revert cs. induction l as [|C l IH]; intros [|c cs] Ha Hlen; try done. destruct Ha as [-> Ha]. cbn. f_equal. apply IH; [done|].
  by injection Hlen.
Qed.

Lemma pack_fresh l : pack l (fresh_all l) = new_column <$> l.
Proof. induction l as [|C l IH]; [done|]. cbn. by rewrite IH. Qed.

Lemma pack_types l ss : projT1 <$> pack l ss = l.
Proof. induction l as [|C l IH]; [done|]. exact (f_equal (cons C) (IH ss.2)). Qed.

Lemma pack_write l ss : write_columns (pack l ss) = tuple_write l ss ∧ dyn_encode_columns (pack l ss) = tuple_Encode l ss.
Proof.
  induction l as [|C l IH]; [done|]. destruct (IH ss.2) as [H1 H2]. unfold dyn_encode_columns in *. cbn. by rewrite H1, H2.
Qed.

Lemma pack_read l : ∀ ss b ss1 r, tuple_read l ss b = Ok (ss1, r) → read_columns (pack l ss) b = Ok (pack l ss1, r).
Proof.
  induction l as [|C l IH]; intros ss b ss1 r Hr; [by injection Hr as <- <-|].
  cbn [tuple_read] in Hr. cbn [pack read_columns projT1 projT2].
  destruct (read_prefix C ss.1 b) as [[st b1]|] eqn:E; [|done]. cbn [mbind result_bind] in *.
  destruct (tuple_read l ss.2 b1) as [[ss2 b2]|] eqn:E2; [|done]. injection Hr as <- <-. by rewrite (IH _ _ _ _ E2).
Qed.

Lemma pack_decode rows count l : ∀ ss i b ss1 r, (∀ j, (i ≤ j < i + length l)%nat → count j = Some (rows j)) →
  decode_each rows l ss i b = Ok (ss1, r) → dyn_decode_columns count i (pack l ss) b = Some (Ok (pack l ss1, r)).
Proof.
  induction l as [|C l IH]; intros ss i b ss1 r Hc Hr; [by injection Hr as <- <-|]. cbn in Hr. cbn [pack dyn_decode_columns].
  rewrite (Hc i) by (cbn; lia). cbn [mbind option_bind projT1 projT2].
  destruct (Decode C ss.1 (rows i) b) as [[st b1]|] eqn:E; [|done]. cbn in Hr.
  destruct (decode_each rows l ss.2 (S i) b1) as [[ss2 b2]|] eqn:E2; [|done]. injection Hr as <- <-.
  rewrite (IH ss.2 (S i) b1 ss2 b2 ltac:(intros j Hj; apply Hc; cbn; lia) E2). done.
Qed.

Lemma pack_row l ss d k : column_row (pack l ss) (Z.of_nat d) k = row_at l ss d k.
Proof.
  unfold column_row. replace (Z.of_nat d <? 0) with false by lia. rewrite Nat2Z.id.
  revert d. induction l as [|C l IH]; intros d; [done|]. destruct d as [|d]; [done|]. exact (IH ss.2 d).
Qed.

(** ** The places of the rows *)

Lemma count_step (o : option nat) d e ds :
  (λ n, n + count d (e :: ds))%nat <$> o = (λ n, n + count d ds)%nat <$> ((λ n, n + (if (d =? e)%nat then 1 else 0))%nat <$> o).
Proof. destruct o as [n|]; [|done]. apply (f_equal Some). cbn beta. rewrite count_cons. lia. Qed.

Lemma count_same (o : option nat) (z : nat) : z = 0%nat → (λ n, n + z)%nat <$> o = o.
Proof. intros ->. destruct o as [n|]; [|done]. apply (f_equal Some). lia. Qed.

Lemma place_types_spec N ds : Forall (λ d, d ≤ N)%nat ds → ∀ counts, length counts = N →
  ∃ os counts', place_types (Z.of_nat <$> ds) (Z.of_nat N) counts = Some (os, counts') ∧ length counts' = N ∧ length os = length ds
  ∧ (∀ d, (d < N)%nat → counts' !! d = (λ n, n + count d ds)%nat <$> counts !! d)
  ∧ ∀ i d, ds !! i = Some d → (d < N)%nat → os !! i = (λ n, n + count d (take i ds))%nat <$> counts !! d.
Proof.
  induction 1 as [|e ds He Hds IH]; intros counts Hl.
  { exists [], counts. split; [done|]. split; [done|]. split; [done|]. split; [|done]. intros d Hd. by rewrite count_same. }
  rewrite fmap_cons. cbn [place_types]. destruct (Z.of_nat e =? Z.of_nat N) eqn:E.
  - destruct (IH counts Hl) as (os & counts' & -> & H1 & H2 & H3 & H4). exists (0%nat :: os), counts'.
    split; [done|]. split; [done|]. split; [cbn; lia|]. split.
    + intros d Hd. rewrite H3, count_step by done. f_equal. rewrite count_same; [done|]. by replace (d =? e)%nat with false by lia.
    + intros [|i] d Hi Hd; [injection Hi as ->; lia|]. change ((0%nat :: os) !! S i) with (os !! i). cbn [take].
      rewrite (H4 i d Hi Hd), count_step. f_equal. rewrite count_same; [done|]. by replace (d =? e)%nat with false by lia.
  - assert (e < N)%nat as Hlt by lia. rewrite Nat2Z.id. destruct (lookup_lt_is_Some_2 counts e) as [k Hk]; [lia|].
    rewrite Hk. cbn [mbind option_bind].
    destruct (IH (<[e := S k]> counts) ltac:(by rewrite length_insert)) as (os & counts' & -> & H1 & H2 & H3 & H4).
    exists (k :: os), counts'. split; [done|]. split; [done|]. split; [cbn; lia|].
    assert (∀ d, (d < N)%nat → <[e := S k]> counts !! d = (λ n, n + (if (d =? e)%nat then 1 else 0))%nat <$> counts !! d) as Hins.
    { intros d Hd. destruct (decide (d = e)) as [->|Hne].
      - rewrite list_lookup_insert_eq by lia. rewrite Hk, Nat.eqb_refl. apply (f_equal Some). lia.
      - rewrite list_lookup_insert_ne by done. rewrite count_same; [done|]. by replace (d =? e)%nat with false by lia. }
    split.
    + intros d Hd. by rewrite H3, Hins, count_step by done.
    + intros [|i] d Hi Hd.
      * injection Hi as ->. rewrite Hk. apply (f_equal Some). cbn. lia.
      * change ((k :: os) !! S i) with (os !! i). cbn [take]. by rewrite (H4 i d Hi Hd), Hins, count_step by done.
Qed.

Lemma width_holds N d : (0 ≤ d ≤ N)%Z → N < 2 ^ 63 →
  (0 < discriminator_width N)%nat ∧ uint (discriminator_width N) d ∧ discriminatorWriter N d = d.
Proof.
  intros Hd HN. assert (uint (discriminator_width N) d) as Hu.
  { unfold uint, discriminator_width. destruct (N <=? 2 ^ 8 - 1) eqn:E1; [lia|]. destruct (N <=? 2 ^ 16 - 1) eqn:E2; [lia|].
    destruct (N <=? 2 ^ 32 - 1) eqn:E3; lia. }
  split; [|split; [done|]].
  - unfold discriminator_width. repeat case_match; lia.
  - unfold discriminatorWriter. apply Z.mod_small. exact Hu.
Qed.

Section run.
Variable column : gostring → option (result cerr Interface).

(** ** Reading the types back *)

Lemma read_types_back l : Forall (λ C, column (chType C) = Some (Ok C) ∧ go_len (chType C)) l → ∀ s,
  ∃ s1, (∀ rest, read_types column (length l) s (concat ((λ C, PutString (chType C)) <$> l) ++ rest) = Some (Ok (s1, rest)))
  ∧ dyn_columns s1 = dyn_columns s ++ (new_column <$> l) ∧ totalTypes s1 = totalTypes s + Z.of_nat (length l)
  ∧ serializationVersion s1 = serializationVersion s.
Proof.
  induction 1 as [|C l [HC Hlen] Hall IH]; intros s.
  - exists s. split; [done|]. rewrite app_nil_r. cbn. split; [done|]. split; [lia|done].
  - destruct (IH (addColumn s (new_column C)).1) as (s1 & H1 & H2 & H3 & H4). exists s1. split.
    { intros rest. cbn [length read_types fmap list_fmap concat]. rewrite <- app_assoc, (reads_Str (chType C)) by done. rewrite HC. apply H1. }
    cbn in H2, H3, H4. rewrite <- app_assoc in H2. split; [done|]. split; [cbn; lia|done].
Qed.

(** ** Appending *)

(** The value of a row, [None] for NULL. *)
Definition payload (a : variant_arg) : option value :=
  match a with
  | ArgVariant VNil _ | ArgPlain VNil | ArgNil | ArgNilPointer => None
  | ArgVariant v _ | ArgPlain v => Some v
  end.

(** A column that refuses the value stays as it is; only rows without a type are tried. *)
Definition refuses_cleanly (s : Dynamic) (v : value) : Prop :=
  ∀ i c st e, dyn_columns s !! i = Some c → AppendRow (projT1 c) (projT2 c) v = Some (st, Some e) → st = projT2 c.

Definition tidy (s : Dynamic) (a : variant_arg) : Prop :=
  match a with ArgPlain v | ArgVariant v [] => refuses_cleanly s v | _ => True end.

Fixpoint tidy_run (s : Dynamic) (args : list variant_arg) : Prop :=
  match args with
  | [] => True
  | a :: args => tidy s a ∧ ∀ s', dynamic_AppendRow column s a = Some (s', None) → tidy_run s' args
  end.

Inductive grown (s : Dynamic) : Dynamic → Prop :=
| grown_not : grown s s
| grown_by ty C : column ty = Some (Ok C) → grown s (addColumn s (new_column C)).1.

Lemma with_columns_id s : with_columns (dyn_columns s) s = s.
Proof. by destruct s. Qed.

Lemma append_to_refused s i v s' e : refuses_cleanly s v → append_to s i v = Some (s', Some e) → s' = s.
Proof.
  unfold append_to, append_column. intros Hc H. destruct (dyn_columns s !! i) as [c|] eqn:Ei; [|done]. cbn [mbind option_bind] in H.
  destruct (AppendRow (projT1 c) (projT2 c) v) as [[st [e'|]]|] eqn:Ea; [|done|done]. cbn in H. injection H as <- _.
  rewrite (Hc i c st e' Ei Ea). rewrite list_insert_id; [apply with_columns_id|]. by destruct c.
Qed.

Lemma try_each_lands s v n i s' found : refuses_cleanly s v → try_each n i s v = Some (s', found) →
  if found then ∃ k, append_to s k v = Some (s', None) else s' = s.
Proof.
  intros Hc. revert i. induction n as [|n IH]; intros i H; cbn in H; [by injection H as <- <-|].
  destruct (typeNames s !! i) as [name|]; [|done]. cbn [mbind option_bind] in H. case_bool_decide; [by eapply IH|].
  destruct (append_to s i v) as [[s1 [e|]]|] eqn:Ea; cbn in H; [|injection H as <- <-; by exists i|done].
  apply append_to_refused in Ea as ->; [|done]. by eapply IH.
Qed.

Lemma requested_lands s v ty s' : append_requested column s v ty = Some (s', None) →
  ∃ s0 k, grown s s0 ∧ append_to s0 k v = Some (s', None)
    ∧ (columnIndexByType s !! ty = Some k ∨ ∃ C, column ty = Some (Ok C) ∧ (s0, k) = addColumn s (new_column C)).
Proof.
  unfold append_requested. destruct (columnIndexByType s !! ty) as [k|] eqn:Ek; intros H.
  - exists s, k. split; [constructor|]. by split; [|left].
  - destruct (column ty) as [[C|e]|] eqn:Ec; cbn in H; [|done|done].
    exists (addColumn s (new_column C)).1, (addColumn s (new_column C)).2. split; [by eapply grown_by|]. split; [done|].
    right. by exists C.
Qed.

(** Where a row goes. *)
Lemma AppendRow_lands s a s' : tidy s a → dynamic_AppendRow column s a = Some (s', None) →
  match payload a with
  | None => s' = appendDiscriminatorRow DynamicNullDiscriminator s
  | Some v => ∃ s0 k, grown s s0 ∧ append_to s0 k v = Some (s', None)
  end.
Proof.
  assert (∀ v, refuses_cleanly s v → append_any column s v = Some (s', None) →
    ∃ s0 k, grown s s0 ∧ append_to s0 k v = Some (s', None)) as Hany.
  { intros v Hc H. unfold append_any in H. destruct (try_each _ 0 s v) as [[s1 [|]]|] eqn:Et; cbn in H; [| |done].
    - injection H as <-. apply try_each_lands in Et as [k Hk]; [|done]. exists s, k. by split; [constructor|].
    - apply try_each_lands in Et as ->; [|done]. destruct (inferClickHouseTypeFromGoType v); [done|].
      apply requested_lands in H as (s0 & k & H1 & H2 & _). by exists s0, k. }
  assert (∀ v ty, append_requested column s v ty = Some (s', None) →
    ∃ s0 k, grown s s0 ∧ append_to s0 k v = Some (s', None)) as Hreq.
  { intros v ty (s0 & k & H1 & H2 & _)%requested_lands. by exists s0, k. }
  intros Ht H. destruct a as [|v ty| |v]; cbn in H, Ht; [by simplify_eq| |done|].
  - destruct ty as [|b ty]; destruct v; cbn [payload]; first [injection H as <-; reflexivity|exact (Hany _ Ht H)|exact (Hreq _ _ H)].
  - destruct v; cbn [payload]; first [injection H as <-; reflexivity|exact (Hany _ Ht H)].
Qed.

Lemma append_to_types s k v s' e : append_to s k v = Some (s', e) → projT1 <$> dyn_columns s' = projT1 <$> dyn_columns s.
Proof.
  unfold append_to, append_column. destruct (dyn_columns s !! k) as [c|] eqn:Ek; [|done]. cbn [mbind option_bind].
  destruct (AppendRow (projT1 c) (projT2 c) v) as [[st e']|]; [|done]. cbn [mbind option_bind].
  assert (projT1 <$> <[k := existT (projT1 c) st]> (dyn_columns s) = projT1 <$> dyn_columns s) as E.
  { rewrite list_fmap_insert. apply list_insert_id. rewrite list_lookup_fmap. exact (f_equal (fmap (M:=option) projT1) Ek). }
  destruct e'; intros [= <- <-]; exact E.
Qed.

Lemma grown_types s s0 : grown s s0 → projT1 <$> dyn_columns s `prefix_of` projT1 <$> dyn_columns s0.
Proof. destruct 1 as [|ty C]; [done|]. cbn. rewrite fmap_app. by apply prefix_app_r. Qed.

Lemma AppendRow_types s a s' : tidy s a → dynamic_AppendRow column s a = Some (s', None) →
  projT1 <$> dyn_columns s `prefix_of` projT1 <$> dyn_columns s'.
Proof.
  intros Ht H. pose proof (AppendRow_lands _ _ _ Ht H) as Hl. destruct (payload a) as [v|]; [|by subst s'].
  destruct Hl as (s0 & k & Hg & Ha). rewrite (append_to_types _ _ _ _ _ Ha). by apply grown_types.
Qed.

Lemma run_types args s s' : tidy_run s args → dynamic_Append column s args = Some (s', None) →
  projT1 <$> dyn_columns s `prefix_of` projT1 <$> dyn_columns s'.
Proof.
  revert s. induction args as [|a args IH]; intros s Ht Hrun; [by injection Hrun as <-|].
  destruct Ht as [Ht Hts]. apply append_each_cons_inv in Hrun as (s1 & H1 & Hrun).
  transitivity (projT1 <$> dyn_columns s1); [by eapply AppendRow_types|]. apply IH; [by apply Hts|done].
Qed.

(** The number of a row as the column keeps it. *)
Definition disc_of (N d : nat) : Z := if (d =? N)%nat then DynamicNullDiscriminator else Z.of_nat d.

Record dyn_inv (l : list Interface) (ss : states l) (ds : list nat) (s : Dynamic) : Prop := {
  inv_agree : agree l ss (dyn_columns s);
  inv_names : typeNames s = ctype <$> dyn_columns s;
  inv_total : totalTypes s = Z.of_nat (length (dyn_columns s));
  inv_discs : dyn_discriminators s = disc_of (length l) <$> ds
}.

Lemma inv_empty l : dyn_inv l (fresh_all l) [] dyn_empty.
Proof. split; [apply agree_nil|done|done|done]. Qed.

Lemma inv_grown l ss ds s s0 : dyn_inv l ss ds s → grown s s0 → projT1 <$> dyn_columns s0 `prefix_of` l → dyn_inv l ss ds s0.
Proof.
  intros [H1 H2 H3 H4] Hg Hp. destruct Hg as [|ty C HC]; [done|]. split; cbn.
  - apply agree_add; [done|]. cbn in Hp. rewrite fmap_app in Hp. destruct Hp as [k ->].
    rewrite <- app_assoc. change (projT1 <$> [new_column C]) with [C]. rewrite lookup_app_r; rewrite length_fmap; [|done].
    by rewrite Nat.sub_diag.
  - rewrite H2, fmap_app. done.
  - rewrite H3, length_app. cbn. lia.
  - done.
Qed.

Lemma inv_append l ss ds s k v s' : dyn_inv l ss ds s → append_to s k v = Some (s', None) →
  ∃ ss', append_at l ss k v = Some (ss', None) ∧ dyn_inv l ss' (ds ++ [k]) s'.
Proof.
  intros [H1 H2 H3 H4] Ha. pose proof (append_to_types _ _ _ _ _ Ha) as Htypes. unfold append_to in Ha.
  destruct (append_column (dyn_columns s) k v) as [[cs e]|] eqn:Ec; [|done]. cbn in Ha. destruct e as [e|]; [done|]. injection Ha as <-.
  destruct (agree_append _ _ _ _ _ _ _ H1 Ec) as (ss' & Happ & Hagree & _). exists ss'. split; [done|].
  assert (ctype <$> cs = ctype <$> dyn_columns s) as Hnames.
  { transitivity (chType <$> (projT1 <$> cs)); [by rewrite <- list_fmap_compose|].
    transitivity (chType <$> (projT1 <$> dyn_columns s)); [f_equal; exact Htypes|by rewrite <- list_fmap_compose]. }
  split; cbn.
  - done.
  - by rewrite Hnames.
  - rewrite H3. f_equal. apply (f_equal length) in Hnames. by rewrite !length_fmap in Hnames.
  - rewrite H4, fmap_app. f_equal. cbn. unfold disc_of. apply append_at_lt in Happ.
    by replace (k =? length l)%nat with false by lia.
Qed.

(** The rows of a run and where they went. *)
Definition dyn_rows (ds : list Z) (args : list variant_arg) : list (option (nat * value)) :=
  zip_with (λ d a, v ← payload a; Some (Z.to_nat d, v)) ds args.

Lemma run_dynamic l args : ∀ s s' ss ds, tidy_run s args → dynamic_Append column s args = Some (s', None) →
  projT1 <$> dyn_columns s' `prefix_of` l → dyn_inv l ss ds s →
  ∃ pls ss', columns_run l ss pls ss' ∧ dyn_inv l ss' (ds ++ (disc (length l) <$> pls)) s'
    ∧ pls = dyn_rows (disc_of (length l) <$> (disc (length l) <$> pls)) args ∧ length pls = length args.
Proof.
  induction args as [|a args IH]; intros s s' ss ds Ht Hrun Hp Hinv.
  { injection Hrun as <-. exists [], ss. split; [constructor|]. by rewrite app_nil_r. }
  destruct Ht as [Ht Hts]. apply append_each_cons_inv in Hrun as (s1 & H1 & Hrun). specialize (Hts _ H1).
  pose proof (AppendRow_lands _ _ _ Ht H1) as Hl. pose proof (run_types _ _ _ Hts Hrun) as Hp1.
  destruct (payload a) as [v|] eqn:Ev.
  - destruct Hl as (s0 & k & Hg & Ha).
    assert (dyn_inv l ss ds s0) as Hinv0.
    { eapply inv_grown; [done|done|]. rewrite <- (append_to_types _ _ _ _ _ Ha). by etransitivity. }
    destruct (inv_append _ _ _ _ _ _ _ Hinv0 Ha) as (ss1 & Happ & Hinv1).
    destruct (IH s1 s' ss1 (ds ++ [k]) Hts Hrun Hp Hinv1) as (pls & ss' & R1 & R2 & R3 & R4).
    exists (Some (k, v) :: pls), ss'. split; [by eapply run_row|]. rewrite <- app_assoc in R2. split; [done|]. split; [|cbn; lia].
    rewrite R3 at 1. unfold dyn_rows. cbn. rewrite Ev. cbn. unfold disc_of. apply append_at_lt in Happ.
    replace (k =? length l)%nat with false by lia. by rewrite Nat2Z.id.
  - subst s1. assert (dyn_inv l ss (ds ++ [length l]) (appendDiscriminatorRow DynamicNullDiscriminator s)) as Hinv1.
    { destruct Hinv as [I1 I2 I3 I4]. split; [done|done|done|]. cbn. rewrite I4, fmap_app. cbn. unfold disc_of. by rewrite Nat.eqb_refl. }
    destruct (IH _ s' ss _ Hts Hrun Hp Hinv1) as (pls & ss' & R1 & R2 & R3 & R4).
    exists (None :: pls), ss'. split; [by apply run_null|]. rewrite <- app_assoc in R2. split; [done|]. split; [|cbn; lia].
    rewrite R3 at 1. unfold dyn_rows. cbn. by rewrite Ev.
Qed.

(** The states of columns after the rows. *)
Fixpoint replay (l : list Interface) (ss : states l) (pls : list (option (nat * value))) : option (states l) :=
  match pls with
  | [] => Some ss
  | None :: pls => replay l ss pls
  | Some (k, v) :: pls => match append_at l ss k v with Some (ss, None) => replay l ss pls | _ => None end
  end.

Lemma run_replay l ss pls ss' : columns_run l ss pls ss' → replay l ss pls = Some ss'.
Proof. induction 1 as [| |ss k v ss1 pls ss' Ha Hrun IH]; [done|done|]. cbn. by rewrite Ha. Qed.

Lemma run_discs l ss pls ss' : columns_run l ss pls ss' → Forall (λ d, d ≤ length l)%nat (disc (length l) <$> pls).
Proof.
  induction 1 as [| |ss k v ss1 pls ss' Ha Hrun IH]; constructor; try done. apply append_at_lt in Ha. cbn. lia.
Qed.

(** The header names the columns; the other side makes them. *)
Lemma header_back l ss s q ss1 : dyn_columns s = pack l ss →
  totalTypes s = Z.of_nat (length l) → Z.of_nat (length l) < 2 ^ 63 →
  Forall (λ C, column (chType C) = Some (Ok C) ∧ go_len (chType C)) l → encodeHeader s = Ok q →
  (∀ p rest, tuple_write l ss = Ok p → tuple_read l (fresh_all l) (p ++ rest) = Ok (ss1, rest)) →
  ∃ s1, (∀ rest, dynamic_ReadStatePrefix column dyn_empty (q ++ rest) = Some (Ok (s1, rest)))
    ∧ dyn_columns s1 = pack l ss1 ∧ totalTypes s1 = Z.of_nat (length l) ∧ serializationVersion s1 = DynamicSerializationVersion.
Proof.
  intros Ha Htot HN Hcols Hq Hread. unfold encodeHeader in Hq. rewrite Ha, (proj1 (pack_write l ss)), Htot in Hq.
  destruct (tuple_write l ss) as [w|] eqn:Ew; [|done]. cbn in Hq. injection Hq as <-.
  assert ((λ c, PutString (ctype c)) <$> pack l ss = (λ C, PutString (chType C)) <$> l) as E.
  { transitivity ((λ C, PutString (chType C)) <$> (projT1 <$> pack l ss)); [by rewrite <- list_fmap_compose|by rewrite pack_types]. }
  destruct (read_types_back l Hcols (MkDynamic DynamicSerializationVersion 0 [] [] [] ∅ 0 [])) as (s1 & R1 & R2 & R3 & R4). cbn in R2, R3, R4.
  exists (with_columns (pack l ss1) s1). split; [|by split].
  intros rest. unfold dynamic_ReadStatePrefix. rewrite E, <- !app_assoc, (reads_UInt64 DynamicSerializationVersion) by done.
  rewrite Z.eqb_refl. unfold decodeHeader. rewrite (reads_UVarInt (Z.of_nat (length l))) by (unfold uint64; lia). rewrite Nat2Z.id.
  cbn [with_version serializationVersion totalTypes dyn_discriminators dyn_offsets maxTypes typeNames dyn_empty].
  rewrite R1. cbn [mbind option_bind]. unfold read_prefixes. rewrite R2, <- pack_fresh. by erewrite pack_read by by apply Hread.
Qed.

(** A Dynamic column carried over the wire. *)
Lemma dynamic_carried (args : list variant_arg) (s : Dynamic) (l : list Interface) (H : all_laws l) (ss : states l) (p : gostring) :
  dynamic_Append column dyn_empty args = Some (s, None) → tidy_run dyn_empty args →
  l = projT1 <$> dyn_columns s → Z.of_nat (length l) < 2 ^ 63 →
  Forall (λ C, column (chType C) = Some (Ok C) ∧ go_len (chType C)) l →
  Forall (place_ok l H) (dyn_rows (dyn_discriminators s) args) →
  replay l (fresh_all l) (dyn_rows (dyn_discriminators s) args) = Some ss → fits_all l H ss →
  encodeHeader s = Ok p →
  ∃ s1 s2,
    (∀ rest, dynamic_ReadStatePrefix column dyn_empty (p ++ rest) = Some (Ok (s1, rest)))
    ∧ (∀ rest, dynamic_Decode s1 (length args) (encodeData s ++ rest) = Some (Ok (s2, rest)))
    ∧ length (dyn_rows (dyn_discriminators s) args) = length args
    ∧ ∀ i pl, dyn_rows (dyn_discriminators s) args !! i = Some pl →
        dynamic_Row s2 i = Some (match pl with
                                 | None => None
                                 | Some (k, v) => (λ C, (stored_at l H k v, chType C)) <$> l !! k end).
Proof.
  intros Hrun Ht El HN Hcols Hok Hss Hf Hp.
  destruct (run_dynamic l args dyn_empty s (fresh_all l) [] Ht Hrun) as (pls & ss' & R1 & [I1 I2 I3 I4] & R3 & R4).
  { by rewrite <- El. } { apply inv_empty. }
  cbn [app] in I4. rewrite I4, <- R3 in Hok, Hss. rewrite I4, <- R3.
  pose proof (run_replay _ _ _ _ R1) as Hss'. rewrite Hss in Hss'. injection Hss' as <-.
  set (N := length l) in *. set (ds := disc N <$> pls) in *.
  assert (length (dyn_columns s) = N) as Hlen by (unfold N; rewrite El, length_fmap; done).
  destruct (run_columns l H N _ _ _ (le_n _) R1 Hok [] (holds_fresh l H 0) Hf) as (C1 & _ & C3). cbn [app] in C1, C3. fold ds in C1, C3.
  pose proof (run_discs _ _ _ _ R1) as Hds. fold N ds in Hds.
  pose proof (agree_pack _ _ _ I1 Hlen) as Hpack. destruct (pack_write l ss) as [Hw He].
  destruct (tuple_write l ss) as [w|e] eqn:Ew; [|unfold encodeHeader in Hp; by rewrite Hpack, Hw in Hp].
  destruct (decode_holds (λ i, count i ds) l H ss 0 ds w C1 Hf ltac:(done) Ew) as (ss1 & D1 & ss2 & D2 & D3).
  destruct (place_types_spec N ds Hds (replicate N 0%nat)) as (os & counts & P1 & P2 & P3 & P4 & P5); [apply length_replicate|].
  destruct (header_back l ss s p ss1) as (s1 & T1 & T2 & T3 & T4); [done|by rewrite I3, Hlen|done|done|done| |].
  { intros p' rest' Hp'. rewrite Ew in Hp'. injection Hp' as <-. apply D1. }
  exists s1, (MkDynamic 3 (Z.of_nat N) (Z.of_nat <$> ds) os (pack l ss2) (columnIndexByType s1) (maxTypes s1) (typeNames s1)).
  split; [done|]. split; [|split; [done|]].
  - intros rest. unfold dynamic_Decode. rewrite T4. cbn [Z.eqb DynamicSerializationVersion Pos.eqb]. unfold decodeData, encodeData.
    rewrite T3, I3, Hlen, I4, Hpack, He, <- app_assoc. fold N.
    set (ds' := (λ d, _) <$> (disc_of N <$> ds)).
    assert (ds' = Z.of_nat <$> ds) as ->.
    { unfold ds'. rewrite <- list_fmap_compose. apply list_fmap_ext. intros i d Hi. cbn. unfold disc_of.
      pose proof (Forall_lookup_1 _ _ _ _ Hds Hi) as HdN. cbn beta in HdN.
      destruct (d =? N)%nat eqn:E.
      - cbn [Z.eqb DynamicNullDiscriminator Pos.eqb]. rewrite (proj2 (proj2 (width_holds (Z.of_nat N) (Z.of_nat N) ltac:(lia) HN))). lia.
      - replace (Z.of_nat d =? DynamicNullDiscriminator) with false by (unfold DynamicNullDiscriminator; lia).
        apply width_holds; lia. }
    replace (length args) with (length (Z.of_nat <$> ds)) by (unfold ds; by rewrite !length_fmap).
    rewrite reads_Vec.
    + rewrite Nat2Z.id, P1. cbn [mbind option_bind]. rewrite T2.
      rewrite (pack_decode (λ i, count i ds) (λ i, counts !! i) l ss1 0 (tuple_Encode l ss ++ rest) ss2 rest);
        [cbn; by rewrite T3, T4| |apply D2]. intros j Hj. cbn beta.
      rewrite P4 by (unfold N; lia). rewrite lookup_replicate_2 by (unfold N; lia). done.
    + apply (width_holds (Z.of_nat N) 0); lia.
    + apply Forall_fmap. eapply Forall_impl; [exact Hds|]. intros d Hd. cbn beta in Hd. apply width_holds; lia.
  - intros i pl Hi. assert (ds !! i = Some (disc N pl)) as Hd by (unfold ds; rewrite list_lookup_fmap, Hi; done).
    unfold dynamic_Row. cbn [dyn_discriminators dyn_offsets dyn_columns]. rewrite list_lookup_fmap, Hd. cbn [fmap option_fmap option_map mbind option_bind].
    destruct (lookup_lt_is_Some_2 os i) as [k Hk]; [rewrite P3; by eapply lookup_lt_Some|]. rewrite Hk. cbn [mbind option_bind].
    unfold null_index. cbn [serializationVersion totalTypes]. change (3 =? DynamicDeprecatedSerializationVersion) with false. cbn iota.
    destruct pl as [[d v]|]; cbn [disc] in *; [|by rewrite Z.eqb_refl].
    assert (d < N)%nat as Hlt.
    { apply (Forall_lookup_1 _ _ _ _ Hok) in Hi. by apply accepts_at_lt in Hi. }
    replace (Z.of_nat d =? Z.of_nat N) with false by lia. rewrite pack_row.
    rewrite (P5 i d Hd Hlt), lookup_replicate_2 in Hk by lia. injection Hk as <-.
    rewrite D3 by (cbn; by apply count_take). specialize (C3 i d v Hi). cbn [Nat.add]. rewrite C3.
    destruct (lookup_lt_is_Some_2 l d Hlt) as [C HC]. by rewrite HC.
Qed.

(** C30: The rows of a Dynamic column survive the wire in the flat form, that of servers
    from 25.6 on. The rows bring their types or have none, in any order; the header names
    the columns they made, and the other side, which knows nothing of the types, makes the
    same columns from the names and reads each row in order: NULL, or the value its column
    stores with the type of that column, with row numbers of one, two, four or eight bytes
    as the number of types requires. Required: the appends succeeded, a column that refuses
    a row without a type has stayed as it was ([tidy_run]), the text of the type of each
    column parses back to that column, the values are of the kinds the columns take, and the
    columns can be sent. The older form, and rows that break these conditions, are not
    covered: [dynamic_append_corrupts] and the neighbouring examples show what the code does
    there. *)
Theorem dynamic_survives (args : list variant_arg) (s : Dynamic) (l : list Interface) (H : all_laws l) (ss : states l) (p : gostring) :
  dynamic_Append column dyn_empty args = Some (s, None) → tidy_run dyn_empty args →
  l = projT1 <$> dyn_columns s → Z.of_nat (length l) < 2 ^ 63 →
  Forall (λ C, column (chType C) = Some (Ok C) ∧ go_len (chType C)) l →
  Forall (place_ok l H) (dyn_rows (dyn_discriminators s) args) →
  replay l (fresh_all l) (dyn_rows (dyn_discriminators s) args) = Some ss → fits_all l H ss →
  encodeHeader s = Ok p →
  ∃ s1 s2,
    (∀ rest, dynamic_ReadStatePrefix column dyn_empty (p ++ rest) = Some (Ok (s1, rest)))
    ∧ (∀ rest, dynamic_Decode s1 (length args) (encodeData s ++ rest) = Some (Ok (s2, rest)))
    ∧ length (dyn_rows (dyn_discriminators s) args) = length args
    ∧ ∀ i pl, dyn_rows (dyn_discriminators s) args !! i = Some pl →
        dynamic_Row s2 i = Some (match pl with
                                 | None => None
                                 | Some (k, v) => (λ C, (stored_at l H k v, chType C)) <$> l !! k end).
Proof. apply dynamic_carried. Qed.
End run.
End laws.

(** ** The order of the columns for older servers *)

Lemma index_names_spec names : ∀ k m, NoDup names →
  let r := foldl (λ m ni, <[ni.1 := ni.2]> m) m (zip names (seq k (length names))) in
  (∀ j n, names !! j = Some n → r !! n = Some (k + j)%nat) ∧ ∀ n, n ∉ names → r !! n = (m : gmap gostring nat) !! n.
Proof.
  induction names as [|a names IH]; intros k m Hnd; [by split|]. apply NoDup_cons in Hnd as [Ha Hnd].
  cbn. destruct (IH (S k) (<[a := k]> m) Hnd) as [H1 H2]. split.
  - intros [|j] n Hj.
    + injection Hj as ->. rewrite (H2 n Ha), lookup_insert_eq. f_equal. lia.
    + rewrite (H1 j n Hj). f_equal. lia.
  - intros n Hn. rewrite not_elem_of_cons in Hn. destruct Hn as [Hne Hn]. rewrite (H2 n Hn). by rewrite lookup_insert_ne.
Qed.

Lemma place_columns_spec (m : gmap gostring nat) names : ∀ cs sorted, length names = length cs → NoDup names →
  (∀ a b j, a ∈ names → b ∈ names → m !! a = Some j → m !! b = Some j → a = b) →
  (∀ n, n ∈ names → ∃ j, m !! n = Some j ∧ (j < length sorted)%nat) →
  ∃ sorted', place_columns m names cs sorted = Some ((λ n, default 0%nat (m !! n)) <$> names, sorted')
  ∧ length sorted' = length sorted
  ∧ (∀ i n j c, names !! i = Some n → cs !! i = Some c → m !! n = Some j → sorted' !! j = Some (Some c))
  ∧ ∀ j, (∀ n, n ∈ names → m !! n ≠ Some j) → sorted' !! j = sorted !! j.
Proof.
  induction names as [|a names IH]; intros [|c cs] sorted Hlen Hnd Hinj Hin; try done; [by exists sorted|].
  apply NoDup_cons in Hnd as [Ha Hnd]. destruct (Hin a ltac:(apply list_elem_of_here)) as (j & Hj & Hjl).
  cbn [place_columns]. rewrite Hj. cbn [from_option id]. unfold set_index. rewrite decide_True by done. cbn [mbind option_bind].
  destruct (IH cs (<[j := Some c]> sorted)) as (sorted' & E & H1 & H2 & H3).
  { by injection Hlen. } { done. } { intros x y k Hx Hy. apply Hinj; by apply list_elem_of_further. }
  { intros n Hn. rewrite length_insert. apply Hin. by apply list_elem_of_further. }
  rewrite length_insert in H1. rewrite E. exists sorted'. split; [cbn; by rewrite Hj|]. split; [done|].
  assert (∀ n, n ∈ names → m !! n ≠ Some j) as Hj'.
  { intros n Hn Hnj. apply Ha. rewrite (Hinj a n j); [done|apply list_elem_of_here|by apply list_elem_of_further|done|done]. }
  split.
  - intros [|i] n k x Hn Hx Hk.
    + injection Hn as <-. injection Hx as <-. rewrite Hj in Hk. injection Hk as <-. rewrite (H3 j Hj'). by apply list_lookup_insert_eq.
    + by apply (H2 i n k x).
  - intros k Hk. rewrite H3; [|intros n Hn; apply Hk; by apply list_elem_of_further].
    apply list_lookup_insert_ne. intros ->. apply (Hk a); [apply list_elem_of_here|done].
Qed.

Lemma mapM_id_lookup {A} (l : list (option A)) : Forall is_Some l →
  ∃ cs, mapM id l = Some cs ∧ ∀ j c, l !! j = Some (Some c) → cs !! j = Some c.
Proof.
  intros [cs Ecs]%(mapM_is_Some_2 id). exists cs. split; [done|]. intros j c Hj.
  apply mapM_Some_1 in Ecs. destruct (Forall2_lookup_l _ _ _ _ _ Ecs Hj) as (c' & Hc' & Ec). cbn in Ec. by simplify_eq.
Qed.

Lemma mapM_related {A B} (f : A → option B) (P : A → Prop) (R : A → B → Prop) l :
  (∀ d, P d → ∃ d', f d = Some d' ∧ R d d') → Forall P l → ∃ l', mapM f l = Some l' ∧ Forall2 R l l'.
Proof.
  intros Hf. induction 1 as [|d l Hd _ IH]; [exists []; by split|]. destruct (Hf d Hd) as (d' & E1 & HR), IH as (ds & E2 & HRs).
  exists (d' :: ds). split; [|by constructor]. cbn. rewrite E1. cbn. by rewrite E2.
Qed.

(** Sorting the columns moves the rows with them: each row still has the column it had. *)
Lemma sort_keeps_rows s : length (typeNames s) = length (dyn_columns s) → NoDup (typeNames s) →
  Forall (λ d, d = DynamicNullDiscriminator ∨ 0 ≤ d < Z.of_nat (length (dyn_columns s))) (dyn_discriminators s) →
  ∃ s', sortColumnsForEncoding s = Some s' ∧ typeNames s' = sort_names (typeNames s) ∧ typeNames s' ≡ₚ typeNames s
  ∧ Forall2 (λ d d', (d = DynamicNullDiscriminator ∧ d' = d)
      ∨ (0 ≤ d' ∧ dyn_columns s' !! Z.to_nat d' = dyn_columns s !! Z.to_nat d ∧ is_Some (dyn_columns s !! Z.to_nat d)))
      (dyn_discriminators s) (dyn_discriminators s').
Proof.
  intros Hlen Hnd Hds. set (names := sort_names (typeNames s)).
  assert (names ≡ₚ typeNames s) as Hperm by apply merge_sort_Permutation.
  assert (NoDup names) as Hnd' by by rewrite Hperm.
  destruct (index_names_spec names 0 (columnIndexByType s) Hnd') as [X1 X2]. cbn zeta in X1, X2.
  fold (index_names (columnIndexByType s) names) in X1, X2. set (m := index_names (columnIndexByType s) names) in *.
  assert (∀ n, n ∈ typeNames s → ∃ j, m !! n = Some j ∧ names !! j = Some n) as Hm.
  { intros n Hn. rewrite <- Hperm in Hn. apply list_elem_of_lookup in Hn as [j Hj]. exists j. split; [by apply (X1 j)|done]. }
  destruct (place_columns_spec m (typeNames s) (dyn_columns s) (replicate (length (dyn_columns s)) None)) as (sorted & E & P1 & P2 & _).
  { done. } { done. }
  { intros a b j Ha Hb Hja Hjb. destruct (Hm a Ha) as (ja & Ea & Na), (Hm b Hb) as (jb & Eb & Nb). congruence. }
  { intros n Hn. destruct (Hm n Hn) as (j & Ej & Nj). exists j. split; [done|]. apply lookup_lt_Some in Nj.
    rewrite length_replicate, <- Hlen, <- Hperm. done. }
  rewrite length_replicate in P1.
  destruct (mapM_id_lookup sorted) as (cs & Ecs & Hcs).
  { apply Forall_lookup. intros j o Hj. pose proof (lookup_lt_Some _ _ _ Hj) as Hl. rewrite P1, <- Hlen, <- Hperm in Hl.
      destruct (lookup_lt_is_Some_2 names j Hl) as [n Hn]. pose proof (list_elem_of_lookup_2 _ _ _ Hn) as Hin. rewrite Hperm in Hin.
      apply list_elem_of_lookup in Hin as [i Hi]. pose proof (lookup_lt_Some _ _ _ Hi) as Hil. rewrite Hlen in Hil.
      destruct (lookup_lt_is_Some_2 _ _ Hil) as [c Hc]. rewrite (P2 i n j c Hi Hc (X1 j n Hn)) in Hj. injection Hj as <-. by exists c. }
  unfold sortColumnsForEncoding. fold names m. rewrite E. cbn [mbind option_bind]. rewrite Ecs. cbn [mbind option_bind].
  set (f := λ d : Z, _). set (R := λ d d' : Z, (d = DynamicNullDiscriminator ∧ d' = d)
    ∨ (0 ≤ d' ∧ cs !! Z.to_nat d' = dyn_columns s !! Z.to_nat d ∧ is_Some (dyn_columns s !! Z.to_nat d))).
  assert (∀ d, d = DynamicNullDiscriminator ∨ 0 ≤ d < Z.of_nat (length (dyn_columns s)) → ∃ d', f d = Some d' ∧ R d d') as Hf.
  { intros d [->|Hd]; [by exists DynamicNullDiscriminator; split; [|left]|]. unfold f.
    replace (d =? DynamicNullDiscriminator) with false by (unfold DynamicNullDiscriminator; lia). replace (d <? 0) with false by lia.
    destruct (lookup_lt_is_Some_2 (dyn_columns s) (Z.to_nat d)) as [c Hc]; [lia|].
    destruct (lookup_lt_is_Some_2 (typeNames s) (Z.to_nat d)) as [n Hn]; [lia|].
    destruct (Hm n (list_elem_of_lookup_2 _ _ _ Hn)) as (j & Hj & _). exists (Z.of_nat j). split.
    - rewrite list_lookup_fmap, Hn. cbn. by rewrite Hj.
    - right. split; [lia|]. rewrite Nat2Z.id, Hc. split; [|done]. apply Hcs. by apply (P2 (Z.to_nat d) n j c). }
  destruct (mapM_related f _ R _ Hf Hds) as (ds & -> & HR).
  eexists. split; [done|]. by split.
Qed.

(** ** An example, and limits *)

Definition dyn_column : gostring → option (result cerr Interface) :=
  Column (W := leb) demo_cf (λ _ _, 0) demo_ds (λ _ t, Err (UnsupportedColumnTypeError t)) 4 [].

Definition dyn_types : list Interface := [StringColumn (W := leb) demo_ds []; Int64 (W := leb) demo_cf []].
Definition dyn_laws : all_laws dyn_types :=
  (string_laws (W := leb) demo_ds [], (int_laws (W := leb) demo_cf KInt64 [] (str "Int64"), tt)).
Definition dyn_states : states dyn_types := ([str "a"], ([7], tt)).
Definition dyn_state : Dynamic :=
  MkDynamic 0 2 [0; -1; 1] [] (pack dyn_types dyn_states) {[ str "String" := 0%nat; str "Int64" := 1%nat ]} 0 [str "String"; str "Int64"].

Lemma dyn_tidy : tidy_run dyn_column dyn_empty demo_args.
Proof.
  split; [done|]. intros s' [= <-]. split; [done|]. intros s' [= <-]. split; [|done].
  intros [|i] c st e Hc Ha; [|done]. injection Hc as <-.
  change (@Some (list gostring * option cerr) ([str "a"], Some ColumnConverterError) = Some (st, Some e)) in Ha.
  injection Ha as E _. symmetry. exact E.
Qed.

Lemma dyn_types_known : Forall (λ C, dyn_column (chType C) = Some (Ok C) ∧ go_len (chType C)) dyn_types.
Proof. constructor; [split; [reflexivity|vm_compute; done]|]. constructor; [split; [reflexivity|vm_compute; done]|constructor]. Qed.

Lemma dyn_places : Forall (place_ok dyn_types dyn_laws) (dyn_rows (dyn_discriminators dyn_state) demo_args).
Proof. constructor; [done|]. constructor; [done|]. constructor; [|constructor]. vm_compute. done. Qed.

Lemma dyn_fits : fits_all dyn_types dyn_laws dyn_states.
Proof. split; [constructor; [vm_compute; done|constructor]|]. split; [repeat constructor|done]. Qed.

Lemma dynamic_survives_witness :
  ∃ p s1 s2, encodeHeader (W := leb) dyn_state = Ok p
    ∧ dynamic_ReadStatePrefix (W := leb) dyn_column dyn_empty p = Some (Ok (s1, []))
    ∧ dynamic_Decode (W := leb) s1 3 (encodeData (W := leb) dyn_state) = Some (Ok (s2, []))
    ∧ dynamic_Row s2 0 = Some (Some (VPrim (PString (str "a")), str "String"))
    ∧ dynamic_Row s2 1 = Some None
    ∧ dynamic_Row s2 2 = Some (Some (VPrim (PInt KInt64 7), str "Int64")).
Proof.
  destruct (encodeHeader (W := leb) dyn_state) as [p|] eqn:Ep; [|done].
  destruct (dynamic_survives (W := leb) dyn_column demo_args dyn_state dyn_types dyn_laws dyn_states p)
    as (s1 & s2 & H1 & H2 & _ & H3).
  all: first [reflexivity | exact dyn_tidy | exact dyn_types_known | exact dyn_places | exact dyn_fits | exact Ep | idtac].
  exists p, s1, s2. split; [done|]. rewrite <- (app_nil_r p), <- (app_nil_r (encodeData dyn_state)).
  split; [apply H1|]. split; [apply H2|]. split; [exact (H3 0%nat _ eq_refl)|]. split; [exact (H3 1%nat _ eq_refl)|exact (H3 2%nat _ eq_refl)].
Defined.

(** A column that refuses a value may keep a part of it, as in a Variant column: a slice of
    texts after a slice of numbers, both without an error, and the other side reads other
    rows. *)
Definition dyn_slices : list variant_arg :=
  [ArgVariant (VSlice (GInt KInt64) [VPrim (PInt KInt64 1)]) (str "Array(Int64)"); ArgPlain (VSlice GString [VPrim (PString (str "a"))])].

(** What the other side reads of some rows. *)
Definition dyn_transfer (args : list variant_arg) : option (list (option (option (value * gostring)))) :=
  '(s, e) ← dynamic_Append dyn_column dyn_empty args;
  match e, encodeHeader (W := leb) s with
  | None, Ok p =>
      r1 ← dynamic_ReadStatePrefix (W := leb) dyn_column dyn_empty p;
      match r1 with
      | Err _ => None
      | Ok (s1, _) =>
          r2 ← dynamic_Decode (W := leb) s1 (length args) (encodeData (W := leb) s);
          match r2 with Err _ => None | Ok (s2, _) => Some (dynamic_Row s2 <$> seq 0 (length args)) end
      end
  | _, _ => None
  end.

Lemma dynamic_append_corrupts : dyn_transfer dyn_slices =
  Some [Some (Some (VSlice GAny [VPrim (PInt KInt64 2)], str "Array(Int64)"));
        Some (Some (VSlice GAny [VPrim (PString [x00])], str "Array(String)"))].
Proof. vm_compute. reflexivity. Qed.

(** The column of a Nested type reports another type, so it is not found again: every row
    makes a column, and for an older server two columns of one name are a panic. *)
Lemma nested_rows_make_columns :
  ('(s, e) ← dynamic_Append dyn_column dyn_empty
         (replicate 2 (ArgVariant (VSlice (GMap GString GAny) []) (str "Nested(a Int64)")));
   Some (typeNames s, e, bool_decide (is_Some (sortColumnsForEncoding s))))
  = Some (replicate 2 (str "Array(Tuple(a Int64))"), None, false).
Proof. vm_compute. reflexivity. Qed.

(** A column of integers takes a float, converted: the second row is stored as an integer,
    without an error. *)
Lemma dynamic_floats_become_integers :
  ('(s, e) ← dynamic_Append dyn_column dyn_empty
         [ArgPlain (VPrim (PInt KInt64 7)); ArgPlain (VPrim (PFloat 8 4609434218613702656))];
   Some (typeNames s, dyn_discriminators s, e))
  = Some ([str "Int64"], [0; 0], None).
Proof. vm_compute. reflexivity. Qed.
