(* ===== verification/JsonPaths.v ===== *)
(** * JSON objects and their paths ([lib/chcol/json.go], [lib/column/json_reflect.go])

    A row of a JSON column is a [chcol.JSON]: a map from paths, names joined by dots, to
    values.  Structs and maps of the application are flattened to paths by reflection;
    [NestedMap] builds nested maps from paths again.  A Go value is a tree; a map lists its
    entries in the order of an iteration. *)

From Stdlib Require Import ZifyBool.
From stdpp Require Import sorting.
From S2P Require Import Prelude GoStd Strconv Column ColumnVariant ColumnDynamic.
#[local] Set Warnings "-register-all".

(** The name of a field, its tags "json", "ch" and "chType", and whether it is exported. *)
Record json_head := MkJsonHead { jf_Name : gostring; jf_json : gostring; jf_ch : gostring; jf_chType : gostring; jf_exported : bool }.

(** An [any]: [AKnown] is a struct of [iterateStructSkipTypes], [ADynamic] a [chcol.Dynamic]
    (the same type as [chcol.Variant]), [APlain] what is neither a struct, a map nor a
    pointer.  Of a map, the type of its elements and whether its keys are strings. *)
Inductive goany :=
| ANil
| APlain (v : value)
| AKnown (v : value)
| ADynamic (x : goany) (ty : gostring)
| AStruct (fields : list (json_head * goany))
| AMap (elem : gotype) (strings : bool) (entries : list (gostring * goany))
| ANilPtr (t : gotype)
| APtr (x : goany).

(** ** [chcol.JSON] *)

Abbreviation chcol_JSON := (gmap gostring goany).

Definition SetValueAtPath (path : gostring) (v : goany) (o : chcol_JSON) : chcol_JSON := <[path := v]> o.
Definition ValueAtPath (o : chcol_JSON) (path : gostring) : option goany := o !! path.

(** [ExtractJSONPathAsDynamic]. *)
Definition ExtractJSONPathAsDynamic (o : chcol_JSON) (path : gostring) : goany * gostring * bool :=
  match o !! path with
  | None | Some ANil => (ANil, [], false)
  | Some (ADynamic x ty) => (x, ty, true)
  | Some x => (x, [], false)
  end.

(** [ExtractJSONPathAs]; [as_T] is the assertion to the type. *)
Definition ExtractJSONPathAs {T} (as_T : goany → option T) (o : chcol_JSON) (path : gostring) : option T :=
  match o !! path with
  | None | Some ANil => None
  | Some (ADynamic x _) => as_T x
  | Some x => as_T x
  end.

(** ** [NestedMap] *)

Section assoc.
Context {A : Type}.

(** [m[k]] and [m[k] = x]. *)
Definition aget (l : list (gostring * A)) (k : gostring) : option A :=
  snd <$> List.find (λ kx, bool_decide (kx.1 = k)) l.

Fixpoint aset (l : list (gostring * A)) (k : gostring) (x : A) : list (gostring * A) :=
  match l with
  | [] => [(k, x)]
  | (k', x') :: l => if decide (k' = k) then (k, x) :: l else (k', x') :: aset l k x
  end.
End assoc.

(** The walk along the parts of a path: a part that is there and is no map is passed over. *)
Fixpoint put_path (l : list (gostring * goany)) (parts : list gostring) (v : goany) : list (gostring * goany) :=
  match parts with
  | [] => l
  | [p] => aset l p v
  | p :: parts =>
      match aget l p with
      | None => aset l p (AMap GAny true (put_path [] parts v))
      | Some (AMap GAny true m) => aset l p (AMap GAny true (put_path m parts v))
      | Some _ => put_path l parts v
      end
  end.

(** [vt, ok := value.(Variant); ok && vt.Nil()]. *)
Definition nil_variant (v : goany) : bool := match v with ADynamic ANil _ => true | _ => false end.

Definition NestedMap (o : chcol_JSON) : list (gostring * goany) :=
  foldl (λ l path, let v := default ANil (o !! path) in
           if nil_variant v then l else put_path l (strings_Split path ".") v)
    [] (sort_names (map_to_list o).*1).

(** ** Flattening by reflection *)

Inductive flat_err := DepthExceeded | KeyNotString.

Definition MaxMapPathDepth : nat := 32.

(** [name] of a field, and whether it is left out. *)
Definition json_name (h : json_head) : gostring :=
  match jf_json h with
  | [] => jf_Name h
  | b :: _ => if beq b "," then jf_Name h else default [] (head (strings_Split (jf_json h) ","))
  end.

Definition child_path (prefix name : gostring) : gostring :=
  if bool_decide (prefix = []) then name else prefix ++ str "." ++ name.

Definition too_deep (prefix : gostring) : bool := (MaxMapPathDepth <? length (strings_Split prefix "."))%nat.

(** The stores of a value, [json.SetValueAtPath]. *)
Definition store_as (forcedType : gostring) (v : goany) : goany :=
  if bool_decide (forcedType = []) then v else ADynamic v forcedType.

(** [handleValue], with [iterateStruct] and [iterateMap] as its loops over fields and
    entries.  [in_map] marks a value of a map, which [iterateMap] follows into every map. *)
Fixpoint handleValue (x : goany) (in_map : bool) (path : gostring) (forcedType : gostring) (o : chcol_JSON) {struct x}
    : result flat_err chcol_JSON :=
  let iterateMap (strings : bool) (entries : list (gostring * goany)) (prefix : gostring) (o : chcol_JSON) :=
    if too_deep prefix then Err DepthExceeded
    else
      (fix loop (l : list (gostring * goany)) (o : chcol_JSON) : result flat_err chcol_JSON :=
         match l with
         | [] => Ok o
         | (k, y) :: l =>
             if negb strings then Err KeyNotString
             else o ← handleValue y true (child_path prefix k) [] o; loop l o
         end) entries o in
  match x with
  | ANil | ANilPtr _ => Ok (SetValueAtPath path ANil o)
  | APtr y => handleValue y false path forcedType o
  | AKnown _ | ADynamic _ _ => Ok (SetValueAtPath path x o)
  | AStruct fields =>
      (fix loop (l : list (json_head * goany)) (o : chcol_JSON) : result flat_err chcol_JSON :=
         match l with
         | [] => Ok o
         | (h, y) :: l =>
             if negb (jf_exported h) || bool_decide (json_name h = str "-") then loop l o
             else o ← handleValue y false (child_path path (json_name h)) (jf_chType h) o; loop l o
         end) fields o
  | AMap elem strings entries =>
      if in_map then iterateMap strings entries path o
      else if bool_decide (forcedType = []) && bool_decide (elem = GAny) then iterateMap strings entries path o
      else Ok (SetValueAtPath path (store_as forcedType x) o)
  | APlain _ => Ok (SetValueAtPath path (store_as forcedType x) o)
  end.

(** [iterateMap] and [iterateStruct] at the top. *)
Fixpoint iterateMap (strings : bool) (l : list (gostring * goany)) (prefix : gostring) (o : chcol_JSON) : result flat_err chcol_JSON :=
  match l with
  | [] => Ok o
  | (k, y) :: l =>
      if negb strings then Err KeyNotString
      else o ← handleValue y true (child_path prefix k) [] o; iterateMap strings l prefix o
  end.

(** [mapToJSON]: the type of the keys is checked before. *)
Definition mapToJSON (strings : bool) (entries : list (gostring * goany)) : result flat_err chcol_JSON :=
  if negb strings then Err KeyNotString else iterateMap strings entries [] ∅.

Definition structToJSON (fields : list (json_head * goany)) : result flat_err chcol_JSON :=
  handleValue (AStruct fields) false [] [] ∅.

(** ** The leaves of a tree *)

Definition under (k : gostring) (pv : list gostring * goany) : list gostring * goany := (k :: pv.1, pv.2).

Fixpoint flat_any (x : goany) : list (list gostring * goany) :=
  match x with
  | AMap GAny true l =>
      (fix loop (l : list (gostring * goany)) :=
         match l with [] => [] | (k, y) :: l => (under k <$> flat_any y) ++ loop l end) l
  | _ => [([], x)]
  end.

Definition flat (l : list (gostring * goany)) : list (list gostring * goany) :=
  flat_map (λ ky, under ky.1 <$> flat_any ky.2) l.

Lemma flat_any_map l : flat_any (AMap GAny true l) = flat l.
Proof. induction l as [|[k y] l IH]; [done|]. cbn [flat flat_map fst snd]. fold (flat l). rewrite <- IH. done. Qed.

Lemma flat_app l1 l2 : flat (l1 ++ l2) = flat l1 ++ flat l2.
Proof. apply flat_map_app. Qed.

Lemma flat_one k y : flat [(k, y)] = under k <$> flat_any y.
Proof. unfold flat. cbn. by rewrite app_nil_r. Qed.

(** No map in the tree is empty. *)
Fixpoint solid_any (x : goany) : Prop :=
  match x with
  | AMap GAny true l =>
      l ≠ [] ∧ (fix loop (l : list (gostring * goany)) := match l with [] => True | (_, y) :: l => solid_any y ∧ loop l end) l
  | _ => True
  end.

Definition solid (l : list (gostring * goany)) : Prop := Forall (λ ky, solid_any ky.2) l.

Lemma solid_any_map l : solid_any (AMap GAny true l) ↔ l ≠ [] ∧ solid l.
Proof.
  unfold solid. cbn. apply and_iff_compat_l. induction l as [|[k y] l IH]; [done|]. rewrite Forall_cons, IH. done.
Qed.

(** Induction on a tree through its maps. *)
Lemma goany_map_ind (P : goany → Prop) :
  (∀ l, Forall (λ ky, P ky.2) l → P (AMap GAny true l)) → (∀ x, (∀ l, x ≠ AMap GAny true l) → P x) → ∀ x, P x.
Proof.
  intros Hm Hl. fix IH 1. intros x. destruct x as [| | | | |[] [] l| |]; try (apply Hl; discriminate).
  apply Hm. induction l as [|[k y] l IHl]; constructor; [apply IH|exact IHl].
Qed.

Lemma flat_any_ne x : solid_any x → flat_any x ≠ [].
Proof.
  induction x as [l IH|x Hx] using goany_map_ind.
  - rewrite solid_any_map, flat_any_map. intros [Hne Hs]. destruct l as [|[k y] l]; [done|].
    inversion_clear IH as [|? ? Hy _]. inversion_clear Hs as [|? ? Hsy _]. rewrite <- flat_any_map. cbn in *.
    intros [E _]%app_nil. apply fmap_nil_inv in E. by apply Hy.
  - destruct x as [| | | | |[] [] l| |]; try done. by destruct (Hx l).
Qed.

Lemma aget_split {A} (l : list (gostring * A)) k x : aget l k = Some x →
  ∃ l1 l2, l = l1 ++ (k, x) :: l2 ∧ ∀ y, aset l k y = l1 ++ (k, y) :: l2.
Proof.
  unfold aget. induction l as [|[k' x'] l IH]; cbn; [done|]. case_bool_decide as Hk.
  - intros [= <-]. subst k'. exists [], l. split; [done|]. intros y. by rewrite decide_True.
  - intros H. destruct (IH H) as (l1 & l2 & -> & Hset). exists ((k', x') :: l1), l2. split; [done|].
    intros y. rewrite decide_False by done. by rewrite Hset.
Qed.

Lemma aset_new {A} (l : list (gostring * A)) k y : aget l k = None → aset l k y = l ++ [(k, y)].
Proof.
  unfold aget. induction l as [|[k' x'] l IH]; cbn; [done|]. case_bool_decide as Hk; [done|]. intros H.
  rewrite decide_False by done. by rewrite IH.
Qed.

(** Paths of which neither continues the other. *)
Definition apart_paths (p q : list gostring) : Prop := ¬ p `prefix_of` q ∧ ¬ q `prefix_of` p.

#[export] Instance apart_paths_dec p q : Decision (apart_paths p q).
Proof. unfold apart_paths. apply _. Defined.

Definition leaf (x : goany) : Prop := flat_any x = [([], x)] ∧ solid_any x.

Lemma flat_in l1 l2 k x pv : pv ∈ flat_any x → under k pv ∈ flat (l1 ++ (k, x) :: l2).
Proof.
  intros H. rewrite flat_app. apply elem_of_app. right. cbn. apply elem_of_app. left. apply list_elem_of_fmap. by exists pv.
Qed.

(** A path that is apart from those there adds its leaf, and moves nothing. *)
Lemma put_flat v parts : leaf v → ∀ l, parts ≠ [] → solid l → Forall (λ qw, apart_paths qw.1 parts) (flat l) →
  flat (put_path l parts v) ≡ₚ (parts, v) :: flat l ∧ solid (put_path l parts v) ∧ put_path l parts v ≠ [].
Proof.
  intros [Hv Hsv]. induction parts as [|p parts IH]; intros l Hne Hs Hap; [done|].
  assert (∀ x, aget l p = Some x → ∃ l1 l2, l = l1 ++ (p, x) :: l2 ∧ (∀ y, aset l p y = l1 ++ (p, y) :: l2)
    ∧ solid_any x ∧ Forall (λ qw, apart_paths (p :: qw.1) (p :: parts)) (flat_any x)) as Hget.
  { intros x Hx. destruct (aget_split l p x Hx) as (l1 & l2 & E & Hset). exists l1, l2. split; [done|]. split; [done|]. subst l.
    split; [by apply Forall_app in Hs as [_ Hs]; inversion_clear Hs|].
    apply Forall_forall. intros [qs w] Hq. rewrite Forall_forall in Hap. exact (Hap _ (flat_in l1 l2 p x (qs, w) Hq)). }
  assert (∀ x, leaf x → aget l p = None → flat (aset l p x) = flat l ++ [([p], x)] ∧ solid (aset l p x)) as Hnew.
  { intros x [Hx1 Hx2] Hn. rewrite aset_new by done. rewrite flat_app, flat_one, Hx1. split; [done|]. apply Forall_app. by split; [|constructor]. }
  destruct parts as [|p2 parts].
  - cbn [put_path]. destruct (aget l p) as [x|] eqn:Eg.
    { destruct (Hget x eq_refl) as (l1 & l2 & _ & _ & Hsx & Hx). exfalso. destruct (flat_any x) as [|[qs w] r] eqn:Ef; [by apply (flat_any_ne x)|].
      inversion_clear Hx as [|? ? [_ H] _]. apply H. cbn. apply prefix_cons, prefix_nil. }
    destruct (Hnew v (conj Hv Hsv) eq_refl) as [-> H2]. split; [by rewrite (comm (++))|]. split; [done|].
    rewrite aset_new by done. by destruct l.
  - cbn [put_path]. destruct (aget l p) as [x|] eqn:Eg.
    + destruct (Hget x eq_refl) as (l1 & l2 & El & Hset & Hsx & Hx).
      assert ((∃ m, x = AMap GAny true m) ∨ flat_any x = [([], x)]) as [[m ->]|Hleaf].
      { destruct x as [| | | | |[] [] m| |]; try (by right). left. by exists m. }
      2:{ exfalso. rewrite Hleaf in Hx. inversion_clear Hx as [|? ? [H _] _]. apply H. cbn. apply prefix_cons, prefix_nil. }
      apply solid_any_map in Hsx as [_ Hsm]. rewrite flat_any_map in Hx.
      destruct (IH m) as (F & S & N); [done|done| |].
      { eapply Forall_impl; [exact Hx|]. intros [qs w] [H1 H2]. cbn in *. split; intros H; [apply H1|apply H2]; by apply prefix_cons. }
      rewrite Hset, flat_app.
      cbn [flat flat_map fst snd]. fold (flat l2). rewrite flat_any_map, F, El, flat_app. cbn [flat flat_map fst snd]. fold (flat l2). rewrite flat_any_map.
      split; [|split].
      * rewrite fmap_cons. change (under p (p2 :: parts, v)) with (p :: p2 :: parts, v). symmetry. apply Permutation_middle.
      * subst l. apply Forall_app in Hs as [Hs1 Hs2]. inversion_clear Hs2. apply Forall_app. split; [done|]. constructor; [|done].
        apply solid_any_map. by split.
      * by destruct l1.
    + destruct (IH []) as (F & S & N); [done|constructor|constructor|].
      rewrite aset_new by done. rewrite flat_app, flat_one, flat_any_map, F. split; [|split].
      * rewrite (comm (++)). done.
      * apply Forall_app. split; [done|]. constructor; [|constructor]. apply solid_any_map. by split.
      * by destruct l.
Qed.

(** ** There and back *)

(** The leaves that [handleValue] stores as they are. *)
Definition kept (x : goany) : Prop := match x with ANil | APlain _ | AKnown _ | ADynamic _ _ => True | _ => False end.

Lemma kept_leaf x : kept x → leaf x.
Proof. by destruct x. Qed.

Lemma Split_ne s b : strings_Split s b ≠ [].
Proof. induction s as [|c s IH]; [done|]. cbn. destruct (beq c b); [done|]. by destruct (strings_Split s b). Qed.

Lemma Join_Split s b : strings_Join (strings_Split s b) [b] = s.
Proof.
  induction s as [|c s IH]; [done|]. cbn. pose proof (Split_ne s b) as Hne. destruct (beq_spec c b) as [->|_].
  - destruct (strings_Split s b); [done|]. cbn in *. by rewrite IH.
  - destruct (strings_Split s b) as [|m [|m2 l]]; [done|cbn in *; by rewrite IH|]. cbn in *. by rewrite IH.
Qed.

Lemma Split_free s b : Forall (λ x, b ∉ x) (strings_Split s b).
Proof.
  induction s as [|c s IH]; [constructor; [set_solver|constructor]|]. cbn. destruct (beq_spec c b) as [->|Hne].
  - constructor; [set_solver|done].
  - destruct (strings_Split s b) as [|m l]; [by repeat constructor; set_solver|]. inversion_clear IH. constructor; [|done].
    rewrite not_elem_of_cons. split; [congruence|done].
Qed.

Lemma Join_snoc ps k b : ps ≠ [] → strings_Join (ps ++ [k]) [b] = strings_Join ps [b] ++ [b] ++ k.
Proof.
  induction ps as [|p ps IH]; [done|]. intros _. destruct ps as [|q ps]; [done|].
  change (strings_Join ((p :: q :: ps) ++ [k]) [b]) with (p ++ [b] ++ strings_Join ((q :: ps) ++ [k]) [b]).
  rewrite IH by done. change (strings_Join (p :: q :: ps) [b]) with (p ++ [b] ++ strings_Join (q :: ps) [b]). by rewrite <- !app_assoc.
Qed.

(** The parts of a path that starts with a name. *)
Definition named (ps : list gostring) : Prop := ps ≠ [] ∧ head ps ≠ Some [] ∧ Forall (λ x, "."%byte ∉ x) ps.

Lemma Join_named ps : named ps → strings_Join ps (str ".") ≠ [].
Proof.
  intros (H1 & H2 & _). destruct ps as [|[|c p] [|q ps]]; try done.
Qed.

Lemma child_named ps k : named ps → child_path (strings_Join ps (str ".")) k = strings_Join (ps ++ [k]) (str ".").
Proof.
  intros H. unfold child_path. rewrite bool_decide_false by by apply Join_named. change (str ".") with ["."%byte].
  rewrite Join_snoc by apply H. done.
Qed.

Lemma named_snoc ps k : named ps → "."%byte ∉ k → named (ps ++ [k]).
Proof.
  intros (H1 & H2 & H3) Hk. split; [by destruct ps|]. split; [by destruct ps|]. apply Forall_app. by split; [|constructor].
Qed.

Definition put_all (ps : list gostring) (l : list (list gostring * goany)) (o : chcol_JSON) : chcol_JSON :=
  foldl (λ o pv, <[strings_Join (ps ++ pv.1) (str ".") := pv.2]> o) o l.

Lemma put_all_under ps k l o : put_all ps (under k <$> l) o = put_all (ps ++ [k]) l o.
Proof. unfold put_all. revert o. induction l as [|pv l IH]; intros o; [done|]. cbn. rewrite IH. by rewrite <- app_assoc. Qed.

Lemma put_all_app ps l1 l2 o : put_all ps (l1 ++ l2) o = put_all ps l2 (put_all ps l1 o).
Proof. apply foldl_app. Qed.

Lemma handle_map strings l path o : handleValue (AMap GAny strings l) true path [] o
  = if too_deep path then Err DepthExceeded else iterateMap strings l path o.
Proof.
  cbn -[too_deep]. destruct (too_deep path); [done|]. revert o. induction l as [|[k y] l IH]; intros o; [done|]. cbn.
  destruct (negb strings); [done|]. destruct (handleValue y true (child_path path k) [] o); [|done]. cbn. apply IH.
Qed.

(** The leaves below a path of a map: plain ones, not deeper than the limit. *)
Definition reachable_leaf (n : nat) (pv : list gostring * goany) : Prop :=
  kept pv.2 ∧ Forall (λ x, "."%byte ∉ x) pv.1 ∧ (n + length pv.1 ≤ MaxMapPathDepth + 1)%nat.

Lemma iterate_flat l : Forall (λ ky, ∀ ps o, named ps → solid_any ky.2 → Forall (reachable_leaf (length ps)) (flat_any ky.2) →
    handleValue ky.2 true (strings_Join ps (str ".")) [] o = Ok (put_all ps (flat_any ky.2) o)) l →
  ∀ ps o, named ps → solid l → Forall (reachable_leaf (length ps)) (flat l) →
  iterateMap true l (strings_Join ps (str ".")) o = Ok (put_all ps (flat l) o).
Proof.
  induction 1 as [|[k y] l Hy Hl IH]; intros ps o Hps Hs Hf; [done|]. cbn [iterateMap negb].
  inversion_clear Hs as [|? ? Hsy Hsl]. cbn [flat flat_map fst snd] in *. fold (flat l) in *. apply Forall_app in Hf as [Hf1 Hf2].
  rewrite Forall_fmap in Hf1.
  assert ("."%byte ∉ k) as Hk.
  { pose proof (flat_any_ne y Hsy). destruct (flat_any y) as [|pv r]; [done|]. inversion_clear Hf1 as [|? ? (_ & H1 & _) _]. by inversion_clear H1. }
  rewrite child_named, Hy by (done || by apply named_snoc || (eapply Forall_impl; [exact Hf1|]; intros pv (H1 & H2 & H3); cbn in *;
    split; [done|]; split; [by inversion_clear H2|rewrite length_app; cbn; lia])).
  cbn [mbind result_bind]. rewrite IH by done. by rewrite put_all_app, put_all_under.
Qed.

Lemma handle_flat x : ∀ ps o, named ps → solid_any x → Forall (reachable_leaf (length ps)) (flat_any x) →
  handleValue x true (strings_Join ps (str ".")) [] o = Ok (put_all ps (flat_any x) o).
Proof.
  induction x as [l IH|x Hx] using goany_map_ind; intros ps o Hps Hs Hf.
  - rewrite handle_map. pose proof (flat_any_ne _ Hs) as Hne. rewrite flat_any_map in *. apply solid_any_map in Hs as [_ Hs].
    replace (too_deep (strings_Join ps (str "."))) with false; [by apply iterate_flat|].
    unfold too_deep. destruct Hps as (P1 & P2 & P3). change (str ".") with ["."%byte]. rewrite strings_Split_Join by done.
    destruct (flat l) as [|pv r] eqn:E; [done|]. inversion_clear Hf as [|? ? (_ & _ & H3) _].
    assert (pv.1 ≠ []).
    { assert (pv ∈ flat l) as Hin by (rewrite E; apply list_elem_of_here). unfold flat in Hin.
      apply list_elem_of_In, in_flat_map in Hin as (ky & _ & Hin). apply list_elem_of_In, list_elem_of_fmap in Hin as (q & -> & _). done. }
    destruct pv as [[|q qs] w]; [done|]. cbn [fst length] in H3. lia.
  - assert (flat_any x = [([], x)]) as E by (destruct x as [| | | | |[] [] l| |]; try done; by destruct (Hx l)).
    rewrite E in *. inversion_clear Hf as [|? ? (H1 & _) _]. cbn in H1. cbn. rewrite app_nil_r. by destruct x.
Qed.

(** [NestedMap] keeps every leaf under its path. *)
Definition nest (value : gostring → goany) (l : list (gostring * goany)) (path : gostring) : list (gostring * goany) :=
  if nil_variant (value path) then l else put_path l (strings_Split path ".") (value path).

Lemma nest_flat (value : gostring → goany) paths : NoDup paths → (∀ p, p ∈ paths → kept (value p)) →
  (∀ p q, p ∈ paths → q ∈ paths → p ≠ q → apart_paths (strings_Split p ".") (strings_Split q ".")) →
  flat (foldl (nest value) [] paths) ≡ₚ (λ p, (strings_Split p ".", value p)) <$> filter (λ p, nil_variant (value p) = false) paths
  ∧ solid (foldl (nest value) [] paths).
Proof.
  induction paths as [|p paths IH] using rev_ind; intros Hnd Hk Hap; [by split; constructor|].
  apply NoDup_app in Hnd as (Hnd & Hp & _). rewrite foldl_app, filter_app. cbn [foldl].
  destruct IH as [F S]; [done|intros q Hq; apply Hk; set_solver|intros q q' Hq Hq'; apply Hap; set_solver|].
  unfold nest at 1 3. rewrite filter_cons, filter_nil. destruct (nil_variant (value p)) eqn:En.
  { rewrite decide_False by done. by rewrite app_nil_r. }
  rewrite decide_True by done. destruct (put_flat (value p) (strings_Split p ".")) with (l := foldl (nest value) [] paths) as (P1 & P2 & _).
  - apply kept_leaf, Hk. set_solver.
  - apply Split_ne.
  - done.
  - rewrite F. apply Forall_fmap, Forall_forall. intros q [_ Hq]%list_elem_of_filter. cbn. apply Hap; [set_solver|set_solver|].
    intros ->. apply (Hp p Hq). set_solver.
  - rewrite P1, F, fmap_app. split; [|done]. cbn. by rewrite (comm (++)).
Qed.

Definition solid_values (o : chcol_JSON) : chcol_JSON := filter (λ pv, nil_variant pv.2 = false) o.

Lemma NestedMap_flat (o : chcol_JSON) :
  (∀ p v, o !! p = Some v → kept v) →
  (∀ p q, p ≠ q → is_Some (o !! p) → is_Some (o !! q) → apart_paths (strings_Split p ".") (strings_Split q ".")) →
  flat (NestedMap o) ≡ₚ (λ pv, (strings_Split pv.1 ".", pv.2)) <$> map_to_list (solid_values o) ∧ solid (NestedMap o).
Proof.
  intros Hk Hap. set (value := λ p, default ANil (o !! p)). set (names := sort_names (map_to_list o).*1).
  change (NestedMap o) with (foldl (nest value) [] names).
  assert (names ≡ₚ (map_to_list o).*1) as Hperm by apply merge_sort_Permutation.
  assert (NoDup names) as Hnd by (rewrite Hperm; apply NoDup_fst_map_to_list).
  assert (∀ p, p ∈ names ↔ is_Some (o !! p)) as Hin.
  { intros p. rewrite Hperm, list_elem_of_fmap. split.
    - intros ([p' v] & -> & Hv). apply elem_of_map_to_list in Hv. by exists v.
    - intros [v Hv]. exists (p, v). split; [done|]. by apply elem_of_map_to_list. }
  destruct (nest_flat value names Hnd) as [F S].
  { intros p Hp. apply Hin in Hp as [v Hv]. unfold value. rewrite Hv. by apply (Hk p). }
  { intros p q Hp Hq Hne. apply Hap; [done|by apply Hin|by apply Hin]. }
  split; [|done]. rewrite F. transitivity ((λ pv : gostring * goany, (strings_Split pv.1 ".", pv.2)) <$>
    ((λ p, (p, value p)) <$> filter (λ p, nil_variant (value p) = false) names)); [by rewrite <- list_fmap_compose|].
  apply Permutation_map, NoDup_Permutation.
  - apply NoDup_fmap_2; [by intros ? ? [= ->]|]. by apply NoDup_filter.
  - apply NoDup_map_to_list.
  - intros [p v]. rewrite list_elem_of_fmap, elem_of_map_to_list. unfold solid_values. rewrite map_lookup_filter_Some. cbn. split.
    + intros (q & [= -> ->] & Hq). apply list_elem_of_filter in Hq as [Hn Hq]. split; [|done].
      apply Hin in Hq as [w Hw]. unfold value. by rewrite Hw.
    + intros [Hv Hn]. exists p. assert (value p = v) as Ev by (unfold value; by rewrite Hv). rewrite Ev. split; [done|].
      apply list_elem_of_filter. rewrite Ev. split; [done|]. apply Hin. by exists v.
Qed.

Definition keyed (pv : list gostring * goany) : gostring * goany := (strings_Join pv.1 (str "."), pv.2).

Lemma put_all_keyed l o : NoDup (keyed <$> l).*1 → put_all [] l o = list_to_map (keyed <$> l) ∪ o.
Proof.
  unfold put_all. revert o. induction l as [|pv l IH]; intros o Hnd; [by rewrite fmap_nil, list_to_map_nil, (left_id_L ∅ (∪))|].
  rewrite !fmap_cons in Hnd. apply NoDup_cons in Hnd as [Hp Hnd].
  cbn [foldl app]. rewrite IH by done. rewrite fmap_cons. change (keyed pv) with (strings_Join pv.1 (str "."), pv.2). rewrite list_to_map_cons.
  rewrite <- insert_union_l, insert_union_r; [done|]. by apply not_elem_of_list_to_map_1.
Qed.

(** The flattening of the entries of a map at the top. *)
Lemma top_flat l : ∀ o, solid l → Forall (λ pv, head pv.1 ≠ Some [] ∧ reachable_leaf 0 pv) (flat l) →
  iterateMap true l [] o = Ok (put_all [] (flat l) o).
Proof.
  induction l as [|[k y] l IH]; intros o Hs Hf; [done|]. cbn [iterateMap negb].
  inversion_clear Hs as [|? ? Hsy Hsl]. cbn [flat flat_map fst snd] in *. fold (flat l) in *. apply Forall_app in Hf as [Hf1 Hf2].
  rewrite Forall_fmap in Hf1.
  assert (named [k]) as Hk.
  { pose proof (flat_any_ne y Hsy). destruct (flat_any y) as [|pv r]; [done|]. inversion_clear Hf1 as [|? ? (H1 & _ & H2 & _) _].
    cbn in H1, H2. inversion_clear H2. split; [done|]. split; [done|]. by constructor. }
  change (child_path [] k) with (strings_Join [k] (str ".")). rewrite handle_flat; [|done|done|].
  - cbn [mbind result_bind]. rewrite IH by done. by rewrite put_all_app, (put_all_under [] k).
  - eapply Forall_impl; [exact Hf1|]. intros pv (_ & H1 & H2 & H3). cbn [under fst snd length] in *.
    split; [done|]. split; [by inversion_clear H2|cbn [length]; lia].
Qed.

(** C36: Paths and nested maps carry the same object. [NestedMap] followed by the flattening
    of maps gives the object back: each value at its path, without the NULLs. Required: no
    path of the object continues another one (for [a] and [a.b] a value is misplaced,
    [nested_map_misplaces]), the first name of a path is not empty, a path has at most as
    many levels as the flattening allows, and the values are ones the flattening does not
    take apart (no maps). *)
Theorem nested_map_roundtrip (o : chcol_JSON) :
  (∀ p v, o !! p = Some v → kept v ∧ head (strings_Split p ".") ≠ Some [] ∧ (length (strings_Split p ".") ≤ MaxMapPathDepth + 1)%nat) →
  (∀ p q, p ≠ q → is_Some (o !! p) → is_Some (o !! q) → apart_paths (strings_Split p ".") (strings_Split q ".")) →
  mapToJSON true (NestedMap o) = Ok (solid_values o).
Proof.
  intros Hv Hap. destruct (NestedMap_flat o) as [F S]; [by intros p v Hp; apply (Hv p)|done|].
  unfold mapToJSON. cbn [negb].
  assert (keyed <$> flat (NestedMap o) ≡ₚ map_to_list (solid_values o)) as K.
  { rewrite F, <- list_fmap_compose. rewrite <- (list_fmap_id (map_to_list (solid_values o))) at 2.
    apply reflexive_eq, list_fmap_ext. intros i [p v] _. unfold keyed. cbn. change (str ".") with ["."%byte]. by rewrite Join_Split. }
  rewrite top_flat; [|done|].
  - assert (NoDup (keyed <$> flat (NestedMap o)).*1) as HN by (rewrite K; apply NoDup_fst_map_to_list).
    rewrite put_all_keyed by done. rewrite (right_id_L ∅ (∪)), (list_to_map_proper _ _ HN K). by rewrite list_to_map_to_list.
  - rewrite F. apply Forall_fmap, Forall_forall. intros [p v] Hp. apply elem_of_map_to_list, map_lookup_filter_Some in Hp as [Hp _].
    destruct (Hv p v Hp) as (H1 & H2 & H3). split; [done|]. split; [done|]. split; [apply Split_free|]. cbn [fst]. lia.
Qed.

(** An object with two levels, a dynamic value and a NULL. *)
Definition demo_object : chcol_JSON :=
  {[ str "user.id" := APlain (VPrim (PInt KInt64 7)); str "user.tags.first" := ADynamic (APlain (VPrim (PString (str "a")))) (str "String");
     str "gone" := ADynamic ANil [] ]}.

Lemma demo_object_lookup p v : demo_object !! p = Some v →
  (p, v) ∈ [(str "user.id", APlain (VPrim (PInt KInt64 7))); (str "user.tags.first", ADynamic (APlain (VPrim (PString (str "a")))) (str "String"));
            (str "gone", ADynamic ANil [])].
Proof.
  unfold demo_object. intros H. apply lookup_insert_Some in H as [[<- <-]|[_ H]]; [set_solver|].
  apply lookup_insert_Some in H as [[<- <-]|[_ H]]; [set_solver|]. apply lookup_singleton_Some in H as [<- <-]. set_solver.
Qed.

Lemma nested_map_roundtrip_witness :
  ∃ r, mapToJSON true (NestedMap demo_object) = Ok r ∧ r !! str "user.id" = Some (APlain (VPrim (PInt KInt64 7))) ∧ r !! str "gone" = None.
Proof.
  exists (solid_values demo_object). split; [|by split; vm_compute]. apply nested_map_roundtrip.
  - intros p v Hp. apply demo_object_lookup in Hp. repeat (apply elem_of_cons in Hp as [[= -> ->]|Hp]; [split; [exact I|split; [vm_compute; discriminate|vm_compute; lia]]|]).
    by apply not_elem_of_nil in Hp.
  - intros p q Hne [v Hv] [w Hw]. apply demo_object_lookup in Hv, Hw.
    repeat (apply elem_of_cons in Hv as [[= -> ->]|Hv]; [repeat (apply elem_of_cons in Hw as [[= -> ->]|Hw]; [try done; by apply (bool_decide_unpack _); vm_compute|]); by apply not_elem_of_nil in Hw|]).
    by apply not_elem_of_nil in Hv.
Defined.

(** ** Scanning a row into maps and structs *)

(** The type of the elements of a map: any, a map, or another one. *)
Inductive map_elem := ElemAny | ElemMap (e : map_elem) | ElemOther.

(** What is put into a map: the value scanned from a path, or a map. *)
Inductive filled := FPath (path : gostring) | FMap (l : list (gostring * filled)).

Inductive fill_err := PathMissing (path : gostring) | BadElement (prefix : gostring).

Section fill.
(** The paths of the column, and the dynamic paths at which the row is NULL. *)
Variable typedPaths dynamicPaths : list gostring.
Variable null_at : gostring → bool.

Definition has_path (l : list gostring) (path : gostring) : bool := bool_decide (path ∈ l).

Definition pathHasNestedValues (path : gostring) : bool :=
  existsb (λ p, HasPrefix p (path ++ str ".")) (typedPaths ++ dynamicPaths).

Definition prefix_len (prefix : gostring) : nat := if bool_decide (prefix = []) then 0 else length prefix + 1.

(** The next name of a path behind the prefix. *)
Definition child_key (prefix path : gostring) : gostring :=
  let suffix := drop (prefix_len prefix) path in
  match strings_Index suffix "." with None => suffix | Some i => take i suffix end.

Definition add_child (prefix : gostring) (children : list (gostring * list gostring)) (path : gostring) : list (gostring * list gostring) :=
  if (length path <=? prefix_len prefix)%nat then children
  else let k := child_key prefix path in aset children k (default [] (aget children k) ++ [path]).

Definition child_paths (prefix : gostring) : list (gostring * list gostring) :=
  foldl (add_child prefix) [] (List.filter (λ p, HasPrefix p prefix) (typedPaths ++ dynamicPaths)).

Definition no_child_nodes (prefix : gostring) (paths : list gostring) : bool :=
  forallb (λ p, negb (strings_Contains (drop (prefix_len prefix) p) ".")) paths.

(** A value of the map, [None] when it is left out. *)
Definition fill_value (e : map_elem) (path : gostring) : result fill_err (option filled) :=
  if has_path typedPaths path then Ok (Some (FPath path))
  else match e with
       | ElemAny => Ok (if negb (has_path dynamicPaths path) || null_at path then None else Some (FPath path))
       | _ => if has_path dynamicPaths path then Ok (Some (FPath path)) else Err (PathMissing path)
       end.

(** The recursion of [fillMap]; a child that is a map of its own. *)
Definition fill_child (fillMap : map_elem → gostring → option (result fill_err (list (gostring * filled))))
    (e : map_elem) (prefix key : gostring) (paths : list gostring) : option (result fill_err (option filled)) :=
  let path := child_path prefix key in
  if no_child_nodes prefix paths then Some (fill_value e path)
  else match (match e with ElemAny => Some ElemAny | ElemMap e => Some e | ElemOther => None end) with
       | None => Some (Err (BadElement path))
       | Some e =>
           r ← fillMap e path;
           Some (match r with Err e => Err e | Ok [] => Ok None | Ok l => Ok (Some (FMap l)) end)
       end.

Fixpoint fill_children (child : gostring → list gostring → option (result fill_err (option filled))) (l : list (gostring * list gostring))
    : option (result fill_err (list (gostring * filled))) :=
  match l with
  | [] => Some (Ok [])
  | (k, paths) :: l =>
      r ← child k paths;
      match r with
      | Err e => Some (Err e)
      | Ok x => rs ← fill_children child l;
                Some (match rs with Err e => Err e | Ok m => Ok (match x with Some x => (k, x) :: m | None => m end) end)
      end
  end.

(** [fillMap]; [None] is more levels than [fuel]. *)
Fixpoint fillMap (fuel : nat) (e : map_elem) (prefix : gostring) : option (result fill_err (list (gostring * filled))) :=
  match fuel with
  | O => None
  | S fuel => fill_children (fill_child (fillMap fuel) e prefix) (child_paths prefix)
  end.

(** A destination: a struct, a pointer to one, a map, or something else. *)
Inductive destination := DStruct (l : list (json_head * destination)) | DPtrStruct (l : list (json_head * destination)) | DMap (e : map_elem) | DOther.

(** [fillStruct]: what is put at which path of fields. *)
Fixpoint fillStruct (fuel : nat) (d : destination) (prefix : gostring) : option (result fill_err (list (gostring * filled))) :=
  match d with
  | DStruct l | DPtrStruct l =>
      (fix loop (l : list (json_head * destination)) : option (result fill_err (list (gostring * filled))) :=
         match l with
         | [] => Some (Ok [])
         | (h, d) :: l =>
             let path := child_path prefix (json_name h) in
             if negb (jf_exported h) || bool_decide (json_name h = str "-") then loop l
             else
               here ← (if has_path typedPaths path || has_path dynamicPaths path then Some (Ok [(path, FPath path)])
                       else if negb (pathHasNestedValues path) then Some (Ok [])
                       else fillStruct fuel d path);
               match here with
               | Err e => Some (Err e)
               | Ok x => rs ← loop l; Some (match rs with Err e => Err e | Ok m => Ok (x ++ m) end)
               end
         end) l
  | DMap e =>
      r ← fillMap fuel e prefix; Some (match r with Err e => Err e | Ok m => Ok [(prefix, FMap m)] end)
  | DOther => Some (Ok [])
  end.

End fill.

(** ** Limits *)

Definition int_any (z : Z) : goany := APlain (VPrim (PInt KInt64 z)).

(** A value at a path and one below it: the lower one lands at the top level. *)
Lemma nested_map_misplaces :
  NestedMap {[ str "a" := int_any 1; str "a.b" := int_any 2 ]} = [(str "a", int_any 1); (str "b", int_any 2)].
Proof. by vm_compute. Qed.

(** The entries below an empty name lose it: they take the place of those of the outer map. *)
Lemma empty_name_is_lost :
  match mapToJSON true [(str "x", int_any 1); ([], AMap GAny true [(str "x", int_any 2)])] with
  | Ok o => Some (o !! str "x", size o)
  | Err _ => None
  end = Some (Some (int_any 2), 1%nat).
Proof. by vm_compute. Qed.

(** A path that begins with a dot: the map of the empty name is filled with the prefix of the
    whole object again, without end. *)
Lemma leading_dot_recurses null_at fuel : fillMap [] [str ".x"] null_at fuel ElemAny [] = None.
Proof.
  induction fuel as [|fuel IH]; [done|].
  cbn [fillMap]. change (child_paths [] [str ".x"] []) with [([] : gostring, [str ".x"])].
  cbn [fill_children]. unfold fill_child at 1. change (no_child_nodes [] [str ".x"]) with false. cbn [mbind option_bind].
  change (child_path [] []) with ([] : gostring). by rewrite IH.
Qed.

(** The paths of a map are those that begin with its name, the dot not asked for: a sibling
    with a longer name makes a value look like a map, which is empty and left out. *)
Lemma sibling_prefix_loses_value :
  fillMap [] [str "a.c"; str "abc.d"] (λ _, false) 4 ElemAny [] = Some (Ok [(str "abc", FMap [(str "d", FPath (str "abc.d"))])]).
Proof. by vm_compute. Qed.

(** With a map of texts as the field the sibling is an error of the whole row. *)
Lemma sibling_prefix_breaks_scan :
  fillStruct [] [str "a.x"; str "abc"] (λ _, false) 4
    (DStruct [(MkJsonHead (str "A") (str "a") [] [] true, DMap ElemOther); (MkJsonHead (str "Abc") (str "abc") [] [] true, DOther)]) []
  = Some (Err (PathMissing (str "a.c"))).
Proof. by vm_compute. Qed.

(** Without such names a map gets every value, and leaves out the NULLs. *)
Lemma fill_nested_example :
  fillMap [str "id"] [str "user.name"; str "user.tags.first"; str "gone"] (λ p, bool_decide (p = str "gone")) 4 ElemAny []
  = Some (Ok [(str "id", FPath (str "id"));
              (str "user", FMap [(str "name", FPath (str "user.name")); (str "tags", FMap [(str "first", FPath (str "user.tags.first"))])])]).
Proof. by vm_compute. Qed.
