(* ===== verification/ColumnJSON.v ===== *)
(** * JSON columns ([lib/column/json.go], [json_deprecated.go])

    A JSON column holds its rows in one of two ways: as objects, with one column for every
    path (a declared type, or a Dynamic column made when the path first occurs), or as
    texts.  The first row that is not null decides; null rows before it are counted and
    written when the way is known.  Objects come as [chcol.JSON], or from structs and maps by
    reflection.  [None] is a panic, and the endless recursion of a [chcol.Dynamic] given to a
    plain column, whose [Value] is itself. *)

From Stdlib Require Import ZifyBool.
From S2P Require Import Prelude GoStd Strconv Wire ProtoPackets Column ColumnLaws ColumnLeaf ColumnType ColumnVariant ColumnDynamic JsonPaths.
Local Open Scope Z_scope.
#[local] Set Warnings "-register-all".

Definition JSONDeprecatedObjectSerializationVersion : Z := 0.
Definition JSONStringSerializationVersion : Z := 1.
Definition JSONObjectSerializationVersion : Z := 3.
Definition JSONUnsetSerializationVersion : Z := 2 ^ 64 - 1.
Definition DefaultMaxDynamicPaths : Z := 1024.

(** What the text of the type declares. *)
Record json_paths := MkPaths {
  typedPaths : list gostring;
  typedPathsIndex : gmap gostring nat;
  skipPaths : list gostring;
  skipPathsIndex : gmap gostring nat;
  maxDynamicPaths : Z;
  maxDynamicTypes : Z
}.

(** The paths found in the rows, with their columns. *)
Record json_dynamic := MkDyns {
  totalDynamicPaths : Z;
  dynamicPaths : list gostring;
  dynamicPathsIndex : gmap gostring nat;
  dynamicColumns : list Dynamic
}.

Record JSON := MkJSON {
  declared : json_paths;
  js_rows : nat;
  js_version : Z;
  pendingNullRows : nat;
  jsonStrings : list gostring;
  typedColumns : list column_value;
  dyns : json_dynamic
}.

Definition set_rows (n : nat) (c : JSON) : JSON := MkJSON (declared c) n (js_version c) (pendingNullRows c) (jsonStrings c) (typedColumns c) (dyns c).
Definition set_version (v : Z) (c : JSON) : JSON := MkJSON (declared c) (js_rows c) v (pendingNullRows c) (jsonStrings c) (typedColumns c) (dyns c).
Definition set_pending (n : nat) (c : JSON) : JSON := MkJSON (declared c) (js_rows c) (js_version c) n (jsonStrings c) (typedColumns c) (dyns c).
Definition set_strings (l : list gostring) (c : JSON) : JSON := MkJSON (declared c) (js_rows c) (js_version c) (pendingNullRows c) l (typedColumns c) (dyns c).
Definition set_typed (cs : list column_value) (c : JSON) : JSON := MkJSON (declared c) (js_rows c) (js_version c) (pendingNullRows c) (jsonStrings c) cs (dyns c).
Definition set_dyns (d : json_dynamic) (c : JSON) : JSON := MkJSON (declared c) (js_rows c) (js_version c) (pendingNullRows c) (jsonStrings c) (typedColumns c) d.

(** The way a value asks for. *)
Inductive jsonMode := jsonModeAny | jsonModeObject | jsonModeString.

(** ** The text of the type *)

Fixpoint split_delims (inBackticks : bool) (brackets : Z) (currentPart : gostring) (s : gostring) : list gostring :=
  match s with
  | [] => if bool_decide (currentPart = []) then [] else [currentPart]
  | b :: s =>
      if beq b "`" then split_delims (negb inBackticks) brackets (currentPart ++ [b]) s
      else if beq b "(" then split_delims inBackticks (brackets + 1) (currentPart ++ [b]) s
      else if beq b ")" then split_delims inBackticks (brackets - 1) (currentPart ++ [b]) s
      else if beq b "," && negb inBackticks && (brackets =? 0) then currentPart :: split_delims inBackticks brackets [] s
      else split_delims inBackticks brackets (currentPart ++ [b]) s
  end.

Definition splitWithDelimiters (s : gostring) : list gostring := split_delims false 0 [] s.

(** [strings.Trim]. *)
Fixpoint trim_start (cutset s : gostring) : gostring :=
  match s with
  | b :: r => if bool_decide (b ∈ cutset) then trim_start cutset r else s
  | [] => []
  end.
Definition strings_Trim (s cutset : gostring) : gostring := reverse (trim_start cutset (reverse (trim_start cutset s))).

Definition add_skip (path : gostring) (p : json_paths) : json_paths :=
  MkPaths (typedPaths p) (typedPathsIndex p) (skipPaths p ++ [path]) (<[path := length (skipPaths p)]> (skipPathsIndex p))
    (maxDynamicPaths p) (maxDynamicTypes p).
Definition add_typed (path : gostring) (p : json_paths) : json_paths :=
  MkPaths (typedPaths p ++ [path]) (<[path := length (typedPaths p)]> (typedPathsIndex p)) (skipPaths p) (skipPathsIndex p)
    (maxDynamicPaths p) (maxDynamicTypes p).
Definition with_max (paths types : Z) (p : json_paths) : json_paths :=
  MkPaths (typedPaths p) (typedPathsIndex p) (skipPaths p) (skipPathsIndex p) paths types.

Definition no_paths : json_paths := MkPaths [] ∅ [] ∅ DefaultMaxDynamicPaths DefaultMaxDynamicTypes.
Definition no_dynamic : json_dynamic := MkDyns 0 [] ∅ [].
Definition new_json (p : json_paths) (cs : list column_value) : JSON := MkJSON p 0 JSONUnsetSerializationVersion 0 [] cs no_dynamic.

Section json.
Context {W : Wire}.
Variable duration_string : Z → gostring.
(** [Type.Column] with an empty name, and [supportsFlatDynamicJSON] of the server. *)
Variable column : gostring → option (result cerr Interface).
Variable flat : bool.
(** The order in which a map is walked. *)
Variable order : chcol_JSON → list gostring.

(** A part of the type, other than a typed path. *)
Definition parse_option (part : gostring) (p : json_paths) : option json_paths :=
  if HasPrefix part (str "max_dynamic_paths=") then
    Some (match Atoi (drop 18 part) with Some n => with_max n (maxDynamicTypes p) p | None => p end)
  else if HasPrefix part (str "max_dynamic_types=") then
    Some (match Atoi (drop 18 part) with Some n => with_max (maxDynamicPaths p) n p | None => p end)
  else if HasPrefix part (str "SKIP REGEXP") then Some (add_skip (strings_Trim (drop 11 part) (str " '")) p)
  else if HasPrefix part (str "SKIP") then Some (add_skip (strings_Trim (drop 4 part) (str " `")) p)
  else None.

Fixpoint parse_parts (parts : list gostring) (p : json_paths) (cs : list column_value) : option (result cerr (json_paths * list column_value)) :=
  match parts with
  | [] => Some (Ok (p, cs))
  | part :: parts =>
      let part := TrimSpace part in
      match parse_option part p with
      | Some p => parse_parts parts p cs
      | None =>
          let '(path, name, found) := strings_Cut part " " in
          if negb found then parse_parts parts p cs
          else
            r ← column (TrimSpace name);
            match r with
            | Err e => Some (Err e)
            | Ok C => parse_parts parts (add_typed (strings_Trim path (str "`")) p) (cs ++ [new_column C])
            end
      end
  end.

Definition json_parse (t : gostring) : option (result cerr JSON) :=
  if bool_decide (t = str "JSON") then Some (Ok (new_json no_paths []))
  else if negb (HasPrefix t (str "JSON(")) || negb (HasPrefix (reverse t) (str ")")) then Some (Err (UnsupportedColumnTypeError t))
  else
    r ← parse_parts (splitWithDelimiters (TrimSuffix (drop 5 t) ")")) no_paths [];
    Some (match r with Err e => Err e | Ok (p, cs) => Ok (new_json p cs) end).

(** ** Values *)

(** What [AppendRow] tells apart: a string, [[]byte], [json.RawMessage], [sql.NullString]
    or a pointer to one, not nil; a [chcol.JSON] or a pointer to one, [None] with a nil map;
    a [JSONSerializer] with what it returns, where [None] is a nil object; a nil pointer to
    one, with [None] for a panic; and every other value. *)
Inductive json_arg :=
| JText (v : value)
| JObject (ptr : bool) (m : option chcol_JSON)
| JSerializer (r : option (option chcol_JSON)) (self : goany)
| JNilSerializer (r : option (option (option chcol_JSON)))
| JAny (x : goany).

Inductive json_err :=
| ModeConflict (was want : Z)
| UnsupportedValue
| SerializeFailed
| ConvertFailed (e : flat_err)
| BadVersion (v : Z)
| PathFailed (path : gostring) (e : cerr)
| TextFailed (e : cerr)
| HeaderFailed (e : cerr)
| NotSlice.

(** The value that a column gets; [None] for a [chcol.Dynamic]. *)
Fixpoint plain_value (x : goany) : option value :=
  match x with
  | ANil => Some VNil
  | APlain v | AKnown v => Some v
  | ADynamic _ _ => None
  | AStruct l =>
      VStruct <$> (fix loop (l : list (json_head * goany)) : option (list (gostring * gostring * gostring * bool * value)) :=
         match l with
         | [] => Some []
         | (h, y) :: l => v ← plain_value y; r ← loop l; Some ((jf_Name h, jf_json h, jf_ch h, jf_exported h, v) :: r)
         end) l
  | AMap elem strings l =>
      VMap (if strings then GString else GAny) elem <$>
        (fix loop (l : list (gostring * goany)) : option (list (value * value)) :=
           match l with
           | [] => Some []
           | (k, y) :: l => v ← plain_value y; r ← loop l; Some ((VPrim (PString k), v) :: r)
           end) l
  | ANilPtr t => Some (VNilPtr t)
  | APtr y => VPtr <$> plain_value y
  end.

(** What a Dynamic column is given. *)
Definition dynamic_arg (x : goany) : option variant_arg :=
  match x with
  | ANil => Some ArgNil
  | ADynamic y ty | APtr (ADynamic y ty) => v ← plain_value y; Some (ArgVariant v ty)
  | _ => v ← plain_value x; Some (ArgPlain v)
  end.

(** A type whose kind is a slice of bytes, and one with [Value] or [String]. *)
Definition byte_kind (v : value) : bool :=
  match v with
  | VSlice (GInt KUint8) _ | VPrim (PExt (XIP _) _) => true
  | _ => false
  end.
Definition has_text (v : value) : bool :=
  match Value v with
  | NotValuer =>
      match v with
      | VPrim (PStringer _ | PDuration _) | VPtr (VPrim (PStringer _ | PDuration _)) => true
      | VPrim (PExt _ m) => bool_decide (is_Some (String_method m))
      | VPtr (VPrim (PExt _ m)) => bool_decide (is_Some (PtrString_method m))
      | _ => false
      end
  | _ => true
  end.

Definition text_mode (b : bool) : option jsonMode := if b then Some jsonModeString else None.

Definition classifyJSONValue (a : json_arg) : option jsonMode :=
  match a with
  | JAny (ANil | ANilPtr _ | APtr ANil) | JNilSerializer _ => Some jsonModeAny
  | JObject _ _ | JSerializer _ _ => Some jsonModeObject
  | JText _ => Some jsonModeString
  | JAny (AStruct _ | AKnown _ | ADynamic _ _ | AMap _ _ _) => Some jsonModeObject
  | JAny (APtr (AStruct _ | AKnown _ | ADynamic _ _ | AMap _ _ _)) => Some jsonModeObject
  | JAny (APlain v) => text_mode (byte_kind v || has_text v)
  | JAny (APtr (APlain v)) =>
      text_mode (byte_kind v || match v with VPrim (PString _) => true | _ => false end || has_text (VPtr v))
  | JAny (APtr (ANilPtr _ | APtr _)) => None
  end.

Definition isNullishForJSON (a : json_arg) : bool :=
  match a with
  | JAny (ANil | ANilPtr _) | JNilSerializer _ => true
  | JText (VNullable GString None | VPtr (VNullable GString None)) => true
  | _ => false
  end.

(** ** Objects *)

(** The fields of [sql.NullString]. *)
Definition null_string_fields (p : option prim) : list (json_head * goany) :=
  [(MkJsonHead (str "String") [] [] [] true, APlain (VPrim (default (PString []) p)));
   (MkJsonHead (str "Valid") [] [] [] true, APlain (VPrim (PBool (bool_decide (is_Some p)))))].

Definition converted (r : result flat_err chcol_JSON) : result json_err (option (option chcol_JSON)) :=
  match r with Ok o => Ok (Some (Some o)) | Err e => Err (ConvertFailed e) end.

(** The object of a value by reflection, [Ok None] for a null row.  The structs that the
    conversion of fields knows have no exported fields. *)
Definition reflect_object (x : goany) : result json_err (option (option chcol_JSON)) :=
  match x with
  | ANil | ANilPtr _ | APtr ANil => Ok None
  | AStruct l | APtr (AStruct l) => converted (structToJSON l)
  | AKnown _ | ADynamic _ _ | APtr (AKnown _ | ADynamic _ _) => converted (structToJSON [])
  | AMap _ strings l | APtr (AMap _ strings l) => converted (mapToJSON strings l)
  | APlain _ | APtr (APlain _ | ANilPtr _ | APtr _) => Err UnsupportedValue
  end.

Definition row_object (a : json_arg) : option (result json_err (option (option chcol_JSON))) :=
  match a with
  | JObject _ m => Some (Ok (Some m))
  | JSerializer None _ => Some (Err SerializeFailed)
  | JSerializer (Some (Some o)) _ => Some (Ok (Some (Some o)))
  | JSerializer (Some None) self => Some (reflect_object self)
  | JNilSerializer None => None
  | JNilSerializer (Some None) => Some (Err SerializeFailed)
  | JNilSerializer (Some (Some None)) => Some (Ok None)
  | JNilSerializer (Some (Some (Some o))) => Some (Ok (Some (Some o)))
  | JText (VNullable GString p | VPtr (VNullable GString p)) => Some (converted (structToJSON (null_string_fields p)))
  | JText _ => Some (Err UnsupportedValue)
  | JAny x => Some (reflect_object x)
  end.

(** The typed paths of a row. *)
Fixpoint append_typed_paths (paths : list gostring) (cs : list column_value) (m : chcol_JSON) : option (list column_value * option json_err) :=
  match paths, cs with
  | [], _ => Some (cs, None)
  | _ :: _, [] => None
  | p :: paths, c :: cs =>
      v ← plain_value (default ANil (m !! p));
      '(st, e) ← AppendRow (projT1 c) (projT2 c) v;
      match e with
      | Some e => Some (existT (projT1 c) st :: cs, Some (PathFailed p e))
      | None => '(cs, e) ← append_typed_paths paths cs m; Some (existT (projT1 c) st :: cs, e)
      end
  end.

(** The dynamic paths that the row does not have are added to its map, which may be the
    caller's; a nil map is a panic. *)
Definition pad (m : chcol_JSON) (path : gostring) : chcol_JSON :=
  match m !! path with Some _ => m | None => <[path := ANil]> m end.
Definition pad_nils (paths : list gostring) (m : option chcol_JSON) : option (option chcol_JSON) :=
  match m with
  | Some m => Some (Some (foldl pad m paths))
  | None => match paths with [] => Some None | _ => None end
  end.

(** [Type("Dynamic").Column("")]. *)
Definition new_dynamic : Dynamic := match dynamic_parse duration_string flat (str "Dynamic") with Ok s => s | Err _ => dyn_empty end.

Definition add_dynamic (path : gostring) (s : Dynamic) (d : json_dynamic) : json_dynamic :=
  MkDyns (totalDynamicPaths d + 1) (dynamicPaths d ++ [path]) (<[path := length (dynamicPaths d)]> (dynamicPathsIndex d))
    (dynamicColumns d ++ [s]).

(** One dynamic path of a row; a new one is filled with NULLs for the rows before. *)
Definition append_path (rows : nat) (path : gostring) (x : goany) (d : json_dynamic) : option (json_dynamic * option json_err) :=
  a ← dynamic_arg x;
  match dynamicPathsIndex d !! path with
  | Some i =>
      s ← dynamicColumns d !! i;
      '(s, e) ← dynamic_AppendRow column s a;
      Some (MkDyns (totalDynamicPaths d) (dynamicPaths d) (dynamicPathsIndex d) (<[i := s]> (dynamicColumns d)), option_map (PathFailed path) e)
  | None =>
      '(s, e) ← dynamic_Append column new_dynamic (replicate rows ArgNil ++ [a]);
      Some (match e with
            | Some e => (d, Some (PathFailed path e))
            | None => (add_dynamic path s d, None)
            end)
  end.

Definition hasTypedPath (p : json_paths) (path : gostring) : bool := bool_decide (is_Some (typedPathsIndex p !! path)).
Definition hasSkipPath (p : json_paths) (path : gostring) : bool := bool_decide (is_Some (skipPathsIndex p !! path)).
Definition hasDynamicPath (d : json_dynamic) (path : gostring) : bool := bool_decide (is_Some (dynamicPathsIndex d !! path)).

Fixpoint append_paths (p : json_paths) (rows : nat) (l : list gostring) (m : chcol_JSON) (d : json_dynamic) : option (json_dynamic * option json_err) :=
  match l with
  | [] => Some (d, None)
  | path :: l =>
      if hasTypedPath p path || hasSkipPath p path then append_paths p rows l m d
      else
        '(d, e) ← append_path rows path (default ANil (m !! path)) d;
        match e with Some e => Some (d, Some e) | None => append_paths p rows l m d end
  end.

(** The second half of [appendRowObject], with the map as it is left. *)
Definition append_object (c : JSON) (m : option chcol_JSON) : option (JSON * option chcol_JSON * option json_err) :=
  '(cs, e) ← append_typed_paths (typedPaths (declared c)) (typedColumns c) (default ∅ m);
  let c := set_typed cs c in
  match e with
  | Some e => Some (c, m, Some e)
  | None =>
      m ← pad_nils (dynamicPaths (dyns c)) m;
      '(d, e) ← append_paths (declared c) (js_rows c) (order (default ∅ m)) (default ∅ m) (dyns c);
      let c := set_dyns d c in
      Some (match e with Some e => (c, m, Some e) | None => (set_rows (S (js_rows c)) c, m, None) end)
  end.

Definition appendRowObject (c : JSON) (a : json_arg) : option (JSON * option json_err) :=
  r ← row_object a;
  match r with
  | Err e => Some (c, Some e)
  | Ok o => '(c, _, e) ← append_object c (default (Some ∅) o); Some (c, e)
  end.

(** ** Texts *)

(** What the String column gets. *)
Definition text_value (a : json_arg) : option value :=
  match a with
  | JText v => Some v
  | JObject ptr _ => if ptr then None else Some (VStruct [])
  | JSerializer _ self => plain_value self
  | JNilSerializer _ => Some VNil
  | JAny x => plain_value x
  end.

Definition null_text : value := VPrim (PString (str "null")).

Definition appendRowString (c : JSON) (a : json_arg) : option (JSON * option json_err) :=
  v ← (if isNullishForJSON a then Some null_text else text_value a);
  '(l, e) ← string_AppendRow duration_string (jsonStrings c) v;
  let c := set_strings l c in
  Some (match e with Some e => (c, Some (TextFailed e)) | None => (set_rows (S (js_rows c)) c, None) end).

(** ** The way of the column *)

Definition is_object (c : JSON) : bool := js_version c =? JSONObjectSerializationVersion.
Definition is_string (c : JSON) : bool := js_version c =? JSONStringSerializationVersion.
Definition is_unset (c : JSON) : bool := js_version c =? JSONUnsetSerializationVersion.

Definition append_row (c : JSON) (a : json_arg) : option (JSON * option json_err) :=
  if is_object c then appendRowObject c a
  else if is_string c then appendRowString c a
  else Some (c, Some (BadVersion (js_version c))).

Fixpoint append_all {A} (f : JSON → A → option (JSON * option json_err)) (c : JSON) (l : list A) : option (JSON * option json_err) :=
  match l with
  | [] => Some (c, None)
  | a :: l => '(c, e) ← f c a; match e with Some e => Some (c, Some e) | None => append_all f c l end
  end.

Definition flushPendingNulls (c : JSON) : option (JSON * option json_err) :=
  let pending := pendingNullRows c in
  if (pending =? 0)%nat then Some (c, None)
  else append_all append_row (set_rows (js_rows c - pending) (set_pending 0 c)) (replicate pending (JAny ANil)).

Definition mode_version (m : jsonMode) : Z :=
  match m with jsonModeString => JSONStringSerializationVersion | _ => JSONObjectSerializationVersion end.

Definition reconcileMode (m : jsonMode) (c : JSON) : option (JSON * option json_err) :=
  match m with
  | jsonModeAny => Some (c, None)
  | _ =>
      let want := mode_version m in
      if is_unset c then flushPendingNulls (set_version want c)
      else if js_version c =? want then Some (c, None)
      else Some (c, Some (ModeConflict (js_version c) want))
  end.

Definition json_AppendRow (c : JSON) (a : json_arg) : option (JSON * option json_err) :=
  match classifyJSONValue a with
  | None => Some (c, Some UnsupportedValue)
  | Some mode =>
      match mode with
      | jsonModeAny =>
          if is_unset c then Some (set_rows (S (js_rows c)) (set_pending (S (pendingNullRows c)) c), None) else append_row c a
      | _ =>
          '(c, e) ← reconcileMode mode c;
          match e with Some e => Some (c, Some e) | None => append_row c a end
      end
  end.

(** ** Slices *)

(** The slices that [Append] tells apart: of [chcol.JSON] or serializers, of texts, of
    bytes, of anything else; what is no slice, and nil. *)
Inductive json_slice :=
| SObjects (l : list json_arg)
| STexts (l : list json_arg)
| SBytes (l : list json_arg)
| SOther (l : list json_arg)
| SNone
| SNil.

Definition slice_elems (s : json_slice) : option (list json_arg) :=
  match s with SObjects l | STexts l | SBytes l | SOther l => Some l | SNone | SNil => None end.

Definition appendObject (c : JSON) (s : json_slice) : option (JSON * option json_err) :=
  match slice_elems s with
  | None => Some (c, Some NotSlice)
  | Some l => append_all json_AppendRow c l
  end.

Definition null_flags (l : list json_arg) : list Z := (λ a, if isNullishForJSON a then 1 else 0) <$> l.

Definition appendString (c : JSON) (s : json_slice) : option (JSON * result json_err (option (list Z))) :=
  match slice_elems s with
  | None => Some (c, Err NotSlice)
  | Some l =>
      '(c, e) ← append_all appendRowString c l;
      Some (c, match e with Some e => Err e | None => Ok (Some (null_flags l)) end)
  end.

Definition no_nulls (r : option (JSON * option json_err)) : option (JSON * result json_err (option (list Z))) :=
  '(c, e) ← r; Some (c, match e with Some e => Err e | None => Ok None end).

Definition append_latched (m : jsonMode) (c : JSON) (k : JSON → option (JSON * result json_err (option (list Z))))
    : option (JSON * result json_err (option (list Z))) :=
  '(c, e) ← reconcileMode m c;
  match e with Some e => Some (c, Err e) | None => k c end.

(** The retry as texts when the objects left no trace.  The message of its failure asks for
    the type of the value: of nil a panic. *)
Definition append_other (c : JSON) (s : json_slice) : option (JSON * result json_err (option (list Z))) :=
  '(c1, e) ← appendObject c s;
  match e with
  | None => Some (c1, Ok None)
  | Some e =>
      if negb (js_rows c1 =? js_rows c)%nat || negb (js_version c1 =? js_version c) then Some (c1, Err e)
      else
        '(c2, r) ← appendString c1 s;
        match r with
        | Ok _ => Some (if is_unset c2 then set_version JSONStringSerializationVersion c2 else c2, Ok None)
        | Err e => match s with SNil => None | _ => Some (c2, Err e) end
        end
  end.

Definition json_Append (c : JSON) (s : json_slice) : option (JSON * result json_err (option (list Z))) :=
  if is_object c then no_nulls (appendObject c s)
  else if is_string c then appendString c s
  else match s with
       | SObjects _ => append_latched jsonModeObject c (λ c, no_nulls (appendObject c s))
       | STexts _ | SBytes _ => append_latched jsonModeString c (λ c, appendString c s)
       | SOther _ | SNone | SNil => append_other c s
       end.

Definition reset_column (c : column_value) : column_value := existT (projT1 c) (Reset (projT1 c) (projT2 c)).

Definition json_Reset (c : JSON) : JSON :=
  let c := set_rows 0 (set_pending 0 c) in
  let c := if is_object c then
             set_dyns (MkDyns (totalDynamicPaths (dyns c)) (dynamicPaths (dyns c)) (dynamicPathsIndex (dyns c)) (dynamic_Reset <$> dynamicColumns (dyns c)))
               (set_typed (reset_column <$> typedColumns c) c)
           else if is_string c then set_strings [] c else c in
  set_version JSONUnsetSerializationVersion c.

(** ** Writing *)

Fixpoint write_dynamics (l : list Dynamic) : option (list Dynamic * result cerr gostring) :=
  match l with
  | [] => Some ([], Ok [])
  | s :: l =>
      '(s, r) ← dynamic_WriteStatePrefix flat s;
      match r with
      | Err e => Some (s :: l, Err e)
      | Ok p => '(l, q) ← write_dynamics l; Some (s :: l, match q with Ok q => Ok (p ++ q) | Err e => Err e end)
      end
  end.

(** [encodeObjectHeader], and [encodeObjectHeader_v1] with the limit of paths in front. *)
Definition object_header (c : JSON) (front : gostring) : option (JSON * result cerr gostring) :=
  let d := dyns c in
  match write_columns (typedColumns c) with
  | Err e => Some (c, Err e)
  | Ok typed =>
      '(cols, r) ← write_dynamics (dynamicColumns d);
      Some (set_dyns (MkDyns (totalDynamicPaths d) (dynamicPaths d) (dynamicPathsIndex d) cols) c,
            p ← r;
            Ok (front ++ PutUVarInt (totalDynamicPaths d) ++ concat (PutString <$> dynamicPaths d) ++ typed ++ p))
  end.

Definition encodeObjectHeader (c : JSON) : option (JSON * result cerr gostring) := object_header c [].
Definition encodeObjectHeader_v1 (c : JSON) : option (JSON * result cerr gostring) :=
  object_header c (PutUVarInt (u64 (maxDynamicPaths (declared c)))).

Definition encodeObjectData (c : JSON) : gostring :=
  dyn_encode_columns (typedColumns c) ++ concat (dynamic_Encode flat <$> dynamicColumns (dyns c)).
(** The shared data of a row is empty. *)
Definition encodeObjectData_v1 (c : JSON) : gostring :=
  encodeObjectData c ++ concat (replicate (js_rows c) (PutUInt64 0)).
Definition encodeStringData (c : JSON) : gostring := string_Encode (jsonStrings c).

Definition prefix_of_version (v : Z) (r : option (JSON * result cerr gostring)) : option (JSON * result json_err gostring) :=
  '(c, p) ← r; Some (c, match p with Ok p => Ok (PutUInt64 v ++ p) | Err e => Err (HeaderFailed e) end).

(** Rows that are all null become texts. *)
Definition latch_nulls (c : JSON) : option (JSON * option json_err) :=
  if is_unset c && (0 <? pendingNullRows c)%nat then flushPendingNulls (set_version JSONStringSerializationVersion c) else Some (c, None).

Definition json_WriteStatePrefix (c : JSON) : option (JSON * result json_err gostring) :=
  '(c, e) ← latch_nulls c;
  match e with
  | Some e => Some (c, Err e)
  | None =>
      if is_object c then
        if flat then prefix_of_version JSONObjectSerializationVersion (encodeObjectHeader c)
        else prefix_of_version JSONDeprecatedObjectSerializationVersion (encodeObjectHeader_v1 c)
      else Some (c, Ok (PutUInt64 JSONStringSerializationVersion))
  end.

Definition json_Encode (c : JSON) : gostring :=
  if is_object c then if flat then encodeObjectData c else encodeObjectData_v1 c
  else if is_string c then encodeStringData c else [].

(** ** Reading *)

Definition index_paths (paths : list gostring) (m : gmap gostring nat) : gmap gostring nat :=
  foldl (λ m pi, <[pi.1 := pi.2]> m) m (zip paths (seq 0 (length paths))).

Fixpoint read_dynamics (n : nat) (b : gostring) : option (result cerr (list Dynamic * gostring)) :=
  match n with
  | O => Some (Ok ([], b))
  | S n =>
      r ← dynamic_ReadStatePrefix column new_dynamic b;
      match r with
      | Err e => Some (Err e)
      | Ok (s, b) => q ← read_dynamics n b; Some (match q with Err e => Err e | Ok (l, b) => Ok (s :: l, b) end)
      end
  end.

(** A count of paths that is negative as an int is a panic of [make]. *)
Definition decodeObjectHeader (c : JSON) (b : gostring) : option (result cerr (JSON * gostring)) :=
  match RUVarInt b with
  | None => Some (Err ReadError)
  | Some (total, b) =>
      if i64 total <? 0 then None
      else match read_names (Z.to_nat (i64 total)) b with
           | None => Some (Err ReadError)
           | Some (paths, b) =>
               match read_columns (typedColumns c) b with
               | Err e => Some (Err e)
               | Ok (cs, b) =>
                   r ← read_dynamics (length paths) b;
                   Some ('(l, b) ← r;
                         Ok (set_dyns (MkDyns (i64 total) paths (index_paths paths (dynamicPathsIndex (dyns c))) l) (set_typed cs c), b))
               end
           end
  end.

Definition with_max_paths (n : Z) (c : JSON) : JSON :=
  MkJSON (with_max n (maxDynamicTypes (declared c)) (declared c)) (js_rows c) (js_version c) (pendingNullRows c) (jsonStrings c)
    (typedColumns c) (dyns c).

Definition decodeObjectHeader_v1 (c : JSON) (b : gostring) : option (result cerr (JSON * gostring)) :=
  match RUVarInt b with
  | None => Some (Err ReadError)
  | Some (max, b) => decodeObjectHeader (with_max_paths (i64 max) c) b
  end.

Fixpoint decode_typed (rows : nat) (cs : list column_value) (b : gostring) : result cerr (list column_value * gostring) :=
  match cs with
  | [] => Ok ([], b)
  | c :: cs =>
      '(st, b) ← Decode (projT1 c) (projT2 c) rows b;
      '(cs, b) ← decode_typed rows cs b;
      Ok (existT (projT1 c) st :: cs, b)
  end.

Fixpoint decode_dynamics (rows : nat) (l : list Dynamic) (b : gostring) : option (result cerr (list Dynamic * gostring)) :=
  match l with
  | [] => Some (Ok ([], b))
  | s :: l =>
      r ← dynamic_Decode s rows b;
      match r with
      | Err e => Some (Err e)
      | Ok (s, b) => q ← decode_dynamics rows l b; Some (match q with Err e => Err e | Ok (l, b) => Ok (s :: l, b) end)
      end
  end.

Definition decodeObjectData (c : JSON) (rows : nat) (b : gostring) : option (result cerr (JSON * gostring)) :=
  match decode_typed rows (typedColumns c) b with
  | Err e => Some (Err e)
  | Ok (cs, b) =>
      r ← decode_dynamics rows (dynamicColumns (dyns c)) b;
      Some ('(l, b) ← r;
            Ok (set_dyns (MkDyns (totalDynamicPaths (dyns c)) (dynamicPaths (dyns c)) (dynamicPathsIndex (dyns c)) l) (set_typed cs c), b))
  end.

(** Eight bytes of shared data for each row are passed over. *)
Definition decodeObjectData_v1 (c : JSON) (rows : nat) (b : gostring) : option (result cerr (JSON * gostring)) :=
  r ← decodeObjectData c rows b;
  Some ('(c, b) ← r; '(_, b) ← rread (RVec 8 rows b); Ok (c, b)).

Definition decodeStringData (c : JSON) (rows : nat) (b : gostring) : result cerr (JSON * gostring) :=
  '(l, b) ← rread (string_Decode rows b); Ok (set_strings (jsonStrings c ++ l) c, b).

Definition json_ReadStatePrefix (c : JSON) (b : gostring) : option (result cerr (JSON * gostring)) :=
  match RUInt64 b with
  | None => Some (Err ReadError)
  | Some (version, b) =>
      let c := set_version version c in
      if version =? JSONDeprecatedObjectSerializationVersion then decodeObjectHeader_v1 c b
      else if version =? JSONObjectSerializationVersion then decodeObjectHeader c b
      else if version =? JSONStringSerializationVersion then Some (Ok (c, b))
      else Some (Err (ColumnError (str "unsupported JSON serialization version")))
  end.

Definition json_Decode (c : JSON) (rows : nat) (b : gostring) : option (result cerr (JSON * gostring)) :=
  let c := set_rows rows c in
  if js_version c =? JSONDeprecatedObjectSerializationVersion then
    r ← decodeObjectData_v1 c rows b;
    Some ('(c, b) ← r; Ok (set_version JSONObjectSerializationVersion c, b))
  else if is_object c then decodeObjectData c rows b
  else if is_string c then Some (decodeStringData c rows b)
  else Some (Err (ColumnError (str "unsupported JSON serialization version"))).

(** ** Rows *)

Definition dynamic_any (r : option (value * gostring)) : goany :=
  match r with None => ADynamic ANil [] | Some (v, ty) => ADynamic (APlain v) ty end.

Definition col_Row (col : column_value) (row : nat) : option value := Row (projT1 col) (projT2 col) row.
Definition typed_row (c : JSON) (i row : nat) : option goany :=
  col ← typedColumns c !! i; v ← col_Row col row; Some (match v with VNil => ANil | v => APlain v end).
Definition dynamic_row (c : JSON) (i row : nat) : option goany :=
  s ← dynamicColumns (dyns c) !! i; r ← dynamic_Row s row; Some (dynamic_any r).

(** [valueAtPath]: nil at a path that no row has. *)
Definition valueAtPath (c : JSON) (path : gostring) (row : nat) : option goany :=
  match typedPathsIndex (declared c) !! path with
  | Some i => typed_row c i row
  | None => match dynamicPathsIndex (dyns c) !! path with Some i => dynamic_row c i row | None => Some ANil end
  end.

Fixpoint set_rows_at (row : nat → option goany) (i : nat) (paths : list gostring) (o : chcol_JSON) : option chcol_JSON :=
  match paths with
  | [] => Some o
  | p :: paths => x ← row i; set_rows_at row (S i) paths (SetValueAtPath p x o)
  end.

Definition rowAsJSON (c : JSON) (row : nat) : option chcol_JSON :=
  o ← set_rows_at (λ i, typed_row c i row) 0 (typedPaths (declared c)) ∅;
  set_rows_at (λ i, dynamic_row c i row) 0 (dynamicPaths (dyns c)) o.

(** [Row]: an object, a text, or nil before the way is known. *)
Definition json_Row (c : JSON) (row : nat) : option (option (chcol_JSON + gostring)) :=
  if is_object c then o ← rowAsJSON c row; Some (Some (inl o))
  else if is_string c then t ← jsonStrings c !! row; Some (Some (inr t))
  else Some None.

(** The destinations of [ScanRow]: a [chcol.JSON], a [JSONDeserializer], a pointer to a
    struct, to a map (with the kind of its keys), and others. *)
Inductive json_dest := ToJSON | ToDeserializer (accepts : chcol_JSON → bool) | ToStruct (d : destination) | ToMap (e : map_elem) (strings : bool) | ToOther.
Inductive json_scanned := ScannedObject (o : chcol_JSON) | ScannedPaths (l : list (gostring * filled)) | ScannedText (t : gostring).
Inductive json_scan_err := FillFailed (e : fill_err) | DeserializeFailed | KeysNotStrings | BadDestination | NoVersion (v : Z).

Definition filled_result (r : result fill_err (list (gostring * filled))) : result json_scan_err json_scanned :=
  match r with Ok l => Ok (ScannedPaths l) | Err e => Err (FillFailed e) end.

Definition null_at_path (c : JSON) (row : nat) (path : gostring) : bool :=
  match valueAtPath c path row with Some (ANil | ADynamic ANil _) => true | _ => false end.

Definition scanRowObject (fuel : nat) (c : JSON) (dest : json_dest) (row : nat) : option (result json_scan_err json_scanned) :=
  let typed := typedPaths (declared c) in
  let dynamic := dynamicPaths (dyns c) in
  match dest with
  | ToJSON => o ← rowAsJSON c row; Some (Ok (ScannedObject o))
  | ToDeserializer accepts =>
      o ← rowAsJSON c row; Some (if accepts o : bool then Ok (ScannedObject o) else Err DeserializeFailed)
  | ToStruct d => r ← fillStruct typed dynamic (null_at_path c row) fuel d []; Some (filled_result r)
  | ToMap e strings =>
      if strings : bool then r ← fillMap typed dynamic (null_at_path c row) fuel e []; Some (filled_result r)
      else Some (Err KeysNotStrings)
  | ToOther => Some (Err BadDestination)
  end.

(** [scanRowString] into a text. *)
Definition json_ScanRow (fuel : nat) (c : JSON) (dest : json_dest) (row : nat) : option (result json_scan_err json_scanned) :=
  if is_object c then scanRowObject fuel c dest row
  else if is_string c then t ← jsonStrings c !! row; Some (Ok (ScannedText t))
  else Some (Err (NoVersion (js_version c))).
End json.

(** ** A column for each path *)

(** The rows as objects: what each path holds is the column that the values at that path
    make, with nil where a row does not have the path. *)
Section rows.
Context {W : Wire}.
Variable duration_string : Z → gostring.
Variable column : gostring → option (result cerr Interface).
Variable flat : bool.
Variable order : chcol_JSON → list gostring.
Hypothesis order_walks : ∀ m, NoDup (order m) ∧ ∀ p, p ∈ order m ↔ is_Some (m !! p).

Abbreviation new_dyn := (new_dynamic duration_string flat).

Definition at_path (p : gostring) (m : chcol_JSON) : goany := default ANil (m !! p).

Definition append_value_to (c : column_value) (v : value) : option (column_value * option cerr) :=
  '(st, e) ← AppendRow (projT1 c) (projT2 c) v; Some (existT (projT1 c) st, e).

Definition typed_holds (c0 : column_value) (xs : list goany) (c : column_value) : Prop :=
  ∃ vs, mapM plain_value xs = Some vs ∧ append_each append_value_to c0 vs = Some (c, None).
Definition dynamic_holds (xs : list goany) (s : Dynamic) : Prop :=
  ∃ args, mapM dynamic_arg xs = Some args ∧ dynamic_Append column new_dyn args = Some (s, None).

Record dyns_hold (hist : gostring → list goany) (d : json_dynamic) : Prop := {
  dh_total : totalDynamicPaths d = Z.of_nat (length (dynamicPaths d));
  dh_names : NoDup (dynamicPaths d);
  dh_length : length (dynamicColumns d) = length (dynamicPaths d);
  dh_index : ∀ p i, dynamicPathsIndex d !! p = Some i ↔ dynamicPaths d !! i = Some p;
  dh_rows : ∀ i p s, dynamicPaths d !! i = Some p → dynamicColumns d !! i = Some s → dynamic_holds (hist p) s
}.

(** The paths that get a Dynamic column. *)
Definition free_path (p : json_paths) (path : gostring) : Prop := hasTypedPath p path = false ∧ hasSkipPath p path = false.

Record json_holds (c0 c : JSON) (objs : list chcol_JSON) : Prop := {
  jh_declared : declared c = declared c0;
  jh_version : js_version c = JSONObjectSerializationVersion;
  jh_pending : pendingNullRows c = 0%nat;
  jh_rows : js_rows c = length objs;
  jh_typed : Forall3 (λ p a b, typed_holds a (at_path p <$> objs) b) (typedPaths (declared c0)) (typedColumns c0) (typedColumns c);
  jh_dynamic : dyns_hold (λ p, at_path p <$> objs) (dyns c);
  jh_paths : ∀ p, p ∈ dynamicPaths (dyns c) ↔ free_path (declared c0) p ∧ ∃ m, m ∈ objs ∧ is_Some (m !! p)
}.

Lemma append_each_app {S A} (f : S → A → option (S * option cerr)) l1 l2 s s1 r :
  append_each f s l1 = Some (s1, None) → append_each f s1 l2 = r → append_each f s (l1 ++ l2) = r.
Proof.
  revert s. induction l1 as [|x l1 IH]; intros s; cbn [append_each app]; [by intros [= ->]|].
  destruct (f s x) as [[s' [e|]]|]; cbn [mbind option_bind]; [done| |done]. apply IH.
Qed.

Lemma mapM_snoc {A B} (f : A → option B) l x ys y : mapM f l = Some ys → f x = Some y → mapM f (l ++ [x]) = Some (ys ++ [y]).
Proof.
  revert ys. induction l as [|z l IH]; intros ys; cbn; [intros [= <-] ->; done|].
  destruct (f z) as [w|]; cbn; [|done]. destruct (mapM f l) as [ws|]; cbn; [|done]. intros [= <-] Hx. by rewrite (IH ws eq_refl Hx).
Qed.

Lemma dynamic_holds_snoc xs s x a s' : dynamic_holds xs s → dynamic_arg x = Some a → dynamic_AppendRow column s a = Some (s', None) →
  dynamic_holds (xs ++ [x]) s'.
Proof.
  intros (args & H1 & H2) Ha Hs. exists (args ++ [a]). split; [by apply mapM_snoc|].
  eapply append_each_app; [exact H2|]. cbn. by rewrite Hs.
Qed.

Lemma dyns_hold_ext h h' d : (∀ p, p ∈ dynamicPaths d → h p = h' p) → dyns_hold h d → dyns_hold h' d.
Proof.
  intros Hh [H1 H2 H3 H4 H5]. split; try done. intros i p s Hp Hs. rewrite <- Hh by (by eapply list_elem_of_lookup_2). by eapply H5.
Qed.

Lemma mapM_nils n : mapM dynamic_arg (replicate n ANil) = Some (replicate n ArgNil).
Proof. induction n as [|n IH]; [done|]. cbn. by rewrite IH. Qed.

Definition add_at (q : gostring) (x : goany) (h : gostring → list goany) (p : gostring) : list goany :=
  if decide (p = q) then h p ++ [x] else h p.

(** One path of a row. *)
Lemma append_path_holds h rows q x d d' : dyns_hold h d → (q ∉ dynamicPaths d → h q = replicate rows ANil) →
  append_path duration_string column flat rows q x d = Some (d', None) →
  dyns_hold (add_at q x h) d' ∧ ∀ p, p ∈ dynamicPaths d' ↔ p ∈ dynamicPaths d ∨ p = q.
Proof.
  intros [H1 H2 H3 H4 H5] Hq. unfold append_path. destruct (dynamic_arg x) as [a|] eqn:Ea; [|done]. cbn [mbind option_bind].
  destruct (dynamicPathsIndex d !! q) as [i|] eqn:Ei.
  - destruct (dynamicColumns d !! i) as [s|] eqn:Es; [|done]. cbn [mbind option_bind].
    destruct (dynamic_AppendRow column s a) as [[s' [e|]]|] eqn:E; cbn; [done| |done]. intros [= <-].
    apply H4 in Ei as Hi. split.
    + split; cbn; try done; [by rewrite length_insert|]. intros j p t Hp Ht. unfold add_at.
      destruct (decide (j = i)) as [->|Hne].
      * rewrite Hi in Hp. injection Hp as <-. rewrite decide_True by done.
        rewrite list_lookup_insert_eq in Ht by (by eapply lookup_lt_Some). injection Ht as <-. eapply dynamic_holds_snoc; [|done|done]. by eapply H5.
      * rewrite decide_False; [|intros ->; apply Hne; by eapply NoDup_lookup].
        rewrite list_lookup_insert_ne in Ht by done. by eapply H5.
    + cbn. intros p. split; [by left|]. intros [Hp| ->]; [done|]. by eapply list_elem_of_lookup_2.
  - assert (q ∉ dynamicPaths d) as Hnew.
    { intros [i Hi]%list_elem_of_lookup. apply H4 in Hi. by rewrite Ei in Hi. }
    destruct (dynamic_Append column new_dyn (replicate rows ArgNil ++ [a])) as [[s [e|]]|] eqn:E; cbn; [done| |done]. intros [= <-]. split.
    + split; cbn.
      * rewrite length_app, H1. cbn. lia.
      * apply NoDup_app. split; [done|]. split; [|apply NoDup_singleton]. intros p Hp Hpq. apply list_elem_of_singleton in Hpq as ->. done.
      * rewrite !length_app, H3. done.
      * intros p i. destruct (decide (p = q)) as [->|Hne].
        -- rewrite lookup_insert_eq. split; [intros [= <-]; by rewrite list_lookup_middle|].
           intros Hi. destruct (decide (i < length (dynamicPaths d))%nat) as [Hl|Hl].
           ++ rewrite lookup_app_l in Hi by done. destruct Hnew. by eapply list_elem_of_lookup_2.
           ++ apply lookup_lt_Some in Hi. rewrite length_app in Hi. cbn in Hi. f_equal. lia.
        -- rewrite lookup_insert_ne by done. rewrite H4. split; [intros Hi; by apply lookup_app_l_Some|].
           intros Hi. apply lookup_app_Some in Hi as [Hi|[_ Hi]]; [done|]. apply list_lookup_singleton_Some in Hi as [_ <-]. done.
      * intros i p t Hp Ht. unfold add_at. apply lookup_app_Some in Hp as [Hp|[Hl Hp]].
        -- assert (p ≠ q) as Hne by (intros ->; apply Hnew; by eapply list_elem_of_lookup_2). rewrite decide_False by done.
           apply (H5 i); [done|]. apply lookup_lt_Some in Hp. rewrite lookup_app_l in Ht by lia. done.
        -- apply list_lookup_singleton_Some in Hp as [Hi <-]. rewrite decide_True by done.
           rewrite lookup_app_r in Ht by lia. rewrite H3, Hi in Ht. injection Ht as <-.
           rewrite Hq by done. exists (replicate rows ArgNil ++ [a]). split; [|done]. apply mapM_snoc; [apply mapM_nils|done].
    + cbn. intros p. rewrite elem_of_app, list_elem_of_singleton. done.
Qed.

(** All paths of a row. *)
Lemma append_paths_hold decl rows m l : NoDup l → ∀ h d d', dyns_hold h d →
  (∀ q, q ∈ l → free_path decl q → q ∉ dynamicPaths d → h q = replicate rows ANil) →
  append_paths duration_string column flat decl rows l m d = Some (d', None) →
  ∃ h', dyns_hold h' d' ∧ (∀ p, p ∈ dynamicPaths d' ↔ p ∈ dynamicPaths d ∨ (p ∈ l ∧ free_path decl p))
  ∧ (∀ p, p ∈ l → free_path decl p → h' p = h p ++ [at_path p m])
  ∧ ∀ p, p ∉ l → h' p = h p.
Proof.
  induction l as [|q l IH]; intros Hnd h d d' Hd Hnew; cbn [append_paths].
  { intros [= <-]. exists h. split; [done|]. split; [set_solver|]. split; [set_solver|done]. }
  apply NoDup_cons in Hnd as [Hq Hnd].
  destruct (hasTypedPath decl q || hasSkipPath decl q) eqn:Ex.
  - intros Ha. destruct (IH Hnd h d d' Hd) as (h' & I1 & I2 & I3 & I4); [intros p Hp; apply Hnew; set_solver|done|].
    assert (¬ free_path decl q) as Hf by (intros [F1 F2]; by rewrite F1, F2 in Ex).
    exists h'. split; [done|]. split; [intros p; rewrite I2; set_solver|]. split; [intros p [->|Hp]%elem_of_cons; [done|by apply I3]|].
    intros p Hp. apply I4. set_solver.
  - assert (free_path decl q) as Hf by (apply orb_false_iff in Ex; done).
    destruct (append_path duration_string column flat rows q _ d) as [[d1 [e|]]|] eqn:E; cbn [mbind option_bind]; [done| |done]. intros Ha.
    destruct (append_path_holds h rows q _ d d1 Hd ltac:(intros; apply Hnew; [set_solver|done|done]) E) as [P1 P2].
    destruct (IH Hnd _ d1 d' P1) as (h' & I1 & I2 & I3 & I4); [|done|].
    { intros p Hp Hfp Hpd. unfold add_at. rewrite decide_False by (intros ->; done). apply Hnew; [set_solver|done|].
      intros ?. apply Hpd. apply P2. by left. }
    exists h'. split; [done|]. split; [|split].
    + intros p. rewrite I2, P2, elem_of_cons. split; [|naive_solver]. intros [[?| ->]|?]; naive_solver.
    + intros p [->|Hp]%elem_of_cons Hfp.
      * rewrite I4 by done. unfold add_at. by rewrite decide_True.
      * rewrite I3 by done. unfold add_at. rewrite decide_False by (intros ->; done). done.
    + intros p Hp. apply not_elem_of_cons in Hp as [Hne Hp]. rewrite I4 by done. unfold add_at. by rewrite decide_False.
Qed.

(** The typed paths of a row. *)
Lemma append_typed_holds paths cs0 cs h m : Forall3 (λ p a b, typed_holds a (h p) b) paths cs0 cs → ∀ cs',
  append_typed_paths paths cs m = Some (cs', None) → Forall3 (λ p a b, typed_holds a (h p ++ [at_path p m]) b) paths cs0 cs'.
Proof.
  induction 1 as [|p a b paths cs0 cs (vs & H1 & H2) Hr IH]; intros cs'; cbn [append_typed_paths]; [intros [= <-]; constructor|].
  destruct (plain_value (default ANil (m !! p))) as [v|] eqn:Ev; [|done]. cbn [mbind option_bind].
  destruct (AppendRow (projT1 b) (projT2 b) v) as [[st [e|]]|] eqn:Ea; cbn [mbind option_bind]; [done| |done].
  destruct (append_typed_paths paths cs m) as [[cs1 e]|]; cbn [mbind option_bind]; [|done]. intros [= <- ->].
  constructor; [|by apply IH]. exists (vs ++ [v]). split; [by apply mapM_snoc|].
  eapply append_each_app; [exact H2|]. cbn [append_each]. unfold append_value_to. rewrite Ea. done.
Qed.

(** The paths added to a map are nil there. *)
Lemma pad_spec paths : ∀ m p, at_path p (foldl pad m paths) = at_path p m
  ∧ (is_Some (foldl pad m paths !! p) ↔ is_Some (m !! p) ∨ p ∈ paths).
Proof.
  induction paths as [|q paths IH]; intros m p; cbn; [split; [done|set_solver]|].
  destruct (IH (pad m q) p) as [I1 I2]. rewrite I1, I2, elem_of_cons. unfold pad, at_path. destruct (m !! q) eqn:Eq.
  - split; [done|]. split; [naive_solver|]. intros [?|[->|?]]; [by left| |by right]. left. by rewrite Eq.
  - destruct (decide (p = q)) as [->|Hne].
    + rewrite lookup_insert_eq, Eq. split; [done|]. split; [naive_solver|]. intros _. left. by eexists.
    + rewrite lookup_insert_ne by done. split; [done|]. naive_solver.
Qed.

Lemma objs_without (objs : list chcol_JSON) p : (∀ m, m ∈ objs → ¬ is_Some (m !! p)) → at_path p <$> objs = replicate (length objs) ANil.
Proof.
  induction objs as [|m objs IH]; intros Hm; [done|]. cbn. rewrite IH by (intros; apply Hm; set_solver).
  unfold at_path at 1. destruct (m !! p) eqn:E; [|done]. destruct (Hm m); [set_solver|by rewrite E].
Qed.

(** One object. *)
Lemma append_object_holds c0 c objs m c' m' : json_holds c0 c objs → append_object duration_string column flat order c m = Some (c', m', None) →
  json_holds c0 c' (objs ++ [default ∅ m]).
Proof.
  intros [H1 H2 H3 H4 H5 H6 H7]. unfold append_object. rewrite H1.
  destruct (append_typed_paths _ (typedColumns c) (default ∅ m)) as [[cs [e|]]|] eqn:Et; cbn [mbind option_bind]; [done| |done].
  destruct (pad_nils (dynamicPaths (dyns (set_typed cs c))) m) as [m1|] eqn:Em; [|done]. cbn [mbind option_bind].
  assert (∀ p, at_path p (default ∅ m1) = at_path p (default ∅ m)
    ∧ (is_Some (default ∅ m1 !! p) ↔ is_Some (default ∅ m !! p) ∨ p ∈ dynamicPaths (dyns c))) as Hpad.
  { destruct m as [m|]; cbn in Em.
    - injection Em as <-. apply pad_spec.
    - destruct (dynamicPaths (dyns c)); [|done]. injection Em as <-. cbn. intros p. split; [done|]. set_solver. }
  cbn [declared dyns js_rows set_typed]. rewrite H1.
  destruct (append_paths _ _ _ _ _ _ _ (dyns c)) as [[d [e|]]|] eqn:Ed; cbn; [done| |done]. intros [= <- <-].
  destruct (order_walks (default ∅ m1)) as [O1 O2].
  destruct (append_paths_hold (declared c0) (js_rows c) (default ∅ m1) _ O1 _ (dyns c) d H6) as (h & D1 & D2 & D3 & D4); [|exact Ed|].
  { intros q _ Hf Hq. rewrite H4. apply objs_without. intros o Ho Hs. apply Hq, H7. split; [done|]. by exists o. }
  assert (∀ p, p ∈ dynamicPaths d → is_Some (default ∅ m1 !! p) ∧ free_path (declared c0) p) as Hd.
  { intros p [Hp|[Hp Hf]]%D2; [|by apply O2 in Hp]. split; [|by apply H7 in Hp as [? _]]. apply Hpad. by right. }
  split; cbn; try done.
  - rewrite H4, length_app. cbn. lia.
  - eapply Forall3_impl; [eapply append_typed_holds; [exact H5|exact Et]|]. intros p a b Hab. by rewrite fmap_app.
  - eapply dyns_hold_ext; [|exact D1]. intros p Hp. destruct (Hd p Hp) as [Hs Hf]. apply O2 in Hs. rewrite D3 by done.
    rewrite fmap_app. cbn. by rewrite (proj1 (Hpad p)).
  - intros p. rewrite D2, H7. rewrite O2, (proj2 (Hpad p)), H7. setoid_rewrite elem_of_app. setoid_rewrite list_elem_of_singleton. naive_solver.
Qed.

(** What a row stands for. *)
Definition object_arg (a : json_arg) : option chcol_JSON :=
  match classifyJSONValue a, a with
  | Some jsonModeAny, JNilSerializer _ => None
  | Some jsonModeAny, _ => Some ∅
  | Some jsonModeObject, _ => match row_object a with Some (Ok o) => Some (default ∅ (default (Some ∅) o)) | _ => None end
  | _, _ => None
  end.

Lemma row_object_any a o : classifyJSONValue a = Some jsonModeAny → object_arg a = Some o → o = ∅ ∧ row_object a = Some (Ok None).
Proof.
  unfold object_arg. intros Hc. rewrite Hc. destruct a as [v|ptr m|r self|r|x]; try done. intros [= <-]. split; [done|].
  destruct x as [|v|v|y ty|fs|el b l|t|[|w|w|y ty|fs|el b l|t|y]]; cbn in Hc |- *; try done; unfold text_mode in Hc; by destruct (_ || _).
Qed.

(** The rows so far: all null and not written yet, or objects. *)
Definition json_run (c0 : JSON) (args : list json_arg) (objs : list chcol_JSON) (c : JSON) : Prop :=
  (Forall (λ a, classifyJSONValue a = Some jsonModeAny) args ∧ objs = replicate (length args) ∅
   ∧ c = set_rows (length args) (set_pending (length args) c0))
  ∨ json_holds c0 c objs.

Lemma json_holds_new p cs : length cs = length (typedPaths p) →
  json_holds (new_json p cs) (set_version JSONObjectSerializationVersion (new_json p cs)) [].
Proof.
  intros Hl. split; try done; cbn.
  - revert Hl. generalize (typedPaths p). induction cs as [|c cs IH]; intros [|q l] Hl; [constructor|done|done|].
    constructor; [by exists []|]. apply IH. by injection Hl.
  - split; cbn; try done; constructor.
  - intros q. split; [set_solver|]. intros (_ & m & Hm & _). set_solver.
Qed.

Lemma append_nulls_hold c0 n : ∀ c objs c', json_holds c0 c objs →
  append_all (append_row duration_string column flat order) c (replicate n (JAny ANil)) = Some (c', None) → json_holds c0 c' (objs ++ replicate n ∅).
Proof.
  induction n as [|n IH]; intros c objs c' Hc; cbn [replicate append_all]; [intros [= <-]; by rewrite app_nil_r|].
  unfold append_row at 2, is_object. rewrite (jh_version _ _ _ Hc), Z.eqb_refl. unfold appendRowObject. cbn [row_object reflect_object mbind option_bind from_option].
  destruct (append_object _ _ _ _ c _) as [[[c1 m1] [e|]]|] eqn:E; cbn [mbind option_bind]; [done| |done]. intros Ha.
  pose proof (append_object_holds _ _ _ _ _ _ Hc E) as H1. cbn in H1. specialize (IH _ _ _ H1 Ha). by rewrite <- app_assoc in IH.
Qed.

Lemma append_all_snoc {A} (f : JSON → A → option (JSON * option json_err)) l a c c' :
  append_all f c (l ++ [a]) = Some (c', None) → ∃ c1, append_all f c l = Some (c1, None) ∧ f c1 a = Some (c', None).
Proof.
  revert c. induction l as [|x l IH]; intros c; cbn [append_all app].
  - destruct (f c a) as [[c1 [e|]]|] eqn:E; cbn [mbind option_bind]; [done| |done]. intros [= ->]. by exists c.
  - destruct (f c x) as [[c1 [e|]]|]; cbn [mbind option_bind]; [done| |done]. apply IH.
Qed.

Lemma json_run_step p cs args objs c a o c' : length cs = length (typedPaths p) → json_run (new_json p cs) args objs c →
  object_arg a = Some o → json_AppendRow duration_string column flat order c a = Some (c', None) →
  json_run (new_json p cs) (args ++ [a]) (objs ++ [o]) c'.
Proof.
  intros Hl Hc Ho. unfold json_AppendRow. set (c0 := new_json p cs) in *.
  assert (∀ objs c1, json_holds c0 c1 objs → append_row duration_string column flat order c1 a = Some (c', None) →
    (∃ r, row_object a = Some (Ok r) ∧ o = default ∅ (default (Some ∅) r)) → json_run c0 (args ++ [a]) (objs ++ [o]) c') as Hobj.
  { intros objs1 c1 H1 Ha (r & Er & ->). right. unfold append_row, is_object in Ha. rewrite (jh_version _ _ _ H1), Z.eqb_refl in Ha.
    unfold appendRowObject in Ha. rewrite Er in Ha. cbn [mbind option_bind] in Ha.
    destruct (append_object _ _ _ _ c1 _) as [[[c2 m2] e]|] eqn:E; cbn in Ha; [|done]. injection Ha as <- ->. by eapply append_object_holds. }
  destruct (classifyJSONValue a) as [[]|] eqn:Ec; [| |by unfold object_arg in Ho; rewrite Ec in Ho|done].
  - destruct (row_object_any _ _ Ec Ho) as [-> Er]. destruct Hc as [(Hn & -> & ->)|Hc].
    + cbn. intros [= <-]. left. rewrite length_app, Nat.add_1_r. split; [by apply Forall_app; split; [|constructor]|].
      split; [by rewrite replicate_S_end|done].
    + unfold is_unset. rewrite (jh_version _ _ _ Hc). cbn. intros Ha. apply (Hobj _ c); [done|done|]. by exists None.
  - assert (∃ r, row_object a = Some (Ok r) ∧ o = default ∅ (default (Some ∅) r)) as Hr.
    { unfold object_arg in Ho. rewrite Ec in Ho. destruct (row_object a) as [[r|]|]; [|done|done]. injection Ho as <-. by exists r. }
    destruct Hc as [(Hn & -> & ->)|Hc].
    + unfold reconcileMode. change (is_unset _) with true. cbn iota.
      unfold flushPendingNulls. cbn [pendingNullRows set_version set_rows set_pending js_rows].
      pose proof (json_holds_new p cs Hl) as H0. fold c0 in H0.
      destruct (length args =? 0)%nat eqn:En.
      * apply Nat.eqb_eq, nil_length_inv in En. subst args. cbn [mbind option_bind length]. intros Ha. exact (Hobj [] _ H0 Ha Hr).
      * destruct (append_all _ _ _) as [[c1 [e|]]|] eqn:E; cbn [mbind option_bind]; [done| |done].
        rewrite Nat.sub_diag in E. intros Ha. apply (Hobj _ c1); [|done|done].
        pose proof (append_nulls_hold _ _ _ _ _ H0 E) as H1. exact H1.
    + unfold reconcileMode, is_unset. rewrite (jh_version _ _ _ Hc). cbn. intros Ha. by apply (Hobj _ c).
Qed.

(** The rows of a new column. *)
Lemma json_runs p cs args : length cs = length (typedPaths p) → ∀ objs c, mapM object_arg args = Some objs →
  append_all (json_AppendRow duration_string column flat order) (new_json p cs) args = Some (c, None) → json_run (new_json p cs) args objs c.
Proof.
  intros Hl. induction args as [|a args IH] using rev_ind; intros objs c Ho Ha.
  { injection Ho as <-. injection Ha as <-. left. by split. }
  apply append_all_snoc in Ha as (c1 & Ha1 & Ha2). apply mapM_Some_1 in Ho as Hf. apply Forall2_app_inv_l in Hf as (o1 & o2 & F1 & F2 & ->).
  inversion F2 as [|? o ? ? Hao F3]. inversion F3. subst. eapply json_run_step; [done| |done|done]. apply IH; [by apply mapM_Some_2|done].
Qed.

(** C31: a JSON column is a table of paths.  Rows are given as objects, structs, maps or nil,
    with nulls anywhere before and between; whatever the order in which the maps are walked,
    afterwards every declared path has the column of the values at that path, every other
    path that occurs in a row, and no other path, has one Dynamic column with the values at
    that path in order, a row without the path counting as nil in both, so that all columns
    have as many rows as the JSON column; paths to be skipped have none. *)
Theorem json_rows_by_path (p : json_paths) (cs : list column_value) (args : list json_arg) (objs : list chcol_JSON) (c : JSON) :
  length cs = length (typedPaths p) → mapM object_arg args = Some objs →
  Exists (λ a, classifyJSONValue a = Some jsonModeObject) args →
  append_all (json_AppendRow duration_string column flat order) (new_json p cs) args = Some (c, None) →
  json_holds (new_json p cs) c objs.
Proof.
  intros Hl Ho Hex Ha. destruct (json_runs p cs args Hl objs c Ho Ha) as [(Hn & _)|H]; [|done].
  apply Exists_exists in Hex as (a & Hin & Ea). rewrite Forall_forall in Hn. apply Hn in Hin. by rewrite Ea in Hin.
Qed.
End rows.

(** ** There and back *)

Section wire.
Context {W : Wire} {L : WireLaws W}.
Variable duration_string : Z → gostring.
Variable column : gostring → option (result cerr Interface).

(** A typed column within its contract. *)
Definition sound_column (n : nat) (c : column_value) : Prop :=
  ∃ H : Laws (projT1 c), @wf _ H (projT2 c) ∧ @fits _ H (projT2 c) ∧ Rows (projT1 c) (projT2 c) = n.

(** A Dynamic column that the values [args] have made, one after another: columns whose
    type texts name them, values and sizes within their contracts, and no column changed by
    a value it refused.  [row] is what was stored for each: NULL, or the value with the type
    of its column. *)
Definition made (n : nat) (s : Dynamic) (h : list variant_arg * (nat → option (value * gostring))) : Prop :=
  ∃ (l : list Interface) (H : all_laws l) (ss : states l) (p : gostring),
    let places := dyn_rows (dyn_discriminators s) h.1 in
    length h.1 = n ∧ dynamic_Append column dyn_empty h.1 = Some (s, None) ∧ tidy_run column dyn_empty h.1
    ∧ l = projT1 <$> dyn_columns s ∧ Z.of_nat (length l) < 2 ^ 63
    ∧ Forall (λ C, column (chType C) = Some (Ok C) ∧ go_len (chType C)) l
    ∧ Forall (place_ok l H) places ∧ replay l (fresh_all l) places = Some ss ∧ fits_all l H ss
    ∧ encodeHeader s = Ok p
    ∧ ∀ i pl, places !! i = Some pl →
        h.2 i = match pl with None => None | Some (k, v) => (λ C, (stored_at l H k v, chType C)) <$> l !! k end.

(** Such a column is read back by the other side. *)
Definition carried (n : nat) (s : Dynamic) (rows : nat → option (value * gostring)) : Prop :=
  ∃ p s1 s2, encodeHeader s = Ok p
  ∧ (∀ rest, dynamic_ReadStatePrefix column dyn_empty (p ++ rest) = Some (Ok (s1, rest)))
  ∧ (∀ rest, dynamic_Decode s1 n (encodeData s ++ rest) = Some (Ok (s2, rest)))
  ∧ ∀ i, (i < n)%nat → dynamic_Row s2 i = Some (rows i).

Lemma made_carried n s h : made n s h → carried n s h.2.
Proof.
  intros (l & H & ss & p & Hn & Ha & Ht & Hl & Hlen & Hty & Hpl & Hr & Hf & Hp & Hrow). subst n.
  destruct (dynamic_carried column h.1 s l H ss p Ha Ht Hl Hlen Hty Hpl Hr Hf Hp) as (s1 & s2 & H1 & H2 & Hlp & H3).
  exists p, s1, s2. split; [done|]. split; [done|]. split; [done|]. intros i Hi.
  destruct (lookup_lt_is_Some_2 (dyn_rows (dyn_discriminators s) h.1) i) as [pl Hpi]; [by rewrite Hlp|].
  rewrite (H3 i pl Hpi). by rewrite (Hrow i pl Hpi).
Qed.

Lemma read_names_back l : Forall go_len l → ∀ rest, read_names (length l) (concat (PutString <$> l) ++ rest) = Some (l, rest).
Proof.
  induction 1 as [|x l Hx Hl IH]; intros rest; [done|]. cbn [length fmap list_fmap concat read_names].
  rewrite <- app_assoc, (reads_Str x) by done. cbn [mbind option_bind]. by rewrite IH.
Qed.

Lemma typed_back n cs : Forall (sound_column n) cs → ∀ w, write_columns cs = Ok w →
  ∃ cs1 cs2, (∀ rest, read_columns ((λ c, new_column (projT1 c)) <$> cs) (w ++ rest) = Ok (cs1, rest))
  ∧ (∀ rest, decode_typed n cs1 (dyn_encode_columns cs ++ rest) = Ok (cs2, rest))
  ∧ Forall2 (λ a b, ∀ i, (i < n)%nat → col_Row b i = col_Row a i) cs cs2.
Proof.
  induction 1 as [|c cs (H & H1 & H2 & H3) Hcs IH]; intros w; cbn [write_columns].
  { intros [= <-]. exists [], []. by repeat split. }
  destruct (write_prefix (projT1 c) (projT2 c)) as [p|] eqn:Ep; [|done]. cbn [mbind result_bind].
  destruct (write_columns cs) as [q|]; [|done]. intros [= <-]. destruct (IH q eq_refl) as (t1 & t2 & I1 & I2 & I3).
  destruct (@law_codec _ H _ _ H1 H2 Ep) as (s1 & A1 & _ & _ & s2 & A4 & _ & _ & A7). rewrite H3 in A4, A7.
  exists (existT (projT1 c) s1 :: t1), (existT (projT1 c) s2 :: t2). split; [|split].
  - intros rest. cbn. rewrite <- app_assoc, A1. cbn. by rewrite I1.
  - intros rest. unfold dyn_encode_columns. cbn [fmap list_fmap concat decode_typed projT1 projT2]. rewrite <- app_assoc, A4. cbn. fold (dyn_encode_columns cs). by rewrite I2.
  - by constructor.
Qed.

Lemma dynamics_back n ss rows : Forall2 (carried n) ss rows →
  ∃ w l1 l2, write_dynamics true ss = Some (ss, Ok w)
  ∧ (∀ rest, read_dynamics duration_string column true (length ss) (w ++ rest) = Some (Ok (l1, rest)))
  ∧ (∀ rest, decode_dynamics n l1 (concat (dynamic_Encode true <$> ss) ++ rest) = Some (Ok (l2, rest)))
  ∧ Forall2 (λ s r, ∀ i, (i < n)%nat → dynamic_Row s i = Some (r i)) l2 rows.
Proof.
  induction 1 as [|s r ss rows (p & s1 & s2 & H1 & H2 & H3 & H4) Hss (w & l1 & l2 & I1 & I2 & I3 & I4)].
  { exists [], [], []. by repeat split. }
  exists (p ++ w), (s1 :: l1), (s2 :: l2). split; [|split; [|split]].
  - cbn. rewrite H1. cbn. by rewrite I1.
  - intros rest. cbn [length read_dynamics]. change (new_dynamic duration_string true) with dyn_empty.
    rewrite <- app_assoc, H2. cbn [mbind option_bind]. by rewrite I2.
  - intros rest. cbn [fmap list_fmap concat decode_dynamics]. change (dynamic_Encode true s) with (encodeData s).
    rewrite <- app_assoc, H3. cbn [mbind option_bind]. by rewrite I3.
  - by constructor.
Qed.

Lemma typed_row_same n c c2 k i : (i < n)%nat →
  Forall2 (λ a b, ∀ i, (i < n)%nat → col_Row b i = col_Row a i) (typedColumns c) (typedColumns c2) →
  typed_row c2 k i = typed_row c k i.
Proof.
  intros Hi HF. unfold typed_row. rewrite Forall2_lookup in HF. destruct (HF k) as [a b Hr|].
  - cbn. by rewrite Hr.
  - done.
Qed.

(** C32: The objects of a JSON column survive the wire in the flat form, that of servers
    from 25.6 on. A column that has only the declaration in common with the writing one
    learns the dynamic paths from the header, makes their columns and reads the same rows:
    at each declared path the value that was there; at each dynamic path, for each row, NULL
    or the value that the Dynamic column of that path stores for the argument appended to it
    for that row, with its type; and nil at any other path. The Dynamic columns are made by
    appending within the conditions under which their rows survive on their own ([made]),
    the typed columns keep their contracts and hold a row per object, the dynamic paths are
    distinct. *)
Theorem json_survives (c c' : JSON) (hist : list (list variant_arg * (nat → option (value * gostring)))) (q : gostring) :
  js_version c = JSONObjectSerializationVersion →
  Forall (sound_column (js_rows c)) (typedColumns c) → Forall2 (made (js_rows c)) (dynamicColumns (dyns c)) hist →
  NoDup (dynamicPaths (dyns c)) → Forall go_len (dynamicPaths (dyns c)) →
  length (dynamicColumns (dyns c)) = length (dynamicPaths (dyns c)) →
  totalDynamicPaths (dyns c) = Z.of_nat (length (dynamicPaths (dyns c))) → totalDynamicPaths (dyns c) < 2 ^ 63 →
  json_WriteStatePrefix duration_string column true (λ _, []) c = Some (c', Ok q) →
  ∃ c1 c2,
    (∀ rest, json_ReadStatePrefix duration_string column true (new_json (declared c) ((λ k, new_column (projT1 k)) <$> typedColumns c)) (q ++ rest)
       = Some (Ok (c1, rest)))
    ∧ (∀ rest, json_Decode c1 (js_rows c) (json_Encode true c' ++ rest) = Some (Ok (c2, rest)))
    ∧ js_rows c2 = js_rows c
    ∧ ∀ path i, (i < js_rows c)%nat →
        valueAtPath c2 path i =
          match typedPathsIndex (declared c) !! path with
          | Some k => typed_row c k i
          | None => match list_find (λ p, p = path) (dynamicPaths (dyns c)) with
                    | Some (k, _) => h ← hist !! k; Some (dynamic_any (h.2 i))
                    | None => Some ANil
                    end
          end.
Proof.
  intros Hv Ht Hm Hnd Hlen Hl Htot Hmax.
  assert (Forall2 (carried (js_rows c)) (dynamicColumns (dyns c)) hist.*2) as Hd
    by (apply Forall2_fmap_r; eapply Forall2_impl; [exact Hm|]; intros; by apply made_carried).
  unfold json_WriteStatePrefix, latch_nulls, is_unset. rewrite Hv.
  change (JSONObjectSerializationVersion =? JSONUnsetSerializationVersion) with false. cbn [andb mbind option_bind].
  unfold is_object. rewrite Hv, Z.eqb_refl.
  destruct (dynamics_back _ _ _ Hd) as (w & l1 & l2 & D1 & D2 & D3 & D4).
  unfold encodeObjectHeader, object_header. destruct (write_columns (typedColumns c)) as [t|] eqn:Et; [|cbn; intros [=]]. rewrite D1. cbn. intros [= <- <-].
  destruct (typed_back _ _ Ht t Et) as (cs1 & cs2 & T1 & T2 & T3).
  set (paths := dynamicPaths (dyns c)) in *. set (p := declared c).
  set (c1 := MkJSON p 0 JSONObjectSerializationVersion 0 [] cs1 (MkDyns (totalDynamicPaths (dyns c)) paths (index_paths paths ∅) l1)).
  set (c2 := MkJSON p (js_rows c) JSONObjectSerializationVersion 0 [] cs2 (MkDyns (totalDynamicPaths (dyns c)) paths (index_paths paths ∅) l2)).
  exists c1, c2. split; [|split; [|split; [done|]]].
  - intros rest. unfold json_ReadStatePrefix. rewrite <- !app_assoc, (reads_UInt64 JSONObjectSerializationVersion) by (unfold uint64, JSONObjectSerializationVersion; lia). cbn iota.
    change (JSONObjectSerializationVersion =? JSONDeprecatedObjectSerializationVersion) with false. cbn iota. rewrite Z.eqb_refl.
    unfold decodeObjectHeader. rewrite (reads_UVarInt (totalDynamicPaths (dyns c))) by (unfold uint64; lia).
    rewrite (i64_small (totalDynamicPaths (dyns c))) by lia. replace (totalDynamicPaths (dyns c) <? 0) with false by lia.
    rewrite Htot, Nat2Z.id, read_names_back by done. cbn [typedColumns new_json set_version]. rewrite T1.
    rewrite <- Hl, D2. cbn. unfold c1. by rewrite Htot, Hl.
  - intros rest. unfold json_Decode, is_object. change (js_version (set_rows (js_rows c) c1)) with JSONObjectSerializationVersion.
    change (JSONObjectSerializationVersion =? JSONDeprecatedObjectSerializationVersion) with false. cbn iota. rewrite Z.eqb_refl.
    unfold decodeObjectData. change (typedColumns (set_rows (js_rows c) c1)) with cs1.
    unfold json_Encode, is_object. cbn [js_version set_dyns]. rewrite Hv, Z.eqb_refl. unfold encodeObjectData. cbn [typedColumns set_dyns dyns dynamicColumns].
    rewrite <- app_assoc, T2. change (dynamicColumns (dyns (set_rows (js_rows c) c1))) with l1. rewrite D3. done.
  - intros path i Hi. unfold valueAtPath. change (declared c2) with p. unfold p.
    destruct (typedPathsIndex (declared c) !! path) as [k|].
    { by apply (typed_row_same (js_rows c)). }
    change (dynamicPathsIndex (dyns c2)) with (index_paths paths ∅).
    destruct (index_names_spec paths 0 ∅ Hnd) as [X1 X2]. fold (index_paths paths ∅) in X1, X2.
    destruct (list_find (λ p, p = path) paths) as [[k p']|] eqn:Ef.
    + apply list_find_Some in Ef as (Hk & -> & _). rewrite (X1 k path Hk). cbn [Nat.add]. unfold dynamic_row. change (dynamicColumns (dyns c2)) with l2.
      destruct (lookup_lt_is_Some_2 (dynamicColumns (dyns c)) k) as [s Hs]; [rewrite Hl; by eapply lookup_lt_Some|].
      destruct (Forall2_lookup_l _ _ _ _ _ Hd Hs) as (r & Hr & _). destruct (Forall2_lookup_r _ _ _ _ _ D4 Hr) as (s2 & Hs2 & Hrow).
      rewrite list_lookup_fmap in Hr. destruct (hist !! k) as [h|]; [|done]. injection Hr as <-.
      rewrite Hs2. cbn. by rewrite Hrow.
    + apply list_find_None in Ef. rewrite X2; [done|]. intros Hin. rewrite Forall_forall in Ef. by apply (Ef path).
Qed.
End wire.

(** ** An example, and limits *)

Definition map_order (m : chcol_JSON) : list gostring := (map_to_list m).*1.

Lemma map_order_walks m : NoDup (map_order m) ∧ ∀ p, p ∈ map_order m ↔ is_Some (m !! p).
Proof.
  split; [apply NoDup_fst_map_to_list|]. intros p. unfold map_order. rewrite list_elem_of_fmap. split.
  - intros ([q v] & -> & Hv). apply elem_of_map_to_list in Hv. by eexists.
  - intros [v Hv]. exists (p, v). split; [done|]. by apply elem_of_map_to_list.
Qed.

Abbreviation demo_Append := (json_AppendRow (W := leb) demo_ds dyn_column true map_order).
Abbreviation demo_Appends := (append_all demo_Append).

(** A declared path, a row with it and another path, and rows without. *)
Definition id_paths : json_paths := add_typed (str "id") no_paths.
Definition id_column : column_value := new_column (Int64 (W := leb) demo_cf []).
Definition id_json : JSON := new_json id_paths [id_column].
Definition first_object : chcol_JSON := {[ str "id" := int_any 7; str "user.name" := APlain (VPrim (PString (str "a"))) ]}.
Definition json_rows : list json_arg :=
  [JAny ANil; JObject true (Some first_object); JAny (AMap GAny true [(str "user", AMap GAny true [(str "age", int_any 5)])])].

Lemma json_rows_by_path_witness :
  ∃ c, demo_Appends id_json json_rows = Some (c, None)
    ∧ json_holds (W := leb) demo_ds dyn_column true id_json c [∅; first_object; {[ str "user.age" := int_any 5 ]}].
Proof.
  destruct (demo_Appends id_json json_rows) as [[c [e|]]|] eqn:E.
  - exfalso. apply (f_equal (λ r, match r with Some (_, Some _) => true | _ => false end)) in E. vm_compute in E. done.
  - exists c. split; [done|]. apply (json_rows_by_path (W := leb) demo_ds dyn_column true map_order map_order_walks id_paths [id_column] json_rows).
    + reflexivity.
    + reflexivity.
    + right. left. reflexivity.
    + exact E.
  - exfalso. apply (f_equal (λ r, match r with None => true | _ => false end)) in E. vm_compute in E. done.
Defined.

Definition demo_row (i : nat) : option (value * gostring) :=
  match i with
  | 0 => Some (VPrim (PString (str "a")), str "String")
  | 1 => None
  | _ => Some (VPrim (PInt KInt64 7), str "Int64")
  end%nat.

Lemma demo_made : made (W := leb) dyn_column 3 dyn_state (demo_args, demo_row).
Proof.
  destruct (encodeHeader (W := leb) dyn_state) as [p|] eqn:Ep; [|done].
  exists dyn_types, dyn_laws, dyn_states, p. cbn [fst snd]. split; [reflexivity|]. split; [reflexivity|].
  split; [exact dyn_tidy|]. split; [reflexivity|]. split; [reflexivity|]. split; [exact dyn_types_known|].
  split; [exact dyn_places|]. split; [reflexivity|]. split; [exact dyn_fits|]. split; [exact Ep|].
  intros [|[|[|i]]] pl Hi; [injection Hi as <-; reflexivity..|].
  apply lookup_lt_Some in Hi. vm_compute in Hi. lia.
Qed.

Definition demo_json : JSON :=
  MkJSON id_paths 3 JSONObjectSerializationVersion 0 [] [existT (Int64 (W := leb) demo_cf []) [1; 2; 3]]
    (MkDyns 1 [str "user.name"] {[ str "user.name" := 0%nat ]} [dyn_state]).

Lemma json_survives_witness :
  ∃ c' q c1 c2, json_WriteStatePrefix (W := leb) demo_ds dyn_column true (λ _, []) demo_json = Some (c', Ok q)
    ∧ json_ReadStatePrefix (W := leb) demo_ds dyn_column true id_json q = Some (Ok (c1, []))
    ∧ json_Decode (W := leb) c1 3 (json_Encode (W := leb) true c') = Some (Ok (c2, []))
    ∧ valueAtPath c2 (str "id") 1 = Some (int_any 2)
    ∧ valueAtPath c2 (str "user.name") 0 = Some (ADynamic (APlain (VPrim (PString (str "a")))) (str "String"))
    ∧ valueAtPath c2 (str "user.name") 1 = Some (ADynamic ANil [])
    ∧ valueAtPath c2 (str "other") 1 = Some ANil.
Proof.
  destruct (json_WriteStatePrefix (W := leb) demo_ds dyn_column true (λ _, []) demo_json) as [[c' [q|]]|] eqn:E.
  2,3: exfalso; apply (f_equal (λ r, match r with Some (_, Ok _) => false | _ => true end)) in E; vm_compute in E; done.
  destruct (json_survives (W := leb) demo_ds dyn_column demo_json c' [(demo_args, demo_row)] q) as (c1 & c2 & H1 & H2 & _ & H3).
  - reflexivity.
  - constructor; [|constructor]. exists (int_laws (W := leb) demo_cf KInt64 [] (str "Int64")). split; [repeat constructor; vm_compute; done|]. split; [repeat constructor|reflexivity].
  - constructor; [exact demo_made|constructor].
  - apply NoDup_singleton.
  - constructor; [vm_compute; done|constructor].
  - reflexivity.
  - reflexivity.
  - reflexivity.
  - exact E.
  - exists c', q, c1, c2. split; [done|]. rewrite <- (app_nil_r q), <- (app_nil_r (json_Encode true c')).
    split; [apply H1|]. split; [apply H2|]. assert (∀ i, (i < 3)%nat → (i < js_rows demo_json)%nat) as Hn by done.
    rewrite !H3 by (apply Hn; lia). by repeat split.
Defined.

(** The version and the error after some rows. *)
Definition outcome (r : option (JSON * option json_err)) : option (Z * option json_err) := '(c, e) ← r; Some (js_version c, e).

Definition empty_json : JSON := new_json no_paths [].
Definition one_object : json_arg := JObject true (Some {[ str "a" := int_any 1 ]}).

(** The zero value of [chcol.JSON] has no map: after a row with a path it is a panic, before
    it is an empty object. *)
Lemma zero_object_panics :
  demo_Appends empty_json [one_object; JObject false None] = None
  ∧ outcome (demo_Appends empty_json [JObject false None; one_object]) = Some (3, None).
Proof. split; vm_compute; reflexivity. Qed.

(** The paths of the column are added to the map of the caller, who sees them afterwards. *)
Lemma caller_map_grows :
  ('(c, _) ← demo_Appends empty_json [one_object];
   '(_, m, _) ← append_object (W := leb) demo_ds dyn_column true map_order c (Some {[ str "b" := int_any 2 ]});
   m ← m; Some (m !! str "a", m !! str "b")) = Some (Some ANil, Some (int_any 2)).
Proof. vm_compute. reflexivity. Qed.

(** A struct without exported fields, a time, a decimal or a [chcol.Dynamic], is stored as
    the empty object. *)
Lemma hidden_fields_are_lost v x ty : object_arg (JAny (AKnown v)) = Some ∅ ∧ object_arg (JAny (ADynamic x ty)) = Some ∅.
Proof. by split. Qed.

(** A pointer to a nil interface is a null row before a text and an error after it. *)
Definition json_text : json_arg := JText (VPrim (PString (str "{}"))).
Lemma nil_any_depends_on_order :
  outcome (demo_Appends empty_json [JAny (APtr ANil); json_text]) = Some (1, None)
  ∧ outcome (demo_Appends empty_json [json_text; JAny (APtr ANil)]) = Some (1, Some (TextFailed ColumnConverterError)).
Proof. split; vm_compute; reflexivity. Qed.

(** A nil pointer to a serializer is a null row at first; in a column of objects its method
    is called. *)
Lemma nil_serializer_panics :
  outcome (demo_Appends empty_json [JNilSerializer None; one_object]) = Some (3, None)
  ∧ demo_Appends empty_json [one_object; JNilSerializer None] = None.
Proof. split; vm_compute; reflexivity. Qed.

(** A field with the tag "chType" at a declared path reaches a plain column as a
    [chcol.Dynamic], whose [Value] is itself. *)
Lemma tagged_field_recurses :
  demo_Append id_json (JAny (AStruct [(MkJsonHead (str "ID") (str "id") [] (str "Int64") true, int_any 7)])) = None.
Proof. vm_compute. reflexivity. Qed.

(** Pointers to objects given as a slice to a column of texts recurse in the same way, where
    one row at a time is refused. *)
Definition text_json : JSON := set_version JSONStringSerializationVersion empty_json.
Lemma pointers_in_texts_recurse :
  json_Append (W := leb) demo_ds dyn_column true map_order text_json (SObjects [one_object]) = None
  ∧ outcome (demo_Append text_json one_object) = Some (1, Some (ModeConflict 1 3)).
Proof. split; vm_compute; reflexivity. Qed.

(** A slice of bytes given to [Append] is refused, and makes the column one of texts. *)
Lemma refused_bytes_latch :
  ('(c, r) ← json_Append (W := leb) demo_ds dyn_column true map_order empty_json (SBytes [JAny (APlain (VPrim (PInt KUint8 123)))]);
   Some (r, js_version c, outcome (demo_Append c one_object)))
  = Some (Err (TextFailed ColumnConverterError), 1, Some (1, Some (ModeConflict 1 3))).
Proof. vm_compute. reflexivity. Qed.

(** Objects report no null marks, so that a Nullable column around has fewer marks than rows;
    texts report them. *)
Lemma objects_without_marks :
  ('(c, r) ← json_Append (W := leb) demo_ds dyn_column true map_order empty_json (SObjects [one_object; JAny (ANilPtr GAny)]);
   Some (js_rows c, r)) = Some (2%nat, Ok None)
  ∧ ('(c, r) ← json_Append (W := leb) demo_ds dyn_column true map_order empty_json (STexts [json_text; JAny (ANilPtr GString)]);
     Some (js_rows c, jsonStrings c, r)) = Some (2%nat, [str "{}"; str "null"], Ok (Some [0; 1])).
Proof. split; vm_compute; reflexivity. Qed.

(** Names in the text of the type: a space inside backticks cuts the name, and a name that
    begins with SKIP is a path to skip. *)
Definition parsed_paths (t : gostring) : option (result cerr (list gostring * list gostring)) :=
  r ← json_parse dyn_column t;
  Some (match r with Ok c => Ok (typedPaths (declared c), skipPaths (declared c)) | Err e => Err e end).

Lemma json_parse_names :
  parsed_paths (str "JSON(max_dynamic_paths=8, `a` Int64, b.c String, SKIP d)") = Some (Ok ([str "a"; str "b.c"], [str "d"]))
  ∧ parsed_paths (str "JSON(`a b` Int64)") = Some (Err (UnsupportedColumnTypeError (str "b` Int64")))
  ∧ parsed_paths (str "JSON(SKIPPED Int64)") = Some (Ok ([], [str "PED Int64"])).
Proof. repeat split; vm_compute; reflexivity. Qed.
