(* ===== verification/BlockColumns.v ===== *)
(** * Blocks of the driver's columns

    [Block.v] works on any implementation of the column interface; here the columns of
    [ColumnType.v] are that implementation.  [newColumn] is [Type.Column], with fuel for
    every bracket of the text.  A panic of a column, which would end the program, appears
    as an error; none of the theorems lets one happen. *)

From Stdlib Require Import ZifyBool.
From S2P Require Import Prelude GoStd Wire ProtoPackets Column ColumnLaws ColumnLeaf GoTime ColumnCell ColumnTime ColumnBig ColumnAddr ColumnType ColumnOther Block.
Local Open Scope Z_scope.

(** A column of some type in some state. *)
Record any_column := MkAny { iface : Interface; cstate : state iface }.

Section blocks.
Context {W : Wire} {L : WireLaws W}.
Variable conv_float : intkind → nat → Z → Z.
Variable to_float : nat → prim → Z.
Variable duration_string : Z → gostring.
Variable lawful_other : gostring → gostring → result cerr lawful_column.
Variable other : gostring → gostring → result cerr Interface.

Definition panicked : cerr := ColumnError (str "panic").

#[local] Instance interface_columns : ColumnOps := {|
  col := any_column; cell := value; col_err := cerr;
  colName c := Name (iface c);
  colType c := chType (iface c);
  colRows c := Rows (iface c) (cstate c);
  Block.AppendRow c v := match Column.AppendRow (iface c) (cstate c) v with
    | Some (s, e) => (MkAny (iface c) s, e)
    | None => (c, Some panicked) end;
  colReset c := MkAny (iface c) (Reset (iface c) (cstate c));
  newColumn n t := match Column conv_float to_float duration_string other (length t) n t with
    | Some (Ok C) => Ok (MkAny C (fresh C))
    | Some (Err e) => Err e
    | None => Err panicked end;
  Block.WriteStatePrefix c := match custom (iface c) with
    | Some cs => Some (Column.WriteStatePrefix cs (cstate c)) | None => None end;
  colEncode c := Encode (iface c) (cstate c);
  Block.ReadStatePrefix c := match custom (iface c) with
    | Some cs => Some (λ b, '(s, b) ← Column.ReadStatePrefix cs (cstate c) b; Ok (MkAny (iface c) s, b))
    | None => None end;
  colDecode c n b := '(s, b) ← Decode (iface c) (cstate c) n b; Ok (MkAny (iface c) s, b)
|}.

Abbreviation lawful_type := (lawful conv_float to_float duration_string lawful_other).
Hypothesis Hother : ∀ n t C, lawful_other n t = Ok C → other n t = Ok (col_of C).
Hypothesis Hother_names : ∀ n t C, lawful_other n t = Ok C → Name (col_of C) = n ∧ chType (col_of C) = t.

(** The column of a type is named and typed by its text. *)
Lemma lawful_names t : ty_ok t → ∀ name C, lawful_type name t = Ok C → Name (col_of C) = name ∧ chType (col_of C) = type_text t.
Proof.
  induction t as [k| | | | |n|t IH|d t IH|k v IHk IHv|l IHl|f t IH|t] using ty_induction; intros Hok name C; cbn [lawful].
  - intros [= <-]. destruct Hok as [H1 H2]. by destruct k.
  - by intros [= <-].
  - by intros [= <-].
  - by intros [= <-].
  - by intros [= <-].
  - case_decide; [|done]. intros [= <-]. split; [done|]. cbn [col_of chType FixedStringColumn type_text]. unfold FormatInt.
    destruct (Z.ltb_spec (Z.of_nat n) 0); [lia|done].
  - destruct (lawful_type name t) as [B|e] eqn:E; [|done]. intros [= <-]. destruct (IH Hok _ _ E) as [_ Ht].
    split; [done|]. cbn [type_text]. by rewrite <- Ht.
  - destruct (lawful_type name t) as [B|e] eqn:E; [|done]. by intros [= <-].
  - destruct (lawful_type name k) as [K|e] eqn:Ek; [|done]. cbn [mbind result_bind].
    destruct (lawful_type name v) as [V|e] eqn:Ev; [|done]. cbn [mbind result_bind].
    case_match; [|done]. by intros [= <-].
  - destruct (foldr _ _ (map (λ nt : gostring * ty, (nt.1, lawful_type nt.1 nt.2)) l)) as [cs|e]; [|done].
    cbn [mbind result_bind]. destruct cs as [|nc cs]; [done|]. by intros [= <-].
  - destruct (lawful_type name t) as [B|e] eqn:E; [|done]. by intros [= <-].
  - apply Hother_names.
Qed.

(** A text is longer than its type is deep. *)
Lemma ty_depth_text t : ty_ok t → (ty_depth t ≤ length (type_text t))%nat.
Proof.
  assert (∀ s, (length (in_brackets s) = S (S (length s)))%nat) as Hb.
  { intros s. unfold in_brackets. cbn. rewrite length_app. cbn. lia. }
  induction t as [k| | | | |n|t IH|d t IH|k v IHk IHv|l IHl|f t IH|t] using ty_induction; cbn [ty_ok ty_depth type_text].
  - intros [H1 H2]. destruct k; cbn; (done || lia).
  - cbn. lia.
  - cbn. lia.
  - cbn. lia.
  - cbn. lia.
  - cbn. lia.
  - intros H%IH. rewrite length_app, Hb. lia.
  - intros [H%IH _]. cbn [arrays]. rewrite length_app, Hb.
    assert (length (type_text t) ≤ length (arrays d (type_text t)))%nat; [|lia].
    clear -Hb. induction d as [|d IH]; [done|]. cbn [arrays]. rewrite length_app, Hb. lia.
  - intros (Hk%IHk & Hv%IHv & _). rewrite length_app, Hb, !length_app. lia.
  - intros [_ Hl]. apply foldr_and in Hl. rewrite length_app, Hb.
    assert (foldr Nat.max 0 (map (λ nt : gostring * ty, ty_depth nt.2) l)
            ≤ length (strings_Join (map (λ nt, element_text nt.1 (type_text nt.2)) l) (str ", ")))%nat; [|lia].
    induction IHl as [|nt l Hnt IHl IH]; [cbn; lia|]. apply Forall_cons in Hl as [[_ Ht] Hl]. specialize (IH Hl). cbn [map foldr].
    assert (length (type_text nt.2) ≤ length (element_text nt.1 (type_text nt.2)))%nat.
    { unfold element_text. case_bool_decide; [done|]. rewrite length_app. cbn. lia. }
    specialize (Hnt Ht). destruct l as [|nt' l]; [cbn in *; lia|].
    change (strings_Join (?x :: map ?f (?y :: l)) (str ", ")) with (x ++ str ", " ++ strings_Join (map f (y :: l)) (str ", ")).
    rewrite !length_app. lia.
  - intros (_ & _ & H%IH). rewrite length_app, Hb, !length_app. lia.
  - intros [Ho _]. by destruct t; [|cbn; lia].
Qed.

Lemma newColumn_lawful t name C : ty_ok t → lawful_type name t = Ok C →
  newColumn name (type_text t) = Ok (MkAny (col_of C) (fresh (col_of C))).
Proof.
  intros Hok HC. cbn [newColumn interface_columns].
  rewrite (Column_text conv_float to_float duration_string other t name _ Hok (ty_depth_text t Hok)).
  by rewrite (lawful_column_of _ _ _ _ _ Hother t name C HC).
Qed.

(** ** The codec of blocks *)

#[local] Existing Instance col_laws.

(** A column of a readable type in a consistent state that fits the wire. *)
Definition lawful_col (c : any_column) : Prop :=
  ∃ name t C s, ty_ok t ∧ lawful_type name t = Ok C ∧ c = MkAny (col_of C) s ∧ wf (col_of C) s ∧ fits (col_of C) s.

Definition row_of (c : any_column) (i : nat) : option value := Row (iface c) (cstate c) i.

(** The same name, type and rows. *)
Definition same_column (c c' : any_column) : Prop :=
  iface c' = iface c ∧ colRows c' = colRows c ∧ ∀ i, (i < colRows c)%nat → row_of c' i = row_of c i.

#[local] Instance interface_codec : CodecLaws interface_columns W.
Proof.
  refine (@Build_CodecLaws interface_columns W lawful_col same_column _).
  intros c p (name & t & C & s & Hok & HC & -> & Hw & Hf) Hr Hp. cbn in *.
  destruct (lawful_names t Hok name C HC) as [-> ->].
  assert (write_prefix (col_of C) s = Ok p) as Hwp by (unfold write_prefix; by destruct (custom (col_of C)); subst).
  destruct (law_codec _ _ Hw Hf Hwp) as (s1 & Hrd & _ & _ & s2 & Hd & _ & Hr2 & Hrow).
  exists (MkAny (col_of C) (fresh (col_of C))), (MkAny (col_of C) s2).
  split; [exact (newColumn_lawful t name C Hok HC)|]. split; [by split; [|split]|]. intros rest. cbn [iface cstate].
  unfold read_prefix in Hrd. destruct (custom (col_of C)) as [cs|].
  - exists (MkAny (col_of C) s1). rewrite Hrd. cbn. by rewrite Hd.
  - subst p. split; [done|]. specialize (Hrd []). injection Hrd as <-. by rewrite Hd.
Defined.

(** ** From the rows of an insert to the rows of a select *)

(** A block with the columns of a header: names and type texts. *)
Fixpoint add_columns (b : Block) (header : list (gostring * gostring)) : result block_err Block :=
  match header with
  | [] => Ok b
  | (n, t) :: header => b ← AddColumn b n t; add_columns b header
  end.

(** Rows appended one after the other, up to the first error. *)
Fixpoint append_all (b : Block) (rows : list (list value)) : Block * option block_err :=
  match rows with
  | [] => (b, None)
  | row :: rows => match Block.Append b row with
                   | (b, None) => append_all b rows
                   | (b, Some e) => (b, Some e) end
  end.

Definition fresh_col (C : lawful_column) : any_column := MkAny (col_of C) (fresh (col_of C)).

Lemma add_columns_lawful header Cs : Forall (λ nt, ty_ok nt.2) header →
  Forall2 (λ nt C, lawful_type nt.1 nt.2 = Ok C) header Cs → ∀ b,
  add_columns b (map (λ nt, (nt.1, type_text nt.2)) header)
  = Ok (MkBlock (names b ++ map fst header) (Columns b ++ map fresh_col Cs)).
Proof.
  intros Hok H. revert Hok. induction H as [|[n t] C header Cs HC H IH]; intros Hok b.
  { cbn. rewrite !app_nil_r. by destruct b. }
  apply Forall_cons in Hok as [Ht Hok]. cbn [map fst snd add_columns] in *. unfold AddColumn.
  rewrite (newColumn_lawful t n C Ht HC). cbn [mbind result_bind]. rewrite IH by done. cbn [names Columns].
  by rewrite <- !app_assoc.
Qed.

Lemma append_loop_columns cols : ∀ v cols', length cols = length v → append_loop cols v = (cols', None) →
  length cols' = length cols ∧ ∀ j c x, cols !! j = Some c → v !! j = Some x →
  ∃ s, Column.AppendRow (iface c) (cstate c) x = Some (s, None) ∧ cols' !! j = Some (MkAny (iface c) s).
Proof.
  induction cols as [|c cols IH]; intros [|x v] cols' Hl H; try done.
  { injection H as <-. done. }
  cbn [append_loop Block.AppendRow interface_columns] in H.
  destruct (Column.AppendRow (iface c) (cstate c) x) as [[s [e|]]|] eqn:Ea; [done| |done].
  destruct (append_loop cols v) as [cs r] eqn:El. injection H as <- ->.
  destruct (IH v cs) as [Hlen Hj]; [by injection Hl|done|]. split; [exact (f_equal S Hlen)|].
  intros [|j] c1 x1 Hc Hx; [|by apply (Hj j)]. injection Hc as <-. injection Hx as <-. by exists s.
Qed.

(** The values of one column. *)
Definition column_values (j : nat) (rows : list (list value)) : list value := omap (λ row, row !! j) rows.

(** Each column of the block has seen the values of its place in the rows. *)
Lemma append_all_columns rows : ∀ b b', append_all b rows = (b', None) →
  names b' = names b ∧ length (Columns b') = length (Columns b) ∧ ∀ j c, Columns b !! j = Some c →
  ∃ s, let vs := column_values j rows in
    Columns b' !! j = Some (MkAny (iface c) s) ∧ append_each (Column.AppendRow (iface c)) (cstate c) vs = Some (s, None)
    ∧ length vs = length rows ∧ ∀ i row, rows !! i = Some row → row !! j = vs !! i.
Proof.
  induction rows as [|row rows IH]; intros b b' H; cbn [append_all] in H.
  { injection H as <-. split; [done|]. split; [done|]. intros j [C s] Hc. exists s.
    cbv zeta. split; [done|]. split; [done|]. split; [done|]. intros i row. by rewrite lookup_nil. }
  destruct (Block.Append b row) as [b1 [e|]] eqn:Ea; [done|]. destruct (IH b1 b' H) as (Hn & Hl & Hc). unfold Block.Append in Ea.
  destruct (Nat.eqb (length _) (length _)) eqn:El in Ea; cbn [negb] in Ea; [|done]. apply Nat.eqb_eq in El. cbn [col cell interface_columns] in El.
  destruct (append_loop (Columns b) row) as [cols r] eqn:E. injection Ea as <- ->. cbn [names Columns] in *.
  destruct (append_loop_columns _ _ _ El E) as [Hl1 Hj1].
  split; [done|]. split; [by rewrite Hl|]. intros j c Hjc.
  destruct (lookup_lt_is_Some_2 row j) as [x Hx]; [rewrite <- El; exact (lookup_lt_Some _ _ _ Hjc)|].
  destruct (Hj1 j c x Hjc Hx) as (s1 & Ha & Hc1). destruct (Hc j _ Hc1) as (s & Hb & Hvs & Hlv & Hi).
  exists s. cbv zeta. unfold column_values. cbn [omap list_omap]. rewrite Hx. fold (column_values j rows).
  split; [done|]. cbn [append_each]. rewrite Ha. cbn [mbind option_bind]. split; [done|].
  split; [exact (f_equal S Hlv)|]. intros [|i] row' Hr; [by injection Hr as <-|by apply Hi].
Qed.

(** ** Refused values *)

(** An append that fails leaves a list column as it was. *)
Lemma list_column_strict {A} val scan (ap : list A → value → option (list A * option cerr)) aps enc dec name t s :
  pushes ap → keeps ap → strict (MkAny (ListColumn val scan ap aps enc dec name t) s).
Proof.
  intros Hp Hk v c' e. cbn. destruct (ap s v) as [[s' [e'|]]|] eqn:E; intros [= <- <-]; cbn.
  - apply Hk in E as ->. split; [lia|done].
  - apply Hp in E as (x & -> & _). rewrite length_app. cbn. split; [lia|done].
  - split; [lia|done].
Qed.

(** Numbers, booleans and strings: a refused value leaves the column as it was, so
    [Append_all_or_unencodable] holds for blocks of them. *)
Lemma plain_columns_strict name t s1 s2 s3 s4 k w :
  strict (MkAny (IntColumn conv_float k name t) s1) ∧ strict (MkAny (FloatColumn to_float w name t) s2)
  ∧ strict (MkAny (BoolColumn name) s3) ∧ strict (MkAny (StringColumn duration_string name) s4).
Proof.
  split; [apply list_column_strict; [apply int_pushes|apply int_keeps]|].
  split; [apply list_column_strict; [apply float_pushes|apply float_keeps]|].
  split; [apply list_column_strict; [apply bool_pushes|apply bool_keeps]|].
  apply list_column_strict; [apply string_pushes|apply string_keeps].
Qed.

(** The columns after an insert are within the sizes of the wire, and their state prefixes
    can be written. *)
Definition sendable (Cs : list lawful_column) (rows : list (list value)) : Prop :=
  ∀ j C s, Cs !! j = Some C → append_each (Column.AppendRow (col_of C)) (fresh (col_of C)) (column_values j rows) = Some (s, None) →
    fits (col_of C) s ∧ is_ok (write_prefix (col_of C) s) = true.

(** C2: From insert to select. A block gets its columns from a header of names and type
    texts, rows are appended to it value by value, the block is written, and a reader that
    knows nothing but the bytes rebuilds it: as many columns, in order, each with the name
    and the type text of the header and with all the rows, and row [i] of column [j] reads
    as what the column stores for value [j] of row [i]; the bytes behind the block are left
    alone. It holds at every revision, for types that [ty_ok] describes and a column
    contract exists for, one to a billion rows, values of the kinds whose storing the
    contract of the column describes ([accepts]), all of which were appended without error,
    and columns that can be sent ([sendable]: sizes within the wire format, state prefixes
    that can be written). *)
Theorem insert_select header Cs b0 rows b revision :
  Forall (λ nt, ty_ok nt.2 ∧ go_len nt.1 ∧ go_len (type_text nt.2)) header →
  Forall2 (λ nt C, lawful_type nt.1 nt.2 = Ok C) header Cs →
  add_columns NewBlock (map (λ nt, (nt.1, type_text nt.2)) header) = Ok b0 →
  Forall (λ row, Forall2 (λ C v, accepts (col_of C) v) Cs row) rows →
  append_all b0 rows = (b, None) → sendable Cs rows →
  0 < Z.of_nat (length rows) ≤ 1000000000 → Z.of_nat (length header) < 2 ^ 63 →
  ∃ bytes b', Block_Encode b revision = Ok bytes ∧ names b' = map fst header
    ∧ (∀ rest, Block_Decode revision (bytes ++ rest) = Some (Ok (b', rest)))
    ∧ length (Columns b') = length header
    ∧ ∀ j nt C, header !! j = Some nt → Cs !! j = Some C →
        ∃ c, Columns b' !! j = Some c ∧ Name (iface c) = nt.1 ∧ chType (iface c) = type_text nt.2
          ∧ Rows (iface c) (cstate c) = length rows
          ∧ ∀ i row v, rows !! i = Some row → row !! j = Some v → row_of c i = Some (stored (col_of C) v).
Proof.
  intros Hh HCs Hb0 Hacc Happ Hsend Hr Hlen.
  rewrite (add_columns_lawful header Cs) in Hb0; [|eapply Forall_impl; [exact Hh|]; by intros ? (? & _)|done].
  injection Hb0 as <-. cbn [NewBlock names Columns app] in *.
  destruct (append_all_columns rows _ _ Happ) as (Hn & Hl & Hcols). cbn [names Columns] in *.
  assert (∀ j C, Cs !! j = Some C → ∃ s, Columns b !! j = Some (MkAny (col_of C) s)
    ∧ column_ok (length rows) (MkAny (col_of C) s)
    ∧ (∀ nt, header !! j = Some nt → Name (col_of C) = nt.1 ∧ chType (col_of C) = type_text nt.2)
    ∧ ∀ i row v, rows !! i = Some row → row !! j = Some v → Row (col_of C) s i = Some (stored (col_of C) v)) as Hall.
  { intros j C HC. destruct (Hcols j (fresh_col C)) as (s & Hbj & Hvs & Hlv & Hi).
    { etrans; [apply (list_lookup_fmap fresh_col)|]. by rewrite HC. }
    cbn [fresh_col iface cstate] in *. destruct (Hsend j C s HC Hvs) as [Hf Hp].
    destruct (Forall2_lookup_r _ _ _ _ _ HCs HC) as (nt & Hnt & HL).
    destruct (Forall_lookup_1 _ _ _ _ Hh Hnt) as (Hok & Hg1 & Hg2).
    destruct (lawful_names _ Hok _ _ HL) as [EN ET].
    destruct (law_fresh (I := col_of C)) as [Hw0 Hr0].
    assert (Forall (accepts (col_of C)) (column_values j rows)) as Hv.
    { apply Forall_forall. intros v (row & Hrow & Hv)%list_elem_of_omap.
      apply list_elem_of_lookup in Hrow as [i Hrow]. pose proof (Forall_lookup_1 _ _ _ _ Hacc Hrow) as H2.
      destruct (Forall2_lookup_l _ _ _ _ _ H2 HC) as (v' & Hv' & Ha). rewrite Hv in Hv'. by injection Hv' as ->. }
    destruct (appended_rows (col_of C) _ Hv _ _ Hw0 Hvs Hf) as (Hw & Hrr & _ & Hnew). rewrite Hr0 in Hrr, Hnew.
    exists s. split; [done|]. split; [|split].
    - split; [by exists nt.1, nt.2, C, s|]. cbn. rewrite Hrr, EN, ET, Hlv. split; [done|]. split; [done|]. split; [done|].
      unfold write_prefix in Hp. destruct (custom (col_of C)) as [cs|]; [|by left]. right.
      destruct (Column.WriteStatePrefix cs s) as [p|]; [by exists p|done].
    - intros nt' Hnt'. rewrite Hnt in Hnt'. by injection Hnt' as <-.
    - intros i row v Hrow Hv'. apply (Hnew i v). by rewrite <- (Hi i row Hrow). }
  pose proof (Forall2_length _ _ _ HCs) as Hlc. rewrite length_map in Hl. cbn [col interface_columns] in Hl.
  assert (∀ j c, Columns b !! j = Some c → ∃ C nt, Cs !! j = Some C ∧ header !! j = Some nt) as Hex.
  { intros j c Hj. assert (j < length Cs)%nat as Hlt by (rewrite <- Hl; exact (lookup_lt_Some _ _ _ Hj)).
    destruct (lookup_lt_is_Some_2 Cs j Hlt) as [C HC]. destruct (Forall2_lookup_r _ _ _ _ _ HCs HC) as (nt & Hnt & _). by exists C, nt. }
  assert (∀ j (c c' : any_column), Columns b !! j = Some c → Columns b !! j = Some c' → c = c') as Hfun.
  { intros j c c' H1 H2. apply (inj Some). by rewrite <- H1, <- H2. }
  destruct (Block_reads b revision (length rows)) as (bytes & cols' & He & Hs & Hd).
  - rewrite Hn. apply list_eq. intros j. etrans; [apply (list_lookup_fmap fst)|]. symmetry.
    etrans; [apply (list_lookup_fmap (λ c : any_column, Name (iface c)))|].
    destruct (header !! j) as [nt|] eqn:Hnt.
    + destruct (Forall2_lookup_l _ _ _ _ _ HCs Hnt) as (C & HC & _). destruct (Hall j C HC) as (s & Hbj & _ & HN & _).
      etrans; [apply (f_equal (fmap (λ c : any_column, Name (iface c))) Hbj)|]. cbn. by rewrite (proj1 (HN nt Hnt)).
    + apply lookup_ge_None_1 in Hnt. assert (Columns b !! j = None) as E; [|exact (f_equal (fmap (λ c : any_column, Name (iface c))) E)].
      apply lookup_ge_None_2. cbn [col interface_columns]. lia.
  - apply Forall_lookup. intros j c Ej. destruct (Hex j c Ej) as (C & nt & HC & _). destruct (Hall j C HC) as (s & Hbj & Hok & _).
    by rewrite (Hfun _ _ _ Ej Hbj).
  - left. lia.
  - lia.
  - cbn [col interface_columns]. rewrite Hl, <- Hlc. done.
  - exists bytes, (MkBlock (names b) cols'). split; [done|]. split; [done|]. split; [done|].
    split; [cbn [Columns]; rewrite <- (Forall2_length _ _ _ Hs); cbn [col interface_columns]; lia|].
    intros j nt C Hnt HC. destruct (Hall j C HC) as (s & Hbj & (_ & Hcr & _) & HN & Hrow). destruct (HN nt Hnt) as [EN ET].
    destruct (Forall2_lookup_l _ _ _ _ _ Hs Hbj) as (c & Hcj & HI & Hr2 & Hsame). cbn in HI, Hr2, Hcr. exists c.
    split; [done|]. split; [by rewrite HI|]. split; [by rewrite HI|]. split; [congruence|].
    intros i row v Hi Hj. rewrite Hsame; [by apply (Hrow i row)|]. cbn. rewrite Hcr. by eapply lookup_lt_Some.
Qed.
End blocks.

(** ** A block of four columns *)

Section demo.
#[local] Existing Instance leb.
#[local] Existing Instance plain_decimals.
Let cf : intkind → nat → Z → Z := λ _ _ _, 0.
Let tf : nat → prim → Z := λ _ _, 0.
Let ds : Z → gostring := λ _, [].
Let tm : gotime → methods := λ _, MkMethods None None None None.
Let bm : Z → methods := λ _, MkMethods None None None None.
Let tokyo : location := FixedZone (str "Asia/Tokyo") 32400.
Let oth : gostring → gostring → result cerr Interface :=
  other_type UTC (Some tokyo) (λ _, None) ds tm bm (λ _ t, Err (UnsupportedColumnTypeError t)).
Let cells : gostring → gostring → result cerr lawful_column := cell_lawful UTC (Some tokyo) (λ _, None) ds tm bm.

Definition demo_date : ty := TNullable (TOther (str "Date")).
Definition demo_money : ty := TOther (str "Decimal(9, 2)").
Definition demo_header : list (gostring * ty) :=
  [(str "c", demo_type); (str "n", TInt KInt64); (str "d", demo_date); (str "m", demo_money)].

Definition demo_lawful : { Cs | Forall2 (λ nt C, lawful cf tf ds cells nt.1 nt.2 = Ok C) demo_header Cs }.
Proof.
  eexists [_; _; _; _]. constructor; [|constructor; [|constructor; [|constructor; [|constructor]]]].
  - unfold demo_type. cbn [fst snd lawful mbind result_bind].
    match goal with |- context [if ?b then _ else _] => change b with true end. reflexivity.
  - reflexivity.
  - reflexivity.
  - reflexivity.
Defined.

(** 2024-03-10, as a time in Tokyo. *)
Let morning : gotime := MkTime 1710023400 0 (str "Asia/Tokyo") 32400.
Let date_col : Interface := NullableColumn (DateColumn UTC ds tm (Some tokyo) (str "d")) true (str "d").
Let money_col : Interface := Decimal 9 2 (str "m") (str "Decimal(9, 2)").

Definition demo_table : list (list value) :=
  [[nth 0 demo_rows VNil; VPrim (PInt KInt64 5); time_value tm morning; decimal_value 1995 (-1)];
   [nth 1 demo_rows VNil; VPrim (PInt KInt64 (-1)); VNil; decimal_value (-7) 0]].
Definition demo_after : Block (CO := interface_columns cf tf ds oth) :=
  @MkBlock (interface_columns cf tf ds oth) [str "c"; str "n"; str "d"; str "m"]
    [MkAny demo_map demo_state; MkAny (Int64 cf (str "n")) [5; -1];
     MkAny date_col (@MkNullable (DateColumn UTC ds tm (Some tokyo) (str "d")) true [0; 1] [19792; 1734]);
     MkAny money_col [19950; 2 ^ 32 - 700]].

Lemma insert_select_witness :
  let CO := interface_columns cf tf ds oth in
  ∃ bytes b', Block_Encode demo_after 54460 = Ok bytes ∧ names b' = [str "c"; str "n"; str "d"; str "m"]
    ∧ (∀ rest, Block_Decode 54460 (bytes ++ rest) = Some (Ok (b', rest)))
    ∧ (∃ c, Columns b' !! 1%nat = Some c ∧ row_of c 1 = Some (VPrim (PInt KInt64 (-1))))
    ∧ (∃ c, Columns b' !! 2%nat = Some c ∧ row_of c 0 = Some (time_value tm (time_Unix tokyo 1709996400 0)))
    ∧ (∃ c, Columns b' !! 3%nat = Some c ∧ row_of c 1 = Some (decimal_value (-700) (-2)))
    ∧ ∃ c, Columns b' !! 0%nat = Some c ∧ chType (iface c) = type_text demo_type ∧ row_of c 0
        = Some (VIter [(VPrim (PString (str "x")), VSlice GAny [VPrim (PInt KUint8 7); VNil]);
                       (VPrim (PString (str "y")), VSlice GAny [])]).
Proof.
  assert (ty_ok demo_type) as Hok by (cbn; set_solver).
  assert (∀ n t C, cells n t = Ok C → oth n t = Ok (col_of C)) as H1.
  { intros n t C H. by destruct (cell_lawful_type UTC (Some tokyo) (λ _, None) ds tm bm (λ _ t, Err (UnsupportedColumnTypeError t)) n t C H). }
  assert (∀ n t C, cells n t = Ok C → Name (col_of C) = n ∧ chType (col_of C) = t) as H2.
  { intros n t C H. by destruct (cell_lawful_type UTC (Some tokyo) (λ _, None) ds tm bm (λ _ t, Err (UnsupportedColumnTypeError t)) n t C H). }
  destruct (insert_select cf tf ds cells oth H1 H2 demo_header (proj1_sig demo_lawful)
    (@MkBlock (interface_columns cf tf ds oth) [str "c"; str "n"; str "d"; str "m"]
       [MkAny demo_map (fresh demo_map); MkAny (Int64 cf (str "n")) []; MkAny date_col (fresh date_col); MkAny money_col []])
    demo_table demo_after 54460)
    as (bytes & b' & He & Hn & Hd & _ & Hr).
  - constructor; [|constructor; [|constructor; [|constructor; [|constructor]]]]; (split; [done || exact Hok|]); done.
  - exact (proj2_sig demo_lawful).
  - reflexivity.
  - constructor; [|constructor; [|constructor]];
      (constructor; [repeat constructor|]; constructor; [reflexivity|]; constructor; [exact (cell_accepts 2 _ _ _ _ _ _ _ _)|];
       constructor; [exact (cell_accepts 4 _ _ _ _ _ _ _ _)|constructor]).
  - reflexivity.
  - intros [|[|[|[|j]]]] C s HC Hs; [injection HC as <-..|by destruct j];
      (injection Hs as <-; split; [repeat constructor|reflexivity]).
  - cbn. lia.
  - cbn. lia.
  - exists bytes, b'. split; [exact He|]. split; [exact Hn|]. split; [exact Hd|].
    destruct (Hr 0%nat _ _ eq_refl eq_refl) as (c0 & E0 & _ & T0 & _ & R0). destruct (Hr 1%nat _ _ eq_refl eq_refl) as (c1 & E1 & _ & _ & _ & R1).
    destruct (Hr 2%nat _ _ eq_refl eq_refl) as (c2 & E2 & _ & _ & _ & R2). destruct (Hr 3%nat _ _ eq_refl eq_refl) as (c3 & E3 & _ & _ & _ & R3).
    split; [exists c1; split; [exact E1|exact (R1 1%nat _ _ eq_refl eq_refl)]|].
    split; [exists c2; split; [exact E2|exact (R2 0%nat _ _ eq_refl eq_refl)]|].
    split; [exists c3; split; [exact E3|exact (R3 1%nat _ _ eq_refl eq_refl)]|].
    exists c0. split; [exact E0|]. split; [exact T0|]. exact (R0 0%nat _ _ eq_refl eq_refl).
Defined.

(** A refused value in a nullable column: the block counts a row that has a null mark and
    no value, is encoded without error, and cannot be read. *)
Lemma refused_value_is_sent :
  let CO := interface_columns cf tf ds oth in
  ∃ b e bytes, Block.Append (MkBlock [str "c"] [MkAny demo_null (fresh demo_null)]) [VPrim (PString (str "x"))] = (b, Some e)
    ∧ block_Rows b = 1%nat ∧ Block_Encode b 54460 = Ok bytes
    ∧ (∃ e', Block_Decode 54460 bytes = Some (Err e')).
Proof.
  eexists _, _, _. split; [reflexivity|]. split; [reflexivity|]. split; [reflexivity|]. eexists. reflexivity.
Qed.
End demo.
