(* ===== verification/DictColumns.v ===== *)
(** * Dictionaries of the driver's columns

    [LowCardinality.v] works on any index column that keeps [IndexLaws].  Here the columns
    of the driver are shown to keep them: a column with the contract of [ColumnLaws.v] that
    has no state prefix and takes nil, as the numbers, texts and fixed texts do. *)

From S2P Require Import Prelude GoStd Wire Column ColumnLaws ColumnLeaf ColumnType Block BlockColumns LowCardinality.

Section driver_index.
Context {W : Wire} {L : WireLaws W}.
Variable conv_float : intkind → nat → Z → Z.
Variable to_float : nat → prim → Z.
Variable duration_string : Z → gostring.
Variable other : gostring → gostring → result cerr Interface.
Variable C : Interface.
Context {LC : Laws C}.
Hypothesis no_prefix : custom C = None.
Hypothesis nil_taken : ∀ s, ∃ s', Column.AppendRow C s VNil = Some (s', None).
Hypothesis nil_accepted : accepts C VNil.

#[local] Instance columns : ColumnOps := interface_columns conv_float to_float duration_string other.

(** The rows of a column, in order. *)
Definition rows_in (c : any_column) : list value := omap (row_of c) (seq 0 (Rows (iface c) (cstate c))).

Lemma rows_in_all s : wf C s → ∀ i, (i ≤ Rows C s)%nat → length (omap (Row C s) (seq 0 i)) = i.
Proof.
  intros Hw i. induction i as [|i IH]; intros Hi; [done|]. rewrite seq_S, omap_app, length_app, IH by lia.
  cbn [omap list_omap Nat.add]. destruct (law_row s i Hw) as [x ->]; [lia|]. cbn. lia.
Qed.

Lemma rows_in_lookup s : wf C s → ∀ n i, (i < n ≤ Rows C s)%nat → omap (Row C s) (seq 0 n) !! i = Row C s i.
Proof.
  intros Hw n. induction n as [|n IH]; intros i Hi; [lia|]. rewrite seq_S, omap_app.
  pose proof (rows_in_all s Hw n ltac:(lia)) as Hl. destruct (decide (i = n)) as [-> |Hne].
  - rewrite lookup_app_r by lia. rewrite Hl, Nat.sub_diag. cbn. by destruct (law_row s n Hw) as [x ->]; [lia|].
  - rewrite lookup_app_l by lia. apply IH. lia.
Qed.

Lemma rows_in_ext s s' n : (∀ i, (i < n)%nat → Row C s' i = Row C s i) → omap (Row C s') (seq 0 n) = omap (Row C s) (seq 0 n).
Proof.
  induction n as [|n IH]; intros Hr; [done|]. rewrite !seq_S, !omap_app. cbn. rewrite IH by (intros; apply Hr; lia).
  by rewrite Hr by lia.
Qed.

#[export] Instance driver_index : IndexLaws columns W VNil value.
Proof.
  refine (@Build_IndexLaws columns W VNil value rows_in (stored C) (accepts C) (λ c, ∀ s, c = MkAny C s → fits C s)
    (λ ix0 c, ix0 = MkAny C (fresh C) ∧ ∃ s, c = MkAny C s ∧ wf C s) _ _ _ _ _ _).
  - intros ix0 c [_ (s & -> & Hw)]. symmetry. by apply rows_in_all.
  - intros ix0 c [_ (s & -> & Hw)]. split; [done|]. destruct (nil_taken s) as [s' Hs]. cbn. rewrite Hs. by eexists.
  - intros c Hf s ->. destruct (nil_taken s) as [s' Hs]. cbn in Hf. rewrite Hs in Hf.
    by apply (law_grows _ _ _ Hs), Hf.
  - intros c x c' Ha Hf s ->. cbn in Ha. destruct (Column.AppendRow C s x) as [[s' [e|]]|] eqn:Es; try done.
    injection Ha as <-. by apply (law_grows _ _ _ Es), Hf.
  - intros ix0 c x c' [-> (s & -> & Hw)] Hx Ha Hf. cbn in Ha.
    destruct (Column.AppendRow C s x) as [[s' [e|]]|] eqn:Es; try done. injection Ha as <-.
    destruct (law_append _ _ _ Hw Hx Es (Hf _ eq_refl)) as (Hw' & Hn & Hold & Hnew).
    split; [split; [done|by exists s']|]. unfold rows_in. cbn [iface cstate]. change (row_of (MkAny C s')) with (Row C s').
    change (row_of (MkAny C s)) with (Row C s). rewrite Hn, seq_S, omap_app, (rows_in_ext s) by done.
    f_equal. cbn. by rewrite Hnew.
  - intros ix0 c [-> (s & -> & Hw)] Hf. assert (write_prefix C s = Ok []) as Hp by (unfold write_prefix; by rewrite no_prefix).
    destruct (law_codec s [] Hw (Hf s eq_refl) Hp) as (s1 & Hr & _ & _ & s2 & Hd & Hw2 & Hn2 & Hrow).
    unfold read_prefix in Hr. rewrite no_prefix in Hr. specialize (Hr []). injection Hr as <-.
    exists (MkAny C s2). split.
    + unfold rows_in. cbn [iface cstate]. rewrite Hn2. by apply rows_in_ext.
    + intros rest. cbn. by rewrite Hd.
Defined.
(** What [dictionary_carried] says for a column of the driver: every row of a
    LowCardinality column over [C] reads as what [C] stores for its value. *)
Lemma driver_dictionary {K} `{Countable K} (time_key : gotime → K) (time_cell : gotime → value) (contents : K → value)
    (nl : bool) (vs : list (lc_value (CO := columns) K)) c rest :
  vs ≠ [] → consistent time_key time_cell contents vs →
  (∀ v k x, v ∈ vs → normal time_key time_cell v = Some (k, x) → accepts C x) →
  lc_Append (CO := columns) VNil time_key time_cell (lc_new (MkAny C (fresh C) : @col columns) nl) vs = (c, None) →
  (∀ s, index c = MkAny C s → fits C s) →
  (Z.of_nat (colRows (index c)) < 2 ^ 63)%Z → (Z.of_nat (length vs) < 2 ^ 63)%Z →
  ∃ d, lc_Decode (lc_new (K := K) (MkAny C (fresh C) : @col columns) nl) (length vs) ((lc_Encode c).1 ++ rest) = Ok (d, rest)
    ∧ lc_rows d = length vs
    ∧ ∀ i v, vs !! i = Some v →
        lc_Row (λ c i, rows_in c !! i) d i
        = Some (match normal time_key time_cell v with
                | None => if nl then None else Some (stored C VNil)
                | Some (_, x) => Some (stored C x)
                end).
Proof.
  intros Hne Hc Hcells HA Hf Hrows Hlen. destruct (law_fresh (I := C)) as [Hw0 Hn0].
  destruct (dictionary_carried (CO := columns) VNil time_key time_cell contents (MkAny C (fresh C) : @col columns) nl vs c rest)
    as (d & Hd & Hr & _ & Hv); try done.
  - split; [done|]. by exists (fresh C).
  - cbn. unfold rows_in. cbn [iface cstate]. by rewrite Hn0.
  - by exists d.
Qed.
End driver_index.

(** Texts and numbers keep the conditions. *)
Lemma string_dictionary {W : Wire} {L : WireLaws W} duration_string name :
  let C := StringColumn duration_string name in
  custom C = None ∧ (∀ s, ∃ s', Column.AppendRow C s VNil = Some (s', None)) ∧ accepts C VNil.
Proof. split; [done|]. split; [intros s; by eexists|done]. Qed.

Lemma int_dictionary {W : Wire} {L : WireLaws W} conv_float k name t :
  let C := IntColumn conv_float k name t in
  custom C = None ∧ (∀ s, ∃ s', Column.AppendRow C s VNil = Some (s', None)) ∧ accepts C VNil.
Proof. split; [done|]. split; [intros s; by eexists|by destruct k]. Qed.
