(* ===== verification/Batch.v ===== *)
(** * Batches over the native protocol ([conn_batch.go])

    A batch holds a connection with an INSERT in progress, collects rows in a block and
    sends it.  The connection, the pool and the server are the world: every call to
    them is logged as an event and takes its outcome from a script, so that the
    theorems range over all failures.  [None] is a nil-pointer panic.  The block is
    used through [BlockOps]; [BatchBlocks.v] has those of the driver.  The watchdog that closes the socket when the context
    ends, logging and deadlines are left out. *)

From S2P Require Import Prelude.

(** What a batch uses of [proto.Block]; [content] are the rows that are read from it. *)
Class BlockOps := {
  blk : Type;
  brow : Type;
  crow : Type;
  berr : Type;
  (** [block.Append(v...)]: the block afterwards, and the error. *)
  bAppend : blk → brow → blk * option berr;
  bRows : blk → nat;
  bReset : blk → blk;
  content : blk → list crow
}.

(** What it is promised: a row that is appended to a consistent block is stored behind the
    others, as long as the block stays within the sizes of the wire; a block without rows
    is one that counts none, and [Reset] makes one.  [BatchBlocks.v] has the instance for
    the driver's blocks. *)
Class BlockLaws (B : BlockOps) := {
  block_ok : blk → Prop;
  block_fits : blk → Prop;
  row_ok : brow → Prop;
  stores : brow → crow;
  content_append : ∀ k r k', block_ok k → row_ok r → bAppend k r = (k', None) → block_fits k' →
    block_ok k' ∧ content k' = content k ++ [stores r];
  content_rows : ∀ k, block_ok k → bRows k = 0 ↔ content k = [];
  content_reset : ∀ k, block_ok k → block_ok (bReset k) ∧ content (bReset k) = []
}.

(** An error of the world; [broken] tells EPIPE and ECONNRESET. *)
Record net_err := MkNetErr { ne_id : nat; broken : bool }.

Section batch.
Context `{B : BlockOps}.

Inductive batch_err :=
| ErrBatchAlreadySent
| ErrBatchInvalid (e : berr)       (* "%w: %w", ErrBatchInvalid, err *)
| ErrRow (e : berr)
| ErrNet (e : net_err)
| ErrColumnIndex (idx : nat)
| ErrStruct
| ErrProcessDone.                   (* os.ErrProcessDone *)

(** Calls to the world.  [EvRelease c e]: the connection goes back with error [e]. *)
Inductive event :=
| EvQuery (c : nat)                     (* sendQuery *)
| EvFirstBlock (c : nat)                (* firstBlock *)
| EvData (c : nat) (rows : list crow)   (* sendData of the batch's block *)
| EvEnd (c : nat)                       (* sendData of an empty block *)
| EvProcess (c : nat)                   (* process *)
| EvAcquire (c : nat)
| EvAcquireFailed
| EvRelease (c : nat) (e : option batch_err).

Record world := MkWorld {
  script : list (option net_err);       (* outcomes to come; success when exhausted *)
  trace : list event;
  next_conn : nat
}.

Definition log (ev : event) (w : world) : world := MkWorld (script w) (trace w ++ [ev]) (next_conn w).

(** The next outcome. *)
Definition pop (w : world) : option net_err * world :=
  match script w with
  | [] => (None, w)
  | o :: s => (o, MkWorld s (trace w) (next_conn w))
  end.

Definition call (ev : event) (w : world) : option net_err * world := pop (log ev w).

Record batch := MkBatch {
  b_err : option batch_err;
  b_conn : option nat;      (* nil after a failed acquire *)
  sent : bool;
  released : bool;
  closeOnFlush : bool;
  b_block : blk
}.

Definition set_err (b : batch) e := MkBatch (Some e) (b_conn b) (sent b) (released b) (closeOnFlush b) (b_block b).
Definition set_conn (b : batch) c := MkBatch (b_err b) c (sent b) (released b) (closeOnFlush b) (b_block b).
Definition set_sent (b : batch) := MkBatch (b_err b) (b_conn b) true (released b) (closeOnFlush b) (b_block b).
Definition set_released (b : batch) v := MkBatch (b_err b) (b_conn b) (sent b) v (closeOnFlush b) (b_block b).
Definition set_blk (b : batch) k := MkBatch (b_err b) (b_conn b) (sent b) (released b) (closeOnFlush b) k.

(** The result of an operation: the batch, the world and the returned error. *)
Definition outcome : Type := option (batch * world * option batch_err).

Definition net (o : option net_err) : option batch_err := ErrNet <$> o.

Definition b_release (e : option batch_err) (b : batch) (w : world) : option (batch * world) :=
  if released b then Some (b, w)
  else c ← b_conn b; Some (set_released b true, log (EvRelease c e) w).

Definition closeQuery (b : batch) (w : world) : option (world * option batch_err) :=
  c ← b_conn b;
  let '(o, w) := call (EvEnd c) w in
  match o with
  | Some e => Some (w, Some (ErrNet e))
  | None => let '(o, w) := call (EvProcess c) w in Some (w, net o)
  end.


Definition batch_Abort (b : batch) (w : world) : outcome :=
  let r := if sent b then Some ErrBatchAlreadySent else None in
  '(b, w) ← b_release (Some ErrProcessDone) (set_sent b) w;
  Some (b, w, r).

Definition batch_Append (v : brow) (b : batch) (w : world) : outcome :=
  if sent b then Some (b, w, Some ErrBatchAlreadySent)
  else match b_err b with
  | Some e => Some (b, w, Some e)
  | None =>
      let '(k, e) := bAppend (b_block b) v in
      let b := set_blk b k in
      match e with
      | Some e =>
          '(b, w) ← b_release (Some (ErrRow e)) (set_err b (ErrBatchInvalid e)) w;
          Some (b, w, Some (ErrRow e))
      | None => Some (b, w, None)
      end
  end.

(** [AppendStruct]: the map from the struct to a row hangs off the connection. *)
Definition AppendStruct (v : option brow) (b : batch) (w : world) : outcome :=
  match b_err b with
  | Some e => Some (b, w, Some e)
  | None =>
      _ ← b_conn b;
      match v with
      | None => Some (b, w, Some ErrStruct)
      | Some v => batch_Append v b w
      end
  end.

(** [Column] with an index out of range releases the connection. *)
Definition Column_out_of_range (idx : nat) (b : batch) (w : world) : outcome :=
  '(b, w) ← b_release (Some (ErrColumnIndex idx)) b w;
  Some (b, w, Some (ErrColumnIndex idx)).

(** [Append] and [AppendRow] of a [batchColumn] in range; [app] is the column's append,
    which changes the block the column belongs to. *)
Definition batchColumn_Append (app : blk → blk * option berr) (b : batch) (w : world) : outcome :=
  if sent b then Some (b, w, Some ErrBatchAlreadySent)
  else
    let '(k, e) := app (b_block b) in
    let b := set_blk b k in
    match e with
    | Some e =>
        '(b, w) ← b_release (Some (ErrRow e)) (set_err b (ErrRow e)) w;
        Some (b, w, Some (ErrRow e))
    | None => Some (b, w, None)
    end.

(** [resetConnection].  [release] comes before the deferred [b.released = false], so
    that on the error paths it finds [released] still set. *)
Definition resetConnection (b : batch) (w : world) : outcome :=
  let '(o, w) := pop w in
  match o with
  | Some e => Some (set_conn b None, log EvAcquireFailed w, Some (ErrNet e))
  | None =>
      let c := next_conn w in
      let w := MkWorld (script w) (trace w ++ [EvAcquire c]) (S c) in
      let b := set_conn b (Some c) in
      let '(o, w) := call (EvQuery c) w in
      match o with
      | Some e =>
          '(b, w) ← b_release (Some (ErrNet e)) b w;
          Some (set_released b false, w, Some (ErrNet e))
      | None =>
          let '(o, w) := call (EvFirstBlock c) w in
          match o with
          | Some e =>
              '(b, w) ← b_release (Some (ErrNet e)) b w;
              Some (set_released b false, w, Some (ErrNet e))
          | None => Some (set_released b false, w, None)
          end
      end
  end.

(** The body of [Send]; the deferred function follows in [batch_Send].  When the data
    can not be sent the context's error, if there is one, is returned instead. *)
Definition send_body (b : batch) (w : world) : outcome :=
  match b_err b with
  | Some e => Some (b, w, Some e)
  | None =>
      '(b, w, r) ← (if sent b || released b then resetConnection b w else Some (b, w, None));
      match r with
      | Some e => Some (b, w, Some e)
      | None =>
          let finish w :=
            '(w, e) ← closeQuery b w; Some (b, w, e) in
          if Nat.eqb (bRows (b_block b)) 0 then finish w
          else
            c ← b_conn b;
            let '(o, w) := call (EvData c (content (b_block b))) w in
            match o with
            | Some e =>
                let '(ctxErr, w) := pop w in
                Some (b, w, Some (ErrNet (match ctxErr with Some ce => ce | None => e end)))
            | None => finish w
            end
      end
  end.

Definition batch_Send (b : batch) (w : world) : outcome :=
  '(b, w, e) ← send_body b w;
  '(b, w) ← b_release e (set_sent b) w;
  Some (b, w, e).

Definition batch_Flush (b : batch) (w : world) : outcome :=
  if sent b then Some (b, w, Some ErrBatchAlreadySent)
  else match b_err b with
  | Some e => Some (b, w, Some e)
  | None =>
      '(b, w, r) ← (if released b then resetConnection b w else Some (b, w, None));
      match r with
      | Some e => Some (b, w, Some e)
      | None =>
          if Nat.eqb (bRows (b_block b)) 0 then Some (set_blk b (bReset (b_block b)), w, None)
          else
            c ← b_conn b;
            let '(o, w) := call (EvData c (content (b_block b))) w in
            match o with
            | Some e =>
                '(b, w) ← (if broken e then b_release (Some (ErrNet e)) b w else Some (b, w));
                Some (b, w, Some (ErrNet e))
            | None =>
                '(b, w) ← (if closeOnFlush b then
                             '(w, e) ← closeQuery b w; b_release e b w
                           else Some (b, w));
                Some (set_blk b (bReset (b_block b)), w, None)
            end
      end
  end.

Definition batch_Close (b : batch) (w : world) : outcome :=
  if sent b || released b then Some (b, w, None)
  else
    '(w, e) ← closeQuery b w;
    '(b, w) ← b_release e (set_sent b) w;
    Some (b, w, e).

(** [appendRowsBlocks]: [ks] are the blocks that [r.Next()] goes through, each with at
    least one row.  The batch takes over the current block and flushes it when the next
    one arrives; the logger hangs off the connection. *)
Fixpoint append_blocks (ks : list blk) (b : batch) (w : world) : outcome :=
  match ks with
  | [] => Some (b, w, None)
  | k :: ks =>
      '(b, w, e) ← batch_Flush b w;
      match e with
      | Some e => Some (b, w, Some e)
      | None => _ ← b_conn b; append_blocks ks (set_blk b k) w
      end
  end.

Definition appendRowsBlocks (ks : list blk) (b : batch) (w : world) : outcome :=
  match ks with
  | [] => Some (b, w, None)
  | k :: ks => _ ← b_conn b; append_blocks ks (set_blk b k) w
  end.

(** [Append] when its argument is a [*rows]. *)
Definition batch_AppendRows (ks : list blk) (b : batch) (w : world) : outcome :=
  if sent b then Some (b, w, Some ErrBatchAlreadySent)
  else match b_err b with
  | Some e => Some (b, w, Some e)
  | None => appendRowsBlocks ks b w
  end.

(** [prepareBatch] from the point where connection [c] is held: the INSERT is sent, the
    first block received and, if asked for, the connection given back.  [query_ok]: the
    query is recognised as an INSERT; [sorted]: its columns are those of the block. *)
Definition prepareBatch (c : nat) (query_ok closeFlush releaseConnection sorted : bool) (k : blk) (w : world)
    : option (option batch * world) :=
  if negb query_ok then Some (None, w) else
  let '(o, w) := call (EvQuery c) w in
  match o with
  | Some e => Some (None, log (EvRelease c (Some (ErrNet e))) w)
  | None =>
      let '(o, w) := call (EvFirstBlock c) w in
      match o with
      | Some e => Some (None, log (EvRelease c (Some (ErrNet e))) w)
      | None =>
          if negb sorted then Some (None, log (EvRelease c (Some ErrStruct)) w)
          else
            let b := MkBatch None (Some c) false false closeFlush k in
            if releaseConnection then
              '(w, e) ← closeQuery b w;
              '(b, w) ← b_release e b w;
              Some (Some b, w)
            else Some (Some b, w)
      end
  end.
End batch.

(** ** Operations in sequence *)

Section theorems.
Context `{B : BlockOps}.

Inductive batch_op :=
| OpAppend (v : brow)
| OpAppendStruct (v : option brow)
| OpAppendRows (ks : list blk)
| OpFlush
| OpSend
| OpAbort
| OpClose
| OpColumn (idx : nat)
| OpColumnAppend (app : blk → blk * option berr).

Definition run_op (o : batch_op) (b : batch) (w : world) : outcome :=
  match o with
  | OpAppend v => batch_Append v b w
  | OpAppendStruct v => AppendStruct v b w
  | OpAppendRows ks => batch_AppendRows ks b w
  | OpFlush => batch_Flush b w
  | OpSend => batch_Send b w
  | OpAbort => batch_Abort b w
  | OpClose => batch_Close b w
  | OpColumn idx => Column_out_of_range idx b w
  | OpColumnAppend app => batchColumn_Append app b w
  end.

(** The batch, the world and the errors returned. *)
Fixpoint run_ops (os : list batch_op) (b : batch) (w : world) : option (batch * world * list (option batch_err)) :=
  match os with
  | [] => Some (b, w, [])
  | o :: os =>
      '(b, w, e) ← run_op o b w;
      '(b, w, es) ← run_ops os b w;
      Some (b, w, e :: es)
  end.

(** The use of connections: [held] is the one the batch has; acquiring needs none to
    be held, everything else needs exactly the connection it names. *)
Definition use (held : option nat) (ev : event) : option (option nat) :=
  match ev with
  | EvAcquire c => match held with None => Some (Some c) | Some _ => None end
  | EvAcquireFailed => match held with None => Some None | Some _ => None end
  | EvRelease c _ => if bool_decide (held = Some c) then Some None else None
  | EvQuery c | EvFirstBlock c | EvData c _ | EvEnd c | EvProcess c =>
      if bool_decide (held = Some c) then Some held else None
  end.

Fixpoint uses (held : option nat) (tr : list event) : option (option nat) :=
  match tr with
  | [] => Some held
  | ev :: tr => h ← use held ev; uses h tr
  end.

Lemma uses_snoc held tr ev : uses held (tr ++ [ev]) = (h ← uses held tr; use h ev).
Proof.
  revert held. induction tr as [|x tr IH]; intros held; simpl.
  - by destruct (use held ev).
  - destruct (use held x); [apply IH|done].
Qed.

(** The connection a batch holds. *)
Definition holds (b : batch) : option nat := if released b then None else b_conn b.

(** [uses] accepts the trace and ends with the connection [h]. *)
Definition held_is (c0 : nat) (w : world) (h : option nat) : Prop := uses (Some c0) (trace w) = Some h.

Definition batch_inv (c0 : nat) (b : batch) (w : world) : Prop :=
  held_is c0 w (holds b) ∧ (released b = false → is_Some (b_conn b)) ∧ (sent b = true → released b = true).

Lemma held_log c0 w h ev h' : held_is c0 w h → use h ev = Some h' → held_is c0 (log ev w) h'.
Proof. unfold held_is. intros H E. cbn [log trace]. rewrite uses_snoc, H. exact E. Qed.

Lemma pop_trace w o w' : pop w = (o, w') → trace w' = trace w.
Proof. unfold pop. destruct (script w); intros [= <- <-]; done. Qed.

Lemma call_trace ev w o w' : call ev w = (o, w') → trace w' = trace w ++ [ev].
Proof. intros H%pop_trace. done. Qed.

Lemma held_call c0 w h ev o w' h' :
  held_is c0 w h → use h ev = Some h' → call ev w = (o, w') → held_is c0 w' h'.
Proof.
  intros H E Hc%call_trace. unfold held_is. rewrite Hc, uses_snoc.
  unfold held_is in H. by rewrite H.
Qed.

Lemma use_same c ev :
  match ev with EvQuery d | EvFirstBlock d | EvData d _ | EvEnd d | EvProcess d => d = c | _ => False end →
  use (Some c) ev = Some (Some c).
Proof. destruct ev; intros H; try done; subst; simpl; by rewrite bool_decide_true. Qed.

(** The shape every operation preserves: it returns, and the invariant holds. *)
Definition keeps (c0 : nat) (r : outcome) : Prop :=
  ∃ b w e, r = Some (b, w, e) ∧ batch_inv c0 b w.

Lemma release_keeps c0 e b w :
  held_is c0 w (holds b) → (released b = false → is_Some (b_conn b)) →
  ∃ b' w', b_release e b w = Some (b', w') ∧ held_is c0 w' None ∧ released b' = true
    ∧ sent b' = sent b ∧ b_block b' = b_block b ∧ b_err b' = b_err b ∧ closeOnFlush b' = closeOnFlush b
    ∧ b_conn b' = b_conn b.
Proof.
  intros Hh Hc. unfold b_release, holds in *. destruct (released b) eqn:Er.
  - exists b, w. done.
  - destruct (Hc eq_refl) as [c Ec]. rewrite Ec in *. cbn [mbind option_bind]. do 2 eexists.
    split; [done|]. split; [|done]. eapply held_log; [exact Hh|]. simpl. by rewrite bool_decide_true.
Qed.

Lemma closeQuery_keeps c0 b w c :
  held_is c0 w (Some c) → b_conn b = Some c →
  ∃ w' e, closeQuery b w = Some (w', e) ∧ held_is c0 w' (Some c).
Proof.
  intros Hh Hc. unfold closeQuery. rewrite Hc. cbn [mbind option_bind].
  destruct (call (EvEnd c) w) as [o w1] eqn:E1.
  pose proof (held_call _ _ _ _ _ _ _ Hh (use_same c (EvEnd c) eq_refl) E1) as H1.
  destruct o as [e|]; [by do 2 eexists|]. destruct (call (EvProcess c) w1) as [o w2] eqn:E2.
  do 2 eexists. split; [done|]. exact (held_call _ _ _ _ _ _ _ H1 (use_same c (EvProcess c) eq_refl) E2).
Qed.

Lemma reset_keeps c0 b w :
  held_is c0 w None → released b = true →
  ∃ b' w' e, resetConnection b w = Some (b', w', e) ∧
    sent b' = sent b ∧ b_err b' = b_err b ∧ b_block b' = b_block b ∧ closeOnFlush b' = closeOnFlush b ∧
    ((e ≠ None ∧ released b' = true ∧ held_is c0 w' None) ∨
     (released b' = false ∧ ∃ c, b_conn b' = Some c ∧ held_is c0 w' (Some c))).
Proof.
  intros Hh Hr. unfold resetConnection. destruct (pop w) as [o w1] eqn:Ep.
  apply pop_trace in Ep. assert (held_is c0 w1 None) as H1 by (unfold held_is; by rewrite Ep).
  destruct o as [e|].
  { do 3 eexists. split; [done|]. do 4 (split; [done|]). left. split; [done|]. split; [done|].
    eapply held_log; [exact H1|done]. }
  set (c := next_conn w1). set (w2 := MkWorld _ _ _).
  assert (held_is c0 w2 (Some c)) as H2.
  { unfold held_is, w2. cbn [trace]. rewrite uses_snoc. unfold held_is in H1. by rewrite H1. }
  destruct (call (EvQuery c) w2) as [o w3] eqn:E3.
  pose proof (held_call _ _ _ _ _ _ _ H2 (use_same c (EvQuery c) eq_refl) E3) as H3.
  assert (∀ e w', b_release e (set_conn b (Some c)) w' = Some (set_conn b (Some c), w')) as Hrel.
  { intros e w'. unfold b_release. cbn. by rewrite Hr. }
  destruct o as [e|].
  { rewrite Hrel. cbn [mbind option_bind]. do 3 eexists. split; [done|]. do 4 (split; [done|]).
    right. split; [done|]. by exists c. }
  destruct (call (EvFirstBlock c) w3) as [o w4] eqn:E4.
  pose proof (held_call _ _ _ _ _ _ _ H3 (use_same c (EvFirstBlock c) eq_refl) E4) as H4.
  destruct o as [e|].
  { rewrite Hrel. cbn [mbind option_bind]. do 3 eexists. split; [done|]. do 4 (split; [done|]).
    right. split; [done|]. by exists c. }
  do 3 eexists. split; [done|]. do 4 (split; [done|]). right. split; [done|]. by exists c.
Qed.
(** What an operation needs of the connection beyond holding it: a struct map and a
    logger hang off it, so that a nil connection panics. *)
Definition needs_conn (o : batch_op) : Prop :=
  match o with OpAppendStruct _ | OpAppendRows _ => True | _ => False end.

Lemma inv_intro c0 b w c :
  held_is c0 w (Some c) → b_conn b = Some c → released b = false → sent b = false → batch_inv c0 b w.
Proof. intros H Hc Hr Hs. split; [unfold holds; by rewrite Hr, Hc|]. split; [by rewrite Hc|by rewrite Hs]. Qed.

Lemma inv_released c0 b w : held_is c0 w None → released b = true → batch_inv c0 b w.
Proof. intros H Hr. split; [unfold holds; by rewrite Hr|]. split; [by rewrite Hr|done]. Qed.

(** Releasing at the end of an operation restores the invariant. *)
Lemma release_ends c0 e r b w :
  held_is c0 w (holds b) → (released b = false → is_Some (b_conn b)) →
  keeps c0 ('(b, w) ← b_release e b w; Some (b, w, r)).
Proof.
  intros Hh Hc. destruct (release_keeps c0 e b w Hh Hc) as (b' & w' & -> & H & Hr & _).
  cbn [mbind option_bind]. do 3 eexists. split; [done|]. by apply inv_released.
Qed.

Lemma Append_keeps c0 v b w : batch_inv c0 b w → keeps c0 (batch_Append v b w).
Proof.
  intros Hi. pose proof Hi as (Hh & Hc & Hs). unfold batch_Append.
  destruct (sent b) eqn:Es; [by do 3 eexists|]. destruct (b_err b); [by do 3 eexists|].
  destruct (bAppend (b_block b) v) as [k [e|]]; [by apply release_ends|].
  do 3 eexists. split; [done|]. split; [done|]. split; [done|]. by cbn; rewrite Es.
Qed.

Lemma columnAppend_keeps c0 app b w : batch_inv c0 b w → keeps c0 (batchColumn_Append app b w).
Proof.
  intros Hi. pose proof Hi as (Hh & Hc & Hs). unfold batchColumn_Append.
  destruct (sent b) eqn:Es; [by do 3 eexists|].
  destruct (app (b_block b)) as [k [e|]]; [by apply release_ends|].
  do 3 eexists. split; [done|]. split; [done|]. split; [done|]. by cbn; rewrite Es.
Qed.

(** A batch with an open connection sends data and the end of the query on it. *)
Lemma held_conn c0 b w :
  batch_inv c0 b w → released b = false → ∃ c, b_conn b = Some c ∧ held_is c0 w (Some c).
Proof.
  intros (Hh & Hc & _) Hr. destruct (Hc Hr) as [c Ec]. exists c. split; [done|].
  unfold holds in Hh. by rewrite Hr, Ec in Hh.
Qed.

(** [reopen] is the head of [Send] and [Flush]: a new connection if there is none. *)
Lemma reopen_keeps c0 (cond : bool) b w :
  batch_inv c0 b w → (cond = true → released b = true) → (cond = false → released b = false) →
  ∃ b' w' e, ((if cond then resetConnection b w else Some (b, w, None))
               : option (batch * world * option batch_err)) = Some (b', w', e) ∧
    sent b' = sent b ∧ b_err b' = b_err b ∧ b_block b' = b_block b ∧ closeOnFlush b' = closeOnFlush b ∧
    ((e ≠ None ∧ released b' = true ∧ held_is c0 w' None) ∨
     (released b' = false ∧ ∃ c, b_conn b' = Some c ∧ held_is c0 w' (Some c))).
Proof.
  intros Hi Ht Hf. destruct cond.
  - pose proof Hi as (Hh & _). unfold holds in Hh. rewrite (Ht eq_refl) in Hh.
    apply reset_keeps; [done|by apply Ht].
  - exists b, w, None. do 5 (split; [done|]). right. split; [by apply Hf|]. apply held_conn; auto.
Qed.

(** The state in which [Send]'s deferred function finds the batch. *)
Definition open_or_not (c0 : nat) (b : batch) (w : world) : Prop :=
  held_is c0 w (holds b) ∧ (released b = false → is_Some (b_conn b)).

Lemma open_intro c0 b w c :
  released b = false → b_conn b = Some c → held_is c0 w (Some c) → open_or_not c0 b w.
Proof. intros Hr Hc Hh. split; [unfold holds; by rewrite Hr, Hc|by rewrite Hc]. Qed.

Lemma finish_keeps c0 b w c :
  released b = false → b_conn b = Some c → held_is c0 w (Some c) →
  ∃ w' e, closeQuery b w = Some (w', e) ∧ open_or_not c0 b w'.
Proof.
  intros Hr Hc Hh. destruct (closeQuery_keeps c0 b w c Hh Hc) as (w' & e & E & H).
  do 2 eexists. split; [exact E|]. by eapply open_intro.
Qed.

Lemma send_body_keeps c0 b w :
  batch_inv c0 b w → ∃ b' w' e, send_body b w = Some (b', w', e) ∧ open_or_not c0 b' w'.
Proof.
  intros Hi. unfold send_body. destruct (b_err b).
  { do 3 eexists. split; [done|]. by destruct Hi as (? & ? & ?). }
  destruct (reopen_keeps c0 (sent b || released b) b w Hi) as (b1 & w1 & r & -> & _ & _ & _ & _ & H).
  { destruct Hi as (_ & _ & Hs). destruct (sent b); auto. }
  { by intros [_ ?]%orb_false_iff. }
  cbn [mbind option_bind]. destruct H as [(He & Hr & H)|(Hr & c & Hc & H)].
  { destruct r as [e|]; [|done]. do 3 eexists. split; [done|]. split; [unfold holds|]; by rewrite Hr. }
  destruct r as [e|]; [do 3 eexists; split; [done|]; by eapply open_intro|].
  destruct (Nat.eqb _ _).
  { destruct (finish_keeps c0 b1 w1 c Hr Hc H) as (w' & e & -> & Ho). by do 3 eexists. }
  rewrite Hc. cbn [mbind option_bind]. destruct (call _ w1) as [o w2] eqn:E2.
  pose proof (held_call _ _ _ _ _ _ _ H (use_same c (EvData c _) eq_refl) E2) as H2.
  destruct o as [e|].
  - destruct (pop w2) as [ce w3] eqn:E3. do 3 eexists. split; [done|]. eapply open_intro; [done..|].
    unfold held_is. by rewrite (pop_trace _ _ _ E3).
  - destruct (finish_keeps c0 b1 w2 c Hr Hc H2) as (w' & e & -> & Ho). by do 3 eexists.
Qed.

Lemma Send_keeps c0 b w : batch_inv c0 b w → keeps c0 (batch_Send b w).
Proof.
  intros Hi. unfold batch_Send. destruct (send_body_keeps c0 b w Hi) as (b' & w' & e & -> & Hh & Hc).
  by apply release_ends.
Qed.

(** After a [Flush] without error the batch has a connection, in use or given back. *)
Lemma Flush_keeps_conn c0 b w :
  batch_inv c0 b w →
  ∃ b' w' e, batch_Flush b w = Some (b', w', e) ∧ batch_inv c0 b' w' ∧ (e = None → is_Some (b_conn b')).
Proof.
  intros Hi. unfold batch_Flush. destruct (sent b) eqn:Es; [by do 3 eexists|].
  destruct (b_err b) eqn:Ee; [by do 3 eexists|].
  destruct (reopen_keeps c0 (released b) b w Hi) as (b1 & w1 & r & -> & Es1 & _ & _ & _ & H); [done..|].
  cbn [mbind option_bind]. destruct H as [(He & Hr & H)|(Hr & c & Hc & H)].
  { destruct r as [e|]; [|done]. do 3 eexists. split; [done|]. split; [by apply inv_released|done]. }
  rewrite Es in Es1.
  destruct r as [e|]; [do 3 eexists; split; [done|]; split; [by eapply inv_intro|done]|].
  destruct (Nat.eqb _ _); [do 3 eexists; split; [done|]; split; [by eapply inv_intro|by cbn; rewrite Hc]|].
  rewrite Hc. cbn [mbind option_bind]. destruct (call _ w1) as [o w2] eqn:E2.
  pose proof (held_call _ _ _ _ _ _ _ H (use_same c (EvData c _) eq_refl) E2) as H2.
  destruct (open_intro c0 b1 w2 c Hr Hc H2) as [Ho1 Ho2]. destruct o as [e|].
  - destruct (broken e); [|do 3 eexists; split; [done|]; split; [by eapply inv_intro|done]].
    destruct (release_ends c0 (Some (ErrNet e)) (Some (ErrNet e)) b1 w2 Ho1 Ho2) as (b' & w' & e' & E & Hk).
    do 3 eexists. split; [exact E|]. split; [done|]. revert E.
    destruct (b_release _ b1 w2) as [[??]|]; [|done]. by intros [= <- <- <-].
  - destruct (closeOnFlush b1).
    + destruct (finish_keeps c0 b1 w2 c Hr Hc H2) as (w3 & e & -> & Hf1 & Hf2). cbn [mbind option_bind].
      destruct (release_keeps c0 e b1 w3 Hf1 Hf2) as (b' & w' & -> & Hk & Hrk & _ & _ & _ & _ & Hck).
      do 3 eexists. split; [done|]. split; [by apply inv_released|]. cbn. by rewrite Hck, Hc.
    + do 3 eexists. split; [done|]. split; [by eapply inv_intro|]. cbn. by rewrite Hc.
Qed.

Lemma Flush_keeps c0 b w : batch_inv c0 b w → keeps c0 (batch_Flush b w).
Proof. intros Hi. destruct (Flush_keeps_conn c0 b w Hi) as (b' & w' & e & H & Hk & _). by exists b', w', e. Qed.

Lemma set_blk_inv c0 b w k : batch_inv c0 b w → batch_inv c0 (set_blk b k) w.
Proof. done. Qed.

Lemma append_blocks_keeps c0 ks b w : batch_inv c0 b w → keeps c0 (append_blocks ks b w).
Proof.
  revert b w. induction ks as [|k ks IH]; intros b w Hi; [by do 3 eexists|]. cbn [append_blocks].
  destruct (Flush_keeps_conn c0 b w Hi) as (b' & w' & e & -> & Hk & Hc). cbn [mbind option_bind].
  destruct e as [e|]; [by do 3 eexists|]. destruct (Hc eq_refl) as [c ->]. cbn [mbind option_bind].
  by apply IH, set_blk_inv.
Qed.

Lemma Close_keeps c0 b w : batch_inv c0 b w → keeps c0 (batch_Close b w).
Proof.
  intros Hi. unfold batch_Close. destruct (sent b || released b) eqn:E; [by do 3 eexists|].
  apply orb_false_iff in E as [Es Er]. destruct (held_conn c0 b w Hi Er) as (c & Hc & Hh).
  destruct (finish_keeps c0 b w c Er Hc Hh) as (w' & e & -> & Ho1 & Ho2).
  by apply release_ends.
Qed.

(** Every operation returns and keeps the invariant, or it is one of the two that look
    into a connection the batch does not have. *)
Lemma run_op_keeps c0 o b w :
  batch_inv c0 b w →
  keeps c0 (run_op o b w) ∨ (run_op o b w = None ∧ needs_conn o ∧ b_conn b = None).
Proof.
  intros Hi. pose proof Hi as (Hh & Hc & Hs).
  destruct o as [v|v|ks| | | | |idx|app]; cbn [run_op]; try (left; by auto using Append_keeps, Flush_keeps,
    Send_keeps, Close_keeps, columnAppend_keeps).
  - unfold AppendStruct. destruct (b_err b); [left; by do 3 eexists|].
    destruct (b_conn b) eqn:E; [left|by right]. cbn [mbind option_bind].
    destruct v; [by apply Append_keeps|by do 3 eexists].
  - unfold batch_AppendRows. destruct (sent b); [left; by do 3 eexists|].
    destruct (b_err b); [left; by do 3 eexists|]. unfold appendRowsBlocks.
    destruct ks; [left; by do 3 eexists|]. destruct (b_conn b) eqn:E; [left|by right].
    by apply append_blocks_keeps, set_blk_inv.
  - left. by apply release_ends.
  - left. by apply release_ends.
Qed.

(** A sequence of operations returns, or stops at one that looks into a nil connection. *)
Lemma run_ops_keeps c0 os b w :
  batch_inv c0 b w →
  (∃ b' w' es, run_ops os b w = Some (b', w', es) ∧ batch_inv c0 b' w') ∨
  (∃ pre o post b' w' es, os = pre ++ o :: post ∧ run_ops pre b w = Some (b', w', es)
     ∧ batch_inv c0 b' w' ∧ needs_conn o ∧ b_conn b' = None).
Proof.
  revert b w. induction os as [|o os IH]; intros b w Hi; [left; by do 3 eexists|].
  cbn [run_ops]. destruct (run_op_keeps c0 o b w Hi) as [(b1 & w1 & e & E & H1)|(E & Hn & Hc)].
  - rewrite E. cbn [mbind option_bind].
    destruct (IH b1 w1 H1) as [(b' & w' & es & -> & H)|(pre & o' & post & b' & w' & es & -> & Hp & H)].
    + left. by exists b', w', (e :: es).
    + right. exists (o :: pre), o', post, b', w', (e :: es). split; [done|]. split; [|done].
      cbn [run_ops]. rewrite E. cbn [mbind option_bind]. by rewrite Hp.
  - right. exists [], o, os, b, w, []. done.
Qed.

(** [prepareBatch] gives back the connection or makes a batch that satisfies the invariant. *)
Lemma prepareBatch_keeps c query_ok closeFlush rel sorted k w :
  held_is c w (Some c) →
  ∃ ob w', prepareBatch c query_ok closeFlush rel sorted k w = Some (ob, w') ∧
    match ob with None => held_is c w' (if query_ok then None else Some c) | Some b => batch_inv c b w' ∧ b_err b = None ∧ sent b = false ∧ b_block b = k end.
Proof.
  intros H. unfold prepareBatch. destruct query_ok; [|by do 2 eexists]. cbn [negb].
  assert (∀ w e, held_is c w (Some c) → held_is c (log (EvRelease c e) w) None) as Hrel.
  { intros ? e Hh. eapply held_log; [exact Hh|]. simpl. by rewrite bool_decide_true. }
  destruct (call (EvQuery c) w) as [o w1] eqn:E1.
  pose proof (held_call _ _ _ _ _ _ _ H (use_same c (EvQuery c) eq_refl) E1) as H1.
  destruct o as [e|]; [do 2 eexists; split; [done|]; by apply Hrel|].
  destruct (call (EvFirstBlock c) w1) as [o w2] eqn:E2.
  pose proof (held_call _ _ _ _ _ _ _ H1 (use_same c (EvFirstBlock c) eq_refl) E2) as H2.
  destruct o as [e|]; [do 2 eexists; split; [done|]; by apply Hrel|].
  destruct sorted; [|do 2 eexists; split; [done|]; by apply Hrel]. cbn [negb].
  set (b := MkBatch _ _ _ _ _ _). destruct rel.
  - destruct (finish_keeps c b w2 c eq_refl eq_refl H2) as (w3 & e & -> & Ho1 & Ho2). cbn [mbind option_bind].
    destruct (release_keeps c e b w3 Ho1 Ho2) as (b' & w' & -> & Hh & Hr & Hs & Hb & He & _).
    do 2 eexists. split; [done|]. split; [by apply inv_released|done].
  - do 2 eexists. split; [done|]. split; [by eapply inv_intro|done].
Qed.

(** C13: for every sequence of operations on a prepared batch and every pattern of
    failures of the pool, the network and the server, connections are acquired and
    released in alternation and data is sent only on the connection held: nothing is
    sent on a connection given back, none is given back twice or acquired while another
    is held, and a sent batch holds none.  A failed [prepareBatch] gives its connection
    back, unless it is the query that is refused.  The sequence runs to its end unless [AppendStruct] or an [Append] of rows is
    called while the connection is nil. *)
Theorem batch_discipline c query_ok closeFlush rel sorted k s n os :
  ∃ ob w, prepareBatch c query_ok closeFlush rel sorted k (MkWorld s [] n) = Some (ob, w) ∧
    match ob with
    | None => uses (Some c) (trace w) = Some (if query_ok then None else Some c)
    | Some b =>
        (∃ b' w' es, run_ops os b w = Some (b', w', es) ∧ uses (Some c) (trace w') = Some (holds b')
           ∧ (sent b' = true → holds b' = None)) ∨
        (∃ pre o post b' w' es, os = pre ++ o :: post ∧ run_ops pre b w = Some (b', w', es)
           ∧ uses (Some c) (trace w') = Some (holds b') ∧ needs_conn o ∧ b_conn b' = None)
    end.
Proof.
  destruct (prepareBatch_keeps c query_ok closeFlush rel sorted k (MkWorld s [] n) eq_refl) as (ob & w & -> & H).
  exists ob, w. split; [done|]. destruct ob as [b|]; [|exact H].
  destruct (run_ops_keeps c os b w (proj1 H)) as [(b' & w' & es & E & Hh & _ & Hs)|
    (pre & o & post & b' & w' & es & E & E' & (Hh & _) & Hn & Hc)].
  - left. exists b', w', es. split; [done|]. split; [exact Hh|]. intros E'. unfold holds. by rewrite (Hs E').
  - right. by exists pre, o, post, b', w', es.
Qed.

(** ** Delivery *)

(** The rows handed to the server. *)
Fixpoint delivered (tr : list event) : list crow :=
  match tr with
  | [] => []
  | EvData _ rs :: tr => rs ++ delivered tr
  | _ :: tr => delivered tr
  end.

Definition appended (os : list batch_op) : list brow :=
  os ≫= λ o, match o with OpAppend v => [v] | _ => [] end.

Lemma delivered_app t1 t2 : delivered (t1 ++ t2) = delivered t1 ++ delivered t2.
Proof. induction t1 as [|[] t1 IH]; cbn; rewrite ?IH, ?app_assoc; done. Qed.

Lemma call_delivered ev w o w' :
  call ev w = (o, w') → delivered (trace w') = delivered (trace w) ++ delivered [ev].
Proof. intros H%call_trace. by rewrite H, delivered_app. Qed.

Lemma pop_delivered w o w' : pop w = (o, w') → delivered (trace w') = delivered (trace w).
Proof. by intros ->%pop_trace. Qed.

(** Runs the calls of an operation and collects what they deliver. *)
Ltac deliver :=
  repeat match goal with
  | H : call _ _ = _ |- _ => apply call_delivered in H; cbn [delivered] in H
  | H : pop _ = _ |- _ => apply pop_delivered in H
  end;
  cbn [trace log script next_conn] in *; rewrite ?delivered_app in *; cbn [delivered] in *;
  rewrite ?app_nil_r in *.

Lemma release_delivered e b w b' w' :
  b_release e b w = Some (b', w') →
  delivered (trace w') = delivered (trace w) ∧ b_block b' = b_block b ∧ b_err b' = b_err b ∧ sent b' = sent b
  ∧ closeOnFlush b' = closeOnFlush b.
Proof.
  unfold b_release. destruct (released b); [by intros [= <- <-]|].
  destruct (b_conn b); [|done]. intros [= <- <-]. deliver. done.
Qed.

Lemma closeQuery_delivered b w w' e : closeQuery b w = Some (w', e) → delivered (trace w') = delivered (trace w).
Proof.
  unfold closeQuery. destruct (b_conn b) as [c|]; [|done]. cbn [mbind option_bind].
  destruct (call (EvEnd c) w) as [o w1] eqn:E1. destruct o; [intros [= <- <-]; by deliver|].
  destruct (call (EvProcess c) w1) as [o w2] eqn:E2. intros [= <- <-]. deliver. congruence.
Qed.

Lemma reset_delivered b w b' w' e :
  resetConnection b w = Some (b', w', e) →
  delivered (trace w') = delivered (trace w) ∧ b_block b' = b_block b ∧ b_err b' = b_err b ∧ sent b' = sent b.
Proof.
  unfold resetConnection. destruct (pop w) as [o w1] eqn:E1. destruct o; [intros [= <- <- <-]; by deliver|].
  set (w2 := MkWorld _ _ _). destruct (call _ w2) as [o w3] eqn:E2. destruct o.
  { destruct (b_release _ _ w3) as [[b4 w4]|] eqn:E3; [|done]. cbn [mbind option_bind]. intros [= <- <- <-].
    apply release_delivered in E3 as (E3 & ? & ? & ? & _). subst w2. deliver. split; [congruence|done]. }
  destruct (call _ w3) as [o w4] eqn:E3. destruct o.
  { destruct (b_release _ _ w4) as [[b5 w5]|] eqn:E4; [|done]. cbn [mbind option_bind]. intros [= <- <- <-].
    apply release_delivered in E4 as (E4 & ? & ? & ? & _). subst w2. deliver. split; [congruence|done]. }
  intros [= <- <- <-]. subst w2. deliver. split; [congruence|done].
Qed.

Lemma reopen_delivered (cond : bool) b w b' w' e :
  ((if cond then resetConnection b w else Some (b, w, None)) : option (batch * world * option batch_err))
    = Some (b', w', e) →
  delivered (trace w') = delivered (trace w) ∧ b_block b' = b_block b ∧ b_err b' = b_err b ∧ sent b' = sent b.
Proof. destruct cond; [apply reset_delivered|by intros [= <- <- <-]]. Qed.

Context {L : BlockLaws B}.

Lemma content_nil k : block_ok k → Nat.eqb (bRows k) 0 = true → content k = [].
Proof. intros Hk E%Nat.eqb_eq. by apply content_rows. Qed.

(** A [Flush] that returns no error has handed over the rows of the block and emptied it. *)
Lemma Flush_delivers b w b' w' :
  block_ok (b_block b) → batch_Flush b w = Some (b', w', None) →
  delivered (trace w') = delivered (trace w) ++ content (b_block b) ∧ content (b_block b') = []
  ∧ sent b' = sent b ∧ b_err b' = b_err b ∧ block_ok (b_block b').
Proof.
  unfold batch_Flush. intros Hk. destruct (sent b) eqn:Es; [done|]. destruct (b_err b) eqn:Ee; [done|].
  destruct (if released b then _ else _) as [[[b1 w1] r]|] eqn:E1; [|done].
  apply reopen_delivered in E1 as (Ed & Eb & Ee1 & Es1). cbn [mbind option_bind]. destruct r; [done|].
  rewrite Ee in Ee1. rewrite Es in Es1. rewrite <- Eb in *. destruct (content_reset _ Hk) as [Hok Hnil].
  destruct (Nat.eqb _ _) eqn:En.
  { intros [= <- <-]. cbn. rewrite (content_nil _ Hk En), app_nil_r. done. }
  destruct (b_conn b1) as [c|]; [|done]. cbn [mbind option_bind].
  destruct (call _ w1) as [[e|] w2] eqn:E2.
  { destruct (if broken e then _ else _) as [[??]|]; done. }
  apply call_delivered in E2. cbn [delivered] in E2. rewrite app_nil_r, Ed in E2.
  destruct (closeOnFlush b1).
  - destruct (closeQuery b1 w2) as [[w3 e]|] eqn:E3; [|done]. cbn [mbind option_bind].
    destruct (b_release e b1 w3) as [[b4 w4]|] eqn:E4; [|done]. cbn [mbind option_bind]. intros [= <- <-].
    apply closeQuery_delivered in E3. apply release_delivered in E4 as (E4 & Hb4 & He & Hs & _).
    cbn. rewrite Hb4. split; [congruence|]. split; [done|]. split; [congruence|]. split; [congruence|done].
  - intros [= <- <-]. cbn. done.
Qed.

Lemma Append_delivers v b w b' w' :
  block_ok (b_block b) → row_ok v → batch_Append v b w = Some (b', w', None) → block_fits (b_block b') →
  w' = w ∧ content (b_block b') = content (b_block b) ++ [stores v] ∧ sent b' = sent b ∧ b_err b' = b_err b
  ∧ block_ok (b_block b').
Proof.
  unfold batch_Append. intros Hk Hv. destruct (sent b) eqn:Es; [done|]. destruct (b_err b) eqn:Ee; [done|].
  destruct (bAppend (b_block b) v) as [k [e|]] eqn:Ea.
  { destruct (b_release _ _ w) as [[??]|]; done. }
  intros [= <- <-] Hf. cbn in *. destruct (content_append _ _ _ Hk Hv Ea Hf) as [Hok Hc]. done.
Qed.

Lemma closeQuery_ends b w w' :
  closeQuery b w = Some (w', None) → ∃ c, b_conn b = Some c ∧ trace w' = trace w ++ [EvEnd c; EvProcess c].
Proof.
  unfold closeQuery. destruct (b_conn b) as [c|]; [|done]. cbn [mbind option_bind].
  destruct (call (EvEnd c) w) as [[e|] w1] eqn:E1; [done|].
  destruct (call (EvProcess c) w1) as [[e|] w2] eqn:E2; [done|]. intros [= <-]. exists c. split; [done|].
  apply call_trace in E1, E2. by rewrite E2, E1, <- app_assoc.
Qed.

(** A [Send] that returns no error has handed over the rows, ended the query, seen the
    server accept it and given the connection back as healthy. *)
Lemma Send_delivers c0 b w b' w' :
  batch_inv c0 b w → block_ok (b_block b) → batch_Send b w = Some (b', w', None) →
  delivered (trace w') = delivered (trace w) ++ content (b_block b) ∧ sent b' = true ∧
  ∃ c tr, trace w' = tr ++ [EvEnd c; EvProcess c; EvRelease c None].
Proof.
  intros Hi Hk. unfold batch_Send, send_body. destruct (b_err b) eqn:Ee.
  { cbn [mbind option_bind]. destruct (b_release _ _ w) as [[??]|]; done. }
  destruct (reopen_keeps c0 (sent b || released b) b w Hi) as (b1 & w1 & r & E & _ & _ & _ & _ & H).
  { destruct Hi as (_ & _ & Hs). destruct (sent b); auto. }
  { by intros [_ ?]%orb_false_iff. }
  rewrite E. apply reopen_delivered in E as (Ed & Eb & _ & _). cbn [mbind option_bind].
  destruct r as [e|]; [cbn [mbind option_bind]; by destruct (b_release _ _ w1) as [[??]|]|].
  destruct H as [(He & _)|(Hr & c & Hc & _)]; [done|]. rewrite <- Eb in *.
  assert (∀ w2, delivered (trace w2) = delivered (trace w) ++ content (b_block b1) →
    ('(b, w, e) ← ('(w, e) ← closeQuery b1 w2; Some (b1, w, e)); '(b, w) ← b_release e (set_sent b) w; Some (b, w, e))
      = Some (b', w', None) →
    delivered (trace w') = delivered (trace w) ++ content (b_block b1) ∧ sent b' = true ∧
    ∃ c tr, trace w' = tr ++ [EvEnd c; EvProcess c; EvRelease c None]) as Hfin.
  { intros w2 H2. destruct (closeQuery b1 w2) as [[w3 e]|] eqn:E3; [|done]. cbn [mbind option_bind].
    destruct (b_release e (set_sent b1) w3) as [[b4 w4]|] eqn:E4; [|done]. cbn [mbind option_bind].
    intros [= <- <- ->]. pose proof E4 as (Ed4 & _ & _ & Es4 & _)%release_delivered.
    pose proof (closeQuery_delivered _ _ _ _ E3) as Ed3. split; [congruence|]. split; [done|].
    apply closeQuery_ends in E3 as (d & Hd & E3). exists d, (trace w2). unfold b_release in E4. cbn in E4.
    rewrite Hr, Hd in E4. injection E4 as <- <-. cbn. by rewrite E3, <- app_assoc. }
  destruct (Nat.eqb _ _) eqn:En; [apply Hfin; by rewrite (content_nil _ Hk En), app_nil_r|].
  rewrite Hc. cbn [mbind option_bind]. destruct (call _ w1) as [[e|] w2] eqn:E2.
  { destruct (pop w2). cbn [mbind option_bind]. by destruct (b_release _ _ _) as [[??]|]. }
  apply call_delivered in E2. cbn [delivered] in E2. rewrite app_nil_r, Ed in E2. by apply Hfin.
Qed.

Definition append_or_flush (o : batch_op) : Prop :=
  match o with OpAppend _ | OpFlush => True | _ => False end.

Lemma run_ops_app os1 os2 b w :
  run_ops (os1 ++ os2) b w =
    ('(b, w, es1) ← run_ops os1 b w; '(b, w, es2) ← run_ops os2 b w; Some (b, w, es1 ++ es2)).
Proof.
  revert b w. induction os1 as [|o os1 IH]; intros b w; cbn [run_ops app].
  { cbn [mbind option_bind]. by destruct (run_ops os2 b w) as [[[??]?]|]. }
  destruct (run_op o b w) as [[[b1 w1] e]|]; [|done]. cbn [mbind option_bind]. rewrite IH.
  destruct (run_ops os1 b1 w1) as [[[b2 w2] es1]|]; [|done]. cbn [mbind option_bind].
  by destruct (run_ops os2 b2 w2) as [[[b3 w3] es2]|].
Qed.

(** At every point of the run the block is within the sizes of the wire. *)
Definition stays_fit (os : list batch_op) (b : batch) (w : world) : Prop :=
  ∀ os1 os2 b1 w1 es, os = os1 ++ os2 → run_ops os1 b w = Some (b1, w1, es) → block_fits (b_block b1).

Lemma stays_fit_cons o os b w b1 w1 e :
  stays_fit (o :: os) b w → run_op o b w = Some (b1, w1, e) → block_fits (b_block b1) ∧ stays_fit os b1 w1.
Proof.
  intros H E. split.
  - apply (H [o] os b1 w1 [e]); [done|]. cbn [run_ops]. by rewrite E.
  - intros os1 os2 b2 w2 es -> E2. apply (H (o :: os1) os2 b2 w2 (e :: es)); [done|]. cbn [run_ops]. rewrite E. cbn [mbind option_bind].
    by rewrite E2.
Qed.

Lemma appends_deliver os b w b' w' es :
  Forall append_or_flush os → run_ops os b w = Some (b', w', es) → Forall (λ e, e = None) es →
  block_ok (b_block b) → Forall row_ok (appended os) → stays_fit os b w →
  delivered (trace w') ++ content (b_block b') = delivered (trace w) ++ content (b_block b) ++ map stores (appended os)
  ∧ sent b' = sent b ∧ b_err b' = b_err b ∧ block_ok (b_block b').
Proof.
  revert b w es. induction os as [|o os IH]; intros b w es Ho.
  { intros [= <- <- <-] _ Hk _ _. by rewrite app_nil_r. }
  apply Forall_cons in Ho as [Ho Hos]. cbn [run_ops].
  destruct (run_op o b w) as [[[b1 w1] e]|] eqn:E1; [|done]. cbn [mbind option_bind].
  destruct (run_ops os b1 w1) as [[[b2 w2] es']|] eqn:E2; [|done]. cbn [mbind option_bind].
  intros [= <- <- <-] [-> Hes]%Forall_cons Hk Hrow Hfit. destruct (stays_fit_cons _ _ _ _ _ _ _ Hfit E1) as [Hf1 Hfit1].
  destruct o; try done; cbn [run_op] in E1.
  - change (appended (OpAppend v :: os)) with (v :: appended os) in *. apply Forall_cons in Hrow as [Hv Hrow].
    apply Append_delivers in E1 as (-> & Hc & Hs' & He' & Hk1); [|done..].
    destruct (IH b1 w es' Hos E2 Hes Hk1 Hrow Hfit1) as (Hd & Hs & He & Hk2). rewrite Hd, Hc, <- !app_assoc. cbn.
    split; [done|]. split; [congruence|]. split; [congruence|done].
  - change (appended (OpFlush :: os)) with (appended os) in *.
    apply Flush_delivers in E1 as (Ed & Hc & Hs' & He' & Hk1); [|done].
    destruct (IH b1 w1 es' Hos E2 Hes Hk1 Hrow Hfit1) as (Hd & Hs & He & Hk2). rewrite Hd, Ed, Hc, <- !app_assoc.
    split; [done|]. split; [congruence|]. split; [congruence|done].
Qed.

Lemma run_delivers c0 os b w b' w' es :
  batch_inv c0 b w → block_ok (b_block b) → content (b_block b) = [] →
  Forall append_or_flush os → Forall row_ok (appended os) → stays_fit os b w →
  run_ops (os ++ [OpSend]) b w = Some (b', w', es) → Forall (λ e, e = None) es →
  delivered (trace w') = delivered (trace w) ++ map stores (appended os) ∧
  ∃ c tr, trace w' = tr ++ [EvEnd c; EvProcess c; EvRelease c None].
Proof.
  intros Hi Hk Hb Ho Hrow Hfit. rewrite run_ops_app.
  destruct (run_ops os b w) as [[[b1 w1] es1]|] eqn:E1; [|done]. cbn [mbind option_bind run_ops run_op].
  destruct (batch_Send b1 w1) as [[[b2 w2] e]|] eqn:E2; [|done]. cbn [mbind option_bind].
  intros [= <- <- <-] [Hes1 [-> _]%Forall_cons]%Forall_app.
  destruct (appends_deliver os b w b1 w1 es1 Ho E1 Hes1 Hk Hrow Hfit) as (Hd & Hs & He & Hk1).
  assert (batch_inv c0 b1 w1) as Hi1.
  { destruct (run_ops_keeps c0 os b w Hi) as [(? & ? & ? & E & H)|(pre & o & post & ? & ? & ? & -> & _ & _ & Hn & _)].
    - rewrite E1 in E. by injection E as <- <- <-.
    - apply Forall_app in Ho as [_ [Ho _]%Forall_cons]. by destruct o. }
  destruct (Send_delivers c0 b1 w1 b2 w2 Hi1 Hk1 E2) as (Hd2 & _ & Ht). split; [|done].
  rewrite Hd2, Hd, Hb. done.
Qed.

(** C16: Whatever the way appends and flushes alternate, and whether or not the connection
    is given back and re-acquired in between, when none of the calls nor the final [Send]
    returns an error, the rows handed to the server are exactly the appended rows, as the
    columns store them, once each and in order, and the last query was ended, accepted by
    the server and its connection given back as healthy. Nothing is said of the server's
    answers to earlier queries: with [CloseOnFlush] the failure of an earlier insert goes
    unnoticed ([Flush_hides_failed_insert]). The rows have to be of the kinds the columns
    take and the block has to fit the wire format at every flush ([row_ok], [stays_fit]);
    the block is used through the laws [BlockLaws], which [driver_laws] of BatchBlocks
    proves of the driver's own blocks. *)
Theorem rows_delivered_once c0 os b w b' w' es :
  batch_inv c0 b w → block_ok (b_block b) → content (b_block b) = [] →
  Forall append_or_flush os → Forall row_ok (appended os) → stays_fit os b w →
  run_ops (os ++ [OpSend]) b w = Some (b', w', es) → Forall (λ e, e = None) es →
  delivered (trace w') = delivered (trace w) ++ map stores (appended os) ∧
  ∃ c tr, trace w' = tr ++ [EvEnd c; EvProcess c; EvRelease c None].
Proof. apply run_delivers. Qed.

(** What an operation does on a batch with an error: nothing is handed over, and the
    error stays. *)
Lemma invalid_op o e0 b w b' w' e :
  b_err b = Some e0 → run_op o b w = Some (b', w', e) →
  delivered (trace w') = delivered (trace w) ∧ is_Some (b_err b') ∧
  match o with OpFlush | OpSend | OpAppend _ => is_Some e | _ => True end.
Proof.
  intros He.
  assert (∀ b1 r (rr : option batch_err) w1 b2 w2 (e2 : option batch_err), ('(b, w) ← b_release r b1 w1; Some (b, w, rr)) = Some (b2, w2, e2) →
    is_Some (b_err b1) → delivered (trace w2) = delivered (trace w1) ∧ is_Some (b_err b2) ∧ e2 = rr) as Hrel.
  { intros b1 r rr w1 b2 w2 e2. destruct (b_release r b1 w1) as [[b3 w3]|] eqn:E; [|done].
    cbn [mbind option_bind]. intros [= <- <- <-]. apply release_delivered in E as (-> & _ & -> & _). done. }
  destruct o as [v|v|ks| | | | |idx|app]; cbn [run_op].
  - unfold batch_Append. destruct (sent b); [intros [= <- <- <-]; by rewrite He|].
    rewrite He. intros [= <- <- <-]. by rewrite He.
  - unfold AppendStruct. rewrite He. intros [= <- <- <-]. by rewrite He.
  - unfold batch_AppendRows. destruct (sent b); [intros [= <- <- <-]; by rewrite He|].
    rewrite He. intros [= <- <- <-]. by rewrite He.
  - unfold batch_Flush. destruct (sent b); [intros [= <- <- <-]; by rewrite He|].
    rewrite He. intros [= <- <- <-]. by rewrite He.
  - unfold batch_Send, send_body. rewrite He. cbn [mbind option_bind].
    intros (? & ? & ->)%Hrel; [done|by cbn; rewrite He].
  - unfold batch_Abort. intros (? & ? & ->)%Hrel; [done|by cbn; rewrite He].
  - unfold batch_Close. destruct (_ || _); [intros [= <- <- <-]; by rewrite He|].
    destruct (closeQuery b w) as [[w1 e1]|] eqn:E; [|done]. cbn [mbind option_bind].
    apply closeQuery_delivered in E. intros (H & ? & ->)%Hrel; [|by cbn; rewrite He]. split; [congruence|done].
  - unfold Column_out_of_range. intros (? & ? & ->)%Hrel; [done|by rewrite He].
  - unfold batchColumn_Append. destruct (sent b); [intros [= <- <- <-]; by rewrite He|].
    destruct (app (b_block b)) as [k [e1|]]; [intros (? & ? & ->)%Hrel; [done|by cbn]|].
    intros [= <- <- <-]. by cbn; rewrite He.
Qed.

(** Once an [Append] has failed, half of its row may be in the block; from then on
    no sequence of operations hands any row to the server, and every [Append], [Flush]
    and [Send] returns an error. *)
Theorem invalid_batch_sends_nothing v e b w os b1 w1 b2 w2 es :
  sent b = false → b_err b = None → batch_Append v b w = Some (b1, w1, Some e) →
  run_ops os b1 w1 = Some (b2, w2, es) →
  delivered (trace w2) = delivered (trace w) ∧
  (∀ i o, os !! i = Some o → match o with OpFlush | OpSend | OpAppend _ => True | _ => False end →
     ∃ e', es !! i = Some (Some e')).
Proof.
  intros Hs Hb HA Hrun.
  assert (is_Some (b_err b1) ∧ delivered (trace w1) = delivered (trace w)) as [He <-].
  { revert HA. unfold batch_Append. rewrite Hs, Hb. destruct (bAppend (b_block b) v) as [k [e1|]]; [|done].
    destruct (b_release _ _ w) as [[b3 w3]|] eqn:E; [|done]. cbn [mbind option_bind]. intros [= <- <- _].
    by apply release_delivered in E as (-> & _ & -> & _). }
  clear HA Hs Hb. revert b1 w1 es He Hrun. induction os as [|o os IH]; intros b1 w1 es [e1 He].
  { intros [= <- <- <-]. done. }
  cbn [run_ops]. destruct (run_op o b1 w1) as [[[b3 w3] e3]|] eqn:E1; [|done]. cbn [mbind option_bind].
  destruct (run_ops os b3 w3) as [[[b4 w4] es']|] eqn:E2; [|done]. cbn [mbind option_bind].
  intros [= <- <- <-]. destruct (invalid_op o e1 b1 w1 b3 w3 e3 He E1) as (Hd & He3 & Ho).
  destruct (IH b3 w3 es' He3 E2) as [IH1 IH2]. split; [congruence|].
  intros [|i] o'; cbn; [intros [= <-] H; destruct o, e3; try done; destruct Ho; eauto|apply IH2].
Qed.
End theorems.

(** ** Blocks as lists, and the error paths that are lost *)

Module ListBlock.
(** A block of numbers that refuses 0. *)
#[export] Instance ops : BlockOps := {|
  blk := list nat;
  brow := nat;
  crow := nat;
  berr := unit;
  bAppend k r := if Nat.eqb r 0 then (k, Some tt) else (k ++ [r], None);
  bRows := length;
  bReset _ := [];
  content k := k
|}.

#[export] Instance laws : BlockLaws ops.
Proof.
  refine (@Build_BlockLaws ops (λ _, True) (λ _, True) (λ _, True) id _ _ _).
  - intros k r k' _ _ E _. cbn in *. destruct (Nat.eqb r 0); [done|]. by injection E as <-.
  - intros k _. cbn. by rewrite length_zero_iff_nil.
  - done.
Defined.

Definition fresh (closeFlush : bool) : batch := MkBatch None (Some 0) false false closeFlush [].
Definition idle (s : list (option net_err)) : world := MkWorld s [] 1.
End ListBlock.
Import ListBlock.

(** Three appends, a flush that gives the connection back, another append, and the
    final [Send] on a second connection. *)
Lemma rows_delivered_once_witness :
  ∃ b w, run_ops ([OpAppend 1; OpAppend 2; OpFlush; OpAppend 3] ++ [OpSend]) (fresh true) (idle [])
    = Some (b, w, [None; None; None; None; None])
  ∧ delivered (trace w) = [1; 2; 3].
Proof.
  do 2 eexists. split; [vm_compute; reflexivity|].
  refine (proj1 (rows_delivered_once 0 [OpAppend 1; OpAppend 2; OpFlush; OpAppend 3] (fresh true)
    (idle []) _ _ [None; None; None; None; None] _ _ _ _ _ _ _ _)).
  - split; [reflexivity|]. split; [intros _; by exists 0|discriminate].
  - exact I.
  - reflexivity.
  - by repeat constructor.
  - by repeat constructor.
  - intros os1 os2 b1 w1 es _ _. exact I.
  - vm_compute. reflexivity.
  - by repeat constructor.
Defined.

(** The row 0 is refused with the row 7 in the block. *)
Lemma invalid_batch_sends_nothing_witness :
  ∃ b1 w1 b2 w2 es,
    batch_Append 0 (MkBatch None (Some 0) false false false [7]) (idle []) = Some (b1, w1, Some (ErrRow tt))
    ∧ run_ops [OpAppend 5; OpFlush; OpSend] b1 w1 = Some (b2, w2, es)
    ∧ delivered (trace w2) = [].
Proof.
  do 5 eexists. split; [reflexivity|]. split; [vm_compute; reflexivity|].
  refine (proj1 (invalid_batch_sends_nothing 0 (ErrRow tt) (MkBatch None (Some 0) false false false [7]) (idle [])
    [OpAppend 5; OpFlush; OpSend] _ _ _ _ _ eq_refl eq_refl eq_refl _)).
  vm_compute. reflexivity.
Defined.

(** With [closeOnFlush], the error of ending the insert is handed to [release] only:
    the server refuses the insert (here the outcome of [process]), yet [Flush] returns
    no error and drops the rows. *)
Theorem Flush_hides_failed_insert e :
  ∃ b w, batch_Flush (MkBatch None (Some 0) false false true [7]) (idle [None; None; Some e])
    = Some (b, w, None) ∧ content (b_block b) = []
    ∧ trace w = [EvData 0 [7]; EvEnd 0; EvProcess 0; EvRelease 0 (Some (ErrNet e))].
Proof. do 2 eexists. split; [reflexivity|]. done. Qed.

(** When the INSERT can not be sent on a re-acquired connection, [resetConnection]
    calls [release] while [released] is still true, which does nothing, and then clears
    [released]: [Flush] fails with the connection still attached and marked usable, and
    the next [Flush] sends its data on it without an INSERT before it. *)
Theorem failed_reset_keeps_connection e :
  ∃ b w b' w', batch_Flush (MkBatch None (Some 0) false true true [7]) (idle [None; Some e])
      = Some (b, w, Some (ErrNet e))
    ∧ released b = false ∧ b_conn b = Some 1 ∧ trace w = [EvAcquire 1; EvQuery 1]
    ∧ batch_Flush b w = Some (b', w', None)
    ∧ trace w' = [EvAcquire 1; EvQuery 1; EvData 1 [7]; EvEnd 1; EvProcess 1; EvRelease 1 None].
Proof. do 4 eexists. split; [reflexivity|]. do 3 (split; [reflexivity|]). split; reflexivity. Qed.

(** [AppendStruct] reaches through the connection for the struct map: after a
    [Flush] that could not acquire a connection it panics. *)
Theorem AppendStruct_panics_after_failed_acquire e v :
  ∃ b w, batch_Flush (MkBatch None (Some 0) false true true [7]) (idle [Some e])
      = Some (b, w, Some (ErrNet e))
    ∧ AppendStruct v b w = None.
Proof. do 2 eexists. split; reflexivity. Qed.

(** A query that is not recognised as an INSERT makes [prepareBatch] return before
    anything is sent, with the connection acquired for it still held: the caller has no
    batch through which to give it back. *)
Theorem prepareBatch_leaks_connection c closeFlush rel sorted k s n :
  prepareBatch c false closeFlush rel sorted k (MkWorld s [] n) = Some (None, MkWorld s [] n)
  ∧ uses (Some c) [] = Some (Some c).
Proof. done. Qed.
