(* ===== verification/BatchBlocks.v ===== *)
(** * Batches of the driver's blocks

    [Batch.v] works on anything that keeps [BlockLaws].  Here the blocks of [Block.v] with
    the columns of [ColumnType.v] are shown to keep them: a row appended to a block whose
    columns are consistent and have equally many rows is what is read behind the others,
    each value as its column stores it. *)

From S2P Require Import Prelude GoStd Wire Column ColumnLaws ColumnLeaf ColumnType Block BlockColumns Batch.

Section driver_blocks.
Context {W : Wire}.
Variable conv_float : intkind → nat → Z → Z.
Variable to_float : nat → prim → Z.
Variable duration_string : Z → gostring.
Variable other : gostring → gostring → result cerr Interface.
(** The columns of the table, at least one. *)
Variables (C0 : lawful_column) (Cs : list lawful_column).

#[local] Instance columns : ColumnOps := interface_columns conv_float to_float duration_string other.
#[local] Existing Instance col_laws.

(** Row [i] of a block. *)
Definition block_row (k : Block) (i : nat) : list value := omap (λ c : any_column, row_of c i) (Columns k).

#[export] Instance driver_blocks : BlockOps := {|
  blk := Block;
  brow := list value;
  crow := list value;
  berr := block_err;
  bAppend := Block.Append;
  bRows := block_Rows;
  bReset := block_Reset;
  content k := map (block_row k) (seq 0 (block_Rows k))
|}.

(** A column of its type, in a consistent state, with [n] rows. *)
Definition consistent (n : nat) (C : lawful_column) (c : any_column) : Prop :=
  ∃ s, c = MkAny (col_of C) s ∧ wf (col_of C) s ∧ Rows (col_of C) s = n.

Definition block_consistent (k : Block) : Prop := Forall2 (consistent (block_Rows k)) (C0 :: Cs) (Columns k).

(** Every column is within the sizes of the wire. *)
Definition block_within (k : Block) : Prop :=
  ∀ j C s, (C0 :: Cs) !! j = Some C → Columns k !! j = Some (MkAny (col_of C) s) → fits (col_of C) s.

Definition row_accepted (r : list value) : Prop := Forall2 (λ C v, accepts (col_of C) v) (C0 :: Cs) r.
Definition row_stored (r : list value) : list value := zip_with (λ C v, stored (col_of C) v) (C0 :: Cs) r.

(** The columns after a row: one row more, the old ones as they were. *)
Lemma append_loop_consistent n cols r cols' :
  ∀ Ds, Forall2 (consistent n) Ds cols → Forall2 (λ C v, accepts (col_of C) v) Ds r →
  append_loop cols r = (cols', None) →
  (∀ j C s, Ds !! j = Some C → cols' !! j = Some (MkAny (col_of C) s) → fits (col_of C) s) →
  Forall2 (consistent (S n)) Ds cols'
  ∧ omap (λ c : any_column, row_of c n) cols' = zip_with (λ C v, stored (col_of C) v) Ds r
  ∧ ∀ i, i < n → omap (λ c : any_column, row_of c i) cols' = omap (λ c : any_column, row_of c i) cols.
Proof.
  revert r cols'. induction cols as [|c cols IH]; intros r cols' Ds Hc Hr E Hf; inversion Hc as [|C ? Ds' ? HC Hc']; subst;
    inversion Hr as [|? v ? r' Hv Hr']; subst.
  { cbn [append_loop] in E. injection E as <-. done. }
  destruct HC as (s & -> & Hw & Hn). cbn [append_loop Block.AppendRow columns interface_columns iface cstate] in E.
  destruct (Column.AppendRow (col_of C) s v) as [[s' [e|]]|] eqn:Ea; [done| |done].
  destruct (append_loop (CO := columns) cols r') as [cs e] eqn:El. injection E as <- ->.
  assert (fits (col_of C) s') as Hfs by (by apply (Hf 0)).
  destruct (law_append _ _ _ Hw Hv Ea Hfs) as (Hw' & Hn' & Hold & Hnew).
  destruct (IH r' cs Ds' Hc' Hr' El) as (H1 & H2 & H3).
  { intros j D t Hj Ht. by apply (Hf (S j)). }
  split; [constructor; [exists s'; split; [done|split; [done|congruence]]|done]|]. split.
  - cbn [omap list_omap zip_with]. unfold row_of at 1. cbn [iface cstate]. rewrite Hn in Hnew. rewrite Hnew. by rewrite <- H2.
  - intros i Hi. cbn [omap list_omap]. unfold row_of at 1 3. cbn [iface cstate]. rewrite Hold by lia. by rewrite <- (H3 i Hi).
Qed.

Lemma block_Rows_consistent n k : Forall2 (consistent n) (C0 :: Cs) (Columns k) → block_Rows k = n.
Proof.
  intros H. unfold block_Rows. inversion H as [|? c ? cols (s & -> & _ & Hn) _]. done.
Qed.

Lemma driver_append k r k' :
  block_consistent k → row_accepted r → Block.Append k r = (k', None) → block_within k' →
  block_consistent k' ∧ content k' = content k ++ [row_stored r].
Proof.
  intros Hk Hr Ea Hf. unfold Block.Append in Ea. destruct (negb _); [done|].
  destruct (append_loop (Columns k) r) as [cols e] eqn:El. injection Ea as <- ->.
  destruct (append_loop_consistent _ _ _ _ _ Hk Hr El Hf) as (H1 & H2 & H3).
  pose proof (block_Rows_consistent _ (MkBlock (names k) cols) H1) as Hn. split; [unfold block_consistent; by rewrite Hn|].
  cbn [content driver_blocks]. rewrite Hn, seq_S, map_app. f_equal.
  - apply map_ext_in. intros i [_ Hi]%in_seq. by apply H3.
  - cbn [map]. f_equal. exact H2.
Qed.

#[export] Instance driver_laws : BlockLaws driver_blocks.
Proof.
  refine (@Build_BlockLaws driver_blocks block_consistent block_within row_accepted row_stored driver_append _ _).
  - intros k _. cbn [bRows content driver_blocks]. split; [by intros ->|]. intros H%map_eq_nil. by destruct (block_Rows k).
  - intros k Hk.
    assert (Forall2 (consistent 0) (C0 :: Cs) (Columns (block_Reset k))) as H0.
    { cbn [block_Reset Columns]. apply Forall2_fmap_r. eapply Forall2_impl; [exact Hk|]. intros C c (s & -> & Hw & _).
      destruct (law_reset (I := col_of C) s Hw) as [Hw' Hr']. by exists (Reset (col_of C) s). }
    pose proof (block_Rows_consistent _ _ H0) as Hn. cbn [bReset content driver_blocks]. split; [unfold block_consistent; by rewrite Hn|].
    by rewrite Hn.
Defined.

(** A block with the columns of the table and no rows. *)
Lemma fresh_block_consistent ns : block_consistent (MkBlock ns (map fresh_col (C0 :: Cs))) ∧ content (MkBlock ns (map fresh_col (C0 :: Cs))) = [].
Proof.
  assert (∀ Ds, Forall2 (consistent 0) Ds (map fresh_col Ds)) as H.
  { intros Ds. apply Forall2_fmap_r, Forall_Forall2_diag, Forall_true. intros C. destruct (law_fresh (I := col_of C)) as [Hw Hr].
    by exists (fresh (col_of C)). }
  pose proof (block_Rows_consistent _ (MkBlock ns (map fresh_col (C0 :: Cs))) (H (C0 :: Cs))) as Hn.
  split; [unfold block_consistent; rewrite Hn; apply H|]. cbn [content driver_blocks]. by rewrite Hn.
Qed.

(** A new batch on the driver's own columns: appends and flushes that return no error,
    and a final [Send] that does not either, have handed over every row once and in
    order, each value as its column stores it. *)
Lemma driver_rows_delivered c closeFlush ns os w b' w' es :
  let b := MkBatch None (Some c) false false closeFlush (MkBlock ns (map fresh_col (C0 :: Cs))) in
  held_is c w (Some c) → Forall append_or_flush os → Forall row_accepted (appended os) → stays_fit os b w →
  run_ops (os ++ [OpSend]) b w = Some (b', w', es) → Forall (λ e, e = None) es →
  delivered (trace w') = delivered (trace w) ++ map row_stored (appended os).
Proof.
  intros b Hw Ho Hr Hf E Hes. destruct (fresh_block_consistent ns) as [Hk Hn].
  refine (proj1 (run_delivers c os b w b' w' es _ Hk Hn Ho Hr Hf E Hes)). split; [done|]. split; [by eexists|done].
Qed.
End driver_blocks.
